(* ===== verification/_CoqProject ===== *)
-Q . S2P
Prelude.v
BitmapBytes.v
Bitmap.v
BitmapFind.v
BitmapScan.v
BitmapAlloc.v
BitmapTheorems.v
KeState.v
KeSched.v
KeWait.v
KeInv.v
KeReady.v
KeFrame.v
KeTest.v
KeObjects.v
KeBlock.v
KeOps.v
KeObjOk.v
KeBlockOk.v
KeMultiOk.v
KeWake.v
KeServe.v
KeCalls.v
KeExample.v
KeTheorems.v
Splay.v
SplayTree.v
SplayDelete.v
GenTable.v
GenTableOk.v
GenTableOps.v
GenTableEnum.v
GenTableTheorems.v
LargeInt.v
Time.v
TimeOk.v
TimeRound.v
TimeTheorems.v
Resource.v
ResourceSys.v
ResourceInv.v
ResourceOk.v
ResourceAcquire.v
ResourceRelease.v
ResourceWait.v
ResourceRun.v
ResourceTheorems.v
Name.v
NameWalk.v
NameLang.v
NameSpace.v
NameFits.v
NameOverflow.v
NameTheorems.v
Mcb.v
McbRuns.v
McbLogic.v
McbAdd.v
McbCut.v
McbSplit.v
McbSpec.v
McbQueries.v
McbTheorems.v
AclMem.v
Acl.v
AclOk.v
Access.v
SecDesc.v
AccessSpec.v
SecExample.v
AclTheorems.v
AccessTheorems.v
SecTheorems.v
