(* ===== verification/Prelude.v ===== *)
(** * MicroNT (NT 3.50 "Daytona"): a machine-checked model of kernel components

    The repository holds the sources of an NT 3.50 kernel ([NTOS]): the kernel
    dispatcher [KE], the executive [EX], the run-time library [RTL] that every part
    of the system links, and the managers and file systems on top of them. This
    development models, in this order, the run-time library's bitmaps, the thread
    scheduler and the waits of the dispatcher, the run-time library's splay trees
    and generic tables, its time package, the executive's resources, the file system
    library's names and mapping control blocks, and the security of objects: access
    lists, descriptors and access checks. Paths below are relative to [src/src/NT/PRIVATE/NTOS].

    ** How code is modelled

    A C function is a Rocq function with the name of the source that takes the
    state it reads and returns the state it leaves. [None] is behaviour the source
    must not show: an access outside an array or table, a null or dangling pointer
    that is followed, an object of the wrong type, a loop that does not end. A
    theorem that a function returns [Some] is therefore also a theorem of memory
    safety and termination. Integers are [Z]; the conversions of a C expression back
    to its width are written out ([u8], [u32], [s16], [s32], [s64], and [+u], [-u],
    [*u] for [ULONG] arithmetic). A pointer to a structure is an identifier in a map; a doubly linked
    list is a list, head first, unless its links are the point. Raised statuses and
    [BOOLEAN] results are values. Fuel bounds a loop that is not structural; each
    bound is shown to be enough where the routine is shown to return: the number of
    bytes left for the bitmap scans, the number of records in the heap for walks in a
    tree, the number of waiters of the swap event for the recursion between
    [KiWaitTest] and [KiReadyThread].

    ** The bitmap package ([RTL/BITMAP.C])

    - [BitmapBytes]: the byte tables and macros. [Bitmap]: [RTL_BITMAP], whole-map
      and range updates. [BitmapFind]: the two searches with their three byte loops
      and two passes. [BitmapScan]: tests, counts, longest and first runs.
    - [BitmapAlloc]: the class [RangeAllocator], what a client of the package relies
      on, its instance, and a client that allocates and releases in any order.
    - [BitmapTheorems]: searches return free runs and miss none outside one case,
      which is shown to be real; updates change exactly their range; clients never
      hold overlapping ranges and are served when a range is free; counts and runs are
      exact.

    ** The dispatcher ([KE/THREDSUP.C], [WAITSUP.C], [WAIT.C], [EVENTOBJ.C],
       [SEMPHOBJ.C], [MUTNTOBJ.C], [I386/CTXSWAP.ASM]; uniprocessor build)

    - [KeState]: threads, dispatcher objects, processes and the global variables as
      one record [KSTATE]. [KeSched]: ready queues, selection and context switch.
      [KeWait]: satisfying waits, [KiWaitTest] and [KiUnwaitThread]. [KeObjects]:
      events, semaphores, mutants. [KeBlock]: the two wait services.
    - [KeInv]: the invariant of the dispatcher database. [KeReady], [KeFrame],
      [KeTest], [KeOps], [KeObjOk], [KeBlockOk], [KeMultiOk]: every routine is
      defined on a state with the invariant and keeps it. [KeWake]: the
      exact effect of waits and of signals. [KeServe]: the threads that a released
      semaphore serves, one unit each.
    - [KeCalls]: the calls of all threads and the idle loop as one transition
      relation; a call may leave another thread running, so sequences of steps are
      the interleavings; and when the wait of a thread is over ([wait_ready]), by the
      test of the wait services. [KeExample]: a small system for the examples.
    - [KeTheorems]: safety over all sequences of calls (ready queues and priority
      order, ownership of mutants, no missed wakeup), the effect of each service on
      its branches, errors, and two defects. One of these is that a thread which
      waits for all of several objects, a mutant of its own among them, is not woken,
      so the theorems on missed wakeups are for other waits.

    ** Splay links and generic tables ([RTL/SPLAY.C], [RTL/GENTABLE.C], macros of
       [NTRTL.H])

    - [Splay]: links with parent pointers in a heap, splaying, deletion, successors
      and predecessors. [SplayTree]: trees and contexts as lists of heap cells
      ([holds]), and, with [SplayDelete], the routines against trees.
    - [GenTable]: the table routines; the user's compare and allocation routines are
      arguments. [GenTableOk] has the class [CompareOrder] that a comparison must
      satisfy, and the relation [rep] between a table and its list of elements;
      [GenTableOps] has the class [Allocator] and every operation, [GenTableEnum]
      the enumeration loops.
    - [GenTableTheorems]: splaying equals functional bottom-up splaying, deletion
      removes one link, a table refines a list of elements for every sequence of
      calls, and enumerations are sorted and complete.

    ** The time package ([RTL/TIME.C], [RTL/I386/LARGEINT.ASM])

    - [LargeInt]: 64-bit addition, multiplication and reciprocal division in 32-bit
      words, with the value of each. [Time]: the conversions between times, time
      fields and seconds, and cutover times. [TimeOk]: the Gregorian calendar,
      counted year by year, and the proof that the divisions and tables of the
      package compute it. [TimeRound]: round trips and cutover days.
    - [TimeTheorems]: exact divisions, correct dates for all 64-bit times, round
      trips, range checks (with two gaps), and the days of time zone cutovers.

    ** Executive resources ([EX/RESOURCE.C]; uniprocessor free build)

    - [Resource]: [ERESOURCE] and each routine as a section under the resource's
      lock, which ends with a result or at a [pc], where the thread waits or wakes
      others. [ResourceSys]: a system of a resource, its event and semaphore, and
      threads; a step is one section of one thread, one call of the dispatcher, or a
      wait that times out, in any interleaving.
    - [ResourceInv]: the invariant: the mode of the resource (shared, owned, being
      handed over) and how its counts are sums over the threads. [ResourceOk],
      [ResourceAcquire], [ResourceRelease], [ResourceWait], [ResourceRun]: each step
      is defined and keeps it, and the counts in machine words are exact.
    - [ResourceTheorems]: exclusion, no lost wakeup, exact counts and queries in every
      reachable state, and a count that leaks in [ExAcquireSharedWaitForExclusive],
      which the other theorems exclude for that reason. They are for fewer than 2^15
      threads, as many as a [SHORT] counts.

    ** File name support ([FSRTL/NAME.C])

    - [Name]: dissection, comparison and the matcher, which keeps the states of a
      nondeterministic automaton in two arrays, on the stack or in a pool block; a
      write outside an array is [None]. The case table of the language is a parameter.
    - [NameLang]: the language of an expression as an inductive relation, for stars,
      question marks and the DOS wild cards, and that the matcher decides it.
      [NameWalk]: the arrays are walks, so that skipping matches loses none. [NameSpace], [NameFits]: without DOS wild cards
      there are at most two matches for each character, and the arrays have room.
      [NameOverflow]: for any wild cards, when the arrays overflow.
    - [NameTheorems]: the answer of the matcher, its overflow with the DOS wild cards,
      comparison, and the names of a path. Expressions have less than 2^14 characters,
      so that twice the byte offset of one fits the 16 bits of a state.

    ** Mapping control blocks ([FSRTL/LARGEMCB.C])

    - [Mcb]: a block is an array of pairs, each where the next run begins and the
      logical block of a run; the operations are in a monad over the block, in which
      an access outside the array is [Wild] and a failed allocation raises a status.
      What an allocation finds in memory, and whether it fails, is a parameter.
    - [McbRuns]: the lists of pairs that stand for mappings, and that a mapping has
      only one. [McbLogic]: Hoare triples for the monad, the macros and the binary
      search. [McbAdd]: adding a run. [McbCut]: removal and truncation. [McbSplit]: splitting.
      [McbQueries]: the queries. Fuel is one more than the number of pairs: the
      search halves its interval, the removal goes on to a later run in each turn,
      and the shift visits each pair once.
    - [McbSpec]: the specification, a partial function from blocks to logical blocks,
      and the states that calls reach. [McbTheorems]: the operations refine it, the
      pairs are determined by the mapping, and the queries give its longest runs.

    ** Security ([RTL/ACLEDIT.C], [RTL/SERTL.C], [SE/SEP.C], [SE/ACCESSCK.C],
       [SE/PRIVILEG.C], [SE/SEGLOBAL.C])

    - [AclMem]: memory as its mapped bytes; a load or store elsewhere is [None].
      Structures do not wrap around the end of the address space. [Acl]: identifiers,
      the routines for access lists, and [SepCheckAcl]. [Access]: tokens, privileges,
      [SeAccessCheck] with its two walks over the list, the privilege policy and the
      traverse check; a descriptor is absolute or self-relative. [SecDesc]: the
      setters, getters and checks of descriptors, and access masks.
    - [AclOk]: the bytes of a list are a list of entries ([holds_acl]), and
      what each routine does to it. The fuel of [count_loop] is the number of bytes of
      the entries to add, which have four bytes at least; an entry of size 0 is walked
      forever by the code and is [None]. [SecDesc] also has
      descriptors as records.
    - [AccessSpec]: the entries that an access check reads, the identifiers of a token,
      the verdict of the first entry that decides a bit, which bits a token may have,
      and the check against it. [SecExample]: an object in memory.
    - [AclTheorems]: editing refines lists of entries, a captured list is safe to walk,
      and a malformed list that is taken for valid. [AccessTheorems]: requests of bits
      and of all that is allowed are exact, traversal is sound up to a gap, and the
      kernel's request of all. [SecTheorems]: descriptors refine records, and
      new lists are read back.

    ** Not modelled

    In [KE]: timers and their expiration, queues, event pairs, APC and DPC objects,
    process and thread objects, [KeDelayExecutionThread] and
    [KeReleaseWaitForSemaphore]; [KiSetPriorityThread] is defined, without
    theorems. The multiprocessor build. Trap and interrupt entry, which is assembly.
    In [EX/RESOURCE.C]: [ExDeleteResourceLite], the list of all resources, statistics
    and priority boosts. In [FSRTL/LARGEMCB.C]: [FsRtlUninitializeLargeMcb], the mutex
    around each call, and the cache of freed arrays. In [RTL]: strings,
    heaps, compression; in [SERTL.C] the conversion of identifiers to strings and the
    security of new objects. In [SE]: token objects and their locks, capture of
    arguments, audits and [NtAccessCheck]. The rest of the executive ([EX], [OB], [PS],
    [LPC], [CONFIG], the rest of [FSRTL], [CACHE], [MM], [IO]), the file systems,
    drivers, networking and user mode. Next in the plan: the remaining dispatcher
    objects and byte-range locks.

    The rest of this file holds what the components share: machine integers, bits,
    arrays, filters, record update, and tactics. *)

From stdpp Require Import base list numbers option.
From Stdlib Require Import ZArith Lia Btauto.

Declare Scope nt_scope.
Delimit Scope nt_scope with nt.
Open Scope nt_scope.
Open Scope Z_scope.

(** ** Machine-width integers

    A [ULONG] (or any unsigned [w]-bit C integer) is a [Z] in [[0, 2^w)]; the
    definitions apply [u8], [u16], [u32] or [s32] wherever the C expression is
    converted back to its width. *)

Definition u8 (x : Z) : Z := x mod 2 ^ 8.
Definition u16 (x : Z) : Z := x mod 2 ^ 16.
Definition u32 (x : Z) : Z := x mod 2 ^ 32.
Definition s32 (x : Z) : Z := (x + 2 ^ 31) mod 2 ^ 32 - 2 ^ 31.
Definition s16 (x : Z) : Z := (x + 2 ^ 15) mod 2 ^ 16 - 2 ^ 15.
Definition s8 (x : Z) : Z := (x + 2 ^ 7) mod 2 ^ 8 - 2 ^ 7.
Definition u64 (x : Z) : Z := x mod 2 ^ 64.
Definition s64 (x : Z) : Z := (x + 2 ^ 63) mod 2 ^ 64 - 2 ^ 63.

Definition MAXULONG : Z := 2 ^ 32 - 1.

Notation "x '+u' y" := (u32 (x + y)) (at level 50, left associativity) : nt_scope.
Notation "x '-u' y" := (u32 (x - y)) (at level 50, left associativity) : nt_scope.
Notation "x '*u' y" := (u32 (x * y)) (at level 40, left associativity) : nt_scope.

Definition is_u8 (x : Z) : Prop := 0 ≤ x < 2 ^ 8.
Definition is_u32 (x : Z) : Prop := 0 ≤ x < 2 ^ 32.

Lemma u32_small (x : Z) : 0 ≤ x < 2 ^ 32 → u32 x = x.
Proof. intros. unfold u32. by apply Z.mod_small. Qed.

Lemma s32_small (x : Z) : - 2 ^ 31 ≤ x < 2 ^ 31 → s32 x = x.
Proof. intros. unfold s32. rewrite Z.mod_small; lia. Qed.

Lemma u16_small (x : Z) : 0 ≤ x < 2 ^ 16 → u16 x = x.
Proof. apply Z.mod_small. Qed.
Lemma s16_small (x : Z) : - 2 ^ 15 ≤ x < 2 ^ 15 → s16 x = x.
Proof. intros. unfold s16. rewrite Z.mod_small; lia. Qed.

Lemma s8_small (x : Z) : - 2 ^ 7 ≤ x < 2 ^ 7 → s8 x = x.
Proof. intros. unfold s8. rewrite Z.mod_small; lia. Qed.

Lemma s64_small (x : Z) : - 2 ^ 63 ≤ x < 2 ^ 63 → s64 x = x.
Proof. intros. unfold s64. rewrite Z.mod_small; lia. Qed.

Lemma u64_small (x : Z) : 0 ≤ x < 2 ^ 64 → u64 x = x.
Proof. intros. unfold u64. by apply Z.mod_small. Qed.

Lemma u32_range (x : Z) : is_u32 (u32 x).
Proof. unfold is_u32, u32. apply Z.mod_pos_bound. lia. Qed.

Lemma u8_range (x : Z) : is_u8 (u8 x).
Proof. unfold is_u8, u8. apply Z.mod_pos_bound. lia. Qed.

Lemma s32_range (x : Z) : - 2 ^ 31 ≤ s32 x < 2 ^ 31.
Proof. unfold s32. pose proof (Z.mod_pos_bound (x + 2^31) (2^32)). lia. Qed.

Create HintDb nt discriminated.
#[export] Hint Resolve u32_range u8_range : nt.

(** [drop_wrap] removes every [u32] whose argument [lia] can bound. *)
Ltac drop_wrap :=
  repeat match goal with
  | |- context [u32 ?x] => rewrite (u32_small x) by lia
  | H : context [u32 ?x] |- _ => rewrite (u32_small x) in H by lia
  end.

(** ** Bitwise reasoning on [Z] *)

Lemma testbit_u32 (x i : Z) : Z.testbit (u32 x) i = (i <? 32) && Z.testbit x i.
Proof. unfold u32. by rewrite Z.testbit_mod_pow2 by lia. Qed.

Lemma testbit_u8 (x i : Z) : Z.testbit (u8 x) i = (i <? 8) && Z.testbit x i.
Proof. unfold u8. by rewrite Z.testbit_mod_pow2 by lia. Qed.

Lemma testbit_shiftl (a n i : Z) :
  0 ≤ i → Z.testbit (Z.shiftl a n) i = Z.testbit a (i - n).
Proof. apply Z.shiftl_spec. Qed.

Lemma testbit_high (x n i : Z) :
  0 ≤ x < 2 ^ n → 0 ≤ n ≤ i → Z.testbit x i = false.
Proof.
  intros Hx Hn. rewrite <- (Z.mod_small x (2 ^ n)) by lia.
  by apply Z.mod_pow2_bits_high.
Qed.

Lemma testbit_ones_full (n i : Z) :
  0 ≤ n → Z.testbit (Z.ones n) i = (0 <=? i) && (i <? n).
Proof. apply Z.testbit_ones. Qed.

Lemma testbit_mask32 (i : Z) : Z.testbit 0xffffffff i = (0 <=? i) && (i <? 32).
Proof. change 0xffffffff with (Z.ones 32). by apply testbit_ones_full. Qed.

Lemma testbit_mask8 (i : Z) : Z.testbit 0xff i = (0 <=? i) && (i <? 8).
Proof. change 0xff with (Z.ones 8). by apply testbit_ones_full. Qed.

Create Rewrite HintDb nt_bits.
#[export] Hint Rewrite Z.land_spec Z.lor_spec Z.lxor_spec testbit_u32 testbit_u8
  Z.testbit_0_l testbit_mask32 testbit_mask8 : nt_bits.
#[export] Hint Rewrite Z.shiftr_spec testbit_shiftl Z.lnot_spec testbit_ones_full
  using lia : nt_bits.

(** A value is below [2^n] when its bits from [n] on are clear. *)
Lemma bits_bound (x n : Z) :
  0 ≤ n → 0 ≤ x → (∀ i, n ≤ i → Z.testbit x i = false) → x < 2 ^ n.
Proof.
  intros Hn Hx Hi. destruct (Z.eq_dec x 0) as [->|]; [lia|].
  destruct (Z.lt_ge_cases x (2 ^ n)) as [|Hge]; [done|].
  pose proof (Z.log2_le_mono _ _ Hge) as Hl. rewrite Z.log2_pow2 in Hl by lia.

  specialize (Hi (Z.log2 x) Hl). rewrite Z.bit_log2 in Hi by lia. done.
Qed.

Lemma bool_eq_true (a b : bool) : (a = true ↔ b = true) → a = b.
Proof. destruct a, b; intuition congruence. Qed.

(** Case analysis on the boolean comparisons of the goal. *)
Ltac split_tests :=
  repeat match goal with
  | |- context [?a <? ?b] => destruct (Z.ltb_spec a b)
  | |- context [?a <=? ?b] => destruct (Z.leb_spec a b)
  | |- context [?a =? ?b] => destruct (Z.eqb_spec a b)
  | H : context [?a <? ?b] |- _ => destruct (Z.ltb_spec a b)
  | H : context [?a <=? ?b] |- _ => destruct (Z.leb_spec a b)
  | H : context [?a =? ?b] |- _ => destruct (Z.eqb_spec a b)
  end.

(** Compare two words bit by bit. *)
Ltac bitwise i :=
  apply Z.bits_inj'; intros i ?; autorewrite with nt_bits;
  split_tests; simpl; try lia; try btauto.

(** ** Exhaustive checks over a range *)

(** A decidable property of the integers [[0, n)] holds when its boolean test
    succeeds on each of them. *)
Lemma forall_range (P : Z → bool) (n : Z) :
  forallb P (seqZ 0 n) = true → ∀ x, 0 ≤ x < n → P x = true.
Proof.
  intros H x Hx. rewrite forallb_forall in H. apply H.
  apply list_elem_of_In, elem_of_seqZ. lia.
Qed.

(** ** Arrays addressed by a [Z] index, as C addresses them

    [None] is an access outside the array. *)

Definition array_get {A} (l : list A) (i : Z) : option A :=
  if 0 <=? i then l !! Z.to_nat i else None.

Definition array_set {A} (l : list A) (i : Z) (x : A) : option (list A) :=
  if (0 <=? i) && (i <? Z.of_nat (length l)) then Some (<[Z.to_nat i := x]> l) else None.

Definition zlen {A} (l : list A) : Z := Z.of_nat (length l).

Lemma array_get_Some {A} (l : list A) (i : Z) :
  0 ≤ i < zlen l → ∃ x, array_get l i = Some x.
Proof.
  unfold zlen, array_get. intros Hi. rewrite (proj2 (Z.leb_le _ _)) by lia.
  apply lookup_lt_is_Some_2. lia.
Qed.

Lemma array_get_range {A} (l : list A) (i : Z) (x : A) :
  array_get l i = Some x → 0 ≤ i < zlen l.
Proof.
  unfold array_get, zlen. destruct (Z.leb_spec 0 i); [|done].
  intros Hl%lookup_lt_Some. lia.
Qed.

Lemma array_set_Some {A} (l : list A) (i : Z) (x : A) :
  0 ≤ i < zlen l → array_set l i x = Some (<[Z.to_nat i := x]> l).
Proof.
  unfold zlen, array_set. intros Hi.
  by rewrite (proj2 (Z.leb_le _ _)), (proj2 (Z.ltb_lt _ _)) by lia.
Qed.

Lemma array_get_set {A} (l l' : list A) (i j : Z) (x : A) :
  array_set l i x = Some l' →
  array_get l' j = if j =? i then Some x else array_get l j.
Proof.
  unfold array_set, array_get.
  destruct (Z.leb_spec 0 i), (Z.ltb_spec i (Z.of_nat (length l))); simpl; [|done..].
  intros [= <-]. destruct (Z.eqb_spec j i) as [->|Hne].
  - rewrite (proj2 (Z.leb_le _ _)) by lia. apply list_lookup_insert_eq. lia.
  - destruct (Z.leb_spec 0 j); [|done]. apply list_lookup_insert_ne. lia.
Qed.

Lemma array_set_length {A} (l l' : list A) (i : Z) (x : A) :
  array_set l i x = Some l' → zlen l' = zlen l.
Proof.
  unfold array_set, zlen. destruct (_ && _); [|done]. intros [= <-].
  by rewrite length_insert.
Qed.

Lemma array_set_Forall {A} (P : A → Prop) (l l' : list A) (i : Z) (x : A) :
  array_set l i x = Some l' → Forall P l → P x → Forall P l'.
Proof.
  unfold array_set. destruct (_ && _); [|done]. intros [= <-] ??.
  by apply Forall_insert.
Qed.

Lemma array_get_Forall {A} (P : A → Prop) (l : list A) (i : Z) (x : A) :
  array_get l i = Some x → Forall P l → P x.
Proof.
  unfold array_get. destruct (0 <=? i); [|done]. intros H HF.
  by eapply Forall_lookup_1.
Qed.

(** ** Filters *)

Lemma filter_ext_in {A} (P Q : A → Prop) `{!∀ x, Decision (P x), !∀ x, Decision (Q x)}
    (l : list A) :
  (∀ x, x ∈ l → P x ↔ Q x) → filter P l = filter Q l.
Proof.
  induction l as [|x l IH]; intros Hiff; [done|].
  rewrite !list.filter_cons, IH by (intros; apply Hiff, elem_of_cons; by right).
  pose proof (Hiff x) as Hx. rewrite elem_of_cons in Hx.
  destruct (decide (P x)), (decide (Q x)); tauto.
Qed.

Lemma filter_id {A} (P : A → Prop) `{!∀ x, Decision (P x)} (l : list A) :
  (∀ x, x ∈ l → P x) → filter P l = l.
Proof.
  induction l as [|x l IH]; intros Hall; [done|]. rewrite list.filter_cons.
  rewrite decide_True by (apply Hall, elem_of_cons; by left).
  f_equal. apply IH. intros y Hy. apply Hall, elem_of_cons. by right.
Qed.

(** ** Record update

    [r <| f := v |>] is the record [r] with field [f] replaced by [v]. A record
    type declares its eta-expansion once ([Eta]); the setter of a field is
    obtained from it by abstracting the field's projection. *)

Class Eta (R : Type) := eta_expand : R → R.
Class Setter {R E : Type} (f : R → E) := { modify_field : (E → E) → R → R }.
Arguments modify_field {R E} f {_} _ _.

Ltac derive_setter :=
  match goal with
  | |- @Setter ?R ?E ?f =>
      let e := constr:(_ : Eta R) in
      let body := eval red in e in
      let abs := eval pattern f in body in
      match abs with
      | ?g f =>
          let s := eval cbv beta in (λ (upd : E → E) (r : R), g (λ x, upd (f x)) r) in
          exact {| modify_field := s |}
      end
  end.
#[export] Hint Extern 1 (Setter _) => derive_setter : typeclass_instances.

Notation "r <| f := v |>" := (modify_field f (λ _, v) r)
  (at level 1, f at level 99, left associativity) : nt_scope.
