(* ===== verification/BitmapBytes.v ===== *)
(** * The byte tables of the bitmap package

    The lookup tables and the byte-level macros of [RTL/BITMAP.C] and
    [RTL/NTRTLP.H], with the facts about a single byte on which the scanning
    routines rest.  The tables are the literals of the source; each is proved
    equal to the function on bits it tabulates. *)

From stdpp Require Import base list numbers option.
From Stdlib Require Import ZArith Lia.
From S2P Require Import Prelude.

Module Tables.

Definition RtlpBitsClearAnywhere : list Z :=
  [ 8; 7; 6; 6; 5; 5; 5; 5; 4; 4; 4; 4; 4; 4; 4; 4;
    4; 3; 3; 3; 3; 3; 3; 3; 3; 3; 3; 3; 3; 3; 3; 3;
    5; 4; 3; 3; 2; 2; 2; 2; 3; 2; 2; 2; 2; 2; 2; 2;
    4; 3; 2; 2; 2; 2; 2; 2; 3; 2; 2; 2; 2; 2; 2; 2;
    6; 5; 4; 4; 3; 3; 3; 3; 3; 2; 2; 2; 2; 2; 2; 2;
    4; 3; 2; 2; 2; 1; 1; 1; 3; 2; 1; 1; 2; 1; 1; 1;
    5; 4; 3; 3; 2; 2; 2; 2; 3; 2; 1; 1; 2; 1; 1; 1;
    4; 3; 2; 2; 2; 1; 1; 1; 3; 2; 1; 1; 2; 1; 1; 1;
    7; 6; 5; 5; 4; 4; 4; 4; 3; 3; 3; 3; 3; 3; 3; 3;
    4; 3; 2; 2; 2; 2; 2; 2; 3; 2; 2; 2; 2; 2; 2; 2;
    5; 4; 3; 3; 2; 2; 2; 2; 3; 2; 1; 1; 2; 1; 1; 1;
    4; 3; 2; 2; 2; 1; 1; 1; 3; 2; 1; 1; 2; 1; 1; 1;
    6; 5; 4; 4; 3; 3; 3; 3; 3; 2; 2; 2; 2; 2; 2; 2;
    4; 3; 2; 2; 2; 1; 1; 1; 3; 2; 1; 1; 2; 1; 1; 1;
    5; 4; 3; 3; 2; 2; 2; 2; 3; 2; 1; 1; 2; 1; 1; 1;
    4; 3; 2; 2; 2; 1; 1; 1; 3; 2; 1; 1; 2; 1; 1; 0 ].

Definition RtlpBitsClearLow : list Z :=
  [ 8; 0; 1; 0; 2; 0; 1; 0; 3; 0; 1; 0; 2; 0; 1; 0;
    4; 0; 1; 0; 2; 0; 1; 0; 3; 0; 1; 0; 2; 0; 1; 0;
    5; 0; 1; 0; 2; 0; 1; 0; 3; 0; 1; 0; 2; 0; 1; 0;
    4; 0; 1; 0; 2; 0; 1; 0; 3; 0; 1; 0; 2; 0; 1; 0;
    6; 0; 1; 0; 2; 0; 1; 0; 3; 0; 1; 0; 2; 0; 1; 0;
    4; 0; 1; 0; 2; 0; 1; 0; 3; 0; 1; 0; 2; 0; 1; 0;
    5; 0; 1; 0; 2; 0; 1; 0; 3; 0; 1; 0; 2; 0; 1; 0;
    4; 0; 1; 0; 2; 0; 1; 0; 3; 0; 1; 0; 2; 0; 1; 0;
    7; 0; 1; 0; 2; 0; 1; 0; 3; 0; 1; 0; 2; 0; 1; 0;
    4; 0; 1; 0; 2; 0; 1; 0; 3; 0; 1; 0; 2; 0; 1; 0;
    5; 0; 1; 0; 2; 0; 1; 0; 3; 0; 1; 0; 2; 0; 1; 0;
    4; 0; 1; 0; 2; 0; 1; 0; 3; 0; 1; 0; 2; 0; 1; 0;
    6; 0; 1; 0; 2; 0; 1; 0; 3; 0; 1; 0; 2; 0; 1; 0;
    4; 0; 1; 0; 2; 0; 1; 0; 3; 0; 1; 0; 2; 0; 1; 0;
    5; 0; 1; 0; 2; 0; 1; 0; 3; 0; 1; 0; 2; 0; 1; 0;
    4; 0; 1; 0; 2; 0; 1; 0; 3; 0; 1; 0; 2; 0; 1; 0 ].

Definition RtlpBitsClearHigh : list Z :=
  [ 8; 7; 6; 6; 5; 5; 5; 5; 4; 4; 4; 4; 4; 4; 4; 4;
    3; 3; 3; 3; 3; 3; 3; 3; 3; 3; 3; 3; 3; 3; 3; 3;
    2; 2; 2; 2; 2; 2; 2; 2; 2; 2; 2; 2; 2; 2; 2; 2;
    2; 2; 2; 2; 2; 2; 2; 2; 2; 2; 2; 2; 2; 2; 2; 2;
    1; 1; 1; 1; 1; 1; 1; 1; 1; 1; 1; 1; 1; 1; 1; 1;
    1; 1; 1; 1; 1; 1; 1; 1; 1; 1; 1; 1; 1; 1; 1; 1;
    1; 1; 1; 1; 1; 1; 1; 1; 1; 1; 1; 1; 1; 1; 1; 1;
    1; 1; 1; 1; 1; 1; 1; 1; 1; 1; 1; 1; 1; 1; 1; 1;
    0; 0; 0; 0; 0; 0; 0; 0; 0; 0; 0; 0; 0; 0; 0; 0;
    0; 0; 0; 0; 0; 0; 0; 0; 0; 0; 0; 0; 0; 0; 0; 0;
    0; 0; 0; 0; 0; 0; 0; 0; 0; 0; 0; 0; 0; 0; 0; 0;
    0; 0; 0; 0; 0; 0; 0; 0; 0; 0; 0; 0; 0; 0; 0; 0;
    0; 0; 0; 0; 0; 0; 0; 0; 0; 0; 0; 0; 0; 0; 0; 0;
    0; 0; 0; 0; 0; 0; 0; 0; 0; 0; 0; 0; 0; 0; 0; 0;
    0; 0; 0; 0; 0; 0; 0; 0; 0; 0; 0; 0; 0; 0; 0; 0;
    0; 0; 0; 0; 0; 0; 0; 0; 0; 0; 0; 0; 0; 0; 0; 0 ].

Definition RtlpBitsClearTotal : list Z :=
  [ 8; 7; 7; 6; 7; 6; 6; 5; 7; 6; 6; 5; 6; 5; 5; 4;
    7; 6; 6; 5; 6; 5; 5; 4; 6; 5; 5; 4; 5; 4; 4; 3;
    7; 6; 6; 5; 6; 5; 5; 4; 6; 5; 5; 4; 5; 4; 4; 3;
    6; 5; 5; 4; 5; 4; 4; 3; 5; 4; 4; 3; 4; 3; 3; 2;
    7; 6; 6; 5; 6; 5; 5; 4; 6; 5; 5; 4; 5; 4; 4; 3;
    6; 5; 5; 4; 5; 4; 4; 3; 5; 4; 4; 3; 4; 3; 3; 2;
    6; 5; 5; 4; 5; 4; 4; 3; 5; 4; 4; 3; 4; 3; 3; 2;
    5; 4; 4; 3; 4; 3; 3; 2; 4; 3; 3; 2; 3; 2; 2; 1;
    7; 6; 6; 5; 6; 5; 5; 4; 6; 5; 5; 4; 5; 4; 4; 3;
    6; 5; 5; 4; 5; 4; 4; 3; 5; 4; 4; 3; 4; 3; 3; 2;
    6; 5; 5; 4; 5; 4; 4; 3; 5; 4; 4; 3; 4; 3; 3; 2;
    5; 4; 4; 3; 4; 3; 3; 2; 4; 3; 3; 2; 3; 2; 2; 1;
    6; 5; 5; 4; 5; 4; 4; 3; 5; 4; 4; 3; 4; 3; 3; 2;
    5; 4; 4; 3; 4; 3; 3; 2; 4; 3; 3; 2; 3; 2; 2; 1;
    5; 4; 4; 3; 4; 3; 3; 2; 4; 3; 3; 2; 3; 2; 2; 1;
    4; 3; 3; 2; 3; 2; 2; 1; 3; 2; 2; 1; 2; 1; 1; 0 ].

Definition FillMask : list Z :=
  [ 0x00; 0x01; 0x03; 0x07; 0x0f; 0x1f; 0x3f; 0x7f; 0xff ].

Definition ZeroMask : list Z :=
  [ 0xff; 0xfe; 0xfc; 0xf8; 0xf0; 0xe0; 0xc0; 0x80; 0x00 ].

(** The macros that read a table at the complement of a byte. *)
Definition RtlpBitSetAnywhere (Byte : Z) : option Z :=
  array_get RtlpBitsClearAnywhere (Z.land (Z.lnot Byte) 0xff).
Definition RtlpBitsSetLow (Byte : Z) : option Z :=
  array_get RtlpBitsClearLow (Z.land (Z.lnot Byte) 0xff).
Definition RtlpBitsSetHigh (Byte : Z) : option Z :=
  array_get RtlpBitsClearHigh (Z.land (Z.lnot Byte) 0xff).
Definition RtlpBitsSetTotal (Byte : Z) : option Z :=
  array_get RtlpBitsClearTotal (Z.land (Z.lnot Byte) 0xff).
End Tables.
Export Tables.

(** The shift-until-it-fits loops, [for (i = 0; (BitMask & CurrentByte) != 0;
    i += 1) BitMask <<= 1] and its counterpart for set bits.  [BitMask] is a
    [UCHAR], so it is zero after eight shifts and nine tests are enough. *)
Fixpoint fit_clear (fuel : nat) (BitMask CurrentByte i : Z) : option Z :=
  if Z.land BitMask CurrentByte =? 0 then Some i else
  match fuel with
  | O => None
  | S fuel => fit_clear fuel (u8 (Z.shiftl BitMask 1)) CurrentByte (i +u 1)
  end.

Fixpoint fit_set (fuel : nat) (BitMask CurrentByte i : Z) : option Z :=
  if Z.land BitMask CurrentByte =? BitMask then Some i else
  match fuel with
  | O => None
  | S fuel => fit_set fuel (u8 (Z.shiftl BitMask 1)) CurrentByte (i +u 1)
  end.

(** ** What the tables mean *)

(** The number of clear bits of [b] from position [k] on, scanning up; at most
    [n]. *)
Fixpoint clear_up (n : nat) (b k : Z) : Z :=
  match n with
  | O => 0
  | S n => if Z.testbit b k then 0 else 1 + clear_up n b (k + 1)
  end.

(** The number of clear bits of [b] from position [k] down; at most [n]. *)
Fixpoint clear_down (n : nat) (b k : Z) : Z :=
  match n with
  | O => 0
  | S n => if Z.testbit b k then 0 else 1 + clear_down n b (k - 1)
  end.

Definition low_clear (b : Z) : Z := clear_up 8 b 0.
Definition high_clear (b : Z) : Z := clear_down 8 b 7.
Definition total_clear (b : Z) : Z :=
  zlen (filter (λ i, Z.testbit b i = false) (seqZ 0 8)).
Definition longest_clear (b : Z) : Z :=
  foldr Z.max 0 (map (λ s, clear_up (Z.to_nat (8 - s)) b s) (seqZ 0 8)).

Section tables_are_right.

Lemma table_low_eq : RtlpBitsClearLow = low_clear <$> seqZ 0 256.
Proof. vm_compute. reflexivity. Qed.
Lemma table_high_eq : RtlpBitsClearHigh = high_clear <$> seqZ 0 256.
Proof. vm_compute. reflexivity. Qed.
Lemma table_total_eq : RtlpBitsClearTotal = total_clear <$> seqZ 0 256.
Proof. vm_compute. reflexivity. Qed.
Lemma table_anywhere_eq : RtlpBitsClearAnywhere = longest_clear <$> seqZ 0 256.
Proof. vm_compute. reflexivity. Qed.

Lemma table_get (f : Z → Z) (t : list Z) (b : Z) :
  t = f <$> seqZ 0 256 → is_u8 b → array_get t b = Some (f b).
Proof.
  unfold is_u8, array_get. intros -> Hb. rewrite (proj2 (Z.leb_le _ _)) by lia.
  rewrite list_lookup_fmap, lookup_seqZ_lt by lia.
  simpl. do 2 f_equal. lia.
Qed.

End tables_are_right.

Lemma get_low (b : Z) : is_u8 b → array_get RtlpBitsClearLow b = Some (low_clear b).
Proof. apply table_get, table_low_eq. Qed.
Lemma get_high (b : Z) : is_u8 b → array_get RtlpBitsClearHigh b = Some (high_clear b).
Proof. apply table_get, table_high_eq. Qed.
Lemma get_total (b : Z) : is_u8 b → array_get RtlpBitsClearTotal b = Some (total_clear b).
Proof. apply table_get, table_total_eq. Qed.
Lemma get_anywhere (b : Z) :
  is_u8 b → array_get RtlpBitsClearAnywhere b = Some (longest_clear b).
Proof. apply table_get, table_anywhere_eq. Qed.

(** ** Facts about one byte *)

Lemma clear_up_spec (n : nat) (b k : Z) :
  let c := clear_up n b k in
  0 ≤ c ≤ Z.of_nat n ∧ (∀ j, k ≤ j < k + c → Z.testbit b j = false) ∧
  (c < Z.of_nat n → Z.testbit b (k + c) = true).
Proof.
  revert k; induction n as [|n IH]; intros k; simpl; [split_and!; intros; lia|].
  destruct (Z.testbit b k) eqn:E; [split_and!; [lia..|]; by rewrite Z.add_0_r|].
  destruct (IH (k + 1)) as (H1 & H2 & H3). split_and!; [lia..| |].
  - intros j Hj. destruct (decide (j = k)) as [->|]; [done|]. apply H2. lia.
  - intros Hc. rewrite Z.add_assoc. apply H3. lia.
Qed.

Lemma clear_down_spec (n : nat) (b k : Z) :
  let c := clear_down n b k in
  0 ≤ c ≤ Z.of_nat n ∧ (∀ j, k - c < j ≤ k → Z.testbit b j = false) ∧
  (c < Z.of_nat n → Z.testbit b (k - c) = true).
Proof.
  revert k; induction n as [|n IH]; intros k; simpl; [split_and!; intros; lia|].
  destruct (Z.testbit b k) eqn:E; [split_and!; [lia..|]; by rewrite Z.sub_0_r|].
  destruct (IH (k - 1)) as (H1 & H2 & H3). split_and!; [lia..| |].
  - intros j Hj. destruct (decide (j = k)) as [->|]; [done|]. apply H2. lia.
  - intros Hc. rewrite Z.sub_add_distr. apply H3. lia.
Qed.

Lemma low_clear_spec (b : Z) :
  0 ≤ low_clear b ≤ 8 ∧ (∀ j, 0 ≤ j < low_clear b → Z.testbit b j = false) ∧
  (low_clear b < 8 → Z.testbit b (low_clear b) = true).
Proof. apply (clear_up_spec 8 b 0). Qed.

Lemma high_clear_spec (b : Z) :
  0 ≤ high_clear b ≤ 8 ∧ (∀ j, 8 - high_clear b ≤ j < 8 → Z.testbit b j = false) ∧
  (high_clear b < 8 → Z.testbit b (7 - high_clear b) = true).
Proof.
  destruct (clear_down_spec 8 b 7) as (H1 & H2 & H3). fold (high_clear b) in *.
  split_and!; [lia..| |done]. intros j Hj. apply H2. lia.
Qed.

(** A clear prefix of the byte is no longer than [low_clear], a clear suffix no
    longer than [high_clear]. *)
Lemma low_clear_max (b n : Z) :
  n ≤ 8 → (∀ j, 0 ≤ j < n → Z.testbit b j = false) → n ≤ low_clear b.
Proof.
  intros Hn H. destruct (low_clear_spec b) as (H1 & _ & H3).
  destruct (Z.le_gt_cases n (low_clear b)); [done|].
  rewrite H in H3 by lia. assert (false = true) by (apply H3; lia). done.
Qed.

Lemma high_clear_max (b n : Z) :
  n ≤ 8 → (∀ j, 8 - n ≤ j < 8 → Z.testbit b j = false) → n ≤ high_clear b.
Proof.
  intros Hn H. destruct (high_clear_spec b) as (H1 & _ & H3).
  destruct (Z.le_gt_cases n (high_clear b)); [done|].
  rewrite H in H3 by lia. assert (false = true) by (apply H3; lia). done.
Qed.

Lemma clear_up_max (m : nat) (b k n : Z) :
  n ≤ Z.of_nat m → (∀ j, k ≤ j < k + n → Z.testbit b j = false) → n ≤ clear_up m b k.
Proof.
  intros Hn H. destruct (clear_up_spec m b k) as (H1 & _ & H3).
  destruct (Z.le_gt_cases n (clear_up m b k)); [done|].
  rewrite H in H3 by lia. assert (false = true) by (apply H3; lia). done.
Qed.

Lemma foldr_max_ge (l : list Z) (x : Z) : x ∈ l → x ≤ foldr Z.max 0 l.
Proof. induction 1; simpl; lia. Qed.

Lemma longest_clear_max (b s n : Z) :
  0 ≤ s < 8 → s + n ≤ 8 → (∀ j, s ≤ j < s + n → Z.testbit b j = false) →
  n ≤ longest_clear b.
Proof.
  intros Hs Hn H. etrans; [apply (clear_up_max (Z.to_nat (8 - s)) b s); [lia|done]|].
  unfold longest_clear. apply foldr_max_ge, list_elem_of_In, in_map_iff.
  exists s. split; [done|]. apply list_elem_of_In, elem_of_seqZ. lia.
Qed.

(** The whole-byte facts, checked on all 256 bytes. *)

Definition run_in_byte (b s n : Z) : bool :=
  forallb (λ j, negb (Z.testbit b j)) (seqZ s n).

Lemma run_in_byte_spec (b s n : Z) :
  run_in_byte b s n = true → ∀ j, s ≤ j < s + n → Z.testbit b j = false.
Proof.
  unfold run_in_byte. rewrite forallb_forall. intros H j Hj.
  apply negb_true_iff, H, list_elem_of_In, elem_of_seqZ. lia.
Qed.

Definition fit_ok (b n : Z) : bool :=
  (n <? 0) || (longest_clear b <? n) ||
  match (m ← array_get FillMask n; fit_clear 8 m b 0) with
  | Some i => (0 <=? i) && (i + n <=? 8) && run_in_byte b i n
  | None => false
  end.

Lemma fit_ok_all :
  forallb (λ b, forallb (fit_ok b) (seqZ 0 10)) (seqZ 0 256) = true.
Proof. vm_compute. reflexivity. Qed.

Lemma longest_clear_le (b : Z) : 0 ≤ longest_clear b ≤ 8.
Proof.
  unfold longest_clear.
  assert (Forall (λ x, 0 ≤ x ≤ 8) (map (λ s, clear_up (Z.to_nat (8 - s)) b s) (seqZ 0 8)))
    as HF.
  { apply Forall_forall. intros x Hx.
    rewrite in_map_iff in Hx. destruct Hx as (s & <- & Hs).
    rewrite <- list_elem_of_In, elem_of_seqZ in Hs.
    destruct (clear_up_spec (Z.to_nat (8 - s)) b s) as (? & _). lia. }
  induction HF; simpl; lia.
Qed.

(** The mask loop finds a clear run of [n] bits whenever the table promises
    one. *)
Lemma fit_clear_finds (b n : Z) :
  is_u8 b → 0 ≤ n ≤ longest_clear b →
  ∃ m i, array_get FillMask n = Some m ∧ fit_clear 8 m b 0 = Some i ∧
    0 ≤ i ∧ i + n ≤ 8 ∧ ∀ j, i ≤ j < i + n → Z.testbit b j = false.
Proof.
  intros Hb Hn. pose proof (longest_clear_le b).
  pose proof (forall_range _ _ (forall_range _ _ fit_ok_all b Hb) n ltac:(lia)) as Hf.
  unfold fit_ok in Hf. rewrite (proj2 (Z.ltb_ge _ _)), (proj2 (Z.ltb_ge _ _)) in Hf by lia.
  destruct (array_get FillMask n) as [m|]; cbn [mbind option_bind orb] in Hf; [|done].
  destruct (fit_clear 8 m b 0) as [i|] eqn:Hfit; [|done].
  rewrite !andb_true_iff in Hf. destruct Hf as ((?&?)&Hr).
  exists m, i. split_and!; [done..| lia | lia |]. by apply run_in_byte_spec.
Qed.

(** The masks. *)

Definition fill_ok (n : Z) : bool :=
  match array_get FillMask n, array_get ZeroMask n with
  | Some f, Some z => (f =? Z.ones n) && (z =? Z.lxor 0xff (Z.ones n))
  | _, _ => false
  end.

Lemma masks_get (n : Z) :
  0 ≤ n ≤ 8 →
  array_get FillMask n = Some (Z.ones n) ∧
  array_get ZeroMask n = Some (Z.lxor 0xff (Z.ones n)).
Proof.
  intros Hn. assert (forallb fill_ok (seqZ 0 9) = true) as Hall by (vm_compute; done).
  pose proof (forall_range _ _ Hall n ltac:(lia)) as Hf. unfold fill_ok in Hf.
  destruct (array_get FillMask n), (array_get ZeroMask n); [|done..].
  apply andb_true_iff in Hf as [->%Z.eqb_eq ->%Z.eqb_eq]. done.
Qed.

(** The complement of a byte, and the tables read through it. *)

Lemma not_byte (b : Z) : Z.land (Z.lnot b) 0xff = u8 (Z.lnot b).
Proof. change 0xff with (Z.ones 8). by rewrite Z.land_ones by lia. Qed.

Lemma fit_set_clear (fuel : nat) (m b i : Z) :
  is_u8 m → fit_set fuel m b i = fit_clear fuel m (u8 (Z.lnot b)) i.
Proof.
  assert (∀ m, is_u8 m → (Z.land m b =? m) = (Z.land m (u8 (Z.lnot b)) =? 0)) as Heq.
  { clear. intros m Hm. apply bool_eq_true. rewrite !Z.eqb_eq. split; intros H.
    - bitwise i. apply (f_equal (λ x, Z.testbit x i)) in H. revert H.
      rewrite Z.land_spec. destruct (Z.testbit m i), (Z.testbit b i); done.
    - apply Z.bits_inj'. intros i Hi. apply (f_equal (λ x, Z.testbit x i)) in H. revert H.
      autorewrite with nt_bits. destruct (Z.ltb_spec i 8) as [|Hge].
      + destruct (Z.testbit m i), (Z.testbit b i); done.
      + rewrite (testbit_high m 8 i) by (unfold is_u8 in Hm; lia). done. }
  revert m i; induction fuel as [|fuel IH]; intros m i Hm; simpl; rewrite Heq by done;
    [done|]. case_match; [done|]. apply IH. auto with nt.
Qed.
