(* ===== verification/Bitmap.v ===== *)
(** * Bitmaps: representation, bulk and range updates

    The [RTL_BITMAP] of [RTL/BITMAP.C]: a size in bits and the longwords it
    points to.  The code addresses the same memory as longwords ([Buffer[i]])
    and as bytes ([((PUCHAR)Buffer)[i]], little endian on this i386 target);
    both views are defined on one list of longwords.  Every access outside the
    buffer is the result [None], so a theorem that an operation returns [Some]
    is also a memory-safety theorem. *)

From stdpp Require Import base list numbers option.
From Stdlib Require Import ZArith Lia Btauto.
From S2P Require Import Prelude BitmapBytes.

Record RTL_BITMAP := mkBitmap { SizeOfBitMap : Z; Buffer : list Z }.

(** ** Memory views *)

Definition read_long (bm : RTL_BITMAP) (i : Z) : option Z := array_get (Buffer bm) i.

Definition write_long (bm : RTL_BITMAP) (i v : Z) : option RTL_BITMAP :=
  b ← array_set (Buffer bm) i v; Some (mkBitmap (SizeOfBitMap bm) b).

Definition GET_BYTE (bm : RTL_BITMAP) (i : Z) : option Z :=
  x ← read_long bm (i / 4); Some (Z.land (Z.shiftr x (8 * (i mod 4))) 0xff).

Definition write_byte (bm : RTL_BITMAP) (i v : Z) : option RTL_BITMAP :=
  x ← read_long bm (i / 4);
  let sh := 8 * (i mod 4) in
  write_long bm (i / 4)
    (Z.lor (Z.land x (u32 (Z.lnot (Z.shiftl 0xff sh)))) (Z.shiftl v sh)).

(** Bit [i] of the map. *)
Definition bit (bm : RTL_BITMAP) (i : Z) : bool :=
  match array_get (Buffer bm) (i / 32) with
  | Some x => Z.testbit x (i mod 32)
  | None => false
  end.

(** A map as [RtlInitializeBitMap] is documented to receive it: the buffer holds
    at least the stated number of bits.  The bound on the size keeps
    [SizeOfBitMap + 31] from wrapping. *)
Definition bitmap_wf (bm : RTL_BITMAP) : Prop :=
  0 ≤ SizeOfBitMap bm ≤ 2 ^ 32 - 32 ∧ SizeOfBitMap bm ≤ 32 * zlen (Buffer bm) ∧
  Forall is_u32 (Buffer bm).

Definition SizeInBytes (bm : RTL_BITMAP) : Z := (SizeOfBitMap bm +u 7) / 8.

(** ** Operations *)

Definition RtlInitializeBitMap (BitMapBuffer : list Z) (Size : Z) : RTL_BITMAP :=
  mkBitmap Size BitMapBuffer.

(** [RtlFillMemoryUlong] and [RtlZeroMemory] on a whole number of longwords. *)
Definition fill_longs (l : list Z) (n v : Z) : option (list Z) :=
  if n <=? zlen l then Some (replicate (Z.to_nat n) v ++ drop (Z.to_nat n) l) else None.

Definition RtlClearAllBits (bm : RTL_BITMAP) : option RTL_BITMAP :=
  b ← fill_longs (Buffer bm) (((SizeOfBitMap bm +u 31) / 32 *u 4) / 4) 0;
  Some (mkBitmap (SizeOfBitMap bm) b).

Definition RtlSetAllBits (bm : RTL_BITMAP) : option RTL_BITMAP :=
  b ← fill_longs (Buffer bm) (((SizeOfBitMap bm +u 31) / 32 *u 4) / 4) 0xffffffff;
  Some (mkBitmap (SizeOfBitMap bm) b).

Definition RightShiftUlong (E1 E2 : Z) : Z := if E2 <? 32 then Z.shiftr E1 E2 else 0.
Definition LeftShiftUlong (E1 E2 : Z) : Z := if E2 <? 32 then u32 (Z.shiftl E1 E2) else 0.
Definition NotUlong (x : Z) : Z := u32 (Z.lnot x).

(** [while (Number >= 32) { *CurrentLong = v; CurrentLong += 1; Number -= 32; }]
    The fuel is the number of iterations, [Number / 32]. *)
Fixpoint write_longs (fuel : nat) (v : Z) (bm : RTL_BITMAP) (CurrentLong Number : Z) :
    option (RTL_BITMAP * Z * Z) :=
  if Number <? 32 then Some (bm, CurrentLong, Number) else
  match fuel with
  | O => None
  | S fuel =>
      bm ← write_long bm CurrentLong v;
      write_longs fuel v bm (CurrentLong + 1) (Number -u 32)
  end.

Definition RtlClearBits (bm : RTL_BITMAP) (StartingIndex NumberToClear : Z) :
    option RTL_BITMAP :=
  if NumberToClear =? 0 then Some bm else
  let BitOffset := StartingIndex mod 32 in
  let CurrentLong := StartingIndex / 32 in
  x ← read_long bm CurrentLong;
  if BitOffset +u NumberToClear <=? 32 then
    write_long bm CurrentLong (Z.land x (NotUlong (LeftShiftUlong
      (RightShiftUlong 0xffffffff (32 -u NumberToClear)) BitOffset)))
  else
    bm ← write_long bm CurrentLong (Z.land x (NotUlong (LeftShiftUlong 0xffffffff BitOffset)));
    let NumberToClear := NumberToClear -u (32 -u BitOffset) in
    '(bm, CurrentLong, NumberToClear) ←
      write_longs (Z.to_nat (NumberToClear / 32)) 0 bm (CurrentLong + 1) NumberToClear;
    if 0 <? NumberToClear then
      x ← read_long bm CurrentLong;
      write_long bm CurrentLong (Z.land x (LeftShiftUlong 0xffffffff NumberToClear))
    else Some bm.

Definition RtlSetBits (bm : RTL_BITMAP) (StartingIndex NumberToSet : Z) :
    option RTL_BITMAP :=
  if NumberToSet =? 0 then Some bm else
  let BitOffset := StartingIndex mod 32 in
  let CurrentLong := StartingIndex / 32 in
  x ← read_long bm CurrentLong;
  if BitOffset +u NumberToSet <=? 32 then
    write_long bm CurrentLong (Z.lor x (LeftShiftUlong
      (RightShiftUlong 0xffffffff (32 -u NumberToSet)) BitOffset))
  else
    bm ← write_long bm CurrentLong (Z.lor x (LeftShiftUlong 0xffffffff BitOffset));
    let NumberToSet := NumberToSet -u (32 -u BitOffset) in
    '(bm, CurrentLong, NumberToSet) ←
      write_longs (Z.to_nat (NumberToSet / 32)) 0xffffffff bm (CurrentLong + 1) NumberToSet;
    if 0 <? NumberToSet then
      x ← read_long bm CurrentLong;
      write_long bm CurrentLong (Z.lor x (NotUlong (LeftShiftUlong 0xffffffff NumberToSet)))
    else Some bm.

(** The prologue the searching and counting routines share: the unused high
    bits of the last byte are set ([|= ZeroMask]) or cleared ([&= FillMask]) so
    that they are not counted. *)
Definition pad_with_ones (bm : RTL_BITMAP) : option RTL_BITMAP :=
  if SizeOfBitMap bm mod 8 =? 0 then Some bm else
  m ← array_get ZeroMask (SizeOfBitMap bm mod 8);
  b ← GET_BYTE bm (SizeInBytes bm -u 1);
  write_byte bm (SizeInBytes bm -u 1) (Z.lor b m).

Definition pad_with_zeros (bm : RTL_BITMAP) : option RTL_BITMAP :=
  if SizeOfBitMap bm mod 8 =? 0 then Some bm else
  m ← array_get FillMask (SizeOfBitMap bm mod 8);
  b ← GET_BYTE bm (SizeInBytes bm -u 1);
  write_byte bm (SizeInBytes bm -u 1) (Z.land b m).

(** ** The two views agree *)

Lemma GET_BYTE_Some (bm : RTL_BITMAP) (k : Z) :
  0 ≤ k < 4 * zlen (Buffer bm) → ∃ b, GET_BYTE bm k = Some b.
Proof.
  intros Hk. unfold GET_BYTE, read_long.
  destruct (array_get_Some (Buffer bm) (k / 4)) as [x ->]; [|by eexists].
  split; [apply Z.div_pos; lia|]. apply Z.div_lt_upper_bound; lia.
Qed.

Lemma byte_in_long (k j : Z) :
  0 ≤ j < 8 → (8 * k + j) / 32 = k / 4 ∧ (8 * k + j) mod 32 = j + 8 * (k mod 4).
Proof. intros. Z.div_mod_to_equations. lia. Qed.

Lemma GET_BYTE_spec (bm : RTL_BITMAP) (k b : Z) :
  GET_BYTE bm k = Some b →
  is_u8 b ∧ ∀ j, 0 ≤ j < 8 → Z.testbit b j = bit bm (8 * k + j).
Proof.
  unfold GET_BYTE, read_long, bit. intros (x & Hx & [= <-])%bind_Some. split.
  - change 0xff with (Z.ones 8). rewrite Z.land_ones by lia. apply u8_range.
  - intros j Hj. destruct (byte_in_long k j Hj) as [-> ->]. rewrite Hx.
    pose proof (Z.mod_pos_bound k 4). autorewrite with nt_bits.
    split_tests; simpl; try lia. by rewrite andb_true_r.
Qed.

(** ** Framed updates

    [shape bm bm'] says the update kept the header and the extent of the buffer;
    [filled bm bm' s n c] that it gave the [n] bits from [s] on the value [c] and
    left every other bit alone. *)

Definition shape (bm bm' : RTL_BITMAP) : Prop :=
  SizeOfBitMap bm' = SizeOfBitMap bm ∧ zlen (Buffer bm') = zlen (Buffer bm) ∧
  (Forall is_u32 (Buffer bm) → Forall is_u32 (Buffer bm')).

#[export] Instance shape_preorder : PreOrder shape.
Proof.
  split; [done|]. intros a b c (?&?&?) (?&?&?). split_and!; [congruence..|eauto].
Qed.

Lemma shape_wf (bm bm' : RTL_BITMAP) : shape bm bm' → bitmap_wf bm → bitmap_wf bm'.
Proof. intros (Hs & Hl & HF) (?&?&?). unfold bitmap_wf. rewrite Hs, Hl. eauto. Qed.

Definition in_range (s n i : Z) : bool := (s <=? i) && (i <? s + n).

Lemma in_range_spec (s n i : Z) : in_range s n i = true ↔ s ≤ i < s + n.
Proof. unfold in_range. rewrite andb_true_iff, Z.leb_le, Z.ltb_lt. lia. Qed.

Definition filled (bm bm' : RTL_BITMAP) (s n : Z) (c : bool) : Prop :=
  shape bm bm' ∧ ∀ i, 0 ≤ i → bit bm' i = if in_range s n i then c else bit bm i.

Lemma filled_nil (bm : RTL_BITMAP) (s : Z) (c : bool) : filled bm bm s 0 c.
Proof.
  split; [done|]. intros i _. destruct (in_range s 0 i) eqn:E; [|done].
  apply in_range_spec in E. lia.
Qed.

Lemma filled_trans (bm1 bm2 bm3 : RTL_BITMAP) (s n m : Z) (c : bool) :
  0 ≤ n → 0 ≤ m →
  filled bm1 bm2 s n c → filled bm2 bm3 (s + n) m c → filled bm1 bm3 s (n + m) c.
Proof.
  intros ?? [H1 H2] [H3 H4]. split; [by etrans|]. intros i Hi.
  rewrite H4, H2 by done. unfold in_range. split_tests; simpl; done || lia.
Qed.

Lemma write_long_filled (bm : RTL_BITMAP) (k x v s n : Z) (c : bool) :
  read_long bm k = Some x → is_u32 v → 32 * k ≤ s → s + n ≤ 32 * k + 32 →
  (∀ j, 0 ≤ j < 32 →
     Z.testbit v j = if in_range s n (32 * k + j) then c else Z.testbit x j) →
  ∃ bm', write_long bm k v = Some bm' ∧ filled bm bm' s n c.
Proof.
  intros Hx Hv Hlo Hhi Hbits. pose proof (array_get_range _ _ _ Hx) as Hk.
  unfold write_long. destruct (array_set (Buffer bm) k v) as [b|] eqn:Hb.
  2:{ by rewrite array_set_Some in Hb. }
  simpl. eexists. split; [done|]. split; [split_and!; simpl|].
  - done.
  - by eapply array_set_length.
  - intros. by eapply array_set_Forall.
  - intros i Hi. unfold bit at 1. cbn [Buffer]. erewrite array_get_set by done.
    pose proof (Z.div_mod i 32 ltac:(lia)). pose proof (Z.mod_pos_bound i 32 ltac:(lia)).
    destruct (Z.eqb_spec (i / 32) k) as [Hik|Hik].
    + rewrite Hbits by done. rewrite <- Hik at 1. replace (32 * (i / 32) + i mod 32) with i by lia.
      unfold bit. rewrite Hik. unfold read_long in Hx. by rewrite Hx.
    + destruct (in_range s n i) eqn:E; [|done]. apply in_range_spec in E.
      destruct Hik. Z.div_mod_to_equations. lia.
Qed.

Lemma read_long_Some (bm : RTL_BITMAP) (k : Z) :
  Forall is_u32 (Buffer bm) → 0 ≤ k < zlen (Buffer bm) →
  ∃ x, read_long bm k = Some x ∧ is_u32 x.
Proof.
  intros HF Hk. destruct (array_get_Some (Buffer bm) k Hk) as [x Hx].
  exists x. split; [done|]. by eapply array_get_Forall.
Qed.

(** ** Range updates *)

Lemma testbit_LeftShiftUlong (x n j : Z) :
  0 ≤ j < 32 → 0 ≤ n < 32 → Z.testbit (LeftShiftUlong x n) j = Z.testbit x (j - n).
Proof.
  intros. unfold LeftShiftUlong. rewrite (proj2 (Z.ltb_lt n 32)) by lia.
  autorewrite with nt_bits. by rewrite (proj2 (Z.ltb_lt j 32)) by lia.
Qed.

Lemma testbit_RightShiftUlong (x n j : Z) :
  0 ≤ n < 32 → Z.testbit (RightShiftUlong x n) j = (0 <=? j) && Z.testbit x (j + n).
Proof.
  intros. unfold RightShiftUlong. rewrite (proj2 (Z.ltb_lt n 32)) by lia.
  destruct (Z.leb_spec 0 j); [by rewrite Z.shiftr_spec|].
  by rewrite Z.testbit_neg_r by lia.
Qed.

Lemma testbit_NotUlong (x j : Z) :
  0 ≤ j < 32 → Z.testbit (NotUlong x) j = negb (Z.testbit x j).
Proof.
  intros. unfold NotUlong. autorewrite with nt_bits.
  by rewrite (proj2 (Z.ltb_lt j 32)) by lia.
Qed.

Lemma is_u32_land (x y : Z) : is_u32 x → 0 ≤ y → is_u32 (Z.land x y).
Proof.
  unfold is_u32. intros Hx Hy. assert (0 ≤ Z.land x y) by (apply Z.land_nonneg; lia).
  split; [done|]. apply bits_bound; [lia..|]. intros i Hi.
  by rewrite Z.land_spec, (testbit_high x 32 i) by lia.
Qed.

Lemma is_u32_lor (x y : Z) : is_u32 x → is_u32 y → is_u32 (Z.lor x y).
Proof.
  unfold is_u32. intros Hx Hy. assert (0 ≤ Z.lor x y) by (apply Z.lor_nonneg; lia).
  split; [done|]. apply bits_bound; [lia..|]. intros i Hi.
  by rewrite Z.lor_spec, (testbit_high x 32 i), (testbit_high y 32 i) by lia.
Qed.

Lemma is_u32_LeftShiftUlong (x n : Z) : is_u32 (LeftShiftUlong x n).
Proof. unfold LeftShiftUlong. case_match; [apply u32_range|done]. Qed.

Lemma is_u32_NotUlong (x : Z) : is_u32 (NotUlong x).
Proof. apply u32_range. Qed.

Lemma is_u32_nonneg (x : Z) : is_u32 x → 0 ≤ x.
Proof. unfold is_u32. lia. Qed.

#[export] Hint Resolve is_u32_land is_u32_lor is_u32_LeftShiftUlong is_u32_NotUlong
  is_u32_nonneg : nt.

(** The longword values stored by the two range routines. *)
Definition long_of (c : bool) : Z := if c then 0xffffffff else 0.

Lemma testbit_long_of (c : bool) (j : Z) : 0 ≤ j < 32 → Z.testbit (long_of c) j = c.
Proof.
  intros. unfold long_of. destruct c; autorewrite with nt_bits; [|done].
  split_tests; simpl; done || lia.
Qed.

Lemma write_longs_filled (c : bool) (fuel : nat) (bm : RTL_BITMAP) (cur num : Z) :
  Forall is_u32 (Buffer bm) → 0 ≤ cur → 0 ≤ num < 2 ^ 32 → Z.to_nat (num / 32) = fuel →
  32 * cur + num ≤ 32 * zlen (Buffer bm) →
  ∃ bm', write_longs fuel (long_of c) bm cur num =
           Some (bm', cur + num / 32, num mod 32) ∧
         filled bm bm' (32 * cur) (32 * (num / 32)) c.
Proof.
  revert bm cur num. induction fuel as [|fuel IH]; intros bm cur num HF Hc Hn Hf Hl; simpl.
  - assert (num < 32) as Hs by (Z.div_mod_to_equations; lia).
    rewrite (proj2 (Z.ltb_lt num 32)) by lia. rewrite Z.div_small, Z.mod_small by lia.
    exists bm. split; [by rewrite Z.add_0_r|]. apply filled_nil.
  - assert (32 ≤ num) by (Z.div_mod_to_equations; lia).
    rewrite (proj2 (Z.ltb_ge num 32)) by lia. drop_wrap.
    destruct (read_long_Some bm cur HF ltac:(lia)) as (x & Hx & _).
    destruct (write_long_filled bm cur x (long_of c) (32 * cur) 32 c Hx) as (bm1 & E1 & F1);
      [by destruct c|lia..| |].
    { intros j Hj. rewrite testbit_long_of by done.
      destruct (in_range (32 * cur) 32 (32 * cur + j)) eqn:E; [done|].
      unfold in_range in E. split_tests; simpl in E; done || lia. }
    rewrite E1. simpl. pose proof F1 as [(Hs & Hlen & HF1) _].
    assert ((num - 32) / 32 = num / 32 - 1 ∧ (num - 32) mod 32 = num mod 32) as [Hq Hr]
      by (Z.div_mod_to_equations; lia).
    destruct (IH bm1 (cur + 1) (num - 32)) as (bm2 & E2 & F2); [auto|lia..|].
    rewrite E2, Hq, Hr. exists bm2. split; [do 3 f_equal; lia|].
    replace (32 * (num / 32)) with (32 + 32 * (num / 32 - 1)) by lia.
    eapply filled_trans; [lia..|done|]. rewrite Hq in F2.
    by replace (32 * cur + 32) with (32 * (cur + 1)) by lia.
Qed.

(** The shape common to [RtlSetBits] and [RtlClearBits], with the three masked
    stores as parameters: a single longword, the tail of the first longword, the
    head of the last one. *)
Section range_update.
Context (c : bool) (one first last : Z → Z → Z → Z).
Hypothesis one_u32 : ∀ x off n, is_u32 x → is_u32 (one x off n).
Hypothesis first_u32 : ∀ x off n, is_u32 x → is_u32 (first x off n).
Hypothesis last_u32 : ∀ x off n, is_u32 x → is_u32 (last x off n).
Hypothesis one_bits : ∀ x off n j, 0 ≤ off → 0 < n → off + n ≤ 32 → 0 ≤ j < 32 →
  Z.testbit (one x off n) j = if in_range off n j then c else Z.testbit x j.
Hypothesis first_bits : ∀ x off n j, 0 ≤ off < 32 → 0 ≤ j < 32 →
  Z.testbit (first x off n) j = if in_range off (32 - off) j then c else Z.testbit x j.
Hypothesis last_bits : ∀ x off n j, 0 < n < 32 → 0 ≤ j < 32 →
  Z.testbit (last x off n) j = if in_range 0 n j then c else Z.testbit x j.

Definition update_range (bm : RTL_BITMAP) (StartingIndex Number : Z) : option RTL_BITMAP :=
  if Number =? 0 then Some bm else
  let BitOffset := StartingIndex mod 32 in
  let CurrentLong := StartingIndex / 32 in
  x ← read_long bm CurrentLong;
  if BitOffset +u Number <=? 32 then write_long bm CurrentLong (one x BitOffset Number)
  else
    bm ← write_long bm CurrentLong (first x BitOffset Number);
    let Number := Number -u (32 -u BitOffset) in
    '(bm, CurrentLong, Number) ←
      write_longs (Z.to_nat (Number / 32)) (long_of c) bm (CurrentLong + 1) Number;
    if 0 <? Number then
      x ← read_long bm CurrentLong;
      write_long bm CurrentLong (last x BitOffset Number)
    else Some bm.

Lemma in_range_shift (s n k i : Z) : in_range s n (k + i) = in_range (s - k) n i.
Proof. unfold in_range. split_tests; simpl; done || lia. Qed.

Lemma update_range_filled (bm : RTL_BITMAP) (s n : Z) :
  bitmap_wf bm → 0 ≤ s → 0 ≤ n → s + n ≤ SizeOfBitMap bm →
  ∃ bm', update_range bm s n = Some bm' ∧ filled bm bm' s n c.
Proof.
  intros (Hsz & Hlen & HF) Hs Hn Hsn. unfold update_range.
  destruct (Z.eqb_spec n 0) as [->|Hn0]; [exists bm; split; [done|apply filled_nil]|].
  assert (s = 32 * (s / 32) + s mod 32 ∧ 0 ≤ s mod 32 < 32 ∧ 0 ≤ s / 32) as (Hd & Ho & Hq)
    by (Z.div_mod_to_equations; lia).
  set (off := s mod 32) in *. set (q := s / 32) in *.
  destruct (read_long_Some bm q HF ltac:(lia)) as (x & Hx & Hx32). rewrite Hx. simpl.
  drop_wrap. destruct (Z.leb_spec (off + n) 32) as [Hone|Hmany].
  { apply (write_long_filled bm q x); [done|auto|lia..|]. intros j Hj.
    rewrite one_bits, in_range_shift by lia. by replace (s - 32 * q) with off by lia. }
  destruct (write_long_filled bm q x (first x off n) s (32 - off) c) as (bm1 & E1 & F1);
    [done|auto|lia..| |].
  { intros j Hj. rewrite first_bits, in_range_shift by lia. by replace (s - 32 * q) with off by lia. }
  rewrite E1. simpl. drop_wrap. pose proof F1 as [(Hs1 & Hl1 & HF1) _]. specialize (HF1 HF).
  destruct (write_longs_filled c _ bm1 (q + 1) (n - (32 - off)) HF1 ltac:(lia) ltac:(lia)
    eq_refl ltac:(lia)) as (bm2 & E2 & F2).
  rewrite E2. simpl. pose proof F2 as [(Hs2 & Hl2 & HF2) _]. specialize (HF2 HF1).
  set (r := n - (32 - off)) in *.
  assert (r = 32 * (r / 32) + r mod 32 ∧ 0 ≤ r mod 32 < 32 ∧ 0 ≤ r / 32) as (Hr & Hr' & Hq')
    by (Z.div_mod_to_equations; lia).
  assert (filled bm bm2 s ((32 - off) + 32 * (r / 32)) c) as F12.
  { eapply filled_trans; [lia..|done|]. by replace (s + (32 - off)) with (32 * (q + 1)) by lia. }
  destruct (Z.ltb_spec 0 (r mod 32)) as [Hpos|Hz].
  - destruct (read_long_Some bm2 (q + 1 + r / 32) HF2 ltac:(lia)) as (y & Hy & Hy32).
    rewrite Hy. simpl.
    destruct (write_long_filled bm2 (q + 1 + r / 32) y (last y off (r mod 32))
      (32 * (q + 1 + r / 32)) (r mod 32) c) as (bm3 & E3 & F3); [done|auto|lia..| |].
    { intros j Hj. rewrite last_bits, in_range_shift, Z.sub_diag by lia. done. }
    exists bm3. split; [done|]. replace n with ((32 - off + 32 * (r / 32)) + r mod 32) by lia.
    eapply filled_trans; [lia..|done|].
    by replace (s + (32 - off + 32 * (r / 32))) with (32 * (q + 1 + r / 32)) by lia.
  - exists bm2. split; [done|]. by replace n with (32 - off + 32 * (r / 32)) by lia.
Qed.
End range_update.

Section set_masks.
Local Definition set_one (x off n : Z) :=
  Z.lor x (LeftShiftUlong (RightShiftUlong 0xffffffff (32 -u n)) off).
Local Definition set_first (x off n : Z) := Z.lor x (LeftShiftUlong 0xffffffff off).
Local Definition set_last (x off n : Z) :=
  Z.lor x (NotUlong (LeftShiftUlong 0xffffffff n)).
Local Definition clear_one (x off n : Z) :=
  Z.land x (NotUlong (LeftShiftUlong (RightShiftUlong 0xffffffff (32 -u n)) off)).
Local Definition clear_first (x off n : Z) :=
  Z.land x (NotUlong (LeftShiftUlong 0xffffffff off)).
Local Definition clear_last (x off n : Z) := Z.land x (LeftShiftUlong 0xffffffff n).

(** [mask_bits] reduces a mask to its bits and decides the comparison. *)
Local Ltac mask_bits :=
  intros; unfold set_one, set_first, set_last, clear_one, clear_first, clear_last;
  drop_wrap; rewrite ?Z.lor_spec, ?Z.land_spec, ?testbit_NotUlong by lia;
  rewrite !testbit_LeftShiftUlong by lia; rewrite ?testbit_RightShiftUlong by lia;
  rewrite testbit_mask32; unfold in_range; split_tests; simpl; try lia; btauto.

Lemma RtlSetBits_filled (bm : RTL_BITMAP) (s n : Z) :
  bitmap_wf bm → 0 ≤ s → 0 ≤ n → s + n ≤ SizeOfBitMap bm →
  ∃ bm', RtlSetBits bm s n = Some bm' ∧ filled bm bm' s n true.
Proof.
  apply (update_range_filled true set_one set_first set_last);
    try (intros; unfold set_one, set_first, set_last; by auto with nt); mask_bits.
Qed.

Lemma RtlClearBits_filled (bm : RTL_BITMAP) (s n : Z) :
  bitmap_wf bm → 0 ≤ s → 0 ≤ n → s + n ≤ SizeOfBitMap bm →
  ∃ bm', RtlClearBits bm s n = Some bm' ∧ filled bm bm' s n false.
Proof.
  apply (update_range_filled false clear_one clear_first clear_last);
    try (intros; unfold clear_one, clear_first, clear_last; by auto with nt); mask_bits.
Qed.
End set_masks.

(** ** Byte stores and the padding prologues *)

Lemma write_byte_bits (bm : RTL_BITMAP) (k b v : Z) :
  GET_BYTE bm k = Some b → is_u8 v → Forall is_u32 (Buffer bm) →
  ∃ bm', write_byte bm k v = Some bm' ∧ shape bm bm' ∧
    ∀ i, 0 ≤ i → bit bm' i = if i / 8 =? k then Z.testbit v (i mod 8) else bit bm i.
Proof.
  intros Hb Hv HF. unfold write_byte.
  unfold GET_BYTE in Hb. apply bind_Some in Hb as (x & Hx & _). rewrite Hx. simpl.
  pose proof (array_get_range _ _ _ Hx) as Hk.
  assert (is_u32 x) as Hx32 by (by eapply array_get_Forall).
  pose proof (Z.mod_pos_bound k 4 ltac:(lia)) as Hm. set (sh := 8 * (k mod 4)).
  assert (is_u32 (Z.lor (Z.land x (u32 (Z.lnot (Z.shiftl 255 sh)))) (Z.shiftl v sh))) as Hw.
  { apply is_u32_lor; [apply is_u32_land; [done|apply u32_range]|].
    unfold is_u32, is_u8 in *. rewrite Z.shiftl_mul_pow2 by lia.
    assert (2 ^ 8 * 2 ^ sh ≤ 2 ^ 32) by (rewrite <- Z.pow_add_r by lia; apply Z.pow_le_mono_r; lia).
    pose proof (Z.pow_pos_nonneg 2 sh). nia. }
  unfold write_long. rewrite array_set_Some by done. simpl. eexists. split; [done|].
  split; [split_and!; simpl; [done|unfold zlen; by rewrite length_insert|]|].
  { intros. by apply Forall_insert. }
  intros i Hi. unfold bit at 1. cbn [Buffer].
  erewrite array_get_set by (by apply array_set_Some).
  assert (i = 32 * (i / 32) + i mod 32 ∧ 0 ≤ i mod 32 < 32) as (Hdi & Hmi)
    by (Z.div_mod_to_equations; lia).
  assert (k = 4 * (k / 4) + k mod 4) as Hdk by (Z.div_mod_to_equations; lia).
  destruct (Z.eqb_spec (i / 32) (k / 4)) as [Hik|Hik].
  - autorewrite with nt_bits. unfold bit. rewrite Hik. unfold read_long in Hx. rewrite Hx.
    destruct (Z.eqb_spec (i / 8) k) as [Hi8|Hi8].
    + assert (i mod 32 - sh = i mod 8) as -> by (subst sh; Z.div_mod_to_equations; lia).
      assert (0 ≤ i mod 8 < 8) by (apply Z.mod_pos_bound; lia).
      split_tests; simpl; try lia. by rewrite andb_false_r.
    + destruct (Z.lt_ge_cases (i mod 32) sh).
      * rewrite (Z.testbit_neg_r v) by lia. split_tests; simpl; try lia.
        by rewrite andb_true_r, orb_false_r.
      * assert (8 ≤ i mod 32 - sh) by (subst sh; Z.div_mod_to_equations; lia).
        rewrite (testbit_high v 8) by (done || lia). split_tests; simpl; try lia.
        by rewrite andb_true_r, orb_false_r.
  - destruct (Z.eqb_spec (i / 8) k) as [Hi8|Hi8]; [|done].
    exfalso. apply Hik. subst k. Z.div_mod_to_equations. lia.
Qed.

Lemma SizeInBytes_val (bm : RTL_BITMAP) :
  bitmap_wf bm → SizeInBytes bm = (SizeOfBitMap bm + 7) / 8.
Proof. intros (?&?&?). unfold SizeInBytes. by drop_wrap. Qed.

Lemma SizeInBytes_bounds (bm : RTL_BITMAP) :
  bitmap_wf bm →
  SizeOfBitMap bm ≤ 8 * SizeInBytes bm < SizeOfBitMap bm + 8 ∧
  0 ≤ SizeInBytes bm ≤ 4 * zlen (Buffer bm).
Proof.
  intros Hwf. rewrite SizeInBytes_val by done. destruct Hwf as (?&?&?).
  Z.div_mod_to_equations. lia.
Qed.

(** [padded c bm bm']: [bm'] is [bm] with the unused bits of the last byte set
    to [c]. *)
Definition padded (c : bool) (bm bm' : RTL_BITMAP) : Prop :=
  shape bm bm' ∧
  (∀ i, 0 ≤ i < SizeOfBitMap bm → bit bm' i = bit bm i) ∧
  (∀ i, SizeOfBitMap bm ≤ i < 8 * SizeInBytes bm → bit bm' i = c) ∧
  (∀ i, 8 * SizeInBytes bm ≤ i → bit bm' i = bit bm i).

Lemma is_u8_lor (x y : Z) : is_u8 x → is_u8 y → is_u8 (Z.lor x y).
Proof.
  unfold is_u8. intros Hx Hy. assert (0 ≤ Z.lor x y) by (apply Z.lor_nonneg; lia).
  split; [done|]. apply bits_bound; [lia..|]. intros i Hi.
  by rewrite Z.lor_spec, (testbit_high x 8 i), (testbit_high y 8 i) by lia.
Qed.

Lemma is_u8_land (x y : Z) : is_u8 x → 0 ≤ y → is_u8 (Z.land x y).
Proof.
  unfold is_u8. intros Hx Hy. assert (0 ≤ Z.land x y) by (apply Z.land_nonneg; lia).
  split; [done|]. apply bits_bound; [lia..|]. intros i Hi.
  by rewrite Z.land_spec, (testbit_high x 8 i) by lia.
Qed.

Lemma mask_u8 (r : Z) : 0 ≤ r ≤ 8 → is_u8 (Z.ones r) ∧ is_u8 (Z.lxor 0xff (Z.ones r)).
Proof.
  intros Hr. assert (0 ≤ Z.ones r) by (rewrite Z.ones_equiv; pose proof (Z.pow_pos_nonneg 2 r); lia).
  assert (∀ i, 8 ≤ i → Z.testbit (Z.ones r) i = false) as Hh
    by (intros; apply Z.ones_spec_high; lia).
  split; (split; [first [done|apply Z.lxor_nonneg; lia]|apply bits_bound; [lia| |]]);
    [done|done|apply Z.lxor_nonneg; lia|].
  intros i Hi. rewrite Z.lxor_spec, Hh, testbit_mask8 by done. split_tests; simpl; done || lia.
Qed.

Section padding.
Context (bm : RTL_BITMAP) (Hwf : bitmap_wf bm).

(** A store into the last byte that keeps its low [SizeOfBitMap % 8] bits and
    gives the others the value [c] pads the map. *)
Lemma pad_store (c : bool) (b v : Z) :
  SizeOfBitMap bm mod 8 ≠ 0 → GET_BYTE bm (SizeInBytes bm - 1) = Some b → is_u8 v →
  (∀ j, 0 ≤ j < 8 →
    Z.testbit v j = if j <? SizeOfBitMap bm mod 8 then Z.testbit b j else c) →
  ∃ bm', write_byte bm (SizeInBytes bm - 1) v = Some bm' ∧ padded c bm bm'.
Proof.
  intros Hr Hb Hv Hbits. pose proof Hwf as (Hsz & Hlen & HF).
  destruct (write_byte_bits bm _ b v Hb Hv HF) as (bm' & E & S & B).
  exists bm'. split; [done|]. unfold padded. rewrite SizeInBytes_val in * by done.
  destruct (GET_BYTE_spec _ _ _ Hb) as [_ Hbb].
  assert (∀ i, 0 ≤ i → 0 ≤ i mod 8 < 8) as Hm by (intros; apply Z.mod_pos_bound; lia).
  split; [done|split_and!]; intros i Hi; rewrite B by (Z.div_mod_to_equations; lia).
  - destruct (Z.eqb_spec (i / 8) ((SizeOfBitMap bm + 7) / 8 - 1)) as [Hi8|]; [|done].
    rewrite Hbits by (apply Hm; lia).
    rewrite (proj2 (Z.ltb_lt _ _)) by (Z.div_mod_to_equations; lia).
    rewrite Hbb by (apply Hm; lia). rewrite <- Hi8. f_equal. Z.div_mod_to_equations. lia.
  - rewrite (proj2 (Z.eqb_eq _ _)) by (Z.div_mod_to_equations; lia).
    rewrite Hbits by (apply Hm; lia).
    by rewrite (proj2 (Z.ltb_ge _ _)) by (Z.div_mod_to_equations; lia).
  - by rewrite (proj2 (Z.eqb_neq _ _)) by (Z.div_mod_to_equations; lia).
Qed.

Lemma no_padding (c : bool) : SizeOfBitMap bm mod 8 = 0 → padded c bm bm.
Proof.
  intros Hr. split; [done|split_and!; [done| |done]]. intros i.
  rewrite SizeInBytes_val by done. Z.div_mod_to_equations. lia.
Qed.

Lemma last_byte_index :
  SizeOfBitMap bm mod 8 ≠ 0 →
  SizeInBytes bm -u 1 = SizeInBytes bm - 1 ∧ ∃ b, GET_BYTE bm (SizeInBytes bm - 1) = Some b.
Proof.
  intros Hr. pose proof Hwf as (Hsz & Hlen & HF). pose proof (SizeInBytes_bounds bm Hwf).
  assert (0 < SizeInBytes bm) by (Z.div_mod_to_equations; lia).
  split; [by drop_wrap|]. apply GET_BYTE_Some. lia.
Qed.

Lemma pad_with_ones_spec : ∃ bm', pad_with_ones bm = Some bm' ∧ padded true bm bm'.
Proof.
  unfold pad_with_ones. destruct (Z.eqb_spec (SizeOfBitMap bm mod 8) 0) as [Hr|Hr].
  { exists bm. split; [done|]. by apply no_padding. }
  pose proof (Z.mod_pos_bound (SizeOfBitMap bm) 8 ltac:(lia)) as Hm.
  destruct (masks_get (SizeOfBitMap bm mod 8)) as [_ ->]; [lia|].
  destruct (last_byte_index Hr) as [-> [b Hb]]. cbn [mbind option_bind]. rewrite Hb.
  destruct (GET_BYTE_spec _ _ _ Hb) as [Hb8 _].
  destruct (mask_u8 (SizeOfBitMap bm mod 8)) as [_ Hm8]; [lia|].
  apply (pad_store true b); [done..|by apply is_u8_lor|]. intros j Hj.
  rewrite Z.lor_spec, Z.lxor_spec, testbit_mask8, testbit_ones_full by lia.
  split_tests; simpl; try lia; btauto.
Qed.

Lemma pad_with_zeros_spec : ∃ bm', pad_with_zeros bm = Some bm' ∧ padded false bm bm'.
Proof.
  unfold pad_with_zeros. destruct (Z.eqb_spec (SizeOfBitMap bm mod 8) 0) as [Hr|Hr].
  { exists bm. split; [done|]. by apply no_padding. }
  pose proof (Z.mod_pos_bound (SizeOfBitMap bm) 8 ltac:(lia)) as Hm.
  destruct (masks_get (SizeOfBitMap bm mod 8)) as [-> _]; [lia|].
  destruct (last_byte_index Hr) as [-> [b Hb]]. cbn [mbind option_bind]. rewrite Hb.
  destruct (GET_BYTE_spec _ _ _ Hb) as [Hb8 _].
  destruct (mask_u8 (SizeOfBitMap bm mod 8)) as [Hm8 _]; [lia|].
  apply (pad_store false b); [done..|apply is_u8_land; [done|unfold is_u8 in *; lia]|].
  intros j Hj. rewrite Z.land_spec, testbit_ones_full by lia.
  split_tests; simpl; try lia; btauto.
Qed.
End padding.

(** ** Complement

    The routines for set bits are the routines for clear bits read through the
    complement of the map; the theorems about the former are derived from the
    latter by this symmetry. *)

Definition complement (bm : RTL_BITMAP) : RTL_BITMAP :=
  mkBitmap (SizeOfBitMap bm) (NotUlong <$> Buffer bm).

Lemma array_get_fmap {A B} (f : A → B) (l : list A) (i : Z) :
  array_get (f <$> l) i = f <$> array_get l i.
Proof. unfold array_get. destruct (0 <=? i); [|done]. apply list_lookup_fmap. Qed.

Lemma complement_zlen (bm : RTL_BITMAP) : zlen (Buffer (complement bm)) = zlen (Buffer bm).
Proof. unfold zlen. simpl. by rewrite length_fmap. Qed.

Lemma complement_wf (bm : RTL_BITMAP) : bitmap_wf bm → bitmap_wf (complement bm).
Proof.
  intros (?&?&?). unfold bitmap_wf. rewrite complement_zlen. split_and!; simpl; [lia..|].
  apply Forall_fmap, Forall_true. intros. apply is_u32_NotUlong.
Qed.

Lemma complement_bit (bm : RTL_BITMAP) (i : Z) :
  0 ≤ i < 32 * zlen (Buffer bm) → bit (complement bm) i = negb (bit bm i).
Proof.
  intros Hi. unfold bit. simpl. rewrite array_get_fmap.
  destruct (array_get_Some (Buffer bm) (i / 32)) as [x ->]; [Z.div_mod_to_equations; lia|].
  simpl. apply testbit_NotUlong, Z.mod_pos_bound. lia.
Qed.

Lemma complement_GET_BYTE (bm : RTL_BITMAP) (k : Z) :
  GET_BYTE (complement bm) k = (λ b, u8 (Z.lnot b)) <$> GET_BYTE bm k.
Proof.
  unfold GET_BYTE, read_long. simpl. rewrite array_get_fmap.
  destruct (array_get (Buffer bm) (k / 4)) as [x|]; [|done]. simpl. f_equal.
  pose proof (Z.mod_pos_bound k 4 ltac:(lia)). unfold NotUlong.
  bitwise i.
Qed.

(** Maps of the same extent with the same bits are equal. *)
Lemma bitmap_ext (bm1 bm2 : RTL_BITMAP) :
  SizeOfBitMap bm1 = SizeOfBitMap bm2 → zlen (Buffer bm1) = zlen (Buffer bm2) →
  Forall is_u32 (Buffer bm1) → Forall is_u32 (Buffer bm2) →
  (∀ i, 0 ≤ i < 32 * zlen (Buffer bm1) → bit bm1 i = bit bm2 i) → bm1 = bm2.
Proof.
  destruct bm1 as [s1 l1], bm2 as [s2 l2]. simpl. intros -> Hl HF1 HF2 Hb. f_equal.
  apply list_eq_same_length with (n := length l1); [unfold zlen in Hl; lia|done|].
  intros k x y Hk Hx Hy. rewrite Forall_lookup in HF1, HF2.
  pose proof (HF1 _ _ Hx) as Hx32. pose proof (HF2 _ _ Hy) as Hy32.
  apply Z.bits_inj'. intros j Hj. destruct (Z.lt_ge_cases j 32) as [Hlt|Hge].
  - specialize (Hb (32 * Z.of_nat k + j) ltac:(unfold zlen; lia)). revert Hb. unfold bit. simpl.
    assert ((32 * Z.of_nat k + j) / 32 = Z.of_nat k ∧ (32 * Z.of_nat k + j) mod 32 = j) as [-> ->]
      by (Z.div_mod_to_equations; lia).
    unfold array_get. rewrite (proj2 (Z.leb_le 0 _)) by lia. rewrite Nat2Z.id.
    by rewrite Hx, Hy.
  - by rewrite (testbit_high x 32), (testbit_high y 32) by (done || lia).
Qed.

Lemma complement_pad (bm bm' : RTL_BITMAP) :
  bitmap_wf bm → pad_with_zeros bm = Some bm' →
  pad_with_ones (complement bm) = Some (complement bm').
Proof.
  intros Hwf E. destruct (pad_with_zeros_spec bm Hwf) as (z & E1 & S1 & L1 & P1 & H1).
  destruct (pad_with_ones_spec _ (complement_wf bm Hwf)) as (o & E2 & S2 & L2 & P2 & H2).
  rewrite E in E1. injection E1 as ->. rewrite E2. f_equal.
  pose proof (shape_wf _ _ S1 Hwf) as Wz. pose proof (shape_wf _ _ S2 (complement_wf _ Hwf)) as Wo.
  destruct S1 as (Sz1 & Ln1 & _), S2 as (Sz2 & Ln2 & _). rewrite complement_zlen in Ln2.
  assert (SizeInBytes (complement bm) = SizeInBytes bm) as HSB by done.
  apply bitmap_ext.
  - simpl in *. congruence.
  - rewrite complement_zlen. congruence.
  - apply Wo.
  - apply complement_wf. done.
  - intros i Hi. rewrite Ln2 in Hi. rewrite complement_bit by lia.
    simpl in *. rewrite HSB in *.
    destruct (Z.lt_ge_cases i (SizeOfBitMap bm)); [rewrite L1, L2 by lia; by apply complement_bit|].
    destruct (Z.lt_ge_cases i (8 * SizeInBytes bm)); [by rewrite P1, P2 by lia|].
    rewrite H1, H2 by lia. by apply complement_bit.
Qed.

(** ** Whole-map updates *)

Lemma fill_longs_get (l : list Z) (n v : Z) :
  0 ≤ n ≤ zlen l →
  ∃ l', fill_longs l n v = Some l' ∧ zlen l' = zlen l ∧
    (Forall is_u32 l → is_u32 v → Forall is_u32 l') ∧
    ∀ k, 0 ≤ k < n → array_get l' k = Some v.
Proof.
  intros Hn. unfold fill_longs. rewrite (proj2 (Z.leb_le _ _)) by lia.
  eexists. split; [done|]. unfold zlen in *. split_and!.
  - rewrite length_app, length_replicate, length_drop. lia.
  - intros HF Hv. apply Forall_app; split; [by apply Forall_replicate|by apply Forall_drop].
  - intros j Hj. unfold array_get. rewrite (proj2 (Z.leb_le _ _)) by lia.
    rewrite lookup_app_l by (rewrite length_replicate; lia).
    by rewrite lookup_replicate_2 by lia.
Qed.

Section fill_all.
Context (bm : RTL_BITMAP) (Hwf : bitmap_wf bm).

Lemma fill_all_ok (c : bool) :
  ∃ b, fill_longs (Buffer bm) (((SizeOfBitMap bm +u 31) / 32 *u 4) / 4) (long_of c) = Some b ∧
    let bm' := mkBitmap (SizeOfBitMap bm) b in
    bitmap_wf bm' ∧ ∀ i, 0 ≤ i < SizeOfBitMap bm → bit bm' i = c.
Proof.
  pose proof Hwf as (Hs & Hl & HF).
  assert (0 ≤ (SizeOfBitMap bm + 31) / 32 ≤ zlen (Buffer bm) ∧
          (SizeOfBitMap bm + 31) / 32 < 2 ^ 27) as [Hq Hq'] by (Z.div_mod_to_equations; lia).
  drop_wrap. rewrite Z.div_mul by lia.
  destruct (fill_longs_get (Buffer bm) ((SizeOfBitMap bm + 31) / 32) (long_of c) Hq)
    as (b & -> & Hlen & HFb & Hget).
  exists b. split; [done|]. split.
  - split_and!; simpl; [lia..|]. apply HFb; [done|]. by destruct c.
  - intros i Hi. unfold bit. simpl. rewrite Hget by (Z.div_mod_to_equations; lia).
    apply testbit_long_of, Z.mod_pos_bound. lia.
Qed.
End fill_all.
