(* ===== verification/BitmapFind.v ===== *)
(** * Bitmaps: searching for a run of a given length

    [RtlFindClearBits] and [RtlFindSetBits] of [RTL/BITMAP.C] with their three
    byte-wise search loops, and the allocating routines built on them,
    [RtlFindClearBitsAndSet] and [RtlFindSetBitsAndClear].

    A loop returns [None] on an access outside the buffer or a table, [Some None]
    when it runs to its end and [Some (Some i)] when the routine returns [i] from
    inside it.  The fuel of a loop is the number of bytes in its range, one per
    iteration. *)

From stdpp Require Import base list numbers option.
From Stdlib Require Import ZArith Lia.
From S2P Require Import Prelude BitmapBytes Bitmap.

Definition NOT_FOUND : Z := 0xffffffff.

(** ** Clear bits *)

(** [NumberToFind <= 9]: one byte, or the end of one and the start of the next. *)
Fixpoint FindClearBits_1or2 (fuel : nat) (bm : RTL_BITMAP)
    (NumberToFind EndByteIndex CurrentBitIndex pos PreviousByte : Z) : option (option Z) :=
  if EndByteIndex *u 8 <=? CurrentBitIndex then Some None else
  match fuel with
  | O => None
  | S fuel =>
      CurrentByte ← GET_BYTE bm pos;
      any ← array_get RtlpBitsClearAnywhere CurrentByte;
      if NumberToFind <=? any then
        BitMask ← array_get FillMask NumberToFind;
        i ← fit_clear 8 BitMask CurrentByte 0;
        Some (Some (CurrentBitIndex +u i))
      else
        high ← array_get RtlpBitsClearHigh PreviousByte;
        low ← array_get RtlpBitsClearLow CurrentByte;
        let StartingIndex := CurrentBitIndex -u high in
        if (NumberToFind <=? high +u low) &&
           (StartingIndex +u NumberToFind <=? SizeOfBitMap bm)
        then Some (Some StartingIndex)
        else FindClearBits_1or2 fuel bm NumberToFind EndByteIndex
               (CurrentBitIndex +u 8) (pos + 1) CurrentByte
  end.

(** [9 < NumberToFind < 15]: two bytes, or three with the middle one zero. *)
Fixpoint FindClearBits_2or3 (fuel : nat) (bm : RTL_BITMAP)
    (NumberToFind EndByteIndex CurrentBitIndex pos PreviousPreviousByte PreviousByte : Z) :
    option (option Z) :=
  if EndByteIndex *u 8 <=? CurrentBitIndex then Some None else
  match fuel with
  | O => None
  | S fuel =>
      CurrentByte ← GET_BYTE bm pos;
      high ← array_get RtlpBitsClearHigh PreviousByte;
      low ← array_get RtlpBitsClearLow CurrentByte;
      let StartingIndex := CurrentBitIndex -u high in
      if (NumberToFind <=? high +u low) &&
         (StartingIndex +u NumberToFind <=? SizeOfBitMap bm)
      then Some (Some StartingIndex)
      else
        high ← array_get RtlpBitsClearHigh PreviousPreviousByte;
        let StartingIndex := (CurrentBitIndex -u 8) -u high in
        if (PreviousByte =? 0) && (NumberToFind <=? high +u 8 +u low) &&
           (StartingIndex +u NumberToFind <=? SizeOfBitMap bm)
        then Some (Some StartingIndex)
        else FindClearBits_2or3 fuel bm NumberToFind EndByteIndex
               (CurrentBitIndex +u 8) (pos + 1) PreviousByte CurrentByte
  end.

(** [15 <= NumberToFind]: at least one zero byte between the ends. *)
Fixpoint FindClearBits_many (fuel : nat) (bm : RTL_BITMAP)
    (NumberToFind EndByteIndex CurrentByteIndex pos ZeroBytesNeeded ZeroBytesFound
     StartOfRunByte StartOfRunIndex : Z) : option (option Z) :=
  if EndByteIndex <=? CurrentByteIndex then Some None else
  match fuel with
  | O => None
  | S fuel =>
      CurrentByte ← GET_BYTE bm pos;
      high ← array_get RtlpBitsClearHigh StartOfRunByte;
      low ← array_get RtlpBitsClearLow CurrentByte;
      let StartingIndex := u32 (StartOfRunIndex * 8 + (8 - high)) in
      if (ZeroBytesNeeded <=? ZeroBytesFound) &&
         (NumberToFind <=? high +u ZeroBytesFound *u 8 +u low) &&
         (StartingIndex +u NumberToFind <=? SizeOfBitMap bm)
      then Some (Some StartingIndex)
      else if CurrentByte =? 0 then
        FindClearBits_many fuel bm NumberToFind EndByteIndex (CurrentByteIndex +u 1) (pos + 1)
          ZeroBytesNeeded (ZeroBytesFound +u 1) StartOfRunByte StartOfRunIndex
      else
        FindClearBits_many fuel bm NumberToFind EndByteIndex (CurrentByteIndex +u 1) (pos + 1)
          ZeroBytesNeeded 0 CurrentByte CurrentByteIndex
  end.

(** One iteration of the main loop: the bytes [[StartByteIndex, EndByteIndex)]. *)
Definition FindClearBits_pass (bm : RTL_BITMAP) (NumberToFind StartByteIndex EndByteIndex : Z) :
    option (option Z) :=
  let fuel := Z.to_nat (EndByteIndex - StartByteIndex) in
  if NumberToFind <=? 9 then
    FindClearBits_1or2 fuel bm NumberToFind EndByteIndex (StartByteIndex *u 8) StartByteIndex 0xff
  else if NumberToFind <? 15 then
    FindClearBits_2or3 fuel bm NumberToFind EndByteIndex (StartByteIndex *u 8) StartByteIndex
      0xff 0xff
  else
    FindClearBits_many fuel bm NumberToFind EndByteIndex StartByteIndex StartByteIndex
      ((NumberToFind - 7) / 8) 0 0xff (s32 (StartByteIndex - 1)).

(** The range of the second pass, from the start of the map up to the last byte
    that a run starting before the hint byte can reach. *)
Definition second_pass_end (bm : RTL_BITMAP) (NumberToFind HintByte : Z) : Z :=
  if NumberToFind <? 2 then HintByte else
  let EndByteIndex := HintByte +u (NumberToFind - 2) / 8 +u 1 in
  if SizeInBytes bm <? EndByteIndex then SizeInBytes bm else EndByteIndex.

Definition RtlFindClearBits (bm : RTL_BITMAP) (NumberToFind HintIndex : Z) :
    option (RTL_BITMAP * Z) :=
  bm ← pad_with_ones bm;
  let HintIndex := if SizeOfBitMap bm <=? HintIndex then 0 else HintIndex in
  let HintByte := HintIndex / 8 in
  r ← FindClearBits_pass bm NumberToFind HintByte (SizeInBytes bm);
  match r with
  | Some i => Some (bm, i)
  | None =>
      if HintByte =? 0 then Some (bm, NOT_FOUND) else
      r ← FindClearBits_pass bm NumberToFind 0 (second_pass_end bm NumberToFind HintByte);
      Some (bm, default NOT_FOUND r)
  end.

Definition RtlFindClearBitsAndSet (bm : RTL_BITMAP) (NumberToFind HintIndex : Z) :
    option (RTL_BITMAP * Z) :=
  '(bm, StartingIndex) ← RtlFindClearBits bm NumberToFind HintIndex;
  if StartingIndex =? NOT_FOUND then Some (bm, StartingIndex)
  else bm ← RtlSetBits bm StartingIndex NumberToFind; Some (bm, StartingIndex).

(** ** Set bits *)

Fixpoint FindSetBits_1or2 (fuel : nat) (bm : RTL_BITMAP)
    (NumberToFind EndByteIndex CurrentBitIndex pos PreviousByte : Z) : option (option Z) :=
  if EndByteIndex *u 8 <=? CurrentBitIndex then Some None else
  match fuel with
  | O => None
  | S fuel =>
      CurrentByte ← GET_BYTE bm pos;
      any ← RtlpBitSetAnywhere CurrentByte;
      if NumberToFind <=? any then
        BitMask ← array_get FillMask NumberToFind;
        i ← fit_set 8 BitMask CurrentByte 0;
        Some (Some (CurrentBitIndex +u i))
      else
        high ← RtlpBitsSetHigh PreviousByte;
        low ← RtlpBitsSetLow CurrentByte;
        let StartingIndex := CurrentBitIndex -u high in
        if (NumberToFind <=? high +u low) &&
           (StartingIndex +u NumberToFind <=? SizeOfBitMap bm)
        then Some (Some StartingIndex)
        else FindSetBits_1or2 fuel bm NumberToFind EndByteIndex
               (CurrentBitIndex +u 8) (pos + 1) CurrentByte
  end.

Fixpoint FindSetBits_2or3 (fuel : nat) (bm : RTL_BITMAP)
    (NumberToFind EndByteIndex CurrentBitIndex pos PreviousPreviousByte PreviousByte : Z) :
    option (option Z) :=
  if EndByteIndex *u 8 <=? CurrentBitIndex then Some None else
  match fuel with
  | O => None
  | S fuel =>
      CurrentByte ← GET_BYTE bm pos;
      high ← RtlpBitsSetHigh PreviousByte;
      low ← RtlpBitsSetLow CurrentByte;
      let StartingIndex := CurrentBitIndex -u high in
      if (NumberToFind <=? high +u low) &&
         (StartingIndex +u NumberToFind <=? SizeOfBitMap bm)
      then Some (Some StartingIndex)
      else
        high ← RtlpBitsSetHigh PreviousPreviousByte;
        let StartingIndex := (CurrentBitIndex -u 8) -u high in
        if (PreviousByte =? 0xff) && (NumberToFind <=? high +u 8 +u low) &&
           (StartingIndex +u NumberToFind <=? SizeOfBitMap bm)
        then Some (Some StartingIndex)
        else FindSetBits_2or3 fuel bm NumberToFind EndByteIndex
               (CurrentBitIndex +u 8) (pos + 1) PreviousByte CurrentByte
  end.

Fixpoint FindSetBits_many (fuel : nat) (bm : RTL_BITMAP)
    (NumberToFind EndByteIndex CurrentByteIndex pos OneBytesNeeded OneBytesFound
     StartOfRunByte StartOfRunIndex : Z) : option (option Z) :=
  if EndByteIndex <=? CurrentByteIndex then Some None else
  match fuel with
  | O => None
  | S fuel =>
      CurrentByte ← GET_BYTE bm pos;
      high ← RtlpBitsSetHigh StartOfRunByte;
      low ← RtlpBitsSetLow CurrentByte;
      let StartingIndex := u32 (StartOfRunIndex * 8 + (8 - high)) in
      if (OneBytesNeeded <=? OneBytesFound) &&
         (NumberToFind <=? high +u OneBytesFound *u 8 +u low) &&
         (StartingIndex +u NumberToFind <=? SizeOfBitMap bm)
      then Some (Some StartingIndex)
      else if CurrentByte =? 0xff then
        FindSetBits_many fuel bm NumberToFind EndByteIndex (CurrentByteIndex +u 1) (pos + 1)
          OneBytesNeeded (OneBytesFound +u 1) StartOfRunByte StartOfRunIndex
      else
        FindSetBits_many fuel bm NumberToFind EndByteIndex (CurrentByteIndex +u 1) (pos + 1)
          OneBytesNeeded 0 CurrentByte CurrentByteIndex
  end.

Definition FindSetBits_pass (bm : RTL_BITMAP) (NumberToFind StartByteIndex EndByteIndex : Z) :
    option (option Z) :=
  let fuel := Z.to_nat (EndByteIndex - StartByteIndex) in
  if NumberToFind <=? 9 then
    FindSetBits_1or2 fuel bm NumberToFind EndByteIndex (StartByteIndex *u 8) StartByteIndex 0x00
  else if NumberToFind <? 15 then
    FindSetBits_2or3 fuel bm NumberToFind EndByteIndex (StartByteIndex *u 8) StartByteIndex
      0x00 0x00
  else
    FindSetBits_many fuel bm NumberToFind EndByteIndex StartByteIndex StartByteIndex
      ((NumberToFind - 7) / 8) 0 0x00 (s32 (StartByteIndex - 1)).

Definition RtlFindSetBits (bm : RTL_BITMAP) (NumberToFind HintIndex : Z) :
    option (RTL_BITMAP * Z) :=
  bm ← pad_with_zeros bm;
  let HintIndex := if SizeOfBitMap bm <=? HintIndex then 0 else HintIndex in
  let HintByte := HintIndex / 8 in
  r ← FindSetBits_pass bm NumberToFind HintByte (SizeInBytes bm);
  match r with
  | Some i => Some (bm, i)
  | None =>
      if HintByte =? 0 then Some (bm, NOT_FOUND) else
      r ← FindSetBits_pass bm NumberToFind 0 (second_pass_end bm NumberToFind HintByte);
      Some (bm, default NOT_FOUND r)
  end.

Definition RtlFindSetBitsAndClear (bm : RTL_BITMAP) (NumberToFind HintIndex : Z) :
    option (RTL_BITMAP * Z) :=
  '(bm, StartingIndex) ← RtlFindSetBits bm NumberToFind HintIndex;
  if StartingIndex =? NOT_FOUND then Some (bm, StartingIndex)
  else bm ← RtlClearBits bm StartingIndex NumberToFind; Some (bm, StartingIndex).

(** ** Runs of clear bits *)

Definition clear_run (bm : RTL_BITMAP) (s n : Z) : Prop :=
  ∀ i, s ≤ i < s + n → bit bm i = false.
Definition set_run (bm : RTL_BITMAP) (s n : Z) : Prop :=
  ∀ i, s ≤ i < s + n → bit bm i = true.

Lemma clear_run_app (bm : RTL_BITMAP) (s n m : Z) :
  clear_run bm s n → clear_run bm (s + n) m → clear_run bm s (n + m).
Proof.
  intros H1 H2 i Hi. destruct (Z.lt_ge_cases i (s + n)); [apply H1|apply H2]; lia.
Qed.

Lemma clear_run_sub (bm : RTL_BITMAP) (s n s' n' : Z) :
  clear_run bm s n → s ≤ s' → s' + n' ≤ s + n → clear_run bm s' n'.
Proof. intros H ?? i Hi. apply H. lia. Qed.

(** What a byte of the map says about runs that end or start at its borders. *)
Section byte_runs.
Context (bm : RTL_BITMAP) (k b : Z) (Hb : GET_BYTE bm k = Some b).

Lemma byte_low_run : clear_run bm (8 * k) (low_clear b).
Proof.
  destruct (GET_BYTE_spec _ _ _ Hb) as [_ Hbits], (low_clear_spec b) as (H1 & H2 & _).
  intros i Hi. replace i with (8 * k + (i - 8 * k)) by lia.
  rewrite <- Hbits by lia. apply H2. lia.
Qed.

Lemma byte_low_max (m : Z) : m ≤ 8 → clear_run bm (8 * k) m → m ≤ low_clear b.
Proof.
  intros Hm H. destruct (GET_BYTE_spec _ _ _ Hb) as [_ Hbits].
  apply low_clear_max; [done|]. intros j Hj. rewrite Hbits by lia. apply H. lia.
Qed.

Lemma byte_high_run : clear_run bm (8 * (k + 1) - high_clear b) (high_clear b).
Proof.
  destruct (GET_BYTE_spec _ _ _ Hb) as [_ Hbits], (high_clear_spec b) as (H1 & H2 & _).
  intros i Hi. replace i with (8 * k + (i - 8 * k)) by lia.
  rewrite <- Hbits by lia. apply H2. lia.
Qed.

Lemma byte_high_max (m : Z) :
  m ≤ 8 → clear_run bm (8 * (k + 1) - m) m → m ≤ high_clear b.
Proof.
  intros Hm H. destruct (GET_BYTE_spec _ _ _ Hb) as [_ Hbits].
  apply high_clear_max; [done|]. intros j Hj. rewrite Hbits by lia. apply H. lia.
Qed.

Lemma byte_inner_max (s n : Z) :
  8 * k ≤ s → s + n ≤ 8 * k + 8 → 0 < n → clear_run bm s n → n ≤ longest_clear b.
Proof.
  intros Hs Hn Hp H. destruct (GET_BYTE_spec _ _ _ Hb) as [_ Hbits].
  apply (longest_clear_max b (s - 8 * k)); [lia..|].
  intros j Hj. rewrite Hbits by lia. apply H. lia.
Qed.

Lemma byte_zero : b = 0 ↔ clear_run bm (8 * k) 8.
Proof.
  destruct (GET_BYTE_spec _ _ _ Hb) as [H8 Hbits]. split.
  - intros Hz i Hi. replace i with (8 * k + (i - 8 * k)) by lia.
    rewrite <- Hbits, Hz by lia. apply Z.testbit_0_l.
  - intros H. apply Z.bits_inj'. intros j Hj. rewrite Z.testbit_0_l.
    destruct (Z.lt_ge_cases j 8); [rewrite Hbits by lia; apply H; lia|].
    by apply (testbit_high b 8); [|lia].
Qed.
End byte_runs.

Lemma high_clear_ff : high_clear 0xff = 0.
Proof. done. Qed.

Lemma is_u8_ff : is_u8 0xff.
Proof. done. Qed.
#[export] Hint Resolve is_u8_ff : nt.

Lemma GET_BYTE_u8 (bm : RTL_BITMAP) (k b : Z) : GET_BYTE bm k = Some b → is_u8 b.
Proof. intros H. by destruct (GET_BYTE_spec _ _ _ H). Qed.
#[export] Hint Resolve GET_BYTE_u8 : nt.

(** ** Correctness of one pass *)

Section pass.
Context (bm : RTL_BITMAP) (Hwf : bitmap_wf bm).
Context (Hpad : ∀ i, SizeOfBitMap bm ≤ i < 8 * SizeInBytes bm → bit bm i = true).
Context (n Start End : Z) (Hn : 0 < n).
Context (HStart : 0 ≤ Start) (HEnd : End ≤ SizeInBytes bm).

Definition found_ok (idx : Z) : Prop :=
  8 * Start ≤ idx ∧ idx + n ≤ SizeOfBitMap bm ∧ clear_run bm idx n.

(** The byte before [pos], or [0xff] at the start of the range. *)
Definition prev_ok (pos prev : Z) : Prop :=
  (pos = Start ∧ prev = 0xff) ∨ (Start < pos ∧ GET_BYTE bm (pos - 1) = Some prev).

Lemma range_facts (pos : Z) :
  Start ≤ pos < End →
  8 * End < 2 ^ 32 ∧ SizeOfBitMap bm < 2 ^ 32 ∧ ∃ b, GET_BYTE bm pos = Some b.
Proof.
  intros Hp. pose proof (SizeInBytes_bounds bm Hwf) as (?&?). destruct Hwf as (?&?&?).
  split_and!; [lia..|]. apply GET_BYTE_Some. lia.
Qed.

Lemma run_in_size (s : Z) :
  0 ≤ s → s + n ≤ 8 * End → clear_run bm s n → s + n ≤ SizeOfBitMap bm.
Proof.
  intros Hs He Hr. destruct (Z.le_gt_cases (s + n) (SizeOfBitMap bm)); [done|].
  assert (bit bm (s + n - 1) = false) as E by (apply Hr; lia).
  rewrite Hpad in E by lia. done.
Qed.

Lemma prev_u8 (pos prev : Z) : prev_ok pos prev → is_u8 prev.
Proof. intros [[_ ->]|[_ H]]; eauto with nt. Qed.

Lemma prev_run (pos prev : Z) :
  Start ≤ pos → prev_ok pos prev →
  8 * Start ≤ 8 * pos - high_clear prev ∧
  clear_run bm (8 * pos - high_clear prev) (high_clear prev).
Proof.
  intros Hp [[-> ->]|[Hlt H]].
  - rewrite high_clear_ff. split; [lia|]. intros i ?; lia.
  - pose proof (byte_high_run _ _ _ H) as Hr. destruct (high_clear_spec prev) as (?&_).
    replace (pos - 1 + 1) with pos in Hr by lia. split; [lia|done].
Qed.

Lemma prev_max (pos prev s : Z) :
  prev_ok pos prev → 8 * Start ≤ s → 8 * pos - 8 ≤ s →
  clear_run bm s (8 * pos - s) → 8 * pos - s ≤ high_clear prev.
Proof.
  intros [[-> ->]|[Hlt H]] Hs Hs' Hr; [rewrite high_clear_ff; lia|].
  apply (byte_high_max _ _ _ H); [lia|].
  by replace (8 * (pos - 1 + 1) - (8 * pos - s)) with s by lia.
Qed.

(** The two-byte test: it succeeds exactly on a run that starts in the
    previous byte (or at its end) and whose end is in the current one. *)
Lemma two_byte_sound (pos prev cur : Z) :
  Start ≤ pos → prev_ok pos prev → GET_BYTE bm pos = Some cur →
  n ≤ high_clear prev + low_clear cur →
  8 * pos - high_clear prev + n ≤ SizeOfBitMap bm →
  found_ok (8 * pos - high_clear prev).
Proof.
  intros Hp Hprev Hcur Hle Hsz. destruct (prev_run pos prev Hp Hprev) as [H1 H2].
  split_and!; [done..|]. pose proof (byte_low_run _ _ _ Hcur) as H3.
  eapply clear_run_sub; [eapply (clear_run_app bm _ _ (low_clear cur) H2)| |]; [|lia..].
  by replace (8 * pos - high_clear prev + high_clear prev) with (8 * pos) by lia.
Qed.

Lemma two_byte_complete (pos prev cur s : Z) :
  pos < End → prev_ok pos prev → GET_BYTE bm pos = Some cur →
  8 * Start ≤ s → 8 * pos - 8 ≤ s < 8 * pos → 8 * pos < s + n ≤ 8 * pos + 8 →
  clear_run bm s n →
  n ≤ high_clear prev + low_clear cur ∧
  8 * pos - high_clear prev + n ≤ SizeOfBitMap bm.
Proof.
  intros Hp Hprev Hcur H1 H2 H3 Hr.
  assert (8 * pos - s ≤ high_clear prev) by
    (apply (prev_max pos prev s Hprev); [lia..|]; eapply clear_run_sub; [done|lia..]).
  assert (s + n - 8 * pos ≤ low_clear cur) by
    (apply (byte_low_max _ _ _ Hcur); [lia|]; eapply clear_run_sub; [done|lia..]).
  pose proof (run_in_size s ltac:(lia) ltac:(lia) Hr). lia.
Qed.

(** Loop invariant and result of the first two loops: no run lies in the bytes
    already read; the result is a run, or there is none. *)
Definition none_before (pos : Z) : Prop :=
  ∀ s, 8 * Start ≤ s → s + n ≤ 8 * pos → ¬ clear_run bm s n.

Definition search_ok (r : option Z) : Prop :=
  match r with Some idx => found_ok idx | None => none_before End end.

Lemma loop_1or2_ok (fuel : nat) (pos prev : Z) :
  n ≤ 9 → Start ≤ pos ≤ End → fuel = Z.to_nat (End - pos) → prev_ok pos prev →
  none_before pos →
  ∃ r, FindClearBits_1or2 fuel bm n End (8 * pos) pos prev = Some r ∧ search_ok r.
Proof.
  intros Hn9. revert pos prev. induction fuel as [|fuel IH]; intros pos prev Hp Hf Hprev Hnone.
  { assert (pos = End) as -> by lia. simpl.
    pose proof (SizeInBytes_bounds bm Hwf) as (?&?). destruct Hwf as (?&?&?). drop_wrap.
    rewrite (proj2 (Z.leb_le _ _)) by lia. by exists None. }
  destruct (range_facts pos) as (HE & HS & b & Hb); [lia|].
  cbn [FindClearBits_1or2]. drop_wrap. rewrite (proj2 (Z.leb_gt _ _)) by lia.
  pose proof (prev_u8 _ _ Hprev) as Hprev8. pose proof (GET_BYTE_u8 _ _ _ Hb) as Hb8.
  rewrite Hb. cbn [mbind option_bind]. rewrite get_anywhere, get_high, get_low by done.
  cbn [mbind option_bind]. pose proof (high_clear_spec prev) as (Hh & _).
  pose proof (low_clear_spec b) as (Hl & _).
  destruct (Z.leb_spec n (longest_clear b)) as [Hin|Hout].
  { destruct (fit_clear_finds b n Hb8 ltac:(lia)) as (m & i & -> & E & Hi0 & Hi8 & Hbits).
    cbn [mbind option_bind]. rewrite E. cbn [mbind option_bind]. drop_wrap.
    eexists. split; [done|]. destruct (GET_BYTE_spec _ _ _ Hb) as [_ Hbb].
    assert (clear_run bm (8 * pos + i) n) as Hr.
    { intros j Hj. replace j with (8 * pos + (j - 8 * pos)) by lia.
      rewrite <- Hbb by lia. apply Hbits. lia. }
    split_and!; [lia| |done]. apply run_in_size; [lia..|done]. }
  destruct (prev_run pos prev ltac:(lia) Hprev) as [Hlo _]. drop_wrap.
  destruct (Z.leb_spec n (high_clear prev + low_clear b)) as [Htwo|Htwo]; cbn [andb].
  1: destruct (Z.leb_spec (8 * pos - high_clear prev + n) (SizeOfBitMap bm)) as [Hsz|Hsz].
  { eexists. split; [done|]. by apply (two_byte_sound pos prev b); [lia|..]. }
  all: replace (8 * pos + 8) with (8 * (pos + 1)) by lia.
  all: apply IH; [lia..|right; split; [lia|by replace (pos + 1 - 1) with pos by lia]|].
  all: intros s Hs1 Hs2 Hr.
  all: destruct (Z.le_gt_cases (s + n) (8 * pos)); [by eapply Hnone|].
  all: destruct (Z.le_gt_cases (8 * pos) s);
    [pose proof (byte_inner_max _ _ _ Hb s n ltac:(lia) ltac:(lia) Hn Hr); lia|].
  all: destruct (two_byte_complete pos prev b s); [lia|done|done|lia..|done|lia].
Qed.

Lemma loop_2or3_ok (fuel : nat) (pos pp prev : Z) :
  9 < n < 15 → Start ≤ pos ≤ End → fuel = Z.to_nat (End - pos) → prev_ok pos prev →
  (Start < pos → prev_ok (pos - 1) pp) → is_u8 pp → none_before pos →
  ∃ r, FindClearBits_2or3 fuel bm n End (8 * pos) pos pp prev = Some r ∧ search_ok r.
Proof.
  intros Hn9. revert pos pp prev.
  induction fuel as [|fuel IH]; intros pos pp prev Hp Hf Hprev Hpp Hpp8 Hnone.
  { assert (pos = End) as -> by lia. simpl.
    pose proof (SizeInBytes_bounds bm Hwf) as (?&?). destruct Hwf as (?&?&?). drop_wrap.
    rewrite (proj2 (Z.leb_le _ _)) by lia. by exists None. }
  destruct (range_facts pos) as (HE & HS & b & Hb); [lia|].
  cbn [FindClearBits_2or3]. drop_wrap. rewrite (proj2 (Z.leb_gt _ _)) by lia.
  pose proof (prev_u8 _ _ Hprev) as Hprev8. pose proof (GET_BYTE_u8 _ _ _ Hb) as Hb8.
  rewrite Hb. cbn [mbind option_bind]. rewrite !get_high, get_low by done.
  cbn [mbind option_bind]. pose proof (high_clear_spec prev) as (Hh & _).
  pose proof (high_clear_spec pp) as (Hh' & _). pose proof (low_clear_spec b) as (Hl & _).
  destruct (prev_run pos prev ltac:(lia) Hprev) as [Hlo _]. drop_wrap.
  match goal with |- ∃ r, (if ?t then _ else _) = _ ∧ _ => destruct t eqn:T1 end.
  { apply andb_true_iff in T1 as [Ht1%Z.leb_le Ht2%Z.leb_le].
    eexists. split; [done|]. by apply (two_byte_sound pos prev b); [lia|..]. }
  match goal with |- ∃ r, (if ?t then _ else _) = _ ∧ _ => destruct t eqn:T2 end.
  { apply andb_true_iff in T2 as [[Hz%Z.eqb_eq Ht1%Z.leb_le]%andb_true_iff Ht2].
    destruct Hprev as [[-> ->]|[Hlt HprevB]]; [done|]. specialize (Hpp Hlt).
    destruct (prev_run (pos - 1) pp ltac:(lia) Hpp) as [Hlo' Hr']. drop_wrap.
    apply Z.leb_le in Ht2. eexists. split; [done|].
    pose proof (proj1 (byte_zero _ _ _ HprevB) Hz) as Hz8.
    pose proof (byte_low_run _ _ _ Hb) as HlowR. split_and!; [lia..|].
    replace (8 * pos - 8 - high_clear pp) with (8 * (pos - 1) - high_clear pp) by lia.
    intros i Hi. destruct (Z.lt_ge_cases i (8 * (pos - 1))); [apply Hr'; lia|].
    destruct (Z.lt_ge_cases i (8 * pos)); [apply Hz8; lia|apply HlowR; lia]. }
  replace (8 * pos + 8) with (8 * (pos + 1)) by lia.
  apply IH; [lia..|right; split; [lia|by replace (pos + 1 - 1) with pos by lia]| |done|].
  { intros _. by replace (pos + 1 - 1) with pos by lia. }
  intros s Hs1 Hs2 Hr. destruct (Z.le_gt_cases (s + n) (8 * pos)); [by eapply Hnone|].
  destruct (Z.le_gt_cases (8 * pos - 8) s).
  { destruct (two_byte_complete pos prev b s) as [Hc1 Hc2]; [lia|done|done|lia..|done|].
    apply andb_false_iff in T1 as [T1%Z.leb_gt|T1%Z.leb_gt]; lia. }
  destruct Hprev as [[-> ->]|[Hlt HprevB]]; [lia|]. specialize (Hpp Hlt).
  assert (prev = 0) as Hz by
    (apply (byte_zero _ _ _ HprevB); eapply clear_run_sub; [done|lia..]).
  assert (8 * (pos - 1) - s ≤ high_clear pp) by
    (apply (prev_max (pos - 1) pp s Hpp); [lia..|]; eapply clear_run_sub; [done|lia..]).
  assert (s + n - 8 * pos ≤ low_clear b) by
    (apply (byte_low_max _ _ _ Hb); [lia|]; eapply clear_run_sub; [done|lia..]).
  pose proof (run_in_size s ltac:(lia) ltac:(lia) Hr).
  destruct (prev_run (pos - 1) pp ltac:(lia) Hpp) as [Hlo' _]. drop_wrap.
  rewrite Hz in T2. apply andb_false_iff in T2 as [T2|T2%Z.leb_gt]; [|lia].
  apply andb_false_iff in T2 as [T2|T2%Z.leb_gt]; [done|lia].
Qed.

(** The state of the third loop: the [found] bytes before [pos] are zero, and
    the byte before them is not (or the range starts there). *)
Definition run_state (pos found sorb sori : Z) : Prop :=
  sori = pos - 1 - found ∧ 0 ≤ found ∧ Start - 1 ≤ sori ∧ prev_ok (sori + 1) sorb ∧
  sorb ≠ 0 ∧ clear_run bm (8 * (sori + 1)) (8 * found).

(** The third loop misses a run of this form: its zero bytes are only counted
    when the byte after them is read. *)
Definition missed (pos s : Z) : Prop := n mod 8 = 7 ∧ s mod 8 = 1 ∧ s + n = 8 * pos.

Definition none_before_but_missed (pos : Z) : Prop :=
  ∀ s, 8 * Start ≤ s → s + n ≤ 8 * pos → clear_run bm s n → missed pos s.

Lemma high_clear_nonzero (b : Z) : is_u8 b → b ≠ 0 → high_clear b ≤ 7.
Proof.
  intros Hb Hne. destruct (high_clear_spec b) as (H1 & H2 & _).
  destruct (Z.le_gt_cases (high_clear b) 7); [done|]. destruct Hne.
  apply Z.bits_inj'. intros j Hj. rewrite Z.testbit_0_l.
  destruct (Z.lt_ge_cases j 8); [apply H2; lia|by apply (testbit_high b 8); [|lia]].
Qed.

Lemma run_state_start (pos found sorb sori s : Z) :
  run_state pos found sorb sori → 8 * Start ≤ s < 8 * pos →
  clear_run bm s (8 * pos - s) → 8 * (sori + 1) - high_clear sorb ≤ s.
Proof.
  intros (Hi & Hf & Hlo & Hprev & Hne & Hz) Hs Hr.
  destruct (high_clear_spec sorb) as (Hh & _).
  destruct (Z.le_gt_cases (8 * (sori + 1)) s); [lia|].
  destruct (Z.le_gt_cases (8 * (sori + 1) - 8) s).
  { enough (8 * (sori + 1) - s ≤ high_clear sorb) by lia.
    apply (prev_max (sori + 1) sorb s Hprev); [lia..|]. eapply clear_run_sub; [done|lia..]. }
  destruct Hprev as [[HS _]|[HS HB]]; [lia|]. destruct Hne. apply (byte_zero _ _ _ HB).
  eapply clear_run_sub; [done|lia..].
Qed.

Lemma run_state_sound (pos found sorb sori cur : Z) :
  Start ≤ pos → run_state pos found sorb sori → GET_BYTE bm pos = Some cur →
  n ≤ high_clear sorb + found * 8 + low_clear cur →
  8 * (sori + 1) - high_clear sorb + n ≤ SizeOfBitMap bm →
  found_ok (8 * (sori + 1) - high_clear sorb).
Proof.
  intros Hp (Hi & Hf & Hlo & Hprev & Hne & Hz) Hcur Hle Hsz.
  destruct (prev_run (sori + 1) sorb ltac:(lia) Hprev) as [H1 H2].
  pose proof (byte_low_run _ _ _ Hcur) as H3. split_and!; [lia..|].
  intros i Hi'. destruct (Z.lt_ge_cases i (8 * (sori + 1))); [apply H2; lia|].
  destruct (Z.lt_ge_cases i (8 * pos)); [apply Hz; lia|apply H3; lia].
Qed.

(** If the test on the current byte fails, only a run of the missed form can
    end in it, and a run missed at the previous byte cannot exist. *)
Lemma run_state_complete (pos found sorb sori cur s : Z) :
  15 ≤ n → pos < End → run_state pos found sorb sori → GET_BYTE bm pos = Some cur →
  (found < (n - 7) / 8 ∨ high_clear sorb + found * 8 + low_clear cur < n ∨
   SizeOfBitMap bm < 8 * (sori + 1) - high_clear sorb + n) →
  8 * Start ≤ s → s + n ≤ 8 * (pos + 1) → clear_run bm s n →
  (s + n ≤ 8 * pos → missed pos s) → missed (pos + 1) s.
Proof.
  intros Hn15 Hp Hst Hcur Hfail Hs1 Hs2 Hr Hmiss.
  pose proof (run_in_size s ltac:(lia) ltac:(lia) Hr) as Hsz.
  pose proof Hst as (Hi & Hf & Hlo & Hprev & Hne & _).
  pose proof (high_clear_nonzero _ (prev_u8 _ _ Hprev) Hne).
  destruct (high_clear_spec sorb) as (Hh & _), (low_clear_spec cur) as (Hl & _).
  assert (8 * pos ≤ s + n) as Hreach.
  { destruct (Z.le_gt_cases (s + n) (8 * pos)) as [Hle|]; [|lia].
    destruct (Hmiss Hle) as (_ & _ & ->). lia. }
  assert (8 * (sori + 1) - high_clear sorb ≤ s) as Hm.
  { eapply run_state_start; [done|lia|]. eapply clear_run_sub; [done|lia..]. }
  assert (s + n - 8 * pos ≤ low_clear cur) as Hlow.
  { apply (byte_low_max _ _ _ Hcur); [lia|]. eapply clear_run_sub; [done|lia..]. }
  destruct (Z.le_gt_cases (s + n) (8 * pos)) as [Hle|Hgt].
  - destruct (Hmiss Hle) as (Hn7 & _ & He). Z.div_mod_to_equations. lia.
  - unfold missed. Z.div_mod_to_equations. lia.
Qed.

Lemma loop_many_ok (fuel : nat) (pos found sorb sori : Z) :
  15 ≤ n < 2 ^ 32 → Start ≤ pos ≤ End → fuel = Z.to_nat (End - pos) →
  run_state pos found sorb sori → none_before_but_missed pos →
  ∃ r, FindClearBits_many fuel bm n End pos pos ((n - 7) / 8) found sorb sori = Some r ∧
    match r with Some idx => found_ok idx | None => none_before_but_missed End end.
Proof.
  intros Hn15. revert pos found sorb sori.
  induction fuel as [|fuel IH]; intros pos found sorb sori Hp Hf Hst Hnone.
  { assert (pos = End) as -> by lia. simpl.
    rewrite (proj2 (Z.leb_le _ _)) by lia. by exists None. }
  destruct (range_facts pos) as (HE & HS & b & Hb); [lia|].
  cbn [FindClearBits_many]. rewrite (proj2 (Z.leb_gt _ _)) by lia.
  pose proof Hst as (Hi & Hf0 & Hlo & Hprev & Hne & Hz).
  pose proof (prev_u8 _ _ Hprev) as Hprev8. pose proof (GET_BYTE_u8 _ _ _ Hb) as Hb8.
  rewrite Hb. cbn [mbind option_bind]. rewrite get_high, get_low by done.
  cbn [mbind option_bind]. pose proof (high_clear_spec sorb) as (Hh & _).
  pose proof (low_clear_spec b) as (Hl & _).
  destruct (prev_run (sori + 1) sorb ltac:(lia) Hprev) as [Hlo' _]. drop_wrap.
  replace (sori * 8 + (8 - high_clear sorb)) with (8 * (sori + 1) - high_clear sorb) by lia.
  match goal with |- ∃ r, (if ?t then _ else _) = _ ∧ _ => destruct t eqn:T end.
  { apply andb_true_iff in T as [[_ Ht1%Z.leb_le]%andb_true_iff Ht2%Z.leb_le].
    eexists. split; [done|]. rewrite u32_small in Ht2 by lia.
    apply (run_state_sound pos found sorb sori b); [lia|done..]. }
  assert (none_before_but_missed (pos + 1)) as Hnone'.
  { intros s Hs1 Hs2 Hr. eapply run_state_complete; [lia|lia|done|done| |done..|].
    2:{ intros Hle. by apply Hnone. }
    apply andb_false_iff in T as [[T%Z.leb_gt|T%Z.leb_gt]%andb_false_iff|T%Z.leb_gt]; [lia..|].
    right; right. unfold u32 in T.
    pose proof (Z.mod_le (8 * (sori + 1) - high_clear sorb + n) (2 ^ 32)). lia. }
  destruct (Z.eqb_spec b 0) as [Hb0|Hb0]; apply IH; try lia; try done.
  - split_and!; [lia..|done|done|]. intros i Hi'.
    destruct (Z.lt_ge_cases i (8 * pos)); [apply Hz; lia|].
    pose proof (proj1 (byte_zero _ _ _ Hb) Hb0) as Hz8. apply Hz8. lia.
  - split_and!; [lia..| |done|intros i ?; lia]. right. split; [lia|].
    by replace (pos + 1 - 1) with pos by lia.
Qed.
End pass.

(** ** The search routines *)

Lemma pass_ok (bm : RTL_BITMAP) (n Start End : Z) :
  bitmap_wf bm → (∀ i, SizeOfBitMap bm ≤ i < 8 * SizeInBytes bm → bit bm i = true) →
  0 < n < 2 ^ 32 → 0 ≤ Start ≤ End → End ≤ SizeInBytes bm →
  ∃ r, FindClearBits_pass bm n Start End = Some r ∧
    match r with
    | Some idx => found_ok bm n Start idx
    | None => ∀ s, 8 * Start ≤ s → s + n ≤ 8 * End → clear_run bm s n →
                15 ≤ n ∧ missed n End s
    end.
Proof.
  intros Hwf Hpad Hn HS HE. unfold FindClearBits_pass.
  pose proof (SizeInBytes_bounds bm Hwf) as (?&?). pose proof Hwf as (?&?&?).
  assert (prev_ok bm Start Start 0xff) as Hprev by (by left). drop_wrap.
  rewrite (Z.mul_comm Start 8). rewrite s32_small by lia.
  destruct (Z.leb_spec n 9); [|destruct (Z.ltb_spec n 15)].
  - destruct (loop_1or2_ok bm Hwf Hpad n Start End ltac:(lia) ltac:(lia) HE
      (Z.to_nat (End - Start)) Start 0xff) as (r & -> & Hr); [lia..|done|intros s ???; lia|].
    exists r. split; [done|]. destruct r; [done|]. intros s ?? Hs. by destruct (Hr s).
  - destruct (loop_2or3_ok bm Hwf Hpad n Start End ltac:(lia) ltac:(lia) HE
      (Z.to_nat (End - Start)) Start 0xff 0xff) as (r & -> & Hr);
      [lia..|done|lia|done|intros s ???; lia|].
    exists r. split; [done|]. destruct r; [done|]. intros s ?? Hs. by destruct (Hr s).
  - destruct (loop_many_ok bm Hwf Hpad n Start End ltac:(lia) ltac:(lia) HE
      (Z.to_nat (End - Start)) Start 0 0xff (Start - 1)) as (r & -> & Hr);
      [lia..| |intros s ???; lia|].
    { split_and!; [lia..| |done|intros i ?; lia].
      by replace (Start - 1 + 1) with Start by lia. }
    exists r. split; [done|]. destruct r; [done|]. intros s ?? Hs. split; [lia|]. by apply Hr.
Qed.

Lemma second_pass_range (bm : RTL_BITMAP) (n h : Z) :
  bitmap_wf bm → 0 < n < 2 ^ 32 → 0 < h → 8 * h < SizeOfBitMap bm →
  let e := second_pass_end bm n h in
  0 ≤ e ≤ SizeInBytes bm ∧
  (∀ s, 0 ≤ s < 8 * h → s + n ≤ SizeOfBitMap bm → s + n ≤ 8 * e) ∧
  (∀ s, 0 ≤ s < 8 * h → missed n e s → e = SizeInBytes bm).
Proof.
  intros Hwf Hn Hh Hsz. unfold second_pass_end, missed.
  pose proof (SizeInBytes_bounds bm Hwf) as (?&?). pose proof Hwf as (?&?&?).
  assert (n < 2 ∨ 2 ≤ n ∧ 0 ≤ (n - 2) / 8 < 2 ^ 29) as [Hn1|[Hn2 Hq]]
    by (Z.div_mod_to_equations; lia).
  - rewrite (proj2 (Z.ltb_lt _ _)) by lia. split_and!; [lia..|intros; lia|].
    intros s Hs (Hm & _). assert (n = 1) as -> by lia. done.
  - rewrite (proj2 (Z.ltb_ge _ _)) by lia. drop_wrap.
    destruct (Z.ltb_spec (SizeInBytes bm) (h + (n - 2) / 8 + 1));
      (split_and!; [lia..|intros; Z.div_mod_to_equations; lia|intros s Hs (?&?&?)]);
      Z.div_mod_to_equations; lia.
Qed.

(** The runs of a map and of its padded copy are the same. *)
Lemma padded_run (c : bool) (bm bm' : RTL_BITMAP) (s n : Z) :
  padded c bm bm' → 0 ≤ s → s + n ≤ SizeOfBitMap bm → clear_run bm' s n ↔ clear_run bm s n.
Proof.
  intros (_ & Hlow & _) Hs Hn. split; intros H i Hi;
    [rewrite <- Hlow by lia|rewrite Hlow by lia]; by apply H.
Qed.

Lemma padded_facts (c : bool) (bm bm' : RTL_BITMAP) :
  bitmap_wf bm → padded c bm bm' →
  bitmap_wf bm' ∧ SizeOfBitMap bm' = SizeOfBitMap bm ∧ SizeInBytes bm' = SizeInBytes bm ∧
  (∀ i, SizeOfBitMap bm' ≤ i < 8 * SizeInBytes bm' → bit bm' i = c).
Proof.
  intros Hwf (S & _ & Hp & _). pose proof (shape_wf _ _ S Hwf). destruct S as (Hs & _ & _).
  unfold SizeInBytes. rewrite Hs. split_and!; done.
Qed.

(** The whole effect of padding: only the bits from the end of the map to the end
    of its last byte change. *)
Lemma padded_exact (c : bool) (bm bm' : RTL_BITMAP) :
  bitmap_wf bm → padded c bm bm' →
  bitmap_wf bm' ∧ SizeOfBitMap bm' = SizeOfBitMap bm ∧
  length (Buffer bm') = length (Buffer bm) ∧
  ∀ j, 0 ≤ j → bit bm' j =
    if decide (SizeOfBitMap bm ≤ j < 8 * ((SizeOfBitMap bm + 7) / 8)) then c else bit bm j.
Proof.
  intros Hwf (S & Hlo & Hp & Hhi). pose proof (shape_wf _ _ S Hwf).
  rewrite SizeInBytes_val in * by done. destruct S as (Hs & Hl & _).
  split_and!; [done|done|unfold zlen in Hl; lia|]. intros j Hj. case_decide; [by apply Hp|].
  destruct (decide (j < SizeOfBitMap bm)); [apply Hlo|apply Hhi]; lia.
Qed.

(** A clear run of the form the third loop overlooks: [n] is 7 modulo 8, the run
    starts one bit into a byte and ends with the map. *)
Definition overlooked (bm : RTL_BITMAP) (s n : Z) : Prop :=
  15 ≤ n ∧ n mod 8 = 7 ∧ s mod 8 = 1 ∧ s + n = SizeOfBitMap bm.

Lemma RtlFindClearBits_ok (bm : RTL_BITMAP) (n hint : Z) :
  bitmap_wf bm → 0 < n < 2 ^ 32 → 0 ≤ hint →
  ∃ bm' idx, RtlFindClearBits bm n hint = Some (bm', idx) ∧ padded true bm bm' ∧
    (idx ≠ NOT_FOUND ∧ 0 ≤ idx ∧ idx + n ≤ SizeOfBitMap bm ∧ clear_run bm idx n ∨
     idx = NOT_FOUND ∧ ∀ s, 0 ≤ s → s + n ≤ SizeOfBitMap bm → clear_run bm s n →
       overlooked bm s n).
Proof.
  intros Hwf Hn Hh. destruct (pad_with_ones_spec bm Hwf) as (p & E & Hp).
  destruct (padded_facts _ _ _ Hwf Hp) as (Wp & Sp & SBp & Pp).
  unfold RtlFindClearBits. rewrite E. cbn [mbind option_bind]. clear E.
  pose proof (SizeInBytes_bounds p Wp) as (HB1 & HB2). pose proof Wp as (Hsz & _ & _).
  set (h := (if SizeOfBitMap p <=? hint then 0 else hint) / 8).
  assert (0 ≤ h ∧ (h = 0 ∨ 8 * h < SizeOfBitMap p)) as [Hh0 Hh1].
  { subst h. destruct (Z.leb_spec (SizeOfBitMap p) hint); [by split; [|left]|].
    Z.div_mod_to_equations. lia. }
  assert (∀ st idx, 0 ≤ st → found_ok p n st idx →
    idx ≠ NOT_FOUND ∧ 0 ≤ idx ∧ idx + n ≤ SizeOfBitMap bm ∧ clear_run bm idx n) as Hfound.
  { intros st idx Hst (? & ? & Hr). unfold NOT_FOUND. rewrite Sp in *.
    split_and!; [lia..|]. by apply (padded_run _ _ _ _ _ Hp); [lia|lia|]. }
  destruct (pass_ok p n h (SizeInBytes p)) as (r1 & -> & H1); [done..|lia|lia|].
  cbn [mbind option_bind]. destruct r1 as [idx|].
  { exists p, idx. split_and!; [done..|left]. eauto. }
  assert (∀ s, 8 * h ≤ s → s + n ≤ SizeOfBitMap bm → clear_run bm s n → overlooked bm s n)
    as Hfirst.
  { intros s ?? Hr. destruct (H1 s) as (? & ? & ? & ?);
      [lia|lia|by apply (padded_run _ _ _ _ _ Hp); [lia|lia|]|].
    split_and!; [done..|lia]. }
  destruct (Z.eqb_spec h 0) as [Hz|Hnz].
  { exists p, NOT_FOUND. split_and!; [done..|right]. split; [done|]. intros s ???.
    apply Hfirst; [lia|done..]. }
  destruct (second_pass_range p n h Wp Hn ltac:(lia) ltac:(lia)) as (He1 & He2 & He3).
  destruct (pass_ok p n 0 (second_pass_end p n h)) as (r2 & -> & H2); [done..|lia|lia|].
  cbn [mbind option_bind]. destruct r2 as [idx|]; simpl.
  { exists p, idx. split_and!; [done..|left]. by apply (Hfound 0). }
  exists p, NOT_FOUND. split_and!; [done..|right]. split; [done|]. intros s Hs1 Hs2 Hr.
  destruct (Z.lt_ge_cases s (8 * h)); [|by apply Hfirst].
  destruct (H2 s) as (Hn15 & Hmiss); [lia|apply He2; lia|by apply (padded_run _ _ _ _ _ Hp)|].
  pose proof (He3 s ltac:(lia) Hmiss) as He. destruct Hmiss as (?&?&?).
  split_and!; [done..|lia].
Qed.

(** ** Searching for set bits is searching the complement for clear bits *)

Lemma not_byte_val (b : Z) : is_u8 b → u8 (Z.lnot b) = 0xff - b.
Proof. unfold is_u8, u8, Z.lnot. intros. Z.div_mod_to_equations. lia. Qed.

Lemma FillMask_u8 (n m : Z) : array_get FillMask n = Some m → is_u8 m.
Proof.
  intros H. eapply array_get_Forall; [done|]. unfold FillMask.
  repeat (apply Forall_cons; [done|]). apply Forall_nil.
Qed.

Section complement_search.
Context (bm : RTL_BITMAP).

Lemma complement_1or2 (fuel : nat) (n e c pos prev : Z) :
  FindSetBits_1or2 fuel bm n e c pos prev =
  FindClearBits_1or2 fuel (complement bm) n e c pos (u8 (Z.lnot prev)).
Proof.
  revert c pos prev. induction fuel as [|fuel IH]; intros c pos prev; cbn [FindSetBits_1or2 FindClearBits_1or2]; [done|].
  change (SizeOfBitMap (complement bm)) with (SizeOfBitMap bm).
  case_match; [done|]. rewrite complement_GET_BYTE.
  destruct (GET_BYTE bm pos) as [b|]; [|done]. cbn [mbind option_bind fmap option_fmap option_map].
  unfold RtlpBitSetAnywhere, RtlpBitsSetHigh, RtlpBitsSetLow. rewrite !not_byte.
  destruct (array_get RtlpBitsClearAnywhere _) as [a|]; [|done]. cbn [mbind option_bind].
  destruct (n <=? a).
  { destruct (array_get FillMask n) as [m|] eqn:Em; [|done]. cbn [mbind option_bind].
    by rewrite fit_set_clear by (by eapply FillMask_u8). }
  destruct (array_get RtlpBitsClearHigh _); [|done]. cbn [mbind option_bind].
  destruct (array_get RtlpBitsClearLow _); [|done]. cbn [mbind option_bind].
  case_match; [done|]. apply IH.
Qed.

Lemma complement_2or3 (fuel : nat) (n e c pos pp prev : Z) :
  is_u8 prev →
  FindSetBits_2or3 fuel bm n e c pos pp prev =
  FindClearBits_2or3 fuel (complement bm) n e c pos (u8 (Z.lnot pp)) (u8 (Z.lnot prev)).
Proof.
  revert c pos pp prev. induction fuel as [|fuel IH]; intros c pos pp prev H8; cbn [FindSetBits_2or3 FindClearBits_2or3]; [done|].
  change (SizeOfBitMap (complement bm)) with (SizeOfBitMap bm).
  case_match; [done|]. rewrite complement_GET_BYTE.
  destruct (GET_BYTE bm pos) as [b|] eqn:Eb; [|done].
  cbn [mbind option_bind fmap option_fmap option_map].
  unfold RtlpBitsSetHigh, RtlpBitsSetLow. rewrite !not_byte.
  destruct (array_get RtlpBitsClearHigh (u8 (Z.lnot prev))); [|done]. cbn [mbind option_bind].
  destruct (array_get RtlpBitsClearLow _); [|done]. cbn [mbind option_bind].
  case_match; [done|].
  destruct (array_get RtlpBitsClearHigh _); [|done]. cbn [mbind option_bind].
  assert ((prev =? 0xff) = (u8 (Z.lnot prev) =? 0)) as ->
    by (rewrite not_byte_val by done; split_tests; lia || done).
  case_match; [done|]. apply IH. by eapply GET_BYTE_u8.
Qed.

Lemma complement_many (fuel : nat) (n e c pos need found sorb sori : Z) :
  FindSetBits_many fuel bm n e c pos need found sorb sori =
  FindClearBits_many fuel (complement bm) n e c pos need found (u8 (Z.lnot sorb)) sori.
Proof.
  revert c pos found sorb sori.
  induction fuel as [|fuel IH]; intros c pos found sorb sori; cbn [FindSetBits_many FindClearBits_many]; [done|].
  change (SizeOfBitMap (complement bm)) with (SizeOfBitMap bm).
  case_match; [done|]. rewrite complement_GET_BYTE.
  destruct (GET_BYTE bm pos) as [b|] eqn:Eb; [|done].
  cbn [mbind option_bind fmap option_fmap option_map].
  unfold RtlpBitsSetHigh, RtlpBitsSetLow. rewrite !not_byte.
  destruct (array_get RtlpBitsClearHigh _); [|done]. cbn [mbind option_bind].
  destruct (array_get RtlpBitsClearLow _); [|done]. cbn [mbind option_bind].
  pose proof (GET_BYTE_u8 _ _ _ Eb) as Hb8.
  assert ((b =? 0xff) = (u8 (Z.lnot b) =? 0)) as ->
    by (rewrite not_byte_val by done; split_tests; lia || done).
  case_match; [done|]. case_match; apply IH.
Qed.

Lemma complement_pass (n s e : Z) :
  FindSetBits_pass bm n s e = FindClearBits_pass (complement bm) n s e.
Proof.
  unfold FindSetBits_pass, FindClearBits_pass.
  case_match; [apply complement_1or2|]. case_match; [by apply complement_2or3|].
  apply complement_many.
Qed.
End complement_search.

Lemma RtlFindSetBits_complement (bm : RTL_BITMAP) (n hint : Z) :
  bitmap_wf bm →
  RtlFindClearBits (complement bm) n hint =
    (λ '(bm', idx), (complement bm', idx)) <$> RtlFindSetBits bm n hint.
Proof.
  intros Hwf. unfold RtlFindClearBits, RtlFindSetBits.
  destruct (pad_with_zeros_spec bm Hwf) as (z & Ez & _).
  rewrite (complement_pad _ _ Hwf Ez), Ez. cbn [mbind option_bind].
  rewrite !complement_pass. unfold second_pass_end.
  change (SizeInBytes (complement z)) with (SizeInBytes z).
  change (SizeOfBitMap (complement z)) with (SizeOfBitMap z).
  destruct (FindClearBits_pass _ _ _ (SizeInBytes z)) as [[i|]|]; simpl; [done| |done].
  destruct (_ =? 0); [done|].
  by destruct (FindClearBits_pass _ _ _ _) as [[i|]|].
Qed.

Lemma complement_clear_run (bm : RTL_BITMAP) (s n : Z) :
  bitmap_wf bm → 0 ≤ s → s + n ≤ SizeOfBitMap bm →
  clear_run (complement bm) s n ↔ set_run bm s n.
Proof.
  intros (_ & Hl & _) Hs Hn. split; intros H i Hi.
  - specialize (H i Hi). rewrite complement_bit in H by lia. by destruct (bit bm i).
  - rewrite complement_bit by lia. by rewrite H.
Qed.

Lemma RtlFindSetBits_ok (bm : RTL_BITMAP) (n hint : Z) :
  bitmap_wf bm → 0 < n < 2 ^ 32 → 0 ≤ hint →
  ∃ bm' idx, RtlFindSetBits bm n hint = Some (bm', idx) ∧ padded false bm bm' ∧
    (idx ≠ NOT_FOUND ∧ 0 ≤ idx ∧ idx + n ≤ SizeOfBitMap bm ∧ set_run bm idx n ∨
     idx = NOT_FOUND ∧ ∀ s, 0 ≤ s → s + n ≤ SizeOfBitMap bm → set_run bm s n →
       overlooked bm s n).
Proof.
  intros Hwf Hn Hh.
  destruct (RtlFindClearBits_ok _ n hint (complement_wf _ Hwf) Hn Hh) as (c & idx & E & _ & Hr).
  rewrite RtlFindSetBits_complement in E by done.
  destruct (RtlFindSetBits bm n hint) as [[bm' j]|] eqn:Es; [|done]. injection E as <- ->.
  exists bm', idx. split; [done|]. split.
  - destruct (pad_with_zeros_spec bm Hwf) as (z & Ez & Hz). revert Es. unfold RtlFindSetBits.
    rewrite Ez. cbn [mbind option_bind].
    destruct (FindSetBits_pass z n _ (SizeInBytes z)) as [[i|]|]; simpl; [congruence| |done].
    destruct (_ =? 0); [congruence|].
    destruct (FindSetBits_pass _ _ _ _); simpl; congruence.
  - destruct Hr as [(?&?&?&?)|[? Hr]]; [left|right].
    + split_and!; [done..|]. by apply complement_clear_run.
    + split; [done|]. intros s ???. apply Hr; [done..|]. by apply complement_clear_run.
Qed.
