(* ===== verification/BitmapScan.v ===== *)
(** * Bitmaps: testing, counting and scanning

    [RtlAreBitsClear], [RtlAreBitsSet], [RtlNumberOfClearBits],
    [RtlNumberOfSetBits], [RtlFindLongestRunClear], [RtlFindLongestRunSet],
    [RtlFindFirstRunClear] and [RtlFindFirstRunSet] of [RTL/BITMAP.C].  As in
    [BitmapFind], [None] is an access outside the buffer or a table, and the
    fuel of a loop is the number of bytes it reads. *)

From Stdlib Require Import ZArith Lia.
From stdpp Require Import base list numbers option.
From S2P Require Import Prelude BitmapBytes Bitmap BitmapFind.

(** ** Testing a range *)

(** [for (i = StartingByte+1; i < EndingByte; i += 1) { GET_BYTE(Byte);
    if (Byte != v) return FALSE; }]: [Some None] is the early return,
    [Some (Some pos)] the position of the byte to read next. *)
Fixpoint whole_bytes (fuel : nat) (bm : RTL_BITMAP) (v i EndingByte pos : Z) :
    option (option Z) :=
  if EndingByte <=? i then Some (Some pos) else
  match fuel with
  | O => None
  | S fuel =>
      Byte ← GET_BYTE bm pos;
      if Byte =? v then whole_bytes fuel bm v (i +u 1) EndingByte (pos + 1) else Some None
  end.

Definition RtlAreBitsClear (bm : RTL_BITMAP) (StartingIndex Length : Z) : option bool :=
  if (SizeOfBitMap bm <? StartingIndex +u Length) || (Length =? 0) then Some false else
  let EndingIndex := StartingIndex +u Length -u 1 in
  let StartingByte := StartingIndex / 8 in
  let EndingByte := EndingIndex / 8 in
  let StartingOffset := StartingIndex mod 8 in
  let EndingOffset := EndingIndex mod 8 in
  Byte ← GET_BYTE bm StartingByte;
  zero ← array_get ZeroMask StartingOffset;
  fill ← array_get FillMask (EndingOffset + 1);
  if StartingByte =? EndingByte then Some (Z.land (Z.land zero fill) Byte =? 0)
  else if negb (Z.land zero Byte =? 0) then Some false else
    r ← whole_bytes (Z.to_nat (EndingByte - (StartingByte + 1))) bm 0
          (StartingByte +u 1) EndingByte (StartingByte + 1);
    match r with
    | None => Some false
    | Some pos => Byte ← GET_BYTE bm pos; Some (Z.land fill Byte =? 0)
    end.

Definition RtlAreBitsSet (bm : RTL_BITMAP) (StartingIndex Length : Z) : option bool :=
  if (SizeOfBitMap bm <? StartingIndex +u Length) || (Length =? 0) then Some false else
  let EndingIndex := StartingIndex +u Length -u 1 in
  let StartingByte := StartingIndex / 8 in
  let EndingByte := EndingIndex / 8 in
  let StartingOffset := StartingIndex mod 8 in
  let EndingOffset := EndingIndex mod 8 in
  Byte ← GET_BYTE bm StartingByte;
  zero ← array_get ZeroMask StartingOffset;
  fill ← array_get FillMask (EndingOffset + 1);
  if StartingByte =? EndingByte then Some (Z.land (Z.land zero fill) (Z.lnot Byte) =? 0)
  else if negb (Z.land zero (Z.lnot Byte) =? 0) then Some false else
    r ← whole_bytes (Z.to_nat (EndingByte - (StartingByte + 1))) bm 0xff
          (StartingByte +u 1) EndingByte (StartingByte + 1);
    match r with
    | None => Some false
    | Some pos => Byte ← GET_BYTE bm pos; Some (Z.land fill (Z.lnot Byte) =? 0)
    end.

(** ** Counting *)

Fixpoint total_clear_bytes (fuel : nat) (bm : RTL_BITMAP) (i Size pos TotalClear : Z) :
    option Z :=
  if Size <=? i then Some TotalClear else
  match fuel with
  | O => None
  | S fuel =>
      CurrentByte ← GET_BYTE bm pos;
      t ← array_get RtlpBitsClearTotal CurrentByte;
      total_clear_bytes fuel bm (i +u 1) Size (pos + 1) (TotalClear +u t)
  end.

Definition RtlNumberOfClearBits (bm : RTL_BITMAP) : option (RTL_BITMAP * Z) :=
  bm ← pad_with_ones bm;
  n ← total_clear_bytes (Z.to_nat (SizeInBytes bm)) bm 0 (SizeInBytes bm) 0 0;
  Some (bm, n).

Fixpoint total_set_bytes (fuel : nat) (bm : RTL_BITMAP) (i Size pos TotalSet : Z) : option Z :=
  if Size <=? i then Some TotalSet else
  match fuel with
  | O => None
  | S fuel =>
      CurrentByte ← GET_BYTE bm pos;
      t ← RtlpBitsSetTotal CurrentByte;
      total_set_bytes fuel bm (i +u 1) Size (pos + 1) (TotalSet +u t)
  end.

Definition RtlNumberOfSetBits (bm : RTL_BITMAP) : option (RTL_BITMAP * Z) :=
  bm ← pad_with_zeros bm;
  n ← total_set_bytes (Z.to_nat (SizeInBytes bm)) bm 0 (SizeInBytes bm) 0 0;
  Some (bm, n).

(** ** The longest run *)

Record run_scan := mkScan
  { LongestRunSize : Z; LongestRunIndex : Z; CurrentRunSize : Z; CurrentRunIndex : Z }.

Definition close_scan (st : run_scan) : run_scan :=
  if LongestRunSize st <? CurrentRunSize st
  then mkScan (CurrentRunSize st) (CurrentRunIndex st) (CurrentRunSize st) (CurrentRunIndex st)
  else st.

(** The body of the loop of [RtlFindLongestRunClear] on one byte. *)
Definition longest_clear_step (CurrentByteIndex CurrentByte : Z) (st : run_scan) :
    option run_scan :=
  if CurrentByte =? 0 then
    Some (mkScan (LongestRunSize st) (LongestRunIndex st)
            (CurrentRunSize st +u 8) (CurrentRunIndex st))
  else
    low ← array_get RtlpBitsClearLow CurrentByte;
    let st := close_scan (mkScan (LongestRunSize st) (LongestRunIndex st)
                            (CurrentRunSize st +u low) (CurrentRunIndex st)) in
    high ← array_get RtlpBitsClearHigh CurrentByte;
    Temp ← array_get RtlpBitsClearAnywhere CurrentByte;
    let CurrentRunIndex' := CurrentByteIndex *u 8 +u (8 -u high) in
    if (LongestRunSize st <? 8) && (high <? 8) && (LongestRunSize st <? Temp) && (high <? Temp)
    then
      BitMask ← array_get FillMask Temp;
      i ← fit_clear 8 BitMask CurrentByte 0;
      Some (mkScan Temp (CurrentByteIndex *u 8 +u i) high CurrentRunIndex')
    else Some (mkScan (LongestRunSize st) (LongestRunIndex st) high CurrentRunIndex').

Fixpoint longest_clear_loop (fuel : nat) (bm : RTL_BITMAP) (CurrentByteIndex Size pos : Z)
    (st : run_scan) : option run_scan :=
  if Size <=? CurrentByteIndex then Some st else
  match fuel with
  | O => None
  | S fuel =>
      CurrentByte ← GET_BYTE bm pos;
      st ← longest_clear_step CurrentByteIndex CurrentByte st;
      longest_clear_loop fuel bm (CurrentByteIndex +u 1) Size (pos + 1) st
  end.

(** The result is the size returned and the index stored through
    [StartingIndex]. *)
Definition RtlFindLongestRunClear (bm : RTL_BITMAP) : option (RTL_BITMAP * Z * Z) :=
  bm ← pad_with_ones bm;
  st ← longest_clear_loop (Z.to_nat (SizeInBytes bm)) bm 0 (SizeInBytes bm) 0 (mkScan 0 0 0 0);
  let st := close_scan st in
  Some (bm, LongestRunSize st, LongestRunIndex st).

Definition longest_set_step (CurrentByteIndex CurrentByte : Z) (st : run_scan) :
    option run_scan :=
  if CurrentByte =? 0xff then
    Some (mkScan (LongestRunSize st) (LongestRunIndex st)
            (CurrentRunSize st +u 8) (CurrentRunIndex st))
  else
    low ← RtlpBitsSetLow CurrentByte;
    let st := close_scan (mkScan (LongestRunSize st) (LongestRunIndex st)
                            (CurrentRunSize st +u low) (CurrentRunIndex st)) in
    high ← RtlpBitsSetHigh CurrentByte;
    Temp ← RtlpBitSetAnywhere CurrentByte;
    let CurrentRunIndex' := CurrentByteIndex *u 8 +u (8 -u high) in
    if (LongestRunSize st <? 8) && (high <? 8) && (LongestRunSize st <? Temp) && (high <? Temp)
    then
      BitMask ← array_get FillMask Temp;
      i ← fit_set 8 BitMask CurrentByte 0;
      Some (mkScan Temp (CurrentByteIndex *u 8 +u i) high CurrentRunIndex')
    else Some (mkScan (LongestRunSize st) (LongestRunIndex st) high CurrentRunIndex').

Fixpoint longest_set_loop (fuel : nat) (bm : RTL_BITMAP) (CurrentByteIndex Size pos : Z)
    (st : run_scan) : option run_scan :=
  if Size <=? CurrentByteIndex then Some st else
  match fuel with
  | O => None
  | S fuel =>
      CurrentByte ← GET_BYTE bm pos;
      st ← longest_set_step CurrentByteIndex CurrentByte st;
      longest_set_loop fuel bm (CurrentByteIndex +u 1) Size (pos + 1) st
  end.

Definition RtlFindLongestRunSet (bm : RTL_BITMAP) : option (RTL_BITMAP * Z * Z) :=
  bm ← pad_with_zeros bm;
  st ← longest_set_loop (Z.to_nat (SizeInBytes bm)) bm 0 (SizeInBytes bm) 0 (mkScan 0 0 0 0);
  let st := close_scan st in
  Some (bm, LongestRunSize st, LongestRunIndex st).

(** ** The first run *)

(** The loop of [RtlFindFirstRunClear]; its result is the final
    [CurrentRunSize] and [CurrentRunIndex]. *)
Fixpoint first_clear_loop (fuel : nat) (bm : RTL_BITMAP)
    (CurrentByteIndex Size pos CurrentRunSize CurrentRunIndex : Z) : option (Z * Z) :=
  if Size <=? CurrentByteIndex then Some (CurrentRunSize, CurrentRunIndex) else
  match fuel with
  | O => None
  | S fuel =>
      CurrentByte ← GET_BYTE bm pos;
      low ← array_get RtlpBitsClearLow CurrentByte;
      high ← array_get RtlpBitsClearHigh CurrentByte;
      if (CurrentByte =? 0xff) && (CurrentRunSize =? 0) then
        first_clear_loop fuel bm (CurrentByteIndex +u 1) Size (pos + 1)
          CurrentRunSize CurrentRunIndex
      else if CurrentByte =? 0 then
        first_clear_loop fuel bm (CurrentByteIndex +u 1) Size (pos + 1) (CurrentRunSize +u 8)
          (if CurrentRunIndex =? 0xffffffff then CurrentByteIndex *u 8 else CurrentRunIndex)
      else if negb (CurrentRunSize =? 0) then
        Some (CurrentRunSize +u low, CurrentRunIndex)
      else if high =? 0 then
        any ← array_get RtlpBitsClearAnywhere CurrentByte;
        BitMask ← array_get FillMask any;
        i ← fit_clear 8 BitMask CurrentByte 0;
        Some (any, CurrentByteIndex *u 8 +u i)
      else
        first_clear_loop fuel bm (CurrentByteIndex +u 1) Size (pos + 1) high
          (CurrentByteIndex *u 8 +u (8 -u high))
  end.

Definition RtlFindFirstRunClear (bm : RTL_BITMAP) : option (RTL_BITMAP * Z * Z) :=
  bm ← pad_with_ones bm;
  '(size, index) ←
    first_clear_loop (Z.to_nat (SizeInBytes bm)) bm 0 (SizeInBytes bm) 0 0 0xffffffff;
  Some (bm, size, index).

Fixpoint first_set_loop (fuel : nat) (bm : RTL_BITMAP)
    (CurrentByteIndex Size pos CurrentRunSize CurrentRunIndex : Z) : option (Z * Z) :=
  if Size <=? CurrentByteIndex then Some (CurrentRunSize, CurrentRunIndex) else
  match fuel with
  | O => None
  | S fuel =>
      CurrentByte ← GET_BYTE bm pos;
      low ← RtlpBitsSetLow CurrentByte;
      high ← RtlpBitsSetHigh CurrentByte;
      if (CurrentByte =? 0) && (CurrentRunSize =? 0) then
        first_set_loop fuel bm (CurrentByteIndex +u 1) Size (pos + 1)
          CurrentRunSize CurrentRunIndex
      else if CurrentByte =? 0xff then
        first_set_loop fuel bm (CurrentByteIndex +u 1) Size (pos + 1) (CurrentRunSize +u 8)
          (if CurrentRunIndex =? 0xffffffff then CurrentByteIndex *u 8 else CurrentRunIndex)
      else if negb (CurrentRunSize =? 0) then
        Some (CurrentRunSize +u low, CurrentRunIndex)
      else if high =? 0 then
        any ← RtlpBitSetAnywhere CurrentByte;
        BitMask ← array_get FillMask any;
        i ← fit_set 8 BitMask CurrentByte 0;
        Some (any, CurrentByteIndex *u 8 +u i)
      else
        first_set_loop fuel bm (CurrentByteIndex +u 1) Size (pos + 1) high
          (CurrentByteIndex *u 8 +u (8 -u high))
  end.

Definition RtlFindFirstRunSet (bm : RTL_BITMAP) : option (RTL_BITMAP * Z * Z) :=
  bm ← pad_with_zeros bm;
  '(size, index) ←
    first_set_loop (Z.to_nat (SizeInBytes bm)) bm 0 (SizeInBytes bm) 0 0 0xffffffff;
  Some (bm, size, index).

(** ** Testing a range: correctness *)

Definition mask_range (m lo hi : Z) : Prop :=
  ∀ j, 0 ≤ j → Z.testbit m j = (lo <=? j) && (j <? hi).

Lemma masked_zero (m b lo hi : Z) :
  mask_range m lo hi → 0 ≤ lo →
  (Z.land m b =? 0) = true ↔ ∀ j, lo ≤ j < hi → Z.testbit b j = false.
Proof.
  intros Hm Hlo. rewrite Z.eqb_eq. split; intros H.
  - intros j Hj. apply (f_equal (λ x, Z.testbit x j)) in H. revert H.
    rewrite Z.land_spec, Hm, Z.testbit_0_l by lia. split_tests; simpl; done || lia.
  - apply Z.bits_inj'. intros j Hj. rewrite Z.land_spec, Hm, Z.testbit_0_l by lia.
    split_tests; simpl; try done. apply H. lia.
Qed.

Lemma fill_range (n : Z) : 0 ≤ n ≤ 8 → mask_range (Z.ones n) 0 n.
Proof. intros Hn j Hj. apply testbit_ones_full. lia. Qed.

Lemma zero_range (n : Z) : 0 ≤ n ≤ 8 → mask_range (Z.lxor 0xff (Z.ones n)) n 8.
Proof.
  intros Hn j Hj. rewrite Z.lxor_spec, testbit_mask8, testbit_ones_full by lia.
  split_tests; simpl; done || lia.
Qed.

Lemma land_range (m1 m2 lo hi lo' hi' : Z) :
  mask_range m1 lo 8 → mask_range m2 0 hi → hi ≤ 8 → lo' = lo → hi' = hi →
  mask_range (Z.land m1 m2) lo' hi'.
Proof.
  intros H1 H2 H3 -> -> j Hj. rewrite Z.land_spec, H1, H2 by done.
  split_tests; simpl; done || lia.
Qed.

(** A masked byte test is a test of a run of the map. *)
Lemma masked_byte_run (bm : RTL_BITMAP) (k b m lo hi : Z) :
  GET_BYTE bm k = Some b → mask_range m lo hi → 0 ≤ lo → hi ≤ 8 →
  (Z.land m b =? 0) = true ↔ clear_run bm (8 * k + lo) (hi - lo).
Proof.
  intros Hb Hm Hlo Hhi. destruct (GET_BYTE_spec _ _ _ Hb) as [_ Hbits].
  rewrite masked_zero by done. split; intros H.
  - intros i Hi. replace i with (8 * k + (i - 8 * k)) by lia. rewrite <- Hbits by lia.
    apply H. lia.
  - intros j Hj. rewrite Hbits by lia. apply H. lia.
Qed.

Lemma whole_bytes_zero (bm : RTL_BITMAP) (fuel : nat) (pos e : Z) :
  0 ≤ pos ≤ e → e ≤ 4 * zlen (Buffer bm) → e < 2 ^ 32 → fuel = Z.to_nat (e - pos) →
  ∃ r, whole_bytes fuel bm 0 pos e pos = Some r ∧
    match r with
    | Some p => p = e ∧ clear_run bm (8 * pos) (8 * (e - pos))
    | None => ¬ clear_run bm (8 * pos) (8 * (e - pos))
    end.
Proof.
  revert pos. induction fuel as [|fuel IH]; intros pos Hp He H32 Hf; simpl.
  { rewrite (proj2 (Z.leb_le _ _)) by lia. eexists. split; [done|]. split; [lia|].
    intros i ?; lia. }
  rewrite (proj2 (Z.leb_gt _ _)) by lia.
  destruct (GET_BYTE_Some bm pos) as [b Hb]; [lia|]. rewrite Hb. simpl.
  destruct (Z.eqb_spec b 0) as [Hz|Hz].
  - drop_wrap. destruct (IH (pos + 1)) as (r & -> & Hr); [lia..|]. eexists. split; [done|].
    pose proof (proj1 (byte_zero _ _ _ Hb) Hz) as Hb8. destruct r as [p|].
    + destruct Hr as [-> Hr]. split; [done|].
      replace (8 * (e - pos)) with (8 + 8 * (e - (pos + 1))) by lia.
      apply clear_run_app; [done|]. by replace (8 * pos + 8) with (8 * (pos + 1)) by lia.
    + intros Hc. apply Hr. eapply clear_run_sub; [done|lia..].
  - eexists. split; [done|]. intros Hc. apply Hz, (byte_zero _ _ _ Hb).
    eapply clear_run_sub; [done|lia..].
Qed.

Lemma RtlAreBitsClear_ok (bm : RTL_BITMAP) (s n : Z) :
  bitmap_wf bm → 0 ≤ s → 0 ≤ n → s + n < 2 ^ 32 →
  ∃ b, RtlAreBitsClear bm s n = Some b ∧
    (b = true ↔ 0 < n ∧ s + n ≤ SizeOfBitMap bm ∧ clear_run bm s n).
Proof.
  intros (Hsz & Hlen & HF) Hs Hn Hsn. unfold RtlAreBitsClear. drop_wrap.
  destruct (Z.ltb_spec (SizeOfBitMap bm) (s + n)); cbn [orb].
  { eexists. split; [done|]. split; [done|lia]. }
  destruct (Z.eqb_spec n 0); [eexists; split; [done|]; split; [done|lia]|]. drop_wrap.
  set (e := s + n - 1).
  assert (s = 8 * (s / 8) + s mod 8 ∧ 0 ≤ s mod 8 < 8 ∧ 0 ≤ s / 8) as (Hs8 & Hsm & Hsd)
    by (Z.div_mod_to_equations; lia).
  assert (e = 8 * (e / 8) + e mod 8 ∧ 0 ≤ e mod 8 < 8) as (He8 & Hem)
    by (Z.div_mod_to_equations; lia).
  assert (s / 8 ≤ e / 8 < 4 * zlen (Buffer bm)) as Hse by lia.
  destruct (GET_BYTE_Some bm (s / 8)) as [b Hb]; [lia|]. rewrite Hb. cbn [mbind option_bind].
  destruct (masks_get (s mod 8)) as [_ ->]; [lia|].
  destruct (masks_get (e mod 8 + 1)) as [-> _]; [lia|]. cbn [mbind option_bind].
  destruct (Z.eqb_spec (s / 8) (e / 8)) as [Heq|Hne].
  { eexists. split; [done|].
    rewrite (masked_byte_run bm (s / 8) b _ (s mod 8) (e mod 8 + 1));
      [|done|by eapply land_range; [apply zero_range|apply fill_range|..]; [lia..]|lia..].
    replace (8 * (s / 8) + s mod 8) with s by lia.
    replace (e mod 8 + 1 - s mod 8) with n by lia. intuition lia. }
  pose proof (masked_byte_run bm (s / 8) b _ (s mod 8) 8 Hb (zero_range (s mod 8) ltac:(lia))
    ltac:(lia) ltac:(lia)) as Hfirst.
  replace (8 * (s / 8) + s mod 8) with s in Hfirst by lia.
  destruct (Z.land _ b =? 0) eqn:E1; cbn [negb].
  2:{ eexists. split; [done|]. split; [done|]. intros (_ & _ & Hr). apply Hfirst.
      eapply clear_run_sub; [done|lia..]. }
  destruct (whole_bytes_zero bm (Z.to_nat (e / 8 - (s / 8 + 1))) (s / 8 + 1) (e / 8))
    as (r & Er & Hr); [lia..|]. drop_wrap. rewrite Er. cbn [mbind option_bind].
  destruct r as [p|].
  2:{ eexists. split; [done|]. split; [done|]. intros (_ & _ & Hc). destruct Hr.
      eapply clear_run_sub; [done|lia..]. }
  destruct Hr as [-> Hmid]. destruct (GET_BYTE_Some bm (e / 8)) as [c Hc]; [lia|].
  rewrite Hc. cbn [mbind option_bind]. eexists. split; [done|].
  rewrite (masked_byte_run bm (e / 8) c _ 0 (e mod 8 + 1) Hc (fill_range (e mod 8 + 1) ltac:(lia))) by lia.
  apply proj1 in Hfirst. specialize (Hfirst eq_refl). split.
  - intros Hlast. split_and!; [lia..|]. intros i Hi.
    destruct (Z.lt_ge_cases i (8 * (s / 8 + 1))); [apply Hfirst; lia|].
    destruct (Z.lt_ge_cases i (8 * (e / 8))); [apply Hmid; lia|apply Hlast; lia].
  - intros (_ & _ & Hr). eapply clear_run_sub; [done|lia..].
Qed.

(** The range test of [RtlAreBitsClear] adds two [ULONG]s: when the sum wraps, a
    range far outside the map passes it and the first byte read is outside the
    buffer. *)
Lemma RtlAreBitsClear_wraps (bm : RTL_BITMAP) (s n : Z) :
  bitmap_wf bm → is_u32 s → is_u32 n → 0 < n → 32 * zlen (Buffer bm) ≤ s →
  2 ^ 32 ≤ s + n → s + n - 2 ^ 32 ≤ SizeOfBitMap bm →
  RtlAreBitsClear bm s n = None.
Proof.
  unfold is_u32. intros (Hsz & Hlen & HF) Hs Hn Hn0 Hout Hw Hle. unfold RtlAreBitsClear.
  replace (s +u n) with (s + n - 2 ^ 32)
    by (unfold u32; rewrite <- (Z.mod_small (s + n - 2 ^ 32) (2 ^ 32)) by lia;
        rewrite <- Zminus_mod_idemp_r, Z.mod_same, Z.sub_0_r by lia; done).
  rewrite (proj2 (Z.ltb_ge _ _)), (proj2 (Z.eqb_neq _ _)) by lia. cbn [orb].
  assert (GET_BYTE bm (s / 8) = None) as ->; [|done].
  unfold GET_BYTE, read_long. destruct (array_get (Buffer bm) (s / 8 / 4)) eqn:E; [|done].
  apply array_get_range in E. exfalso. Z.div_mod_to_equations. lia.
Qed.

Lemma land_not_byte (m b : Z) : is_u8 m → Z.land m (Z.lnot b) = Z.land m (u8 (Z.lnot b)).
Proof.
  intros Hm. apply Z.bits_inj'. intros j Hj. autorewrite with nt_bits.
  destruct (Z.ltb_spec j 8); [done|]. by rewrite (testbit_high m 8) by (done || lia).
Qed.

Lemma ZeroMask_u8 (n m : Z) : array_get ZeroMask n = Some m → is_u8 m.
Proof.
  intros H. eapply array_get_Forall; [done|]. unfold ZeroMask.
  repeat (apply Forall_cons; [done|]). apply Forall_nil.
Qed.

Lemma byte_ff (b : Z) : is_u8 b → (b =? 0xff) = (u8 (Z.lnot b) =? 0).
Proof. intros. rewrite not_byte_val by done. split_tests; lia || done. Qed.

Lemma byte_00 (b : Z) : is_u8 b → (b =? 0) = (u8 (Z.lnot b) =? 0xff).
Proof. intros. rewrite not_byte_val by done. split_tests; lia || done. Qed.

Lemma complement_whole_bytes (bm : RTL_BITMAP) (fuel : nat) (i e pos : Z) :
  whole_bytes fuel bm 0xff i e pos = whole_bytes fuel (complement bm) 0 i e pos.
Proof.
  revert i pos. induction fuel as [|fuel IH]; intros i pos; simpl; [done|].
  case_match; [done|]. rewrite complement_GET_BYTE.
  destruct (GET_BYTE bm pos) as [b|] eqn:Eb; [|done]. simpl.
  rewrite (byte_ff b) by (by eapply GET_BYTE_u8). case_match; [apply IH|done].
Qed.

Lemma RtlAreBitsSet_complement (bm : RTL_BITMAP) (s n : Z) :
  RtlAreBitsSet bm s n = RtlAreBitsClear (complement bm) s n.
Proof.
  unfold RtlAreBitsSet, RtlAreBitsClear.
  change (SizeOfBitMap (complement bm)) with (SizeOfBitMap bm). case_match; [done|].
  rewrite complement_GET_BYTE. destruct (GET_BYTE bm (s / 8)) as [b|]; [|done]. simpl.
  destruct (array_get ZeroMask _) as [z|] eqn:Ez; [|done]. simpl.
  destruct (array_get FillMask _) as [f|] eqn:Ef; [|done]. simpl.
  apply ZeroMask_u8 in Ez. apply FillMask_u8 in Ef.
  rewrite (land_not_byte z), (land_not_byte (Z.land z f)), complement_whole_bytes
    by (try apply is_u8_land; unfold is_u8 in *; done || lia).
  case_match; [done|]. case_match; [done|].
  destruct (whole_bytes _ _ _ _ _ _) as [[p|]|]; [|done..]. simpl.
  rewrite complement_GET_BYTE. destruct (GET_BYTE bm p) as [c|]; [|done]. simpl.
  by rewrite land_not_byte.
Qed.

(** ** Counting: correctness *)

(** The number of indices in [[s, s + n)] at which [f] is false. *)
Definition count_false (f : Z → bool) (s n : Z) : Z :=
  zlen (filter (λ i, f i = false) (seqZ s n)).

Lemma count_false_app (f : Z → bool) (s a b : Z) :
  0 ≤ a → 0 ≤ b → count_false f s (a + b) = count_false f s a + count_false f (s + a) b.
Proof.
  intros. unfold count_false, zlen. rewrite seqZ_app by done.
  rewrite list.filter_app, length_app. lia.
Qed.

Lemma count_false_one (f : Z → bool) (s : Z) : count_false f s 1 = if f s then 0 else 1.
Proof.
  unfold count_false. rewrite seqZ_cons, seqZ_nil by lia.
  rewrite list.filter_cons, list.filter_nil. case_decide as E; [by rewrite E|].
  by destruct (f s).
Qed.

Lemma count_false_ext (f g : Z → bool) (s t n : Z) :
  (∀ j, 0 ≤ j < n → f (s + j) = g (t + j)) → count_false f s n = count_false g t n.
Proof.
  intros H. destruct (Z.le_gt_cases n 0); [unfold count_false; by rewrite !seqZ_nil|].
  rewrite <- (Z2Nat.id n) in * by lia. set (m := Z.to_nat n) in *. clearbody m. clear n H0.
  induction m as [|m IH]; [unfold count_false; by rewrite !seqZ_nil|].
  replace (Z.of_nat (S m)) with (Z.of_nat m + 1) by lia.
  rewrite !count_false_app by lia. rewrite IH by (intros; apply H; lia). f_equal.
  rewrite !count_false_one. by rewrite H by lia.
Qed.

Lemma count_false_none (f : Z → bool) (s n : Z) :
  (∀ i, s ≤ i < s + n → f i = true) → count_false f s n = 0.
Proof.
  intros H. rewrite (count_false_ext f (λ _, true) s 0 n) by (intros; apply H; lia).
  unfold count_false, zlen. induction (seqZ 0 n) as [|x l IH]; [done|].
  rewrite list.filter_cons. by case_decide.
Qed.

Lemma count_false_bounds (f : Z → bool) (s n : Z) : 0 ≤ n → 0 ≤ count_false f s n ≤ n.
Proof.
  intros Hn. unfold count_false, zlen.
  pose proof (list.length_filter (λ i, f i = false) (seqZ s n)) as Hl.
  rewrite length_seqZ in Hl. lia.
Qed.

Lemma total_clear_bytes_ok (bm : RTL_BITMAP) (fuel : nat) (pos size : Z) :
  0 ≤ pos ≤ size → size ≤ 4 * zlen (Buffer bm) → 8 * size < 2 ^ 32 →
  fuel = Z.to_nat (size - pos) →
  total_clear_bytes fuel bm pos size pos (count_false (bit bm) 0 (8 * pos)) =
    Some (count_false (bit bm) 0 (8 * size)).
Proof.
  revert pos. induction fuel as [|fuel IH]; intros pos Hp Hl H32 Hf; simpl.
  { rewrite (proj2 (Z.leb_le _ _)) by lia. do 2 f_equal. lia. }
  rewrite (proj2 (Z.leb_gt _ _)) by lia.
  destruct (GET_BYTE_Some bm pos) as [b Hb]; [lia|]. rewrite Hb. simpl.
  destruct (GET_BYTE_spec _ _ _ Hb) as [Hb8 Hbits]. rewrite get_total by done. simpl.
  assert (total_clear b = count_false (bit bm) (8 * pos) 8) as ->.
  { apply (count_false_ext (Z.testbit b)). intros j Hj. by apply Hbits. }
  pose proof (count_false_bounds (bit bm) 0 (8 * pos + 8) ltac:(lia)).
  pose proof (count_false_app (bit bm) 0 (8 * pos) 8 ltac:(lia) ltac:(lia)) as Happ.
  rewrite Z.add_0_l in Happ. rewrite <- Happ. drop_wrap.
  replace (8 * pos + 8) with (8 * (pos + 1)) by lia. apply IH; lia.
Qed.

Lemma RtlNumberOfClearBits_ok (bm : RTL_BITMAP) :
  bitmap_wf bm →
  ∃ bm', RtlNumberOfClearBits bm =
           Some (bm', count_false (bit bm) 0 (SizeOfBitMap bm)) ∧ padded true bm bm'.
Proof.
  intros Hwf. destruct (pad_with_ones_spec bm Hwf) as (p & E & Hp). exists p.
  destruct (padded_facts _ _ _ Hwf Hp) as (Wp & Sp & SBp & Pp).
  pose proof (SizeInBytes_bounds p Wp) as (HB1 & HB2). pose proof Wp as (Hsz & _ & _).
  unfold RtlNumberOfClearBits. rewrite E. simpl.
  pose proof (total_clear_bytes_ok p (Z.to_nat (SizeInBytes p)) 0 (SizeInBytes p)
    ltac:(lia) ltac:(lia) ltac:(lia) ltac:(f_equal; lia)) as Et.
  change (count_false (bit p) 0 (8 * 0)) with 0 in Et. rewrite Et.
  simpl. split; [|done]. do 2 f_equal.
  replace (8 * SizeInBytes p) with (SizeOfBitMap p + (8 * SizeInBytes p - SizeOfBitMap p)) by lia.
  rewrite count_false_app, Sp by lia.
  rewrite (count_false_none _ (0 + SizeOfBitMap bm)) by (intros; apply Pp; lia).
  rewrite Z.add_0_r. apply count_false_ext. intros j Hj. destruct Hp as (_ & Hlow & _).
  apply Hlow. lia.
Qed.

(** ** The longest run: correctness *)

Section longest.
Context (bm : RTL_BITMAP).

(** The scan state before byte [pos]: the open run is the maximal clear run
    that ends there, the saved run is clear, and no clear run of the bytes read
    is longer than both. *)
Record scan_inv (pos : Z) (st : run_scan) : Prop := {
  open_end : CurrentRunIndex st + CurrentRunSize st = 8 * pos;
  open_size : 0 ≤ CurrentRunSize st ∧ 0 ≤ CurrentRunIndex st;
  open_clear : clear_run bm (CurrentRunIndex st) (CurrentRunSize st);
  open_max : ∀ s, 0 ≤ s ≤ 8 * pos → clear_run bm s (8 * pos - s) → CurrentRunIndex st ≤ s;
  saved_size : 0 ≤ LongestRunSize st ∧ 0 ≤ LongestRunIndex st;
  saved_end : LongestRunIndex st + LongestRunSize st ≤ 8 * pos;
  saved_none : LongestRunSize st = 0 → LongestRunIndex st = 0;
  saved_clear : clear_run bm (LongestRunIndex st) (LongestRunSize st);
  saved_max : ∀ s n, 0 ≤ s → s + n ≤ 8 * pos → clear_run bm s n →
    n ≤ Z.max (LongestRunSize st) (CurrentRunSize st) }.

Lemma scan_inv_init : scan_inv 0 (mkScan 0 0 0 0).
Proof. constructor; simpl; try lia; intros i ?; lia. Qed.

(** A zero byte extends the open run. *)
Lemma scan_inv_zero (pos : Z) (st : run_scan) :
  0 ≤ pos → GET_BYTE bm pos = Some 0 → scan_inv pos st →
  scan_inv (pos + 1) (mkScan (LongestRunSize st) (LongestRunIndex st)
                        (CurrentRunSize st + 8) (CurrentRunIndex st)).
Proof.
  intros Hp Hb []. pose proof (proj1 (byte_zero _ _ _ Hb) eq_refl) as Hz.
  assert (clear_run bm (CurrentRunIndex st) (CurrentRunSize st + 8)) as Hopen.
  { apply clear_run_app; [done|]. by rewrite open_end0. }
  constructor; simpl; try done; try lia.
  - intros s Hs Hr. destruct (Z.le_gt_cases s (8 * pos)); [|lia].
    apply open_max0; [lia|]. eapply clear_run_sub; [done|lia..].
  - intros s n Hs Hn Hr. destruct (Z.le_gt_cases (s + n) (8 * pos)).
    + specialize (saved_max0 s n Hs ltac:(lia) Hr). lia.
    + destruct (Z.le_gt_cases s (8 * pos)); [|lia].
      assert (CurrentRunIndex st ≤ s); [|lia].
      apply open_max0; [lia|]. eapply clear_run_sub; [done|lia..].
Qed.

(** A nonzero byte closes the open run and opens one at its high end.  [ls] and
    [li] are the saved run after the byte, at least as long as the closed run
    and, with the new open run, as the longest run inside the byte. *)
Lemma scan_inv_close (pos b ls li : Z) (st : run_scan) :
  0 ≤ pos → GET_BYTE bm pos = Some b → b ≠ 0 → scan_inv pos st →
  0 ≤ ls → 0 ≤ li → li + ls ≤ 8 * (pos + 1) → (ls = 0 → li = 0) → clear_run bm li ls →
  LongestRunSize st ≤ ls → CurrentRunSize st + low_clear b ≤ ls →
  longest_clear b ≤ Z.max ls (high_clear b) →
  scan_inv (pos + 1) (mkScan ls li (high_clear b) (8 * pos + (8 - high_clear b))).
Proof.
  intros Hp Hb Hne [] Hls Hli Hend Hzero Hclear H1 H2 H3.
  pose proof (high_clear_nonzero b (GET_BYTE_u8 _ _ _ Hb) Hne).
  destruct (high_clear_spec b) as (Hh & _), (low_clear_spec b) as (Hl & _).
  constructor; simpl; try done; try lia.
  - pose proof (byte_high_run _ _ _ Hb) as Hr.
    by replace (8 * (pos + 1) - high_clear b) with (8 * pos + (8 - high_clear b)) in Hr by lia.
  - intros s Hs Hr. destruct (Z.le_gt_cases s (8 * pos)).
    { destruct Hne. apply (byte_zero _ _ _ Hb). eapply clear_run_sub; [done|lia..]. }
    enough (8 * (pos + 1) - s ≤ high_clear b) by lia. apply (byte_high_max _ _ _ Hb); [lia|].
    by replace (8 * (pos + 1) - (8 * (pos + 1) - s)) with s by lia.
  - intros s n Hs Hn Hr. destruct (Z.le_gt_cases n 0); [lia|].
    destruct (Z.le_gt_cases (s + n) (8 * pos)).
    { specialize (saved_max0 s n Hs ltac:(lia) Hr). lia. }
    destruct (Z.le_gt_cases (8 * pos) s).
    { pose proof (byte_inner_max _ _ _ Hb s n ltac:(lia) ltac:(lia) ltac:(lia) Hr). lia. }
    assert (CurrentRunIndex st ≤ s) by
      (apply open_max0; [lia|]; eapply clear_run_sub; [done|lia..]).
    assert (s + n - 8 * pos ≤ low_clear b) by
      (apply (byte_low_max _ _ _ Hb); [lia|]; eapply clear_run_sub; [done|lia..]).
    lia.
Qed.

(** The saved run after the open run has been closed at the low bits of [b]. *)
Lemma close_scan_saved (pos b : Z) (st : run_scan) :
  0 ≤ pos → GET_BYTE bm pos = Some b → scan_inv pos st →
  let st' := close_scan (mkScan (LongestRunSize st) (LongestRunIndex st)
               (CurrentRunSize st + low_clear b) (CurrentRunIndex st)) in
  0 ≤ LongestRunSize st' ∧ 0 ≤ LongestRunIndex st' ∧
  LongestRunIndex st' + LongestRunSize st' ≤ 8 * (pos + 1) ∧
  (LongestRunSize st' = 0 → LongestRunIndex st' = 0) ∧
  clear_run bm (LongestRunIndex st') (LongestRunSize st') ∧
  LongestRunSize st ≤ LongestRunSize st' ∧
  CurrentRunSize st + low_clear b ≤ LongestRunSize st'.
Proof.
  intros Hp Hb []. destruct (low_clear_spec b) as (Hl & _). unfold close_scan. simpl.
  destruct (Z.ltb_spec (LongestRunSize st) (CurrentRunSize st + low_clear b)); simpl;
    split_and!; try lia; try done.
  apply clear_run_app; [done|]. rewrite open_end0. apply (byte_low_run _ _ _ Hb).
Qed.

Lemma longest_step_ok (pos b : Z) (st : run_scan) :
  0 ≤ pos → 8 * pos + 16 < 2 ^ 32 → GET_BYTE bm pos = Some b → scan_inv pos st →
  ∃ st', longest_clear_step pos b st = Some st' ∧ scan_inv (pos + 1) st'.
Proof.
  intros Hp H32 Hb Hinv. pose proof (GET_BYTE_u8 _ _ _ Hb) as Hb8.
  unfold longest_clear_step. destruct (high_clear_spec b) as (Hh & _).
  destruct (low_clear_spec b) as (Hl & _). pose proof (open_end _ _ Hinv).
  pose proof (open_size _ _ Hinv). destruct (Z.eqb_spec b 0) as [->|Hne].
  { drop_wrap. eexists. split; [done|]. by apply scan_inv_zero. }
  rewrite get_low, get_high, get_anywhere by done. cbn [mbind option_bind]. drop_wrap.
  destruct (close_scan_saved pos b st Hp Hb Hinv) as (C1 & C2 & C3 & C4 & C5 & C6 & C7).
  set (st' := close_scan _) in *. clearbody st'. rewrite (Z.mul_comm pos 8).
  match goal with |- ∃ _, (if ?t then _ else _) = _ ∧ _ => destruct t eqn:T end.
  - rewrite !andb_true_iff, !Z.ltb_lt in T. destruct T as (((T1 & T2) & T3) & T4).
    destruct (fit_clear_finds b (longest_clear b) Hb8) as (m & i & -> & E & I1 & I2 & I3); [lia|].
    cbn [mbind option_bind]. rewrite E. cbn [mbind option_bind]. drop_wrap.
    eexists. split; [done|]. destruct (GET_BYTE_spec _ _ _ Hb) as [_ Hbits].
    apply (scan_inv_close pos b _ _ st); try done; try lia. intros j Hj.
    replace j with (8 * pos + (j - 8 * pos)) by lia. rewrite <- Hbits by lia. apply I3. lia.
  - eexists. split; [done|]. apply (scan_inv_close pos b _ _ st); try done.
    pose proof (longest_clear_le b). rewrite !andb_false_iff, !Z.ltb_ge in T. lia.
Qed.

Lemma longest_loop_ok (fuel : nat) (pos size : Z) (st : run_scan) :
  0 ≤ pos ≤ size → size ≤ 4 * zlen (Buffer bm) → 8 * size + 8 < 2 ^ 32 →
  fuel = Z.to_nat (size - pos) → scan_inv pos st →
  ∃ st', longest_clear_loop fuel bm pos size pos st = Some st' ∧ scan_inv size st'.
Proof.
  revert pos st. induction fuel as [|fuel IH]; intros pos st Hp Hl H32 Hf Hinv; simpl.
  { rewrite (proj2 (Z.leb_le _ _)) by lia. exists st. split; [done|].
    by replace size with pos by lia. }
  rewrite (proj2 (Z.leb_gt _ _)) by lia.
  destruct (GET_BYTE_Some bm pos) as [b Hb]; [lia|]. rewrite Hb. cbn [mbind option_bind].
  destruct (longest_step_ok pos b st ltac:(lia) ltac:(lia) Hb Hinv) as (st' & -> & Hinv').
  cbn [mbind option_bind]. drop_wrap. apply IH; [lia..|done].
Qed.
End longest.

(** [l] is the length of the longest clear run and [i] the start of one. *)
Definition longest_clear_run (bm : RTL_BITMAP) (l i : Z) : Prop :=
  0 ≤ i ∧ 0 ≤ l ∧ i + l ≤ SizeOfBitMap bm ∧ clear_run bm i l ∧
  ∀ s n, 0 ≤ s → s + n ≤ SizeOfBitMap bm → clear_run bm s n → n ≤ l.

Lemma RtlFindLongestRunClear_ok (bm : RTL_BITMAP) :
  bitmap_wf bm →
  ∃ bm' l i, RtlFindLongestRunClear bm = Some (bm', l, i) ∧ padded true bm bm' ∧
    longest_clear_run bm l i.
Proof.
  intros Hwf. destruct (pad_with_ones_spec bm Hwf) as (p & E & Hp). exists p.
  destruct (padded_facts _ _ _ Hwf Hp) as (Wp & Sp & SBp & Pp).
  pose proof (SizeInBytes_bounds p Wp) as (HB1 & HB2). pose proof Wp as (Hsz & _ & _).
  unfold RtlFindLongestRunClear. rewrite E. cbn [mbind option_bind].
  destruct (longest_loop_ok p (Z.to_nat (SizeInBytes p)) 0 (SizeInBytes p) (mkScan 0 0 0 0))
    as (st & -> & []); [lia..|apply scan_inv_init|]. cbn [mbind option_bind].
  do 2 eexists. split; [done|]. split; [done|].
  assert (∀ s n, 0 ≤ s → 0 < n → s + n ≤ 8 * SizeInBytes p → clear_run p s n →
    s + n ≤ SizeOfBitMap p) as Hin by (intros; by eapply run_in_size).
  assert (∀ s n, 0 ≤ s → s + n ≤ SizeOfBitMap bm → clear_run bm s n → clear_run p s n)
    as Hto by (intros; by apply (padded_run _ _ _ _ _ Hp)).
  assert (∀ s n, 0 ≤ s → s + n ≤ SizeOfBitMap bm → clear_run p s n → clear_run bm s n)
    as Hfrom by (intros; by apply (padded_run _ _ _ _ _ Hp)).
  rewrite Sp in *. unfold close_scan, longest_clear_run.
  destruct (Z.ltb_spec (LongestRunSize st) (CurrentRunSize st)); simpl.
  - assert (CurrentRunIndex st + CurrentRunSize st ≤ SizeOfBitMap bm)
      by (apply Hin; [lia..|done]).
    split_and!; [lia..|by apply Hfrom; [lia..|]|]. intros s n Hs Hn Hr.
    pose proof (saved_max0 s n Hs ltac:(lia) (Hto _ _ Hs Hn Hr)). lia.
  - assert (LongestRunIndex st + LongestRunSize st ≤ SizeOfBitMap bm).
    { destruct (Z.eq_dec (LongestRunSize st) 0); [lia|]. apply Hin; [lia..|done]. }
    split_and!; [lia..|by apply Hfrom; [lia..|]|]. intros s n Hs Hn Hr.
    pose proof (saved_max0 s n Hs ltac:(lia) (Hto _ _ Hs Hn Hr)). lia.
Qed.

(** ** The first run: correctness *)

(** [i] starts a maximal clear run of length [l] and the byte of [i] is the first
    byte of the map with a clear bit; [l] is zero exactly when there is none. *)
Definition first_clear_run (bm : RTL_BITMAP) (l i : Z) : Prop :=
  (l = 0 ∧ i = NOT_FOUND ∧ set_run bm 0 (SizeOfBitMap bm)) ∨
  (0 < l ∧ 0 ≤ i ∧ i + l ≤ SizeOfBitMap bm ∧ clear_run bm i l ∧
   set_run bm 0 (8 * (i / 8)) ∧ (0 < i → bit bm (i - 1) = true) ∧
   (i + l < SizeOfBitMap bm → bit bm (i + l) = true)).

Section first.
Context (bm : RTL_BITMAP) (size : Z).
Context (Hlen : size ≤ 4 * zlen (Buffer bm)) (H32 : 8 * size + 8 < 2 ^ 32).

(** The result as the loop sees it: runs of the padded bytes [[0, size)]. *)
Definition first_raw (l i : Z) : Prop :=
  (l = 0 ∧ i = 0xffffffff ∧ set_run bm 0 (8 * size)) ∨
  (0 < l ∧ 0 ≤ i ∧ i + l ≤ 8 * size ∧ clear_run bm i l ∧
   set_run bm 0 (8 * (i / 8)) ∧ (0 < i → bit bm (i - 1) = true) ∧
   (i + l < 8 * size → bit bm (i + l) = true)).

Definition first_inv (pos l i : Z) : Prop :=
  (l = 0 ∧ i = 0xffffffff ∧ set_run bm 0 (8 * pos)) ∨
  (0 < l ∧ 0 ≤ i ∧ i + l = 8 * pos ∧ clear_run bm i l ∧
   set_run bm 0 (8 * (i / 8)) ∧ (0 < i → bit bm (i - 1) = true)).

Lemma byte_ff_set (k : Z) : GET_BYTE bm k = Some 0xff → set_run bm (8 * k) 8.
Proof.
  intros Hb i Hi. destruct (GET_BYTE_spec _ _ _ Hb) as [_ Hbits].
  replace i with (8 * k + (i - 8 * k)) by lia. rewrite <- Hbits, testbit_mask8 by lia.
  split_tests; simpl; done || lia.
Qed.

(** Bytes with a run but no clear high bit: the longest run inside is maximal. *)
Lemma inner_run_maximal (pos b i : Z) :
  GET_BYTE bm pos = Some b → 0 ≤ i → i + longest_clear b ≤ 8 →
  clear_run bm (8 * pos + i) (longest_clear b) →
  (0 < i → bit bm (8 * pos + i - 1) = true) ∧
  (i + longest_clear b < 8 → bit bm (8 * pos + i + longest_clear b) = true).
Proof.
  intros Hb Hi Hle Hr. pose proof (longest_clear_le b). split; intros Hlt.
  - destruct (bit bm _) eqn:E; [done|]. exfalso.
    pose proof (byte_inner_max _ _ _ Hb (8 * pos + i - 1) (longest_clear b + 1)
      ltac:(lia) ltac:(lia) ltac:(lia)) as Hm. enough (longest_clear b + 1 ≤ longest_clear b) by lia.
    apply Hm. intros j Hj. destruct (Z.eq_dec j (8 * pos + i - 1)) as [->|]; [done|].
    apply Hr. lia.
  - destruct (bit bm _) eqn:E; [done|]. exfalso.
    pose proof (byte_inner_max _ _ _ Hb (8 * pos + i) (longest_clear b + 1)
      ltac:(lia) ltac:(lia) ltac:(lia)) as Hm. enough (longest_clear b + 1 ≤ longest_clear b) by lia.
    apply Hm. intros j Hj.
    destruct (Z.eq_dec j (8 * pos + i + longest_clear b)) as [->|]; [done|]. apply Hr. lia.
Qed.

Lemma longest_clear_pos (b : Z) : is_u8 b → b ≠ 0xff → 0 < longest_clear b.
Proof.
  intros Hb Hne.
  assert (forallb (λ b, (b =? 0xff) || (0 <? longest_clear b)) (seqZ 0 256) = true) as H
    by (vm_compute; done).
  pose proof (forall_range _ _ H b Hb) as Hp. cbv beta in Hp.
  rewrite (proj2 (Z.eqb_neq _ _) Hne) in Hp. by apply Z.ltb_lt.
Qed.

(** The byte in which the run starts is the first one with a clear bit. *)
Lemma set_run_before (pos i : Z) :
  8 * pos ≤ i < 8 * pos + 8 → set_run bm 0 (8 * pos) → set_run bm 0 (8 * (i / 8)).
Proof. intros Hi H. replace (i / 8) with pos by (Z.div_mod_to_equations; lia). done. Qed.

(** The five cases of the loop body on byte [pos]. *)

Lemma first_zero (pos l i : Z) :
  0 ≤ pos < size → GET_BYTE bm pos = Some 0 → first_inv pos l i →
  first_inv (pos + 1) (l + 8) (if i =? 0xffffffff then 8 * pos else i).
Proof.
  intros Hp Hb Hinv. pose proof (proj1 (byte_zero _ _ _ Hb) eq_refl) as Hz.
  destruct Hinv as [(-> & -> & Hset)|(Hpos & Hi & Hend & Hr & Hbefore & Hleft)]; right.
  - rewrite Z.eqb_refl.
    split_and!; try lia; [done|eapply set_run_before; [|done]; lia|].
    intros. apply Hset. lia.
  - rewrite (proj2 (Z.eqb_neq i _)) by lia.
    split_and!; try done; try lia. apply clear_run_app; [done|]. by rewrite Hend.
Qed.

Lemma first_skip (pos : Z) :
  GET_BYTE bm pos = Some 0xff → set_run bm 0 (8 * pos) →
  first_inv (pos + 1) 0 0xffffffff.
Proof.
  intros Hb Hset. left. split_and!; [done..|]. intros j Hj.
  destruct (Z.lt_ge_cases j (8 * pos)); [apply Hset; lia|]. apply (byte_ff_set pos Hb). lia.
Qed.

Lemma first_inner (pos b k : Z) :
  0 ≤ pos < size → GET_BYTE bm pos = Some b → b ≠ 0xff → high_clear b = 0 →
  set_run bm 0 (8 * pos) → 0 ≤ k → k + longest_clear b ≤ 8 →
  (∀ j, k ≤ j < k + longest_clear b → Z.testbit b j = false) →
  first_raw (longest_clear b) (8 * pos + k).
Proof.
  intros Hp Hb Hff Hh0 Hset K1 K2 K3. destruct (GET_BYTE_spec _ _ _ Hb) as [Hb8 Hbits].
  pose proof (longest_clear_pos b Hb8 Hff) as Hpos.
  assert (clear_run bm (8 * pos + k) (longest_clear b)) as Hr.
  { intros j Hj. replace j with (8 * pos + (j - 8 * pos)) by lia.
    rewrite <- Hbits by lia. apply K3. lia. }
  destruct (inner_run_maximal pos b k Hb K1 K2 Hr) as [M1 M2]. right.
  split_and!; [lia..|done|eapply set_run_before; [|done]; lia| |].
  { intros Hgt. destruct (Z.eq_dec k 0) as [->|]; [apply Hset; lia|apply M1; lia]. }
  intros _. apply M2. destruct (Z.eq_dec (k + longest_clear b) 8); [|lia].
  destruct (high_clear_spec b) as (_ & _ & Hh1). rewrite Hh0 in Hh1.
  rewrite (K3 (7 - 0)) in Hh1 by lia. specialize (Hh1 ltac:(lia)). done.
Qed.

Lemma first_open (pos b : Z) :
  0 ≤ pos < size → GET_BYTE bm pos = Some b → b ≠ 0 → high_clear b ≠ 0 →
  set_run bm 0 (8 * pos) →
  first_inv (pos + 1) (high_clear b) (8 * pos + (8 - high_clear b)).
Proof.
  intros Hp Hb Hb0 Hh0 Hset. destruct (GET_BYTE_spec _ _ _ Hb) as [Hb8 Hbits].
  pose proof (high_clear_nonzero b Hb8 Hb0) as Hh7.
  destruct (high_clear_spec b) as (Hh & _ & Hh1). right.
  split_and!; [lia..| |eapply set_run_before; [|done]; lia|].
  - pose proof (byte_high_run _ _ _ Hb) as Hr.
    by replace (8 * (pos + 1) - high_clear b) with (8 * pos + (8 - high_clear b)) in Hr by lia.
  - intros _. replace (8 * pos + (8 - high_clear b) - 1) with (8 * pos + (7 - high_clear b)) by lia.
    rewrite <- Hbits by lia. apply Hh1. lia.
Qed.

Lemma first_close (pos b l i : Z) :
  0 ≤ pos < size → GET_BYTE bm pos = Some b → b ≠ 0 → l ≠ 0 → first_inv pos l i →
  first_raw (l + low_clear b) i.
Proof.
  intros Hp Hb Hb0 Hl0 [(? & _)|(Hpos & Hi & Hend & Hr & Hbefore & Hleft)]; [lia|].
  destruct (GET_BYTE_spec _ _ _ Hb) as [Hb8 Hbits], (low_clear_spec b) as (Hl & _ & Hl1).
  pose proof (byte_low_run _ _ _ Hb) as Hlr.
  assert (low_clear b < 8) as Hl8.
  { destruct (Z.eq_dec (low_clear b) 8); [|lia]. destruct Hb0. apply (byte_zero _ _ _ Hb).
    eapply clear_run_sub; [done|lia..]. }
  right. split_and!; try done; try lia.
  - apply clear_run_app; [done|]. by rewrite Hend.
  - intros _. replace (i + (l + low_clear b)) with (8 * pos + low_clear b) by lia.
    rewrite <- Hbits by lia. by apply Hl1.
Qed.

Lemma first_loop_ok (fuel : nat) (pos l i : Z) :
  0 ≤ pos ≤ size → fuel = Z.to_nat (size - pos) → first_inv pos l i →
  ∃ l' i', first_clear_loop fuel bm pos size pos l i = Some (l', i') ∧ first_raw l' i'.
Proof.
  revert pos l i. induction fuel as [|fuel IH]; intros pos l i Hp Hf Hinv.
  { cbn [first_clear_loop]. rewrite (proj2 (Z.leb_le _ _)) by lia. do 2 eexists.
    split; [done|]. assert (pos = size) as -> by lia.
    destruct Hinv as [?|(?&?&?&?&?&?)]; [by left|right]. split_and!; try done; lia. }
  cbn [first_clear_loop]. rewrite (proj2 (Z.leb_gt _ _)) by lia.
  destruct (GET_BYTE_Some bm pos) as [b Hb]; [lia|].
  pose proof (GET_BYTE_u8 _ _ _ Hb) as Hb8. rewrite Hb. cbn [mbind option_bind].
  rewrite get_low, get_high by done. cbn [mbind option_bind].
  destruct (high_clear_spec b) as (Hh & _), (low_clear_spec b) as (Hl & _).
  assert (0 ≤ l ≤ 8 * pos) as Hlb by (destruct Hinv as [(?&?&?)|(?&?&?&?)]; lia).
  rewrite (Z.mul_comm pos 8). drop_wrap.
  destruct (Z.eqb_spec b 0) as [Hb0|Hb0]; [|destruct (Z.eqb_spec l 0) as [Hl0|Hl0]].
  - rewrite Hb0. change (0 =? 0xff) with false. cbn [andb]. rewrite Hb0 in Hb.
    apply IH; [lia..|]. by apply first_zero; [lia| |].
  - destruct Hinv as [(-> & -> & Hset)|(Hpos & _)]; [|lia]. rewrite andb_true_r. cbn [negb].
    destruct (Z.eqb_spec b 0xff) as [->|Hff]; [apply IH; [lia..|by apply first_skip]|].
    destruct (Z.eqb_spec (high_clear b) 0) as [Hh0|Hh0].
    + rewrite get_anywhere by done. cbn [mbind option_bind]. pose proof (longest_clear_le b).
      destruct (fit_clear_finds b (longest_clear b) Hb8) as (m & k & -> & E & K1 & K2 & K3);
        [lia|]. cbn [mbind option_bind]. rewrite E. cbn [mbind option_bind]. drop_wrap.
      do 2 eexists. split; [done|]. by apply first_inner; [lia|..].
    + apply IH; [lia..|]. by apply first_open; [lia|..].
  - rewrite andb_false_r. cbn [negb]. do 2 eexists. split; [done|].
    by eapply first_close; [|done|..]; [lia|..].
Qed.
End first.

Lemma RtlFindFirstRunClear_ok (bm : RTL_BITMAP) :
  bitmap_wf bm →
  ∃ bm' l i, RtlFindFirstRunClear bm = Some (bm', l, i) ∧ padded true bm bm' ∧
    first_clear_run bm l i.
Proof.
  intros Hwf. destruct (pad_with_ones_spec bm Hwf) as (p & E & Hp). exists p.
  destruct (padded_facts _ _ _ Hwf Hp) as (Wp & Sp & SBp & Pp).
  pose proof (SizeInBytes_bounds p Wp) as (HB1 & HB2). pose proof Wp as (Hsz & _ & _).
  unfold RtlFindFirstRunClear. rewrite E. cbn [mbind option_bind].
  destruct (first_loop_ok p (SizeInBytes p) ltac:(lia) ltac:(lia) (Z.to_nat (SizeInBytes p))
    0 0 0xffffffff) as (l & i & -> & Hraw); [lia..|left; split_and!; [done..|intros j ?; lia]|].
  cbn [mbind option_bind]. exists l, i. split_and!; [done..|].
  assert (∀ j, 0 ≤ j < SizeOfBitMap bm → bit p j = bit bm j) as Hsame by apply Hp.
  destruct Hraw as [(-> & -> & Hset)|(Hl & Hi & Hend & Hr & Hbefore & Hleft & Hright)].
  { left. split_and!; [done..|]. intros j Hj. rewrite <- Hsame by lia. apply Hset. lia. }
  assert (i + l ≤ SizeOfBitMap bm) as Hin
    by (rewrite <- Sp; by eapply (run_in_size p Pp l (SizeInBytes p))).
  right. split_and!; [done..| | | |].
  - by apply (padded_run _ _ _ _ _ Hp).
  - intros j Hj. rewrite <- Hsame by (Z.div_mod_to_equations; lia). apply Hbefore. lia.
  - intros. rewrite <- Hsame by lia. by apply Hleft.
  - intros. rewrite <- Hsame by lia. apply Hright. lia.
Qed.

(** ** Set bits: the complement again *)

Section complement_scan.
Context (bm : RTL_BITMAP).

Lemma complement_total (fuel : nat) (i size pos t : Z) :
  total_set_bytes fuel bm i size pos t = total_clear_bytes fuel (complement bm) i size pos t.
Proof.
  revert i pos t. induction fuel as [|fuel IH]; intros i pos t;
    cbn [total_set_bytes total_clear_bytes]; [done|].
  case_match; [done|]. rewrite complement_GET_BYTE.
  destruct (GET_BYTE bm pos) as [b|]; [|done]. cbn [mbind option_bind fmap option_fmap option_map].
  unfold RtlpBitsSetTotal. rewrite not_byte.
  destruct (array_get RtlpBitsClearTotal _); [|done]. cbn [mbind option_bind]. apply IH.
Qed.

Lemma complement_longest_step (i b : Z) (st : run_scan) :
  is_u8 b → longest_set_step i b st = longest_clear_step i (u8 (Z.lnot b)) st.
Proof.
  intros Hb. unfold longest_set_step, longest_clear_step. rewrite (byte_ff b) by done.
  case_match; [done|]. unfold RtlpBitSetAnywhere, RtlpBitsSetHigh, RtlpBitsSetLow.
  rewrite !not_byte. destruct (array_get RtlpBitsClearLow _); [|done]. cbn [mbind option_bind].
  destruct (array_get RtlpBitsClearHigh _); [|done]. cbn [mbind option_bind].
  destruct (array_get RtlpBitsClearAnywhere _); [|done]. cbn [mbind option_bind].
  case_match; [|done]. destruct (array_get FillMask _) eqn:Em; [|done]. cbn [mbind option_bind].
  by rewrite fit_set_clear by (by eapply FillMask_u8).
Qed.

Lemma complement_longest (fuel : nat) (i size pos : Z) (st : run_scan) :
  longest_set_loop fuel bm i size pos st =
  longest_clear_loop fuel (complement bm) i size pos st.
Proof.
  revert i pos st. induction fuel as [|fuel IH]; intros i pos st;
    cbn [longest_set_loop longest_clear_loop]; [done|].
  case_match; [done|]. rewrite complement_GET_BYTE.
  destruct (GET_BYTE bm pos) as [b|] eqn:Eb; [|done].
  cbn [mbind option_bind fmap option_fmap option_map].
  rewrite complement_longest_step by (by eapply GET_BYTE_u8).
  destruct (longest_clear_step _ _ _); [|done]. cbn [mbind option_bind]. apply IH.
Qed.

Lemma complement_first (fuel : nat) (i size pos l x : Z) :
  first_set_loop fuel bm i size pos l x =
  first_clear_loop fuel (complement bm) i size pos l x.
Proof.
  revert i pos l x. induction fuel as [|fuel IH]; intros i pos l x;
    cbn [first_set_loop first_clear_loop]; [done|].
  case_match; [done|]. rewrite complement_GET_BYTE.
  destruct (GET_BYTE bm pos) as [b|] eqn:Eb; [|done].
  cbn [mbind option_bind fmap option_fmap option_map].
  pose proof (GET_BYTE_u8 _ _ _ Eb) as Hb8.
  unfold RtlpBitSetAnywhere, RtlpBitsSetHigh, RtlpBitsSetLow. rewrite !not_byte.
  rewrite (byte_ff b), (byte_00 b) by done.
  destruct (array_get RtlpBitsClearLow _); [|done]. cbn [mbind option_bind].
  destruct (array_get RtlpBitsClearHigh _); [|done]. cbn [mbind option_bind].
  case_match; [apply IH|]. case_match; [apply IH|]. case_match; [done|].
  case_match; [|apply IH].
  destruct (array_get RtlpBitsClearAnywhere _); [|done]. cbn [mbind option_bind].
  destruct (array_get FillMask _) eqn:Em; [|done]. cbn [mbind option_bind].
  by rewrite fit_set_clear by (by eapply FillMask_u8).
Qed.
End complement_scan.

(** The three set-bit scans, each as its clear-bit counterpart on the complement. *)
Lemma scans_complement (bm : RTL_BITMAP) :
  bitmap_wf bm →
  RtlNumberOfClearBits (complement bm) =
    (λ '(b, n), (complement b, n)) <$> RtlNumberOfSetBits bm ∧
  RtlFindLongestRunClear (complement bm) =
    (λ '(b, l, i), (complement b, l, i)) <$> RtlFindLongestRunSet bm ∧
  RtlFindFirstRunClear (complement bm) =
    (λ '(b, l, i), (complement b, l, i)) <$> RtlFindFirstRunSet bm.
Proof.
  intros Hwf. destruct (pad_with_zeros_spec bm Hwf) as (z & Ez & _).
  unfold RtlNumberOfClearBits, RtlNumberOfSetBits, RtlFindLongestRunClear,
    RtlFindLongestRunSet, RtlFindFirstRunClear, RtlFindFirstRunSet.
  rewrite (complement_pad _ _ Hwf Ez), Ez. cbn [mbind option_bind].
  change (SizeInBytes (complement z)) with (SizeInBytes z).
  rewrite complement_total, complement_longest, complement_first.
  split_and!; [by destruct (total_clear_bytes _ _ _ _ _ _)
    |by destruct (longest_clear_loop _ _ _ _ _ _)
    |by destruct (first_clear_loop _ _ _ _ _ _ _) as [[??]|]].
Qed.

Lemma count_false_negb (f : Z → bool) (s n : Z) :
  0 ≤ n → count_false f s n + count_false (λ i, negb (f i)) s n = n.
Proof.
  intros Hn. rewrite <- (Z2Nat.id n) by done. induction (Z.to_nat n) as [|m IH]; [done|].
  replace (Z.of_nat (S m)) with (Z.of_nat m + 1) by lia.
  rewrite !count_false_app, !count_false_one by lia. destruct (f _); simpl; lia.
Qed.
