(* ===== verification/BitmapAlloc.v ===== *)
(** * Bitmaps as range allocators

    Kernel components (paging files, the registry's cell maps, the NTFS and FAT
    cluster maps) use a bitmap to hand out and take back contiguous ranges with
    [RtlFindClearBitsAndSet] and [RtlClearBits].  [RangeAllocator] states what
    such a client relies on; the bitmap package is an instance; and a client that
    only uses the interface is shown never to hold overlapping ranges, whatever
    the order of its requests. *)

From stdpp Require Import base list numbers option relations.
From Stdlib Require Import ZArith Lia.
From S2P Require Import Prelude BitmapBytes Bitmap BitmapFind BitmapScan.

(** ** The interface *)

Class RangeAllocator (S : Type) := {
  ra_valid : S → Prop;
  ra_size : S → Z;
  ra_used : S → Z → bool;
  ra_alloc : S → Z → Z → option (S * option Z);
  ra_free : S → Z → Z → option S;
  ra_alloc_spec (s : S) (n hint : Z) :
    ra_valid s → 0 < n < 2 ^ 32 → 0 ≤ hint →
    ∃ s' r, ra_alloc s n hint = Some (s', r) ∧ ra_valid s' ∧ ra_size s' = ra_size s ∧
      match r with
      | Some i =>
          0 ≤ i ∧ i + n ≤ ra_size s ∧ (∀ j, i ≤ j < i + n → ra_used s j = false) ∧
          ∀ j, 0 ≤ j < ra_size s → ra_used s' j = in_range i n j || ra_used s j
      | None => ∀ j, 0 ≤ j < ra_size s → ra_used s' j = ra_used s j
      end;
  ra_free_spec (s : S) (i n : Z) :
    ra_valid s → 0 ≤ i → 0 ≤ n → i + n ≤ ra_size s →
    ∃ s', ra_free s i n = Some s' ∧ ra_valid s' ∧ ra_size s' = ra_size s ∧
      ∀ j, 0 ≤ j < ra_size s → ra_used s' j = negb (in_range i n j) && ra_used s j }.

(** ** The instance *)

Definition bitmap_alloc (bm : RTL_BITMAP) (n hint : Z) : option (RTL_BITMAP * option Z) :=
  '(bm, i) ← RtlFindClearBitsAndSet bm n hint;
  Some (bm, if i =? NOT_FOUND then None else Some i).

Lemma RtlFindClearBitsAndSet_ok (bm : RTL_BITMAP) (n hint : Z) :
  bitmap_wf bm → 0 < n < 2 ^ 32 → 0 ≤ hint →
  ∃ bm' idx, RtlFindClearBitsAndSet bm n hint = Some (bm', idx) ∧ bitmap_wf bm' ∧
    SizeOfBitMap bm' = SizeOfBitMap bm ∧
    (idx ≠ NOT_FOUND ∧ 0 ≤ idx ∧ idx + n ≤ SizeOfBitMap bm ∧ clear_run bm idx n ∧
       (∀ j, 0 ≤ j < SizeOfBitMap bm → bit bm' j = in_range idx n j || bit bm j) ∨
     idx = NOT_FOUND ∧ (∀ j, 0 ≤ j < SizeOfBitMap bm → bit bm' j = bit bm j) ∧
       ∀ s, 0 ≤ s → s + n ≤ SizeOfBitMap bm → clear_run bm s n → overlooked bm s n).
Proof.
  intros Hwf Hn Hh. destruct (RtlFindClearBits_ok bm n hint Hwf Hn Hh) as (p & idx & E & Hp & Hr).
  unfold RtlFindClearBitsAndSet. rewrite E. cbn [mbind option_bind].
  destruct (padded_facts _ _ _ Hwf Hp) as (Wp & Sp & _ & _).
  assert (∀ j, 0 ≤ j < SizeOfBitMap bm → bit p j = bit bm j) as Hsame by apply Hp.
  destruct Hr as [(Hne & Hi & Hle & Hc)|[-> Hnone]].
  - rewrite (proj2 (Z.eqb_neq _ _)) by done.
    destruct (RtlSetBits_filled p idx n Wp Hi ltac:(lia) ltac:(lia)) as (q & -> & Sq & Bq).
    cbn [mbind option_bind]. exists q, idx. split; [done|].
    pose proof (shape_wf _ _ Sq Wp). destruct Sq as (Szq & _).
    split_and!; [done|congruence|left]. split_and!; [done..|]. intros j Hj.
    rewrite Bq, Hsame by lia. by destruct (in_range idx n j).
  - rewrite Z.eqb_refl. exists p, NOT_FOUND. split_and!; [done..|right]. done.
Qed.

#[export] Program Instance bitmap_allocator : RangeAllocator RTL_BITMAP := {|
  ra_valid := bitmap_wf; ra_size := SizeOfBitMap; ra_used := bit;
  ra_alloc := bitmap_alloc; ra_free := RtlClearBits |}.
Next Obligation.
  intros bm n hint Hwf Hn Hh.
  destruct (RtlFindClearBitsAndSet_ok bm n hint Hwf Hn Hh) as (q & idx & E & Wq & Sq & Hr).
  unfold bitmap_alloc. rewrite E. cbn [mbind option_bind]. do 2 eexists. split; [done|].
  split_and!; [done..|]. destruct Hr as [(Hne & ? & ? & ? & ?)|[-> [? _]]].
  - by rewrite (proj2 (Z.eqb_neq _ _)) by done.
  - by rewrite Z.eqb_refl.
Qed.
Next Obligation.
  intros bm i n Hwf Hi Hn Hle.
  destruct (RtlClearBits_filled bm i n Hwf Hi Hn Hle) as (q & E & Sq & Bq).
  exists q. split; [done|]. pose proof (shape_wf _ _ Sq Hwf). destruct Sq as (Szq & _).
  split_and!; [done..|]. intros j Hj. rewrite Bq by lia. by destruct (in_range i n j).
Qed.

(** ** A client *)

Section client.
Context {S : Type} `{RangeAllocator S}.

(** The allocator together with the ranges handed out and not yet returned. *)
Definition client_state : Type := S * list (Z * Z).

Definition range_covers (r : Z * Z) (j : Z) : bool := in_range r.1 r.2 j.
Definition covered (live : list (Z * Z)) (j : Z) : bool := existsb (λ r, range_covers r j) live.

Inductive client_step : client_state → client_state → Prop :=
| client_alloc s s' live n hint i :
    0 < n < 2 ^ 32 → 0 ≤ hint → ra_alloc s n hint = Some (s', Some i) →
    client_step (s, live) (s', (i, n) :: live)
| client_alloc_fail s s' live n hint :
    0 < n < 2 ^ 32 → 0 ≤ hint → ra_alloc s n hint = Some (s', None) →
    client_step (s, live) (s', live)
| client_free s s' l1 l2 i n :
    ra_free s i n = Some s' → client_step (s, l1 ++ (i, n) :: l2) (s', l1 ++ l2).

Definition disjoint_ranges (r1 r2 : Z * Z) : Prop :=
  ∀ j, range_covers r1 j = true → range_covers r2 j = false.

Inductive all_disjoint : list (Z * Z) → Prop :=
| all_disjoint_nil : all_disjoint []
| all_disjoint_cons r l :
    Forall (disjoint_ranges r) l → all_disjoint l → all_disjoint (r :: l).

(** The allocator marks exactly the live ranges, which are disjoint and inside
    the map. *)
Record client_inv (st : client_state) : Prop := {
  ci_valid : ra_valid st.1;
  ci_bounds : Forall (λ r, 0 ≤ r.1 ∧ 0 ≤ r.2 ∧ r.1 + r.2 ≤ ra_size st.1) st.2;
  ci_disjoint : all_disjoint st.2;
  ci_used : ∀ j, 0 ≤ j < ra_size st.1 → ra_used st.1 j = covered st.2 j }.

Lemma disjoint_sym (r1 r2 : Z * Z) : disjoint_ranges r1 r2 → disjoint_ranges r2 r1.
Proof.
  intros Hd j Hj. destruct (range_covers r1 j) eqn:E; [|done]. by rewrite Hd in Hj.
Qed.

Lemma covered_false (live : list (Z * Z)) (j : Z) :
  covered live j = false ↔ Forall (λ r, range_covers r j = false) live.
Proof.
  induction live as [|r l IH]; simpl; [done|]. rewrite orb_false_iff, IH.
  split; [intros []; by constructor|by inversion 1].
Qed.

Lemma covered_app (l1 l2 : list (Z * Z)) (j : Z) :
  covered (l1 ++ l2) j = covered l1 j || covered l2 j.
Proof. apply existsb_app. Qed.

Lemma all_disjoint_middle (l1 l2 : list (Z * Z)) (r : Z * Z) :
  all_disjoint (l1 ++ r :: l2) →
  all_disjoint (l1 ++ l2) ∧ Forall (disjoint_ranges r) (l1 ++ l2).
Proof.
  induction l1 as [|r1 l1 IH]; simpl; [by inversion 1|].
  inversion 1 as [|?? HF HD]; subst. destruct (IH HD) as [H1 H2].
  apply Forall_app in HF as [HF1 HF2]. inversion HF2; subst. split.
  - constructor; [by apply Forall_app|done].
  - constructor; [by apply disjoint_sym|done].
Qed.

Lemma client_step_inv (st st' : client_state) :
  client_inv st → client_step st st' → client_inv st'.
Proof.
  intros [Hv Hb Hd Hu] Hstep. inversion Hstep; subst; simpl in *.
  - destruct (ra_alloc_spec s n hint Hv) as (s1 & r & E & V & Sz & Hr); [done..|].
    rewrite E in *. simplify_eq. destruct Hr as (Hi & Hle & Hfree & Hset).
    constructor; simpl; rewrite ?Sz; [done|constructor; [simpl; lia|done]| |].
    + constructor; [|done]. apply Forall_forall. intros r Hr j Hj.
      unfold range_covers in Hj. simpl in Hj. apply in_range_spec in Hj.
      assert (covered live j = false) as Hc by (rewrite <- Hu by lia; by apply Hfree).
      apply covered_false in Hc. rewrite Forall_forall in Hc. by apply Hc.
    + intros j Hj. rewrite Hset, Hu by lia. done.
  - destruct (ra_alloc_spec s n hint Hv) as (s1 & r & E & V & Sz & Hr); [done..|].
    rewrite E in *. simplify_eq. constructor; simpl; rewrite ?Sz; [done..|].
    intros j Hj. rewrite Hr by lia. by apply Hu.
  - apply Forall_app in Hb as [Hb1 Hb2]. inversion Hb2 as [|?? Hin Hb3]; subst. simpl in Hin.
    destruct (ra_free_spec s i n Hv) as (s1 & E & V & Sz & Hr); [lia..|].
    rewrite E in *. simplify_eq. destruct (all_disjoint_middle _ _ _ Hd) as [Hd1 Hd2].
    constructor; simpl; rewrite ?Sz; [done|by apply Forall_app|done|].
    intros j Hj. rewrite Hr, Hu, !covered_app by lia. simpl.
    unfold range_covers at 1. simpl. destruct (in_range i n j) eqn:Eij; simpl; [|done].
    symmetry. rewrite <- covered_app. apply covered_false.
    eapply Forall_impl; [exact Hd2|]. intros r Hrr. by apply Hrr.
Qed.

Lemma client_steps_inv (st st' : client_state) :
  client_inv st → rtc client_step st st' → client_inv st'.
Proof. intros Hi Hs. induction Hs; [done|]. eauto using client_step_inv. Qed.

Lemma client_steps_size (st st' : client_state) :
  client_inv st → rtc client_step st st' → ra_size st'.1 = ra_size st.1.
Proof.
  intros Hi Hs. induction Hs as [|st1 st2 st3 Hstep Hs IH]; [done|].
  rewrite IH by (by eapply client_step_inv). clear IH Hs.
  destruct Hi as [Hv Hb _ _]. inversion Hstep; subst; simpl in *.
  - destruct (ra_alloc_spec s n hint Hv) as (s1 & r & E & _ & Sz & _); [done..|]. congruence.
  - destruct (ra_alloc_spec s n hint Hv) as (s1 & r & E & _ & Sz & _); [done..|]. congruence.
  - apply Forall_app in Hb as [_ Hb]. inversion Hb as [|?? Hin _]; subst. simpl in Hin.
    destruct (ra_free_spec s i n Hv) as (s1 & E & _ & Sz & _); [lia..|]. congruence.
Qed.

Lemma client_inv_init (s : S) :
  ra_valid s → (∀ j, 0 ≤ j < ra_size s → ra_used s j = false) → client_inv (s, []).
Proof. intros Hv Hu. constructor; simpl; [done|constructor|constructor|done]. Qed.
End client.
