(* ===== verification/BitmapTheorems.v ===== *)
(** * Bitmaps: the theorems

    What the bitmap package of [RTL/BITMAP.C] guarantees to its callers, stated
    on the operations of [Bitmap], [BitmapFind], [BitmapScan] and
    [BitmapAlloc]. *)

From stdpp Require Import base list numbers option relations.
From Stdlib Require Import ZArith Lia.
From S2P Require Import Prelude BitmapBytes Bitmap BitmapFind BitmapScan BitmapAlloc.

(** A map for the witnesses: 100 bits in four longwords, some of them in use. *)
Definition sample_map : RTL_BITMAP := mkBitmap 100 [0x00000001; 0; 0x00f00000; 0x10].

Ltac sample_wf :=
  unfold bitmap_wf, is_u32; simpl; split_and!;
  [lia | lia | vm_compute; discriminate |
   repeat (apply Forall_cons_2; [lia|]); apply Forall_nil_2].

(** C1: [RtlFindClearBits] on a well-formed map never reads or writes outside
    its buffer and always returns.  It changes no bit of the map and no other bit of
    the buffer but the padding: the bits from [SizeOfBitMap] to the end of the last
    byte of the map are set; the size of the map and of the buffer are kept.  A
    result other than 0xffffffff is the start of a run of [NumberToFind] clear bits
    inside the map; the result 0xffffffff means that no such run exists, except
    possibly one of the [overlooked] form (a length of 7 modulo 8, at least 15,
    starting at bit 1 of a byte and ending with the map). *)
Theorem find_clear_bits_correct (bm : RTL_BITMAP) (NumberToFind HintIndex : Z) :
  bitmap_wf bm → 0 < NumberToFind < 2 ^ 32 → 0 ≤ HintIndex →
  ∃ bm' i, RtlFindClearBits bm NumberToFind HintIndex = Some (bm', i) ∧
    bitmap_wf bm' ∧ SizeOfBitMap bm' = SizeOfBitMap bm ∧
    length (Buffer bm') = length (Buffer bm) ∧
    (∀ j, 0 ≤ j → bit bm' j =
       if decide (SizeOfBitMap bm ≤ j < 8 * ((SizeOfBitMap bm + 7) / 8)) then true
       else bit bm j) ∧
    (i ≠ NOT_FOUND →
       0 ≤ i ∧ i + NumberToFind ≤ SizeOfBitMap bm ∧ clear_run bm i NumberToFind) ∧
    (∀ s, 0 ≤ s → s + NumberToFind ≤ SizeOfBitMap bm → clear_run bm s NumberToFind →
       ¬ overlooked bm s NumberToFind → i ≠ NOT_FOUND).
Proof.
  intros Hwf Hn Hh.
  destruct (RtlFindClearBits_ok bm _ HintIndex Hwf Hn Hh) as (p & i & E & Hp & Hr).
  destruct (padded_exact _ _ _ Hwf Hp) as (Wp & Sp & Lp & Bp). exists p, i.
  split_and!; [done..| |]; destruct Hr as [(?&?&?&?)|[-> Hnone]]; try done.
  intros s ??? Hno. by destruct Hno; apply Hnone.
Qed.

Lemma find_clear_bits_witness :
  ∃ bm' i, RtlFindClearBits sample_map 30 70 = Some (bm', i) ∧
    bitmap_wf bm' ∧ SizeOfBitMap bm' = SizeOfBitMap sample_map ∧
    length (Buffer bm') = length (Buffer sample_map) ∧
    (∀ j, 0 ≤ j → bit bm' j =
       if decide (SizeOfBitMap sample_map ≤ j < 8 * ((SizeOfBitMap sample_map + 7) / 8)) then true
       else bit sample_map j) ∧
    (i ≠ NOT_FOUND → 0 ≤ i ∧ i + 30 ≤ SizeOfBitMap sample_map ∧ clear_run sample_map i 30) ∧
    (∀ s, 0 ≤ s → s + 30 ≤ SizeOfBitMap sample_map → clear_run sample_map s 30 →
       ¬ overlooked sample_map s 30 → i ≠ NOT_FOUND).
Proof. apply (find_clear_bits_correct sample_map 30 70); [sample_wf|lia|lia]. Defined.

(** [RtlFindSetBits] is correct in the same sense for runs of set bits: it is
    memory safe, it returns, it changes no bit of the buffer but the padding, which
    it clears, a result is the start of a run of set bits inside the map, and a run
    that is not [overlooked] is found when one exists. *)
Theorem find_set_bits_correct (bm : RTL_BITMAP) (NumberToFind HintIndex : Z) :
  bitmap_wf bm → 0 < NumberToFind < 2 ^ 32 → 0 ≤ HintIndex →
  ∃ bm' i, RtlFindSetBits bm NumberToFind HintIndex = Some (bm', i) ∧
    bitmap_wf bm' ∧ SizeOfBitMap bm' = SizeOfBitMap bm ∧
    length (Buffer bm') = length (Buffer bm) ∧
    (∀ j, 0 ≤ j → bit bm' j =
       if decide (SizeOfBitMap bm ≤ j < 8 * ((SizeOfBitMap bm + 7) / 8)) then false
       else bit bm j) ∧
    (i ≠ NOT_FOUND →
       0 ≤ i ∧ i + NumberToFind ≤ SizeOfBitMap bm ∧ set_run bm i NumberToFind) ∧
    (∀ s, 0 ≤ s → s + NumberToFind ≤ SizeOfBitMap bm → set_run bm s NumberToFind →
       ¬ overlooked bm s NumberToFind → i ≠ NOT_FOUND).
Proof.
  intros Hwf Hn Hh.
  destruct (RtlFindSetBits_ok bm _ HintIndex Hwf Hn Hh) as (p & i & E & Hp & Hr).
  destruct (padded_exact _ _ _ Hwf Hp) as (Wp & Sp & Lp & Bp). exists p, i.
  split_and!; [done..| |]; destruct Hr as [(?&?&?&?)|[-> Hnone]]; try done.
  intros s ??? Hno. by destruct Hno; apply Hnone.
Qed.

Lemma find_set_bits_witness :
  ∃ bm' i, RtlFindSetBits sample_map 3 99 = Some (bm', i) ∧
    bitmap_wf bm' ∧ SizeOfBitMap bm' = SizeOfBitMap sample_map ∧
    length (Buffer bm') = length (Buffer sample_map) ∧
    (∀ j, 0 ≤ j → bit bm' j =
       if decide (SizeOfBitMap sample_map ≤ j < 8 * ((SizeOfBitMap sample_map + 7) / 8)) then false
       else bit sample_map j) ∧
    (i ≠ NOT_FOUND → 0 ≤ i ∧ i + 3 ≤ SizeOfBitMap sample_map ∧ set_run sample_map i 3) ∧
    (∀ s, 0 ≤ s → s + 3 ≤ SizeOfBitMap sample_map → set_run sample_map s 3 →
       ¬ overlooked sample_map s 3 → i ≠ NOT_FOUND).
Proof. apply (find_set_bits_correct sample_map 3 99); [sample_wf|lia|lia]. Defined.

(** C2: The exception of C1 is real: in the map of 16 bits with only bit 0
    set, bits 1 to 15 are a clear run of the requested length 15, and
    [RtlFindClearBits] reports that there is none, whatever the hint; likewise
    [RtlFindSetBits] on the complement.  The zero bytes before the current byte
    are counted, the current byte is not, so that a run of 7 high bits and whole
    zero bytes is only recognised when a further byte follows it. *)
Theorem find_bits_overlooks_last_run (HintIndex : Z) :
  0 ≤ HintIndex →
  let bm := mkBitmap 16 [1] in
  clear_run bm 1 15 ∧ overlooked bm 1 15 ∧
  RtlFindClearBits bm 15 HintIndex = Some (bm, NOT_FOUND) ∧
  RtlFindSetBits (mkBitmap 16 [0xfffe]) 15 HintIndex = Some (mkBitmap 16 [0xfffe], NOT_FOUND).
Proof.
  intros Hh bm.
  assert (∀ h, 16 ≤ h ∨ h < 16 ∧ h / 8 = 0 ∨ h < 16 ∧ h / 8 = 1 ∨ h < 0) as Hcases
    by (intros; Z.div_mod_to_equations; lia).
  split_and!; [|done|..].
  - intros i Hi. assert (forallb (λ i, (i =? 0) || negb (bit bm i)) (seqZ 0 16) = true) as H
      by (vm_compute; done).
    pose proof (forall_range _ _ H i ltac:(lia)) as Hb. cbv beta in Hb.
    rewrite (proj2 (Z.eqb_neq i 0)) in Hb by lia. by destruct (bit bm i).
  - unfold RtlFindClearBits. change (pad_with_ones bm) with (Some bm). cbn [mbind option_bind].
    change (SizeOfBitMap bm) with 16. destruct (Z.leb_spec 16 HintIndex); [vm_compute; done|].
    destruct (Hcases HintIndex) as [?|[[_ ->]|[[_ ->]|?]]]; [lia|vm_compute; done..|lia].
  - unfold RtlFindSetBits. set (bm' := mkBitmap 16 [0xfffe]).
    change (pad_with_zeros bm') with (Some bm'). cbn [mbind option_bind].
    change (SizeOfBitMap bm') with 16. destruct (Z.leb_spec 16 HintIndex); [vm_compute; done|].
    destruct (Hcases HintIndex) as [?|[[_ ->]|[[_ ->]|?]]]; [lia|vm_compute; done..|lia].
Qed.

Lemma find_bits_overlooks_witness :
  let bm := mkBitmap 16 [1] in
  clear_run bm 1 15 ∧ overlooked bm 1 15 ∧
  RtlFindClearBits bm 15 3 = Some (bm, NOT_FOUND) ∧
  RtlFindSetBits (mkBitmap 16 [0xfffe]) 15 3 = Some (mkBitmap 16 [0xfffe], NOT_FOUND).
Proof. apply (find_bits_overlooks_last_run 3). lia. Defined.

(** C3: [RtlSetBits] and [RtlClearBits] on a range inside a well-formed map are
    memory safe, keep the map well formed, give every bit of the range the new
    value and leave every other bit of the buffer as it was. *)
Theorem range_updates_exact (bm : RTL_BITMAP) (StartingIndex Number : Z) :
  bitmap_wf bm → 0 ≤ StartingIndex → 0 ≤ Number →
  StartingIndex + Number ≤ SizeOfBitMap bm →
  (∃ bm', RtlSetBits bm StartingIndex Number = Some bm' ∧ bitmap_wf bm' ∧
     SizeOfBitMap bm' = SizeOfBitMap bm ∧
     ∀ i, 0 ≤ i → bit bm' i = in_range StartingIndex Number i || bit bm i) ∧
  (∃ bm', RtlClearBits bm StartingIndex Number = Some bm' ∧ bitmap_wf bm' ∧
     SizeOfBitMap bm' = SizeOfBitMap bm ∧
     ∀ i, 0 ≤ i → bit bm' i = negb (in_range StartingIndex Number i) && bit bm i).
Proof.
  intros Hwf Hs Hn Hle. split.
  - destruct (RtlSetBits_filled bm _ _ Hwf Hs Hn Hle) as (p & E & S & B). exists p.
    split_and!; [done|by eapply shape_wf|apply S|]. intros i Hi. rewrite B by done.
    by destruct (in_range _ _ i).
  - destruct (RtlClearBits_filled bm _ _ Hwf Hs Hn Hle) as (p & E & S & B). exists p.
    split_and!; [done|by eapply shape_wf|apply S|]. intros i Hi. rewrite B by done.
    by destruct (in_range _ _ i).
Qed.

Lemma range_updates_witness :
  (∃ bm', RtlSetBits sample_map 20 70 = Some bm' ∧ bitmap_wf bm' ∧
     SizeOfBitMap bm' = SizeOfBitMap sample_map ∧
     ∀ i, 0 ≤ i → bit bm' i = in_range 20 70 i || bit sample_map i) ∧
  (∃ bm', RtlClearBits sample_map 20 70 = Some bm' ∧ bitmap_wf bm' ∧
     SizeOfBitMap bm' = SizeOfBitMap sample_map ∧
     ∀ i, 0 ≤ i → bit bm' i = negb (in_range 20 70 i) && bit sample_map i).
Proof. apply (range_updates_exact sample_map 20 70); [sample_wf|lia|lia|simpl; lia]. Defined.

(** C4: A client that starts from a map cleared by [RtlClearAllBits] and, in any
    order, allocates ranges with [RtlFindClearBitsAndSet] and returns ranges it
    holds with [RtlClearBits], never holds two overlapping ranges; the ranges it
    holds are inside the map and the set bits of the map are exactly the bits of
    those ranges. *)
Theorem bitmap_client_safe (bm bm0 bm' : RTL_BITMAP) (live : list (Z * Z)) :
  bitmap_wf bm → RtlClearAllBits bm = Some bm0 → rtc client_step (bm0, []) (bm', live) →
  all_disjoint live ∧
  Forall (λ r, 0 ≤ r.1 ∧ 0 ≤ r.2 ∧ r.1 + r.2 ≤ SizeOfBitMap bm') live ∧
  (∀ j, 0 ≤ j < SizeOfBitMap bm' → bit bm' j = covered live j).
Proof.
  intros Hwf E Hsteps. destruct (fill_all_ok bm Hwf false) as (b & Eb & Wb & Bb).
  unfold RtlClearAllBits in E. change (long_of false) with 0 in Eb. rewrite Eb in E.
  simplify_eq/=. eapply client_steps_inv in Hsteps as [_ Hb Hd Hu]; [by split_and!|].
  by apply client_inv_init.
Qed.

Lemma bitmap_client_safe_witness :
  ∃ bm', all_disjoint [(64, 20); (0, 60)] ∧
  Forall (λ r, 0 ≤ r.1 ∧ 0 ≤ r.2 ∧ r.1 + r.2 ≤ SizeOfBitMap bm') [(64, 20); (0, 60)] ∧
  (∀ j, 0 ≤ j < SizeOfBitMap bm' → bit bm' j = covered [(64, 20); (0, 60)] j).
Proof.
  eexists. eapply (bitmap_client_safe sample_map (mkBitmap 100 [0; 0; 0; 0])).
  - sample_wf.
  - vm_compute. reflexivity.
  - eapply rtc_l; [eapply (client_alloc _ _ _ 60 0 0); [lia|lia|vm_compute; reflexivity]|].
    eapply rtc_l; [eapply (client_alloc _ _ _ 20 66 64); [lia|lia|vm_compute; reflexivity]|].
    apply rtc_refl.
Defined.

(** C5: Such a client is served whenever a run is free: in a reachable state an
    allocation of any positive length returns; if it returns an index, the range is
    added to those the client holds, and otherwise these stay as they are; and if the
    map has a range of that length of which the client holds no bit, it does return an
    index, unless every such range is of the [overlooked] form (see C2).  Returning
    a held range always succeeds. *)
Theorem bitmap_client_served (bm bm0 bm' : RTL_BITMAP) (live : list (Z * Z)) :
  bitmap_wf bm → RtlClearAllBits bm = Some bm0 → rtc client_step (bm0, []) (bm', live) →
  (∀ n hint, 0 < n < 2 ^ 32 → 0 ≤ hint →
     ∃ bm'' i, RtlFindClearBitsAndSet bm' n hint = Some (bm'', i) ∧
       client_step (bm', live) (bm'', if decide (i = NOT_FOUND) then live else (i, n) :: live) ∧
       ∀ s, 0 ≤ s → s + n ≤ SizeOfBitMap bm → (∀ j, s ≤ j < s + n → covered live j = false) →
         ¬ overlooked bm s n → i ≠ NOT_FOUND) ∧
  (∀ l1 l2 i n, live = l1 ++ (i, n) :: l2 →
     ∃ bm'', RtlClearBits bm' i n = Some bm'' ∧ client_step (bm', live) (bm'', l1 ++ l2)).
Proof.
  intros Hwf E Hsteps. destruct (fill_all_ok bm Hwf false) as (b & Eb & Wb & Bb).
  unfold RtlClearAllBits in E. change (long_of false) with 0 in Eb. rewrite Eb in E.
  simplify_eq/=. assert (SizeOfBitMap bm' = SizeOfBitMap bm) as Hsz.
  { exact (client_steps_size _ _ (client_inv_init _ Wb Bb) Hsteps). }
  eapply client_steps_inv in Hsteps as [Hv Hb _ Hu]; [|by apply client_inv_init].
  split.
  - intros n hint Hn Hh.
    destruct (RtlFindClearBitsAndSet_ok bm' n hint Hv Hn Hh) as (p & i & Ep & _ & _ & Hr).
    exists p, i. split; [done|]. split.
    + assert (ra_alloc bm' n hint = Some (p, if i =? NOT_FOUND then None else Some i)) as Ea.
      { simpl. unfold bitmap_alloc. by rewrite Ep. }
      destruct (decide (i = NOT_FOUND)) as [->|Hi]; [by eapply client_alloc_fail|].
      rewrite (proj2 (Z.eqb_neq _ _) Hi) in Ea. by eapply client_alloc.
    + intros s Hs Hle Hfree Hno. destruct Hr as [[? _]|(_ & _ & Hnone)]; [done|].
      destruct Hno. unfold overlooked. rewrite <- Hsz. apply Hnone; [lia..|].
      intros j Hj. simpl in Hu. rewrite Hu by lia. by apply Hfree.
  - intros l1 l2 i n ->. simpl in Hb. apply Forall_app in Hb as [_ Hb].
    apply Forall_cons in Hb as [Hin _]. simpl in Hin.
    destruct (RtlClearBits_filled bm' i n Hv) as (p & Ep & _); [lia..|].
    exists p. split; [done|]. by apply client_free.
Qed.

Lemma bitmap_client_served_witness :
  (∀ n hint, 0 < n < 2 ^ 32 → 0 ≤ hint →
     ∃ bm'' i, RtlFindClearBitsAndSet (mkBitmap 100 [0x3ff; 0; 0; 0xf0]) n hint = Some (bm'', i) ∧
       client_step (mkBitmap 100 [0x3ff; 0; 0; 0xf0], [(0, 10)])
         (bm'', if decide (i = NOT_FOUND) then [(0, 10)] else [(i, n); (0, 10)]) ∧
       ∀ s, 0 ≤ s → s + n ≤ SizeOfBitMap sample_map →
         (∀ j, s ≤ j < s + n → covered [(0, 10)] j = false) →
         ¬ overlooked sample_map s n → i ≠ NOT_FOUND) ∧
  (∀ l1 l2 i n, [(0, 10)] = l1 ++ (i, n) :: l2 →
     ∃ bm'', RtlClearBits (mkBitmap 100 [0x3ff; 0; 0; 0xf0]) i n = Some bm'' ∧
       client_step (mkBitmap 100 [0x3ff; 0; 0; 0xf0], [(0, 10)]) (bm'', l1 ++ l2)).
Proof.
  apply (bitmap_client_served sample_map (mkBitmap 100 [0; 0; 0; 0]));
    [sample_wf|vm_compute; reflexivity|].
  eapply rtc_l; [eapply (client_alloc _ _ _ 10 0 0); [lia|lia|vm_compute; reflexivity]|].
  apply rtc_refl.
Defined.

(** Taking a range and giving it back is a round trip: after
    [RtlFindClearBitsAndSet] has returned an index, [RtlAreBitsSet] holds of the
    range, and [RtlClearBits] on it restores every bit of the map. *)
Theorem allocate_release_roundtrip (bm bm1 : RTL_BITMAP) (n hint i : Z) :
  bitmap_wf bm → 0 < n < 2 ^ 32 → 0 ≤ hint →
  RtlFindClearBitsAndSet bm n hint = Some (bm1, i) → i ≠ NOT_FOUND →
  RtlAreBitsSet bm1 i n = Some true ∧
  ∃ bm2, RtlClearBits bm1 i n = Some bm2 ∧
    ∀ j, 0 ≤ j < SizeOfBitMap bm → bit bm2 j = bit bm j.
Proof.
  intros Hwf Hn Hh E Hi.
  destruct (RtlFindClearBitsAndSet_ok bm n hint Hwf Hn Hh) as (p & k & Ek & Wp & Sp & Hr).
  rewrite E in Ek. simplify_eq. destruct Hr as [(_ & Hk & Hle & Hc & Hb)|[-> _]]; [|done].
  pose proof Wp as (Hsz & _ & _). split.
  - rewrite RtlAreBitsSet_complement.
    destruct (RtlAreBitsClear_ok _ k n (complement_wf _ Wp)) as (r & -> & Hr); [lia..|].
    f_equal. apply Hr. split_and!; [lia|simpl; lia|]. apply complement_clear_run; [done|lia..|].
    intros j Hj. rewrite Hb by lia. by rewrite (proj2 (in_range_spec k n j)) by lia.
  - destruct (RtlClearBits_filled p k n Wp) as (q & Eq & _ & Bq); [lia..|]. exists q.
    split; [done|]. intros j Hj. rewrite Bq by lia. destruct (in_range k n j) eqn:Ej.
    + apply in_range_spec in Ej. symmetry. apply Hc. lia.
    + by rewrite Hb, Ej by lia.
Qed.

Lemma allocate_release_witness :
  ∃ bm1, RtlAreBitsSet bm1 1 50 = Some true ∧
  ∃ bm2, RtlClearBits bm1 1 50 = Some bm2 ∧
    ∀ j, 0 ≤ j < SizeOfBitMap sample_map → bit bm2 j = bit sample_map j.
Proof.
  eexists. eapply (allocate_release_roundtrip sample_map _ 50 90 1);
    [sample_wf|lia|lia|vm_compute; reflexivity|discriminate].
Defined.

(** [RtlAreBitsClear] and [RtlAreBitsSet], for a range whose end does not
    wrap, answer exactly whether the range is nonempty, inside the map and
    entirely clear (set), without reading outside the buffer. *)
Theorem are_bits_exact (bm : RTL_BITMAP) (StartingIndex Length : Z) :
  bitmap_wf bm → 0 ≤ StartingIndex → 0 ≤ Length → StartingIndex + Length < 2 ^ 32 →
  (∃ b, RtlAreBitsClear bm StartingIndex Length = Some b ∧
     (b = true ↔ 0 < Length ∧ StartingIndex + Length ≤ SizeOfBitMap bm ∧
                 clear_run bm StartingIndex Length)) ∧
  (∃ b, RtlAreBitsSet bm StartingIndex Length = Some b ∧
     (b = true ↔ 0 < Length ∧ StartingIndex + Length ≤ SizeOfBitMap bm ∧
                 set_run bm StartingIndex Length)).
Proof.
  intros Hwf Hs Hn Hsn. split; [by apply RtlAreBitsClear_ok|].
  rewrite RtlAreBitsSet_complement.
  destruct (RtlAreBitsClear_ok _ StartingIndex Length (complement_wf _ Hwf)) as (b & -> & Hb);
    [lia..|]. exists b. split; [done|]. rewrite Hb. simpl.
  split; intros (?&?&?); split_and!; try done; by apply complement_clear_run.
Qed.

Lemma are_bits_witness :
  (∃ b, RtlAreBitsClear sample_map 1 83 = Some b ∧
     (b = true ↔ 0 < 83 ∧ 1 + 83 ≤ SizeOfBitMap sample_map ∧ clear_run sample_map 1 83)) ∧
  (∃ b, RtlAreBitsSet sample_map 1 83 = Some b ∧
     (b = true ↔ 0 < 83 ∧ 1 + 83 ≤ SizeOfBitMap sample_map ∧ set_run sample_map 1 83)).
Proof. apply (are_bits_exact sample_map 1 83); [sample_wf|lia..]. Defined.

(** The guard of [RtlAreBitsClear] compares a 32-bit sum: a range that starts
    beyond the buffer and is so long that [StartingIndex + Length] wraps to a
    value inside the map passes it, and the routine reads outside the buffer. *)
Theorem are_bits_clear_wraps (bm : RTL_BITMAP) (StartingIndex Length : Z) :
  bitmap_wf bm → is_u32 StartingIndex → is_u32 Length → 0 < Length →
  32 * zlen (Buffer bm) ≤ StartingIndex →
  2 ^ 32 ≤ StartingIndex + Length → StartingIndex + Length - 2 ^ 32 ≤ SizeOfBitMap bm →
  RtlAreBitsClear bm StartingIndex Length = None.
Proof. apply RtlAreBitsClear_wraps. Qed.

Lemma are_bits_clear_wraps_witness : RtlAreBitsClear sample_map 0xffffffff 2 = None.
Proof.
  apply (are_bits_clear_wraps sample_map 0xffffffff 2);
    [sample_wf|unfold is_u32; lia|unfold is_u32; lia|lia|vm_compute; discriminate|lia|simpl; lia].
Defined.

(** [RtlNumberOfClearBits] and [RtlNumberOfSetBits] return the numbers of
    clear and of set bits of the map, which add up to its size. *)
Theorem bit_counts_correct (bm : RTL_BITMAP) :
  bitmap_wf bm →
  ∃ bm1 bm2 c s, RtlNumberOfClearBits bm = Some (bm1, c) ∧
    RtlNumberOfSetBits bm = Some (bm2, s) ∧
    c = zlen (filter (λ i, bit bm i = false) (seqZ 0 (SizeOfBitMap bm))) ∧
    s = zlen (filter (λ i, bit bm i = true) (seqZ 0 (SizeOfBitMap bm))) ∧
    c + s = SizeOfBitMap bm.
Proof.
  intros Hwf. destruct (RtlNumberOfClearBits_ok bm Hwf) as (b1 & E1 & _).
  destruct (RtlNumberOfClearBits_ok _ (complement_wf _ Hwf)) as (b2 & E2 & _).
  destruct (scans_complement bm Hwf) as (Ec & _ & _). rewrite E2 in Ec.
  destruct (RtlNumberOfSetBits bm) as [[b3 s]|]; [|done]. simplify_eq/=.
  do 4 eexists. split_and!; [done|done|done|..].
  - rewrite (count_false_ext (bit (complement bm)) (λ i, negb (bit bm i)) 0 0).
    + unfold count_false, zlen. do 2 f_equal. apply list_filter_iff.
      intros i. by rewrite negb_false_iff.
    + intros j Hj. destruct Hwf as (_ & Hl & _). apply complement_bit. lia.
  - rewrite (count_false_ext (bit (complement bm)) (λ i, negb (bit bm i)) 0 0);
      [|intros j Hj; destruct Hwf as (_ & Hl & _); apply complement_bit; lia].
    apply count_false_negb. apply Hwf.
Qed.

Lemma bit_counts_witness :
  ∃ bm1 bm2 c s, RtlNumberOfClearBits sample_map = Some (bm1, c) ∧
    RtlNumberOfSetBits sample_map = Some (bm2, s) ∧
    c = zlen (filter (λ i, bit sample_map i = false) (seqZ 0 (SizeOfBitMap sample_map))) ∧
    s = zlen (filter (λ i, bit sample_map i = true) (seqZ 0 (SizeOfBitMap sample_map))) ∧
    c + s = SizeOfBitMap sample_map.
Proof. apply (bit_counts_correct sample_map). sample_wf. Defined.

(** [RtlFindLongestRunClear] and [RtlFindLongestRunSet] return the length of
    a longest run of clear (set) bits of the map and the start of a run of that
    length, without accessing memory outside the buffer. *)
Theorem longest_run_correct (bm : RTL_BITMAP) :
  bitmap_wf bm →
  (∃ bm' l i, RtlFindLongestRunClear bm = Some (bm', l, i) ∧
     0 ≤ i ∧ 0 ≤ l ∧ i + l ≤ SizeOfBitMap bm ∧ clear_run bm i l ∧
     ∀ s n, 0 ≤ s → s + n ≤ SizeOfBitMap bm → clear_run bm s n → n ≤ l) ∧
  (∃ bm' l i, RtlFindLongestRunSet bm = Some (bm', l, i) ∧
     0 ≤ i ∧ 0 ≤ l ∧ i + l ≤ SizeOfBitMap bm ∧ set_run bm i l ∧
     ∀ s n, 0 ≤ s → s + n ≤ SizeOfBitMap bm → set_run bm s n → n ≤ l).
Proof.
  intros Hwf. split.
  - destruct (RtlFindLongestRunClear_ok bm Hwf) as (p & l & i & E & _ & H). by exists p, l, i.
  - destruct (RtlFindLongestRunClear_ok _ (complement_wf _ Hwf)) as (p & l & i & E & _ & H).
    destruct (scans_complement bm Hwf) as (_ & Ec & _). rewrite E in Ec.
    destruct (RtlFindLongestRunSet bm) as [[[q l'] i']|]; [|done]. simplify_eq/=.
    destruct H as (? & ? & Hle & Hr & Hmax). simpl in *. exists q, l', i'. split_and!; [done..| |].
    + by apply complement_clear_run.
    + intros s n ???. apply (Hmax s); [done..|]. by apply complement_clear_run.
Qed.

Lemma longest_run_witness :
  (∃ bm' l i, RtlFindLongestRunClear sample_map = Some (bm', l, i) ∧
     0 ≤ i ∧ 0 ≤ l ∧ i + l ≤ SizeOfBitMap sample_map ∧ clear_run sample_map i l ∧
     ∀ s n, 0 ≤ s → s + n ≤ SizeOfBitMap sample_map → clear_run sample_map s n → n ≤ l) ∧
  (∃ bm' l i, RtlFindLongestRunSet sample_map = Some (bm', l, i) ∧
     0 ≤ i ∧ 0 ≤ l ∧ i + l ≤ SizeOfBitMap sample_map ∧ set_run sample_map i l ∧
     ∀ s n, 0 ≤ s → s + n ≤ SizeOfBitMap sample_map → set_run sample_map s n → n ≤ l).
Proof. apply (longest_run_correct sample_map). sample_wf. Defined.

(** [RtlFindFirstRunClear] returns size zero and index 0xffffffff exactly
    when every bit of the map is set; otherwise it returns a maximal run of clear
    bits whose first bit lies in the first byte that has a clear bit. *)
Theorem first_run_clear_correct (bm : RTL_BITMAP) :
  bitmap_wf bm →
  ∃ bm' l i, RtlFindFirstRunClear bm = Some (bm', l, i) ∧
    ((l = 0 ∧ i = NOT_FOUND ∧ set_run bm 0 (SizeOfBitMap bm)) ∨
     (0 < l ∧ 0 ≤ i ∧ i + l ≤ SizeOfBitMap bm ∧ clear_run bm i l ∧
      set_run bm 0 (8 * (i / 8)) ∧ (0 < i → bit bm (i - 1) = true) ∧
      (i + l < SizeOfBitMap bm → bit bm (i + l) = true))).
Proof.
  intros Hwf. destruct (RtlFindFirstRunClear_ok bm Hwf) as (p & l & i & E & _ & H).
  by exists p, l, i.
Qed.

Lemma first_run_clear_witness :
  ∃ bm' l i, RtlFindFirstRunClear sample_map = Some (bm', l, i) ∧
    ((l = 0 ∧ i = NOT_FOUND ∧ set_run sample_map 0 (SizeOfBitMap sample_map)) ∨
     (0 < l ∧ 0 ≤ i ∧ i + l ≤ SizeOfBitMap sample_map ∧ clear_run sample_map i l ∧
      set_run sample_map 0 (8 * (i / 8)) ∧ (0 < i → bit sample_map (i - 1) = true) ∧
      (i + l < SizeOfBitMap sample_map → bit sample_map (i + l) = true))).
Proof. apply (first_run_clear_correct sample_map). sample_wf. Defined.

(** "First" and "longest" are not exact at the bit level: in the map of 16
    bits 0xff9d bit 1 is clear, but [RtlFindFirstRunClear] returns the run at bit
    5; in the map 0xff39 bits 1 and 2 are a longest run, but
    [RtlFindLongestRunClear] returns the index 6 of a later run of the same
    length, where its comment promises the first. *)
Theorem run_index_not_first :
  bit (mkBitmap 16 [0xff9d]) 1 = false ∧
  RtlFindFirstRunClear (mkBitmap 16 [0xff9d]) = Some (mkBitmap 16 [0xff9d], 2, 5) ∧
  bit (mkBitmap 16 [0xff39]) 1 = false ∧ bit (mkBitmap 16 [0xff39]) 2 = false ∧
  RtlFindLongestRunClear (mkBitmap 16 [0xff39]) = Some (mkBitmap 16 [0xff39], 2, 6).
Proof. vm_compute. done. Qed.

(** The four lookup tables are right: for each of the 256 bytes they give
    the longest clear run inside it, its clear low-order bits, its clear
    high-order bits and its number of clear bits. *)
Theorem tables_correct (b : Z) :
  0 ≤ b < 256 →
  array_get RtlpBitsClearAnywhere b = Some (longest_clear b) ∧
  array_get RtlpBitsClearLow b = Some (low_clear b) ∧
  array_get RtlpBitsClearHigh b = Some (high_clear b) ∧
  array_get RtlpBitsClearTotal b = Some (total_clear b).
Proof. intros Hb. by rewrite get_anywhere, get_low, get_high, get_total. Qed.

Lemma tables_correct_witness :
  array_get RtlpBitsClearAnywhere 0x39 = Some (longest_clear 0x39) ∧
  array_get RtlpBitsClearLow 0x39 = Some (low_clear 0x39) ∧
  array_get RtlpBitsClearHigh 0x39 = Some (high_clear 0x39) ∧
  array_get RtlpBitsClearTotal 0x39 = Some (total_clear 0x39).
Proof. apply (tables_correct 0x39). lia. Defined.
