(* ===== verification/KeState.v ===== *)
(** * The data of the kernel dispatcher

    Threads, dispatcher objects, processes and the dispatcher's global
    variables as the sources of [NTOS/KE] declare them (structures in
    [INC/KE.H], variables in [KE/KERNLDAT.C]). Pointers to threads, objects and
    processes are identifiers into the maps of [KSTATE]; linked lists are lists,
    head first. Fields no modelled routine reads or writes are left out.

    A dispatcher object is its header ([DISPATCHER_HEADER]: type, signal state
    and wait list) with the fields of a mutant or a semaphore; the fields a
    timer and a queue have beyond the header are kept in tables of their own,
    [Timers] and [Queues]. *)

From stdpp Require Import base list numbers option gmap.
From S2P Require Import Prelude.

Definition tid := nat.

(** An object is a free-standing one or the timer built into a thread. *)
Definition oid : Type := nat + tid.
Definition Obj (n : nat) : oid := inl n.
Definition ThreadTimer (t : tid) : oid := inr t.
Definition pid := nat.

Inductive KTHREAD_STATE :=
  Initialized | Ready | Running | Standby | Terminated | Waiting | Transition.

Inductive KPROCESS_STATE := ProcessInMemory | ProcessOutOfMemory | ProcessInTransition.

Inductive WAIT_TYPE := WaitAll | WaitAny.

#[export] Instance KTHREAD_STATE_eq : EqDecision KTHREAD_STATE.
Proof. solve_decision. Defined.
#[export] Instance KPROCESS_STATE_eq : EqDecision KPROCESS_STATE.
Proof. solve_decision. Defined.
#[export] Instance WAIT_TYPE_eq : EqDecision WAIT_TYPE.
Proof. solve_decision. Defined.

Definition LOW_REALTIME_PRIORITY : Z := 16.
Definition HIGH_PRIORITY : Z := 31.
Definition MAXIMUM_PRIORITY : Z := 32.
Definition TIME_CRITICAL_PRIORITY_BOUND : Z := 14.
Definition BALANCE_INCREMENT : Z := 10.
Definition APC_LEVEL : Z := 1.
Definition DISPATCH_LEVEL : Z := 2.
Definition TIMER_TABLE_SIZE : Z := 128.
Definition MAXIMUM_WAIT_OBJECTS : nat := 64.
Definition THREAD_WAIT_OBJECTS : nat := 3.
Definition MINLONG : Z := - 2 ^ 31.

Definition STATUS_SUCCESS : Z := 0.
Definition STATUS_ABANDONED : Z := 0x80.
Definition STATUS_USER_APC : Z := 0xC0.
Definition STATUS_KERNEL_APC : Z := 0x100.
Definition STATUS_ALERTED : Z := 0x101.
Definition STATUS_TIMEOUT : Z := 0x102.
Definition STATUS_MUTANT_NOT_OWNED : Z := 0xC0000046.
Definition STATUS_SEMAPHORE_LIMIT_EXCEEDED : Z := 0xC0000047.
Definition STATUS_MUTANT_LIMIT_EXCEEDED : Z := 0xC0000191.

(** A wait block. Its thread and position are the pair that names it in wait
    lists; [NextWaitBlock] is the next position of [WaitBlockList], the last
    followed by the first. *)
Record KWAIT_BLOCK := mkWaitBlock { WaitObject : oid; WaitKey : Z; WaitType : WAIT_TYPE }.

Definition wait_entry : Type := tid * nat.

(** The [Type] of a dispatcher header, with the fields of the mutant and the
    semaphore. A notification event has type 0 and a synchronization event the
    type [EventObject]. *)
Inductive KBODY :=
  | NotificationEvent
  | SynchronizationEvent
  | MutantObject (OwnerThread : option tid) (Abandoned : bool) (ApcDisable : Z)
  | ProcessObject
  | QueueObject
  | SemaphoreObject (Limit : Z)
  | ThreadObject
  | TimerObject.

Record KOBJECT := mkObject { Body : KBODY; SignalState : Z; WaitListHead : list wait_entry }.
#[export] Instance KOBJECT_eta : Eta KOBJECT :=
  λ r, mkObject (Body r) (SignalState r) (WaitListHead r).

Record KTIMER := mkTimer { DueTime : Z; Inserted : bool }.
#[export] Instance KTIMER_eta : Eta KTIMER := λ r, mkTimer (DueTime r) (Inserted r).

Record KQUEUE := mkQueue { CurrentCount : Z; MaximumCount : Z; EntryList : list Z }.
#[export] Instance KQUEUE_eta : Eta KQUEUE :=
  λ r, mkQueue (CurrentCount r) (MaximumCount r) (EntryList r).

Record KPROCESS := mkProcess
  { PrState : KPROCESS_STATE; ThreadQuantum : Z; StackCount : Z; PrReadyList : list tid }.
#[export] Instance KPROCESS_eta : Eta KPROCESS :=
  λ r, mkProcess (PrState r) (ThreadQuantum r) (StackCount r) (PrReadyList r).

(** [Queue] is the queue object whose entry the thread is processing, held in
    [SuspendApc.NormalContext]; [KernelApcQueued] and [UserApcQueued] say
    whether the two lists of [ApcState.ApcListHead] are non-empty;
    [AlertedKernel] and [AlertedUser] are the two entries of [Alerted]. *)
Record KTHREAD := mkThread
  { State : KTHREAD_STATE;
    Priority : Z;
    BasePriority : Z;
    PriorityDecrement : Z;
    Quantum : Z;
    Preempted : bool;
    ProcessReadyQueue : bool;
    KernelStackResident : bool;
    Process : pid;
    WaitBlockList : list KWAIT_BLOCK;
    WaitStatus : Z;
    WaitReason : Z;
    WaitTime : Z;
    WaitNext : bool;
    WaitIrql : Z;
    UserWaitMode : bool;
    Alertable : bool;
    AlertedKernel : bool;
    AlertedUser : bool;
    KernelApcQueued : bool;
    UserApcQueued : bool;
    KernelApcPending : bool;
    UserApcPending : bool;
    KernelApcDisable : Z;
    MutantList : list oid;
    Queue : option oid }.
#[export] Instance KTHREAD_eta : Eta KTHREAD :=
  λ r, mkThread (State r) (Priority r) (BasePriority r) (PriorityDecrement r) (Quantum r)
         (Preempted r) (ProcessReadyQueue r) (KernelStackResident r) (Process r)
         (WaitBlockList r) (WaitStatus r) (WaitReason r) (WaitTime r) (WaitNext r)
         (WaitIrql r) (UserWaitMode r) (Alertable r) (AlertedKernel r) (AlertedUser r)
         (KernelApcQueued r) (UserApcQueued r) (KernelApcPending r) (UserApcPending r)
         (KernelApcDisable r) (MutantList r) (Queue r).

(** The dispatcher database of a uniprocessor system: the maps of threads,
    objects and processes, the global variables of the dispatcher, the fields of
    the only processor control block, and the interrupt level. [DispatchInterrupt]
    and [ApcInterrupt] record software interrupts requested. *)
Record KSTATE := mkState
  { Threads : gmap tid KTHREAD;
    Objects : gmap oid KOBJECT;
    Timers : gmap oid KTIMER;
    Queues : gmap oid KQUEUE;
    Processes : gmap pid KPROCESS;
    KiDispatcherReadyListHead : list (list tid);
    KiReadySummary : Z;
    KiIdleSummary : Z;
    KiWaitInList : list tid;
    KiWaitOutList : list tid;
    KiProcessInSwapList : list pid;
    KiStackInSwapList : list tid;
    KeWaitReason : list Z;
    KiTimerTable : list (list oid);
    NextThread : option tid;
    CurrentThread : tid;
    IdleThread : tid;
    KeTickCount : Z;
    KiTimeIncrementReciprocal : Z;
    KiTimeIncrementShiftCount : Z;
    SystemTime : Z;
    InterruptTime : Z;
    IsExecutingDpc : bool;
    Irql : Z;
    DispatchInterrupt : bool;
    ApcInterrupt : bool }.
#[export] Instance KSTATE_eta : Eta KSTATE :=
  λ r, mkState (Threads r) (Objects r) (Timers r) (Queues r) (Processes r)
         (KiDispatcherReadyListHead r) (KiReadySummary r) (KiIdleSummary r)
         (KiWaitInList r) (KiWaitOutList r) (KiProcessInSwapList r) (KiStackInSwapList r)
         (KeWaitReason r) (KiTimerTable r) (NextThread r) (CurrentThread r) (IdleThread r)
         (KeTickCount r) (KiTimeIncrementReciprocal r)
         (KiTimeIncrementShiftCount r) (SystemTime r) (InterruptTime r) (IsExecutingDpc r) (Irql r)
         (DispatchInterrupt r) (ApcInterrupt r).

(** The balance set manager's event, a global variable. *)
Definition KiSwapEvent : oid := Obj 0.

(** Stores through a pointer. *)
Definition put_thread (t : tid) (th : KTHREAD) (s : KSTATE) : KSTATE :=
  s <| Threads := <[t := th]> (Threads s) |>.
Definition put_object (o : oid) (ob : KOBJECT) (s : KSTATE) : KSTATE :=
  s <| Objects := <[o := ob]> (Objects s) |>.
Definition put_process (p : pid) (pr : KPROCESS) (s : KSTATE) : KSTATE :=
  s <| Processes := <[p := pr]> (Processes s) |>.

(** An operation either returns a value to its caller or raises an exception
    with a status ([ExRaiseStatus]). *)
Inductive outcome := Returned (v : Z) | Raised (status : Z).
