(* ===== verification/KeSched.v ===== *)
(** * The thread scheduler ([KE/THREDSUP.C], uniprocessor build)

    [KiReadyThread], [KiFindReadyThread], [KiSelectNextThread] and
    [KiSetPriorityThread] with [NT_UP] defined, and the scheduling effect of the
    two assembler routines the C code leaves the dispatcher through,
    [KiSwapContext] and [KiUnlockDispatcherDatabase] ([KE/I386/CTXSWAP.ASM]).

    [KiReadyThread] signals the balance set manager's event when the thread's
    process or kernel stack is out of memory, and so calls [KiWaitTest], which
    itself readies threads. The recursion is left open here: the routines take
    [KiWaitTest(&KiSwapEvent, BALANCE_INCREMENT)] as an argument, and
    [KeWait.v] closes it. *)

From stdpp Require Import base list numbers option gmap.
From S2P Require Import Prelude KeState.

(** [SetMember] and [ClearMember] of [KI.H]. *)
Definition SetMember (Member Set_ : Z) : Z := Z.lor Set_ (Z.shiftl 1 Member).
Definition ClearMember (Member Set_ : Z) : Z := Z.land Set_ (Z.lnot (Z.shiftl 1 Member)).

(** [RemoveEntryList] of a thread from a list of threads. *)
Definition remove_thread (t : tid) (l : list tid) : list tid := filter (λ x, x ≠ t) l.

(** Replaces the ready list of a priority; [None] is an index outside
    [KiDispatcherReadyListHead]. *)
Definition put_ready (p : Z) (l : list tid) (s : KSTATE) : option KSTATE :=
  a ← array_set (KiDispatcherReadyListHead s) p l;
  Some (s <| KiDispatcherReadyListHead := a |>).

(** The tail of [KiReadyThread]: no thread can be preempted, so the thread is
    queued at its priority, at the head when a realtime thread was preempted. *)
Definition ready_enqueue (t : tid) (th : KTHREAD) (WasPreempted : bool) (s : KSTATE) :
    option KSTATE :=
  let ThreadPriority := Priority th in
  let s := put_thread t (th <| State := Ready |>) s in
  l ← array_get (KiDispatcherReadyListHead s) ThreadPriority;
  s ← put_ready ThreadPriority
        (if WasPreempted && (LOW_REALTIME_PRIORITY <=? ThreadPriority) then t :: l else l ++ [t]) s;
  Some (s <| KiReadySummary := SetMember ThreadPriority (KiReadySummary s) |>).

(** ** KiFindReadyThread

    The [do] loop: [PrioritySet] holds no member above [HighPriority]. *)
Fixpoint find_ready_loop (fuel : nat) (PrioritySet HighPriority : Z) (s : KSTATE) :
    option (KSTATE * option tid) :=
  match fuel with
  | O => None
  | S fuel =>
      let found := negb (Z.shiftr PrioritySet HighPriority =? 0) in
      let PrioritySet :=
        if found then PrioritySet -u Z.shiftl 1 HighPriority else PrioritySet in
      queue ← (if found then array_get (KiDispatcherReadyListHead s) HighPriority else Some []);
      match queue with
      | t :: rest =>
          s ← put_ready HighPriority rest s;
          Some (if decide (rest = [])
                then s <| KiReadySummary := ClearMember HighPriority (KiReadySummary s) |>
                else s, Some t)
      | [] =>
          if PrioritySet =? 0 then Some (s, None)
          else find_ready_loop fuel PrioritySet (HighPriority - 1) s
      end
  end.

Definition priority_set (HighPriority LowPriority Summary : Z) : Z :=
  Z.land (Z.land (Z.lor (Z.shiftl 1 HighPriority - 1) (Z.shiftl 1 HighPriority))
                 (Z.lnot (Z.shiftl 1 LowPriority - 1)))
         Summary.

(** Each turn examines one of the queues. *)
Definition KiFindReadyThread (HighPriority LowPriority : Z) (s : KSTATE) :
    option (KSTATE * option tid) :=
  find_ready_loop (length (KiDispatcherReadyListHead s))
    (priority_set HighPriority LowPriority (KiReadySummary s)) HighPriority s.

(** ** KiSelectNextThread *)
Definition KiSelectNextThread (t : tid) (s : KSTATE) : option (KSTATE * tid) :=
  match NextThread s with
  | Some t1 => Some (s <| NextThread := None |>, t1)
  | None =>
      th ← Threads s !! t;
      '(s, r) ← KiFindReadyThread (Priority th) 0 s;
      match r with
      | Some t1 => Some (s, t1)
      | None => Some (s <| KiIdleSummary := 1 |>, IdleThread s)
      end
  end.

(** [SwapContext]: the new thread becomes the current, running thread and
    execution goes on at its interrupt level. *)
Definition SwapContext (t : tid) (s : KSTATE) : option KSTATE :=
  th ← Threads s !! t;
  Some (put_thread t (th <| State := Running |>) s
          <| CurrentThread := t |> <| Irql := WaitIrql th |>).

Section open_recursion.

(** [KiWaitTest(&KiSwapEvent, BALANCE_INCREMENT)]. *)
Variable test_swap : KSTATE → option KSTATE.

(** Setting the swap event, as [KiReadyThread] does in two places. *)
Definition signal_swap_event (s : KSTATE) : option KSTATE :=
  ev ← Objects s !! KiSwapEvent;
  let s := put_object KiSwapEvent (ev <| SignalState := 1 |>) s in
  if decide (WaitListHead ev = []) then Some s else test_swap s.

(** ** KiReadyThread

    The routine calls itself for the standby thread it preempts; that call finds
    a standby thread of higher priority and does not recur again. *)
Fixpoint ready_thread (fuel : nat) (t : tid) (s : KSTATE) : option KSTATE :=
  match fuel with
  | O => None
  | S fuel =>
      th ← Threads s !! t;
      let WasPreempted := Preempted th in
      let ThreadPriority := Priority th in
      let th := th <| Preempted := false |> <| WaitTime := KeTickCount s |> in
      let s := put_thread t th s in
      pr ← Processes s !! Process th;
      if decide (PrState pr ≠ ProcessInMemory) then
        let s := put_thread t (th <| State := Ready |> <| ProcessReadyQueue := true |>) s in
        let pr := pr <| PrReadyList := PrReadyList pr ++ [t] |> in
        if decide (PrState pr = ProcessOutOfMemory) then
          let s := put_process (Process th) (pr <| PrState := ProcessInTransition |>) s in
          signal_swap_event
            (s <| KiProcessInSwapList := KiProcessInSwapList s ++ [Process th] |>)
        else Some (put_process (Process th) pr s)
      else if negb (KernelStackResident th) then
        let s := put_process (Process th) (pr <| StackCount := u16 (StackCount pr + 1) |>) s in
        let s := put_thread t (th <| State := Transition |>) s in
        signal_swap_event (s <| KiStackInSwapList := KiStackInSwapList s ++ [t] |>)
      else if negb (KiIdleSummary s =? 0) then
        Some (put_thread t (th <| State := Standby |>) s
                <| KiIdleSummary := 0 |> <| NextThread := Some t |>)
      else
        match NextThread s with
        | Some t1 =>
            th1 ← Threads s !! t1;
            if Priority th1 <? ThreadPriority then
              let s := put_thread t1 (th1 <| Preempted := true |>) s in
              let s := put_thread t (th <| State := Standby |>) s in
              ready_thread fuel t1 (s <| NextThread := Some t |>)
            else ready_enqueue t th WasPreempted s
        | None =>
            th1 ← Threads s !! CurrentThread s;
            if Priority th1 <? ThreadPriority then
              let s := put_thread (CurrentThread s) (th1 <| Preempted := true |>) s in
              Some (put_thread t (th <| State := Standby |>) s <| NextThread := Some t |>)
            else ready_enqueue t th WasPreempted s
        end
  end.

Definition ready_thread2 : tid → KSTATE → option KSTATE := ready_thread 2.

(** ** KiSetPriorityThread *)
Definition set_priority_thread (t : tid) (NewPriority : Z) (s : KSTATE) : option KSTATE :=
  th ← Threads s !! t;
  let ThreadPriority := Priority th in
  if NewPriority =? ThreadPriority then Some s else
  let th := th <| Priority := s8 NewPriority |> in
  let s := put_thread t th s in
  match State th with
  | Ready =>
      if ProcessReadyQueue th then Some s else
      l ← array_get (KiDispatcherReadyListHead s) ThreadPriority;
      let l := remove_thread t l in
      s ← put_ready ThreadPriority l s;
      let s := if decide (l = [])
               then s <| KiReadySummary := ClearMember ThreadPriority (KiReadySummary s) |>
               else s in
      if NewPriority <? ThreadPriority then
        l ← array_get (KiDispatcherReadyListHead s) NewPriority;
        s ← put_ready NewPriority (l ++ [t]) s;
        Some (s <| KiReadySummary := SetMember NewPriority (KiReadySummary s) |>)
      else ready_thread2 t s
  | Standby =>
      if NewPriority <? ThreadPriority then
        '(s, r) ← KiFindReadyThread ThreadPriority (NewPriority + 1) s;
        match r with
        | Some t1 =>
            th1 ← Threads s !! t1;
            ready_thread2 t (put_thread t1 (th1 <| State := Standby |>) s
                               <| NextThread := Some t1 |>)
        | None => Some s
        end
      else Some s
  | Running =>
      match NextThread s with
      | Some _ => Some s
      | None =>
          if NewPriority <? ThreadPriority then
            '(s, r) ← KiFindReadyThread ThreadPriority (NewPriority + 1) s;
            match r with
            | Some t1 =>
                th1 ← Threads s !! t1;
                Some (put_thread t1 (th1 <| State := Standby |>) s <| NextThread := Some t1 |>)
            | None => Some s
            end
          else Some s
      end
  | _ => Some s
  end.

(** ** Leaving the dispatcher *)

Definition swap_context (t : tid) (ReadyFlag : bool) (s : KSTATE) : option KSTATE :=
  s ← (if ReadyFlag then ready_thread2 (CurrentThread s) s else Some s);
  SwapContext t s.

Definition unlock_dispatcher (OldIrql : Z) (s : KSTATE) : option KSTATE :=
  match NextThread s with
  | None => Some (s <| Irql := OldIrql |>)
  | Some next =>
      if OldIrql <? DISPATCH_LEVEL then
        let old := CurrentThread s in
        th ← Threads s !! old;
        let s := put_thread old (th <| WaitIrql := OldIrql |>) s
                   <| NextThread := None |> <| CurrentThread := next |> in
        s ← ready_thread2 old s;
        SwapContext next s
      else if IsExecutingDpc s then Some (s <| Irql := OldIrql |>)
      else Some (s <| DispatchInterrupt := true |> <| Irql := OldIrql |>)
  end.

End open_recursion.
