(* ===== verification/KeWait.v ===== *)
(** * Satisfying waits ([KE/WAITSUP.C] and the macros of [KE/KI.H])

    [KiWaitSatisfyAny], [KiWaitSatisfyMutant], [KiWaitSatisfyOther],
    [KiWaitSatisfy], [KiUnwaitThread] and [KiWaitTest]. The last two and
    [KiReadyThread] call one another; the recursion is closed here on the depth
    of nested tests of the swap event. *)

From stdpp Require Import base list numbers option gmap.
From S2P Require Import Prelude KeState KeSched.

(** ** Side effects of a satisfied wait *)

(** [KiWaitSatisfyMutant]. [Object] is known to be a mutant. *)
Definition KiWaitSatisfyMutant (o : oid) (t : tid) (s : KSTATE) : option KSTATE :=
  ob ← Objects s !! o;
  th ← Threads s !! t;
  match Body ob with
  | MutantObject OwnerThread Abandoned ApcDisable =>
      let state := s32 (SignalState ob - 1) in
      if state =? 0 then
        let th := th <| KernelApcDisable := u8 (KernelApcDisable th - ApcDisable) |> in
        let th := if Abandoned then th <| WaitStatus := STATUS_ABANDONED |> else th in
        let th := th <| MutantList := MutantList th ++ [o] |> in
        Some (put_thread t th
                (put_object o (ob <| SignalState := state |>
                                  <| Body := MutantObject (Some t) false ApcDisable |>) s))
      else Some (put_object o (ob <| SignalState := state |>) s)
  | _ => None
  end.

(** [KiWaitSatisfyOther]: every type but a mutant. *)
Definition KiWaitSatisfyOther (o : oid) (s : KSTATE) : option KSTATE :=
  ob ← Objects s !! o;
  Some match Body ob with
       | SynchronizationEvent => put_object o (ob <| SignalState := 0 |>) s
       | SemaphoreObject _ => put_object o (ob <| SignalState := s32 (SignalState ob - 1) |>) s
       | _ => s
       end.

(** [KiWaitSatisfyAny] has the two macros above as its branches. *)
Definition KiWaitSatisfyAny (o : oid) (t : tid) (s : KSTATE) : option KSTATE :=
  ob ← Objects s !! o;
  match Body ob with
  | MutantObject _ _ _ => KiWaitSatisfyMutant o t s
  | _ => KiWaitSatisfyOther o s
  end.

Fixpoint satisfy_blocks (t : tid) (bs : list KWAIT_BLOCK) (s : KSTATE) : option KSTATE :=
  match bs with
  | [] => Some s
  | b :: bs => s ← KiWaitSatisfyAny (WaitObject b) t s; satisfy_blocks t bs s
  end.

(** [KiWaitSatisfy] on the wait block at position [i] of thread [t]: that block
    alone for a wait any, all blocks of the ring from it on for a wait all. *)
Definition KiWaitSatisfy (t : tid) (i : nat) (s : KSTATE) : option KSTATE :=
  th ← Threads s !! t;
  b ← WaitBlockList th !! i;
  if decide (WaitType b = WaitAny) then KiWaitSatisfyAny (WaitObject b) t s
  else satisfy_blocks t (drop i (WaitBlockList th) ++ take i (WaitBlockList th)) s.

(** ** KiUnwaitThread *)

(** [RemoveEntryList] of every wait block of thread [t], the blocks at
    positions [i] on. *)
Fixpoint remove_blocks (t : tid) (i : nat) (bs : list KWAIT_BLOCK) (s : KSTATE) :
    option KSTATE :=
  match bs with
  | [] => Some s
  | b :: bs =>
      ob ← Objects s !! WaitObject b;
      remove_blocks t (S i) bs
        (put_object (WaitObject b)
           (ob <| WaitListHead := filter (λ e, e ≠ (t, i)) (WaitListHead ob) |>) s)
  end.

(** [KiRemoveTreeTimer]: the timer leaves the list of the table it is on. *)
Definition KiRemoveTreeTimer (o : oid) (s : KSTATE) : option KSTATE :=
  tm ← Timers s !! o;
  Some (s <| Timers := <[o := tm <| Inserted := false |>]> (Timers s) |>
          <| KiTimerTable := filter (λ x, x ≠ o) <$> KiTimerTable s |>).

(** The new priority and quantum of a thread whose wait is satisfied:
    [Increment] boosts a thread of the variable class, and the wait is charged
    to its quantum ([KiWaitQuantumDecrement] is 1). *)
Definition WAIT_QUANTUM_DECREMENT : Z := 1.

Definition boost_priority (th : KTHREAD) (Increment : Z) : KTHREAD :=
  if PriorityDecrement th =? 0 then
    let NewPriority := s32 (BasePriority th + Increment) in
    if Priority th <? NewPriority then
      if LOW_REALTIME_PRIORITY <=? NewPriority
      then th <| Priority := LOW_REALTIME_PRIORITY - 1 |>
      else th <| Priority := s8 NewPriority |>
    else th
  else th.

Definition charge_wait (th : KTHREAD) (ThreadQuantum : Z) : KTHREAD :=
  if TIME_CRITICAL_PRIORITY_BOUND <=? BasePriority th then th <| Quantum := ThreadQuantum |>
  else
    let th := th <| Quantum := s8 (Quantum th - WAIT_QUANTUM_DECREMENT) |> in
    if Quantum th <=? 0 then
      let th := th <| Quantum := ThreadQuantum |>
                   <| Priority := s8 (Priority th - (PriorityDecrement th + 1)) |> in
      let th := if Priority th <? BasePriority th
                then th <| Priority := BasePriority th |> else th in
      th <| PriorityDecrement := 0 |>
    else th.

Definition unwait_priority (th : KTHREAD) (ThreadQuantum Increment : Z) : KTHREAD :=
  if Priority th <? LOW_REALTIME_PRIORITY
  then charge_wait (boost_priority th Increment) ThreadQuantum
  else th <| Quantum := ThreadQuantum |>.

(** Everything [KiUnwaitThread] does before it readies the thread. *)
Definition unwait_prepare (t : tid) (Status Increment : Z) (s : KSTATE) : option KSTATE :=
  th ← Threads s !! t;
  n ← array_get (KeWaitReason s) (WaitReason th);
  reasons ← array_set (KeWaitReason s) (WaitReason th) (n -u 1);
  let s := s <| KeWaitReason := reasons |> in
  let th := th <| WaitStatus := Z.lor (WaitStatus th) Status |> in
  s ← remove_blocks t 0 (WaitBlockList th) s;
  let s := s <| KiWaitInList := remove_thread t (KiWaitInList s) |>
             <| KiWaitOutList := remove_thread t (KiWaitOutList s) |> in
  tm ← Timers s !! ThreadTimer t;
  s ← (if Inserted tm then KiRemoveTreeTimer (ThreadTimer t) s else Some s);
  s ← match Queue th with
      | Some q =>
          qu ← Queues s !! q;
          Some (s <| Queues := <[q := qu <| CurrentCount := CurrentCount qu +u 1 |>]> (Queues s) |>)
      | None => Some s
      end;
  pr ← Processes s !! Process th;
  Some (put_thread t (unwait_priority th (ThreadQuantum pr) Increment) s).

(** ** KiWaitTest *)

(** The wait block after [WaitEntry] in a wait list, [WaitEntry] being a block
    of the list or ([None]) the list head; the result is [None] when the block
    is not in the list (its links are stale), [Some None] at the end. *)
Fixpoint after_entry (e : wait_entry) (l : list wait_entry) : option (option wait_entry) :=
  match l with
  | [] => None
  | x :: l => if decide (x = e) then Some (head l) else after_entry e l
  end.

Definition Flink (prev : option wait_entry) (l : list wait_entry) : option (option wait_entry) :=
  match prev with
  | None => Some (head l)
  | Some e => after_entry e l
  end.

(** The condition a wait all imposes on one of its other wait blocks. *)
Definition block_signaled (t : tid) (s : KSTATE) (b : KWAIT_BLOCK) : option bool :=
  if WaitKey b =? STATUS_TIMEOUT then Some true else
  ob ← Objects s !! WaitObject b;
  Some (match Body ob with
        | MutantObject OwnerThread _ _ =>
            if (SignalState ob <=? 0) && negb (bool_decide (OwnerThread = Some t)) then false
            else if SignalState ob <=? 0 then false else true
        | _ => if SignalState ob <=? 0 then false else true
        end).

Fixpoint all_signaled (t : tid) (s : KSTATE) (bs : list KWAIT_BLOCK) : option bool :=
  match bs with
  | [] => Some true
  | b :: bs => r ← block_signaled t s b; if r : bool then all_signaled t s bs else Some false
  end.

(** Whether the wait of thread [t] can be satisfied through its block [i], on an
    object that is signaled. *)
Definition can_satisfy (t : tid) (i : nat) (s : KSTATE) : option bool :=
  th ← Threads s !! t;
  b ← WaitBlockList th !! i;
  if decide (WaitType b = WaitAny) then Some true
  else all_signaled t s (drop (S i) (WaitBlockList th) ++ take i (WaitBlockList th)).

Section test_loop.

(** [KiReadyThread]. *)
Variable ready : tid → KSTATE → option KSTATE.

Definition unwait_thread (t : tid) (Status Increment : Z) (s : KSTATE) : option KSTATE :=
  s ← unwait_prepare t Status Increment s; ready t s.

(** The loop of [KiWaitTest]: [prev] is the entry before [WaitEntry]. *)
Fixpoint wait_test_loop (fuel : nat) (o : oid) (Increment : Z) (prev : option wait_entry)
    (s : KSTATE) : option KSTATE :=
  match fuel with
  | O => None
  | S fuel =>
      ob ← Objects s !! o;
      entry ← Flink prev (WaitListHead ob);
      match entry with
      | None => Some s
      | Some (t, i) =>
          if SignalState ob <=? 0 then Some s else
          th ← Threads s !! t;
          b ← WaitBlockList th !! i;
          ok ← can_satisfy t i s;
          if ok : bool then
            s ← (if decide (WaitType b = WaitAny) then KiWaitSatisfyAny o t s
                 else KiWaitSatisfy t i s);
            s ← unwait_thread t (WaitKey b) Increment s;
            wait_test_loop fuel o Increment prev s
          else wait_test_loop fuel o Increment (Some (t, i)) s
      end
  end.

(** Each turn either removes a block from the wait list or moves past one. *)
Definition wait_test (o : oid) (Increment : Z) (s : KSTATE) : option KSTATE :=
  ob ← Objects s !! o;
  wait_test_loop (S (length (WaitListHead ob))) o Increment None s.

End test_loop.

(** Tests of the swap event nested to a depth of at most [depth]. *)
Fixpoint test_swap_event (depth : nat) (s : KSTATE) : option KSTATE :=
  match depth with
  | O => None
  | S depth => wait_test (ready_thread2 (test_swap_event depth)) KiSwapEvent BALANCE_INCREMENT s
  end.

(** A nested test wakes a waiter of the swap event before it can lead to
    another, so their number bounds the depth. *)
Definition swap_depth (s : KSTATE) : nat :=
  match Objects s !! KiSwapEvent with
  | Some ev => S (length (WaitListHead ev))
  | None => O
  end.

Definition KiReadyThread (t : tid) (s : KSTATE) : option KSTATE :=
  ready_thread2 (test_swap_event (swap_depth s)) t s.

Definition KiUnwaitThread (t : tid) (Status Increment : Z) (s : KSTATE) : option KSTATE :=
  unwait_thread (ready_thread2 (test_swap_event (swap_depth s))) t Status Increment s.

Definition KiWaitTest (o : oid) (Increment : Z) (s : KSTATE) : option KSTATE :=
  wait_test (ready_thread2 (test_swap_event (swap_depth s))) o Increment s.

Definition KiSetPriorityThread (t : tid) (Priority : Z) (s : KSTATE) : option KSTATE :=
  set_priority_thread (test_swap_event (swap_depth s)) t Priority s.

Definition KiSwapContext (t : tid) (ReadyFlag : bool) (s : KSTATE) : option KSTATE :=
  swap_context (test_swap_event (swap_depth s)) t ReadyFlag s.

Definition KiUnlockDispatcherDatabase (OldIrql : Z) (s : KSTATE) : option KSTATE :=
  unlock_dispatcher (test_swap_event (swap_depth s)) OldIrql s.

(** [KiLockDispatcherDatabase] raises the interrupt level and returns the old
    one. *)
Definition KiLockDispatcherDatabase (s : KSTATE) : KSTATE * Z :=
  (s <| Irql := DISPATCH_LEVEL |>, Irql s).
