(* ===== verification/KeInv.v ===== *)
(** * The invariants of the dispatcher database

    What holds whenever the dispatcher lock is free, in four groups: the ready
    queues and the selected thread ([sched_inv], [dispatch_ok]), the wait lists
    ([wait_inv]), the dispatcher objects and their owners ([object_inv]), and the
    fields of each thread ([thread_inv]).

    Inside the dispatcher a thread can be between two queues. The invariants are
    therefore relative to a set [E] of such threads, which are on no list; and
    [wait_inv] is relative to a set [P] of wait blocks that may be satisfiable
    although their thread still waits, which is empty when the lock is free. *)

From stdpp Require Import base list numbers option gmap sets.
From S2P Require Import Prelude KeState KeSched KeWait.

(** ** Views of a thread: what each group of invariants depends on *)

Definition sched_view (s : KSTATE) (t : tid) : option (KTHREAD_STATE * bool * Z) :=
  (λ th, (State th, ProcessReadyQueue th, Priority th)) <$> Threads s !! t.

Definition wait_view (s : KSTATE) (t : tid) : option (KTHREAD_STATE * list KWAIT_BLOCK) :=
  (λ th, (State th, WaitBlockList th)) <$> Threads s !! t.

Definition ready_queue (s : KSTATE) (p : Z) : option (list tid) :=
  array_get (KiDispatcherReadyListHead s) p.

Definition excluded (t : tid) (E : tid → Prop) : tid → Prop := λ t', t' = t ∨ E t'.

(** ** The ready queues *)

Record sched_inv (E : tid → Prop) (s : KSTATE) : Prop := {
  (** there are 32 queues *)
  si_length : zlen (KiDispatcherReadyListHead s) = MAXIMUM_PRIORITY;
  (** the summary has a bit for each queue that is not empty *)
  si_summary : is_u32 (KiReadySummary s);
  si_bits p q : ready_queue s p = Some q →
    Z.testbit (KiReadySummary s) p = bool_decide (q ≠ []);
  (** the queue of a priority holds the ready threads of that priority, once *)
  si_queue p q t : ready_queue s p = Some q →
    t ∈ q ↔ ¬ E t ∧ sched_view s t = Some (Ready, false, p);
  si_nodup p q : ready_queue s p = Some q → NoDup q;
  (** the standby thread is the one selected to run next *)
  si_next t : NextThread s = Some t ↔
    ¬ E t ∧ ∃ r p, sched_view s t = Some (Standby, r, p);
  (** only the current thread runs; the idle thread is never in another state *)
  si_running t r p : ¬ E t → sched_view s t = Some (Running, r, p) →
    t = CurrentThread s ∨ t = IdleThread s;
  si_current : is_Some (sched_view s (CurrentThread s))
}.

(** The thread that has the processor next: the selected one, or the current
    one. *)
Definition top_thread (s : KSTATE) : tid := default (CurrentThread s) (NextThread s).

(** No ready thread has a higher priority than the thread that has the processor
    next; when the processor idles no thread is ready. *)
Definition none_above (s : KSTATE) (p : Z) : Prop :=
  ∀ p' q, p < p' → ready_queue s p' = Some q → q = [].

Definition dispatch_ok (s : KSTATE) : Prop :=
  if KiIdleSummary s =? 0
  then ∃ st r p, sched_view s (top_thread s) = Some (st, r, p) ∧ none_above s p
  else NextThread s = None ∧ none_above s (-1).

(** ** The wait lists *)

Definition signaled (s : KSTATE) (o : oid) : Prop :=
  ∃ ob, Objects s !! o = Some ob ∧ 0 < SignalState ob ∧ Body ob ≠ QueueObject.

(** [KiWaitTest] can satisfy the wait of a thread with wait blocks [bs] through block
    [i]. This is its own test, which does not count a mutant that the thread owns; the
    invariant needs it, and the theorems on missed wakeups are stated with the test of
    the wait services instead ([KeCalls.wait_ready]). *)
Definition satisfiable (s : KSTATE) (bs : list KWAIT_BLOCK) (i : nat) : Prop :=
  ∃ b, bs !! i = Some b ∧ signaled s (WaitObject b) ∧
    (WaitType b = WaitAny ∨
     ∀ j b', j ≠ i → bs !! j = Some b' → WaitKey b' ≠ STATUS_TIMEOUT →
       signaled s (WaitObject b')).

(** Block [i] depends on object [o]: it is on [o], or it is a wait all with
    another block on [o]. *)
Definition depends (bs : list KWAIT_BLOCK) (i : nat) (o : oid) : Prop :=
  ∃ b, bs !! i = Some b ∧
    (WaitObject b = o ∨
     WaitType b = WaitAll ∧
     ∃ j b', j ≠ i ∧ bs !! j = Some b' ∧ WaitKey b' ≠ STATUS_TIMEOUT ∧ WaitObject b' = o).

(** The wait blocks of a wait of thread [t]: a wait all has distinct objects and,
    besides its own blocks, at most a block for the thread's timer; a thread's timer
    is only waited for by the thread. *)
Record blocks_wf (t : tid) (bs : list KWAIT_BLOCK) : Prop := {
  bw_nonempty : bs ≠ [];
  bw_all i j b b' : bs !! i = Some b → bs !! j = Some b' → WaitType b = WaitAll →
    WaitKey b ≠ STATUS_TIMEOUT ∧ WaitObject b ≠ ThreadTimer t ∧
    (WaitType b' = WaitAny → WaitObject b' = ThreadTimer t ∧ WaitKey b' = STATUS_TIMEOUT);
  bw_distinct i b : bs !! i = Some b → WaitType b = WaitAll → NoDup (WaitObject <$> bs);
  bw_timer i b t' : bs !! i = Some b → WaitObject b = ThreadTimer t' → t' = t
}.

Definition waits (E : tid → Prop) (s : KSTATE) (t : tid) (bs : list KWAIT_BLOCK) : Prop :=
  ¬ E t ∧ wait_view s t = Some (Waiting, bs).

Record wait_inv (E : tid → Prop) (P : tid → list KWAIT_BLOCK → nat → Prop) (s : KSTATE) :
    Prop := {
  (** an object's wait list holds the wait blocks on it of waiting threads, once *)
  wi_list o ob t i : Objects s !! o = Some ob →
    (t, i) ∈ WaitListHead ob ↔ ∃ bs b, waits E s t bs ∧ bs !! i = Some b ∧ WaitObject b = o;
  wi_nodup o ob : Objects s !! o = Some ob → NoDup (WaitListHead ob);
  wi_object t bs i b : waits E s t bs → bs !! i = Some b → is_Some (Objects s !! WaitObject b);
  wi_blocks t bs : waits E s t bs → blocks_wf t bs;
  (** the swap event exists, and is waited for alone *)
  wi_swap : ∃ ev, Objects s !! KiSwapEvent = Some ev ∧ Body ev = SynchronizationEvent;
  wi_alone t bs i b : waits E s t bs → bs !! i = Some b → WaitObject b = KiSwapEvent →
    bs = [b] ∧ WaitType b = WaitAny;
  (** no waiting thread could go on, but for those in [P] *)
  wi_sat t bs i : waits E s t bs → satisfiable s bs i → P t bs i
}.

Definition nobody : tid → list KWAIT_BLOCK → nat → Prop := λ _ _ _, False.
Definition or_depends (P : tid → list KWAIT_BLOCK → nat → Prop) (o : oid) :
    tid → list KWAIT_BLOCK → nat → Prop := λ t bs i, P t bs i ∨ depends bs i o.

(** ** Objects and owners *)

Definition signal_ok (ob : KOBJECT) : Prop :=
  match Body ob with
  | NotificationEvent | SynchronizationEvent => 0 ≤ SignalState ob ≤ 1
  | SemaphoreObject Limit => 0 ≤ SignalState ob ≤ Limit ∧ Limit < 2 ^ 31
  | MutantObject OwnerThread _ _ =>
      MINLONG ≤ SignalState ob ≤ 1 ∧ (OwnerThread = None ↔ SignalState ob = 1)
  | _ => True
  end.

Definition owned_by (s : KSTATE) (o : oid) (t : tid) : Prop :=
  ∃ ob a d, Objects s !! o = Some ob ∧ Body ob = MutantObject (Some t) a d.

Record object_inv (s : KSTATE) : Prop := {
  (** the signal state is in the range of the object's type, and a mutant is
      free exactly when it has no owner *)
  oi_signal o ob : Objects s !! o = Some ob → signal_ok ob;
  (** a thread's mutant list holds the mutants it owns, once *)
  oi_mutants t th o : Threads s !! t = Some th → o ∈ MutantList th ↔ owned_by s o t;
  oi_owner o t : owned_by s o t → is_Some (Threads s !! t);
  oi_nodup t th : Threads s !! t = Some th → NoDup (MutantList th);
  oi_timer t ob : Objects s !! ThreadTimer t = Some ob → Body ob = TimerObject
}.

(** ** Threads *)

Record thread_ok (s : KSTATE) (t : tid) (th : KTHREAD) : Prop := {
  to_priority : 0 ≤ Priority th ≤ HIGH_PRIORITY;
  to_base : 0 ≤ BasePriority th ≤ HIGH_PRIORITY;
  to_decrement : 0 ≤ PriorityDecrement th ≤ HIGH_PRIORITY;
  to_process : is_Some (Processes s !! Process th);
  to_timer : is_Some (Timers s !! ThreadTimer t);
  to_queue q : Queue th = Some q → is_Some (Queues s !! q);
  to_reason : 0 ≤ WaitReason th < zlen (KeWaitReason s);
  to_swapped : ProcessReadyQueue th = true → State th = Ready
}.

Definition thread_inv (s : KSTATE) : Prop :=
  ∀ t th, Threads s !! t = Some th → thread_ok s t th.

(** The current thread is on no list and is not selected to run next. *)
Definition current_ok (s : KSTATE) : Prop :=
  NextThread s ≠ Some (CurrentThread s) ∧
  ∃ th, Threads s !! CurrentThread s = Some th ∧ State th ≠ Waiting ∧
        ProcessReadyQueue th = false.

(** The invariant of the dispatcher database. *)
Record inv (E : tid → Prop) (P : tid → list KWAIT_BLOCK → nat → Prop) (s : KSTATE) : Prop := {
  inv_sched : sched_inv E s;
  inv_dispatch : dispatch_ok s;
  inv_wait : wait_inv E P s;
  inv_object : object_inv s;
  inv_thread : thread_inv s;
  inv_current : current_ok s
}.

Definition unlocked : tid → Prop := λ _, False.

Definition runs (s : KSTATE) (t : tid) : Prop :=
  ∃ th, Threads s !! t = Some th ∧ State th = Running.

(** The idle thread runs at dispatch level only. *)
Definition idle_level (s : KSTATE) : Prop :=
  (∀ th, Threads s !! IdleThread s = Some th → DISPATCH_LEVEL ≤ WaitIrql th) ∧
  (CurrentThread s = IdleThread s → DISPATCH_LEVEL ≤ Irql s).

(** The invariant with no thread between two lists. *)
Record dispatcher (P : tid → list KWAIT_BLOCK → nat → Prop) (s : KSTATE) : Prop := {
  dk_inv : inv unlocked P s;
  dk_current : runs s (CurrentThread s);
  dk_idle : runs s (IdleThread s);
  dk_level : idle_level s
}.
Arguments dk_inv {P} s _.
Arguments dk_current {P} s _.
Arguments dk_idle {P} s _.
Arguments dk_level {P} s _.

(** The invariant whenever a thread executes outside the dispatcher: no waiting
    thread could go on. *)
Definition dispatcher_ok (s : KSTATE) : Prop := dispatcher nobody s.

(** The state of an object changed: waits that depend on it may have become
    satisfiable. *)
Definition signaled_ok (o : oid) (s : KSTATE) : Prop := dispatcher (or_depends nobody o) s.
