(* ===== verification/KeReady.v ===== *)
(** * Readying threads keeps the invariants

    Lemmas on the scheduler: the ready queues, [KiFindReadyThread] and
    [KiReadyThread]. *)

From stdpp Require Import base list numbers option gmap sets.
From S2P Require Import Prelude KeState KeSched KeWait KeInv.

(** ** How the views change *)

Lemma sched_view_put t th s t' :
  sched_view (put_thread t th s) t' =
    if decide (t' = t) then Some (State th, ProcessReadyQueue th, Priority th)
    else sched_view s t'.
Proof.
  unfold sched_view. simpl. destruct (decide (t' = t)) as [->|].
  - by rewrite lookup_insert_eq.
  - by rewrite lookup_insert_ne by done.
Qed.

Lemma wait_view_put t th s t' :
  wait_view (put_thread t th s) t' =
    if decide (t' = t) then Some (State th, WaitBlockList th) else wait_view s t'.
Proof.
  unfold wait_view. simpl. destruct (decide (t' = t)) as [->|].
  - by rewrite lookup_insert_eq.
  - by rewrite lookup_insert_ne by done.
Qed.

Lemma Threads_put t th s t' :
  Threads (put_thread t th s) !! t' = if decide (t' = t) then Some th else Threads s !! t'.
Proof.
  simpl. destruct (decide (t' = t)) as [->|].
  - by rewrite lookup_insert_eq.
  - by rewrite lookup_insert_ne by done.
Qed.

Lemma Objects_put o ob s o' :
  Objects (put_object o ob s) !! o' = if decide (o' = o) then Some ob else Objects s !! o'.
Proof.
  simpl. destruct (decide (o' = o)) as [->|].
  - by rewrite lookup_insert_eq.
  - by rewrite lookup_insert_ne by done.
Qed.

Lemma sched_view_Some s t th :
  Threads s !! t = Some th →
  sched_view s t = Some (State th, ProcessReadyQueue th, Priority th).
Proof. unfold sched_view. by intros ->. Qed.

Lemma wait_view_Some s t th :
  Threads s !! t = Some th → wait_view s t = Some (State th, WaitBlockList th).
Proof. unfold wait_view. by intros ->. Qed.

(** ** Invariants that do not see a change *)

(** The states in which the scheduler keeps a thread on one of its lists. *)
Definition listed (st : KTHREAD_STATE) (r : bool) : Prop :=
  match st with Ready => r = false | Standby | Running => True | _ => False end.

Lemma sched_inv_ext E E' s s' :
  KiDispatcherReadyListHead s' = KiDispatcherReadyListHead s →
  KiReadySummary s' = KiReadySummary s → NextThread s' = NextThread s →
  CurrentThread s' = CurrentThread s → IdleThread s' = IdleThread s →
  (∀ t st r p, listed st r →
     ¬ E t ∧ sched_view s t = Some (st, r, p) ↔ ¬ E' t ∧ sched_view s' t = Some (st, r, p)) →
  is_Some (sched_view s' (CurrentThread s)) →
  sched_inv E s → sched_inv E' s'.
Proof.
  intros Hq Hsum Hn Hc Hid Hv Hcur [? ? Hb Hin ? Hnext Hrun ?].
  split; unfold ready_queue in *; rewrite ?Hq, ?Hsum, ?Hn, ?Hc, ?Hid; auto.
  - intros p q t Hp. rewrite (Hin p q t Hp). by apply Hv.
  - intros t. rewrite Hnext. split.
    + intros (HE & r & p & H). destruct (proj1 (Hv t Standby r p I) (conj HE H)); eauto.
    + intros (HE & r & p & H). destruct (proj2 (Hv t Standby r p I) (conj HE H)); eauto.
  - intros t r p HE H. apply (Hrun t r p); apply (proj2 (Hv t Running r p I) (conj HE H)).
Qed.

Lemma wait_inv_ext E E' P s s' :
  Objects s' = Objects s → (∀ t bs, waits E' s' t bs ↔ waits E s t bs) →
  wait_inv E P s → wait_inv E' P s'.
Proof.
  intros Ho Hw [Hl Hnd Hob Hbl Hsw Hal Hsat].
  split; rewrite ?Ho; try (intros; rewrite ?Hw in *; eauto; fail).
  - intros o ob t i Hg. rewrite (Hl o ob t i Hg). by setoid_rewrite Hw.
  - intros t bs i Hwt Hs. apply (Hsat t bs i); [by apply Hw|].
    unfold satisfiable, signaled in *. by rewrite Ho in Hs.
Qed.

Lemma object_inv_ext s s' :
  Objects s' = Objects s →
  (∀ t, MutantList <$> Threads s' !! t = MutantList <$> Threads s !! t) →
  object_inv s → object_inv s'.
Proof.
  intros Ho Hm [Hs Hmu How Hnd Ht].
  assert (Hth : ∀ t th', Threads s' !! t = Some th' →
    ∃ th, Threads s !! t = Some th ∧ MutantList th = MutantList th').
  { intros t th' H. specialize (Hm t). rewrite H in Hm. simpl in Hm.
    destruct (Threads s !! t) as [th|]; simpl in Hm; [|done].
    injection Hm as Hm. eauto. }
  split; rewrite ?Ho; auto.
  - intros t th' o (th & H & <-)%Hth. rewrite (Hmu t th o H).
    unfold owned_by. by rewrite Ho.
  - intros o t Hot. apply (fmap_is_Some MutantList). rewrite Hm. apply fmap_is_Some.
    apply (How o). revert Hot. unfold owned_by. by rewrite Ho.
  - intros t th' (th & H & <-)%Hth. eauto.
Qed.

(** [P] may grow. *)
Lemma wait_inv_weaken E (P P' : tid → list KWAIT_BLOCK → nat → Prop) s :
  (∀ t bs i, waits E s t bs → P t bs i → P' t bs i) → wait_inv E P s → wait_inv E P' s.
Proof. intros HP [? ? ? ? ? ? Hsat]. split; eauto. Qed.

(** ** Queues and the summary *)

Lemma testbit_SetMember p x i :
  0 ≤ p → 0 ≤ i → Z.testbit (SetMember p x) i = Z.testbit x i || (i =? p).
Proof.
  intros Hp Hi. unfold SetMember.
  rewrite Z.lor_spec, Z.shiftl_1_l, Z.pow2_bits_eqb by done.
  by rewrite (Z.eqb_sym p i).
Qed.

Lemma testbit_ClearMember p x i :
  0 ≤ p → 0 ≤ i → Z.testbit (ClearMember p x) i = Z.testbit x i && negb (i =? p).
Proof.
  intros Hp Hi. unfold ClearMember.
  rewrite Z.land_spec, Z.lnot_spec, Z.shiftl_1_l, Z.pow2_bits_eqb by done.
  by rewrite (Z.eqb_sym p i).
Qed.

Lemma SetMember_u32 p x : 0 ≤ p < 32 → is_u32 x → is_u32 (SetMember p x).
Proof.
  unfold is_u32. intros Hp Hx.
  assert (0 ≤ SetMember p x) by (apply Z.lor_nonneg; rewrite Z.shiftl_1_l; lia).
  split; [done|]. apply bits_bound; [lia|done|]. intros i Hi.
  rewrite testbit_SetMember, (testbit_high x 32) by lia. simpl. lia.
Qed.

Lemma ClearMember_u32 p x : 0 ≤ p → is_u32 x → is_u32 (ClearMember p x).
Proof.
  unfold is_u32. intros Hp Hx.
  assert (0 ≤ ClearMember p x) by (apply Z.land_nonneg; lia).
  split; [done|]. apply bits_bound; [lia|done|]. intros i Hi.
  by rewrite testbit_ClearMember, (testbit_high x 32) by lia.
Qed.

Lemma ready_queue_get E s p :
  sched_inv E s → 0 ≤ p ≤ HIGH_PRIORITY → ∃ q, ready_queue s p = Some q.
Proof.
  intros Hi Hp. apply array_get_Some. rewrite (si_length _ _ Hi).
  unfold MAXIMUM_PRIORITY. unfold HIGH_PRIORITY in Hp. lia.
Qed.

Lemma ready_queue_range E s p q :
  sched_inv E s → ready_queue s p = Some q → 0 ≤ p < 32.
Proof.
  intros Hi Hq%array_get_range. by rewrite (si_length _ _ Hi) in Hq.
Qed.

Lemma put_ready_Some s p l q :
  ready_queue s p = Some q →
  ∃ a, put_ready p l s = Some (s <| KiDispatcherReadyListHead := a |>) ∧
    zlen a = zlen (KiDispatcherReadyListHead s) ∧
    ∀ p', array_get a p' = if p' =? p then Some l else ready_queue s p'.
Proof.
  intros Hq%array_get_range. eexists. unfold put_ready.
  rewrite array_set_Some by done. split; [done|].
  pose proof (array_set_Some _ _ l Hq) as Ha. split.
  - by eapply array_set_length.
  - intros p'. by rewrite (array_get_set _ _ _ p' _ Ha).
Qed.

(** A thread between queues enters the queue of its priority. *)
Lemma sched_enqueue E t th s p q q' a :
  sched_inv (excluded t E) s → ¬ E t → State th = Ready → ProcessReadyQueue th = false →
  Priority th = p → ready_queue s p = Some q →
  NoDup q' → (∀ x, x ∈ q' ↔ x = t ∨ x ∈ q) → zlen a = 32 →
  (∀ p', array_get a p' = if p' =? p then Some q' else ready_queue s p') →
  sched_inv E (put_thread t th s <| KiDispatcherReadyListHead := a |>
                 <| KiReadySummary := SetMember p (KiReadySummary s) |>).
Proof.
  intros Hi HE Hst Hr Hp Hq Hnd Hin Hlen Hget.
  pose proof (ready_queue_range _ _ _ _ Hi Hq) as Hrange.
  assert (Hview : ∀ x, sched_view (put_thread t th s <| KiDispatcherReadyListHead := a |>
                 <| KiReadySummary := SetMember p (KiReadySummary s) |>) x =
            if decide (x = t) then Some (Ready, false, p) else sched_view s x).
  { intros x. rewrite <- Hst, <- Hr, <- Hp. exact (sched_view_put t th s x). }
  destruct Hi as [Hl Hs Hb Hiq Hn Hnx Hru Hc].
  split; unfold ready_queue; simpl; try setoid_rewrite Hview; auto.
  - by apply SetMember_u32.
  - intros p' q0 Hg. rewrite Hget in Hg. destruct (Z.eqb_spec p' p) as [->|Hne].
    + injection Hg as <-. rewrite testbit_SetMember, Z.eqb_refl, orb_true_r by lia.
      symmetry. apply bool_decide_eq_true_2. intros ->.
      destruct (Hin t) as [_ Ht]. specialize (Ht (or_introl eq_refl)). by apply elem_of_nil in Ht.
    + pose proof (array_get_range _ _ _ Hg) as Hr'.
      rewrite testbit_SetMember, (proj2 (Z.eqb_neq _ _) Hne), orb_false_r by lia.
      by apply Hb.
  - intros p' q0 x Hg. rewrite Hget in Hg. destruct (Z.eqb_spec p' p) as [->|Hne].
    + injection Hg as <-. rewrite Hin, (Hiq _ _ _ Hq). unfold excluded.
      destruct (decide (x = t)) as [->|]; [|tauto]. split; [done|by left].
    + rewrite (Hiq _ _ _ Hg). unfold excluded.
      destruct (decide (x = t)) as [->|]; [|tauto]. split; [tauto|].
      intros [_ [= ]]. congruence.
  - intros p' q0 Hg. rewrite Hget in Hg. destruct (Z.eqb_spec p' p); [congruence|eauto].
  - intros x. rewrite Hnx. unfold excluded.
    destruct (decide (x = t)) as [->|]; [|tauto]. split; [tauto|].
    by intros (_ & ? & ? & [=]).
  - intros x r p'. destruct (decide (x = t)) as [->|]; [done|].
    intros HEx Hv. apply (Hru x r p'); [unfold excluded; tauto|done].
  - destruct (decide (CurrentThread s = t)); eauto.
Qed.

(** A ready thread leaves its queue. *)
Lemma sched_dequeue E t s p q q' a :
  sched_inv E s → ready_queue s p = Some q → t ∈ q →
  NoDup q' → (∀ x, x ∈ q' ↔ x ≠ t ∧ x ∈ q) → zlen a = 32 →
  (∀ p', array_get a p' = if p' =? p then Some q' else ready_queue s p') →
  sched_inv (excluded t E)
    (let s' := s <| KiDispatcherReadyListHead := a |> in
     if decide (q' = []) then s' <| KiReadySummary := ClearMember p (KiReadySummary s') |> else s').
Proof.
  intros Hi Hq Htq Hnd Hin Hlen Hget.
  pose proof (ready_queue_range _ _ _ _ Hi Hq) as Hrange.
  pose proof (proj1 (si_queue _ _ Hi _ _ _ Hq) Htq) as [HE Hvt].
  match goal with |- sched_inv _ ?x => set (s' := x) end.
  assert (Hf : KiDispatcherReadyListHead s' = a ∧ NextThread s' = NextThread s ∧
    CurrentThread s' = CurrentThread s ∧ IdleThread s' = IdleThread s ∧
    (∀ x, sched_view s' x = sched_view s x) ∧
    is_u32 (KiReadySummary s') ∧
    (∀ i, 0 ≤ i → Z.testbit (KiReadySummary s') i =
            if i =? p then bool_decide (q' ≠ []) else Z.testbit (KiReadySummary s) i)).
  { pose proof (si_bits _ _ Hi _ _ Hq) as Hbit.
    rewrite bool_decide_eq_true_2 in Hbit by (intros ->; by apply elem_of_nil in Htq).
    unfold s'. destruct (decide (q' = [])) as [->|Hne]; (do 5 (split; [done|])); split.
    - apply ClearMember_u32; [lia|]. apply (si_summary _ _ Hi).
    - intros i Hi0. simpl. rewrite testbit_ClearMember by lia.
      destruct (i =? p); simpl; [by rewrite andb_false_r|by rewrite andb_true_r].
    - apply (si_summary _ _ Hi).
    - intros i Hi0. simpl. destruct (Z.eqb_spec i p) as [->|]; [|done].
      by rewrite bool_decide_eq_true_2. }
  clearbody s'. destruct Hf as (Ha & HN & HC & HI & Hv & Hu & Hbits).
  destruct Hi as [Hl Hs Hb Hiq Hn Hnx Hru Hc].
  split; unfold ready_queue; rewrite ?Ha, ?HN, ?HC, ?HI; try setoid_rewrite Hv; auto.
  - intros p' q0 Hg. pose proof (array_get_range _ _ _ Hg). rewrite Hbits by lia.
    rewrite Hget in Hg. destruct (p' =? p); [by injection Hg as <-|eauto].
  - intros p' q0 x Hg. rewrite Hget in Hg. unfold excluded.
    destruct (Z.eqb_spec p' p) as [->|Hne].
    + injection Hg as <-. rewrite Hin, (Hiq _ _ _ Hq). tauto.
    + rewrite (Hiq _ _ _ Hg). split; [|tauto].
      intros [? Hx]. split; [|done]. intros [->|]; [|done]. congruence.
  - intros p' q0 Hg. rewrite Hget in Hg. destruct (p' =? p); [congruence|eauto].
  - intros x. rewrite Hnx. unfold excluded. split.
    + intros (? & r & p' & Hx). split; [|eauto]. intros [->|]; [|done]. congruence.
    + intros (? & ?). split; [tauto|done].
  - intros x r p' HEx. apply Hru. unfold excluded in HEx. tauto.
Qed.

(** ** KiFindReadyThread *)

(** Taking the first thread off the queue of priority [p]. *)
Definition dequeued (s : KSTATE) (p : Z) (t : tid) (rest : list tid) (s' : KSTATE) : Prop :=
  ready_queue s p = Some (t :: rest) ∧
  ∃ a, zlen a = 32 ∧
    (∀ p', array_get a p' = if p' =? p then Some rest else ready_queue s p') ∧
    s' = (let s' := s <| KiDispatcherReadyListHead := a |> in
          if decide (rest = [])
          then s' <| KiReadySummary := ClearMember p (KiReadySummary s') |> else s').

Lemma dequeued_inv E s p t rest s' :
  sched_inv E s → dequeued s p t rest s' → sched_inv (excluded t E) s'.
Proof.
  intros Hi (Hq & a & Hlen & Hget & ->).
  pose proof (si_nodup _ _ Hi _ _ Hq) as [Hnt Hnd]%NoDup_cons.
  eapply sched_dequeue; try done.
  - apply elem_of_cons; by left.
  - intros x. rewrite elem_of_cons. split; [|tauto].
    intros Hx. split; [by intros ->|by right].
Qed.

Lemma testbit_top (ps h : Z) :
  0 ≤ ps → 0 ≤ h → (∀ i, h < i → Z.testbit ps i = false) →
  Z.shiftr ps h = Z.b2z (Z.testbit ps h).
Proof.
  intros Hps Hh Hhi. apply Z.bits_inj_iff'. intros i Hi. rewrite Z.shiftr_spec by lia.
  destruct (Z.eqb_spec i 0) as [->|Hne].
  - by rewrite Z.b2z_bit0.
  - rewrite Hhi by lia. destruct (Z.testbit ps h); simpl.
    + symmetry. apply (testbit_high 1 1); lia.
    + by rewrite Z.bits_0.
Qed.

(** The priority set of the loop once every level above [h] has been examined. *)
Definition levels (s : KSTATE) (lo h ps : Z) : Prop :=
  is_u32 ps ∧ ∀ i, 0 ≤ i →
    Z.testbit ps i = (lo <=? i) && (i <=? h) && Z.testbit (KiReadySummary s) i.

Lemma levels_next s lo h ps :
  0 ≤ h → levels s lo h ps → Z.testbit ps h = false → levels s lo (h - 1) ps.
Proof.
  intros Hh [? Hb] Hf. split; [done|]. intros i Hi. rewrite Hb by done.
  destruct (Z.eqb_spec i h) as [->|].
  - rewrite Hb in Hf by done. rewrite Z.leb_refl in Hf.
    rewrite (proj2 (Z.leb_gt h (h - 1))), Z.leb_refl by lia.
    destruct (lo <=? h), (Z.testbit (KiReadySummary s) h); done.
  - do 2 f_equal. apply Z.b2z_inj. destruct (Z.leb_spec i h), (Z.leb_spec i (h - 1)); lia.
Qed.

Lemma levels_empty E s lo h ps p q :
  sched_inv E s → 0 ≤ lo → levels s lo h ps → ps = 0 → lo ≤ p ≤ h →
  ready_queue s p = Some q → q = [].
Proof.
  intros Hi Hlo [_ Hb] -> Hp Hq.
  pose proof (si_bits _ _ Hi _ _ Hq) as Hbit.
  specialize (Hb p ltac:(lia)). rewrite Z.bits_0 in Hb.
  rewrite !(proj2 (Z.leb_le _ _)) in Hb by lia. simpl in Hb.
  destruct q; [done|]. rewrite <- Hb in Hbit.
  symmetry in Hbit. apply bool_decide_eq_false in Hbit. by destruct Hbit.
Qed.

(** [None] when no queue between the two priorities has a thread; else the first
    thread of the highest such queue that has one. *)
Definition find_result (s : KSTATE) (lo h : Z) (r : option (KSTATE * option tid)) : Prop :=
  (r = Some (s, None) ∧ ∀ p q, lo ≤ p ≤ h → ready_queue s p = Some q → q = []) ∨
  (∃ p t rest s', r = Some (s', Some t) ∧ lo ≤ p ≤ h ∧ dequeued s p t rest s' ∧
     ∀ p' q, p < p' ≤ h → ready_queue s p' = Some q → q = []).

Lemma find_ready_loop_ok E s lo fuel : ∀ h ps,
  sched_inv E s → 0 ≤ lo → 0 ≤ h < 32 → levels s lo h ps → h < Z.of_nat fuel →
  find_result s lo h (find_ready_loop fuel ps h s).
Proof.
  induction fuel as [|fuel IH]; intros h ps Hi Hlo Hh Hps Hfuel; [lia|].
  cbn [find_ready_loop].
  assert (Hhigh : ∀ i, h < i → Z.testbit ps i = false).
  { intros i Hlt. rewrite (proj2 Hps) by lia. rewrite (proj2 (Z.leb_gt i h)) by lia.
    by rewrite andb_false_r. }
  destruct Hps as [Hu Hb] eqn:Heq. clear Heq.
  rewrite testbit_top by (unfold is_u32 in Hu; auto; lia).
  destruct (Z.testbit ps h) eqn:Hbit; simpl.
  - pose proof (Hb h ltac:(lia)) as Hbh. rewrite Hbit in Hbh. symmetry in Hbh.
    apply andb_true_iff in Hbh as [[Hle%Z.leb_le _]%andb_true_iff Hsum].
    destruct (ready_queue_get E s h Hi) as [q Hq]; [unfold HIGH_PRIORITY; lia|].
    pose proof (si_bits _ _ Hi _ _ Hq) as Hne. rewrite Hsum in Hne. symmetry in Hne.
    apply bool_decide_eq_true in Hne. destruct q as [|t rest]; [done|].
    unfold ready_queue in Hq. rewrite Hq. simpl.
    destruct (put_ready_Some s h rest _ Hq) as (a & -> & Hlen & Hget). simpl.
    right. exists h, t, rest. eexists. split; [done|]. split; [lia|]. split; [|lia].
    split; [done|]. exists a. rewrite (si_length _ _ Hi) in Hlen. done.
  - destruct (Z.eqb_spec ps 0) as [Hz|Hnz].
    + left. split; [done|]. intros p q Hp Hq. by apply (levels_empty E s lo h ps p q).
    + assert (h ≠ 0).
      { intros ->. apply Hnz, Z.bits_inj_iff'. intros i Hi0. rewrite Z.bits_0.
        destruct (Z.eqb_spec i 0) as [->|]; [done|]. apply Hhigh. lia. }
      pose proof (levels_next s lo h ps ltac:(lia) Hps Hbit) as Hps'.
      assert (Hempty : ∀ q, lo ≤ h → ready_queue s h = Some q → q = []).
      { intros q Hle Hq. specialize (Hb h ltac:(lia)). rewrite Hbit in Hb.
        rewrite (si_bits _ _ Hi _ _ Hq), !(proj2 (Z.leb_le _ _)) in Hb by lia.
        simpl in Hb. symmetry in Hb. by apply bool_decide_eq_false, dec_stable in Hb. }
      destruct (IH (h - 1) ps Hi Hlo ltac:(lia) Hps' ltac:(lia)) as
        [[Hr Hnone]|(p & t & rest & s' & Hr & Hp & Hd & Habove)].
      * left. split; [done|]. intros p q Hp Hq.
        destruct (Z.eq_dec p h) as [->|]; [apply Hempty; [lia|done]|]. apply (Hnone p); [lia|done].
      * right. exists p, t, rest, s'. split; [done|]. split; [lia|]. split; [done|].
        intros p' q Hp' Hq. destruct (Z.eq_dec p' h) as [->|]; [apply Hempty; [lia|done]|].
        apply (Habove p'); [lia|done].
Qed.

Lemma priority_set_levels E s h lo :
  sched_inv E s → 0 ≤ lo → 0 ≤ h < 32 → levels s lo h (priority_set h lo (KiReadySummary s)).
Proof.
  intros Hi Hlo Hh. pose proof (si_summary _ _ Hi) as Hu. unfold is_u32 in Hu.
  assert (Hb : ∀ i, 0 ≤ i → Z.testbit (priority_set h lo (KiReadySummary s)) i =
                (lo <=? i) && (i <=? h) && Z.testbit (KiReadySummary s) i).
  { intros i Hi0. unfold priority_set. rewrite !Z.shiftl_1_l.
    rewrite <- (Z.ones_equiv h : Z.ones h = 2 ^ h - 1), <- (Z.ones_equiv lo : Z.ones lo = 2 ^ lo - 1).
    rewrite !Z.land_spec, Z.lor_spec, Z.lnot_spec, Z.pow2_bits_eqb by lia.
    rewrite !Z.testbit_ones by lia.
    destruct (Z.testbit (KiReadySummary s) i); rewrite ?andb_false_r, ?andb_true_r; [|done].
    destruct (Z.leb_spec 0 i), (Z.ltb_spec i h), (Z.eqb_spec h i), (Z.ltb_spec i lo),
      (Z.leb_spec lo i), (Z.leb_spec i h); try lia; done. }
  split; [|done]. assert (0 ≤ priority_set h lo (KiReadySummary s)).
  { unfold priority_set. apply Z.land_nonneg. right. lia. }
  split; [done|]. apply bits_bound; [lia|done|]. intros i Hi0.
  rewrite Hb by lia. rewrite (proj2 (Z.leb_gt i h)) by lia. by rewrite andb_false_r.
Qed.

Lemma KiFindReadyThread_ok E s h lo :
  sched_inv E s → 0 ≤ lo → 0 ≤ h ≤ HIGH_PRIORITY → find_result s lo h (KiFindReadyThread h lo s).
Proof.
  unfold HIGH_PRIORITY. intros Hi Hlo Hh. unfold KiFindReadyThread.
  pose proof (si_length _ _ Hi) as Hlen. unfold zlen, MAXIMUM_PRIORITY in Hlen.
  apply (find_ready_loop_ok E); [done..|lia| |lia].
  apply (priority_set_levels E); [done..|lia].
Qed.
