(* ===== verification/KeFrame.v ===== *)
(** * Readying a thread: [KiReadyThread] keeps the invariants

    Also what it leaves alone ([frame]): it changes no dispatcher object but the
    swap event, and wakes no thread that does not wait for the swap event. *)

From stdpp Require Import base list numbers option gmap sets.
From S2P Require Import Prelude KeState KeSched KeWait KeInv KeReady.

(** ** What readying threads leaves alone *)

Record kept (th th' : KTHREAD) : Prop := {
  k_blocks : WaitBlockList th' = WaitBlockList th;
  k_mutants : MutantList th' = MutantList th;
  k_apc : KernelApcDisable th' = KernelApcDisable th;
  k_base : BasePriority th' = BasePriority th;
  k_next : WaitNext th' = WaitNext th;
  k_irql : WaitIrql th' = WaitIrql th
}.

Definition on_swap_event (th : KTHREAD) : Prop :=
  ∃ i b, WaitBlockList th !! i = Some b ∧ WaitObject b = KiSwapEvent.

Definition swap_waiters (s : KSTATE) : nat :=
  match Objects s !! KiSwapEvent with Some ev => length (WaitListHead ev) | None => 0 end.

(** From [s] to [s'] no dispatcher object changes but the swap event, which does
    not get more waiters; and of the waiting threads only those in [X] and
    those that wait for the swap event change. *)
Record frame (X : tid → Prop) (s s' : KSTATE) : Prop := {
  fr_current : CurrentThread s' = CurrentThread s;
  fr_idle : IdleThread s' = IdleThread s;
  fr_irql : Irql s' = Irql s;
  fr_objects o : o ≠ KiSwapEvent → Objects s' !! o = Objects s !! o;
  fr_waiters : (swap_waiters s' ≤ swap_waiters s)%nat;
  fr_threads t th : Threads s !! t = Some th → ∃ th', Threads s' !! t = Some th' ∧
    kept th th' ∧
    (State th = Waiting → ¬ X t → ¬ on_swap_event th → th' = th) ∧
    (State th ≠ Waiting → State th' ≠ Waiting ∧ WaitStatus th' = WaitStatus th) ∧
    (State th = Running → ¬ X t → State th' = Running)
}.

Definition no_thread : tid → Prop := λ _, False.

#[export] Instance kept_po : PreOrder kept.
Proof.
  split; [by split|]. intros a b c [] []. split; congruence.
Qed.

Lemma frame_refl X s : frame X s s.
Proof. split; auto. intros t th H. by exists th. Qed.

Lemma frame_trans X s1 s2 s3 : frame X s1 s2 → frame X s2 s3 → frame X s1 s3.
Proof.
  intros [? ? ? Ho1 ? Ht1] [? ? ? Ho2 ? Ht2]. split; try congruence; try lia.
  - intros o Hne. by rewrite Ho2, Ho1.
  - intros t th H1. destruct (Ht1 _ _ H1) as (th2 & H2 & K1 & W1 & N1 & R1).
    destruct (Ht2 _ _ H2) as (th3 & H3 & K2 & W2 & N2 & R2).
    exists th3. split; [done|]. split; [by etrans|]. split; [|split].
    + intros HW HX Hs. specialize (W1 HW HX Hs) as ->. by apply W2.
    + intros HW. destruct (N1 HW) as [? <-]. auto.
    + auto.
Qed.

Lemma frame_weaken (X Y : tid → Prop) s s' :
  (∀ t, X t → Y t) → frame X s s' → frame Y s s'.
Proof.
  intros HXY [? ? ? ? ? Ht]. split; auto. intros t th H.
  destruct (Ht _ _ H) as (th' & ? & ? & ? & ? & ?). exists th'. split_and!; auto.
Qed.

(** Threads that neither wait nor run need no exemption. *)
Lemma frame_drop (X Y : tid → Prop) s s' :
  (∀ t th, X t → Threads s !! t = Some th → State th ≠ Waiting ∧ State th ≠ Running) →
  frame X s s' → frame Y s s'.
Proof.
  intros HX [? ? ? ? ? Ht]. split; auto. intros t th H.
  destruct (Ht _ _ H) as (th' & ? & ? & Hw & ? & Hr). exists th'. split_and!; auto.
  - intros Hst _ Hsw. apply Hw; auto. intros HXt. by destruct (HX t th HXt H).
  - intros Hst _. apply Hr; auto. intros HXt. by destruct (HX t th HXt H).
Qed.

(** Storing a thread record. *)
Lemma frame_put_thread (X : tid → Prop) t th th' s :
  Threads s !! t = Some th → kept th th' →
  X t ∨ State th ≠ Waiting ∧ State th' = State th →
  State th' ≠ Waiting ∨ State th = Waiting →
  (State th ≠ Waiting → WaitStatus th' = WaitStatus th) →
  frame X s (put_thread t th' s).
Proof.
  intros Ht Hk HX HW HS. split; auto. intros x thx Hx. rewrite Threads_put.
  destruct (decide (x = t)) as [->|]; [|by exists thx].
  replace thx with th by congruence. exists th'. split; [done|]. split; [done|].
  split; [|split; [naive_solver|]].
  - intros Hw Hnx. destruct HX as [|[? _]]; contradiction.
  - intros Hr Hnx. destruct HX as [|[_ ->]]; done.
Qed.

(** ** Satisfiability when signal states change *)

(** A mutant can change owner; nothing else of an object's body changes. *)
Definition same_kind (b b' : KBODY) : Prop :=
  match b, b' with
  | MutantObject _ _ d, MutantObject _ _ d' => d' = d
  | MutantObject _ _ _, _ => False
  | _, _ => b' = b
  end.

(** The object is not more signaled than before. *)
Record object_le (ob ob' : KOBJECT) : Prop := {
  ol_list : WaitListHead ob' = WaitListHead ob;
  ol_kind : same_kind (Body ob) (Body ob');
  ol_signal : SignalState ob' ≤ SignalState ob;
  ol_notification : Body ob = NotificationEvent → SignalState ob' = SignalState ob
}.

Definition objects_le (s s' : KSTATE) : Prop :=
  ∀ o, option_Forall2 object_le (Objects s !! o) (Objects s' !! o).

#[export] Instance same_kind_po : PreOrder same_kind.
Proof.
  split; [by intros []|]. intros a b c. destruct a, b; simpl; try done; destruct c; simpl;
    try done; congruence.
Qed.

Lemma same_kind_sync b b' : same_kind b b' → b = SynchronizationEvent ↔ b' = SynchronizationEvent.
Proof. destruct b, b'; simpl; intros; simplify_eq; done. Qed.

Lemma same_kind_queue b b' : same_kind b b' → b = QueueObject ↔ b' = QueueObject.
Proof. destruct b, b'; simpl; intros; simplify_eq; done. Qed.

Lemma same_kind_notification b b' :
  same_kind b b' → b = NotificationEvent ↔ b' = NotificationEvent.
Proof. destruct b, b'; simpl; intros; simplify_eq; done. Qed.

#[export] Instance object_le_po : PreOrder object_le.
Proof.
  split; [by split|]. intros a b c [? Kab ? Nab] [? Kbc ? Nbc].
  split; [congruence|by etrans|lia|]. intros Ha. rewrite Nbc, Nab; [done..|].
  by apply (same_kind_notification _ _ Kab).
Qed.

Lemma signaled_le s s' o : objects_le s s' → signaled s' o → signaled s o.
Proof.
  intros Hle (ob' & Ho & Hs & Hb). specialize (Hle o). rewrite Ho in Hle.
  inversion Hle as [ob ? [_ Hk Hsg _] Heq|]; subst. exists ob. split; [done|].
  split; [lia|]. by rewrite (same_kind_queue _ _ Hk).
Qed.

Lemma satisfiable_le s s' bs i : objects_le s s' → satisfiable s' bs i → satisfiable s bs i.
Proof.
  intros Hle (b & Hb & Hs & Hrest). exists b. split; [done|].
  split; [by eapply signaled_le|]. destruct Hrest as [?|Hrest]; [by left|right].
  intros. eapply signaled_le; eauto.
Qed.

(** Signal states only go down: nobody becomes satisfiable. *)
Lemma wait_inv_le E P s s' :
  objects_le s s' → (∀ t bs, waits E s' t bs ↔ waits E s t bs) →
  wait_inv E P s → wait_inv E P s'.
Proof.
  intros Hle Hw [Hl Hnd Hob Hbl Hsw Hal Hsat].
  assert (Hback : ∀ o ob', Objects s' !! o = Some ob' →
            ∃ ob, Objects s !! o = Some ob ∧ WaitListHead ob' = WaitListHead ob).
  { intros o ob' Ho. specialize (Hle o). rewrite Ho in Hle.
    inversion Hle as [ob ? [? _ _ _] Heq|]; subst. eauto. }
  split.
  - intros o ob' t i (ob & Ho & ->)%Hback. rewrite (Hl o ob t i Ho). by setoid_rewrite Hw.
  - intros o ob' (ob & Ho & ->)%Hback. eauto.
  - intros t bs i b Hwt%Hw Hb. destruct (Hob _ _ _ _ Hwt Hb) as [ob Ho].
    specialize (Hle (WaitObject b)). rewrite Ho in Hle. inversion Hle. eauto.
  - intros t bs Hwt%Hw. eauto.
  - destruct Hsw as (ev & Ho & Hev). specialize (Hle KiSwapEvent). rewrite Ho in Hle.
    inversion Hle as [? ob' [_ H _ _]|]; subst. exists ob'. split; [done|].
    by apply (same_kind_sync _ _ H).
  - intros t bs i b Hwt%Hw. eauto.
  - intros t bs i Hwt%Hw Hs. eapply Hsat; [done|]. by eapply satisfiable_le.
Qed.

Lemma depends_or bs i o : depends bs i o ∨ ¬ depends bs i o.
Proof.
  unfold depends. destruct (bs !! i) as [b|] eqn:Hb; [|right; naive_solver].
  destruct (decide (WaitObject b = o)); [left; eauto|].
  destruct (decide (WaitType b = WaitAll)); [|right; naive_solver].
  destruct (decide (Exists (λ p : nat * KWAIT_BLOCK, p.1 ≠ i ∧ WaitKey p.2 ≠ STATUS_TIMEOUT ∧
                       WaitObject p.2 = o) (imap pair bs))) as [He|Hn].
  - left. apply Exists_exists in He as ([j b'] & (k & x & Heq & Hk)%elem_of_lookup_imap & ? & ? & ?).
    simplify_eq/=. eauto 15.
  - right. intros (b0 & [= <-] & [?|(_ & j & b' & ? & Hj & ? & ?)]); [done|].
    apply Hn, Exists_exists. exists (j, b'). split; [|done].
    apply elem_of_lookup_imap. eauto.
Qed.

(** One object changes its signal state: only waits that depend on it can become
    satisfiable. *)
Lemma wait_inv_signal E P s o ob ob' :
  Objects s !! o = Some ob → WaitListHead ob' = WaitListHead ob →
  (Body ob = SynchronizationEvent → Body ob' = SynchronizationEvent) →
  wait_inv E P s → wait_inv E (or_depends P o) (put_object o ob' s).
Proof.
  intros Ho Hwl Hbody [Hl Hnd Hob Hbl Hsw Hal Hsat].
  assert (Hback : ∀ o0 ob0, Objects (put_object o ob' s) !! o0 = Some ob0 →
            ∃ ob, Objects s !! o0 = Some ob ∧ WaitListHead ob0 = WaitListHead ob).
  { intros o0 ob0. rewrite Objects_put. destruct (decide (o0 = o)) as [->|]; [|eauto].
    intros [= <-]. eauto. }
  split.
  - intros o0 ob0 t i (ob1 & H & ->)%Hback. apply (Hl o0 ob1 t i H).
  - intros o0 ob0 (ob1 & H & ->)%Hback. eauto.
  - intros t bs i b Hwt Hb. rewrite Objects_put. destruct (decide _); eauto.
  - apply Hbl.
  - destruct Hsw as (ev & Hev & HB). rewrite Objects_put.
    destruct (decide (KiSwapEvent = o)) as [<-|]; [|eauto].
    eexists. split; [done|]. apply Hbody. congruence.
  - apply Hal.
  - intros t bs i Hwt (b & Hb & Hs & Hrest).
    destruct (depends_or bs i o) as [|Hnd']; [by right|left]. apply (Hsat t bs i Hwt).
    assert (Hsig : ∀ x, x ≠ o → signaled (put_object o ob' s) x → signaled s x).
    { intros x Hne. unfold signaled. rewrite Objects_put. by rewrite decide_False. }
    exists b. split; [done|]. split.
    + apply Hsig; [|done]. intros Heq. apply Hnd'. exists b. eauto.
    + destruct Hrest as [|Hrest]; [by left|]. destruct (WaitType b) eqn:Hty; [right|by left].
      intros j b' Hj Hb' Hk. apply Hsig; [|by eauto]. intros Heq. apply Hnd'.
      exists b. split; [done|]. right. eauto 10.
Qed.

(** ** Changes the other invariants do not see *)

Lemma sched_inv_same E s s' :
  Threads s' = Threads s → KiDispatcherReadyListHead s' = KiDispatcherReadyListHead s →
  KiReadySummary s' = KiReadySummary s → NextThread s' = NextThread s →
  CurrentThread s' = CurrentThread s → IdleThread s' = IdleThread s →
  sched_inv E s → sched_inv E s'.
Proof.
  intros Ht Hq Hs Hn Hc Hid Hi.
  assert (Hv : ∀ x, sched_view s' x = sched_view s x) by (intros; unfold sched_view; by rewrite Ht).
  eapply sched_inv_ext; eauto.
  - intros t st r p _. by rewrite Hv.
  - rewrite Hv. apply (si_current _ _ Hi).
Qed.

Lemma dispatch_ok_top s s' :
  sched_view s' (top_thread s) = sched_view s (top_thread s) →
  KiDispatcherReadyListHead s' = KiDispatcherReadyListHead s → NextThread s' = NextThread s →
  CurrentThread s' = CurrentThread s → KiIdleSummary s' = KiIdleSummary s →
  dispatch_ok s → dispatch_ok s'.
Proof.
  intros Hv Hq Hn Hc Hi. unfold dispatch_ok, none_above, ready_queue.
  unfold top_thread in *. by rewrite Hi, Hn, Hc, Hq, Hv.
Qed.

Lemma dispatch_ok_same s s' :
  (∀ x, sched_view s' x = sched_view s x) →
  KiDispatcherReadyListHead s' = KiDispatcherReadyListHead s → NextThread s' = NextThread s →
  CurrentThread s' = CurrentThread s → KiIdleSummary s' = KiIdleSummary s →
  dispatch_ok s → dispatch_ok s'.
Proof.
  intros Hv. apply dispatch_ok_top, Hv.
Qed.

Lemma wait_inv_same E P s s' :
  Threads s' = Threads s → Objects s' = Objects s → wait_inv E P s → wait_inv E P s'.
Proof.
  intros Ht Ho. apply wait_inv_ext; [done|]. intros t bs. unfold waits, wait_view.
  by rewrite Ht.
Qed.

Lemma object_inv_same s s' :
  Threads s' = Threads s → Objects s' = Objects s → object_inv s → object_inv s'.
Proof. intros Ht Ho. apply object_inv_ext; [done|]. intros t. by rewrite Ht. Qed.

Definition tables_kept (s s' : KSTATE) : Prop :=
  (∀ p, is_Some (Processes s !! p) → is_Some (Processes s' !! p)) ∧
  (∀ o, is_Some (Timers s !! o) → is_Some (Timers s' !! o)) ∧
  (∀ o, is_Some (Queues s !! o) → is_Some (Queues s' !! o)) ∧
  zlen (KeWaitReason s') = zlen (KeWaitReason s).

Lemma thread_ok_kept s s' t th : tables_kept s s' → thread_ok s t th → thread_ok s' t th.
Proof. intros (? & ? & ? & Hz) []. split; rewrite ?Hz; eauto. Qed.

Lemma thread_inv_kept s s' :
  Threads s' = Threads s → tables_kept s s' → thread_inv s → thread_inv s'.
Proof. intros Ht Hk Hi t th. rewrite Ht. intros H. eapply thread_ok_kept; eauto. Qed.

Lemma thread_inv_put s t th : thread_inv s → thread_ok s t th → thread_inv (put_thread t th s).
Proof.
  intros Hi Hok x thx. rewrite Threads_put.
  destruct (decide (x = t)) as [->|]; [intros [= <-]|intros H%Hi];
    eapply thread_ok_kept; eauto; by split_and!.
Qed.

(** Scheduling fields of a thread do not matter to [thread_ok] otherwise. *)
Lemma thread_ok_state s t th th' :
  thread_ok s t th → Priority th' = Priority th → BasePriority th' = BasePriority th →
  PriorityDecrement th' = PriorityDecrement th → Process th' = Process th →
  Queue th' = Queue th → WaitReason th' = WaitReason th →
  (ProcessReadyQueue th' = true → State th' = Ready) → thread_ok s t th'.
Proof. intros [] E1 E2 E3 E4 E5 E6 ?. split; rewrite ?E1, ?E2, ?E3, ?E4, ?E5, ?E6; auto. Qed.

Lemma object_inv_put_thread s t th th' :
  object_inv s → Threads s !! t = Some th → MutantList th' = MutantList th →
  object_inv (put_thread t th' s).
Proof.
  intros Hi Ht Hm. apply (object_inv_ext s); [done| |done]. intros x. rewrite Threads_put.
  destruct (decide (x = t)) as [->|]; [|done]. rewrite Ht. simpl. by rewrite Hm.
Qed.

Lemma object_inv_signal s o ob ob' :
  object_inv s → Objects s !! o = Some ob → Body ob' = Body ob → signal_ok ob' →
  object_inv (put_object o ob' s).
Proof.
  intros [Hs Hm How Hn Ht] Ho Hb Hok.
  assert (Hown : ∀ x t, owned_by (put_object o ob' s) x t ↔ owned_by s x t).
  { intros x t. unfold owned_by. rewrite Objects_put.
    destruct (decide (x = o)) as [->|]; [|done]. rewrite Ho.
    split; intros (? & a & d & [= <-] & ?); eexists _, a, d; (split; [done|]); congruence. }
  split; auto.
  - intros x obx. rewrite Objects_put. destruct (decide (x = o)); [intros [= <-]|]; eauto.
  - intros t th x H. rewrite Hown. by apply Hm.
  - intros x t Hx%Hown. by apply (How x).
  - intros t obx. rewrite Objects_put. destruct (decide _) as [<-|]; [|eauto].
    intros [= <-]. rewrite Hb. eauto.
Qed.

(** ** Setting the swap event *)

(** What a test of the swap event promises [KiReadyThread]: it satisfies the
    waits for it, when there are at most [n] of them. *)
Definition swap_spec (test : KSTATE → option KSTATE) (n : nat) : Prop :=
  ∀ E P s, inv E (or_depends P KiSwapEvent) s → (0 < swap_waiters s ≤ n)%nat →
    ∃ s', test s = Some s' ∧ inv E P s' ∧ frame no_thread s s'.

Lemma depends_on_list E P s t bs i o ob :
  wait_inv E P s → Objects s !! o = Some ob → waits E s t bs → depends bs i o →
  WaitListHead ob ≠ [].
Proof.
  intros Hi Ho Hw (b & Hb & Hd) Hnil.
  assert (∃ j b', bs !! j = Some b' ∧ WaitObject b' = o) as (j & b' & Hj & Hobj).
  { destruct Hd as [?|(_ & j & b' & _ & ? & _ & ?)]; eauto. }
  assert ((t, j) ∈ WaitListHead ob) as Hin by (apply (wi_list _ _ _ Hi _ _ _ _ Ho); eauto).
  rewrite Hnil in Hin. by apply elem_of_nil in Hin.
Qed.

(** One object changes its signal state. *)
Lemma inv_signal E P s o ob ob' :
  inv E P s → Objects s !! o = Some ob → WaitListHead ob' = WaitListHead ob →
  Body ob' = Body ob → signal_ok ob' → inv E (or_depends P o) (put_object o ob' s).
Proof.
  intros [Hs Hd Hw Ho Ht Hc] Hob Hwl Hb Hok. split.
  - by apply (sched_inv_same E s).
  - by apply (dispatch_ok_same s).
  - apply (wait_inv_signal E P s o ob); auto. congruence.
  - by apply (object_inv_signal s _ ob).
  - apply (thread_inv_kept s); [done| |done]. by split_and!.
  - done.
Qed.

(** Nobody waits for the object. *)
Lemma inv_no_waiters E P s o ob :
  inv E (or_depends P o) s → Objects s !! o = Some ob → WaitListHead ob = [] → inv E P s.
Proof.
  intros [? ? Hw ? ? ?] Ho Hnil. split; auto. eapply wait_inv_weaken; [|done].
  intros t bs i Hwt [|Hdep]; [done|]. exfalso.
  by apply (depends_on_list E (or_depends P o) s t bs i o ob).
Qed.

Lemma signal_swap_event_ok test n E P s :
  swap_spec test n → inv E P s → (swap_waiters s ≤ n)%nat →
  ∃ s', signal_swap_event test s = Some s' ∧ inv E P s' ∧ frame no_thread s s'.
Proof.
  intros Hspec Hi Hn. destruct (wi_swap _ _ _ (inv_wait _ _ _ Hi)) as (ev & Hev & Hbody).
  unfold signal_swap_event. rewrite Hev. simpl.
  set (s1 := put_object KiSwapEvent (ev <| SignalState := 1 |>) s).
  assert (Ho1 : Objects s1 !! KiSwapEvent = Some (ev <| SignalState := 1 |>))
    by (unfold s1; by rewrite Objects_put, decide_True).
  assert (H1 : inv E (or_depends P KiSwapEvent) s1).
  { apply (inv_signal E P s KiSwapEvent ev); [done..|]. unfold signal_ok. simpl. rewrite Hbody. lia. }
  assert (Hf : frame no_thread s s1).
  { split; auto.
    - intros o Hne. unfold s1. rewrite Objects_put. by rewrite decide_False.
    - unfold swap_waiters, s1. rewrite Objects_put, decide_True, Hev by done. done.
    - intros t th H. by exists th. }
  assert (Hlen : swap_waiters s1 = length (WaitListHead ev)).
  { unfold swap_waiters, s1. by rewrite Objects_put, decide_True. }
  destruct (decide (WaitListHead ev = [])) as [Hnil|Hne].
  - exists s1. split; [done|]. split; [|done]. by eapply inv_no_waiters.
  - destruct (Hspec E P s1 H1) as (s' & Hr & Hi' & Hf').
    + rewrite Hlen. unfold swap_waiters in Hn. rewrite Hev in Hn.
      destruct (WaitListHead ev); [done|]. simpl in *. lia.
    + exists s'. split; [done|]. split; [done|]. by eapply frame_trans.
Qed.

(** ** KiReadyThread *)

(** The thread record [KiReadyThread] stores differs from the one it read only in
    its state, its preempted flag, its ready-queue flag and its wait time. *)
Record restated (th th' : KTHREAD) : Prop := {
  rs_kept : kept th th';
  rs_priority : Priority th' = Priority th;
  rs_decrement : PriorityDecrement th' = PriorityDecrement th;
  rs_process : Process th' = Process th;
  rs_queue : Queue th' = Queue th;
  rs_reason : WaitReason th' = WaitReason th;
  rs_status : WaitStatus th' = WaitStatus th
}.

Lemma restated_ok s t th th' :
  restated th th' → (ProcessReadyQueue th' = true → State th' = Ready) →
  thread_ok s t th → thread_ok s t th'.
Proof.
  intros [[] ? ? ? ? ? ?] Hr Hok. by apply (thread_ok_state s t th).
Qed.

(** The invariants that only ask whether the thread waits. *)
Lemma leave_wait E P s t th' :
  wait_inv (excluded t E) P s → State th' ≠ Waiting → wait_inv E P (put_thread t th' s).
Proof.
  intros Hi Hst. apply (wait_inv_ext (excluded t E) _ _ s); [done| |done].
  intros x bs. unfold waits, excluded. rewrite wait_view_put.
  destruct (decide (x = t)) as [->|]; [|tauto].
  split; [intros [_ [= ? _]]; done|tauto].
Qed.

Lemma current_ok_put s t th :
  current_ok s → t ≠ CurrentThread s → current_ok (put_thread t th s).
Proof.
  intros (Hn & thc & Hc) Hne. split; [done|]. exists thc. rewrite Threads_put. simpl.
  by rewrite decide_False.
Qed.

Lemma frame_leave t th th' s :
  Threads s !! t = Some th → restated th th' → State th' ≠ Waiting →
  frame (eq t) s (put_thread t th' s).
Proof.
  intros Ht [Hk _ _ _ _ _ Hs] Hst. apply (frame_put_thread _ t th); auto.
Qed.

(** A thread between queues that becomes the standby thread; the one it replaces
    is left between queues. *)
Lemma sched_standby (E1 E : tid → Prop) t th s :
  sched_inv E1 s → E1 t → ¬ E t → (∀ x, x ≠ t → E x ↔ E1 x ∨ NextThread s = Some x) →
  State th = Standby → sched_inv E (put_thread t th s <| NextThread := Some t |>).
Proof.
  intros [Hl Hs Hb Hiq Hn Hnx Hru Hc] HE1 HE HEx Hst.
  assert (Hview : ∀ x, sched_view (put_thread t th s <| NextThread := Some t |>) x =
     if decide (x = t) then Some (Standby, ProcessReadyQueue th, Priority th)
     else sched_view s x) by (intros x; rewrite <- Hst; exact (sched_view_put t th s x)).
  split; unfold ready_queue; simpl; try setoid_rewrite Hview; auto.
  - intros p q x Hg. rewrite (Hiq _ _ _ Hg). destruct (decide (x = t)) as [->|Hne].
    + split; [tauto|]. by intros [_ [=]].
    + rewrite (HEx x Hne), Hnx. split; [|tauto].
      intros [? Hv]. split; [|done]. intros [?|(_ & ? & ? & ?)]; [done|congruence].
  - intros x. destruct (decide (x = t)) as [->|Hne]; [naive_solver|].
    split; [intros [= ?]; congruence|]. intros (Hnot & r & p & Hv). exfalso.
    rewrite (HEx x Hne) in Hnot. apply Hnot. right. apply Hnx. split; [tauto|eauto].
  - intros x r p. destruct (decide (x = t)); [done|]. rewrite (HEx x) by done.
    intros ? Hv. apply (Hru x r p); [tauto|done].
  - destruct (decide (CurrentThread s = t)); eauto.
Qed.

Lemma dispatch_standby s t th p0 :
  none_above s p0 → p0 < Priority th → KiIdleSummary s = 0 →
  dispatch_ok (put_thread t th s <| NextThread := Some t |>).
Proof.
  intros Hno Hlt Hidle. unfold dispatch_ok. simpl. rewrite Hidle. simpl.
  exists (State th), (ProcessReadyQueue th), (Priority th). split.
  - unfold top_thread. simpl. etransitivity; [exact (sched_view_put t th s t)|].
    by rewrite decide_True.
  - intros p' q Hp Hq. apply (Hno p'); [lia|done].
Qed.

(** The priority of the thread that has the processor next. *)
Definition top_priority (s : KSTATE) (p : Z) : Prop :=
  ∃ st r, sched_view s (top_thread s) = Some (st, r, p).

Lemma dispatch_none_above s p :
  dispatch_ok s → KiIdleSummary s = 0 → top_priority s p → none_above s p.
Proof.
  unfold dispatch_ok. intros Hd Hz (st & r & Hp). rewrite Hz in Hd. simpl in Hd.
  destruct Hd as (st' & r' & p' & Hp' & Hno). replace p with p' by congruence. done.
Qed.

Lemma ready_enqueue_ok E P t th th0 wp s p0 :
  inv (excluded t E) P s → Threads s !! t = Some th0 → restated th0 th → ¬ E t →
  t ≠ CurrentThread s →
  ProcessReadyQueue th = false → KiIdleSummary s = 0 → top_priority s p0 →
  Priority th ≤ p0 →
  ∃ s', ready_enqueue t th wp s = Some s' ∧ inv E P s' ∧ frame (eq t) s s' ∧
    Threads s' !! t = Some (th <| State := Ready |>).
Proof.
  intros [Hs Hd Hw Ho Ht Hc] Hth Hre HE Hnc Hr Hidle Htop Hle.
  pose proof (restated_ok s t th0 (th <| State := Ready |>)) as Hok.
  assert (Hre' : restated th0 (th <| State := Ready |>)) by (destruct Hre as [[] ? ? ? ? ? ?]; by split).
  specialize (Hok Hre' ltac:(done) (Ht _ _ Hth)).
  set (th1 := th <| State := Ready |>) in *. set (p := Priority th) in *.
  destruct (ready_queue_get _ s p Hs (to_priority _ _ _ Hok)) as [q Hq].
  set (q' := if wp && (LOW_REALTIME_PRIORITY <=? p) then t :: q else q ++ [t]).
  assert (Htq : t ∉ q).
  { intros Hin. apply (si_queue _ _ Hs _ _ _ Hq) in Hin as [Hx _]. apply Hx. by left. }
  assert (Hq' : NoDup q' ∧ ∀ x, x ∈ q' ↔ x = t ∨ x ∈ q).
  { pose proof (si_nodup _ _ Hs _ _ Hq) as Hnd. unfold q'. destruct (_ && _).
    - split; [by apply NoDup_cons|]. intros x. apply elem_of_cons.
    - split.
      + apply NoDup_app. split; [done|]. split; [|by apply NoDup_singleton].
        intros x Hx ->%list_elem_of_singleton. done.
      + intros x. rewrite elem_of_app, list_elem_of_singleton. tauto. }
  destruct (put_ready_Some (put_thread t th1 s) p q' q Hq) as (a & Hput & Hlen & Hget).
  pose proof (si_length _ _ Hs) as Hlen0.
  assert (Hrun : ready_enqueue t th wp s =
     Some (put_thread t th1 s <| KiDispatcherReadyListHead := a |>
             <| KiReadySummary := SetMember p (KiReadySummary s) |>)).
  { unfold ready_enqueue. fold p th1. unfold ready_queue in Hq. simpl in Hq |- *.
    rewrite Hq. simpl. fold q'. by rewrite Hput. }
  rewrite Hrun. eexists. split; [done|]. split; [split|split].
  - destruct Hq'. eapply sched_enqueue; eauto. by rewrite Hlen.
  - pose proof (dispatch_none_above _ _ Hd Hidle Htop) as Hno.
    unfold dispatch_ok. simpl. rewrite Hidle. simpl. destruct Htop as (st & r & Htop).
    assert (∃ st' r', sched_view (put_thread t th1 s) (top_thread s) = Some (st', r', p0))
      as (st' & r' & Hv).
    { rewrite sched_view_put. destruct (decide (top_thread s = t)) as [Heq|]; [|eauto].
      rewrite Heq, (sched_view_Some _ _ _ Hth) in Htop. eexists _, _. do 2 f_equal.
      change (Priority th = p0). rewrite (rs_priority _ _ Hre). congruence. }
    exists st', r', p0. split; [exact Hv|]. intros p' x Hlt. unfold ready_queue. simpl.
    rewrite Hget. destruct (Z.eqb_spec p' p); [lia|]. apply Hno. lia.
  - apply (wait_inv_same E P (put_thread t th1 s)); [done|done|].
    by apply (leave_wait E P s t th1).
  - apply (object_inv_same (put_thread t th1 s)); [done|done|].
    apply (object_inv_put_thread _ _ th0); [done..|]. apply (k_mutants _ _ (rs_kept _ _ Hre')).
  - apply (thread_inv_kept (put_thread t th1 s)); [done|by split_and!|].
    by apply thread_inv_put.
  - by apply (current_ok_put s t th1).
  - pose proof (frame_leave t th0 th1 s Hth Hre' ltac:(done)) as [].
    split; auto.
  - simpl. by rewrite lookup_insert_eq.
Qed.

(** Of the thread only fields change that no invariant reads; wait blocks are read
    while the thread waits. *)
Record passive (th th' : KTHREAD) : Prop := {
  pv_state : State th' = State th;
  pv_flag : ProcessReadyQueue th' = ProcessReadyQueue th;
  pv_priority : Priority th' = Priority th;
  pv_base : BasePriority th' = BasePriority th;
  pv_decrement : PriorityDecrement th' = PriorityDecrement th;
  pv_process : Process th' = Process th;
  pv_queue : Queue th' = Queue th;
  pv_reason : WaitReason th' = WaitReason th;
  pv_blocks : State th = Waiting → WaitBlockList th' = WaitBlockList th;
  pv_mutants : MutantList th' = MutantList th
}.

Lemma sched_view_passive s t th th' x :
  Threads s !! t = Some th → passive th th' → sched_view (put_thread t th' s) x = sched_view s x.
Proof.
  intros Hth []. rewrite sched_view_put. destruct (decide (x = t)) as [->|]; [|done].
  rewrite (sched_view_Some _ _ _ Hth). congruence.
Qed.

Lemma inv_put_passive E P s t th th' :
  inv E P s → Threads s !! t = Some th → passive th th' → inv E P (put_thread t th' s).
Proof.
  intros [Hs Hd Hw Ho Ht Hc] Hth Hpv.
  assert (Hv : ∀ x, sched_view (put_thread t th' s) x = sched_view s x)
    by (intros x; by apply (sched_view_passive s t th)).
  destruct Hpv as [Hst Hr ? ? ? ? ? ? Hb Hm]. split.
  - apply (sched_inv_ext E E s); auto.
    + intros x st r p _. by rewrite Hv.
    + rewrite Hv. apply (si_current _ _ Hs).
  - by apply (dispatch_ok_same s).
  - apply (wait_inv_ext E E P s); auto. intros x bs. unfold waits. rewrite wait_view_put.
    destruct (decide (x = t)) as [->|]; [|done]. rewrite (wait_view_Some _ _ _ Hth), Hst.
    split; intros [? [= Hws <-]]; (split; [done|]); by rewrite Hws, Hb.
  - by apply (object_inv_put_thread _ _ th).
  - apply thread_inv_put; [done|]. apply (thread_ok_state s t th); auto.
    rewrite Hst, Hr. apply (to_swapped _ _ _ (Ht _ _ Hth)).
  - destruct Hc as (Hn & thc & Hc & Hstc & Hrc). split; [done|]. rewrite Threads_put. simpl.
    destruct (decide (CurrentThread s = t)) as [Heq|]; [|eauto].
    exists th'. rewrite Hst, Hr. rewrite Heq in Hc. simplify_eq. done.
Qed.

Lemma inv_put_same E P s t th th' :
  inv E P s → Threads s !! t = Some th → restated th th' → State th' = State th →
  ProcessReadyQueue th' = ProcessReadyQueue th → inv E P (put_thread t th' s).
Proof.
  intros Hi Hth [[] ? ? ? ? ? ?] Hst Hr. by apply (inv_put_passive E P s t th).
Qed.

Lemma standby_ok E P t th th0 s p0 :
  sched_inv (excluded t E) s → wait_inv (excluded t E) P s → object_inv s → thread_inv s →
  current_ok s → Threads s !! t = Some th0 → restated th0 th → State th = Standby →
  ProcessReadyQueue th = false → ¬ E t → t ≠ CurrentThread s → KiIdleSummary s = 0 →
  none_above s p0 → p0 < Priority th →
  inv (λ x, E x ∨ NextThread s = Some x) P (put_thread t th s <| NextThread := Some t |>).
Proof.
  intros Hs Hw Ho Ht Hc Hth Hre Hst Hr HE Hnc Hidle Hno Hlt.
  assert (Hnt : NextThread s ≠ Some t).
  { intros [Hx _]%(si_next _ _ Hs). apply Hx. by left. }
  split.
  - eapply sched_standby; eauto.
    + by left.
    + tauto.
    + intros x Hne. unfold excluded. tauto.
  - by eapply dispatch_standby.
  - apply (wait_inv_ext E _ P (put_thread t th s)); [done| |].
    + intros x bs. unfold waits. split; [intros [? ?]; split; [tauto|done]|].
      intros [HEx Hv]. split; [|done]. intros [?|Hn]; [done|].
      apply (si_next _ _ Hs) in Hn as Hn'. destruct Hn' as (_ & r & p & Hsv).
      rewrite wait_view_put in Hv. destruct (decide (x = t)) as [->|]; [done|].
      unfold sched_view in Hsv. unfold wait_view in Hv.
      destruct (Threads s !! x); simplify_eq/=; congruence.
    + apply leave_wait; [done|]. by rewrite Hst.
  - apply (object_inv_same (put_thread t th s)); [done|done|].
    apply (object_inv_put_thread _ _ th0); [done..|]. apply (k_mutants _ _ (rs_kept _ _ Hre)).
  - apply (thread_inv_kept (put_thread t th s)); [done|by split_and!|].
    apply thread_inv_put; [done|]. apply (restated_ok s t th0); [done| |by apply Ht].
    by rewrite Hr.
  - split; [simpl; congruence|]. apply (current_ok_put s t th Hc Hnc).
Qed.

Lemma inv_E_iff (E E' : tid → Prop) P s : (∀ t, E t ↔ E' t) → inv E P s → inv E' P s.
Proof.
  intros HE [Hs Hd Hw Ho Ht Hc]. split; auto.
  - apply (sched_inv_ext E E' s); auto.
    + intros. by rewrite HE.
    + apply (si_current _ _ Hs).
  - apply (wait_inv_ext E E' P s); auto. intros. unfold waits. by rewrite HE.
Qed.

(** Fields the invariants do not read. *)
Definition same_database (s s' : KSTATE) : Prop :=
  Threads s' = Threads s ∧ Objects s' = Objects s ∧
  KiDispatcherReadyListHead s' = KiDispatcherReadyListHead s ∧
  KiReadySummary s' = KiReadySummary s ∧ KiIdleSummary s' = KiIdleSummary s ∧
  NextThread s' = NextThread s ∧ CurrentThread s' = CurrentThread s ∧
  IdleThread s' = IdleThread s.

Lemma inv_same E P s s' : same_database s s' → tables_kept s s' → inv E P s → inv E P s'.
Proof.
  intros (Ht & Ho & Hq & Hs & Hi & Hn & Hc & Hid) Hk [? ? ? ? ? Hcur]. split.
  - by apply (sched_inv_same E s).
  - apply (dispatch_ok_same s); auto. intros x. unfold sched_view. by rewrite Ht.
  - by apply (wait_inv_same E P s).
  - by apply (object_inv_same s).
  - by apply (thread_inv_kept s).
  - unfold current_ok. by rewrite Ht, Hc, Hn.
Qed.

Lemma frame_same X s s' :
  same_database s s' → Irql s' = Irql s → frame X s s'.
Proof.
  intros (Ht & Ho & _ & _ & _ & _ & Hc & Hi) Hq. split; auto.
  - intros o _. by rewrite Ho.
  - unfold swap_waiters. by rewrite Ho.
  - intros t th H. exists th. by rewrite Ht.
Qed.

Lemma leave_unlisted E P s t th th' :
  inv (excluded t E) P s → Threads s !! t = Some th → restated th th' →
  t ≠ CurrentThread s →
  ¬ listed (State th') (ProcessReadyQueue th') → State th' ≠ Waiting →
  (ProcessReadyQueue th' = true → State th' = Ready) → inv E P (put_thread t th' s).
Proof.
  intros [Hs Hd Hw Ho Ht Hc] Hth Hre Hnc Hnl Hst Hr. split.
  - apply (sched_inv_ext (excluded t E) E s); auto.
    + intros x st r p Hl. unfold excluded. rewrite sched_view_put.
      destruct (decide (x = t)) as [->|]; [|tauto].
      split; [tauto|]. intros [_ [= ? ? ?]]; subst. done.
    + rewrite sched_view_put. destruct (decide _); [done|]. apply (si_current _ _ Hs).
  - unfold dispatch_ok in *. simpl. destruct (KiIdleSummary s =? 0); [|done].
    destruct Hd as (st & r & p & Hv & Hno).
    assert (∃ st' r', sched_view (put_thread t th' s) (top_thread s) = Some (st', r', p))
      as (st' & r' & Hv').
    { rewrite sched_view_put. destruct (decide (top_thread s = t)) as [Heq|]; [|eauto].
      rewrite Heq, (sched_view_Some _ _ _ Hth) in Hv.
      rewrite (rs_priority _ _ Hre). eexists _, _. do 2 f_equal. congruence. }
    exists st', r', p. done.
  - by apply leave_wait.
  - apply (object_inv_put_thread _ _ th); auto. apply (k_mutants _ _ (rs_kept _ _ Hre)).
  - apply thread_inv_put; [done|]. by apply (restated_ok s t th); auto.
  - by apply current_ok_put.
Qed.

(** The result of readying thread [t], whose record was [th]. *)
Record readied (E : tid → Prop) (P : tid → list KWAIT_BLOCK → nat → Prop) (t : tid)
    (th : KTHREAD) (s s' : KSTATE) : Prop := {
  rd_inv : inv E P s';
  rd_frame : frame (eq t) s s';
  rd_thread : ∃ th', Threads s' !! t = Some th' ∧ kept th th' ∧ State th' ≠ Waiting ∧
    WaitStatus th' = WaitStatus th
}.

(** From a state that is like [s] but for thread [t] to the result. *)
Lemma readied_step E P t th th1 s s1 s' :
  inv E P s' → frame (eq t) s s1 → frame no_thread s1 s' →
  Threads s1 !! t = Some th1 → restated th th1 → State th1 ≠ Waiting →
  readied E P t th s s'.
Proof.
  intros Hi Hf1 Hf2 Ht Hre Hst. split; [done| |].
  - eapply frame_trans; [done|]. by eapply frame_weaken; [|done].
  - destruct (fr_threads _ _ _ Hf2 _ _ Ht) as (th2 & H2 & Hk & _ & Hs & _).
    destruct (Hs Hst) as [? Hws]. exists th2. split; [done|].
    split; [etrans; [apply (rs_kept _ _ Hre)|done]|]. split; [done|].
    by rewrite Hws, (rs_status _ _ Hre).
Qed.

Lemma readied_swap test n E P t th th1 s s1 :
  swap_spec test n → inv E P s1 → (swap_waiters s ≤ n)%nat → frame (eq t) s s1 →
  Threads s1 !! t = Some th1 → restated th th1 → State th1 ≠ Waiting →
  ∃ s', signal_swap_event test s1 = Some s' ∧ readied E P t th s s'.
Proof.
  intros Hspec Hi Hn Hf Ht Hre Hst. pose proof (fr_waiters _ _ _ Hf).
  destruct (signal_swap_event_ok test n E P s1 Hspec Hi ltac:(lia)) as (s' & Hr & Hi' & Hf').
  exists s'. split; [done|]. by eapply readied_step.
Qed.

Lemma tables_kept_process s s' p pr :
  Processes s' = <[p := pr]> (Processes s) → Timers s' = Timers s → Queues s' = Queues s →
  KeWaitReason s' = KeWaitReason s → tables_kept s s'.
Proof.
  intros Hp Ht Hq Hk. split_and!; rewrite ?Ht, ?Hq, ?Hk; try done.
  intros x. rewrite Hp, lookup_insert_is_Some. destruct (decide (p = x)); auto.
Qed.

Section ready_thread.
Variables (test : KSTATE → option KSTATE) (n : nat).
Hypothesis test_spec : swap_spec test n.

(** Either a standby thread can still be preempted, or there is one that will
    not be. *)
Definition enough_fuel (fuel : nat) (th : KTHREAD) (s : KSTATE) : Prop :=
  (2 ≤ fuel)%nat ∨
  fuel = 1%nat ∧ KiIdleSummary s = 0 ∧
    ∃ t1 th1, NextThread s = Some t1 ∧ Threads s !! t1 = Some th1 ∧ Priority th ≤ Priority th1.

(** A thread whose process or kernel stack is out of memory. *)
Lemma ready_not_resident E P t th th1 s s1 :
  inv (excluded t E) P s → Threads s !! t = Some th → ¬ E t → t ≠ CurrentThread s →
  (swap_waiters s ≤ n)%nat → restated th th1 → ¬ listed (State th1) (ProcessReadyQueue th1) → State th1 ≠ Waiting →
  (ProcessReadyQueue th1 = true → State th1 = Ready) →
  same_database (put_thread t th1 s) s1 → tables_kept (put_thread t th1 s) s1 →
  Irql s1 = Irql s →
  readied E P t th s s1 ∧
  ∃ s', signal_swap_event test s1 = Some s' ∧ readied E P t th s s'.
Proof.
  intros Hi Hth HE Hnc Hn Hre Hnl Hst Hr Hsame Hk Hirql.
  assert (Hi1 : inv E P s1).
  { apply (inv_same E P (put_thread t th1 s)); [done|done|]. by apply (leave_unlisted E P s t th). }
  assert (Hf : frame (eq t) s s1).
  { apply (frame_trans _ _ (put_thread t th1 s)); [by apply (frame_leave t th)|].
    by apply frame_same. }
  assert (Ht1 : Threads s1 !! t = Some th1).
  { destruct Hsame as (-> & _). simpl. by rewrite lookup_insert_eq. }
  split.
  - eapply readied_step; eauto. apply frame_refl.
  - by eapply readied_swap.
Qed.

(** What [ready_thread] has to do, stated for its recursive call. *)
Definition readies (fuel : nat) : Prop := ∀ E P t th s,
  inv (excluded t E) P s → Threads s !! t = Some th → ¬ E t → t ≠ CurrentThread s →
  ProcessReadyQueue th = false → (swap_waiters s ≤ n)%nat → enough_fuel fuel th s →
  ∃ s', ready_thread test fuel t s = Some s' ∧ readied E P t th s s'.

Definition preempt (t t1 : tid) (th th1 : KTHREAD) (s : KSTATE) : KSTATE :=
  (put_thread t (th <| State := Standby |>) (put_thread t1 (th1 <| Preempted := true |>) s))
    <| NextThread := Some t |>.

(** The thread becomes the standby thread in place of [t1], the standby or the
    current thread. *)
Lemma preempt_ok E P t t1 th th1 s p0 :
  inv (excluded t E) P s → Threads s !! t = Some th → ¬ E t → t ≠ CurrentThread s →
  ProcessReadyQueue th = false → t1 ≠ t → Threads s !! t1 = Some th1 →
  State th1 ≠ Waiting → none_above s p0 → p0 < Priority th → KiIdleSummary s = 0 →
  inv (λ x, E x ∨ NextThread s = Some x) P (preempt t t1 th th1 s) ∧
  frame (eq t) s (preempt t t1 th th1 s).
Proof.
  intros Hi Hth HE Hnc Hr Hne Ht1 Hst1 Hno Hlt Hidle.
  set (s1 := put_thread t1 (th1 <| Preempted := true |>) s).
  assert (Hi1 : inv (excluded t E) P s1) by (by apply (inv_put_same _ _ s t1 th1)).
  assert (Hth' : Threads s1 !! t = Some th).
  { unfold s1. by rewrite Threads_put, decide_False. }
  assert (Hre : restated th (th <| State := Standby |>)) by (by split).
  split.
  - destruct Hi1 as [Hs1 _ Hw1 Ho1 Htt1 Hc1].
    by apply (standby_ok E P t (th <| State := Standby |>) th s1 p0).
  - apply (frame_trans _ _ s1).
    + apply (frame_put_thread _ t1 th1); auto. by split.
    + apply (frame_trans _ _ (put_thread t (th <| State := Standby |>) s1)).
      * by apply (frame_leave t th).
      * by split; auto; intros x thx H; exists thx.
Qed.

Lemma top_thread_Some E P s :
  inv E P s → ∃ th, Threads s !! top_thread s = Some th ∧ State th ≠ Waiting.
Proof.
  intros Hi. unfold top_thread. destruct (NextThread s) as [t1|] eqn:Hn; simpl.
  - apply (si_next _ _ (inv_sched _ _ _ Hi)) in Hn as (_ & r & p & Hv).
    unfold sched_view in Hv. destruct (Threads s !! t1) as [th|]; [|done].
    exists th. split; [done|]. simpl in Hv. congruence.
  - destruct (inv_current _ _ _ Hi) as (_ & th & ? & ? & _). eauto.
Qed.

Lemma preempt_standby fuel E P t t1 th th1 s :
  readies fuel → inv (excluded t E) P s → Threads s !! t = Some th → ¬ E t →
  (swap_waiters s ≤ n)%nat → enough_fuel (S fuel) th s →
  NextThread s = Some t1 → Threads s !! t1 = Some th1 → t1 ≠ t → KiIdleSummary s = 0 →
  Priority th1 < Priority th →
  inv (λ x, E x ∨ Some t1 = Some x) P (preempt t t1 th th1 s) →
  frame (eq t) s (preempt t t1 th th1 s) →
  ∃ s', ready_thread test fuel t1 (preempt t t1 th th1 s) = Some s' ∧ readied E P t th s s'.
Proof.
  intros IH Hi Hth HE Hn Hfuel Hnx Hth1 Hne Hidle Hlt Hi' Hf'.
  destruct (proj1 (si_next _ _ (inv_sched _ _ _ Hi) _) Hnx) as (HE1 & r & p & Hv).
  rewrite (sched_view_Some _ _ _ Hth1) in Hv. injection Hv as Hst1 _ _.
  assert (Ht1' : Threads (preempt t t1 th th1 s) !! t1 = Some (th1 <| Preempted := true |>)).
  { simpl. rewrite lookup_insert_ne by done. by rewrite lookup_insert_eq. }
  assert (Ht' : Threads (preempt t t1 th th1 s) !! t = Some (th <| State := Standby |>)).
  { simpl. by rewrite lookup_insert_eq. }
  destruct (IH E P t1 (th1 <| Preempted := true |>) (preempt t t1 th th1 s)) as (s' & Hrun & Hrd).
  - eapply inv_E_iff; [|done]. intros x. unfold excluded. simpl.
    split; [intros [|[= ->]]; auto|intros [->|]; auto].
  - done.
  - intros ?. apply HE1. by right.
  - intros Heq. destruct (inv_current _ _ _ Hi) as [Hnn _]. apply Hnn. rewrite Hnx, Heq. done.
  - destruct (ProcessReadyQueue th1) eqn:Hr1; [|done].
    pose proof (to_swapped _ _ _ (inv_thread _ _ _ Hi _ _ Hth1) Hr1). congruence.
  - pose proof (fr_waiters _ _ _ Hf'). lia.
  - destruct Hfuel as [?|(? & _ & t1' & th1' & Hnx' & Hth1' & Hle)].
    + destruct (decide (2 ≤ fuel)%nat); [by left|right]. split; [lia|]. split; [done|].
      exists t, (th <| State := Standby |>). simpl. split; [done|].
      rewrite lookup_insert_eq. split; [done|lia].
    + simplify_eq. lia.
  - exists s'. split; [done|]. destruct Hrd as [Hi2 Hf2 _]. split; [done| |].
    + eapply frame_trans; [done|]. eapply frame_drop; [|done].
      intros x thx <- Hx. rewrite Ht1' in Hx. apply (inj Some) in Hx as <-. simpl.
      by rewrite Hst1.
    + destruct (fr_threads _ _ _ Hf2 _ _ Ht') as (th2 & H2 & Hk & _ & Hs & _).
      destruct (Hs ltac:(done)) as [? Hws]. exists th2. split; [done|].
      split; [|split; [done|by rewrite Hws]]. etrans; [|done]. by split.
Qed.

(** The thread can run at once: the choice between the idle processor, the
    standby thread and the current thread. *)
Lemma ready_resident fuel E P t th wp s :
  readies fuel → inv (excluded t E) P s → Threads s !! t = Some th → ¬ E t →
  t ≠ CurrentThread s → ProcessReadyQueue th = false → (swap_waiters s ≤ n)%nat → enough_fuel (S fuel) th s →
  ∃ s',
    (if negb (KiIdleSummary s =? 0) then
       Some (put_thread t (th <| State := Standby |>)
               (s <| KiIdleSummary := 0 |> <| NextThread := Some t |>))
     else
       th1 ← Threads s !! top_thread s;
       if Priority th1 <? Priority th then
         match NextThread s with
         | Some t1 => ready_thread test fuel t1 (preempt t t1 th th1 s)
         | None => Some (preempt t (CurrentThread s) th th1 s)
         end
       else ready_enqueue t th wp s) = Some s' ∧ readied E P t th s s'.
Proof.
  intros IH Hi Hth HE Hnc Hr Hn Hfuel.
  destruct (Z.eqb_spec (KiIdleSummary s) 0) as [Hidle|Hidle]; cbn [negb].
  - destruct (top_thread_Some _ _ _ Hi) as (th1 & Hth1 & Hst1). rewrite Hth1. cbn [mbind option_bind].
    assert (Htop : top_priority s (Priority th1)).
    { eexists _, _. by apply sched_view_Some. }
    pose proof (dispatch_none_above _ _ (inv_dispatch _ _ _ Hi) Hidle Htop) as Hno.
    destruct (Z.ltb_spec (Priority th1) (Priority th)) as [Hlt|Hge].
    + assert (Hne : top_thread s ≠ t) by (intros Heq; rewrite Heq in Hth1; simplify_eq; lia).
      destruct (preempt_ok E P t (top_thread s) th th1 s _ Hi Hth HE Hnc Hr Hne Hth1 Hst1 Hno Hlt Hidle)
        as [Hi' Hf'].
      unfold top_thread in *. destruct (NextThread s) as [t1|] eqn:Hnx; simpl in *.
      * by apply preempt_standby.
      * eexists. split; [done|]. split; [|done|].
        -- eapply inv_E_iff; [|done]. simpl. intros x. split; [|by left]. by intros [|].
        -- exists (th <| State := Standby |>). split; [|by split].
           simpl. by rewrite lookup_insert_eq.
    + destruct (ready_enqueue_ok E P t th th wp s (Priority th1)) as (s' & Hrun & Hi' & Hf' & Ht');
        try done.
      exists s'. split; [done|]. split; [done..|]. eexists. split; [done|]. by split.
  - pose proof (inv_dispatch _ _ _ Hi) as Hd. unfold dispatch_ok in Hd.
    rewrite (proj2 (Z.eqb_neq _ _) Hidle) in Hd. destruct Hd as [Hnx Hno].
    eexists. split; [done|]. destruct Hi as [Hs Hd Hw Ho Ht Hc].
    pose proof (to_priority _ _ _ (Ht _ _ Hth)) as Hp.
    assert (Hs0 : sched_inv (excluded t E) (s <| KiIdleSummary := 0 |>))
      by (by apply (sched_inv_same _ s)).
    assert (Hw0 : wait_inv (excluded t E) P (s <| KiIdleSummary := 0 |>))
      by (by apply (wait_inv_same _ _ s)).
    assert (Ho0 : object_inv (s <| KiIdleSummary := 0 |>)) by (by apply (object_inv_same s)).
    assert (Ht0 : thread_inv (s <| KiIdleSummary := 0 |>))
      by (apply (thread_inv_kept s); [done|by split_and!|done]).
    split.
    + eapply (inv_E_iff (λ x, E x ∨ NextThread (s <| KiIdleSummary := 0 |>) = Some x)).
      { intros x. simpl. rewrite Hnx. split; [|by left]. by intros [|]. }
      apply (standby_ok E P t (th <| State := Standby |>) th (s <| KiIdleSummary := 0 |>) (-1));
        try done. simpl. lia.
    + apply (frame_trans _ _ (put_thread t (th <| State := Standby |>) s)).
      * by apply (frame_leave t th).
      * by split; auto; intros x thx H; exists thx.
    + exists (th <| State := Standby |>). split; [|by split].
      simpl. by rewrite lookup_insert_eq.
Qed.

Lemma ready_thread_ok fuel : readies fuel.
Proof.
  induction fuel as [|fuel IH]; intros E P t th s Hi Hth HE Hnc Hr Hn Hfuel.
  { destruct Hfuel as [?|[? _]]; lia. }
  set (th1 := th <| Preempted := false |> <| WaitTime := KeTickCount s |>).
  set (s0 := put_thread t th1 s).
  assert (Hre : restated th th1) by (by split).
  assert (Hi0 : inv (excluded t E) P s0) by (by apply (inv_put_same _ _ s t th)).
  assert (Hf0 : frame (eq t) s s0).
  { apply (frame_put_thread _ t th); auto; [apply Hre|].
    change (State th1) with (State th). destruct (decide (State th = Waiting)); auto. }
  assert (Ht0 : Threads s0 !! t = Some th1) by (unfold s0; by rewrite Threads_put, decide_True).
  assert (Hn0 : (swap_waiters s0 ≤ n)%nat) by (pose proof (fr_waiters _ _ _ Hf0); lia).
  assert (Hfuel0 : enough_fuel (S fuel) th1 s0).
  { destruct Hfuel as [?|(? & ? & x & thx & Hx & Hthx & Hle)]; [by left|right].
    split; [done|]. split; [done|].
    exists x, (if decide (x = t) then th1 else thx). split; [done|].
    unfold s0. rewrite Threads_put. destruct (decide (x = t)) as [->|]; [|done]. split; [done|]. simplify_eq. done. }
  assert (∃ s', ready_thread test (S fuel) t s = Some s' ∧ readied E P t th1 s0 s')
    as (s' & Hrun & [Hi' Hf' (th' & Ht' & Hk' & Hst' & Hws')]).
  2:{ exists s'. split; [done|]. split; [done|by eapply frame_trans|].
      exists th'. split; [done|]. split; [by etrans; [apply Hre|]|done]. }
  cbn [ready_thread]. rewrite Hth. cbn [mbind option_bind]. fold th1 s0.
  destruct (to_process _ _ _ (inv_thread _ _ _ Hi0 _ _ Ht0)) as [pr Hpr].
  rewrite Hpr. cbn [mbind option_bind].
  destruct (decide (PrState pr ≠ ProcessInMemory)) as [Hout|_].
  { set (th2 := th1 <| State := Ready |> <| ProcessReadyQueue := true |>).
    match goal with |- context [if decide (PrState ?a = _) then _ else _] => set (pr' := a) end.
    destruct (decide (PrState pr' = ProcessOutOfMemory)).
    - match goal with |- context [signal_swap_event _ ?x] => set (s1 := x) end.
      apply (ready_not_resident E P t th1 th2 s0 s1); try done.
      by eapply tables_kept_process.
    - eexists. split; [done|].
      match goal with |- readied _ _ _ _ _ ?x => apply (ready_not_resident E P t th1 th2 s0 x) end;
        try done. by eapply tables_kept_process. }
  destruct (KernelStackResident th1); cbn [negb].
  2:{ match goal with |- context [signal_swap_event _ ?x] => set (s1 := x) end.
      apply (ready_not_resident E P t th1 (th1 <| State := Transition |>) s0 s1); try done.
      - simpl. tauto.
      - simpl. congruence.
      - by eapply tables_kept_process. }
  pose proof (ready_resident fuel E P t th1 (Preempted th) s0 IH Hi0 Ht0 HE Hnc Hr Hn0 Hfuel0) as Hres.
  change (Priority th) with (Priority th1).
  unfold top_thread in Hres. destruct (NextThread s0); simpl default in Hres; exact Hres.
Qed.

End ready_thread.
