(* ===== verification/KeTest.v ===== *)
(** * Waking waiters: [KiWaitTest] keeps the invariants

    Satisfying a wait, unwaiting its thread, the loop of [KiWaitTest] and the
    closing of the recursion between [KiWaitTest] and [KiReadyThread]. *)

From stdpp Require Import base list numbers option gmap sets.
From S2P Require Import Prelude KeState KeSched KeWait KeInv KeReady KeFrame.

(** ** Side effects of a satisfied wait *)

(** Thread [t] has a wait on [o] satisfied: the object's signal state does not
    grow, no wait list changes, and of the thread only the fields a mutant
    changes. *)
Record satisfied (t : tid) (s s' : KSTATE) : Prop := {
  sf_rest : s' = s <| Threads := Threads s' |> <| Objects := Objects s' |>;
  sf_others x : x ≠ t → Threads s' !! x = Threads s !! x;
  sf_thread : ∃ th a w m, Threads s !! t = Some th ∧ Threads s' !! t =
    Some (th <| KernelApcDisable := a |> <| WaitStatus := w |> <| MutantList := m |>);
  sf_objects : objects_le s s'
}.

Lemma objects_le_refl s : objects_le s s.
Proof. intros o. destruct (Objects s !! o); constructor. reflexivity. Qed.

Lemma objects_le_trans s1 s2 s3 : objects_le s1 s2 → objects_le s2 s3 → objects_le s1 s3.
Proof.
  intros H1 H2 o. specialize (H1 o). specialize (H2 o).
  destruct H1 as [a b Hab|]; inversion H2 as [? c Hbc|]; subst; constructor. by etrans.
Qed.

Lemma objects_le_put s o ob ob' :
  Objects s !! o = Some ob → object_le ob ob' → objects_le s (put_object o ob' s).
Proof.
  intros Ho Hle x. rewrite Objects_put. destruct (decide (x = o)) as [->|].
  - rewrite Ho. by constructor.
  - apply objects_le_refl.
Qed.

Lemma satisfied_refl t th s : Threads s !! t = Some th → satisfied t s s.
Proof.
  intros H. split; auto using objects_le_refl.
  - by destruct s.
  - exists th, (KernelApcDisable th), (WaitStatus th), (MutantList th).
    rewrite H. split; [done|]. by destruct th.
Qed.

Lemma satisfied_trans t s1 s2 s3 : satisfied t s1 s2 → satisfied t s2 s3 → satisfied t s1 s3.
Proof.
  intros [R1 O1 (th & a & w & m & H1 & H2) L1] [R2 O2 (th' & a' & w' & m' & H2' & H3) L2]. split.
  - rewrite R2, R1. done.
  - intros x Hx. by rewrite O2, O1.
  - exists th, a', w', m'. split; [done|]. rewrite H3. rewrite H2 in H2'. apply (inj Some) in H2' as <-. done.
  - by eapply objects_le_trans.
Qed.

Lemma satisfied_views t s s' x :
  satisfied t s s' → sched_view s' x = sched_view s x ∧ wait_view s' x = wait_view s x.
Proof.
  intros [_ O (th & a & w & m & H1 & H2) _]. unfold sched_view, wait_view.
  destruct (decide (x = t)) as [->|Hne]; [by rewrite H1, H2|by rewrite O].
Qed.

(** A satisfied wait keeps every invariant but [object_inv]. *)
Lemma satisfied_inv E P t s s' :
  satisfied t s s' → object_inv s' → inv E P s → inv E P s'.
Proof.
  intros Hsf Ho' [Hs Hd Hw Ho Ht Hc]. pose proof (λ x, satisfied_views t s s' x Hsf) as Hv.
  destruct Hsf as [Hrest Hoth (th & a & w & m & H1 & H2) Hle].
  assert (Hsv : ∀ x, sched_view s' x = sched_view s x) by (intros; by apply Hv).
  assert (Hwv : ∀ x, wait_view s' x = wait_view s x) by (intros; by apply Hv).
  assert (Hk : tables_kept s s') by (rewrite Hrest; by split_and!).
  split.
  - apply (sched_inv_ext E E s); try (rewrite Hrest; done); auto.
    + intros. by rewrite Hsv.
    + rewrite Hsv. apply (si_current _ _ Hs).
  - apply (dispatch_ok_same s); auto; by rewrite Hrest.
  - apply (wait_inv_le E P s); auto. intros x bs. unfold waits. by rewrite Hwv.
  - done.
  - intros x thx Hx. destruct (decide (x = t)) as [->|Hne].
    + rewrite H2 in Hx. apply (inj Some) in Hx as <-. apply (thread_ok_kept s); [done|].
      pose proof (Ht _ _ H1) as Hok. apply (thread_ok_state s t th); try done.
      apply (to_swapped _ _ _ Hok).
    + rewrite Hoth in Hx by done. apply (thread_ok_kept s); auto.
  - destruct Hc as (Hn & thc & Hc & Hst). unfold current_ok.
    replace (CurrentThread s') with (CurrentThread s) by (by rewrite Hrest).
    replace (NextThread s') with (NextThread s) by (by rewrite Hrest). split; [done|].
    destruct (decide (CurrentThread s = t)) as [Heq|Hne].
    + rewrite Heq, H2. eexists. split; [done|]. rewrite Heq in Hc. simplify_eq. done.
    + rewrite Hoth by done. eauto.
Qed.

(** An object whose wait can be satisfied for thread [t]: it is signaled, it is a
    timer, which a wait leaves alone, or it is a mutant the thread owns and has not
    acquired too often. *)
Definition grantable (t : tid) (ob : KOBJECT) : Prop :=
  0 < SignalState ob ∨ Body ob = TimerObject ∨
  ∃ a d, Body ob = MutantObject (Some t) a d ∧ MINLONG < SignalState ob.

(** What one satisfied wait does. *)
Record granted (t : tid) (o : oid) (s s' : KSTATE) : Prop := {
  gr_satisfied : satisfied t s s';
  gr_object : object_inv s';
  gr_others x : x ≠ o → Objects s' !! x = Objects s !! x;
  gr_event ob : Objects s !! o = Some ob → Body ob = SynchronizationEvent →
    Threads s' = Threads s ∧ Objects s' !! o = Some (ob <| SignalState := 0 |>);
  gr_notification ob : Objects s !! o = Some ob → Body ob = NotificationEvent → s' = s
}.

Lemma granted_put t th o ob ob' s :
  object_inv s → Threads s !! t = Some th → Objects s !! o = Some ob → Body ob' = Body ob →
  WaitListHead ob' = WaitListHead ob → SignalState ob' ≤ SignalState ob → signal_ok ob' →
  Body ob ≠ NotificationEvent →
  (Body ob = SynchronizationEvent → ob' = ob <| SignalState := 0 |>) →
  granted t o s (put_object o ob' s).
Proof.
  intros Hi Hth Ho Hb Hw Hle Hok Hnot Hev.
  assert (object_le ob ob').
  { split; auto; [by rewrite Hb|done]. }
  split.
  - split; [by destruct s|done| |by eapply objects_le_put].
    exists th, (KernelApcDisable th), (WaitStatus th), (MutantList th).
    split; [done|]. simpl. rewrite Hth. by destruct th.
  - by eapply object_inv_signal.
  - intros x Hne. by rewrite Objects_put, decide_False.
  - intros ob0 Ho' Hsync. simplify_eq. split; [done|].
    rewrite Objects_put, decide_True by done. by rewrite Hev.
  - intros ob0 Ho' ?. simplify_eq.
Qed.

Lemma granted_same t th o ob s :
  object_inv s → Threads s !! t = Some th → Objects s !! o = Some ob →
  Body ob ≠ SynchronizationEvent → granted t o s s.
Proof.
  intros Hi Hth Ho Hb. split; auto.
  - by eapply satisfied_refl.
  - intros ob0 Ho' ?. simplify_eq.
Qed.

Lemma object_inv_acquire s t th o ob (a : bool) d n w :
  object_inv s → Threads s !! t = Some th → Objects s !! o = Some ob →
  Body ob = MutantObject None a d →
  let th' := th <| KernelApcDisable := n |> <| WaitStatus := w |>
                <| MutantList := MutantList th ++ [o] |> in
  let ob' := ob <| SignalState := 0 |> <| Body := MutantObject (Some t) false d |> in
  object_inv (put_thread t th' (put_object o ob' s)).
Proof.
  intros [Hs Hm How Hnd Hti] Hth Ho Hb th' ob'.
  set (s' := put_thread t th' (put_object o ob' s)).
  assert (Hobj : ∀ x, Objects s' !! x = if decide (x = o) then Some ob' else Objects s !! x)
    by (intros x; exact (Objects_put o ob' s x)).
  assert (Hown : ∀ x y, owned_by s' x y ↔ (x = o ∧ y = t) ∨ owned_by s x y).
  { intros x y. unfold owned_by. rewrite Hobj. destruct (decide (x = o)) as [->|Hne].
    - rewrite Ho. split.
      + intros (? & a' & d' & [= <-] & Heq). simpl in Heq. left. split; congruence.
      + intros [[_ ->]|(? & ? & ? & [= <-] & ?)]; [|congruence]. exists ob', false, d. done.
    - split; [by right|]. by intros [[? _]|?]. }
  assert (Hno : ∀ x, ¬ owned_by s o x).
  { intros x (? & ? & ? & ? & ?). simplify_eq. congruence. }
  split.
  - intros x obx. rewrite Hobj. destruct (decide (x = o)); [intros [= <-]|eauto].
    unfold signal_ok, MINLONG. simpl. split; [lia|]. split; [done|lia].
  - intros y thy x Hy. rewrite Hown. unfold s' in Hy. rewrite Threads_put in Hy.
    destruct (decide (y = t)) as [->|Hne].
    + apply (inj Some) in Hy as <-. simpl.
      rewrite elem_of_app, list_elem_of_singleton, (Hm _ _ _ Hth). tauto.
    + rewrite (Hm _ _ _ Hy). tauto.
  - intros x y Hx%Hown. unfold s'. rewrite Threads_put. destruct (decide (y = t)); [done|].
    destruct Hx as [[_ ?]|Hx]; [done|]. by apply (How x).
  - intros y thy. unfold s'. rewrite Threads_put. destruct (decide (y = t)) as [->|Hne]; [|apply Hnd].
    intros <-%(inj Some). simpl. apply NoDup_app. split; [by eapply Hnd|].
    split; [|by apply NoDup_singleton]. intros x Hx ->%list_elem_of_singleton.
    apply (Hno t). by apply (Hm _ _ _ Hth).
  - intros y oby. rewrite Hobj. destruct (decide _) as [<-|]; [|eauto].
    pose proof (Hti _ _ Ho). congruence.
Qed.

Lemma mutant_acquired t th o ob (a : bool) d s :
  object_inv s → Threads s !! t = Some th → Objects s !! o = Some ob →
  Body ob = MutantObject None a d →
  ∃ s', KiWaitSatisfyMutant o t s = Some s' ∧ granted t o s s'.
Proof.
  intros Hi Hth Ho Hb. pose proof (oi_signal _ Hi _ _ Ho) as Hok.
  unfold signal_ok in Hok. rewrite Hb in Hok. destruct Hok as [_ [Hone _]].
  specialize (Hone eq_refl). unfold KiWaitSatisfyMutant. rewrite Ho, Hth.
  cbn [mbind option_bind]. rewrite Hb, Hone. change (s32 (1 - 1)) with 0. cbn [Z.eqb].
  set (w := if a then STATUS_ABANDONED else WaitStatus th).
  set (k := u8 (KernelApcDisable th - d)).
  pose proof (object_inv_acquire s t th o ob a d k w Hi Hth Ho Hb) as Hi'.
  eexists. split; [done|].
  match goal with |- granted _ _ _ (put_thread t ?x (put_object o ?y s)) =>
    replace x with (th <| KernelApcDisable := k |> <| WaitStatus := w |>
                       <| MutantList := MutantList th ++ [o] |>)
      by (unfold w; destruct a; by destruct th)
  end.
  cbv zeta in Hi'. split; auto.
  - split.
    + by destruct s.
    + intros x Hne. by rewrite Threads_put, decide_False.
    + exists th, k, w, (MutantList th ++ [o]). split; [done|].
      by rewrite Threads_put, decide_True.
    + apply (objects_le_put s o ob); [done|].
      split; [done|by rewrite Hb|simpl; lia|by rewrite Hb].
  - intros x Hne. etransitivity; [exact (Objects_put o _ s x)|]. by rewrite decide_False.
  - intros ob0 Ho' ?. simplify_eq. congruence.
  - intros ob0 Ho' ?. simplify_eq. congruence.
Qed.

Lemma KiWaitSatisfyAny_ok t th o ob s :
  object_inv s → Threads s !! t = Some th → Objects s !! o = Some ob → grantable t ob →
  ∃ s', KiWaitSatisfyAny o t s = Some s' ∧ granted t o s s'.
Proof.
  intros Hi Hth Ho Hg. pose proof (oi_signal _ Hi _ _ Ho) as Hok.
  unfold KiWaitSatisfyAny. rewrite Ho. cbn [mbind option_bind].
  destruct (Body ob) eqn:Hb;
    try (unfold KiWaitSatisfyOther; rewrite Ho; cbn [mbind option_bind]; rewrite Hb;
         eexists; split; [done|]); try (eapply granted_same; eauto; by rewrite Hb).
  - apply (granted_put t th o ob); try done; try by rewrite Hb.
    + unfold signal_ok in Hok. rewrite Hb in Hok. simpl. lia.
    + unfold signal_ok. simpl. rewrite Hb. lia.
  - unfold signal_ok in Hok. rewrite Hb in Hok. destruct Hok as [Hr Hn].
    destruct OwnerThread as [w|]; [|by eapply mutant_acquired].
    assert (SignalState ob ≠ 1) by (by intros ?%Hn). unfold MINLONG in *.
    destruct Hg as [?|[?|(a & d & Hg & Hmin)]]; [lia|congruence|].
    assert (w = t) as -> by congruence.
    unfold KiWaitSatisfyMutant. rewrite Ho, Hth. cbn [mbind option_bind]. rewrite Hb.
    rewrite s32_small by (split; [|lia]; unfold MINLONG in Hmin; lia).
    rewrite (proj2 (Z.eqb_neq _ _)) by lia. eexists. split; [done|].
    apply (granted_put t th o ob); try done; try by rewrite Hb.
    + simpl. lia.
    + unfold signal_ok. simpl. rewrite Hb. unfold MINLONG in *. split; [lia|].
      split; [done|lia].
  - unfold signal_ok in Hok. rewrite Hb in Hok. destruct Hg as [Hg|[?|(? & ? & ? & _)]]; [|congruence..].
    rewrite s32_small by lia. apply (granted_put t th o ob); try done; try by rewrite Hb.
    + simpl. lia.
    + unfold signal_ok. simpl. rewrite Hb. lia.
Qed.

(** The wait of [t] on each of several distinct objects. *)
Lemma satisfy_blocks_ok t bs : ∀ th s,
  object_inv s → Threads s !! t = Some th → NoDup (WaitObject <$> bs) →
  (∀ b, b ∈ bs → ∃ ob, Objects s !! WaitObject b = Some ob ∧ grantable t ob) →
  ∃ s', satisfy_blocks t bs s = Some s' ∧ satisfied t s s' ∧ object_inv s'.
Proof.
  induction bs as [|b bs IH]; intros th s Hi Hth Hnd Hgr; simpl in *.
  { exists s. split; [done|]. split; [by eapply satisfied_refl|done]. }
  apply NoDup_cons in Hnd as [Hnin Hnd].
  destruct (Hgr b) as (ob & Ho & Hg); [apply elem_of_cons; by left|].
  destruct (KiWaitSatisfyAny_ok t th _ ob s Hi Hth Ho Hg) as (s1 & -> & Hgd).
  destruct Hgd as [Hsf Hi1 Hoth _ _]. cbn [mbind option_bind].
  destruct (sf_thread _ _ _ Hsf) as (? & a & w & m & _ & Hth1).
  destruct (IH _ s1 Hi1 Hth1 Hnd) as (s2 & -> & Hsf2 & Hi2).
  - intros b' Hb'. destruct (Hgr b') as (ob' & Ho' & Hg'); [apply elem_of_cons; by right|].
    exists ob'. split; [|done]. rewrite Hoth; [done|]. intros Heq. apply Hnin.
    rewrite <- Heq. apply list_elem_of_fmap. eauto.
  - exists s2. split; [done|]. split; [by eapply satisfied_trans|done].
Qed.

(** ** Whether a wait can be satisfied *)

Definition object_signal (s : KSTATE) (o : oid) (pos : bool) : Prop :=
  ∃ ob, Objects s !! o = Some ob ∧ (if pos then 0 < SignalState ob else SignalState ob ≤ 0).

Lemma block_signaled_ok t s b :
  is_Some (Objects s !! WaitObject b) → ∃ r, block_signaled t s b = Some r ∧
    if r : bool then WaitKey b = STATUS_TIMEOUT ∨ object_signal s (WaitObject b) true
    else WaitKey b ≠ STATUS_TIMEOUT ∧ object_signal s (WaitObject b) false.
Proof.
  intros [ob Ho]. unfold block_signaled, object_signal.
  destruct (Z.eqb_spec (WaitKey b) STATUS_TIMEOUT); [exists true; auto|].
  rewrite Ho. cbn [mbind option_bind].
  assert (∀ c : bool, (if SignalState ob <=? 0 then false else true) = c →
    if c then WaitKey b = STATUS_TIMEOUT ∨
                (∃ ob', Some ob = Some ob' ∧ 0 < SignalState ob')
    else WaitKey b ≠ STATUS_TIMEOUT ∧ ∃ ob', Some ob = Some ob' ∧ SignalState ob' ≤ 0) as Hc.
  { intros c <-. destruct (Z.leb_spec (SignalState ob) 0); [split|right]; eauto. }
  destruct (Body ob); try (eexists; split; [done|]; by apply Hc).
  eexists; split; [done|]. apply Hc.
  destruct (SignalState ob <=? 0), (bool_decide _); done.
Qed.

Lemma all_signaled_ok t s bs :
  (∀ b, b ∈ bs → is_Some (Objects s !! WaitObject b)) → ∃ r, all_signaled t s bs = Some r ∧
    if r : bool
    then ∀ b, b ∈ bs → WaitKey b = STATUS_TIMEOUT ∨ object_signal s (WaitObject b) true
    else ∃ b, b ∈ bs ∧ WaitKey b ≠ STATUS_TIMEOUT ∧ object_signal s (WaitObject b) false.
Proof.
  induction bs as [|b bs IH]; intros Hob; simpl.
  { exists true. split; [done|]. intros b ?%elem_of_nil. done. }
  destruct (block_signaled_ok t s b) as (r & -> & Hr); [apply Hob, elem_of_cons; by left|].
  cbn [mbind option_bind]. destruct r.
  - destruct IH as (r & -> & Hr'); [intros; apply Hob, elem_of_cons; by right|].
    exists r. split; [done|]. destruct r.
    + intros b' [->|]%elem_of_cons; auto.
    + destruct Hr' as (b' & ? & ?). exists b'. split; [apply elem_of_cons; by right|done].
  - exists false. split; [done|]. exists b. split; [apply elem_of_cons; by left|done].
Qed.

(** The other blocks of the ring. *)
Lemma elem_of_others {A} (l : list A) i x :
  x ∈ drop (S i) l ++ take i l ↔ ∃ j, j ≠ i ∧ l !! j = Some x.
Proof.
  rewrite elem_of_app, !list_elem_of_lookup. split.
  - intros [(j & Hj)|(j & Hj)].
    + rewrite lookup_drop in Hj. exists (S i + j)%nat. split; [lia|done].
    + apply lookup_take_Some in Hj as [Hj ?]. exists j. split; [lia|done].
  - intros (j & Hne & Hj). destruct (decide (j < i)%nat).
    + right. exists j. by rewrite lookup_take_lt by lia.
    + left. exists (j - S i)%nat. rewrite lookup_drop. by replace (S i + (j - S i))%nat with j by lia.
Qed.

Lemma ring_from {A} (l : list A) i x :
  l !! i = Some x → drop i l ++ take i l = x :: drop (S i) l ++ take i l.
Proof. intros H. by rewrite (drop_S _ _ _ H). Qed.

Lemma ring_perm {A} (l : list A) i : drop i l ++ take i l ≡ₚ l.
Proof. rewrite (Permutation_app_comm (drop i l)). by rewrite take_drop. Qed.

Lemma can_satisfy_ok E P s t th i b :
  wait_inv E P s → waits E s t (WaitBlockList th) → Threads s !! t = Some th →
  WaitBlockList th !! i = Some b → ∃ r, can_satisfy t i s = Some r ∧
    if r : bool
    then WaitType b = WaitAny ∨ WaitType b = WaitAll ∧
      ∀ j b', j ≠ i → WaitBlockList th !! j = Some b' →
        WaitKey b' = STATUS_TIMEOUT ∨ object_signal s (WaitObject b') true
    else WaitType b = WaitAll ∧ ∃ j b', j ≠ i ∧ WaitBlockList th !! j = Some b' ∧
        WaitKey b' ≠ STATUS_TIMEOUT ∧ object_signal s (WaitObject b') false.
Proof.
  intros Hi Hw Hth Hb. unfold can_satisfy. rewrite Hth. cbn [mbind option_bind].
  rewrite Hb. cbn [mbind option_bind].
  destruct (decide (WaitType b = WaitAny)) as [|Hall]; [exists true; auto|].
  assert (WaitType b = WaitAll) by (by destruct (WaitType b)).
  destruct (all_signaled_ok t s (drop (S i) (WaitBlockList th) ++ take i (WaitBlockList th)))
    as (r & -> & Hr).
  { intros b' (j & _ & Hj)%elem_of_others. by eapply wi_object. }
  exists r. split; [done|]. destruct r.
  - right. split; [done|]. intros j b' Hne Hj. apply Hr, elem_of_others. eauto.
  - destruct Hr as (b' & (j & ? & ?)%elem_of_others & ? & ?). split; [done|]. eauto 10.
Qed.

(** Satisfying a wait that can be satisfied. *)
Lemma KiWaitSatisfy_ok E P s t th i b ob :
  inv E P s → waits E s t (WaitBlockList th) → Threads s !! t = Some th →
  WaitBlockList th !! i = Some b → WaitType b = WaitAll →
  Objects s !! WaitObject b = Some ob → 0 < SignalState ob →
  (∀ j b', j ≠ i → WaitBlockList th !! j = Some b' →
     WaitKey b' = STATUS_TIMEOUT ∨ object_signal s (WaitObject b') true) →
  ∃ s', KiWaitSatisfy t i s = Some s' ∧ satisfied t s s' ∧ object_inv s'.
Proof.
  intros Hi Hw Hth Hb Hall Ho Hpos Hrest. unfold KiWaitSatisfy. rewrite Hth.
  cbn [mbind option_bind]. rewrite Hb. cbn [mbind option_bind].
  rewrite decide_False by congruence. destruct Hi as [_ _ Hwi Hoi _ _].
  pose proof (wi_blocks _ _ _ Hwi _ _ Hw) as Hwf.
  eapply satisfy_blocks_ok; [done..| |].
  - rewrite ring_perm. by eapply bw_distinct.
  - intros b' Hb'. rewrite (ring_from _ _ b) in Hb' by done.
    apply elem_of_cons in Hb' as [->|(j & Hne & Hj)%elem_of_others].
    + exists ob. split; [done|]. by left.
    + destruct (Hrest _ _ Hne Hj) as [Hk|(ob' & ? & ?)]; [|exists ob'; split; [done|by left]].
      destruct (wi_object _ _ _ Hwi _ _ _ _ Hw Hj) as [ob' Ho']. exists ob'.
      split; [done|]. right. left. destruct (bw_all _ _ Hwf _ _ _ _ Hb Hj Hall) as (_ & _ & Htm).
      destruct (WaitType b') eqn:Ht'.
      * by destruct (bw_all _ _ Hwf _ _ _ _ Hj Hb Ht') as [? _].
      * destruct (Htm eq_refl) as [Heq _]. rewrite Heq in Ho'. by apply (oi_timer _ Hoi _ _ Ho').
Qed.

(** ** Unwaiting a thread *)

Fixpoint entries_on (t : tid) (i : nat) (bs : list KWAIT_BLOCK) (o : oid) : list wait_entry :=
  match bs with
  | [] => []
  | b :: bs => if decide (WaitObject b = o) then (t, i) :: entries_on t (S i) bs o
               else entries_on t (S i) bs o
  end.

Lemma elem_of_entries_on t bs o : ∀ i x k,
  (x, k) ∈ entries_on t i bs o ↔
    x = t ∧ ∃ j b, k = (i + j)%nat ∧ bs !! j = Some b ∧ WaitObject b = o.
Proof.
  induction bs as [|b bs IH]; intros i x k; simpl.
  { split; [by intros ?%elem_of_nil|]. intros (_ & j & b & _ & Hj & _). done. }
  assert ((x, k) ∈ entries_on t (S i) bs o ↔
    x = t ∧ ∃ j b', k = (i + S j)%nat ∧ (b :: bs) !! S j = Some b' ∧ WaitObject b' = o) as Hiff.
  { rewrite IH. simpl. setoid_rewrite Nat.add_succ_r. done. }
  destruct (decide (WaitObject b = o)) as [Heq|Hne].
  - rewrite elem_of_cons, Hiff. split.
    + intros [[= -> ->]|(-> & j & b' & ? & ? & ?)]; (split; [done|]).
      * exists 0%nat, b. split; [lia|done].
      * eauto.
    + intros (-> & [|j] & b' & -> & Hj & Ho); [left; f_equal; lia|right; eauto 10].
  - rewrite Hiff. split.
    + intros (-> & j & b' & ? & ? & ?). eauto 10.
    + intros (-> & [|j] & b' & -> & Hj & Ho); [simpl in Hj; congruence|eauto 10].
Qed.

Lemma remove_blocks_ok t bs : ∀ i s,
  (∀ b, b ∈ bs → is_Some (Objects s !! WaitObject b)) →
  ∃ m, remove_blocks t i bs s = Some (s <| Objects := m |>) ∧
    ∀ o, m !! o = (λ ob, ob <| WaitListHead :=
      filter (λ e, e ∉ entries_on t i bs o) (WaitListHead ob) |>) <$> Objects s !! o.
Proof.
  induction bs as [|b bs IH]; intros i s Hob; cbn [remove_blocks entries_on].
  { exists (Objects s). split; [by destruct s|]. intros o.
    destruct (Objects s !! o) as [ob|]; [|done]. simpl. f_equal. destruct ob; simpl.
    f_equal. symmetry. apply filter_id. intros e _. apply not_elem_of_nil. }
  destruct (Hob b) as [ob Ho]; [apply elem_of_cons; by left|]. rewrite Ho.
  cbn [mbind option_bind].
  set (ob1 := ob <| WaitListHead := filter (λ e, e ≠ (t, i)) (WaitListHead ob) |>).
  destruct (IH (S i) (put_object (WaitObject b) ob1 s)) as (m & -> & Hm).
  { intros b' Hb'. rewrite Objects_put. destruct (decide _); [done|].
    apply Hob, elem_of_cons. by right. }
  exists m. split; [by destruct s|]. intros o. rewrite Hm, Objects_put.
  destruct (decide (o = WaitObject b)) as [->|Hne].
  - rewrite decide_True, Ho by done. simpl. f_equal. unfold ob1. simpl. f_equal.
    rewrite list_filter_filter. apply list_filter_iff. intros e.
    rewrite not_elem_of_cons. tauto.
  - by rewrite decide_False by congruence.
Qed.

(** The priority rules keep every priority in range and touch nothing else. *)
Record repriced (th th' : KTHREAD) : Prop := {
  rp_kept : kept th th';
  rp_state : State th' = State th;
  rp_flag : ProcessReadyQueue th' = ProcessReadyQueue th;
  rp_process : Process th' = Process th;
  rp_queue : Queue th' = Queue th;
  rp_reason : WaitReason th' = WaitReason th;
  rp_status : WaitStatus th' = WaitStatus th;
  rp_decrement : PriorityDecrement th' = PriorityDecrement th ∨ PriorityDecrement th' = 0
}.

Lemma repriced_refl th : repriced th th.
Proof. split; auto. reflexivity. Qed.

Lemma repriced_trans a b c : repriced a b → repriced b c → repriced a c.
Proof.
  intros [? ? ? ? ? ? ? Hab] [? ? ? ? ? ? ? Hbc]. split; try congruence; [by etrans|].
  destruct Hbc as [->|]; auto.
Qed.

(** A realtime thread keeps its priority; a thread of the variable class stays in
    it unless its base priority is a realtime one. *)
Definition priority_class (th : KTHREAD) (p : Z) : Prop :=
  if Priority th <? LOW_REALTIME_PRIORITY
  then p < LOW_REALTIME_PRIORITY ∨ p = BasePriority th else p = Priority th.

Lemma boost_priority_ok th inc :
  0 ≤ Priority th < LOW_REALTIME_PRIORITY →
  repriced th (boost_priority th inc) ∧
  Priority th ≤ Priority (boost_priority th inc) < LOW_REALTIME_PRIORITY ∧
  PriorityDecrement (boost_priority th inc) = PriorityDecrement th ∧
  BasePriority (boost_priority th inc) = BasePriority th.
Proof.
  unfold boost_priority, LOW_REALTIME_PRIORITY. intros Hp.
  destruct (_ =? 0); [|split; [apply repriced_refl|lia]].
  destruct (Z.ltb_spec (Priority th) (s32 (BasePriority th + inc)));
    [|split; [apply repriced_refl|lia]].
  destruct (Z.leb_spec 16 (s32 (BasePriority th + inc))).
  - split; [by split; auto; split|]. simpl. lia.
  - split; [by split; auto; split|]. simpl. rewrite s8_small by lia. lia.
Qed.

Lemma charge_wait_ok th q :
  0 ≤ Priority th < LOW_REALTIME_PRIORITY → 0 ≤ BasePriority th →
  0 ≤ PriorityDecrement th ≤ HIGH_PRIORITY →
  repriced th (charge_wait th q) ∧ 0 ≤ Priority (charge_wait th q) ∧
  (Priority (charge_wait th q) < LOW_REALTIME_PRIORITY ∨
   Priority (charge_wait th q) = BasePriority th).
Proof.
  unfold charge_wait, LOW_REALTIME_PRIORITY, HIGH_PRIORITY. intros Hp Hb Hd.
  destruct (_ <=? BasePriority th); [split; [by split; auto; split|simpl; lia]|].
  match goal with |- context [Quantum ?x <=? 0] => destruct (Quantum x <=? 0) end.
  2:{ split; [by split; auto; split|simpl; lia]. }
  simpl. rewrite s8_small by lia.
  destruct (Z.ltb_spec (Priority th - (PriorityDecrement th + 1)) (BasePriority th));
    (split; [by split; auto; split|simpl; lia]).
Qed.

Lemma unwait_priority_ok th q inc :
  0 ≤ Priority th ≤ HIGH_PRIORITY → 0 ≤ BasePriority th ≤ HIGH_PRIORITY →
  0 ≤ PriorityDecrement th ≤ HIGH_PRIORITY →
  repriced th (unwait_priority th q inc) ∧
  0 ≤ Priority (unwait_priority th q inc) ≤ HIGH_PRIORITY ∧
  priority_class th (Priority (unwait_priority th q inc)).
Proof.
  intros Hp Hb Hd. unfold unwait_priority, priority_class.
  destruct (Z.ltb_spec (Priority th) LOW_REALTIME_PRIORITY).
  - destruct (boost_priority_ok th inc) as (Hr1 & Hp1 & Hd1 & Hb1); [lia|].
    destruct (charge_wait_ok (boost_priority th inc) q) as (Hr2 & Hp2 & Hc); [lia..|].
    rewrite Hb1 in Hc. split; [by eapply repriced_trans|].
    unfold LOW_REALTIME_PRIORITY, HIGH_PRIORITY in *. split; [lia|done].
  - split; [by split; auto; split|]. simpl. split; [lia|done].
Qed.

Lemma repriced_thread_ok s t th th' :
  thread_ok s t th → repriced th th' → 0 ≤ Priority th' ≤ HIGH_PRIORITY → thread_ok s t th'.
Proof.
  intros [] [[] E1 E2 E3 E4 E5 E6 E7] Hp.
  split; rewrite ?E1, ?E2, ?E3, ?E4, ?E5; auto; [by rewrite k_base|].
  destruct E7 as [->| ->]; [done|]. unfold HIGH_PRIORITY. lia.
Qed.

(** The state in which [KiUnwaitThread] readies thread [t]. *)
Record unwaited (t : tid) (th th' : KTHREAD) (Status : Z) (s s' : KSTATE) : Prop := {
  uw_threads : Threads s' = <[t := th']> (Threads s);
  uw_objects o : Objects s' !! o =
    (λ ob, ob <| WaitListHead := filter (λ e, e.1 ≠ t) (WaitListHead ob) |>) <$> Objects s !! o;
  uw_queues : KiDispatcherReadyListHead s' = KiDispatcherReadyListHead s;
  uw_summary : KiReadySummary s' = KiReadySummary s;
  uw_idlesum : KiIdleSummary s' = KiIdleSummary s;
  uw_next : NextThread s' = NextThread s;
  uw_current : CurrentThread s' = CurrentThread s;
  uw_idle : IdleThread s' = IdleThread s;
  uw_irql : Irql s' = Irql s;
  uw_tables : tables_kept s s';
  uw_status : WaitStatus th' = Z.lor (WaitStatus th) Status;
  uw_repriced : repriced (th <| WaitStatus := WaitStatus th' |>) th';
  uw_priority : 0 ≤ Priority th' ≤ HIGH_PRIORITY;
  uw_class : priority_class th (Priority th')
}.

Lemma waits_thread E s t bs :
  waits E s t bs ↔ ¬ E t ∧ ∃ th, Threads s !! t = Some th ∧ State th = Waiting ∧
                                WaitBlockList th = bs.
Proof.
  unfold waits, wait_view. destruct (Threads s !! t) as [th|]; simpl.
  - split.
    + intros [? [= ? ?]]. eauto 10.
    + intros [? (? & [= <-] & -> & ->)]. done.
  - split; [intros [_ [=]]|intros (_ & ? & [=] & _)].
Qed.

Lemma entries_filter E P s t th o ob :
  wait_inv E P s → waits E s t (WaitBlockList th) → Objects s !! o = Some ob →
  filter (λ e, e ∉ entries_on t 0 (WaitBlockList th) o) (WaitListHead ob) =
  filter (λ e, e.1 ≠ t) (WaitListHead ob).
Proof.
  intros Hi Hw Ho. apply filter_ext_in. intros [x k] Hin.
  apply (wi_list _ _ _ Hi _ _ _ _ Ho) in Hin as (bs & b & Hwx & Hk & Hb).
  rewrite elem_of_entries_on. simpl. split.
  - intros Hn ->. apply Hn. split; [done|]. exists k, b. split; [done|].
    destruct Hw as [_ Hw], Hwx as [_ Hwx]. rewrite Hw in Hwx. injection Hwx as <-. done.
  - intros Hne [-> _]. done.
Qed.

Lemma tables_kept_trans s1 s2 s3 : tables_kept s1 s2 → tables_kept s2 s3 → tables_kept s1 s3.
Proof. intros (? & ? & ? & ?) (? & ? & ? & ?). split_and!; auto. congruence. Qed.

Lemma is_Some_insert `{Countable K} {V} (m : gmap K V) (k : K) (v : V) x :
  is_Some (m !! x) → is_Some (<[k := v]> m !! x).
Proof. rewrite lookup_insert_is_Some. destruct (decide (k = x)); auto. Qed.

(** Changes to timers, queues and lists the invariants do not mention. *)
Record bookkeeping (s s' : KSTATE) : Prop := {
  bk_same : same_database s s';
  bk_irql : Irql s' = Irql s;
  bk_processes : Processes s' = Processes s;
  bk_tables : tables_kept s s'
}.

Lemma bookkeeping_trans s1 s2 s3 : bookkeeping s1 s2 → bookkeeping s2 s3 → bookkeeping s1 s3.
Proof.
  intros [(? & ? & ? & ? & ? & ? & ? & ?) ? ? K1] [(? & ? & ? & ? & ? & ? & ? & ?) ? ? K2].
  split; [|congruence..|by eapply tables_kept_trans]. unfold same_database. split_and!; congruence.
Qed.

Lemma cancel_timer_ok s o tm :
  Timers s !! o = Some tm →
  ∃ s', (if Inserted tm then KiRemoveTreeTimer o s else Some s) = Some s' ∧ bookkeeping s s'.
Proof.
  intros Ht. unfold KiRemoveTreeTimer. rewrite Ht. cbn [mbind option_bind].
  destruct (Inserted tm); eexists; (split; [done|]); split; try done; split_and!; try done.
  intros x. apply is_Some_insert.
Qed.

Lemma count_active_ok s (q : option oid) :
  (∀ o, q = Some o → is_Some (Queues s !! o)) →
  ∃ s', match q with
        | Some q =>
            qu ← Queues s !! q;
            Some (s <| Queues := <[q := qu <| CurrentCount := CurrentCount qu +u 1 |>]> (Queues s) |>)
        | None => Some s
        end = Some s' ∧ bookkeeping s s'.
Proof.
  intros Hq. destruct q as [q|]; [|exists s; by split].
  destruct (Hq q eq_refl) as [qu ->]. cbn [mbind option_bind].
  eexists. split; [done|]. split; try done. split_and!; try done. intros x. apply is_Some_insert.
Qed.

Lemma unwait_prepare_ok E P s t th Status inc :
  inv E P s → Threads s !! t = Some th → State th = Waiting → ¬ E t →
  ∃ s' th', unwait_prepare t Status inc s = Some s' ∧ unwaited t th th' Status s s'.
Proof.
  intros Hi Hth Hst HE. pose proof (inv_thread _ _ _ Hi _ _ Hth) as Hok.
  pose proof (inv_wait _ _ _ Hi) as Hw.
  assert (Hwt : waits E s t (WaitBlockList th)) by (apply waits_thread; eauto 10).
  unfold unwait_prepare. rewrite Hth. cbn [mbind option_bind].
  destruct (array_get_Some _ _ (to_reason _ _ _ Hok)) as [n ->]. cbn [mbind option_bind].
  rewrite array_set_Some by apply (to_reason _ _ _ Hok). cbn [mbind option_bind].
  set (th1 := th <| WaitStatus := Z.lor (WaitStatus th) Status |>).
  match goal with |- context [remove_blocks _ _ _ ?x] => set (s1 := x) end.
  change (WaitBlockList th1) with (WaitBlockList th).
  destruct (remove_blocks_ok t (WaitBlockList th) 0 s1) as (m & -> & Hm).
  { intros b (i & Hb)%list_elem_of_lookup. by eapply (wi_object _ _ _ Hw). }
  cbn [mbind option_bind].
  match goal with |- context [if _ then KiRemoveTreeTimer _ ?x else _] => set (s2 := x) end.
  assert (Hb2 : bookkeeping (s <| Objects := m |>) s2).
  { split; try done. split_and!; try done. unfold zlen, s2, s1. simpl. by rewrite length_insert. }
  destruct (to_timer _ _ _ Hok) as [tm Htm].
  change (Timers s2) with (Timers s). rewrite Htm. cbn [mbind option_bind].
  destruct (cancel_timer_ok s2 (ThreadTimer t) tm Htm) as (s3 & -> & Hb3).
  cbn [mbind option_bind].
  destruct (count_active_ok s3 (Queue th1)) as (s4 & -> & Hb4).
  { intros q Hq. apply Hb3. by apply (to_queue _ _ _ Hok). }
  cbn [mbind option_bind].
  assert (Hb : bookkeeping (s <| Objects := m |>) s4) by eauto using bookkeeping_trans.
  destruct (to_process _ _ _ Hok) as [pr Hpr].
  rewrite (bk_processes _ _ Hb). change (Process th1) with (Process th). simpl (Processes _).
  rewrite Hpr. cbn [mbind option_bind].
  destruct (unwait_priority_ok th1 (ThreadQuantum pr) inc) as (Hrp & Hrange & Hclass);
    [apply Hok..|].
  eexists _, _. split; [done|].
  destruct Hb as [(Ht & Ho & Hq & Hs & Hid & Hn & Hc & Hidle) Hirql _ Hk].
  split; simpl; try done.
  - by rewrite Ht.
  - intros o. rewrite Ho. simpl. rewrite Hm. simpl. destruct (Objects s !! o) as [ob|] eqn:Hob; [|done].
    simpl. by rewrite (entries_filter E P s).
  - by rewrite (rp_status _ _ Hrp).
  - by rewrite (rp_status _ _ Hrp).
Qed.

(** Wait lists change, nothing else of an object. *)
Lemma object_inv_lists s s' (f : oid → KOBJECT → list wait_entry) :
  (∀ o, Objects s' !! o = (λ ob, ob <| WaitListHead := f o ob |>) <$> Objects s !! o) →
  (∀ t, MutantList <$> Threads s' !! t = MutantList <$> Threads s !! t) →
  object_inv s → object_inv s'.
Proof.
  intros Ho Hm [Hs Hmu How Hnd Hti].
  assert (Hback : ∀ o ob', Objects s' !! o = Some ob' →
            ∃ ob, Objects s !! o = Some ob ∧ Body ob' = Body ob ∧ SignalState ob' = SignalState ob).
  { intros o ob'. rewrite Ho. destruct (Objects s !! o) as [ob|]; [|done].
    intros <-%(inj Some). eauto. }
  assert (Hth : ∀ t th', Threads s' !! t = Some th' →
    ∃ th, Threads s !! t = Some th ∧ MutantList th = MutantList th').
  { intros t th' H. specialize (Hm t). rewrite H in Hm. simpl in Hm.
    destruct (Threads s !! t) as [th|]; simpl in Hm; [|done]. injection Hm as Hm. eauto. }
  assert (Hown : ∀ o t, owned_by s' o t ↔ owned_by s o t).
  { intros o t. unfold owned_by. rewrite Ho. destruct (Objects s !! o) as [ob|]; [|done].
    simpl. split; intros (? & a & d & <-%(inj Some) & ?); eexists _, a, d; done. }
  split.
  - intros o ob' (ob & Hob & Hb & Hsg)%Hback. unfold signal_ok. rewrite Hb, Hsg. by apply (Hs o).
  - intros t th' o (th & Ht & <-)%Hth. rewrite Hown. by apply Hmu.
  - intros o t Hot%Hown. apply (fmap_is_Some MutantList). rewrite Hm. apply fmap_is_Some.
    by apply (How o).
  - intros t th' (th & Ht & <-)%Hth. eauto.
  - intros t ob' (ob & Hob & -> & _)%Hback. eauto.
Qed.

Lemma unwaited_waits E t th th' Status s s' x bs :
  unwaited t th th' Status s s' → (waits (excluded t E) s' x bs ↔ x ≠ t ∧ waits E s x bs).
Proof.
  intros Hu. unfold waits, excluded, wait_view. rewrite (uw_threads _ _ _ _ _ _ Hu).
  destruct (decide (x = t)) as [->|Hne]; [tauto|].
  rewrite lookup_insert_ne by done. tauto.
Qed.

Lemma unwaited_wait_inv E P t th th' Status s s' :
  wait_inv E P s → unwaited t th th' Status s s' → wait_inv (excluded t E) P s'.
Proof.
  intros [Hl Hnd Hob Hbl Hsw Hal Hsat] Hu.
  pose proof (unwaited_waits E t th th' Status s s') as Hw.
  pose proof (uw_objects _ _ _ _ _ _ Hu) as Ho.
  assert (Hback : ∀ o ob', Objects s' !! o = Some ob' → ∃ ob, Objects s !! o = Some ob ∧
            ob' = ob <| WaitListHead := filter (λ e, e.1 ≠ t) (WaitListHead ob) |>).
  { intros o ob'. rewrite Ho. destruct (Objects s !! o) as [ob|]; [|done].
    intros <-%(inj Some). eauto. }
  split.
  - intros o ob' x i (ob & Hob' & ->)%Hback. simpl. rewrite list_elem_of_filter, (Hl _ _ _ _ Hob').
    simpl. split.
    + intros (Hne & bs & b & Hwx & ? & ?). exists bs, b. rewrite Hw by done. done.
    + intros (bs & b & Hwx & ? & ?). rewrite Hw in Hwx by done. destruct Hwx. split; eauto 10.
  - intros o ob' (ob & Hob' & ->)%Hback. apply NoDup_filter. eauto.
  - intros x bs i b Hwx Hb. rewrite Hw in Hwx by done. destruct Hwx as [_ Hwx].
    rewrite Ho. destruct (Hob _ _ _ _ Hwx Hb) as [? ->]. done.
  - intros x bs Hwx. rewrite Hw in Hwx by done. apply Hbl, Hwx.
  - destruct Hsw as (ev & Hev & Hb). rewrite Ho, Hev. by eexists.
  - intros x bs i b Hwx. rewrite Hw in Hwx by done. destruct Hwx. eauto.
  - intros x bs i Hwx Hs. rewrite Hw in Hwx by done. apply Hsat; [apply Hwx|].
    assert (Hsig : ∀ o, signaled s' o → signaled s o).
    { intros o (ob' & (ob & Hob' & ->)%Hback & ?). by exists ob. }
    destruct Hs as (b & Hb & Hs & Hr). exists b. split; [done|]. split; [auto|].
    destruct Hr as [|Hr]; [by left|right]. eauto.
Qed.

Lemma unwaited_inv E P t th th' Status s s' :
  inv E P s → Threads s !! t = Some th → State th = Waiting → ¬ E t →
  unwaited t th th' Status s s' → inv (excluded t E) P s'.
Proof.
  intros [Hs Hd Hw Ho Ht Hc] Hth Hst HE Hu.
  pose proof (uw_threads _ _ _ _ _ _ Hu) as HT.
  pose proof (uw_repriced _ _ _ _ _ _ Hu) as Hr.
  assert (Hview : ∀ x, x ≠ t → sched_view s' x = sched_view s x).
  { intros x Hne. unfold sched_view. by rewrite HT, lookup_insert_ne. }
  assert (Hcur : CurrentThread s ≠ t).
  { intros Heq. destruct Hc as (_ & thc & Hc & Hstc & _). rewrite Heq in Hc. simplify_eq. }
  split.
  - apply (sched_inv_ext E (excluded t E) s); try apply Hu; [| |done].
    + intros x st r p Hl. unfold excluded. destruct (decide (x = t)) as [->|Hne].
      * rewrite (sched_view_Some _ _ _ Hth), Hst. split; [|tauto].
        intros [_ [= <- <- <-]]. done.
      * rewrite Hview by done. tauto.
    + rewrite Hview by done. apply (si_current _ _ Hs).
  - apply (dispatch_ok_top s); try apply Hu; [|done]. apply Hview. unfold top_thread.
    destruct (NextThread s) as [t1|] eqn:Hn; [|done]. simpl. intros ->.
    apply (si_next _ _ Hs) in Hn as (_ & r & p & Hv).
    rewrite (sched_view_Some _ _ _ Hth), Hst in Hv. done.
  - by eapply unwaited_wait_inv.
  - eapply object_inv_lists; [apply Hu| |done]. intros x. rewrite HT.
    destruct (decide (x = t)) as [->|Hne].
    + rewrite lookup_insert_eq, Hth. simpl. by rewrite (k_mutants _ _ (rp_kept _ _ Hr)).
    + by rewrite lookup_insert_ne.
  - intros x thx Hx. apply (thread_ok_kept s); [apply Hu|]. rewrite HT in Hx.
    destruct (decide (x = t)) as [->|Hne].
    + rewrite lookup_insert_eq in Hx. injection Hx as <-.
      eapply repriced_thread_ok; [|done|apply Hu].
      pose proof (Ht _ _ Hth) as Hok. apply (thread_ok_state s t th); try done.
      apply (to_swapped _ _ _ Hok).
    + rewrite lookup_insert_ne in Hx by done. auto.
  - destruct Hc as (Hn & thc & Hc & Hstc). unfold current_ok.
    rewrite HT, (uw_current _ _ _ _ _ _ Hu), (uw_next _ _ _ _ _ _ Hu), lookup_insert_ne by done.
    eauto.
Qed.

(** What [KiUnwaitThread] does to thread [t] and to the rest. *)
Record woken (t : tid) (th : KTHREAD) (Status : Z) (s s' : KSTATE) : Prop := {
  wk_current : CurrentThread s' = CurrentThread s;
  wk_idle : IdleThread s' = IdleThread s;
  wk_irql : Irql s' = Irql s;
  wk_thread : ∃ th', Threads s' !! t = Some th' ∧ kept th th' ∧ State th' ≠ Waiting ∧
    WaitStatus th' = Z.lor (WaitStatus th) Status;
  wk_others x thx : x ≠ t → Threads s !! x = Some thx → ∃ thx', Threads s' !! x = Some thx' ∧
    kept thx thx' ∧ (State thx = Waiting → ¬ on_swap_event thx → thx' = thx) ∧
    (State thx ≠ Waiting → State thx' ≠ Waiting ∧ WaitStatus thx' = WaitStatus thx) ∧
    (State thx = Running → State thx' = Running);
  wk_objects o : o ≠ KiSwapEvent → Objects s' !! o =
    (λ ob, ob <| WaitListHead := filter (λ e, e.1 ≠ t) (WaitListHead ob) |>) <$> Objects s !! o;
  wk_waiters : (swap_waiters s' ≤ swap_waiters s)%nat;
  wk_swap_waiters : on_swap_event th → (swap_waiters s' < swap_waiters s)%nat
}.

Lemma unwaited_waiters E P t th th' Status s s' :
  wait_inv E P s → waits E s t (WaitBlockList th) → unwaited t th th' Status s s' →
  (swap_waiters s' ≤ swap_waiters s)%nat ∧
  (on_swap_event th → swap_waiters s' < swap_waiters s)%nat.
Proof.
  intros Hi Hw Hu. destruct (wi_swap _ _ _ Hi) as (ev & Hev & _).
  unfold swap_waiters. rewrite (uw_objects _ _ _ _ _ _ Hu), Hev. simpl. split.
  - apply length_filter.
  - intros (i & b & Hb & Ho). apply (length_filter_lt _ _ (t, i)); [|simpl; tauto].
    apply (wi_list _ _ _ Hi _ _ _ _ Hev). eauto.
Qed.

Section unwait.
Variables (test : KSTATE → option KSTATE) (n : nat).
Hypothesis test_spec : swap_spec test n.

Lemma unwait_thread_ok E P s t th Status inc :
  inv E P s → Threads s !! t = Some th → State th = Waiting → ¬ E t →
  (swap_waiters s ≤ n)%nat ∨ on_swap_event th ∧ (swap_waiters s ≤ S n)%nat →
  ∃ s', unwait_thread (ready_thread2 test) t Status inc s = Some s' ∧
    inv E P s' ∧ woken t th Status s s'.
Proof.
  intros Hi Hth Hst HE Hn. unfold unwait_thread.
  destruct (unwait_prepare_ok E P s t th Status inc Hi Hth Hst HE) as (s1 & th1 & -> & Hu).
  cbn [mbind option_bind].
  assert (Hwt : waits E s t (WaitBlockList th)) by (apply waits_thread; eauto 10).
  pose proof (unwaited_waiters E P t th th1 Status s s1 (inv_wait _ _ _ Hi) Hwt Hu) as [Hle Hlt].
  pose proof (unwaited_inv E P t th th1 Status s s1 Hi Hth Hst HE Hu) as Hi1.
  pose proof (uw_repriced _ _ _ _ _ _ Hu) as Hr.
  assert (Ht1 : Threads s1 !! t = Some th1) by (by rewrite (uw_threads _ _ _ _ _ _ Hu), lookup_insert_eq).
  destruct (ready_thread_ok test n test_spec 2 E P t th1 s1) as (s' & Hrun & [Hi' Hf Hth']); auto.
  - rewrite (uw_current _ _ _ _ _ _ Hu). intros ->.
    destruct (inv_current _ _ _ Hi) as (_ & thc & Hc & Hstc & _). congruence.
  - rewrite (rp_flag _ _ Hr). simpl. destruct (ProcessReadyQueue th) eqn:Hp; [|done].
    pose proof (to_swapped _ _ _ (inv_thread _ _ _ Hi _ _ Hth) Hp). congruence.
  - destruct Hn as [?|[Hsw ?]]; [lia|]. specialize (Hlt Hsw). lia.
  - by left.
  - exists s'. split; [done|]. split; [done|]. destruct Hf as [Fc Fi Fq Fo Fw Ft]. split.
    + by rewrite Fc, (uw_current _ _ _ _ _ _ Hu).
    + by rewrite Fi, (uw_idle _ _ _ _ _ _ Hu).
    + by rewrite Fq, (uw_irql _ _ _ _ _ _ Hu).
    + destruct Hth' as (th' & H' & Hk & Hst' & Hws). exists th'. split; [done|].
      split; [|by rewrite Hws, (uw_status _ _ _ _ _ _ Hu)].
      etrans; [|done]. etrans; [|apply Hr]. by split.
    + intros x thx Hne Hx. destruct (Ft x thx) as (thx' & ? & ? & HW & ? & HR).
      * by rewrite (uw_threads _ _ _ _ _ _ Hu), lookup_insert_ne.
      * exists thx'. split_and!; auto.
    + intros o Hne. by rewrite Fo, (uw_objects _ _ _ _ _ _ Hu).
    + lia.
    + intros Hsw. specialize (Hlt Hsw). lia.
Qed.

End unwait.

(** ** The loop of KiWaitTest *)

(** What a run of [KiWaitTest] can change: objects do not become more signaled
    (the swap event apart), and threads that do not wait go on not waiting. *)
Record progress (s s' : KSTATE) : Prop := {
  pg_current : CurrentThread s' = CurrentThread s;
  pg_idle : IdleThread s' = IdleThread s;
  pg_irql : Irql s' = Irql s;
  pg_objects o ob : o ≠ KiSwapEvent → Objects s !! o = Some ob →
    ∃ ob', Objects s' !! o = Some ob' ∧ same_kind (Body ob) (Body ob') ∧
      SignalState ob' ≤ SignalState ob ∧
      (Body ob = NotificationEvent → SignalState ob' = SignalState ob);
  pg_threads t th : Threads s !! t = Some th → ∃ th', Threads s' !! t = Some th' ∧
    WaitBlockList th' = WaitBlockList th ∧ BasePriority th' = BasePriority th ∧
    WaitNext th' = WaitNext th ∧ WaitIrql th' = WaitIrql th ∧
    (State th = Running → State th' = Running) ∧
    (State th ≠ Waiting → State th' ≠ Waiting ∧ WaitStatus th' = WaitStatus th ∧
       MutantList th' = MutantList th ∧ KernelApcDisable th' = KernelApcDisable th)
}.

#[export] Instance progress_po : PreOrder progress.
Proof.
  split.
  - intros s. split; auto.
    + intros o ob _ Ho. exists ob. split; [done|]. split; [reflexivity|done].
    + intros t th Ht. exists th. done.
  - intros s1 s2 s3 [? ? ? O1 T1] [? ? ? O2 T2]. split; try congruence.
    + intros o ob Hne Ho. destruct (O1 _ _ Hne Ho) as (ob2 & Ho2 & K1 & ? & N1).
      destruct (O2 _ _ Hne Ho2) as (ob3 & Ho3 & K2 & ? & N2). exists ob3.
      split; [done|]. split; [by etrans|]. split; [lia|]. intros Hb.
      rewrite N2, N1; [done..|]. by apply (same_kind_notification _ _ K1).
    + intros t th Ht. destruct (T1 _ _ Ht) as (th2 & Ht2 & ? & ? & ? & ? & R1 & W1).
      destruct (T2 _ _ Ht2) as (th3 & Ht3 & ? & ? & ? & ? & R2 & W2). exists th3.
      split; [done|]. do 4 (split; [congruence|]). split; [auto|]. intros Hw.
      destruct (W1 Hw) as (Hw2 & ? & ? & ?). destruct (W2 Hw2) as (? & ? & ? & ?).
      split_and!; congruence.
Qed.

(** Satisfying the wait of a waiting thread and unwaiting it. *)
Lemma wake_progress t th w Status s s1 s2 :
  satisfied t s s1 → Threads s !! t = Some th → State th = Waiting →
  Threads s1 !! t = Some w → woken t w Status s1 s2 → progress s s2.
Proof.
  intros [Hrest Hoth (th0 & a & ws & m & H0 & H1) Hle] Hth Hst Hw Hwk.
  rewrite Hth in H0. injection H0 as <-. rewrite H1 in Hw. apply (inj Some) in Hw as <-.
  destruct Hwk as [Hc Hi Hq Ht Hx Ho _ _]. split.
  - by rewrite Hc, Hrest.
  - by rewrite Hi, Hrest.
  - by rewrite Hq, Hrest.
  - intros o ob Hne Hob. specialize (Hle o). rewrite Hob in Hle.
    inversion Hle as [? ob1 [Hl Hk Hs Hn] Heq Heq1|]; subst.
    rewrite Ho, <- Heq1 by done. simpl. eexists. split; [done|]. done.
  - intros x thx Hthx. destruct (decide (x = t)) as [->|Hne].
    + rewrite Hth in Hthx. injection Hthx as <-. destruct Ht as (th' & ? & [] & _).
      exists th'. do 5 (split; [done|]). split; [congruence|done].
    + destruct (Hx x thx Hne) as (thx' & ? & [] & _ & Hs & Hr); [by rewrite Hoth|].
      exists thx'. do 5 (split; [done|]). split; [done|]. intros Hwx. destruct (Hs Hwx). done.
Qed.

Lemma after_entry_app l1 e l2 :
  e ∉ l1 → after_entry e (l1 ++ e :: l2) = Some (head l2).
Proof.
  induction l1 as [|x l1 IH]; intros Hn; simpl.
  - by rewrite decide_True.
  - apply not_elem_of_cons in Hn as [? ?]. rewrite decide_False by done. auto.
Qed.

Lemma Flink_last l1 l2 : NoDup (l1 ++ l2) → Flink (last l1) (l1 ++ l2) = Some (head l2).
Proof.
  destruct l1 as [|e l1 _] using rev_ind; [done|]. intros Hnd. rewrite last_snoc.
  rewrite <- (assoc_L (++)) in Hnd |- *. simpl in *. apply after_entry_app.
  apply NoDup_app in Hnd as (_ & Hd & _). intros Hin. apply (Hd _ Hin), elem_of_cons. by left.
Qed.

Lemma satisfiable_depends s bs i o : satisfiable s bs i → depends bs i o → signaled s o.
Proof.
  intros (b & Hb & Hs & Hr) (b' & Hb' & Hd). rewrite Hb in Hb'. injection Hb' as <-.
  destruct Hd as [<-|(Hall & j & b' & Hne & Hj & Hk & <-)]; [done|].
  destruct Hr as [Hany|Hr]; [congruence|eauto].
Qed.

Lemma inv_refine E (P P' : tid → list KWAIT_BLOCK → nat → Prop) s :
  (∀ t bs i, waits E s t bs → satisfiable s bs i → P t bs i → P' t bs i) →
  inv E P s → inv E P' s.
Proof.
  intros HP [? ? [? ? ? ? ? ? Hsat] ? ? ?]. split; auto. split; eauto.
Qed.

(** A wait all with an object that is not signaled cannot be satisfied through
    any block that depends on the object of its block [i]. *)
Lemma blocked_not_satisfiable s t bs i b j b' k :
  blocks_wf t bs → bs !! i = Some b → WaitType b = WaitAll →
  j ≠ i → bs !! j = Some b' → WaitKey b' ≠ STATUS_TIMEOUT →
  object_signal s (WaitObject b') false → depends bs k (WaitObject b) → ¬ satisfiable s bs k.
Proof.
  intros Hwf Hb Hall Hne Hj Hkey (ob & Ho & Hneg) Hdep (c & Hc & Hs & Hr).
  assert (Hns : ¬ signaled s (WaitObject b')).
  { intros (ob' & Ho' & Hpos & _). simplify_eq. lia. }
  destruct (bw_all _ _ Hwf _ _ _ _ Hb Hc Hall) as (_ & Hnt & Htm).
  destruct (WaitType c) eqn:Hct.
  - destruct Hr as [?|Hr]; [done|]. apply Hns.
    destruct (decide (j = k)) as [->|Hjk]; [|by eapply Hr]. by simplify_eq.
  - destruct (Htm eq_refl) as [Heqc _]. destruct Hdep as (c' & Hc' & Hd). simplify_eq.
    destruct Hd as [Heq|[? _]]; [|congruence]. congruence.
Qed.

(** The blocks that may be satisfiable in the middle of the loop: those that
    depend on [o] through an entry the loop has still to visit. *)
Definition pending (o : oid) (P : tid → list KWAIT_BLOCK → nat → Prop)
    (skipped : list wait_entry) : tid → list KWAIT_BLOCK → nat → Prop :=
  λ t bs i, P t bs i ∨
    depends bs i o ∧ ∃ j b, bs !! j = Some b ∧ WaitObject b = o ∧ (t, j) ∉ skipped.

Lemma pending_start E P o s : inv E (or_depends P o) s → inv E (pending o P []) s.
Proof.
  apply inv_refine. intros t bs i _ _ [|Hd]; [by left|right]. split; [done|].
  destruct Hd as (b & Hb & [?|(_ & j & b' & _ & Hj & _ & ?)]).
  - exists i, b. split_and!; auto. apply not_elem_of_nil.
  - exists j, b'. split_and!; auto. apply not_elem_of_nil.
Qed.

Lemma pending_end E P o ob s skipped :
  inv E (pending o P skipped) s → Objects s !! o = Some ob →
  WaitListHead ob = skipped ∨ SignalState ob ≤ 0 → inv E P s.
Proof.
  intros Hi Ho Hend. revert Hi. intros Hi. eapply inv_refine; [|exact Hi].
  intros t bs i Hw Hs [|[Hd (j & b & Hb & Hbo & Hn)]]; [done|]. exfalso.
  destruct Hend as [Heq|Hneg].
  - apply Hn. rewrite <- Heq. apply (wi_list _ _ _ (inv_wait _ _ _ Hi) _ _ _ _ Ho). eauto.
  - destruct (satisfiable_depends _ _ _ _ Hs Hd) as (ob' & ? & ? & _). simplify_eq. lia.
Qed.

(** Moving past a blocked wait all. *)
Lemma pending_skip E P o s skipped t th i b j b' :
  inv E (pending o P skipped) s → Threads s !! t = Some th →
  waits E s t (WaitBlockList th) → WaitBlockList th !! i = Some b → WaitObject b = o →
  WaitType b = WaitAll → j ≠ i → WaitBlockList th !! j = Some b' →
  WaitKey b' ≠ STATUS_TIMEOUT → object_signal s (WaitObject b') false →
  inv E (pending o P (skipped ++ [(t, i)])) s.
Proof.
  intros Hi Hth Hw Hb Hbo Hall Hne Hj Hk Hsig. eapply inv_refine; [|exact Hi].
  intros x bs k Hwx Hs [|[Hd (m & c & Hm & Hmo & Hn)]]; [by left|right]. split; [done|].
  exists m, c. split; [done|]. split; [done|].
  rewrite elem_of_app, list_elem_of_singleton. intros [?|[= -> ->]]; [done|].
  assert (bs = WaitBlockList th) as ->.
  { destruct Hw as [_ Hw], Hwx as [_ Hwx]. rewrite Hw in Hwx. by injection Hwx. }
  rewrite <- Hbo in Hd. eapply blocked_not_satisfiable; [|exact Hb|done|exact Hne|done..].
  by apply (wi_blocks _ _ _ (inv_wait _ _ _ Hi)).
Qed.

Section wait_test.
Variables (test : KSTATE → option KSTATE) (n : nat).
Hypothesis test_spec : swap_spec test n.

Lemma satisfied_waiters t s s' : satisfied t s s' → swap_waiters s' = swap_waiters s.
Proof.
  intros [_ _ _ Hle]. unfold swap_waiters. specialize (Hle KiSwapEvent).
  destruct Hle as [ob ob' [Hl _ _ _]|]; [by rewrite Hl|done].
Qed.

(** One waiter is woken. *)
Lemma wake_ok E P s o ob t th i b inc :
  inv E P s → Objects s !! o = Some ob → 0 < SignalState ob → Threads s !! t = Some th →
  waits E s t (WaitBlockList th) → WaitBlockList th !! i = Some b → WaitObject b = o →
  (WaitType b = WaitAny ∨ WaitType b = WaitAll ∧
      ∀ j b', j ≠ i → WaitBlockList th !! j = Some b' →
        WaitKey b' = STATUS_TIMEOUT ∨ object_signal s (WaitObject b') true) →
  (swap_waiters s ≤ n)%nat ∨ o = KiSwapEvent ∧ (swap_waiters s ≤ S n)%nat →
  ∃ s1 s2 w,
    (if decide (WaitType b = WaitAny) then KiWaitSatisfyAny o t s else KiWaitSatisfy t i s)
      = Some s1 ∧
    unwait_thread (ready_thread2 test) t (WaitKey b) inc s1 = Some s2 ∧ inv E P s2 ∧
    satisfied t s s1 ∧ Threads s1 !! t = Some w ∧ woken t w (WaitKey b) s1 s2 ∧
    (WaitType b = WaitAny → granted t o s s1).
Proof.
  intros Hi Ho Hpos Hth Hw Hb Hbo Hcan Hn.
  assert (∃ s1, (if decide (WaitType b = WaitAny) then KiWaitSatisfyAny o t s
                 else KiWaitSatisfy t i s) = Some s1 ∧ satisfied t s s1 ∧ object_inv s1 ∧
                (WaitType b = WaitAny → granted t o s s1)) as (s1 & Hs1 & Hsf & Hoi & Hg).
  { destruct (decide (WaitType b = WaitAny)) as [Hany|Hall].
    - destruct (KiWaitSatisfyAny_ok t th o ob s (inv_object _ _ _ Hi) Hth Ho) as (s1 & ? & Hg);
        [by left|]. exists s1. split; [done|]. destruct Hg as [? ? ? ? ?]. by split_and!.
    - destruct Hcan as [|[Ha Hrest]]; [done|]. rewrite <- Hbo in Ho.
      destruct (KiWaitSatisfy_ok E P s t th i b ob) as (s1 & ? & ? & ?); try done.
      by exists s1. }
  pose proof (satisfied_inv E P t s s1 Hsf Hoi Hi) as Hi1.
  pose proof (satisfied_waiters _ _ _ Hsf) as Hsw.
  destruct (sf_thread _ _ _ Hsf) as (th0 & a & ws & m & H0 & Hw1).
  rewrite Hth in H0. injection H0 as <-.
  apply waits_thread in Hw as (HE & th' & Hth' & Hst & _). simplify_eq.
  destruct (unwait_thread_ok test n test_spec E P s1 t _ (WaitKey b) inc Hi1 Hw1 Hst HE)
    as (s2 & Hrun & Hi2 & Hwk).
  { rewrite Hsw. destruct Hn as [|[Heq ?]]; [by left|right]. split; [|done].
    exists i, b. split; [done|congruence]. }
  eexists s1, s2, _. by split_and!.
Qed.

(** A waiter of the swap event waits for nothing else: no other object changes. *)
Lemma wake_swap_frame E P s ob t th w st s1 s2 i b :
  inv E P s → Objects s !! KiSwapEvent = Some ob → Threads s !! t = Some th →
  waits E s t (WaitBlockList th) → WaitBlockList th !! i = Some b → WaitObject b = KiSwapEvent →
  granted t KiSwapEvent s s1 → Threads s1 !! t = Some w → woken t w st s1 s2 →
  frame no_thread s s2.
Proof.
  intros Hi Ho Hth Hw Hb Hbo [Hsf _ Hoth Hev _] Hw1 Hwk.
  pose proof (inv_wait _ _ _ Hi) as Hwi.
  destruct (wi_swap _ _ _ Hwi) as (ev & Hev' & Hbody).
  destruct (Hev ev Hev' Hbody) as [HT HO].
  destruct (wi_alone _ _ _ Hwi _ _ _ _ Hw Hb Hbo) as [Hbs _].
  rewrite HT, Hth in Hw1. injection Hw1 as <-.
  pose proof (sf_rest _ _ _ Hsf) as Hrest.
  pose proof (satisfied_waiters _ _ _ Hsf) as Hsw.
  destruct Hwk as [Hc Hid Hq Ht Hx Hob Hwt _]. split.
  - by rewrite Hc, Hrest.
  - by rewrite Hid, Hrest.
  - by rewrite Hq, Hrest.
  - intros o Hne. rewrite Hob, Hoth by done.
    destruct (Objects s !! o) as [obo|] eqn:Hobo; [|done]. simpl. f_equal.
    transitivity (obo <| WaitListHead := WaitListHead obo |>); [|by destruct obo].
    simpl. f_equal. apply filter_id. intros [x k] Hin. simpl. intros ->.
    apply (wi_list _ _ _ Hwi _ _ _ _ Hobo) in Hin as (bs & c & [_ Hwx] & Hk & Hco).
    destruct Hw as [_ Hw]. rewrite Hw in Hwx. injection Hwx as <-. rewrite Hbs in Hk.
    apply list_lookup_singleton_Some in Hk as [_ <-]. congruence.
  - lia.
  - intros x thx Hxs. destruct (decide (x = t)) as [->|Hne].
    + rewrite Hth in Hxs. injection Hxs as <-. destruct Ht as (th' & ? & ? & ? & ?).
      exists th'. split; [done|]. split; [done|]. split.
      * intros _ _ Hn. destruct Hn. exists i, b. done.
      * apply waits_thread in Hw as (_ & ? & ? & Hst & _). simplify_eq.
        split; [done|congruence].
    + destruct (Hx x thx Hne) as (thx' & ? & ? & ? & ? & ?); [by rewrite HT|].
      exists thx'. split_and!; auto.
Qed.

(** The entries the loop has moved past are wait all blocks. *)
Definition skipped_ok (E : tid → Prop) (s : KSTATE) (skipped : list wait_entry) : Prop :=
  ∀ x k, (x, k) ∈ skipped → ∃ bs b, waits E s x bs ∧ bs !! k = Some b ∧ WaitType b = WaitAll.

Lemma skipped_woken E P s1 s2 t w st skipped :
  wait_inv E P s1 → skipped_ok E s1 skipped → (∀ x k, (x, k) ∈ skipped → x ≠ t) →
  woken t w st s1 s2 → skipped_ok E s2 skipped.
Proof.
  intros Hi Hsk Hne Hwk x k Hin. destruct (Hsk x k Hin) as (bs & b & Hw & Hb & Hall).
  exists bs, b. split; [|done]. pose proof Hw as Hw'.
  apply waits_thread in Hw' as (HE & th & Hth & Hst & Hbs).
  destruct (wk_others _ _ _ _ _ Hwk x th (Hne _ _ Hin) Hth) as (th' & Hth' & _ & Hsame & _).
  rewrite Hsame in Hth' by
    (auto; intros (j & c & Hj & Hc); rewrite Hbs in Hj;
     destruct (wi_alone _ _ _ Hi _ _ _ _ Hw Hj Hc) as [Hone Hty]; rewrite Hone in Hb;
     apply list_lookup_singleton_Some in Hb as [_ <-]; congruence).
  apply waits_thread. eauto 10.
Qed.

Lemma skipped_other E P s o ob skipped t i rest x k :
  wait_inv E P s → skipped_ok E s skipped → Objects s !! o = Some ob →
  WaitListHead ob = skipped ++ (t, i) :: rest → (x, k) ∈ skipped → x ≠ t.
Proof.
  intros Hi Hsk Ho Hl Hin ->. destruct (Hsk t k Hin) as (bs & b & Hw & Hb & Hall).
  pose proof (wi_nodup _ _ _ Hi _ _ Ho) as Hnd. rewrite Hl in Hnd.
  assert (Hon : ∀ m, (t, m) ∈ WaitListHead ob → ∃ c, bs !! m = Some c ∧ WaitObject c = o).
  { intros m (bs' & c & Hw' & Hm & Hc)%(wi_list _ _ _ Hi _ _ _ _ Ho).
    destruct Hw as [_ Hw], Hw' as [_ Hw']. rewrite Hw in Hw'. injection Hw' as <-. eauto. }
  destruct (Hon k) as (ck & Hk & Hko); [rewrite Hl; apply elem_of_app; by left|].
  destruct (Hon i) as (ci & Hci & Hio);
    [rewrite Hl; apply elem_of_app; right; apply elem_of_cons; by left|].
  pose proof (bw_distinct _ _ (wi_blocks _ _ _ Hi _ _ Hw) _ _ Hb Hall) as Hd.
  assert (k = i) as ->.
  { apply (NoDup_lookup _ _ _ o Hd); rewrite list_lookup_fmap; [rewrite Hk|rewrite Hci];
      simpl; congruence. }
  apply NoDup_app in Hnd as (_ & Hdis & _). apply (Hdis _ Hin), elem_of_cons. by left.
Qed.

Lemma filter_other_threads t (l : list wait_entry) :
  (∀ x k, (x, k) ∈ l → x ≠ t) → filter (λ e, e.1 ≠ t) l = l.
Proof. intros H. apply filter_id. intros [x k] Hin. simpl. eauto. Qed.

(** After a waiter is woken the loop goes on with a shorter list. *)
Lemma next_round E P s s1 s2 o ob t i w st skipped rest :
  wait_inv E (pending o P skipped) s → Objects s !! o = Some ob →
  WaitListHead ob = skipped ++ (t, i) :: rest → skipped_ok E s skipped →
  satisfied t s s1 → woken t w st s1 s2 → (o = KiSwapEvent → on_swap_event w) →
  inv E (pending o P skipped) s2 →
  ∃ ob2 rest2, Objects s2 !! o = Some ob2 ∧ WaitListHead ob2 = skipped ++ rest2 ∧
    (length rest2 < length ((t, i) :: rest))%nat ∧ skipped_ok E s2 skipped.
Proof.
  intros Hwi Ho Hl Hsk Hsf Hwk Hon Hi2.
  assert (Hsk1 : skipped_ok E s1 skipped).
  { intros x k Hin. destruct (Hsk x k Hin) as (bs & b & [? Hv] & ?). exists bs, b.
    split; [|done]. split; [done|]. by rewrite (proj2 (satisfied_views _ _ _ x Hsf)). }
  assert (Hne : ∀ x k, (x, k) ∈ skipped → x ≠ t) by (intros; by eapply skipped_other).
  pose proof (sf_objects _ _ _ Hsf o) as Hle. rewrite Ho in Hle.
  inversion Hle as [? ob1 [Hl1 _ _ _] Heq Heq1|]; subst.
  destruct (decide (o = KiSwapEvent)) as [->|Hns].
  - assert (skipped = []) as ->.
    { destruct skipped as [|[x k] l]; [done|].
      destruct (Hsk x k) as (bs & b & Hw & Hb & Hall); [apply elem_of_cons; by left|].
      assert ((x, k) ∈ WaitListHead ob) as Hin by (rewrite Hl; apply elem_of_cons; by left).
      apply (wi_list _ _ _ Hwi _ _ _ _ Ho) in Hin as (bs' & b' & Hw' & Hb' & Hbo).
      destruct (wi_alone _ _ _ Hwi _ _ _ _ Hw' Hb' Hbo) as [_ ?].
      destruct Hw as [_ Hw], Hw' as [_ Hw']. rewrite Hw in Hw'. injection Hw' as <-.
      exfalso. congruence. }
    destruct (wi_swap _ _ _ (inv_wait _ _ _ Hi2)) as (ev & Hev & _).
    exists ev, (WaitListHead ev). split; [done|]. split; [done|].
    pose proof (wk_swap_waiters _ _ _ _ _ Hwk (Hon eq_refl)) as Hlt.
    rewrite (satisfied_waiters _ _ _ Hsf) in Hlt. unfold swap_waiters in Hlt.
    rewrite Hev, Ho, Hl in Hlt. split; [done|]. intros x k ?%elem_of_nil. done.
  - rewrite (wk_objects _ _ _ _ _ Hwk), <- Heq1 by done. simpl.
    eexists _, (filter (λ e, e.1 ≠ t) rest). split; [done|]. simpl. rewrite Hl1, Hl.
    split; [|split].
    + rewrite list.filter_app, filter_other_threads by done. f_equal.
      rewrite list.filter_cons. by rewrite decide_False by (simpl; tauto).
    + apply Nat.lt_succ_r, length_filter.
    + apply (skipped_woken E (pending o P skipped) s1 s2 t w st); try done.
      eapply wait_inv_le; [apply Hsf| |exact Hwi]. intros x bs. unfold waits.
      by rewrite (proj2 (satisfied_views _ _ _ x Hsf)).
Qed.

Lemma wait_test_loop_ok o inc fuel : ∀ E P skipped rest ob s,
  inv E (pending o P skipped) s → Objects s !! o = Some ob →
  WaitListHead ob = skipped ++ rest → skipped_ok E s skipped → (length rest < fuel)%nat →
  (o = KiSwapEvent ∧ (swap_waiters s ≤ S n)%nat ∨ o ≠ KiSwapEvent ∧ (swap_waiters s ≤ n)%nat) →
  ∃ s', wait_test_loop (ready_thread2 test) fuel o inc (last skipped) s = Some s' ∧
    inv E P s' ∧ progress s s' ∧ (o = KiSwapEvent → frame no_thread s s').
Proof.
  induction fuel as [|fuel IH]; intros E P skipped rest ob s Hi Ho Hl Hsk Hfuel Hn; [lia|].
  pose proof (inv_wait _ _ _ Hi) as Hwi.
  cbn [wait_test_loop]. rewrite Ho. cbn [mbind option_bind]. rewrite Hl.
  rewrite Flink_last by (rewrite <- Hl; by eapply wi_nodup). cbn [mbind option_bind].
  assert (Hdone : WaitListHead ob = skipped ∨ SignalState ob ≤ 0 →
    ∃ s', Some s = Some s' ∧ inv E P s' ∧ progress s s' ∧
          (o = KiSwapEvent → frame no_thread s s')).
  { intros Hend. exists s. split; [done|]. split; [by eapply pending_end|].
    split; [reflexivity|]. intros _. apply frame_refl. }
  destruct rest as [|[t i] rest]; cbn [head]; [apply Hdone; left; by rewrite Hl, app_nil_r|].
  destruct (Z.leb_spec (SignalState ob) 0) as [|Hpos]; [by apply Hdone; right|]. clear Hdone.
  assert (Hin : (t, i) ∈ WaitListHead ob).
  { rewrite Hl. apply elem_of_app. right. apply elem_of_cons. by left. }
  apply (wi_list _ _ _ Hwi _ _ _ _ Ho) in Hin as (bs & b & Hw & Hb & Hbo).
  pose proof Hw as Hw'. apply waits_thread in Hw' as (HE & th & Hth & Hst & <-).
  rewrite Hth. cbn [mbind option_bind]. rewrite Hb. cbn [mbind option_bind].
  destruct (can_satisfy_ok E _ s t th i b Hwi Hw Hth Hb) as (r & -> & Hr).
  cbn [mbind option_bind]. destruct r.
  - assert (Hn' : (swap_waiters s ≤ n)%nat ∨ o = KiSwapEvent ∧ (swap_waiters s ≤ S n)%nat)
      by (destruct Hn as [[? ?]|[? ?]]; auto).
    destruct (wake_ok E _ s o ob t th i b inc Hi Ho Hpos Hth Hw Hb Hbo Hr Hn')
      as (s1 & s2 & w & -> & Hrun & Hi2 & Hsf & Hw1 & Hwk & Hg).
    cbn [mbind option_bind]. rewrite Hrun. cbn [mbind option_bind].
    pose proof (wake_progress t th w (WaitKey b) s s1 s2 Hsf Hth Hst Hw1 Hwk) as Hpg.
    pose proof (satisfied_waiters _ _ _ Hsf) as Hsw.
    assert (Hon : o = KiSwapEvent → on_swap_event w).
    { intros ->. destruct (sf_thread _ _ _ Hsf) as (th0 & a & ws & m & H0 & H1).
      rewrite Hth in H0. injection H0 as <-. rewrite Hw1 in H1. apply (inj Some) in H1 as ->.
      by exists i, b. }
    assert (Hfr : o = KiSwapEvent → frame no_thread s s2).
    { intros ->. eapply wake_swap_frame; try done. apply Hg.
      by destruct (wi_alone _ _ _ Hwi _ _ _ _ Hw Hb Hbo). }
    destruct (next_round E P s s1 s2 o ob t i w (WaitKey b) skipped rest) as (ob2 & rest2 & H2 & Hl2 & Hlen & Hsk2);
      try done.
    destruct (IH E P skipped rest2 ob2 s2 Hi2 H2 Hl2 Hsk2) as (s' & Hr' & Hi' & Hpg' & Hfr');
      [eapply Nat.lt_le_trans; [exact Hlen|]; apply Nat.lt_succ_r, Hfuel| |].
    { pose proof (wk_waiters _ _ _ _ _ Hwk). destruct Hn as [[? ?]|[? ?]]; [left|right]; (split; [done|lia]). }
    exists s'. split; [done|]. split; [done|]. split; [by etrans|].
    intros Heq. eapply frame_trans; [by apply Hfr|by apply Hfr'].
  - destruct Hr as (Hall & j & b' & Hne & Hj & Hk & Hsig).
    assert (Hns : o ≠ KiSwapEvent).
    { intros ->. destruct (wi_alone _ _ _ Hwi _ _ _ _ Hw Hb Hbo) as [_ ?]. congruence. }
    destruct (IH E P (skipped ++ [(t, i)]) rest ob s) as (s' & Hr' & ?); try done.
    + by eapply pending_skip.
    + by rewrite Hl, <- (assoc_L (++)).
    + intros x k [?|[= -> ->]%list_elem_of_singleton]%elem_of_app; [auto|eauto].
    + simpl in Hfuel. lia.
    + rewrite last_snoc in Hr'. by exists s'.
Qed.

(** [KiWaitTest] with enough nested tests of the swap event allowed. *)
Lemma wait_test_ok E P o ob inc s :
  inv E (or_depends P o) s → Objects s !! o = Some ob →
  (o = KiSwapEvent ∧ (swap_waiters s ≤ S n)%nat ∨ o ≠ KiSwapEvent ∧ (swap_waiters s ≤ n)%nat) →
  ∃ s', wait_test (ready_thread2 test) o inc s = Some s' ∧ inv E P s' ∧ progress s s' ∧
    (o = KiSwapEvent → frame no_thread s s').
Proof.
  intros Hi Ho Hn. unfold wait_test. rewrite Ho. cbn [mbind option_bind].
  change None with (last (@nil wait_entry)).
  eapply (wait_test_loop_ok o inc _ E P [] (WaitListHead ob)); eauto using pending_start.
  intros x k ?%elem_of_nil. done.
Qed.

End wait_test.
