(* ===== verification/KeObjects.v ===== *)
(** * Events, semaphores and mutants ([KE/EVENTOBJ.C], [SEMPHOBJ.C], [MUTNTOBJ.C])

    Each routine as its source has it: the dispatcher lock is acquired, the object
    changed, waiters tested, and the lock released, or kept when the caller goes
    on to wait ([Wait]). [None] stands for a state no caller may present (an
    object that does not exist or is of another type) and for nothing else. *)

From stdpp Require Import base list numbers option gmap.
From S2P Require Import Prelude KeState KeSched KeWait.

(** The tail of every routine with a [Wait] argument: the lock stays held and the
    interrupt level to return to is left in the thread, or the lock is released. *)
Definition leave_dispatcher (Thread : tid) (Wait : bool) (OldIrql : Z) (s : KSTATE) :
    option KSTATE :=
  if Wait then
    th ← Threads s !! Thread;
    Some (put_thread Thread (th <| WaitIrql := OldIrql |>) s)
  else KiUnlockDispatcherDatabase OldIrql s.

Definition set_wait_next (Thread : tid) (Wait : bool) (s : KSTATE) : option KSTATE :=
  th ← Threads s !! Thread; Some (put_thread Thread (th <| WaitNext := Wait |>) s).

(** [Event->Header.SignalState = ...] *)
Definition set_signal (o : oid) (v : Z) (s : KSTATE) : option KSTATE :=
  ob ← Objects s !! o; Some (put_object o (ob <| SignalState := v |>) s).

(** ** Events *)

Definition KeInitializeEvent (o : oid) (Type_ : KBODY) (State : bool) (s : KSTATE) : KSTATE :=
  put_object o (mkObject Type_ (if State then 1 else 0) []) s.

Definition KeInitializeEventPair (EventLow EventHigh : oid) (s : KSTATE) : KSTATE :=
  KeInitializeEvent EventHigh SynchronizationEvent false
    (KeInitializeEvent EventLow SynchronizationEvent false s).

Definition KeClearEvent (o : oid) (s : KSTATE) : option KSTATE := set_signal o 0 s.

Definition KeReadStateEvent (o : oid) (s : KSTATE) : option Z :=
  ob ← Objects s !! o; Some (SignalState ob).

Definition KePulseEvent (o : oid) (Increment : Z) (Wait : bool) (s : KSTATE) :
    option (outcome * KSTATE) :=
  let Thread := CurrentThread s in
  let '(s, OldIrql) := KiLockDispatcherDatabase s in
  ob ← Objects s !! o;
  let OldState := SignalState ob in
  s ← set_wait_next Thread Wait s;
  s ← (if (OldState =? 0) && bool_decide (WaitListHead ob ≠ [])
       then KiWaitTest o Increment (put_object o (ob <| SignalState := 1 |>) s)
       else Some s);
  s ← set_signal o 0 s;
  s ← leave_dispatcher Thread Wait OldIrql s;
  Some (Returned OldState, s).

Definition KeResetEvent (o : oid) (s : KSTATE) : option (outcome * KSTATE) :=
  let '(s, OldIrql) := KiLockDispatcherDatabase s in
  ob ← Objects s !! o;
  let OldState := SignalState ob in
  s ← set_signal o 0 s;
  s ← KiUnlockDispatcherDatabase OldIrql s;
  Some (Returned OldState, s).

Definition KeSetEvent (o : oid) (Increment : Z) (Wait : bool) (s : KSTATE) :
    option (outcome * KSTATE) :=
  let '(s, OldIrql) := KiLockDispatcherDatabase s in
  ob ← Objects s !! o;
  let OldState := SignalState ob in
  s ← (if OldState =? 0 then
         let s := put_object o (ob <| SignalState := 1 |>) s in
         if decide (WaitListHead ob = []) then Some s else KiWaitTest o Increment s
       else Some s);
  let Thread := CurrentThread s in
  s ← (if Wait then set_wait_next Thread Wait s else Some s);
  s ← leave_dispatcher Thread Wait OldIrql s;
  Some (Returned OldState, s).

(** The event of a fast mutex: the first waiter is unwaited, and returned. *)
Definition KeSetEventBoostPriority (o : oid) (s : KSTATE) : option (option tid * KSTATE) :=
  let '(s, OldIrql) := KiLockDispatcherDatabase s in
  ob ← Objects s !! o;
  let s := put_object o (ob <| SignalState := 1 |>) s in
  '(r, s) ← match WaitListHead ob with
            | [] => Some (None, s)
            | (WaitThread, _) :: _ =>
                s ← KiUnwaitThread WaitThread STATUS_SUCCESS 1
                      (put_object o (ob <| SignalState := 0 |>) s);
                Some (Some WaitThread, s)
            end;
  s ← KiUnlockDispatcherDatabase OldIrql s;
  Some (r, s).

(** ** Semaphores *)

Definition KeInitializeSemaphore (o : oid) (Count Limit : Z) (s : KSTATE) : KSTATE :=
  put_object o (mkObject (SemaphoreObject Limit) Count []) s.

Definition KeReadStateSemaphore (o : oid) (s : KSTATE) : option Z :=
  ob ← Objects s !! o; Some (SignalState ob).

Definition KeReleaseSemaphore (o : oid) (Increment Adjustment : Z) (Wait : bool) (s : KSTATE) :
    option (outcome * KSTATE) :=
  let Thread := CurrentThread s in
  let '(s, OldIrql) := KiLockDispatcherDatabase s in
  ob ← Objects s !! o;
  match Body ob with
  | SemaphoreObject Limit =>
      let OldState := SignalState ob in
      let NewState := s32 (OldState + Adjustment) in
      if (Limit <? NewState) || (NewState <? OldState) then
        s ← KiUnlockDispatcherDatabase OldIrql s;
        Some (Raised STATUS_SEMAPHORE_LIMIT_EXCEEDED, s)
      else
        s ← set_wait_next Thread Wait (put_object o (ob <| SignalState := NewState |>) s);
        s ← (if (OldState =? 0) && bool_decide (WaitListHead ob ≠ [])
             then KiWaitTest o Increment s else Some s);
        s ← leave_dispatcher Thread Wait OldIrql s;
        Some (Returned OldState, s)
  | _ => None
  end.

(** ** Mutants *)

Definition KeInitializeMutant (o : oid) (InitialOwner : bool) (s : KSTATE) : option KSTATE :=
  if InitialOwner then
    let Thread := CurrentThread s in
    th ← Threads s !! Thread;
    Some (put_thread Thread (th <| MutantList := MutantList th ++ [o] |>)
            (put_object o (mkObject (MutantObject (Some Thread) false 0) 0 []) s))
  else Some (put_object o (mkObject (MutantObject None false 0) 1 []) s).

Definition KeInitializeMutex (o : oid) (s : KSTATE) : KSTATE :=
  put_object o (mkObject (MutantObject None false 1) 1 []) s.

Definition KeReadStateMutant (o : oid) (s : KSTATE) : option Z :=
  ob ← Objects s !! o; Some (SignalState ob).

(** [RemoveEntryList(&Mutant->MutantListEntry)]: the mutant leaves the list of
    its owner. *)
Definition remove_mutant (o : oid) (OwnerThread : option tid) (s : KSTATE) : option KSTATE :=
  w ← OwnerThread;
  th ← Threads s !! w;
  Some (put_thread w (th <| MutantList := filter (λ x, x ≠ o) (MutantList th) |>) s).

(** The thread gets its kernel APCs back; pending ones are requested. *)
Definition enable_apcs (Thread : tid) (ApcDisable : Z) (s : KSTATE) : option KSTATE :=
  th ← Threads s !! Thread;
  let th := th <| KernelApcDisable := u8 (KernelApcDisable th + ApcDisable) |> in
  Some (if (KernelApcDisable th =? 0) && KernelApcQueued th
        then put_thread Thread (th <| KernelApcPending := true |>) s <| ApcInterrupt := true |>
        else put_thread Thread th s).

(** The mutant's signal state became one. *)
Definition free_mutant (o : oid) (Thread : tid) (OldState Increment : Z) (s : KSTATE) :
    option KSTATE :=
  ob ← Objects s !! o;
  match Body ob with
  | MutantObject OwnerThread Abandoned ApcDisable =>
      s ← (if OldState <=? 0 then
             s ← remove_mutant o OwnerThread s; enable_apcs Thread ApcDisable s
           else Some s);
      let s := put_object o (ob <| Body := MutantObject None Abandoned ApcDisable |>) s in
      if decide (WaitListHead ob = []) then Some s else KiWaitTest o Increment s
  | _ => None
  end.

(** [Mutant->Abandoned]. *)
Definition is_abandoned (ob : KOBJECT) : option bool :=
  match Body ob with MutantObject _ Abandoned _ => Some Abandoned | _ => None end.

Definition KeReleaseMutant (o : oid) (Increment : Z) (Abandoned Wait : bool) (s : KSTATE) :
    option (outcome * KSTATE) :=
  let Thread := CurrentThread s in
  let '(s, OldIrql) := KiLockDispatcherDatabase s in
  ob ← Objects s !! o;
  let OldState := SignalState ob in
  s ← set_wait_next Thread Wait s;
  match Body ob with
  | MutantObject OwnerThread _ ApcDisable =>
      if negb Abandoned && negb (bool_decide (OwnerThread = Some Thread)) then
        s ← KiUnlockDispatcherDatabase OldIrql s;
        ob ← Objects s !! o;
        a ← is_abandoned ob;
        Some (Raised (if a : bool then STATUS_ABANDONED else STATUS_MUTANT_NOT_OWNED), s)
      else
        let ob := if Abandoned
                  then ob <| SignalState := 1 |> <| Body := MutantObject OwnerThread true ApcDisable |>
                  else ob <| SignalState := s32 (SignalState ob + 1) |> in
        let s := put_object o ob s in
        s ← (if SignalState ob =? 1 then free_mutant o Thread OldState Increment s else Some s);
        s ← leave_dispatcher Thread Wait OldIrql s;
        Some (Returned OldState, s)
  | _ => None
  end.

Definition KeReleaseMutex (o : oid) (Wait : bool) (s : KSTATE) : option (outcome * KSTATE) :=
  KeReleaseMutant o 1 false Wait s.
