(* ===== verification/KeBlock.v ===== *)
(** * Waiting ([KE/WAIT.C], with [KE/TIMERSUP.C] and [KiActivateWaiterQueue])

    [KeWaitForSingleObject] and [KeWaitForMultipleObjects]. A call that has to
    wait ends in a context switch: the model gives the state in which another
    thread goes on. The calling thread resumes after its call of [KiSwapContext]
    when it is selected again; it then returns its [WaitStatus], unless that is
    [STATUS_KERNEL_APC], when the body of the loop runs again. A body is one
    definition, [wait_single_pass] or [wait_multiple_pass]. *)

From stdpp Require Import base list numbers option gmap.
From S2P Require Import Prelude KeState KeSched KeWait KeObjects.

(** How a pass through the loop ends: the call returns or raises; the thread waits
    and another was switched to; or (a kernel APC was pending) the lock was
    released and the loop goes on; or the system stops ([KeBugCheck]). *)
Inductive wait_result := WaitDone (r : outcome) | WaitBlocked | WaitAgain | WaitBugCheck.

(** ** Timers *)

(** [KiComputeTimerTableIndex] stores the due time and returns the index: the high
    64 bits of its product with the reciprocal of the time increment, shifted. *)
Definition KiComputeTimerTableIndex (Interval CurrentTime : Z) (s : KSTATE) : Z * Z :=
  let DueTime := u64 (CurrentTime - Interval) in
  (Z.land (Z.shiftr (Z.shiftr (DueTime * KiTimeIncrementReciprocal s) 64)
                    (KiTimeIncrementShiftCount s)) (TIMER_TABLE_SIZE - 1), DueTime).

(** The search from the back of a timer list, given reversed, for a timer due no
    later; [later] are the timers passed. The flag says that there was none, so
    the timer is now first. *)
Fixpoint insert_due (s : KSTATE) (o : oid) (DueTime_ : Z) (rev_list later : list oid) :
    option (list oid * bool) :=
  match rev_list with
  | [] => Some (o :: later, true)
  | NextTimer :: rest =>
      tm ← Timers s !! NextTimer;
      if DueTime tm <=? DueTime_ then Some (reverse rest ++ NextTimer :: o :: later, false)
      else insert_due s o DueTime_ rest (NextTimer :: later)
  end.

Definition put_timer (o : oid) (tm : KTIMER) (s : KSTATE) : KSTATE :=
  s <| Timers := <[o := tm]> (Timers s) |>.

Definition timer_expired (o : oid) (s : KSTATE) : option (KSTATE * bool) :=
  s ← set_signal o 1 s; Some (s, false).

(** [KiInsertTreeTimer]: whether the timer was inserted. *)
Definition KiInsertTreeTimer (o : oid) (Interval : Z) (s : KSTATE) : option (KSTATE * bool) :=
  s ← set_signal o 0 s;
  tm ← Timers s !! o;
  let TimeDifference := s64 (SystemTime s - Interval) in
  if (0 <=? Interval) && (0 <=? TimeDifference)
  then timer_expired o (put_timer o (tm <| Inserted := false |>) s)
  else
    let Interval := if 0 <=? Interval then TimeDifference else Interval in
    let '(Index, Due) := KiComputeTimerTableIndex Interval (InterruptTime s) s in
    let s := put_timer o (tm <| Inserted := true |> <| DueTime := Due |>) s in
    l ← array_get (KiTimerTable s) Index;
    '(l, first) ← insert_due s o Due (reverse l) [];
    table ← array_set (KiTimerTable s) Index l;
    let s := s <| KiTimerTable := table |> in
    if first && (Due <=? u64 (InterruptTime s)) then
      s ← KiRemoveTreeTimer o s; timer_expired o s
    else Some (s, true).

(** ** Queues *)

(** [KiActivateWaiterQueue]: the current thread stops processing entries of a
    queue, so the last waiter may take the first entry. *)
Definition KiActivateWaiterQueue (q : oid) (s : KSTATE) : option KSTATE :=
  qu ← Queues s !! q;
  ob ← Objects s !! q;
  let qu := qu <| CurrentCount := CurrentCount qu -u 1 |> in
  let s := s <| Queues := <[q := qu]> (Queues s) |> in
  if CurrentCount qu <? MaximumCount qu then
    match EntryList qu, last (WaitListHead ob) with
    | Entry :: rest, Some (Thread, _) =>
        let s := s <| Queues := <[q := qu <| EntryList := rest |>]> (Queues s) |> in
        KiUnwaitThread Thread Entry 0
          (put_object q (ob <| SignalState := s32 (SignalState ob - 1) |>) s)
    | _, _ => Some s
    end
  else Some s.

(** ** The common parts of a wait *)

(** The lock is held already if the last operation was called with [Wait]. *)
Definition begin_wait (s : KSTATE) : option KSTATE :=
  let Thread := CurrentThread s in
  th ← Threads s !! Thread;
  if WaitNext th then Some (put_thread Thread (th <| WaitNext := false |>) s)
  else
    let '(s, OldIrql) := KiLockDispatcherDatabase s in
    Some (put_thread Thread (th <| WaitIrql := OldIrql |>) s).

(** [TestForAlertPending]: the status to return with, if any. *)
Definition TestForAlertPending (Alertable_ UserMode : bool) (th : KTHREAD) :
    KTHREAD * option Z :=
  if Alertable_ then
    if (if UserMode then AlertedUser th else AlertedKernel th) then
      (if UserMode then th <| AlertedUser := false |> else th <| AlertedKernel := false |>,
       Some STATUS_ALERTED)
    else if UserMode && UserApcQueued th then
      (th <| UserApcPending := true |>, Some STATUS_USER_APC)
    else if AlertedKernel th then (th <| AlertedKernel := false |>, Some STATUS_ALERTED)
    else (th, None)
  else if UserMode && UserApcPending th then (th, Some STATUS_USER_APC)
  else (th, None).

(** The lock is released and the call ends. *)
Definition finish_wait (r : outcome) (s : KSTATE) : option (wait_result * KSTATE) :=
  th ← Threads s !! CurrentThread s;
  s ← KiUnlockDispatcherDatabase (WaitIrql th) s;
  Some (WaitDone r, s).

(** The wait blocks from position [i] on are put at the end of their objects' wait
    lists. *)
Fixpoint insert_blocks (t : tid) (i : nat) (bs : list KWAIT_BLOCK) (s : KSTATE) : option KSTATE :=
  match bs with
  | [] => Some s
  | b :: bs =>
      ob ← Objects s !! WaitObject b;
      insert_blocks t (S i) bs
        (put_object (WaitObject b) (ob <| WaitListHead := WaitListHead ob ++ [(t, i)] |>) s)
  end.

(** The thread, whose wait blocks are on their lists, waits and the next thread is
    switched to. *)
Definition block_thread (Reason : Z) (UserMode Alertable_ : bool) (bs : list KWAIT_BLOCK)
    (s : KSTATE) : option (wait_result * KSTATE) :=
  let Thread := CurrentThread s in
  th ← Threads s !! Thread;
  s ← match Queue th with Some q => KiActivateWaiterQueue q s | None => Some s end;
  th ← Threads s !! Thread;
  n ← array_get (KeWaitReason s) Reason;
  reasons ← array_set (KeWaitReason s) Reason (n +u 1);
  let s := s <| KeWaitReason := reasons |> in
  let th := th <| Alertable := Alertable_ |> <| UserWaitMode := UserMode |>
               <| WaitReason := Reason |> <| WaitTime := KeTickCount s |>
               <| State := Waiting |> <| WaitBlockList := bs |> in
  let s := put_thread Thread th s <| KiWaitInList := KiWaitInList s ++ [Thread] |> in
  '(s, next) ← KiSelectNextThread Thread s;
  s ← KiSwapContext next false s;
  Some (WaitBlocked, s).

(** What the wait call returns when its thread runs again: [KiSwapContext] returns
    the wait status; [None] means that the loop body runs again, after
    [KiLockDispatcherDatabase]. *)
Definition resume_wait (s : KSTATE) : option (option Z) :=
  th ← Threads s !! CurrentThread s;
  Some (if WaitStatus th =? STATUS_KERNEL_APC then None else Some (WaitStatus th)).

(** [KiComputeWaitInterval]: the time left until the thread's timer is due. *)
Definition KiComputeWaitInterval (o : oid) (s : KSTATE) : option Z :=
  tm ← Timers s !! o; Some (s64 (InterruptTime s - DueTime tm)).

(** ** KeWaitForSingleObject *)

Definition wait_single_pass (o : oid) (Reason : Z) (UserMode Alertable_ : bool)
    (Timeout : option Z) (s : KSTATE) : option (wait_result * KSTATE) :=
  let Thread := CurrentThread s in
  th ← Threads s !! Thread;
  if KernelApcPending th && (WaitIrql th <? APC_LEVEL) then
    s ← KiUnlockDispatcherDatabase (WaitIrql th) s; Some (WaitAgain, s)
  else
    let th := th <| WaitStatus := 0 |> in
    let s := put_thread Thread th s in
    ob ← Objects s !! o;
    let now := match Body ob with
               | MutantObject OwnerThread _ _ =>
                   (0 <? SignalState ob) || bool_decide (OwnerThread = Some Thread)
               | _ => 0 <? SignalState ob
               end in
    if now : bool then
      match Body ob with
      | MutantObject _ _ _ =>
          if SignalState ob =? MINLONG then finish_wait (Raised STATUS_MUTANT_LIMIT_EXCEEDED) s
          else
            s ← KiWaitSatisfyMutant o Thread s;
            th ← Threads s !! Thread;
            finish_wait (Returned (WaitStatus th)) s
      | _ => s ← KiWaitSatisfyOther o s; finish_wait (Returned 0) s
      end
    else
      let '(th, alert) := TestForAlertPending Alertable_ UserMode th in
      let s := put_thread Thread th s in
      match alert with
      | Some status => finish_wait (Returned status) s
      | None =>
          let block := mkWaitBlock o STATUS_SUCCESS WaitAny in
          match Timeout with
          | None =>
              s ← insert_blocks Thread 0 [block] s;
              block_thread Reason UserMode Alertable_ [block] s
          | Some interval =>
              if interval =? 0 then finish_wait (Returned STATUS_TIMEOUT) s
              else
                let timer := ThreadTimer Thread in
                let timer_block := mkWaitBlock timer STATUS_TIMEOUT WaitAny in
                tob ← Objects s !! timer;
                let s := put_object timer (tob <| WaitListHead := [(Thread, 1%nat)] |>) s in
                '(s, inserted) ← KiInsertTreeTimer timer interval s;
                if inserted : bool then
                  s ← insert_blocks Thread 0 [block] s;
                  block_thread Reason UserMode Alertable_ [block; timer_block] s
                else finish_wait (Returned STATUS_TIMEOUT) s
          end
      end.

Definition KeWaitForSingleObject (o : oid) (Reason : Z) (UserMode Alertable_ : bool)
    (Timeout : option Z) (s : KSTATE) : option (wait_result * KSTATE) :=
  s ← begin_wait s; wait_single_pass o Reason UserMode Alertable_ Timeout s.

(** ** KeWaitForMultipleObjects *)

(** The scan of the objects for a wait any, from object [Index] on: the end of the
    call, when an object satisfies the wait. *)
Fixpoint wait_any_scan (Thread : tid) (Index : Z) (os : list oid) (s : KSTATE) :
    option (option (wait_result * KSTATE)) :=
  match os with
  | [] => Some None
  | o :: os =>
      ob ← Objects s !! o;
      match Body ob with
      | MutantObject OwnerThread _ _ =>
          if (0 <? SignalState ob) || bool_decide (OwnerThread = Some Thread) then
            if SignalState ob =? MINLONG
            then r ← finish_wait (Raised STATUS_MUTANT_LIMIT_EXCEEDED) s; Some (Some r)
            else
              s ← KiWaitSatisfyMutant o Thread s;
              '(_, s) ← finish_wait (Returned Index) s;
              th ← Threads s !! Thread;
              Some (Some (WaitDone (Returned (Z.lor Index (WaitStatus th))), s))
          else wait_any_scan Thread (Index + 1) os s
      | _ =>
          if 0 <? SignalState ob then
            s ← KiWaitSatisfyOther o s;
            r ← finish_wait (Returned Index) s; Some (Some r)
          else wait_any_scan Thread (Index + 1) os s
      end
  end.

(** The scan for a wait all: [WaitSatisfied], or [None] when a mutant of the thread
    has been acquired too often. *)
Fixpoint wait_all_scan (Thread : tid) (WaitSatisfied : bool) (os : list oid) (s : KSTATE) :
    option (option bool) :=
  match os with
  | [] => Some (Some WaitSatisfied)
  | o :: os =>
      ob ← Objects s !! o;
      match Body ob with
      | MutantObject OwnerThread _ _ =>
          if bool_decide (OwnerThread = Some Thread) && (SignalState ob =? MINLONG)
          then Some None
          else if (SignalState ob <=? 0) && negb (bool_decide (OwnerThread = Some Thread))
          then wait_all_scan Thread false os s
          else wait_all_scan Thread WaitSatisfied os s
      | _ =>
          if SignalState ob <=? 0 then wait_all_scan Thread false os s
          else wait_all_scan Thread WaitSatisfied os s
      end
  end.

Definition wait_blocks (Type_ : WAIT_TYPE) (os : list oid) : list KWAIT_BLOCK :=
  imap (λ i o, mkWaitBlock o (Z.of_nat i) Type_) os.

(** The wait cannot be satisfied at once: alerts, the timeout, the wait. *)
Definition wait_multiple_block (Reason : Z) (UserMode Alertable_ : bool) (Timeout : option Z)
    (blocks : list KWAIT_BLOCK) (s : KSTATE) : option (wait_result * KSTATE) :=
  let Thread := CurrentThread s in
  th ← Threads s !! Thread;
  let '(th, alert) := TestForAlertPending Alertable_ UserMode th in
  let s := put_thread Thread th s in
  match alert with
  | Some status => finish_wait (Returned status) s
  | None =>
      match Timeout with
      | None =>
          s ← insert_blocks Thread 0 blocks s;
          block_thread Reason UserMode Alertable_ blocks s
      | Some interval =>
          if interval =? 0 then finish_wait (Returned STATUS_TIMEOUT) s
          else
            let timer := ThreadTimer Thread in
            let blocks := blocks ++ [mkWaitBlock timer STATUS_TIMEOUT WaitAny] in
            tob ← Objects s !! timer;
            let s := put_object timer (tob <| WaitListHead := [] |>) s in
            '(s, inserted) ← KiInsertTreeTimer timer interval s;
            if inserted : bool then
              s ← insert_blocks Thread 0 blocks s;
              block_thread Reason UserMode Alertable_ blocks s
            else finish_wait (Returned STATUS_TIMEOUT) s
      end
  end.

Definition wait_multiple_pass (os : list oid) (Type_ : WAIT_TYPE) (Reason : Z)
    (UserMode Alertable_ : bool) (Timeout : option Z) (s : KSTATE) :
    option (wait_result * KSTATE) :=
  let Thread := CurrentThread s in
  th ← Threads s !! Thread;
  if KernelApcPending th && (WaitIrql th <? APC_LEVEL) then
    s ← KiUnlockDispatcherDatabase (WaitIrql th) s; Some (WaitAgain, s)
  else
    let blocks := wait_blocks Type_ os in
    let s := put_thread Thread (th <| WaitStatus := 0 |>) s in
    match Type_ with
    | WaitAny =>
        r ← wait_any_scan Thread 0 os s;
        match r with
        | Some r => Some r
        | None => wait_multiple_block Reason UserMode Alertable_ Timeout blocks s
        end
    | WaitAll =>
        r ← wait_all_scan Thread true os s;
        match r with
        | None => finish_wait (Raised STATUS_MUTANT_LIMIT_EXCEEDED) s
        | Some true =>
            th ← Threads s !! Thread;
            let s := put_thread Thread (th <| WaitBlockList := blocks |>) s in
            s ← KiWaitSatisfy Thread (pred (length blocks)) s;
            th ← Threads s !! Thread;
            finish_wait (Returned (WaitStatus th)) s
        | Some false => wait_multiple_block Reason UserMode Alertable_ Timeout blocks s
        end
    end.

Definition KeWaitForMultipleObjects (os : list oid) (Type_ : WAIT_TYPE) (Reason : Z)
    (UserMode Alertable_ : bool) (Timeout : option Z) (WaitBlockArray : bool) (s : KSTATE) :
    option (wait_result * KSTATE) :=
  s ← begin_wait s;
  if bool_decide ((if WaitBlockArray then MAXIMUM_WAIT_OBJECTS else THREAD_WAIT_OBJECTS)
                  < length os)%nat
  then Some (WaitBugCheck, s)
  else wait_multiple_pass os Type_ Reason UserMode Alertable_ Timeout s.

(** ** The idle loop

    [KiIdleLoop] switches to the thread selected to run next. *)
Definition idle_switch (s : KSTATE) : option KSTATE :=
  match NextThread s with
  | Some next => KiSwapContext next false (s <| NextThread := None |>)
  | None => Some s
  end.
