(* ===== verification/KeOps.v ===== *)
(** * The dispatcher's entry points keep the invariants

    The recursion between [KiWaitTest] and [KiReadyThread] is well founded: as
    many nested tests as the swap event has waiters are enough. Then the routines
    the rest of the kernel calls with the dispatcher lock held, and the release
    of the lock. *)

From stdpp Require Import base list numbers option gmap sets.
From S2P Require Import Prelude KeState KeSched KeWait KeInv KeReady KeFrame KeTest.

Lemma test_swap_event_ok depth : ∀ n, (n ≤ depth)%nat → swap_spec (test_swap_event depth) n.
Proof.
  induction depth as [|depth IH]; intros n Hn E P s Hi Hw; [lia|].
  destruct (wi_swap _ _ _ (inv_wait _ _ _ Hi)) as (ev & Hev & _).
  destruct (wait_test_ok (test_swap_event depth) depth (IH depth ltac:(lia)) E P KiSwapEvent ev
              BALANCE_INCREMENT s Hi Hev) as (s' & Hr & Hi' & _ & Hf).
  { left. split; [done|lia]. }
  exists s'. auto.
Qed.

Lemma swap_depth_ok E P s :
  wait_inv E P s → swap_spec (test_swap_event (swap_depth s)) (swap_waiters s) ∧
    (swap_waiters s < swap_depth s)%nat.
Proof.
  intros Hi. destruct (wi_swap _ _ _ Hi) as (ev & Hev & _).
  unfold swap_depth, swap_waiters. rewrite Hev. split; [|lia]. apply test_swap_event_ok. lia.
Qed.

Lemma KiWaitTest_ok E P o ob inc s :
  inv E (or_depends P o) s → Objects s !! o = Some ob →
  ∃ s', KiWaitTest o inc s = Some s' ∧ inv E P s' ∧ progress s s'.
Proof.
  intros Hi Ho. destruct (swap_depth_ok _ _ _ (inv_wait _ _ _ Hi)) as [Hspec _].
  destruct (wait_test_ok _ _ Hspec E P o ob inc s Hi Ho) as (s' & Hr & Hi' & Hp & _).
  { destruct (decide (o = KiSwapEvent)); [left|right]; (split; [done|lia]). }
  exists s'. auto.
Qed.

Lemma KiReadyThread_ok E P t th s :
  inv (excluded t E) P s → Threads s !! t = Some th → ¬ E t → t ≠ CurrentThread s →
  ProcessReadyQueue th = false →
  ∃ s', KiReadyThread t s = Some s' ∧ readied E P t th s s'.
Proof.
  intros Hi Hth HE Hnc Hr. destruct (swap_depth_ok _ _ _ (inv_wait _ _ _ Hi)) as [Hspec _].
  unfold KiReadyThread, ready_thread2.
  exact (ready_thread_ok _ _ Hspec 2 E P t th s Hi Hth HE Hnc Hr (le_n _) (or_introl (le_n _))).
Qed.

Lemma KiUnwaitThread_ok E P t th Status inc s :
  inv E P s → Threads s !! t = Some th → State th = Waiting → ¬ E t →
  ∃ s', KiUnwaitThread t Status inc s = Some s' ∧ inv E P s' ∧ woken t th Status s s'.
Proof.
  intros Hi Hth Hst HE. destruct (swap_depth_ok _ _ _ (inv_wait _ _ _ Hi)) as [Hspec _].
  unfold KiUnwaitThread.
  exact (unwait_thread_ok _ _ Hspec E P s t th Status inc Hi Hth Hst HE (or_introl (le_n _))).
Qed.

(** ** Switching threads *)

(** A thread that is on no list becomes the current thread; no other thread but
    the idle thread runs. *)
Lemma SwapContext_ok E P s t th :
  sched_inv (excluded t E) s → wait_inv (excluded t E) P s → object_inv s → thread_inv s →
  Threads s !! t = Some th → ¬ E t → ProcessReadyQueue th = false →
  (∀ x r q, ¬ E x → x ≠ t → sched_view s x = Some (Running, r, q) → x = IdleThread s) →
  dispatch_ok (s <| CurrentThread := t |>) →
  ∃ s', SwapContext t s = Some s' ∧ inv E P s' ∧ CurrentThread s' = t ∧
    s' = put_thread t (th <| State := Running |>)
           (s <| CurrentThread := t |> <| Irql := WaitIrql th |>).
Proof.
  intros Hs Hw Ho Ht Hth HE Hr Hrun Hd. unfold SwapContext. rewrite Hth.
  cbn [mbind option_bind]. eexists. split; [done|]. split; [|done].
  set (th' := th <| State := Running |>).
  assert (Hv : ∀ x, sched_view (put_thread t th' (s <| CurrentThread := t |>
     <| Irql := WaitIrql th |>)) x =
     if decide (x = t) then Some (Running, ProcessReadyQueue th, Priority th) else sched_view s x)
    by (intros x; exact (sched_view_put t th' s x)).
  split.
  - destruct Hs as [Hl Hsu Hb Hiq Hnd Hnx Hru Hc].
    split; unfold ready_queue; simpl; try setoid_rewrite Hv; auto.
    + intros p' q x Hq. rewrite (Hiq _ _ _ Hq). unfold excluded.
      destruct (decide (x = t)) as [->|]; [|tauto]. split; [tauto|]. by intros [_ [=]].
    + intros x. rewrite Hnx. unfold excluded. destruct (decide (x = t)) as [->|]; [|tauto].
      split; [tauto|]. by intros (_ & ? & ? & [=]).
    + intros x r q HEx. destruct (decide (x = t)) as [->|Hne]; [by left|].
      intros Hx. right. eauto.
    + rewrite decide_True by done. eauto.
  - unfold dispatch_ok in *. simpl (KiIdleSummary _) in *. destruct (KiIdleSummary s =? 0); [|done].
    destruct Hd as (st & r & p & Hvt & Hno).
    match goal with |- context [sched_view ?x] => set (s' := x) in * end.
    change (top_thread s') with (top_thread (s <| CurrentThread := t |>)).
    rewrite Hv. destruct (decide _) as [Heq|].
    + eexists _, _, _. split; [done|]. rewrite Heq in Hvt.
      change (sched_view s t = Some (st, r, p)) in Hvt.
      rewrite (sched_view_Some _ _ _ Hth) in Hvt. injection Hvt as _ _ ->. exact Hno.
    + exists st, r, p. done.
  - apply (wait_inv_same E P (put_thread t th' s)); [done|done|].
    by apply leave_wait.
  - apply (object_inv_same (put_thread t th' s)); [done|done|].
    by apply (object_inv_put_thread _ _ th).
  - apply (thread_inv_kept (put_thread t th' s)); [done|by split_and!|].
    apply thread_inv_put; [done|]. apply (restated_ok s t th); [by split| |auto].
    simpl. congruence.
  - split.
    + change (NextThread s ≠ Some t). intros [Hx _]%(si_next _ _ Hs). apply Hx. by left.
    + exists th'. simpl. rewrite lookup_insert_eq. done.
Qed.

(** ** Releasing the dispatcher lock *)

(** Releasing the lock may switch threads, but no object other than the swap
    event changes and no thread is woken but from the swap event. *)
Record released (s s' : KSTATE) : Prop := {
  rl_idle : IdleThread s' = IdleThread s;
  rl_objects o : o ≠ KiSwapEvent → Objects s' !! o = Objects s !! o;
  rl_threads t th : Threads s !! t = Some th → ∃ th', Threads s' !! t = Some th' ∧
    MutantList th' = MutantList th ∧ KernelApcDisable th' = KernelApcDisable th ∧
    WaitBlockList th' = WaitBlockList th ∧ WaitNext th' = WaitNext th ∧
    BasePriority th' = BasePriority th ∧
    (State th = Waiting → ¬ on_swap_event th → th' = th) ∧
    (State th ≠ Waiting → State th' ≠ Waiting ∧ WaitStatus th' = WaitStatus th)
}.

Lemma released_refl s s' :
  Threads s' = Threads s → Objects s' = Objects s → IdleThread s' = IdleThread s → released s s'.
Proof.
  intros Ht Ho Hi. split; [done| |]; rewrite ?Ho, ?Ht; [done|]. intros t th H. exists th. done.
Qed.

(** The state in which the old thread is readied. *)
Lemma handover_ok s old next th thn irql :
  dispatcher_ok s → CurrentThread s = old → old ≠ IdleThread s →
  Threads s !! old = Some th → NextThread s = Some next → Threads s !! next = Some thn →
  let s1 := put_thread old (th <| WaitIrql := irql |>)
              (s <| NextThread := None |> <| CurrentThread := next |>) in
  inv (excluded old (eq next)) nobody s1 ∧ old ≠ next ∧ State th = Running ∧ State thn = Standby.
Proof.
  intros [[Hs Hd Hw Ho Ht Hc] (th' & Hth' & Hst) _ _] <- Hidle Hth Hn Hthn s1.
  set (old := CurrentThread s) in *. rewrite Hth in Hth'. injection Hth' as <-.
  pose proof (proj1 (si_next _ _ Hs _) Hn) as (_ & rn & pn & Hvn).
  pose proof (sched_view_Some _ _ _ Hthn) as Hvn'. rewrite Hvn in Hvn'. injection Hvn' as Hstn _ _.
  assert (Hne : old ≠ next) by (intros Heq; rewrite Heq in Hth; congruence).
  split; [|done].
  assert (Hv : ∀ x, sched_view s1 x = sched_view s x).
  { intros x. etransitivity; [exact (sched_view_put old _ s x)|].
    destruct (decide (x = old)) as [->|]; [|done]. by rewrite (sched_view_Some _ _ _ Hth). }
  assert (Hwv : ∀ x, wait_view s1 x = wait_view s x).
  { intros x. etransitivity; [exact (wait_view_put old _ s x)|].
    destruct (decide (x = old)) as [->|]; [|done]. by rewrite (wait_view_Some _ _ _ Hth). }
  pose proof (sched_view_Some _ _ _ Hth) as Hvo. rewrite Hst in Hvo.
  unfold excluded. split.
  - destruct Hs as [Hl Hsu Hb Hiq Hnd Hnx Hru Hcu].
    split; unfold ready_queue; setoid_rewrite Hv || idtac; auto.
    + intros p q x Hq. rewrite (Hiq _ _ _ Hq). unfold unlocked. split; [|tauto].
      intros [_ Hx]. split; [|done]. intros [->|<-]; congruence.
    + intros x. split; [done|]. intros (Hx & r & p & Hvx). exfalso. apply Hx. right.
      assert (NextThread s = Some x) as Heq by (apply Hnx; eauto). congruence.
    + intros x r p Hx Hvx. destruct (Hru x r p) as [->| ->]; [tauto|done| |by right].
      exfalso. apply Hx. by left.
  - unfold dispatch_ok in *. unfold top_thread in Hd. rewrite Hn in Hd. simpl in Hd.
    change (KiIdleSummary s1) with (KiIdleSummary s). destruct (KiIdleSummary s =? 0);
      [|by destruct Hd].
    destruct Hd as (st & r & p & Hvt & Hno). exists st, r, p. split; [|exact Hno].
    by rewrite Hv.
  - apply (wait_inv_ext unlocked _ nobody s); [done| |done]. intros x bs. unfold waits.
    rewrite Hwv. split; [tauto|]. intros [_ Hx]. split; [|done].
    intros [->|<-]; [rewrite (wait_view_Some _ _ _ Hth) in Hx
                    |rewrite (wait_view_Some _ _ _ Hthn) in Hx]; congruence.
  - apply (object_inv_same (put_thread old (th <| WaitIrql := irql |>) s)); [done|done|].
    by apply (object_inv_put_thread _ _ th).
  - apply (thread_inv_kept (put_thread old (th <| WaitIrql := irql |>) s)); [done|by split_and!|].
    apply thread_inv_put; [done|]. apply (thread_ok_state s old th); auto.
    apply (to_swapped _ _ _ (Ht _ _ Hth)).
  - split; [done|]. exists thn. simpl. rewrite lookup_insert_ne by done.
    split; [done|]. split; [congruence|]. destruct (ProcessReadyQueue thn) eqn:Hr; [|done].
    pose proof (to_swapped _ _ _ (Ht _ _ Hthn) Hr). congruence.
Qed.

Lemma progress_runs s s' t : progress s s' → runs s t → runs s' t.
Proof.
  intros Hp (th & Hth & Hst). destruct (pg_threads _ _ Hp _ _ Hth)
    as (th' & ? & _ & _ & _ & _ & Hr & _). exists th'. auto.
Qed.

Lemma progress_dispatcher P Q s s' :
  inv unlocked Q s' → progress s s' → dispatcher P s → dispatcher Q s'.
Proof.
  intros Hi Hp [_ Hc Hid [Hl1 Hl2]].
  pose proof (pg_current _ _ Hp) as Ec. pose proof (pg_idle _ _ Hp) as Ei. split; [done|..].
  - rewrite Ec. by apply (progress_runs s).
  - rewrite Ei. by apply (progress_runs s).
  - destruct Hid as (thi & Hthi & _).
    destruct (pg_threads _ _ Hp _ _ Hthi) as (thi' & Hthi' & _ & _ & _ & Hq & _).
    unfold idle_level. rewrite Ec, Ei, (pg_irql _ _ Hp). split; [|done].
    intros th. rewrite Hthi'. intros <-%(inj Some). rewrite Hq. by apply Hl1.
Qed.

Lemma dispatcher_same P s s' :
  same_database s s' → tables_kept s s' →
  (CurrentThread s = IdleThread s → DISPATCH_LEVEL ≤ Irql s') →
  dispatcher P s → dispatcher P s'.
Proof.
  intros Hsame Hk Hirql [Hi Hc Hid [Hl1 _]].
  pose proof Hsame as (Ht & _ & _ & _ & _ & _ & HC & HI). split.
  - by apply (inv_same _ _ s).
  - unfold runs. by rewrite HC, Ht.
  - unfold runs. by rewrite HI, Ht.
  - unfold idle_level. by rewrite HC, HI, Ht.
Qed.

(** The switch to the thread in [CurrentThread] after the old thread was readied. *)
Lemma switched_ok s t th :
  inv (eq t) nobody s → Threads s !! t = Some th → CurrentThread s = t →
  ∃ s', SwapContext t s = Some s' ∧ inv unlocked nobody s' ∧ CurrentThread s' = t ∧
    s' = put_thread t (th <| State := Running |>)
           (s <| CurrentThread := t |> <| Irql := WaitIrql th |>).
Proof.
  intros Hi Hth Hcur.
  assert (Hi' : inv (excluded t unlocked) nobody s).
  { apply (inv_E_iff (eq t)); [|done]. intros x. unfold excluded, unlocked. naive_solver. }
  destruct Hi as [Hs Hd _ _ _ (_ & thc & Hthc & _ & Hr)]. rewrite Hcur, Hth in Hthc.
  apply (inj Some) in Hthc as <-. destruct Hi' as [Hs' _ Hw' Ho Ht _].
  apply (SwapContext_ok unlocked nobody s t th); auto.
  - intros x r q _ Hne Hx. destruct (si_running _ _ Hs x r q) as [->| ->]; auto. done.
  - apply (dispatch_ok_same s); auto.
Qed.

Lemma unlock_released s s2 old next th thn irql :
  let s1 := put_thread old (th <| WaitIrql := irql |>)
              (s <| NextThread := None |> <| CurrentThread := next |>) in
  Threads s !! old = Some th → State th = Running →
  Threads s !! next = Some thn → State thn = Standby → frame (eq old) s1 s2 →
  ∀ thn2, Threads s2 !! next = Some thn2 →
  released s (put_thread next (thn2 <| State := Running |>)
                (s2 <| CurrentThread := next |> <| Irql := WaitIrql thn2 |>)).
Proof.
  intros s1 Hth Hst Hthn Hstn Hf thn2 Hn2. split; [apply Hf|apply Hf|].
  intros x thx Hx. simpl (Threads _).
  assert (∃ thx1, Threads s1 !! x = Some thx1 ∧ (thx1 = thx ∨ thx1 = thx <| WaitIrql := irql |> ∧ x = old))
    as (thx1 & Hx1 & Hthx1).
  { destruct (decide (x = old)) as [->|Hne].
    - rewrite Hth in Hx. apply (inj Some) in Hx as <-. eexists. split; [by apply lookup_insert_eq|auto].
    - exists thx. split; [|auto]. unfold s1. simpl. by rewrite lookup_insert_ne. }
  destruct (fr_threads _ _ _ Hf _ _ Hx1) as (thx2 & Hx2 & [] & Hw & Hnw & _).
  assert (State thx1 = State thx ∧ MutantList thx1 = MutantList thx ∧
    KernelApcDisable thx1 = KernelApcDisable thx ∧ WaitBlockList thx1 = WaitBlockList thx ∧
    WaitNext thx1 = WaitNext thx ∧ BasePriority thx1 = BasePriority thx ∧
    WaitStatus thx1 = WaitStatus thx) as (E1 & E2 & E3 & E4 & E5 & E6 & E7)
    by (destruct Hthx1 as [->|[-> _]]; done).
  destruct (decide (x = next)) as [->|Hne].
  - rewrite lookup_insert_eq. eexists. split; [done|]. assert (thx2 = thn2) as -> by congruence.
    simpl. assert (thx = thn) as -> by congruence. rewrite E1, Hstn in Hnw.
    destruct Hnw as [? ?]; [done|]. split_and!; try congruence. intros _. split; congruence.
  - rewrite lookup_insert_ne by done. exists thx2. split; [done|]. rewrite E1 in Hw, Hnw.
    split_and!; try congruence.
    + intros Hwt Hon. destruct Hthx1 as [->|[_ ->]]; [|congruence]. apply Hw; auto.
      intros <-. congruence.
    + intros Hnwt. destruct (Hnw Hnwt). split; congruence.
Qed.

Lemma unlock_switch s old next th :
  dispatcher_ok s → CurrentThread s = old → old ≠ IdleThread s →
  Threads s !! old = Some th → NextThread s = Some next → ∀ irql,
  ∃ s', (s ← ready_thread2 (test_swap_event (swap_depth s)) old
               (put_thread old (th <| WaitIrql := irql |>)
                  (s <| NextThread := None |> <| CurrentThread := next |>));
         SwapContext next s) = Some s' ∧ dispatcher_ok s' ∧ released s s'.
Proof.
  intros Hok Hcur Hidle Hth Hn irql.
  assert (∃ thn, Threads s !! next = Some thn) as [thn Hthn].
  { apply (si_next _ _ (inv_sched _ _ _ (dk_inv _ Hok))) in Hn as (_ & r & p & Hv).
    unfold sched_view in Hv. destruct (Threads s !! next); [eauto|done]. }
  destruct (handover_ok s old next th thn irql Hok Hcur Hidle Hth Hn Hthn)
    as (Hi1 & Hne & Hst & Hstn).
  set (th1 := th <| WaitIrql := irql |>) in *.
  match type of Hi1 with inv _ _ ?x => set (s1 := x) in * end.
  assert (Hs1 : Threads s1 !! old = Some th1) by (by apply lookup_insert_eq).
  assert (Hn1 : Threads s1 !! next = Some thn) by (unfold s1; simpl; by rewrite lookup_insert_ne).
  assert (Hidle0 : KiIdleSummary s = 0).
  { destruct Hok as [[_ Hd _ _ _ _] _ _ _]. unfold dispatch_ok in Hd.
    destruct (Z.eqb_spec (KiIdleSummary s) 0); [done|]. destruct Hd. congruence. }
  destruct (KiReadyThread_ok (eq next) nobody old th1 s1 Hi1 Hs1) as (s2 & Hrun & [Hi2 Hf2 Ht2]);
    [done|exact Hne| |].
  { change (ProcessReadyQueue th = false). destruct (ProcessReadyQueue th) eqn:Hr; [|done].
    pose proof (to_swapped _ _ _ (inv_thread _ _ _ (dk_inv _ Hok) _ _ Hth) Hr). congruence. }
  change (ready_thread2 (test_swap_event (swap_depth s)) old s1) with (KiReadyThread old s1).
  rewrite Hrun. cbn [mbind option_bind].
  destruct (fr_threads _ _ _ Hf2 _ _ Hn1) as (thn2 & Hn2 & Hkn & _ & Hsn & _).
  pose proof (fr_current _ _ _ Hf2) as Hc2. pose proof (fr_idle _ _ _ Hf2) as Hid2.
  change (CurrentThread s1) with next in Hc2. change (IdleThread s1) with (IdleThread s) in Hid2.
  destruct (switched_ok s2 next thn2) as (s' & Hsw & Hi' & Hcur' & Hs'); auto.
  exists s'. split; [done|].
  assert (Hrel : released s s').
  { rewrite Hs'. by apply (unlock_released s s2 old next th thn irql). }
  destruct (dk_idle _ Hok) as (thi & Hthi & Hri).
  assert (Hni : IdleThread s ≠ next) by (intros Heq; rewrite Heq in Hthi; congruence).
  assert (Hti1 : Threads s1 !! IdleThread s = Some thi) by (unfold s1; simpl; by rewrite lookup_insert_ne).
  destruct (fr_threads _ _ _ Hf2 _ _ Hti1) as (thi2 & Hti2 & Hki & _ & _ & Hri2).
  assert (Hti' : Threads s' !! IdleThread s = Some thi2) by (rewrite Hs'; simpl; by rewrite lookup_insert_ne).
  split; [|done]. split; [done| | |].
  - rewrite Hcur'. exists (thn2 <| State := Running |>). rewrite Hs'. simpl.
    by rewrite lookup_insert_eq.
  - rewrite (rl_idle _ _ Hrel). exists thi2. split; [done|]. by apply Hri2, not_eq_sym.
  - unfold idle_level. rewrite (rl_idle _ _ Hrel), Hcur', Hti'. split; [|congruence].
    intros ? <-%(inj Some). rewrite (k_irql _ _ Hki). by apply (dk_level _ Hok).
Qed.

Lemma KiUnlockDispatcherDatabase_ok s OldIrql :
  dispatcher_ok s → (CurrentThread s = IdleThread s → DISPATCH_LEVEL ≤ OldIrql) →
  ∃ s', KiUnlockDispatcherDatabase OldIrql s = Some s' ∧ dispatcher_ok s' ∧ released s s'.
Proof.
  intros Hok Hirql. unfold KiUnlockDispatcherDatabase, unlock_dispatcher.
  assert (Hstay : ∀ b, let s' := s <| DispatchInterrupt := b |> <| Irql := OldIrql |> in
            dispatcher_ok s' ∧ released s s').
  { intros b s'. split; [|by apply released_refl].
    by apply (dispatcher_same _ s); [split_and!|split_and!| |]. }
  specialize (Hstay true) as Htrue. pose proof (Hstay (DispatchInterrupt s)) as Hfalse.
  replace (s <| DispatchInterrupt := DispatchInterrupt s |>) with s in Hfalse by (by destruct s).
  destruct (NextThread s) as [next|] eqn:Hn; [|by eexists].
  destruct (Z.ltb_spec OldIrql DISPATCH_LEVEL); [|destruct (IsExecutingDpc s); by eexists].
  destruct (dk_current _ Hok) as (th & Hth & _). rewrite Hth. cbn [mbind option_bind].
  apply (unlock_switch s (CurrentThread s) next th); auto. intros Heq. specialize (Hirql Heq). lia.
Qed.
