(* ===== verification/KeObjOk.v ===== *)
(** * Operations on events, semaphores and mutants keep the invariants

    Each routine of [KeObjects.v] is defined on every state with the invariant
    [dispatcher_ok] and ends in one. *)

From stdpp Require Import base list numbers option gmap sets.
From S2P Require Import Prelude KeState KeSched KeWait KeInv KeReady KeFrame KeTest.
From S2P Require Import KeObjects KeOps.

(** ** Acquiring the lock and changing the current thread *)

Definition lock (s : KSTATE) : KSTATE := s <| Irql := DISPATCH_LEVEL |>.

Lemma lock_ok s : dispatcher_ok s → dispatcher_ok (lock s).
Proof. intros H. apply (dispatcher_same _ s); [by split_and!..|done|done]. Qed.

(** The interrupt level the lock is released to. *)
Definition old_level (s : KSTATE) (OldIrql : Z) : Prop :=
  CurrentThread s = IdleThread s → DISPATCH_LEVEL ≤ OldIrql.

Lemma lock_level s : dispatcher_ok s → old_level (lock s) (Irql s).
Proof. intros H. destruct (dk_level _ H) as [_ Hl]. exact Hl. Qed.

Lemma dispatcher_put_current P s th th' :
  dispatcher P s → Threads s !! CurrentThread s = Some th → passive th th' →
  (CurrentThread s = IdleThread s → DISPATCH_LEVEL ≤ WaitIrql th') →
  dispatcher P (put_thread (CurrentThread s) th' s).
Proof.
  intros [Hi (th0 & Hth0 & Hrun) Hid [Hl1 Hl2]] Hth Hpv Hlev. simplify_eq.
  pose proof (pv_state _ _ Hpv) as Hst. split.
  - by apply (inv_put_passive _ _ _ _ th0).
  - exists th'. simpl. rewrite lookup_insert_eq. split; [done|congruence].
  - destruct Hid as (thi & Hthi & Hri). unfold runs. setoid_rewrite Threads_put. simpl.
    destruct (decide (IdleThread s = CurrentThread s)) as [Heq|]; [|eauto].
    exists th'. split; [done|]. congruence.
  - split; [|done]. intros thi. rewrite Threads_put. simpl (IdleThread _).
    destruct (decide (IdleThread s = CurrentThread s)) as [Heq|]; [|apply Hl1].
    intros <-%(inj Some). auto.
Qed.

Lemma released_put s t th th' :
  Threads s !! t = Some th → passive th th' → State th ≠ Waiting →
  WaitStatus th' = WaitStatus th → KernelApcDisable th' = KernelApcDisable th →
  WaitNext th' = WaitNext th → WaitBlockList th' = WaitBlockList th →
  released s (put_thread t th' s).
Proof.
  intros Hth [] Hst Hws Hap Hwn Hwb. split; [done..|]. intros x thx Hx. rewrite Threads_put.
  destruct (decide (x = t)) as [->|]; [|by exists thx].
  rewrite Hth in Hx. apply (inj Some) in Hx as <-. exists th'. split; [done|].
  split_and!; try congruence. intros _. split; congruence.
Qed.

Lemma set_wait_next_ok s Wait :
  dispatcher_ok s → ∃ th, Threads s !! CurrentThread s = Some th ∧
    let s' := put_thread (CurrentThread s) (th <| WaitNext := Wait |>) s in
    set_wait_next (CurrentThread s) Wait s = Some s' ∧ dispatcher_ok s'.
Proof.
  intros Hok. destruct (dk_current _ Hok) as (th & Hth & _). exists th. split; [done|].
  unfold set_wait_next. rewrite Hth. split; [done|].
  apply (dispatcher_put_current _ s th); [done..|by split|].
  intros Heq. simpl. apply (dk_level _ Hok). congruence.
Qed.

Lemma leave_dispatcher_ok s Wait OldIrql :
  dispatcher_ok s → old_level s OldIrql →
  ∃ s', leave_dispatcher (CurrentThread s) Wait OldIrql s = Some s' ∧ dispatcher_ok s' ∧
    released s s'.
Proof.
  intros Hok Hlev. unfold leave_dispatcher. destruct Wait.
  - destruct (dk_current _ Hok) as (th & Hth & Hrun). rewrite Hth. cbn [mbind option_bind].
    eexists. split; [done|]. split.
    + by apply (dispatcher_put_current _ s th).
    + apply (released_put s _ th); [done|by split|congruence|done..].
  - by apply KiUnlockDispatcherDatabase_ok.
Qed.

(** ** Changing the signal state of an object *)

Lemma signaled_put s o ob ob' :
  dispatcher_ok s → Objects s !! o = Some ob → WaitListHead ob' = WaitListHead ob →
  Body ob' = Body ob → signal_ok ob' → signaled_ok o (put_object o ob' s).
Proof. intros [] Ho Hw Hb Hok. split; [by apply (inv_signal _ _ s o ob)|done..]. Qed.

Lemma signaled_test s o ob inc :
  signaled_ok o s → Objects s !! o = Some ob →
  ∃ s', KiWaitTest o inc s = Some s' ∧ dispatcher_ok s' ∧ progress s s'.
Proof.
  intros Hs Ho. destruct (KiWaitTest_ok _ _ o ob inc s (dk_inv _ Hs) Ho) as (s' & Hr & Hi' & Hp).
  exists s'. split; [done|]. split; [|done]. by apply (progress_dispatcher (or_depends nobody o) _ s).
Qed.

Lemma signaled_no_waiters s o ob :
  signaled_ok o s → Objects s !! o = Some ob → WaitListHead ob = [] → dispatcher_ok s.
Proof. intros [] Ho Hn. split; [by apply (inv_no_waiters _ _ s o ob)|done..]. Qed.

(** The waiters, if any, are tested. *)
Lemma test_waiters_ok s o ob l inc :
  signaled_ok o s → Objects s !! o = Some ob → WaitListHead ob = l →
  ∃ s', (if decide (l = []) then Some s else KiWaitTest o inc s) = Some s' ∧
    dispatcher_ok s' ∧ progress s s'.
Proof.
  intros Hs Ho <-. destruct (decide (WaitListHead ob = [])) as [Hn|Hn].
  - exists s. split; [done|]. split; [by apply (signaled_no_waiters s o ob)|reflexivity].
  - by apply (signaled_test s o ob).
Qed.

(** An object that does not become signaled needs no test. *)
Lemma dispatcher_unsignal s o ob ob' :
  dispatcher_ok s → Objects s !! o = Some ob → WaitListHead ob' = WaitListHead ob →
  Body ob' = Body ob → signal_ok ob' → (0 < SignalState ob' → 0 < SignalState ob) →
  dispatcher_ok (put_object o ob' s).
Proof.
  intros Hok Ho Hw Hb Hsg Hle.
  destruct (signaled_put s o ob ob' Hok Ho Hw Hb Hsg) as [[Hs Hd Hwi Hoi Ht Hc] ? ? ?].
  split; [split; auto|done..]. pose proof (inv_wait _ _ _ (dk_inv _ Hok)) as Hwi0.
  destruct Hwi as [Hl Hnd Hob Hbl Hsw Hal Hsat]. split; auto.
  intros t bs i Hwt Hsa. apply (wi_sat _ _ _ Hwi0 t bs i Hwt).
  assert (Hsig : ∀ x, signaled (put_object o ob' s) x → signaled s x).
  { intros x (obx & Hx & Hpos & Hq). rewrite Objects_put in Hx.
    destruct (decide (x = o)) as [->|]; [|by exists obx]. apply (inj Some) in Hx as <-.
    exists ob. rewrite <- Hb. auto. }
  destruct Hsa as (b & Hb' & Hsb & Hrest). exists b. split; [done|]. split; [auto|].
  destruct Hrest as [|Hrest]; [by left|right]. eauto.
Qed.

Lemma put_object_id s o ob : Objects s !! o = Some ob → put_object o ob s = s.
Proof. intros H. unfold put_object. rewrite insert_id by done. by destruct s. Qed.

Lemma object_signal_id ob : ob <| SignalState := SignalState ob |> = ob.
Proof. by destruct ob. Qed.

Definition is_event (ob : KOBJECT) : Prop :=
  Body ob = NotificationEvent ∨ Body ob = SynchronizationEvent.

Lemma is_event_signal ob : is_event ob → signal_ok ob ↔ 0 ≤ SignalState ob ≤ 1.
Proof. unfold signal_ok. by intros [-> | ->]. Qed.

Lemma dispatcher_signal s o ob :
  dispatcher_ok s → Objects s !! o = Some ob → signal_ok ob.
Proof. intros Hok. apply (oi_signal _ (inv_object _ _ _ (dk_inv _ Hok))). Qed.

Lemma event_cleared s o ob :
  dispatcher_ok s → Objects s !! o = Some ob → is_event ob →
  let s' := put_object o (ob <| SignalState := 0 |>) s in
  set_signal o 0 s = Some s' ∧ dispatcher_ok s'.
Proof.
  intros Hok Ho He s'. unfold set_signal. rewrite Ho. split; [done|].
  apply (dispatcher_unsignal s o ob); [done..| |simpl; lia].
  apply is_event_signal; [exact He|simpl; lia].
Qed.

(** ** What an operation leaves alone *)

(** From [s] to [s'] objects are at most consumed by the waits that were
    satisfied, and threads that did not wait are not affected. *)
Record later (s s' : KSTATE) : Prop := {
  la_idle : IdleThread s' = IdleThread s;
  la_objects o ob : o ≠ KiSwapEvent → Objects s !! o = Some ob →
    ∃ ob', Objects s' !! o = Some ob' ∧ same_kind (Body ob) (Body ob') ∧
      SignalState ob' ≤ SignalState ob ∧
      (Body ob = NotificationEvent → SignalState ob' = SignalState ob);
  la_threads t th : Threads s !! t = Some th → State th ≠ Waiting →
    ∃ th', Threads s' !! t = Some th' ∧ State th' ≠ Waiting ∧
      WaitStatus th' = WaitStatus th ∧ MutantList th' = MutantList th ∧
      KernelApcDisable th' = KernelApcDisable th ∧ BasePriority th' = BasePriority th
}.

#[export] Instance later_po : PreOrder later.
Proof.
  split.
  - intros s. split; [done| |].
    + intros o ob _ Ho. exists ob. split; [done|]. split; [reflexivity|done].
    + intros t th Ht ?. by exists th.
  - intros s1 s2 s3 [? O1 T1] [? O2 T2]. split; [congruence| |].
    + intros o ob Hne Ho. destruct (O1 _ _ Hne Ho) as (ob2 & Ho2 & K1 & ? & N1).
      destruct (O2 _ _ Hne Ho2) as (ob3 & Ho3 & K2 & ? & N2). exists ob3.
      split; [done|]. split; [by etrans|]. split; [lia|]. intros Hb.
      rewrite N2, N1; [done..|]. by apply (same_kind_notification _ _ K1).
    + intros t th Ht Hw. destruct (T1 _ _ Ht Hw) as (th2 & Ht2 & Hw2 & ? & ? & ? & ?).
      destruct (T2 _ _ Ht2 Hw2) as (th3 & Ht3 & ? & ? & ? & ? & ?). exists th3.
      split_and!; congruence.
Qed.

Lemma progress_later s s' : progress s s' → later s s'.
Proof.
  intros [_ ? _ Ho Ht]. split; [done|done|]. intros t th H Hw.
  destruct (Ht _ _ H) as (th' & ? & _ & ? & _ & _ & _ & Hs). destruct (Hs Hw) as (? & ? & ? & ?).
  by exists th'.
Qed.

Lemma released_later s s' : released s s' → later s s'.
Proof.
  intros [? Ho Ht]. split; [done| |].
  - intros o ob Hne H. exists ob. rewrite Ho by done. split; [done|]. split; [reflexivity|done].
  - intros t th H Hw. destruct (Ht _ _ H) as (th' & ? & ? & ? & _ & _ & ? & _ & Hs).
    destruct (Hs Hw). by exists th'.
Qed.

Lemma later_put s t th th' :
  Threads s !! t = Some th → passive th th' → WaitStatus th' = WaitStatus th →
  KernelApcDisable th' = KernelApcDisable th → later s (put_thread t th' s).
Proof.
  intros Hth [] ? ?. split; [done| |].
  - intros o ob _ Ho. exists ob. split; [done|]. split; [reflexivity|done].
  - intros x thx Hx Hw. rewrite Threads_put. destruct (decide (x = t)) as [->|]; [|by exists thx].
    rewrite Hth in Hx. apply (inj Some) in Hx as <-. exists th'. split_and!; congruence.
Qed.

Lemma later_same s s' :
  Threads s' = Threads s → Objects s' = Objects s → IdleThread s' = IdleThread s → later s s'.
Proof. intros Ht Ho Hi. apply released_later. by apply released_refl. Qed.

Lemma later_wait_next s o ob t th Wait :
  Threads s !! t = Some th →
  later (put_object o ob s) (put_object o ob (put_thread t (th <| WaitNext := Wait |>) (lock s))).
Proof.
  intros Hth. etrans.
  - apply (later_put (put_object o ob s) t th (th <| WaitNext := Wait |>)); [done|by split|done..].
  - by apply later_same.
Qed.

(** ** Events *)

Lemma KeResetEvent_ok s o ob :
  dispatcher_ok s → Objects s !! o = Some ob → is_event ob →
  ∃ s', KeResetEvent o s = Some (Returned (SignalState ob), s') ∧ dispatcher_ok s' ∧
    released (put_object o (ob <| SignalState := 0 |>) s) s'.
Proof.
  intros Hok Ho He. pose proof (lock_ok s Hok) as Hl.
  unfold KeResetEvent, KiLockDispatcherDatabase. fold (lock s).
  change (Objects (lock s)) with (Objects s). rewrite Ho. cbn [mbind option_bind].
  destruct (event_cleared (lock s) o ob Hl Ho He) as [-> Hs1]. cbn [mbind option_bind].
  destruct (KiUnlockDispatcherDatabase_ok _ (Irql s) Hs1) as (s' & -> & Hs' & [Ri Ro Rt]).
  { apply (lock_level s Hok). }
  exists s'. split; [done|]. split; [done|]. split; [exact Ri|exact Ro|exact Rt].
Qed.

Lemma KeSetEvent_ok s o ob inc Wait :
  dispatcher_ok s → Objects s !! o = Some ob → is_event ob →
  ∃ s', KeSetEvent o inc Wait s = Some (Returned (SignalState ob), s') ∧ dispatcher_ok s' ∧
    later (put_object o (ob <| SignalState := 1 |>) s) s'.
Proof.
  intros Hok Ho He. pose proof (lock_ok s Hok) as Hl.
  pose proof (proj1 (is_event_signal ob He) (dispatcher_signal s o ob Hok Ho)) as Hr.
  unfold KeSetEvent, KiLockDispatcherDatabase. fold (lock s).
  change (Objects (lock s)) with (Objects s). rewrite Ho. cbn [mbind option_bind]. cbv zeta.
  set (s1 := put_object o (ob <| SignalState := 1 |>) (lock s)).
  assert (H1 : ∃ s2, (if SignalState ob =? 0
      then if decide (WaitListHead ob = []) then Some s1 else KiWaitTest o inc s1
      else Some (lock s)) = Some s2 ∧ dispatcher_ok s2 ∧ progress s1 s2).
  { destruct (Z.eqb_spec (SignalState ob) 0).
    - apply (test_waiters_ok s1 o (ob <| SignalState := 1 |>)); [| |done].
      + apply (signaled_put (lock s) o ob); [done..|].
        apply is_event_signal; [exact He|simpl; lia].
      + unfold s1. by rewrite Objects_put, decide_True.
    - assert (s1 = lock s) as ->; [|by exists (lock s)].
      apply put_object_id. assert (SignalState ob = 1) as <- by lia.
      by rewrite object_signal_id. }
  destruct H1 as (s2 & -> & H2 & Hp). cbn [mbind option_bind].
  pose proof (pg_current _ _ Hp) as Hcur. pose proof (pg_idle _ _ Hp) as Hidl.
  assert (H3 : ∃ s3, (if Wait then set_wait_next (CurrentThread s2) Wait s2 else Some s2) = Some s3 ∧
    dispatcher_ok s3 ∧ later s2 s3 ∧ CurrentThread s3 = CurrentThread s2 ∧
    IdleThread s3 = IdleThread s2).
  { destruct Wait; [|by exists s2].
    destruct (set_wait_next_ok s2 true H2) as (th & Hth & -> & ?). eexists. split; [done|].
    split; [done|]. split; [|done]. by apply (later_put s2 _ th). }
  destruct H3 as (s3 & -> & H3 & Hla & Hc3 & Hi3). cbn [mbind option_bind]. rewrite <- Hc3.
  destruct (leave_dispatcher_ok s3 Wait (Irql s) H3) as (s' & -> & H' & Hrel).
  { unfold old_level. rewrite Hc3, Hi3, Hcur, Hidl. apply (lock_level s Hok). }
  exists s'. split; [done|]. split; [done|].
  etrans; [|by apply released_later]. etrans; [|done]. etrans; [|by apply progress_later].
  by apply later_same.
Qed.

(** The tail of a routine that has set [WaitNext] before. *)
Lemma leave_ok base s s1 Wait :
  dispatcher_ok s → dispatcher_ok s1 → later base s1 → CurrentThread s1 = CurrentThread s →
  IdleThread s1 = IdleThread s →
  ∃ s', leave_dispatcher (CurrentThread s) Wait (Irql s) s1 = Some s' ∧ dispatcher_ok s' ∧
    later base s'.
Proof.
  intros Hok H1 Hla Hc Hi. rewrite <- Hc.
  destruct (leave_dispatcher_ok s1 Wait (Irql s) H1) as (s' & -> & H' & Hrel).
  { unfold old_level. rewrite Hc, Hi. apply (dk_level _ Hok). }
  exists s'. split; [done|]. split; [done|]. etrans; [done|]. by apply released_later.
Qed.

Lemma event_pulsed s o ob inc :
  dispatcher_ok s → Objects s !! o = Some ob → is_event ob →
  ∃ s2 v, (if (SignalState ob =? 0) && bool_decide (WaitListHead ob ≠ [])
         then KiWaitTest o inc (put_object o (ob <| SignalState := 1 |>) s) else Some s) = Some s2 ∧
    dispatcher_ok s2 ∧ progress (put_object o (ob <| SignalState := v |>) s) s2.
Proof.
  intros Hok Ho He. destruct (_ && _).
  - set (s1 := put_object o (ob <| SignalState := 1 |>) s).
    destruct (signaled_test s1 o (ob <| SignalState := 1 |>) inc) as (s2 & Hr & H2 & Hp).
    + apply (signaled_put s o ob); [done..|]. apply is_event_signal; [exact He|simpl; lia].
    + unfold s1. by rewrite Objects_put, decide_True.
    + by exists s2, 1.
  - exists s, (SignalState ob). rewrite object_signal_id, put_object_id by done. done.
Qed.

Lemma later_reset s s2 o ob ob2 v :
  progress (put_object o (ob <| SignalState := v |>) s) s2 → Objects s2 !! o = Some ob2 →
  same_kind (Body ob) (Body ob2) →
  later (put_object o (ob <| SignalState := 0 |>) s)
        (put_object o (ob2 <| SignalState := 0 |>) s2).
Proof.
  intros [Lo Li La]%progress_later Ho2 Hk. split; [done| |exact La].
  intros x obx Hne. rewrite !Objects_put. destruct (decide (x = o)) as [->|Hxo].
  - intros <-%(inj Some). eexists. split; [done|]. split; [done|]. simpl. split; [lia|done].
  - intros Hx. apply Li; [done|]. rewrite Objects_put. by rewrite decide_False.
Qed.

(** The test of an event leaves it an event. *)
Lemma progress_event s s2 o ob :
  dispatcher_ok s2 → progress s s2 → Objects s !! o = Some ob → is_event ob →
  (o = KiSwapEvent → Body ob = SynchronizationEvent) →
  ∃ ob2, Objects s2 !! o = Some ob2 ∧ Body ob2 = Body ob.
Proof.
  intros H2 Hp Ho He Hsw. destruct (decide (o = KiSwapEvent)) as [->|Hne].
  - destruct (wi_swap _ _ _ (inv_wait _ _ _ (dk_inv _ H2))) as (ev & ? & Hev). exists ev.
    rewrite Hsw by done. done.
  - destruct (pg_objects _ _ Hp _ _ Hne Ho) as (ob2 & ? & Hk & _). exists ob2. split; [done|].
    destruct He as [He|He]; rewrite He in Hk; simpl in Hk; congruence.
Qed.

Lemma swap_event_body s o ob :
  dispatcher_ok s → Objects s !! o = Some ob → o = KiSwapEvent → Body ob = SynchronizationEvent.
Proof.
  intros Hok Ho ->. destruct (wi_swap _ _ _ (inv_wait _ _ _ (dk_inv _ Hok))) as (ev & ? & ?).
  congruence.
Qed.

Lemma KePulseEvent_ok s o ob inc Wait :
  dispatcher_ok s → Objects s !! o = Some ob → is_event ob →
  ∃ s', KePulseEvent o inc Wait s = Some (Returned (SignalState ob), s') ∧ dispatcher_ok s' ∧
    later (put_object o (ob <| SignalState := 0 |>) s) s'.
Proof.
  intros Hok Ho He. pose proof (lock_ok s Hok) as Hl.
  unfold KePulseEvent, KiLockDispatcherDatabase. fold (lock s).
  change (Objects (lock s)) with (Objects s). rewrite Ho. cbn [mbind option_bind].
  destruct (set_wait_next_ok (lock s) Wait Hl) as (th & Hth & Hs1 & H1).
  change (CurrentThread (lock s)) with (CurrentThread s) in *. rewrite Hs1. cbn [mbind option_bind].
  match type of H1 with dispatcher_ok ?x => set (s1 := x) in * end.
  assert (Ho1 : Objects s1 !! o = Some ob) by done.
  destruct (event_pulsed s1 o ob inc H1 Ho1 He) as (s2 & v & -> & H2 & Hp).
  cbn [mbind option_bind].
  destruct (progress_event _ s2 o (ob <| SignalState := v |>) H2 Hp) as (ob2 & Ho2 & Hb2).
  { by rewrite Objects_put, decide_True. }
  { exact He. }
  { exact (swap_event_body s o ob Hok Ho). }
  assert (He2 : is_event ob2) by (unfold is_event; by rewrite Hb2).
  destruct (event_cleared s2 o ob2 H2 Ho2 He2) as [-> H3]. cbn [mbind option_bind].
  edestruct (leave_ok (put_object o (ob <| SignalState := 0 |>) s) s _ Wait Hok H3)
    as (s' & -> & H' & Hla); [..|by exists s'].
  - etrans; [|eapply (later_reset s1 s2 o ob ob2 v); [done..|by rewrite Hb2]].
    by apply (later_wait_next s).
  - exact (pg_current _ _ Hp).
  - exact (pg_idle _ _ Hp).
Qed.

Lemma woken_dispatcher s s' t th Status :
  dispatcher_ok s → Threads s !! t = Some th → State th = Waiting →
  inv unlocked nobody s' → woken t th Status s s' → dispatcher_ok s'.
Proof.
  intros [Hi Hc Hid [Hl1 Hl2]] Hth Hst Hi' Hw.
  pose proof (wk_current _ _ _ _ _ Hw) as Ec. pose proof (wk_idle _ _ _ _ _ Hw) as Ei.
  assert (Hruns : ∀ x thx, Threads s !! x = Some thx → State thx = Running →
    ∃ thx', Threads s' !! x = Some thx' ∧ State thx' = Running ∧ WaitIrql thx' = WaitIrql thx).
  { intros x thx Hx Hr. assert (x ≠ t) by (intros ->; congruence).
    destruct (wk_others _ _ _ _ _ Hw x thx) as (thx' & ? & [] & _ & _ & ?); eauto. }
  split; [done|..].
  - destruct Hc as (thc & Hthc & Hr). rewrite Ec.
    destruct (Hruns _ _ Hthc Hr) as (thx & ? & ? & _). by exists thx.
  - destruct Hid as (thc & Hthc & Hr). rewrite Ei.
    destruct (Hruns _ _ Hthc Hr) as (thx & ? & ? & _). by exists thx.
  - unfold idle_level. rewrite Ec, Ei, (wk_irql _ _ _ _ _ Hw). split; [|done].
    destruct Hid as (thc & Hthc & Hr). destruct (Hruns _ _ Hthc Hr) as (thx & -> & _ & Hq).
    intros ? <-%(inj Some). rewrite Hq. auto.
Qed.

Lemma waiter_waiting s o ob t i l :
  dispatcher_ok s → Objects s !! o = Some ob → WaitListHead ob = (t, i) :: l →
  ∃ th, Threads s !! t = Some th ∧ State th = Waiting.
Proof.
  intros Hok Ho Hl. assert ((t, i) ∈ WaitListHead ob) as Hin by (rewrite Hl; by left).
  apply (wi_list _ _ _ (inv_wait _ _ _ (dk_inv _ Hok)) _ _ _ _ Ho) in Hin
    as (bs & b & [_ Hv] & _). unfold wait_view in Hv.
  destruct (Threads s !! t) as [th|]; [|done]. simpl in Hv. exists th. split; congruence.
Qed.

Lemma KeSetEventBoostPriority_ok s o ob :
  dispatcher_ok s → Objects s !! o = Some ob → Body ob = SynchronizationEvent →
  ∃ s', KeSetEventBoostPriority o s = Some (fst <$> head (WaitListHead ob), s') ∧
    dispatcher_ok s'.
Proof.
  intros Hok Ho He. pose proof (lock_ok s Hok) as Hl.
  pose proof (lock_level s Hok) as Hlev.
  unfold KeSetEventBoostPriority, KiLockDispatcherDatabase. fold (lock s).
  change (Objects (lock s)) with (Objects s). rewrite Ho. cbn [mbind option_bind].
  destruct (WaitListHead ob) as [|[t i] l] eqn:Hw; cbn [mbind option_bind].
  - set (s1 := put_object o (ob <| SignalState := 1 |>) (lock s)).
    assert (H1 : dispatcher_ok s1).
    { apply (signaled_no_waiters s1 o (ob <| SignalState := 1 |>)); [| |done].
      - apply (signaled_put (lock s) o ob); [done..|]. unfold signal_ok. simpl. rewrite He. lia.
      - unfold s1. by rewrite Objects_put, decide_True. }
    destruct (KiUnlockDispatcherDatabase_ok s1 (Irql s) H1 Hlev) as (s' & -> & H' & _).
    by exists s'.
  - set (s1 := put_object o (ob <| SignalState := 0 |>) (lock s)).
    assert (put_object o (ob <| SignalState := 0 |>)
              (put_object o (ob <| SignalState := 1 |>) (lock s)) = s1) as ->.
    { unfold s1, put_object. simpl. by rewrite insert_insert_eq. }
    assert (H1 : dispatcher_ok s1).
    { apply (event_cleared (lock s) o ob); [done..|by right]. }
    destruct (waiter_waiting s o ob t i l Hok Ho Hw) as (th & Hth & Hst).
    destruct (KiUnwaitThread_ok unlocked nobody t th STATUS_SUCCESS 1 s1 (dk_inv _ H1) Hth Hst)
      as (s2 & -> & Hi2 & Hwk); [by intros []|]. cbn [mbind option_bind].
    assert (H2 : dispatcher_ok s2) by (by eapply (woken_dispatcher s1)).
    destruct (KiUnlockDispatcherDatabase_ok s2 (Irql s) H2) as (s' & -> & H' & _).
    { rewrite (wk_current _ _ _ _ _ Hwk), (wk_idle _ _ _ _ _ Hwk). exact Hlev. }
    by exists s'.
Qed.

(** ** Semaphores *)

Lemma s32_over (x : Z) : 2 ^ 31 ≤ x < 2 ^ 32 → s32 x = x - 2 ^ 32.
Proof.
  intros. unfold s32. rewrite (Z.mod_eq _ (2 ^ 32)) by lia.
  replace ((x + 2 ^ 31) / 2 ^ 32) with 1; [lia|].
  apply Z.div_unique with (x - 2 ^ 31); lia.
Qed.

(** The two comparisons catch exactly the counts that are out of range. *)
Lemma semaphore_guard Limit OldState Adjustment :
  0 ≤ OldState ≤ Limit → Limit < 2 ^ 31 → - 2 ^ 31 ≤ Adjustment < 2 ^ 31 →
  let NewState := s32 (OldState + Adjustment) in
  (Limit <? NewState) || (NewState <? OldState) =
    negb (bool_decide (0 ≤ Adjustment ∧ OldState + Adjustment ≤ Limit)).
Proof.
  intros Hs Hl Ha NewState. unfold NewState.
  destruct (decide (OldState + Adjustment < 2 ^ 31)).
  - rewrite s32_small by lia. case_bool_decide; [|destruct (Z.ltb_spec Limit (OldState + Adjustment))];
      simpl; [apply orb_false_iff; split; apply Z.ltb_ge; lia|done|apply Z.ltb_lt; lia].
  - rewrite s32_over by lia. rewrite bool_decide_false by lia.
    apply orb_true_iff. right. apply Z.ltb_lt. lia.
Qed.

(** [s2] is the state [s] with object [o] changed to [ob1], and the waiters tested or
    not. *)
Definition changed_tested (o : oid) (ob1 : KOBJECT) (inc : Z) (s s2 : KSTATE) : Prop :=
  ∃ s1, signaled_ok o s1 ∧ Objects s1 = Objects (put_object o ob1 s) ∧
    (∀ t th, Threads s !! t = Some th → State th = Waiting → Threads s1 !! t = Some th) ∧
    (s2 = s1 ∨ KiWaitTest o inc s1 = Some s2).

(** The semaphore's new count, the test of its waiters included. *)
Lemma semaphore_counted s o ob ob1 Limit inc Wait :
  dispatcher_ok s → Objects s !! o = Some ob → Body ob = SemaphoreObject Limit →
  Body ob1 = Body ob → WaitListHead ob1 = WaitListHead ob →
  SignalState ob ≤ SignalState ob1 → SignalState ob1 ≤ Limit →
  ∃ s1 s2, set_wait_next (CurrentThread s) Wait (put_object o ob1 s) = Some s1 ∧
    (if (SignalState ob =? 0) && bool_decide (WaitListHead ob ≠ [])
     then KiWaitTest o inc s1 else Some s1) = Some s2 ∧ dispatcher_ok s2 ∧
    later (put_object o ob1 s) s2 ∧ CurrentThread s2 = CurrentThread s ∧
    IdleThread s2 = IdleThread s ∧ changed_tested o ob1 inc s s2.
Proof.
  intros Hok Ho Hb Hb1 Hw1 Hle1 Hle2.
  pose proof (dispatcher_signal s o ob Hok Ho) as Hsg. unfold signal_ok in Hsg. rewrite Hb in Hsg.
  destruct Hsg as [Hr Hlim].
  destruct (set_wait_next_ok s Wait Hok) as (th & Hth & _ & H0).
  match type of H0 with dispatcher_ok ?x => set (s0 := x) in * end.
  assert (Hsig1 : signal_ok ob1) by (unfold signal_ok; rewrite Hb1, Hb; lia).
  exists (put_object o ob1 s0). unfold set_wait_next. change (Threads (put_object o ob1 s)) with (Threads s).
  rewrite Hth. cbn [mbind option_bind].
  assert (Hla : later (put_object o ob1 s) (put_object o ob1 s0)).
  { apply (later_put (put_object o ob1 s) (CurrentThread s) th); [done|by split|done..]. }
  assert (Hsg0 : signaled_ok o (put_object o ob1 s0)) by (by apply (signaled_put s0 o ob)).
  assert (Hct : ∀ s2, s2 = put_object o ob1 s0 ∨ KiWaitTest o inc (put_object o ob1 s0) = Some s2 →
    changed_tested o ob1 inc s s2).
  { intros s2 Hs2. exists (put_object o ob1 s0). split; [done|]. split; [done|]. split; [|done].
    intros t tht Ht Hw. change (Threads (put_object o ob1 s0)) with (Threads s0). unfold s0.
    rewrite Threads_put. destruct (decide _) as [->|]; [|done].
    destruct (dk_current _ Hok) as (thc & Hthc & Hrun). congruence. }
  assert (Hcase : dispatcher_ok (put_object o ob1 s0) ∨
     SignalState ob = 0 ∧ WaitListHead ob ≠ []).
  { destruct (decide (SignalState ob = 0)) as [Hz|Hz].
    - destruct (decide (WaitListHead ob = [])) as [Hn|Hn]; [left|by right].
      apply (signaled_no_waiters _ o ob1); [by apply (signaled_put s0 o ob)|
        by rewrite Objects_put, decide_True|by rewrite Hw1].
    - left. apply (dispatcher_unsignal s0 o ob); auto. lia. }
  destruct (Z.eqb_spec (SignalState ob) 0) as [Hz|Hz];
    [case_bool_decide as Hn|]; cbn [andb].
  2,3: destruct Hcase as [Hd|[? ?]]; [|done]; eexists; split_and!; try done; apply Hct; by left.
  destruct (signaled_test (put_object o ob1 s0) o ob1 inc) as (s2 & Hrun & H2 & Hp).
  - done.
  - by rewrite Objects_put, decide_True.
  - rewrite Hrun. exists s2. split; [done|]. split; [done|]. split; [done|]. split.
    + etrans; [done|]. by apply progress_later.
    + split; [exact (pg_current _ _ Hp)|]. split; [exact (pg_idle _ _ Hp)|]. apply Hct. by right.
Qed.

Lemma KeReleaseSemaphore_ok s o ob Limit inc Adjustment Wait :
  dispatcher_ok s → Objects s !! o = Some ob → Body ob = SemaphoreObject Limit →
  - 2 ^ 31 ≤ Adjustment < 2 ^ 31 →
  ∃ r s', KeReleaseSemaphore o inc Adjustment Wait s = Some (r, s') ∧ dispatcher_ok s' ∧
    if decide (0 ≤ Adjustment ∧ SignalState ob + Adjustment ≤ Limit)
    then r = Returned (SignalState ob) ∧
         later (put_object o (ob <| SignalState := SignalState ob + Adjustment |>) s) s' ∧
         ∃ s2, changed_tested o (ob <| SignalState := SignalState ob + Adjustment |>) inc s s2 ∧
               released s2 s'
    else r = Raised STATUS_SEMAPHORE_LIMIT_EXCEEDED ∧ released s s'.
Proof.
  intros Hok Ho Hb Hadj. pose proof (lock_ok s Hok) as Hl.
  pose proof (dispatcher_signal s o ob Hok Ho) as Hsg. unfold signal_ok in Hsg. rewrite Hb in Hsg.
  destruct Hsg as [Hr Hlim].
  unfold KeReleaseSemaphore, KiLockDispatcherDatabase. fold (lock s).
  change (Objects (lock s)) with (Objects s). rewrite Ho. cbn [mbind option_bind]. rewrite Hb.
  cbv zeta. rewrite (semaphore_guard Limit (SignalState ob) Adjustment Hr Hlim Hadj).
  destruct (decide (0 ≤ Adjustment ∧ SignalState ob + Adjustment ≤ Limit)) as [[Hpos Hle]|Hno].
  - rewrite bool_decide_true, s32_small by lia. cbn [negb].
    set (ob1 := ob <| SignalState := SignalState ob + Adjustment |>).
    destruct (semaphore_counted (lock s) o ob ob1 Limit inc Wait Hl Ho Hb)
      as (s1 & s2 & Hset & Hrun & H2 & Hla & Hc & Hi & Hct); [done|done|simpl; lia..|].
    change (CurrentThread (lock s)) with (CurrentThread s) in *. rewrite Hset.
    cbn [mbind option_bind]. rewrite Hrun. cbn [mbind option_bind].
    rewrite <- Hc. destruct (leave_dispatcher_ok s2 Wait (Irql s) H2) as (s' & -> & H' & Hrel).
    { unfold old_level. rewrite Hc, Hi. apply (dk_level _ Hok). }
    eexists _, s'. split; [done|]. split; [done|]. split; [done|]. split; [|by exists s2].
    etrans; [|by apply released_later]. etrans; [|done]. by apply later_same.
  - rewrite bool_decide_false by done. cbn [negb].
    destruct (KiUnlockDispatcherDatabase_ok _ (Irql s) Hl (lock_level s Hok)) as (s' & -> & H' & [Ri Ro Rt]).
    eexists _, s'. split; [done|]. split; [done|]. split; [done|].
    split; [exact Ri|exact Ro|exact Rt].
Qed.

(** ** Mutants *)

Lemma owned_by_put s o ob a b d g x t :
  Objects s !! o = Some ob →
  owned_by (put_object o (mkObject (MutantObject a b d) g (WaitListHead ob)) s) x t ↔
    if decide (x = o) then a = Some t else owned_by s x t.
Proof.
  intros Ho. unfold owned_by. rewrite Objects_put. destruct (decide (x = o)) as [->|]; [|done].
  split.
  - intros (? & ? & ? & <-%(inj Some) & [= -> _ _]). done.
  - intros ->. by eexists _, b, d.
Qed.

(** The mutant has no owner any more. *)
Lemma object_inv_free s w th o ob a d d' b :
  object_inv s → Threads s !! w = Some th → Objects s !! o = Some ob →
  Body ob = MutantObject (Some w) a d →
  object_inv (put_thread w (th <| MutantList := filter (λ x, x ≠ o) (MutantList th) |>)
    (put_object o (mkObject (MutantObject None b d') 1 (WaitListHead ob)) s)).
Proof.
  intros [Hs Hm How Hnd Hti] Hth Ho Hb.
  set (s1 := put_object o _ s).
  assert (Hown : ∀ x y, owned_by s1 x y ↔ x ≠ o ∧ owned_by s x y).
  { intros x y. unfold s1. rewrite (owned_by_put s o ob) by done.
    destruct (decide (x = o)); [|tauto]. split; [done|tauto]. }
  split.
  - intros x obx. change (Objects s1 !! x = Some obx → signal_ok obx). unfold s1.
    rewrite Objects_put. destruct (decide (x = o)); [intros [= <-]|eauto].
    unfold signal_ok, MINLONG. simpl. split; [lia|done].
  - intros y thy x. change (owned_by (put_thread w _ s1) x y) with (owned_by s1 x y).
    rewrite Hown, Threads_put. change (Threads s1) with (Threads s).
    destruct (decide (y = w)) as [->|Hne].
    + intros <-%(inj Some). simpl. by rewrite list_elem_of_filter, (Hm _ _ _ Hth).
    + intros Hy. rewrite (Hm _ _ _ Hy). split; [|tauto]. intros Hxy. split; [|done].
      intros ->. destruct Hxy as (? & ? & ? & ? & ?). congruence.
  - intros x y. change (owned_by (put_thread w _ s1) x y) with (owned_by s1 x y).
    rewrite Hown, Threads_put. intros [_ Hx]. destruct (decide _); [done|]. by apply (How x).
  - intros y thy. rewrite Threads_put. destruct (decide (y = w)); [|apply Hnd].
    intros <-%(inj Some). simpl. apply NoDup_filter. eauto.
  - intros y oby. change (Objects s1 !! ThreadTimer y = Some oby → Body oby = TimerObject).
    unfold s1. rewrite Objects_put. destruct (decide _) as [<-|]; [|eauto].
    pose proof (Hti _ _ Ho). congruence.
Qed.

(** A mutant without owner is abandoned. *)
Lemma object_inv_abandon s o ob a d b :
  object_inv s → Objects s !! o = Some ob → Body ob = MutantObject None a d →
  object_inv (put_object o (mkObject (MutantObject None b d) 1 (WaitListHead ob)) s).
Proof.
  intros [Hs Hm How Hnd Hti] Ho Hb. split.
  - intros x obx. rewrite Objects_put. destruct (decide (x = o)); [intros [= <-]|eauto].
    unfold signal_ok, MINLONG. simpl. split; [lia|done].
  - intros y thy x Hy. rewrite (owned_by_put s o ob) by done. rewrite (Hm _ _ _ Hy).
    destruct (decide (x = o)) as [->|]; [|done]. split; [|done].
    intros (? & ? & ? & ? & ?). congruence.
  - intros x y. rewrite (owned_by_put s o ob) by done. destruct (decide (x = o)); [done|].
    apply How.
  - exact Hnd.
  - intros y oby. rewrite Objects_put. destruct (decide _) as [<-|]; [|eauto].
    pose proof (Hti _ _ Ho). congruence.
Qed.

(** Only mutant lists of threads and the mutant change. *)
Lemma dispatcher_update P Q s w th ml o ob' :
  dispatcher P s → Threads s !! w = Some th → wait_inv unlocked Q (put_object o ob' s) →
  let s' := put_thread w (th <| MutantList := ml |>) (put_object o ob' s) in
  object_inv s' → dispatcher Q s'.
Proof.
  intros [[Hs Hd Hw Hoi Ht Hc] Hrc Hri [Hl1 Hl2]] Hth Hwi s' Hoi'.
  set (th' := th <| MutantList := ml |>) in *.
  assert (Hv : ∀ x, sched_view s' x = sched_view s x).
  { intros x. etransitivity; [exact (sched_view_put w th' s x)|].
    destruct (decide (x = w)) as [->|]; [|done]. by rewrite (sched_view_Some _ _ _ Hth). }
  assert (Hthr : ∀ x thx, Threads s !! x = Some thx → ∃ thx', Threads s' !! x = Some thx' ∧
    State thx' = State thx ∧ ProcessReadyQueue thx' = ProcessReadyQueue thx ∧
    WaitIrql thx' = WaitIrql thx).
  { intros x thx Hx. unfold s'. rewrite Threads_put. destruct (decide (x = w)) as [->|]; [|by exists thx].
    exists th'. rewrite Hth in Hx. apply (inj Some) in Hx as <-. done. }
  split; [split|..].
  - apply (sched_inv_ext unlocked unlocked s); auto.
    + intros x st r p _. by rewrite Hv.
    + rewrite Hv. apply (si_current _ _ Hs).
  - by apply (dispatch_ok_same s).
  - apply (wait_inv_ext unlocked _ _ (put_object o ob' s)); [done| |done].
    intros x bs. unfold waits. unfold s'. rewrite wait_view_put.
    change (wait_view (put_object o ob' s) x) with (wait_view s x).
    destruct (decide (x = w)) as [->|]; [|done]. by rewrite (wait_view_Some _ _ _ Hth).
  - done.
  - apply (thread_inv_kept (put_thread w th' s)); [done|by split_and!|].
    apply thread_inv_put; [done|]. apply (thread_ok_state s w th); auto.
    apply (to_swapped _ _ _ (Ht _ _ Hth)).
  - destruct Hc as (Hn & thc & Hc & Hst & Hr). split; [done|].
    destruct (Hthr _ _ Hc) as (thc' & ? & ? & ? & _). exists thc'. split; [done|]. split; congruence.
  - destruct Hrc as (thc & Hthc & Hr). destruct (Hthr _ _ Hthc) as (thc' & ? & ? & _).
    exists thc'. split; [done|congruence].
  - destruct Hri as (thc & Hthc & Hr). destruct (Hthr _ _ Hthc) as (thc' & ? & ? & _).
    exists thc'. split; [done|congruence].
  - split; [|done]. destruct Hri as (thc & Hthc & Hr).
    destruct (Hthr _ _ Hthc) as (thc' & Hc' & _ & _ & Hq). intros ?. 
    change (IdleThread s') with (IdleThread s). rewrite Hc'. intros <-%(inj Some).
    rewrite Hq. auto.
Qed.

Lemma dispatcher_mutants s w th ml o ob ob' :
  dispatcher_ok s → Threads s !! w = Some th → Objects s !! o = Some ob →
  WaitListHead ob' = WaitListHead ob → Body ob ≠ SynchronizationEvent →
  let s' := put_thread w (th <| MutantList := ml |>) (put_object o ob' s) in
  object_inv s' → signaled_ok o s'.
Proof.
  intros Hok Hth Ho Hwl Hb s' Hoi'. apply (dispatcher_update nobody _ s w th ml); [done..| |done].
  apply (wait_inv_signal unlocked nobody s o ob); [done..|apply (dk_inv _ Hok)].
Qed.

Lemma put_thread_id s t th : Threads s !! t = Some th → put_thread t th s = s.
Proof. intros H. unfold put_thread. rewrite insert_id by done. by destruct s. Qed.

(** The state in which the waiters of a freed mutant are tested: the mutant left
    its owner's list, and if it was held ([held]) the current thread has its
    kernel APCs back. *)
Record freed (o : oid) (a : bool) (d : Z) (held : bool) (s sf : KSTATE) : Prop := {
  fd_ok : signaled_ok o sf;
  fd_idle : IdleThread sf = IdleThread s;
  fd_current : CurrentThread sf = CurrentThread s;
  fd_object : ∃ ob, Objects s !! o = Some ob ∧
    Objects sf !! o = Some (mkObject (MutantObject None a d) 1 (WaitListHead ob));
  fd_objects x : x ≠ o → Objects sf !! x = Objects s !! x;
  fd_others t : t ≠ CurrentThread s → (∀ th, Threads s !! t = Some th → o ∉ MutantList th) →
    Threads sf !! t = Threads s !! t;
  fd_threads t th : Threads s !! t = Some th → ∃ th', Threads sf !! t = Some th' ∧
    State th' = State th ∧ WaitBlockList th' = WaitBlockList th ∧ WaitStatus th' = WaitStatus th ∧
    MutantList th' = filter (λ x, x ≠ o) (MutantList th) ∧
    KernelApcDisable th' = if held && bool_decide (t = CurrentThread s)
                           then u8 (KernelApcDisable th + d) else KernelApcDisable th
}.

Lemma not_owned_filter s o ob ow a d t th :
  object_inv s → Objects s !! o = Some ob → Body ob = MutantObject ow a d → ow ≠ Some t →
  Threads s !! t = Some th → filter (λ x, x ≠ o) (MutantList th) = MutantList th.
Proof.
  intros Hi Ho Hb Hne Hth. apply filter_id. intros x Hx ->.
  apply (oi_mutants _ Hi _ _ _ Hth) in Hx as (? & ? & ? & ? & ?). congruence.
Qed.

Lemma enable_apcs_ok P s d :
  dispatcher P s → ∃ th th' b, Threads s !! CurrentThread s = Some th ∧ passive th th' ∧
    KernelApcDisable th' = u8 (KernelApcDisable th + d) ∧ WaitStatus th' = WaitStatus th ∧
    WaitBlockList th' = WaitBlockList th ∧
    let s' := put_thread (CurrentThread s) th' s <| ApcInterrupt := b |> in
    enable_apcs (CurrentThread s) d s = Some s' ∧ dispatcher P s'.
Proof.
  intros Hok. destruct (dk_current _ Hok) as (th & Hth & _). exists th.
  set (th1 := th <| KernelApcDisable := u8 (KernelApcDisable th + d) |>).
  assert (Hput : ∀ th' b, passive th th' → WaitIrql th' = WaitIrql th →
    dispatcher P (put_thread (CurrentThread s) th' s <| ApcInterrupt := b |>)).
  { intros th' b Hpv Hq. apply (dispatcher_same _ (put_thread (CurrentThread s) th' s));
      [by split_and!..| |]; [apply (dk_level _ Hok)|].
    apply (dispatcher_put_current _ s th); auto. rewrite Hq. intros Heq.
    apply (dk_level _ Hok). congruence. }
  unfold enable_apcs. rewrite Hth. cbn [mbind option_bind]. cbv zeta. fold th1.
  destruct ((KernelApcDisable th1 =? 0) && KernelApcQueued th1).
  - exists (th1 <| KernelApcPending := true |>), true. split; [done|]. split; [by split|].
    split; [done|]. split; [done|]. split; [done|]. split; [done|]. apply Hput; [by split|done].
  - exists th1, (ApcInterrupt s). split; [done|]. split; [by split|].
    split; [done|]. split; [done|]. split; [done|]. split; [|apply Hput; [by split|done]].
    by f_equal.
Qed.

(** The APC counts do not depend on objects. *)
Lemma enable_apcs_over t d o ob1 ob2 s s' :
  enable_apcs t d (put_object o ob2 s) = Some s' →
  ∃ s1, enable_apcs t d (put_object o ob1 s) = Some s1 ∧ put_object o ob2 s1 = s'.
Proof.
  unfold enable_apcs. change (Threads (put_object o ob2 s)) with (Threads s).
  change (Threads (put_object o ob1 s)) with (Threads s).
  destruct (Threads s !! t) as [th|]; [|done]. cbn [mbind option_bind]. cbv zeta.
  intros <-%(inj Some). eexists. split; [done|].
  destruct (_ && _); unfold put_object; simpl; by rewrite insert_insert_eq.
Qed.

Lemma mutant_free_iff s o ob ow a d :
  dispatcher_ok s → Objects s !! o = Some ob → Body ob = MutantObject ow a d →
  (SignalState ob <=? 0) = bool_decide (ow ≠ None) ∧ SignalState ob ≤ 1.
Proof.
  intros Hok Ho Hb. pose proof (dispatcher_signal s o ob Hok Ho) as Hsg. unfold signal_ok in Hsg.
  rewrite Hb in Hsg. destruct Hsg as [Hr Hiff]. split; [|lia]. case_bool_decide as Hn.
  - apply Z.leb_le. destruct (decide (SignalState ob = 1)); [tauto|lia].
  - apply Z.leb_gt. destruct Hiff as [Hone _]. rewrite Hone; done.
Qed.


Lemma free_held s o ob w a a' d :
  dispatcher_ok s → Objects s !! o = Some ob → Body ob = MutantObject (Some w) a d →
  let ob1 := mkObject (MutantObject (Some w) a' d) 1 (WaitListHead ob) in
  let ob2 := mkObject (MutantObject None a' d) 1 (WaitListHead ob) in
  ∃ s2, (s1 ← remove_mutant o (Some w) (put_object o ob1 s);
         enable_apcs (CurrentThread s) d s1) = Some s2 ∧
    freed o a' d true s (put_object o ob2 s2).
Proof.
  intros Hok Ho Hb ob1 ob2. pose proof (inv_object _ _ _ (dk_inv _ Hok)) as Hoi.
  destruct (oi_owner _ Hoi o w) as [thw Hthw]; [by exists ob, a, d|].
  set (thw' := thw <| MutantList := filter (λ x, x ≠ o) (MutantList thw) |>).
  assert (Hr : signaled_ok o (put_object o ob2 (put_thread w thw' s))).
  { apply (dispatcher_mutants s w thw _ o ob); [done..|congruence|].
    by apply (object_inv_free s w thw o ob a d). }
  destruct (enable_apcs_ok _ _ d Hr) as (th & th' & b & Hth & Hpv & Hap & Hws & Hwb & Hen & Hok').
  destruct (enable_apcs_over _ _ _ ob1 _ _ _ Hen) as (s2 & Hs2 & Heq).
  exists s2. split.
  { unfold remove_mutant. cbn [mbind option_bind].
    change (Threads (put_object o ob1 s)) with (Threads s). rewrite Hthw. exact Hs2. }
  rewrite Heq. split; [done..| | | |].
  - exists ob. split; [done|]. exact (lookup_insert_eq _ _ _).
  - intros x Hne. exact (lookup_insert_ne _ _ _ _ (not_eq_sym Hne)).
  - intros t Hne Hno.
    assert (t ≠ w).
    { intros ->. apply (Hno thw Hthw), (oi_mutants _ Hoi _ _ _ Hthw). by exists ob, a, d. }
    etransitivity; [exact (lookup_insert_ne _ _ _ _ (not_eq_sym Hne))|].
    by apply lookup_insert_ne.
  - change (CurrentThread (put_object o ob2 (put_thread w thw' s))) with (CurrentThread s) in *.
    change (Threads (put_object o ob2 (put_thread w thw' s))) with (<[w := thw']> (Threads s)) in Hth.
    intros t tht Ht. change (Threads _) with (<[CurrentThread s := th']> (<[w := thw']> (Threads s))).
    assert (Htw : ∃ tht', <[w := thw']> (Threads s) !! t = Some tht' ∧
      State tht' = State tht ∧ WaitBlockList tht' = WaitBlockList tht ∧
      WaitStatus tht' = WaitStatus tht ∧
      MutantList tht' = filter (λ x, x ≠ o) (MutantList tht) ∧
      KernelApcDisable tht' = KernelApcDisable tht).
    { destruct (decide (t = w)) as [->|Hne].
      - exists thw'. rewrite lookup_insert_eq. rewrite Hthw in Ht. by apply (inj Some) in Ht as <-.
      - exists tht. rewrite lookup_insert_ne by done. split_and!; try done.
        symmetry. apply (not_owned_filter s o ob (Some w) a d t); auto. congruence. }
    destruct Htw as (tht' & Ht' & E1 & E2 & E3 & E4 & E5). cbn [andb].
    destruct (decide (t = CurrentThread s)) as [->|Hne].
    + rewrite lookup_insert_eq, bool_decide_true by done. exists th'.
      assert (tht' = th) as -> by congruence. destruct Hpv. split_and!; congruence.
    + rewrite lookup_insert_ne, bool_decide_false by done. exists tht'. done.
Qed.

Lemma free_idle s o ob a a' d :
  dispatcher_ok s → Objects s !! o = Some ob → Body ob = MutantObject None a d →
  freed o a' d false s (put_object o (mkObject (MutantObject None a' d) 1 (WaitListHead ob)) s).
Proof.
  intros Hok Ho Hb. pose proof (inv_object _ _ _ (dk_inv _ Hok)) as Hoi.
  set (ob2 := mkObject (MutantObject None a' d) 1 (WaitListHead ob)).
  destruct (dk_current _ Hok) as (th & Hth & _).
  assert (Hid : put_thread (CurrentThread s) (th <| MutantList := MutantList th |>)
                  (put_object o ob2 s) = put_object o ob2 s).
  { apply put_thread_id. change (Threads (put_object o ob2 s)) with (Threads s). rewrite Hth.
    by destruct th. }
  split; [|done|done|..].
  - rewrite <- Hid. apply (dispatcher_mutants s _ th _ o ob); [done..|congruence|].
    rewrite Hid. by apply (object_inv_abandon s o ob a).
  - exists ob. split; [done|]. by rewrite Objects_put, decide_True.
  - intros x Hne. by rewrite Objects_put, decide_False.
  - done.
  - intros t tht Ht. exists tht. split_and!; try done.
    symmetry. by apply (not_owned_filter s o ob None a d t).
Qed.

Lemma free_mutant_ok s o ob ow a a' d inc :
  dispatcher_ok s → Objects s !! o = Some ob → Body ob = MutantObject ow a d →
  let ob1 := mkObject (MutantObject ow a' d) 1 (WaitListHead ob) in
  ∃ sf s', free_mutant o (CurrentThread s) (SignalState ob) inc (put_object o ob1 s) = Some s' ∧
    freed o a' d (SignalState ob <=? 0) s sf ∧ dispatcher_ok s' ∧ progress sf s' ∧
    if decide (WaitListHead ob = []) then s' = sf else KiWaitTest o inc sf = Some s'.
Proof.
  intros Hok Ho Hb ob1. unfold free_mutant.
  destruct (mutant_free_iff s o ob ow a d Hok Ho Hb) as [-> _]. rewrite Objects_put, decide_True by done. cbn [mbind option_bind Body ob1].
  set (ob2 := mkObject (MutantObject None a' d) 1 (WaitListHead ob)).
  change (ob1 <| Body := MutantObject None a' d |>) with ob2.
  assert (H : ∃ s2, (if bool_decide (ow ≠ None)
      then s1 ← remove_mutant o ow (put_object o ob1 s); enable_apcs (CurrentThread s) d s1
      else Some (put_object o ob1 s)) = Some s2 ∧
      freed o a' d (bool_decide (ow ≠ None)) s (put_object o ob2 s2)).
  { destruct ow as [w|].
    - rewrite bool_decide_true by done. by apply (free_held s o ob w a).
    - rewrite bool_decide_false by auto. eexists. split; [done|].
      assert (put_object o ob2 (put_object o ob1 s) = put_object o ob2 s) as ->
        by (unfold put_object; simpl; by rewrite insert_insert_eq).
      by apply (free_idle s o ob a). }
  destruct H as (s2 & Hrun & Hfd). rewrite Hrun. cbn [mbind option_bind].
  destruct (test_waiters_ok (put_object o ob2 s2) o ob2 (WaitListHead ob) inc (fd_ok _ _ _ _ _ _ Hfd))
    as (s' & Hr & H' & Hp); [by rewrite Objects_put, decide_True|done|].
  exists (put_object o ob2 s2), s'. split_and!; try done.
  destruct (decide _); [|done]. by apply (inj Some) in Hr.
Qed.

Lemma freed_wait_next o a d held s th Wait sf :
  Threads s !! CurrentThread s = Some th →
  freed o a d held (put_thread (CurrentThread s) (th <| WaitNext := Wait |>) (lock s)) sf →
  freed o a d held s sf.
Proof.
  intros Hth [? ? ? ? ? Hoth Ht]. split; auto.
  { intros t Hne Hno. etransitivity; [apply Hoth; [done|]|].
    - intros tht. rewrite Threads_put, decide_False by done. apply Hno.
    - by rewrite Threads_put, decide_False. }
  intros t tht H. destruct (decide (t = CurrentThread s)) as [->|Hne].
  - rewrite Hth in H. apply (inj Some) in H as <-.
    exact (Ht (CurrentThread s) (th <| WaitNext := Wait |>) (lookup_insert_eq _ _ _)).
  - assert (Hl : Threads (put_thread (CurrentThread s) (th <| WaitNext := Wait |>) (lock s)) !! t =
      Some tht) by (rewrite Threads_put; by rewrite decide_False).
    exact (Ht t tht Hl).
Qed.

Section release_mutant.
Variables (s : KSTATE) (o : oid) (ob : KOBJECT) (ow : option tid) (a : bool) (d : Z).
Hypothesis Hok : dispatcher_ok s.
Hypothesis Ho : Objects s !! o = Some ob.
Hypothesis Hb : Body ob = MutantObject ow a d.

Lemma KeReleaseMutant_not_owner inc Wait :
  ow ≠ Some (CurrentThread s) →
  ∃ s' th, KeReleaseMutant o inc false Wait s =
      Some (Raised (if a then STATUS_ABANDONED else STATUS_MUTANT_NOT_OWNED), s') ∧
    dispatcher_ok s' ∧ Threads s !! CurrentThread s = Some th ∧
    released (put_thread (CurrentThread s) (th <| WaitNext := Wait |>) s) s'.
Proof.
  intros Hne. pose proof (lock_ok s Hok) as Hl.
  unfold KeReleaseMutant, KiLockDispatcherDatabase. fold (lock s).
  change (Objects (lock s)) with (Objects s). rewrite Ho. cbn [mbind option_bind].
  destruct (set_wait_next_ok (lock s) Wait Hl) as (th & Hth & Hs1 & H1).
  change (CurrentThread (lock s)) with (CurrentThread s) in *. rewrite Hs1. cbn [mbind option_bind].
  match type of H1 with dispatcher_ok ?x => set (s1 := x) in * end.
  rewrite Hb, bool_decide_false by done. cbn [negb andb].
  destruct (KiUnlockDispatcherDatabase_ok s1 (Irql s) H1 (lock_level s Hok))
    as (s' & -> & H' & Hrel). cbn [mbind option_bind].
  assert (o ≠ KiSwapEvent) by (intros Heq; pose proof (swap_event_body s o ob Hok Ho Heq); congruence).
  rewrite (rl_objects _ _ Hrel) by done. change (Objects s1 !! o) with (Objects s !! o).
  rewrite Ho. cbn [mbind option_bind]. unfold is_abandoned. rewrite Hb. cbn [mbind option_bind].
  exists s', th. split; [done|]. split; [done|]. split; [done|].
  destruct Hrel as [Ri Ro Rt]. by split.
Qed.

Lemma KeReleaseMutant_nested inc Wait :
  ow = Some (CurrentThread s) → SignalState ob < 0 →
  ∃ s', KeReleaseMutant o inc false Wait s = Some (Returned (SignalState ob), s') ∧
    dispatcher_ok s' ∧ ∃ th, Threads s !! CurrentThread s = Some th ∧
      released (put_thread (CurrentThread s) (th <| WaitNext := Wait |>)
                  (put_object o (ob <| SignalState := SignalState ob + 1 |>) s)) s'.
Proof.
  intros Hown Hneg. pose proof (lock_ok s Hok) as Hl.
  pose proof (dispatcher_signal s o ob Hok Ho) as Hsg. unfold signal_ok in Hsg. rewrite Hb in Hsg.
  unfold MINLONG in Hsg. destruct Hsg as [Hr Hn].
  unfold KeReleaseMutant, KiLockDispatcherDatabase. fold (lock s).
  change (Objects (lock s)) with (Objects s). rewrite Ho. cbn [mbind option_bind].
  destruct (set_wait_next_ok (lock s) Wait Hl) as (th & Hth & Hs1 & H1).
  change (CurrentThread (lock s)) with (CurrentThread s) in *. rewrite Hs1. cbn [mbind option_bind].
  match type of H1 with dispatcher_ok ?x => set (s1 := x) in * end.
  rewrite Hb, bool_decide_true by done. cbn [negb andb]. rewrite s32_small by lia. cbv zeta.
  set (ob1 := ob <| SignalState := SignalState ob + 1 |>).
  change (SignalState ob1) with (SignalState ob + 1).
  rewrite (proj2 (Z.eqb_neq (SignalState ob + 1) 1)) by lia. cbn [mbind option_bind].
  assert (H2 : dispatcher_ok (put_object o ob1 s1)).
  { apply (dispatcher_unsignal s1 o ob); [done..| |simpl; lia]. unfold signal_ok.
    change (Body ob1) with (Body ob). rewrite Hb, Hown. unfold MINLONG. simpl.
    split; [lia|]. split; [done|lia]. }
  destruct (leave_dispatcher_ok (put_object o ob1 s1) Wait (Irql s) H2) as (s' & Hl' & H' & Hrel).
  { unfold old_level. apply (dk_level _ Hok). }
  change (CurrentThread (put_object o ob1 s1)) with (CurrentThread s) in Hl'. rewrite Hl'.
  exists s'. split; [done|]. split; [done|]. exists th. split; [done|].
  destruct Hrel as [Ri Ro Rt]. by split.
Qed.

Lemma KeReleaseMutant_free inc Abandoned Wait :
  Abandoned = true ∨ ow = Some (CurrentThread s) ∧ SignalState ob = 0 →
  ∃ sf s2 s', KeReleaseMutant o inc Abandoned Wait s = Some (Returned (SignalState ob), s') ∧
    freed o (Abandoned || a) d (SignalState ob <=? 0) s sf ∧ dispatcher_ok s' ∧
    progress sf s2 ∧ released s2 s' ∧
    if decide (WaitListHead ob = []) then s2 = sf else KiWaitTest o inc sf = Some s2.
Proof.
  intros Hcase. pose proof (lock_ok s Hok) as Hl.
  unfold KeReleaseMutant, KiLockDispatcherDatabase. fold (lock s).
  change (Objects (lock s)) with (Objects s). rewrite Ho. cbn [mbind option_bind].
  destruct (set_wait_next_ok (lock s) Wait Hl) as (th & Hth & Hs1 & H1).
  change (CurrentThread (lock s)) with (CurrentThread s) in *. rewrite Hs1. cbn [mbind option_bind].
  match type of H1 with dispatcher_ok ?x => set (s1 := x) in * end. rewrite Hb.
  assert (negb Abandoned && negb (bool_decide (ow = Some (CurrentThread s))) = false) as ->.
  { destruct Hcase as [->|[-> _]]; [done|]. rewrite bool_decide_true by done.
    apply andb_false_r. }
  cbv zeta. set (ob1 := mkObject (MutantObject ow (Abandoned || a) d) 1 (WaitListHead ob)).
  match goal with |- context [put_object o ?x s1] => assert (x = ob1) as -> end.
  { unfold ob1. destruct Abandoned; [done|]. destruct Hcase as [|[_ Hz]]; [done|].
    rewrite Hz. destruct ob; simpl in *. by rewrite Hb. }
  change (SignalState ob1) with 1.
  rewrite Z.eqb_refl.
  destruct (free_mutant_ok s1 o ob ow a (Abandoned || a) d inc H1 Ho Hb)
    as (sf & s2 & Hrun & Hfd & H2 & Hp & Htest).
  change (CurrentThread s1) with (CurrentThread s) in *. fold ob1 in Hrun. rewrite Hrun.
  cbn [mbind option_bind]. apply freed_wait_next in Hfd; [|done].
  assert (Hc2 : CurrentThread s2 = CurrentThread s)
    by (by rewrite (pg_current _ _ Hp), (fd_current _ _ _ _ _ _ Hfd)).
  rewrite <- Hc2. destruct (leave_dispatcher_ok s2 Wait (Irql s) H2) as (s' & -> & H' & Hrel).
  { unfold old_level. rewrite Hc2, (pg_idle _ _ Hp), (fd_idle _ _ _ _ _ _ Hfd). apply (dk_level _ Hok). }
  by exists sf, s2, s'.
Qed.

End release_mutant.

(** ** Initialization *)

(** An object no thread has used before. *)
Lemma wait_inv_new E P s o ob :
  wait_inv E P s → Objects s !! o = None → WaitListHead ob = [] →
  wait_inv E P (put_object o ob s).
Proof.
  intros [Hl Hnd Hob Hbl Hsw Hal Hsat] Hfresh Hnil.
  assert (Hno : ∀ t bs i b, waits E s t bs → bs !! i = Some b → WaitObject b ≠ o).
  { intros t bs i b Hw Hb Heq. destruct (Hob _ _ _ _ Hw Hb) as [? ?]. congruence. }
  split.
  - intros x obx t i. rewrite Objects_put. destruct (decide (x = o)) as [->|]; [|apply Hl].
    intros <-%(inj Some). rewrite Hnil. split; [by intros ?%elem_of_nil|].
    intros (bs & b & Hw & Hb & Heq). by destruct (Hno _ _ _ _ Hw Hb).
  - intros x obx. rewrite Objects_put. destruct (decide (x = o)); [|apply Hnd].
    intros <-%(inj Some). rewrite Hnil. apply NoDup_nil_2.
  - intros t bs i b Hw Hb. rewrite Objects_put. destruct (decide _); [done|]. eauto.
  - exact Hbl.
  - destruct Hsw as (ev & Hev & ?). rewrite Objects_put. destruct (decide _); [congruence|eauto].
  - exact Hal.
  - intros t bs i Hw (b & Hb & Hs & Hrest). apply (Hsat t bs i Hw).
    assert (Hsig : ∀ x, x ≠ o → signaled (put_object o ob s) x → signaled s x).
    { intros x Hne. unfold signaled. rewrite Objects_put. by rewrite decide_False. }
    exists b. split; [done|]. split; [apply Hsig; [by eapply Hno|done]|].
    destruct Hrest as [|Hrest]; [by left|right]. intros j b' Hj Hb' Hk.
    apply Hsig; [by eapply Hno|eauto].
Qed.

Definition not_timer (o : oid) : Prop := ∀ t, o ≠ ThreadTimer t.

Lemma dispatcher_new s o ob :
  dispatcher_ok s → Objects s !! o = None → WaitListHead ob = [] → signal_ok ob →
  not_timer o → (∀ t a d, Body ob ≠ MutantObject (Some t) a d) →
  dispatcher_ok (put_object o ob s).
Proof.
  intros Hok Ho Hnil Hsg Hti Hnm. destruct (dk_current _ Hok) as (th & Hth & _).
  assert (Hid : put_thread (CurrentThread s) (th <| MutantList := MutantList th |>)
                  (put_object o ob s) = put_object o ob s).
  { apply put_thread_id. change (Threads (put_object o ob s)) with (Threads s). rewrite Hth.
    by destruct th. }
  unfold dispatcher_ok. rewrite <- Hid. apply (dispatcher_update nobody _ s); [done..| |].
  - apply wait_inv_new; [apply (dk_inv _ Hok)|done..].
  - rewrite Hid. destruct (inv_object _ _ _ (dk_inv _ Hok)) as [Hs Hm How Hnd Htm].
    assert (Hown : ∀ x t, owned_by (put_object o ob s) x t ↔ owned_by s x t).
    { intros x t. unfold owned_by. rewrite Objects_put. destruct (decide (x = o)) as [->|]; [|done].
      rewrite Ho. split; intros (? & a & d & Heq & ?); [|done].
      apply (inj Some) in Heq as <-. by destruct (Hnm t a d). }
    split.
    + intros x obx. rewrite Objects_put. destruct (decide _); [|apply Hs]. by intros <-%(inj Some).
    + intros t tht x Ht. rewrite Hown. by apply Hm.
    + intros x t. rewrite Hown. apply How.
    + exact Hnd.
    + intros t obt. rewrite Objects_put. destruct (decide _); [by destruct (Hti t)|apply Htm].
Qed.

Lemma KeInitializeEvent_ok s o ty st :
  dispatcher_ok s → Objects s !! o = None → not_timer o →
  ty = NotificationEvent ∨ ty = SynchronizationEvent →
  dispatcher_ok (KeInitializeEvent o ty st s).
Proof.
  intros Hok Ho Hti Hty. apply dispatcher_new; auto.
  - apply is_event_signal; [exact Hty|]. destruct st; simpl; lia.
  - intros t a d. simpl. destruct Hty; congruence.
Qed.

Lemma KeInitializeSemaphore_ok s o Count Limit :
  dispatcher_ok s → Objects s !! o = None → not_timer o → 0 ≤ Count ≤ Limit → Limit < 2 ^ 31 →
  dispatcher_ok (KeInitializeSemaphore o Count Limit s).
Proof. intros Hok Ho Hti Hc Hl. by apply dispatcher_new. Qed.

Lemma KeInitializeMutex_ok s o :
  dispatcher_ok s → Objects s !! o = None → not_timer o → dispatcher_ok (KeInitializeMutex o s).
Proof. intros Hok Ho Hti. by apply dispatcher_new. Qed.

Lemma KeInitializeMutant_ok s o InitialOwner :
  dispatcher_ok s → Objects s !! o = None → not_timer o →
  ∃ s', KeInitializeMutant o InitialOwner s = Some s' ∧ dispatcher_ok s'.
Proof.
  intros Hok Ho Hti. unfold KeInitializeMutant. destruct InitialOwner;
    [|eexists; split; [done|]; by apply dispatcher_new].
  destruct (dk_current _ Hok) as (th & Hth & _). rewrite Hth. cbn [mbind option_bind].
  eexists. split; [done|]. set (ob := mkObject (MutantObject (Some (CurrentThread s)) false 0) 0 []).
  apply (dispatcher_update nobody _ s); [done..| |].
  - apply wait_inv_new; [apply (dk_inv _ Hok)|done..].
  - set (s' := put_thread _ _ _).
    destruct (inv_object _ _ _ (dk_inv _ Hok)) as [Hs Hm How Hnd Htm].
    assert (Hown : ∀ x t, owned_by s' x t ↔ owned_by s x t ∨ x = o ∧ t = CurrentThread s).
    { intros x t. change (owned_by s' x t) with (owned_by (put_object o ob s) x t).
      unfold owned_by. rewrite Objects_put. destruct (decide (x = o)) as [->|]; [|naive_solver].
      rewrite Ho. split.
      - intros (? & a & d & <-%(inj Some) & [= <- _ _]). auto.
      - intros [(? & ? & ? & ? & _)|[_ ->]]; [done|]. by exists ob, false, 0. }
    assert (Hno : ¬ owned_by s o (CurrentThread s)).
    { intros (? & ? & ? & ? & _). congruence. }
    split.
    + intros x obx. change (Objects s') with (Objects (put_object o ob s)). rewrite Objects_put.
      destruct (decide _); [|apply Hs]. by intros <-%(inj Some).
    + intros t tht x. unfold s' at 1. rewrite Threads_put, Hown.
      destruct (decide (t = CurrentThread s)) as [->|].
      * intros <-%(inj Some). simpl. rewrite elem_of_app, list_elem_of_singleton, (Hm _ _ _ Hth).
        tauto.
      * intros Ht. rewrite (Hm _ _ _ Ht). tauto.
    + intros x t Hx%Hown. unfold s'. rewrite Threads_put. destruct (decide _); [done|].
      destruct Hx as [Hx|[_ ?]]; [by apply (How x)|done].
    + intros t tht. unfold s'. rewrite Threads_put. destruct (decide _); [|apply Hnd].
      intros <-%(inj Some). simpl. apply NoDup_app. split; [by apply (Hnd _ _ Hth)|].
      split; [|apply NoDup_singleton]. intros x Hx ->%list_elem_of_singleton.
      apply Hno. by apply (Hm _ _ _ Hth).
    + intros t obt. change (Objects s') with (Objects (put_object o ob s)). rewrite Objects_put.
      destruct (decide _); [by destruct (Hti t)|apply Htm].
Qed.
