(* ===== verification/KeBlockOk.v ===== *)
(** * Waiting keeps the invariants

    [KeWaitForSingleObject] and [KeWaitForMultipleObjects] are defined on every
    state with the invariant and end in one, also when the thread has to wait and
    another thread is switched to. *)

From stdpp Require Import base list numbers option gmap sets.
From S2P Require Import Prelude KeState KeSched KeWait KeInv KeReady KeFrame KeTest.
From S2P Require Import KeObjects KeBlock KeOps KeObjOk.

(** ** Switching away from a thread that waits *)

(** The invariant when the current thread has just begun to wait. *)
Record vacated (s : KSTATE) : Prop := {
  vc_sched : sched_inv unlocked s;
  vc_dispatch : dispatch_ok s;
  vc_wait : wait_inv unlocked nobody s;
  vc_object : object_inv s;
  vc_thread : thread_inv s;
  vc_current : ∃ th, Threads s !! CurrentThread s = Some th ∧ State th = Waiting;
  vc_idle : runs s (IdleThread s);
  vc_level th : Threads s !! IdleThread s = Some th → DISPATCH_LEVEL ≤ WaitIrql th
}.

(** The thread selected to run next is on no list any more. *)
Record selected (s s1 : KSTATE) (t : tid) : Prop := {
  sl_threads : Threads s1 = Threads s;
  sl_objects : Objects s1 = Objects s;
  sl_current : CurrentThread s1 = CurrentThread s;
  sl_idle : IdleThread s1 = IdleThread s;
  sl_tables : tables_kept s s1;
  sl_thread : ∃ th, Threads s !! t = Some th ∧ ProcessReadyQueue th = false ∧ State th ≠ Waiting;
  sl_sched : sched_inv (excluded t unlocked) s1;
  sl_dispatch : dispatch_ok (s1 <| CurrentThread := t |>)
}.

Lemma view_thread s t st r p :
  sched_view s t = Some (st, r, p) →
  ∃ th, Threads s !! t = Some th ∧ State th = st ∧ ProcessReadyQueue th = r ∧ Priority th = p.
Proof.
  unfold sched_view. destruct (Threads s !! t) as [th|]; [|done]. intros [= <- <- <-]. by exists th.
Qed.

(** A running thread is on no list. *)
Lemma sched_exclude E s t r p :
  sched_inv E s → sched_view s t = Some (Running, r, p) → sched_inv (excluded t E) s.
Proof.
  intros [Hl Hs Hb Hiq Hn Hnx Hru Hc] Hv. unfold excluded. split; auto.
  - intros p' q x Hq. rewrite (Hiq _ _ _ Hq). destruct (decide (x = t)) as [->|]; [|tauto].
    split; [|tauto]. rewrite Hv. by intros [_ [=]].
  - intros x. rewrite Hnx. destruct (decide (x = t)) as [->|]; [|tauto].
    split; [|tauto]. rewrite Hv. by intros (_ & ? & ? & [=]).
  - intros x r' p' Hx. apply Hru. tauto.
Qed.

(** The standby thread is taken off [NextThread]. *)
Lemma take_standby s t :
  sched_inv unlocked s → dispatch_ok s → thread_inv s → NextThread s = Some t →
  let s1 := s <| NextThread := None |> in
  sched_inv (excluded t unlocked) s1 ∧ dispatch_ok (s1 <| CurrentThread := t |>) ∧
  ∃ th, Threads s !! t = Some th ∧ ProcessReadyQueue th = false ∧ State th = Standby.
Proof.
  intros Hs Hd Ht Hn s1. pose proof (proj1 (si_next _ _ Hs _) Hn) as (_ & r & p & Hvt).
  destruct (view_thread _ _ _ _ _ Hvt) as (th & Hth & Hst & Hr & Hp). split_and!.
  - destruct Hs as [Hl Hsu Hb Hiq Hnd Hnx Hru Hc]. unfold excluded. split; auto.
    + intros p' q x Hq. change (sched_view s1 x) with (sched_view s x).
      rewrite (Hiq _ _ _ Hq). destruct (decide (x = t)) as [->|]; [|tauto].
      split; [|tauto]. rewrite Hvt. by intros [_ [=]].
    + intros x. split; [done|]. intros (Hx & r' & p' & Hvx). exfalso. apply Hx. left.
      assert (NextThread s = Some x) by (apply Hnx; split; [by intros []|eauto]). congruence.
    + intros x r' p' Hx. apply Hru. tauto.
  - unfold dispatch_ok in *. change (KiIdleSummary (s1 <| CurrentThread := t |>)) with (KiIdleSummary s).
    destruct (KiIdleSummary s =? 0); [|destruct Hd; congruence].
    unfold top_thread in Hd. rewrite Hn in Hd. exact Hd.
  - exists th. split; [done|]. split; [|done]. destruct (ProcessReadyQueue th) eqn:Hq; [|done].
    pose proof (to_swapped _ _ _ (Ht _ _ Hth) Hq). congruence.
Qed.

Lemma select_standby s t :
  vacated s → NextThread s = Some t → selected s (s <| NextThread := None |>) t.
Proof.
  intros Hv Hn.
  destruct (take_standby s t (vc_sched _ Hv) (vc_dispatch _ Hv) (vc_thread _ Hv) Hn)
    as (Hs & Hd & th & Hth & Hr & Hst).
  split; [done..|by split_and!| |done|done]. exists th. split_and!; [done..|congruence].
Qed.

Lemma dispatch_current s p st r :
  dispatch_ok s → NextThread s = None → sched_view s (CurrentThread s) = Some (st, r, p) →
  none_above s p ∨ KiIdleSummary s ≠ 0 ∧ none_above s (-1).
Proof.
  unfold dispatch_ok, top_thread. intros Hd Hn Hv. rewrite Hn in Hd.
  destruct (Z.eqb_spec (KiIdleSummary s) 0); [left|right; tauto].
  destruct Hd as (st' & r' & p' & Hv' & Hno). simpl in Hv'. by replace p with p' by congruence.
Qed.

Lemma select_idle s :
  vacated s → NextThread s = None → none_above s (-1) →
  selected s (s <| KiIdleSummary := 1 |>) (IdleThread s).
Proof.
  intros Hv Hn Hno. destruct (vc_idle _ Hv) as (thi & Hthi & Hri).
  split; [done..|by split_and!| | |].
  - exists thi. split; [done|]. split; [|congruence].
    destruct (ProcessReadyQueue thi) eqn:Hq; [|done].
    pose proof (to_swapped _ _ _ (vc_thread _ Hv _ _ Hthi) Hq). congruence.
  - apply (sched_inv_same _ s); [done..|]. eapply sched_exclude; [apply (vc_sched _ Hv)|].
    by rewrite (sched_view_Some _ _ _ Hthi), Hri.
  - unfold dispatch_ok. simpl (KiIdleSummary _). by split.
Qed.

(** Taking a thread off a queue changes the queues and their summary only. *)
Lemma dequeued_same s p t rest s1 :
  dequeued s p t rest s1 →
  Threads s1 = Threads s ∧ Objects s1 = Objects s ∧ CurrentThread s1 = CurrentThread s ∧
  IdleThread s1 = IdleThread s ∧ NextThread s1 = NextThread s ∧
  KiIdleSummary s1 = KiIdleSummary s ∧ tables_kept s s1 ∧
  ∀ p', ready_queue s1 p' = if p' =? p then Some rest else ready_queue s p'.
Proof.
  intros (_ & a & _ & Hget & ->). cbv zeta. unfold ready_queue, tables_kept.
  destruct (decide (rest = [])); by split_and!.
Qed.

Lemma dispatch_ready s1 p t :
  NextThread s1 = None → KiIdleSummary s1 = 0 → sched_view s1 t = Some (Ready, false, p) →
  (∀ p' q, p < p' → ready_queue s1 p' = Some q → q = []) → 
  dispatch_ok (s1 <| CurrentThread := t |>).
Proof.
  intros Hn Hz Hv Hno. unfold dispatch_ok.
  change (KiIdleSummary (s1 <| CurrentThread := t |>)) with (KiIdleSummary s1). rewrite Hz.
  exists Ready, false, p. split; [|exact Hno]. unfold top_thread.
  change (NextThread (s1 <| CurrentThread := t |>)) with (NextThread s1). rewrite Hn. exact Hv.
Qed.

Lemma select_ready s p t rest s1 h :
  vacated s → NextThread s = None → dequeued s p t rest s1 → none_above s h → KiIdleSummary s = 0 →
  (∀ p' q, p < p' ≤ h → ready_queue s p' = Some q → q = []) → selected s s1 t.
Proof.
  intros Hv Hn Hdq Hno Hz Hfirst. pose proof (dequeued_inv _ _ _ _ _ _ (vc_sched _ Hv) Hdq) as Hs1.
  destruct (dequeued_same _ _ _ _ _ Hdq) as (T1 & T2 & T3 & T4 & T5 & T6 & T7 & T8).
  destruct Hdq as (Hq & _).
  assert (t ∈ t :: rest) as Hin by (by left).
  apply (si_queue _ _ (vc_sched _ Hv) _ _ _ Hq) in Hin as [_ Hvt].
  destruct (view_thread _ _ _ _ _ Hvt) as (th & Hth & Hst & Hr & Hp).
  split; [done..| |done|].
  - exists th. split; [done|]. split; [done|congruence].
  - apply (dispatch_ready s1 p t).
    + by rewrite T5.
    + by rewrite T6.
    + unfold sched_view. by rewrite T1.
    + intros p' q Hlt. rewrite T8. destruct (Z.eqb_spec p' p); [lia|]. intros Hq'.
      destruct (decide (p' ≤ h)); [by apply (Hfirst p')|]. apply (Hno p'); [lia|done].
Qed.

Lemma KiSelectNextThread_ok s :
  vacated s → ∃ s1 t, KiSelectNextThread (CurrentThread s) s = Some (s1, t) ∧ selected s s1 t.
Proof.
  intros Hv. unfold KiSelectNextThread. destruct (NextThread s) as [t1|] eqn:Hn.
  { eexists _, t1. split; [done|]. by apply select_standby. }
  destruct (vc_current _ Hv) as (th & Hth & Hst). rewrite Hth. cbn [mbind option_bind].
  pose proof (to_priority _ _ _ (vc_thread _ Hv _ _ Hth)) as Hp.
  pose proof (dispatch_current s (Priority th) _ _ (vc_dispatch _ Hv) Hn (sched_view_Some _ _ _ Hth)) as Hno.
  pose proof (KiFindReadyThread_ok unlocked s (Priority th) 0 (vc_sched _ Hv) ltac:(lia) Hp)
    as [[-> Hnone]|(p & t & rest & s1 & -> & Hrange & Hdq & Hfirst)]; cbn [mbind option_bind].
  - eexists _, _. split; [done|]. apply select_idle; [done..|]. intros p q Hlt Hq.
    destruct Hno as [Hno|[_ Hno]]; [|by apply (Hno p)].
    destruct (decide (p ≤ Priority th)); [apply (Hnone p); [lia|done]|apply (Hno p); [lia|done]].
  - exists s1, t. split; [done|].
    assert (Hnot : ¬ none_above s (-1)).
    { intros H. destruct Hdq as [Hq _]. specialize (H p _ ltac:(lia) Hq). done. }
    destruct Hno as [Hno|[_ Hno]]; [|done]. eapply select_ready; try done.
    pose proof (vc_dispatch _ Hv) as Hd. unfold dispatch_ok in Hd.
    destruct (Z.eqb_spec (KiIdleSummary s) 0); [done|]. by destruct Hd as [_ Hd].
Qed.

(** The processor is switched to another thread, and nothing else changes. *)
Record switched (s s' : KSTATE) : Prop := {
  sw_objects : Objects s' = Objects s;
  sw_thread : ∃ th, Threads s !! CurrentThread s' = Some th ∧ State th ≠ Waiting ∧
    Threads s' = <[CurrentThread s' := th <| State := Running |>]> (Threads s);
  sw_idle : IdleThread s' = IdleThread s
}.

Lemma switch_away s :
  vacated s → ∃ s1 t s', KiSelectNextThread (CurrentThread s) s = Some (s1, t) ∧
    KiSwapContext t false s1 = Some s' ∧ dispatcher_ok s' ∧ switched s s'.
Proof.
  intros Hv. destruct (KiSelectNextThread_ok s Hv) as (s1 & t & Hsel & Hs). exists s1, t.
  destruct Hs as [T1 T2 T3 T4 T5 (th & Hth & Hr & Hst) T7 T8].
  assert (Hw1 : wait_inv (excluded t unlocked) nobody s1).
  { apply (wait_inv_ext unlocked _ _ s); [done| |apply (vc_wait _ Hv)].
    intros x bs. unfold waits, wait_view, excluded. rewrite T1. split; [tauto|].
    intros [_ Hx]. split; [|done]. intros [->|[]]. rewrite Hth in Hx. simpl in Hx. congruence. }
  destruct (vc_current _ Hv) as (thc & Hthc & Hstc).
  destruct (SwapContext_ok unlocked nobody s1 t th) as (s' & Hsw & Hi' & Hcur' & Hs'); auto.
  - apply (object_inv_same s); [done..|apply (vc_object _ Hv)].
  - apply (thread_inv_kept s); [done..|apply (vc_thread _ Hv)].
  - by rewrite T1.
  - intros x r q _ Hne Hx. destruct (si_running _ _ T7 x r q) as [->| ->]; [|done| |done].
    + by intros [?|[]].
    + exfalso. unfold sched_view in Hx. rewrite T1, T3, Hthc in Hx. simpl in Hx. congruence.
  - exists s'. split; [done|]. split; [exact Hsw|].
    assert (Hthr : Threads s' = <[t := th <| State := Running |>]> (Threads s)).
    { rewrite Hs'. simpl. by rewrite T1. }
    assert (Hidl : IdleThread s' = IdleThread s) by (rewrite Hs'; exact T4).
    split; [|split].
    + split; [done|..].
      * exists (th <| State := Running |>). rewrite Hthr, Hcur'. by rewrite lookup_insert_eq.
      * destruct (vc_idle _ Hv) as (thi & Hthi & Hri). rewrite Hidl. unfold runs. rewrite Hthr.
        destruct (decide (IdleThread s = t)) as [->|].
        -- eexists. by rewrite lookup_insert_eq.
        -- exists thi. by rewrite lookup_insert_ne.
      * unfold idle_level. rewrite Hidl, Hcur', Hthr. split.
        -- intros thi. destruct (decide (IdleThread s = t)) as [Heq|].
           ++ rewrite Heq, lookup_insert_eq. intros <-%(inj Some).
              apply (vc_level _ Hv th). by rewrite Heq.
           ++ rewrite lookup_insert_ne by done. apply (vc_level _ Hv).
        -- intros Heq. rewrite Hs'. change (DISPATCH_LEVEL ≤ WaitIrql th).
           apply (vc_level _ Hv th). by rewrite <- Heq.
    + rewrite Hs'. exact T2.
    + rewrite Hcur'. by exists th.
    + exact Hidl.
Qed.

(** ** Entering a wait *)

(** The thread [c] puts its wait blocks on the lists of their objects. *)
Lemma insert_blocks_ok t bs : ∀ i s,
  (∀ b, b ∈ bs → is_Some (Objects s !! WaitObject b)) →
  ∃ m, insert_blocks t i bs s = Some (s <| Objects := m |>) ∧
    ∀ o, m !! o = (λ ob, ob <| WaitListHead := WaitListHead ob ++ entries_on t i bs o |>) <$>
                  Objects s !! o.
Proof.
  induction bs as [|b bs IH]; intros i s Hob; cbn [insert_blocks entries_on].
  { exists (Objects s). split; [by destruct s|]. intros o.
    destruct (Objects s !! o) as [ob|]; [|done]. simpl. f_equal. destruct ob; simpl.
    by rewrite app_nil_r. }
  destruct (Hob b) as [ob Ho]; [apply elem_of_cons; by left|]. rewrite Ho.
  cbn [mbind option_bind].
  set (ob1 := ob <| WaitListHead := WaitListHead ob ++ [(t, i)] |>).
  destruct (IH (S i) (put_object (WaitObject b) ob1 s)) as (m & -> & Hm).
  { intros b' Hb'. rewrite Objects_put. destruct (decide _); [done|].
    apply Hob, elem_of_cons. by right. }
  exists m. split; [by destruct s|]. intros o. rewrite Hm, Objects_put.
  destruct (decide (o = WaitObject b)) as [->|Hne].
  - rewrite decide_True, Ho by done. simpl. f_equal. unfold ob1. simpl. f_equal.
    by rewrite <- (assoc_L (++)).
  - by rewrite decide_False by done.
Qed.

Lemma entries_on_nodup t bs o : ∀ i, NoDup (entries_on t i bs o).
Proof.
  induction bs as [|b bs IH]; intros i; simpl; [apply NoDup_nil_2|].
  destruct (decide _); [|apply IH]. apply NoDup_cons. split; [|apply IH].
  intros (_ & j & b' & Hj & _)%elem_of_entries_on. lia.
Qed.

(** The current thread can wait with the blocks [bs]. *)
Record can_wait (s : KSTATE) (bs : list KWAIT_BLOCK) : Prop := {
  cw_blocks : blocks_wf (CurrentThread s) bs;
  cw_objects b : b ∈ bs → is_Some (Objects s !! WaitObject b);
  cw_alone i b : bs !! i = Some b → WaitObject b = KiSwapEvent → bs = [b] ∧ WaitType b = WaitAny;
  cw_blocked i : ¬ satisfiable s bs i
}.

Lemma satisfiable_lists s s' bs i (f : oid → KOBJECT → list wait_entry) :
  (∀ o, Objects s' !! o = (λ ob, ob <| WaitListHead := f o ob |>) <$> Objects s !! o) →
  satisfiable s' bs i → satisfiable s bs i.
Proof.
  intros Ho. assert (Hsig : ∀ o, signaled s' o → signaled s o).
  { intros o (ob' & Hob' & ?). rewrite Ho in Hob'. destruct (Objects s !! o) as [ob|] eqn:Hob; [|done].
    apply (inj Some) in Hob' as <-. by exists ob. }
  intros (b & Hb & Hs & Hr). exists b. split; [done|]. split; [auto|].
  destruct Hr as [|Hr]; [by left|right]. eauto.
Qed.

Lemma wait_inv_enter s s' c bs :
  wait_inv unlocked nobody s → can_wait s bs → c = CurrentThread s →
  (∀ b, ¬ waits unlocked s c b) →
  (∀ o, Objects s' !! o =
     (λ ob, ob <| WaitListHead := WaitListHead ob ++ entries_on c 0 bs o |>) <$> Objects s !! o) →
  (∀ t bs', waits unlocked s' t bs' ↔ waits unlocked s t bs' ∨ t = c ∧ bs' = bs) →
  wait_inv unlocked nobody s'.
Proof.
  intros [Hl Hnd Hob Hbl Hsw Hal Hsat] [Cb Co Ca Cs] -> Hnew Ho Hw.
  assert (Hback : ∀ o ob', Objects s' !! o = Some ob' → ∃ ob, Objects s !! o = Some ob ∧
    WaitListHead ob' = WaitListHead ob ++ entries_on (CurrentThread s) 0 bs o).
  { intros o ob'. rewrite Ho. destruct (Objects s !! o) as [ob|]; [|done].
    intros <-%(inj Some). by exists ob. }
  assert (Hkeep : ∀ o, is_Some (Objects s !! o) → is_Some (Objects s' !! o)).
  { intros o [ob Hob']. by rewrite Ho, Hob'. }
  assert (Hmem : ∀ b i, bs !! i = Some b → b ∈ bs).
  { intros b i Hb. apply list_elem_of_lookup. eauto. }
  split.
  - intros o ob' t i (ob & Hob' & ->)%Hback.
    rewrite elem_of_app, (Hl _ _ _ _ Hob'), elem_of_entries_on. setoid_rewrite Hw. split.
    + intros [(bs' & b & ? & ? & ?)|(-> & j & b & -> & ? & ?)]; eauto 10.
    + intros (bs' & b & [?|[-> ->]] & ? & ?); [left; eauto 10|right; eauto 10].
  - intros o ob' (ob & Hob' & ->)%Hback. apply NoDup_app. split; [by apply (Hnd o)|].
    split; [|apply entries_on_nodup]. intros [t i] Hin (-> & _)%elem_of_entries_on.
    apply (Hl _ _ _ _ Hob') in Hin as (bs' & b & Hwt & _). by apply (Hnew bs').
  - intros t bs' i b [Hwt|[-> ->]]%Hw Hb; apply Hkeep; eauto.
  - intros t bs' [Hwt|[-> ->]]%Hw; auto.
  - destruct Hsw as (ev & Hev & Hbody). rewrite Ho, Hev. by eexists.
  - intros t bs' i b [Hwt|[-> ->]]%Hw; eauto.
  - intros t bs' i Hwt Hs. apply (satisfiable_lists s s' _ _ _ Ho) in Hs.
    apply Hw in Hwt as [Hwt|[-> ->]]; [by apply (Hsat t bs' i)|by apply (Cs i)].
Qed.

(** The record of a thread that begins to wait. *)
Definition waiting_thread (th : KTHREAD) (a m : bool) (r w : Z) (bs : list KWAIT_BLOCK) : KTHREAD :=
  th <| Alertable := a |> <| UserWaitMode := m |> <| WaitReason := r |> <| WaitTime := w |>
     <| State := Waiting |> <| WaitBlockList := bs |>.

Lemma vacated_enter s s' th a m r w bs :
  dispatcher_ok s → Threads s !! CurrentThread s = Some th → CurrentThread s ≠ IdleThread s →
  can_wait s bs → 0 ≤ r < zlen (KeWaitReason s) →
  Threads s' = <[CurrentThread s := waiting_thread th a m r w bs]> (Threads s) →
  (∀ o, Objects s' !! o =
     (λ ob, ob <| WaitListHead := WaitListHead ob ++ entries_on (CurrentThread s) 0 bs o |>) <$>
     Objects s !! o) →
  KiDispatcherReadyListHead s' = KiDispatcherReadyListHead s →
  KiReadySummary s' = KiReadySummary s → NextThread s' = NextThread s →
  CurrentThread s' = CurrentThread s → IdleThread s' = IdleThread s →
  KiIdleSummary s' = KiIdleSummary s → tables_kept s s' → vacated s'.
Proof.
  intros [[Hs Hd Hw Ho Ht Hc] Hrc Hri [Hl1 _]] Hth Hni Hcw Hr ET EO EQ ES EN EC EI EK Htk.
  set (c := CurrentThread s) in *. set (th' := waiting_thread th a m r w bs) in *.
  assert (Hrun : State th = Running).
  { destruct Hrc as (th0 & ? & ?). congruence. }
  assert (Hv : ∀ x, sched_view s' x = if decide (x = c) then Some (Waiting, ProcessReadyQueue th, Priority th)
                                      else sched_view s x).
  { intros x. unfold sched_view. rewrite ET. destruct (decide (x = c)) as [->|].
    - by rewrite lookup_insert_eq.
    - by rewrite lookup_insert_ne. }
  assert (Hthc : Threads s' !! c = Some th') by (rewrite ET; apply lookup_insert_eq).
  split.
  - apply (sched_inv_ext (excluded c unlocked) unlocked s); auto.
    + intros x st rr p Hlst. rewrite Hv. unfold excluded, unlocked.
      destruct (decide (x = c)) as [->|]; [|tauto]. split; [tauto|]. by intros [_ [= <- _ _]].
    + rewrite Hv, decide_True by done. eauto.
    + eapply sched_exclude; [done|]. by rewrite (sched_view_Some _ _ _ Hth), Hrun.
  - unfold dispatch_ok, none_above, ready_queue, top_thread in *. rewrite EK, EN, EC, EQ.
    destruct (KiIdleSummary s =? 0); [|done]. destruct Hd as (st & rr & p & Hvt & Hno).
    rewrite Hv. destruct (decide _) as [Heq|]; [|by eauto].
    eexists _, _, _. split; [done|].
    assert (sched_view s c = Some (st, rr, p)) as Hvc by (rewrite <- Heq; exact Hvt).
    rewrite (sched_view_Some _ _ _ Hth) in Hvc. injection Hvc as _ _ ->. exact Hno.
  - apply (wait_inv_enter s s' c bs); auto.
    + intros b [_ Hx]. rewrite (wait_view_Some _ _ _ Hth), Hrun in Hx. congruence.
    + intros x bs'. unfold waits, wait_view. rewrite ET. destruct (decide (x = c)) as [->|].
      * rewrite lookup_insert_eq, Hth. simpl. rewrite Hrun.
        change (WaitBlockList th') with bs. split; [intros [_ [= <-]]; by right|].
        intros [[_ [=]]|[_ ->]]. by split; [intros []|].
      * rewrite lookup_insert_ne by done. split; [tauto|]. by intros [?|[? _]].
  - apply (object_inv_lists s s' (λ o ob, WaitListHead ob ++ entries_on c 0 bs o)); [done| |done].
    intros x. rewrite ET. destruct (decide (x = c)) as [->|].
    + by rewrite lookup_insert_eq, Hth.
    + by rewrite lookup_insert_ne.
  - intros x thx. rewrite ET. intros Hx. apply (thread_ok_kept s); [done|].
    destruct (decide (x = c)) as [->|].
    + rewrite lookup_insert_eq in Hx. apply (inj Some) in Hx as <-.
      destruct (Ht _ _ Hth) as [? ? ? ? ? ? ? Hsw]. split; auto.
      intros Hq. pose proof (Hsw Hq). congruence.
    + rewrite lookup_insert_ne in Hx by done. auto.
  - rewrite EC. by exists th'.
  - destruct Hri as (thi & Hthi & Hri). rewrite EI. exists thi. split; [|done].
    by rewrite ET, lookup_insert_ne.
  - intros thi. rewrite EI, ET, lookup_insert_ne by done. apply Hl1.
Qed.

(** What a wait that blocks leaves: the thread waits with its blocks [bs] on the
    objects' lists, and another thread runs. *)
Record blocked (s s' : KSTATE) (th : KTHREAD) (bs : list KWAIT_BLOCK) : Prop := {
  bl_thread : ∃ a m r w, Threads s' !! CurrentThread s = Some (waiting_thread th a m r w bs);
  bl_objects o : Objects s' !! o =
    (λ ob, ob <| WaitListHead := WaitListHead ob ++ entries_on (CurrentThread s) 0 bs o |>) <$>
    Objects s !! o;
  bl_others t : t ≠ CurrentThread s → t ≠ CurrentThread s' → Threads s' !! t = Threads s !! t;
  bl_current : CurrentThread s' ≠ CurrentThread s;
  bl_next : ∃ thn, Threads s !! CurrentThread s' = Some thn ∧
    Threads s' !! CurrentThread s' = Some (thn <| State := Running |>)
}.

Lemma block_thread_ok s m th bs r um al :
  dispatcher_ok s → Threads s !! CurrentThread s = Some th → CurrentThread s ≠ IdleThread s →
  Queue th = None → can_wait s bs → 0 ≤ r < zlen (KeWaitReason s) →
  (∀ o, m !! o =
     (λ ob, ob <| WaitListHead := WaitListHead ob ++ entries_on (CurrentThread s) 0 bs o |>) <$>
     Objects s !! o) →
  ∃ s', block_thread r um al bs (s <| Objects := m |>) = Some (WaitBlocked, s') ∧
    dispatcher_ok s' ∧ blocked s s' th bs.
Proof.
  intros Hok Hth Hni Hq Hcw Hr Hm. unfold block_thread.
  change (Threads (s <| Objects := m |>)) with (Threads s).
  change (CurrentThread (s <| Objects := m |>)) with (CurrentThread s).
  rewrite Hth. cbn [mbind option_bind]. rewrite Hq. cbn [mbind option_bind].
  change (Threads (s <| Objects := m |>)) with (Threads s). rewrite Hth. cbn [mbind option_bind].
  change (KeWaitReason (s <| Objects := m |>)) with (KeWaitReason s).
  destruct (array_get_Some _ _ Hr) as [n ->]. cbn [mbind option_bind].
  rewrite array_set_Some by done. cbn [mbind option_bind]. cbv zeta.
  match goal with |- context [KiSelectNextThread (CurrentThread s) ?x] => set (s4 := x) end.
  assert (ET : Threads s4 = <[CurrentThread s := waiting_thread th al um r (KeTickCount s) bs]> (Threads s))
    by done.
  assert (Hv : vacated s4).
  { apply (vacated_enter s s4 th al um r (KeTickCount s) bs); try done.
    split_and!; [done..|]. unfold zlen. simpl (KeWaitReason _). by rewrite length_insert. }
  destruct (switch_away s4 Hv) as (s5 & t & s' & Hsel & Hsw & H' & [SO (thn & Sn & Snw & ST) SI]).
  change (CurrentThread s4) with (CurrentThread s) in Hsel. rewrite Hsel. cbn [mbind option_bind].
  rewrite Hsw. cbn [mbind option_bind]. exists s'. split; [done|]. split; [done|].
  assert (Hne : CurrentThread s' ≠ CurrentThread s).
  { intros Heq. rewrite Heq, ET, lookup_insert_eq in Sn. apply (inj Some) in Sn as <-. done. }
  split.
  - exists al, um, r, (KeTickCount s). rewrite ST, lookup_insert_ne, ET by done.
    apply lookup_insert_eq.
  - intros o. rewrite SO. exact (Hm o).
  - intros x Hx Hx'. rewrite ST, lookup_insert_ne, ET by done. by rewrite lookup_insert_ne.
  - done.
  - rewrite ET, lookup_insert_ne in Sn by done. exists thn. split; [done|].
    rewrite ST. apply lookup_insert_eq.
Qed.

(** ** Beginning and ending a wait without blocking *)

Lemma begin_wait_ok s :
  dispatcher_ok s → CurrentThread s ≠ IdleThread s →
  ∃ th th1 q, Threads s !! CurrentThread s = Some th ∧ passive th th1 ∧
    KernelApcPending th1 = KernelApcPending th ∧ WaitStatus th1 = WaitStatus th ∧
    KernelApcDisable th1 = KernelApcDisable th ∧
    let s1 := put_thread (CurrentThread s) th1 (s <| Irql := q |>) in
    begin_wait s = Some s1 ∧ dispatcher_ok s1.
Proof.
  intros Hok Hni. destruct (dk_current _ Hok) as (th & Hth & _). exists th.
  unfold begin_wait. rewrite Hth. cbn [mbind option_bind]. destruct (WaitNext th).
  - exists (th <| WaitNext := false |>), (Irql s). split; [done|]. split; [by split|].
    split_and!; try done.
    assert (s <| Irql := Irql s |> = s) as -> by (by destruct s).
    apply (dispatcher_put_current _ s th); [done..|by split|done].
  - unfold KiLockDispatcherDatabase. fold (lock s).
    exists (th <| WaitIrql := Irql s |>), DISPATCH_LEVEL. split; [done|]. split; [by split|].
    split_and!; try done.
    apply (dispatcher_put_current _ (lock s) th); [by apply lock_ok|done|by split|done].
Qed.

Lemma finish_wait_ok s r :
  dispatcher_ok s → CurrentThread s ≠ IdleThread s →
  ∃ s', finish_wait r s = Some (WaitDone r, s') ∧ dispatcher_ok s' ∧ released s s'.
Proof.
  intros Hok Hni. unfold finish_wait. destruct (dk_current _ Hok) as (th & Hth & _).
  rewrite Hth. cbn [mbind option_bind].
  destruct (KiUnlockDispatcherDatabase_ok s (WaitIrql th) Hok) as (s' & -> & H' & Hrel); [done|].
  by exists s'.
Qed.

Lemma dispatcher_satisfied s s' t :
  dispatcher_ok s → satisfied t s s' → object_inv s' → dispatcher_ok s'.
Proof.
  intros [Hi Hc Hid [Hl1 Hl2]] Hsf Hoi.
  assert (Hrest := sf_rest _ _ _ Hsf).
  assert (EC : CurrentThread s' = CurrentThread s) by (by rewrite Hrest).
  assert (EI : IdleThread s' = IdleThread s) by (by rewrite Hrest).
  assert (EQ : Irql s' = Irql s) by (by rewrite Hrest).
  assert (Hthr : ∀ x thx, Threads s !! x = Some thx → ∃ thx', Threads s' !! x = Some thx' ∧
    State thx' = State thx ∧ WaitIrql thx' = WaitIrql thx).
  { intros x thx Hx. destruct (decide (x = t)) as [->|Hne].
    - destruct (sf_thread _ _ _ Hsf) as (th & a & w & m & H1 & H2). eexists. split; [done|].
      rewrite Hx in H1. by apply (inj Some) in H1 as ->.
    - exists thx. by rewrite (sf_others _ _ _ Hsf). }
  split.
  - by apply (satisfied_inv unlocked nobody t s).
  - destruct Hc as (th & Hth & Hr). rewrite EC. destruct (Hthr _ _ Hth) as (th' & ? & ? & _).
    exists th'. split; [done|congruence].
  - destruct Hid as (th & Hth & Hr). rewrite EI. destruct (Hthr _ _ Hth) as (th' & ? & ? & _).
    exists th'. split; [done|congruence].
  - unfold idle_level. rewrite EC, EI, EQ. split; [|done]. destruct Hid as (th & Hth & Hr).
    destruct (Hthr _ _ Hth) as (th' & -> & _ & Hq). intros ? <-%(inj Some). rewrite Hq. auto.
Qed.

(** A wait for [o] is satisfied at once for the current thread. *)
Lemma wait_satisfied s o ob :
  dispatcher_ok s → Objects s !! o = Some ob → grantable (CurrentThread s) ob →
  ∃ s', KiWaitSatisfyAny o (CurrentThread s) s = Some s' ∧ dispatcher_ok s' ∧
    granted (CurrentThread s) o s s'.
Proof.
  intros Hok Ho Hg. destruct (dk_current _ Hok) as (th & Hth & _).
  destruct (KiWaitSatisfyAny_ok (CurrentThread s) th o ob s) as (s' & Hr & Hgr);
    [apply (dk_inv _ Hok)|done..|].
  exists s'. split; [done|]. split; [|done].
  apply (dispatcher_satisfied s s' (CurrentThread s)); [done|apply Hgr..].
Qed.

Lemma alert_passive a m th : passive th (TestForAlertPending a m th).1.
Proof. unfold TestForAlertPending. repeat (case_match; try by split). Qed.

(** ** Waits with a timeout *)

(** The timer table has its 128 lists, of timers that exist. *)
Definition timer_table_ok (s : KSTATE) : Prop :=
  zlen (KiTimerTable s) = TIMER_TABLE_SIZE ∧
  ∀ i l o, array_get (KiTimerTable s) i = Some l → o ∈ l → is_Some (Timers s !! o).

(** A timeout that lies ahead: a relative one, or an absolute one later than the
    system time. *)
Definition timeout_ahead (s : KSTATE) (Interval : Z) : Prop :=
  0 ≤ InterruptTime s < 2 ^ 62 ∧ 0 ≤ SystemTime s < 2 ^ 62 ∧ - 2 ^ 62 ≤ Interval < 2 ^ 62 ∧
  (Interval < 0 ∨ SystemTime s < Interval).

Lemma insert_due_ok s o d rl : ∀ acc,
  (∀ x, x ∈ rl → is_Some (Timers s !! x)) → ∃ l b, insert_due s o d rl acc = Some (l, b).
Proof.
  induction rl as [|x rl IH]; intros acc Hx; simpl; [eauto|].
  destruct (Hx x) as [tm ->]; [by left|]. cbn [mbind option_bind].
  destruct (_ <=? _); [eauto|]. apply IH. intros y Hy. apply Hx. by right.
Qed.

Lemma table_index_range a : 0 ≤ Z.land a (TIMER_TABLE_SIZE - 1) < TIMER_TABLE_SIZE.
Proof.
  unfold TIMER_TABLE_SIZE. change (128 - 1) with (Z.ones 7). rewrite Z.land_ones by lia.
  apply Z.mod_pos_bound. lia.
Qed.

Lemma KiInsertTreeTimer_pending s o iv ob tm :
  Objects s !! o = Some ob → Timers s !! o = Some tm → timer_table_ok s → timeout_ahead s iv →
  ∃ ts tb, KiInsertTreeTimer o iv s =
      Some (put_object o (ob <| SignalState := 0 |>) s <| Timers := ts |> <| KiTimerTable := tb |>,
            true) ∧
    ∀ x, is_Some (Timers s !! x) → is_Some (ts !! x).
Proof.
  intros Ho Htm [Hlen Htab] (Hit & Hst & Hiv & Hahead). unfold KiInsertTreeTimer, set_signal.
  rewrite Ho. cbn [mbind option_bind].
  set (s1 := put_object o (ob <| SignalState := 0 |>) s).
  change (Timers s1) with (Timers s). rewrite Htm. cbn [mbind option_bind]. cbv zeta.
  change (SystemTime s1) with (SystemTime s). change (InterruptTime s1) with (InterruptTime s).
  rewrite s64_small by lia.
  assert ((0 <=? iv) && (0 <=? SystemTime s - iv) = false) as ->.
  { apply andb_false_iff. destruct Hahead; [left; apply Z.leb_gt; lia|right; apply Z.leb_gt; lia]. }
  set (iv' := if 0 <=? iv then SystemTime s - iv else iv).
  assert (Hiv' : - 2 ^ 62 ≤ iv' < 0) by (unfold iv'; destruct (Z.leb_spec 0 iv); lia).
  destruct (KiComputeTimerTableIndex iv' (InterruptTime s) s1) as [Index Due] eqn:Hix.
  unfold KiComputeTimerTableIndex in Hix. rewrite u64_small in Hix by lia.
  injection Hix as HIndex HDue.
  set (s2 := put_timer o _ s1). change (KiTimerTable s2) with (KiTimerTable s).
  destruct (array_get_Some (KiTimerTable s) Index) as [l Hl].
  { rewrite Hlen, <- HIndex. apply table_index_range. }
  rewrite Hl. cbn [mbind option_bind].
  assert (Hts : ∀ x, is_Some (Timers s !! x) → is_Some (Timers s2 !! x)).
  { intros x Hx. unfold s2, put_timer. simpl (Timers _). destruct (decide (x = o)) as [->|].
    - by rewrite lookup_insert_eq.
    - by rewrite lookup_insert_ne. }
  destruct (insert_due_ok s2 o Due (reverse l) []) as (l' & first & ->).
  { intros x Hx. apply Hts. eapply Htab; [exact Hl|]. by apply elem_of_reverse. }
  cbn [mbind option_bind].
  rewrite array_set_Some by (rewrite Hlen, <- HIndex; apply table_index_range).
  cbn [mbind option_bind]. change (InterruptTime (_ <| KiTimerTable := _ |>)) with (InterruptTime s).
  rewrite (u64_small (InterruptTime s)) by lia. rewrite (proj2 (Z.leb_gt Due (InterruptTime s))) by lia.
  rewrite andb_false_r. by eexists (Timers s2), _.
Qed.

(** ** What a satisfied wait consumes *)

(** The object after thread [t] has acquired it. *)
Definition consumed (t : tid) (ob : KOBJECT) : KOBJECT :=
  match Body ob with
  | SynchronizationEvent => ob <| SignalState := 0 |>
  | SemaphoreObject _ => ob <| SignalState := SignalState ob - 1 |>
  | MutantObject None _ d =>
      ob <| SignalState := 0 |> <| Body := MutantObject (Some t) false d |>
  | MutantObject (Some _) _ _ => ob <| SignalState := SignalState ob - 1 |>
  | _ => ob
  end.

(** The thread after it has acquired [o]: a free mutant joins its list, disables
    its kernel APCs as it says, and reports that it was abandoned. *)
Definition acquirer (o : oid) (ob : KOBJECT) (th : KTHREAD) : KTHREAD :=
  match Body ob with
  | MutantObject None a d =>
      th <| KernelApcDisable := u8 (KernelApcDisable th - d) |>
         <| WaitStatus := if a then STATUS_ABANDONED else WaitStatus th |>
         <| MutantList := MutantList th ++ [o] |>
  | _ => th
  end.

Lemma KiWaitSatisfyAny_exact t th o ob s :
  signal_ok ob → Threads s !! t = Some th → Objects s !! o = Some ob → grantable t ob →
  KiWaitSatisfyAny o t s = Some (put_thread t (acquirer o ob th) (put_object o (consumed t ob) s)).
Proof.
  intros Hok Hth Ho Hg. unfold KiWaitSatisfyAny. rewrite Ho. cbn [mbind option_bind].
  assert (Hid : ∀ ob', put_thread t th (put_object o ob' s) = put_object o ob' s)
    by (intros; by apply put_thread_id).
  unfold acquirer, consumed, signal_ok in *. destruct (Body ob) as [ | |ow a d| | |Limit| | ] eqn:Hb;
    try (unfold KiWaitSatisfyOther; rewrite Ho; cbn [mbind option_bind]; rewrite Hb, Hid;
         solve [done|by rewrite put_object_id]).
  - unfold KiWaitSatisfyMutant. rewrite Ho, Hth. cbn [mbind option_bind]. rewrite Hb.
    destruct Hok as [Hr Hn]. unfold MINLONG in *. destruct ow as [w|].
    + assert (SignalState ob ≠ 1) by (by intros ?%Hn).
      destruct Hg as [?|[?|(? & ? & Hg & Hmin)]]; [lia|congruence|]. unfold MINLONG in Hmin.
      rewrite s32_small, (proj2 (Z.eqb_neq _ _)), Hid by lia. done.
    + rewrite (proj1 Hn eq_refl). change (s32 (1 - 1) =? 0) with true. cbv iota zeta.
      destruct a; done.
  - unfold KiWaitSatisfyOther. rewrite Ho. cbn [mbind option_bind]. rewrite Hb, Hid.
    destruct Hg as [Hg|[?|(? & ? & ? & _)]]; [|congruence..]. by rewrite s32_small by lia.
Qed.

(** ** Blocking on objects, with and without a timeout *)

Lemma entries_on_single t b x i :
  entries_on t i [b] x = if decide (WaitObject b = x) then [(t, i)] else [].
Proof. done. Qed.

(** The list of a thread's timer is empty while the thread does not wait. *)
Lemma timer_list_empty s c tob :
  dispatcher_ok s → runs s c → Objects s !! ThreadTimer c = Some tob → WaitListHead tob = [].
Proof.
  intros Hok (th & Hth & Hrun) Ho. pose proof (inv_wait _ _ _ (dk_inv _ Hok)) as Hw.
  destruct (WaitListHead tob) as [|[t i] l] eqn:Hl; [done|]. exfalso.
  assert ((t, i) ∈ WaitListHead tob) as Hin by (rewrite Hl; by left).
  apply (wi_list _ _ _ Hw _ _ _ _ Ho) in Hin as (bs & b & Hwt & Hb & Hbo).
  pose proof (bw_timer _ _ (wi_blocks _ _ _ Hw _ _ Hwt) _ _ _ Hb Hbo) as <-.
  destruct Hwt as [_ Hv]. rewrite (wait_view_Some _ _ _ Hth) in Hv. congruence.
Qed.

(** The blocks of a wait that is not satisfied, with the thread's timer if there
    is a timeout. *)
Record blocks_ready (s : KSTATE) (bs : list KWAIT_BLOCK) : Prop := {
  br_nonempty : bs ≠ [];
  br_types b b' : b ∈ bs → b' ∈ bs → WaitType b' = WaitType b;
  br_distinct b : b ∈ bs → WaitType b = WaitAll → NoDup (WaitObject <$> bs);
  br_key b : b ∈ bs → WaitKey b ≠ STATUS_TIMEOUT;
  br_timer b : b ∈ bs → not_timer (WaitObject b);
  br_objects b : b ∈ bs → is_Some (Objects s !! WaitObject b);
  br_alone b : b ∈ bs → WaitObject b = KiSwapEvent → bs = [b] ∧ WaitType b = WaitAny;
  br_blocked i : ¬ satisfiable s bs i
}.

Lemma elem_of_lookup {A} (l : list A) i x : l !! i = Some x → x ∈ l.
Proof. intros H. apply list_elem_of_lookup. eauto. Qed.

Lemma can_wait_blocks s bs : blocks_ready s bs → can_wait s bs.
Proof.
  intros [Bn Bt Bd Bk Bti Bo Ba Bb]. split; [split|..]; eauto using elem_of_lookup.
  - intros i j b b' Hi Hj Hall. apply elem_of_lookup in Hi, Hj.
    split; [auto|]. split; [by apply Bti|]. rewrite (Bt _ _ Hi Hj). intros ?. congruence.
  - intros i b t' Hb Heq. apply elem_of_lookup in Hb. by destruct (Bti _ Hb t').
Qed.

Lemma block_now s th bs r um al :
  dispatcher_ok s → Threads s !! CurrentThread s = Some th → CurrentThread s ≠ IdleThread s →
  Queue th = None → blocks_ready s bs → 0 ≤ r < zlen (KeWaitReason s) →
  ∃ s', (s ← insert_blocks (CurrentThread s) 0 bs s; block_thread r um al bs s) =
      Some (WaitBlocked, s') ∧ dispatcher_ok s' ∧ blocked s s' th bs.
Proof.
  intros Hok Hth Hni Hq Hbr Hr.
  destruct (insert_blocks_ok (CurrentThread s) bs 0 s) as (m & -> & Hm); [apply Hbr|].
  cbn [mbind option_bind]. apply block_thread_ok; auto using can_wait_blocks.
Qed.

(** The state with the thread's timer set. *)
Definition timer_set (c : tid) (tob : KOBJECT) (ts : gmap oid KTIMER) (tb : list (list oid))
    (s : KSTATE) : KSTATE :=
  put_object (ThreadTimer c) (tob <| SignalState := 0 |>) s <| Timers := ts |> <| KiTimerTable := tb |>.

Lemma timer_set_ok s tob ts tb :
  dispatcher_ok s → Objects s !! ThreadTimer (CurrentThread s) = Some tob →
  (∀ x, is_Some (Timers s !! x) → is_Some (ts !! x)) →
  dispatcher_ok (timer_set (CurrentThread s) tob ts tb s).
Proof.
  intros Hok Ho Hts.
  pose proof (oi_timer _ (inv_object _ _ _ (dk_inv _ Hok)) _ _ Ho) as Hb.
  assert (H1 : dispatcher_ok (put_object (ThreadTimer (CurrentThread s)) (tob <| SignalState := 0 |>) s)).
  { apply (dispatcher_unsignal s _ tob); [done..| |simpl; lia]. unfold signal_ok. simpl. by rewrite Hb. }
  eapply (dispatcher_same _ _ _ _ _ _ H1). Unshelve.
  - by split_and!.
  - by split_and!.
  - apply (dk_level _ Hok).
Qed.

(** A wait with a timeout adds a block for the timer. *)
Lemma can_wait_timer s bs tob ts tb :
  blocks_ready s bs → dispatcher_ok s →
  Objects s !! ThreadTimer (CurrentThread s) = Some tob →
  (∀ b, b ∈ bs → WaitObject b ≠ KiSwapEvent) →
  can_wait (timer_set (CurrentThread s) tob ts tb s)
    (bs ++ [mkWaitBlock (ThreadTimer (CurrentThread s)) STATUS_TIMEOUT WaitAny]).
Proof.
  intros [Bn Bt Bd Bk Bti Bo Ba Bb] Hok Ho Hsw. set (c := CurrentThread s) in *.
  set (s1 := timer_set c tob ts tb s). set (tbk := mkWaitBlock (ThreadTimer c) STATUS_TIMEOUT WaitAny).
  assert (Hin : ∀ b, b ∈ bs ++ [tbk] ↔ b ∈ bs ∨ b = tbk).
  { intros b. by rewrite elem_of_app, list_elem_of_singleton. }
  assert (Hsig : ∀ x, signaled s1 x → x ≠ ThreadTimer c ∧ signaled s x).
  { intros x (obx & Hx & Hpos & Hqo). change (Objects s1) with
      (Objects (put_object (ThreadTimer c) (tob <| SignalState := 0 |>) s)) in Hx.
    rewrite Objects_put in Hx. destruct (decide (x = ThreadTimer c)) as [->|Hne].
    - apply (inj Some) in Hx as <-. simpl in Hpos. lia.
    - split; [done|]. by exists obx. }
  split; [split|..].
  - by destruct bs.
  - intros i j b b' [Hi| ->]%elem_of_lookup%Hin [Hj| ->]%elem_of_lookup%Hin Hall; try done.
    + split; [auto|]. split; [by apply Bti|]. rewrite (Bt _ _ Hi Hj). intros ?. congruence.
    + split; [auto|]. split; [by apply Bti|done].
  - intros i b [Hi| ->]%elem_of_lookup%Hin Hall; [|done]. rewrite fmap_app. apply NoDup_app.
    split; [eauto|]. split; [|apply NoDup_singleton].
    intros x (b' & -> & Hb')%list_elem_of_fmap Heq%list_elem_of_singleton. by destruct (Bti _ Hb' c).
  - intros i b t' [Hi| ->]%elem_of_lookup%Hin Heq; [by destruct (Bti _ Hi t')|]. by injection Heq.
  - intros b [Hb| ->]%Hin; change (Objects s1) with
      (Objects (put_object (ThreadTimer c) (tob <| SignalState := 0 |>) s)); rewrite Objects_put;
      destruct (decide _); eauto.
  - intros i b [Hb| ->]%elem_of_lookup%Hin Heq; [by destruct (Hsw _ Hb)|done].
  - intros i (b & Hb & Hs & Hrest). pose proof (elem_of_lookup _ _ _ Hb) as [Hb'|Hb']%Hin.
    + apply (Bb i). apply Hsig in Hs as [_ Hs].
      assert (Hlt : (i < length bs)%nat).
      { destruct (decide (i < length bs)%nat); [done|]. rewrite lookup_app_r in Hb by lia.
        apply list_lookup_singleton_Some in Hb as [_ ?]. subst b.
        destruct (Bti _ Hb' c). done. }
      exists b. rewrite lookup_app_l in Hb by done. split; [done|]. split; [done|].
      destruct Hrest as [|Hrest]; [by left|right]. intros j b2 Hj Hb2 Hk.
      destruct (Hsig (WaitObject b2)) as [_ ?]; [|done]. apply (Hrest j); [done| |done].
      by apply lookup_app_l_Some.
    + subst b. by destruct (Hsig _ Hs).
Qed.

(** ** KeWaitForSingleObject *)

(** Whether a wait of thread [t] for the object alone is satisfied at once. *)
Definition ready_for (t : tid) (ob : KOBJECT) : bool :=
  match Body ob with
  | MutantObject OwnerThread _ _ => (0 <? SignalState ob) || bool_decide (OwnerThread = Some t)
  | _ => 0 <? SignalState ob
  end.

Lemma ready_for_grantable t ob :
  ready_for t ob = true → (Body ob ≠ TimerObject → MINLONG < SignalState ob) → grantable t ob.
Proof.
  unfold ready_for, grantable. intros Hr Hmin. destruct (Body ob) eqn:Hb;
    try (left; by apply Z.ltb_lt).
  apply orb_true_iff in Hr as [Hr|Hr]; [left; by apply Z.ltb_lt|].
  apply bool_decide_eq_true in Hr as ->. right. right. eexists _, _. split; [done|]. by apply Hmin.
Qed.

Lemma satisfy_any_cases o ob t s :
  Objects s !! o = Some ob →
  KiWaitSatisfyAny o t s =
    match Body ob with MutantObject _ _ _ => KiWaitSatisfyMutant o t s | _ => KiWaitSatisfyOther o s end.
Proof. intros Ho. unfold KiWaitSatisfyAny. by rewrite Ho. Qed.

(** The current thread acquires an object that is ready for it. *)
Lemma satisfied_now s o ob th :
  dispatcher_ok s → Threads s !! CurrentThread s = Some th → Objects s !! o = Some ob →
  ready_for (CurrentThread s) ob = true → MINLONG < SignalState ob →
  let s1 := put_thread (CurrentThread s) (acquirer o ob th)
              (put_object o (consumed (CurrentThread s) ob) s) in
  dispatcher_ok s1 ∧
  match Body ob with
  | MutantObject _ _ _ => KiWaitSatisfyMutant o (CurrentThread s) s
  | _ => KiWaitSatisfyOther o s
  end = Some s1.
Proof.
  intros Hok Hth Ho Hrd Hmin. pose proof (ready_for_grantable _ ob Hrd (λ _, Hmin)) as Hg.
  destruct (wait_satisfied s o ob Hok Ho Hg) as (s1 & Hs1 & H1 & _).
  pose proof (KiWaitSatisfyAny_exact _ th o ob s (dispatcher_signal _ _ _ Hok Ho) Hth Ho Hg) as Hex.
  rewrite Hex in Hs1. apply (inj Some) in Hs1 as <-. split; [done|].
  by rewrite <- (satisfy_any_cases o ob) by done.
Qed.

Lemma ready_limit t ob :
  signal_ok ob → ready_for t ob = true → SignalState ob ≠ MINLONG → MINLONG < SignalState ob.
Proof.
  unfold signal_ok, ready_for, MINLONG. intros Hok Hr Hne.
  destruct (Body ob); try (apply Z.ltb_lt in Hr; lia). destruct Hok. lia.
Qed.

Section single_object.
Variables (s : KSTATE) (o : oid) (ob : KOBJECT) (th : KTHREAD).
Variables (r : Z) (um al : bool) (Timeout : option Z).
Hypothesis Hok : dispatcher_ok s.
Hypothesis Hni : CurrentThread s ≠ IdleThread s.
Hypothesis Hth : Threads s !! CurrentThread s = Some th.
Hypothesis Ho : Objects s !! o = Some ob.
Hypothesis Hqo : Body ob ≠ QueueObject.
Hypothesis Hto : not_timer o.
Hypothesis Hr : 0 ≤ r < zlen (KeWaitReason s).

Let c := CurrentThread s.
Let pass := wait_single_pass o r um al Timeout s.
Let s0 := put_thread c (th <| WaitStatus := 0 |>) s.

Lemma pass_start : dispatcher_ok s0.
Proof.
  apply (dispatcher_put_current _ s th); [done..|by split|done].
Qed.

Lemma pass_apc :
  KernelApcPending th = true → WaitIrql th < APC_LEVEL →
  ∃ s', pass = Some (WaitAgain, s') ∧ dispatcher_ok s' ∧ released s s'.
Proof.
  intros Hp Hq. unfold pass, wait_single_pass. rewrite Hth. cbn [mbind option_bind].
  rewrite Hp, (proj2 (Z.ltb_lt _ _) Hq). cbn [andb].
  destruct (KiUnlockDispatcherDatabase_ok s (WaitIrql th) Hok) as (s' & -> & H' & Hrel); [done|].
  by exists s'.
Qed.

Hypothesis Hapc : KernelApcPending th && (WaitIrql th <? APC_LEVEL) = false.

Lemma pass_limit :
  ready_for c ob = true → SignalState ob = MINLONG →
  ∃ s', pass = Some (WaitDone (Raised STATUS_MUTANT_LIMIT_EXCEEDED), s') ∧ dispatcher_ok s' ∧
    released s0 s'.
Proof.
  intros Hrd Hmin. unfold pass, wait_single_pass. rewrite Hth. cbn [mbind option_bind].
  rewrite Hapc. fold c s0. change (Objects s0) with (Objects s). rewrite Ho.
  cbn [mbind option_bind]. cbv zeta. fold (ready_for c ob). rewrite Hrd.
  unfold ready_for in Hrd. destruct (Body ob) eqn:Hb; try (rewrite Hmin in Hrd; done).
  rewrite Hmin, Z.eqb_refl.
  destruct (finish_wait_ok s0 (Raised STATUS_MUTANT_LIMIT_EXCEEDED) pass_start Hni) as (s' & -> & H').
  by exists s'.
Qed.

Lemma pass_satisfied :
  ready_for c ob = true → MINLONG < SignalState ob →
  ∃ s', pass = Some (WaitDone (Returned (WaitStatus (acquirer o ob (th <| WaitStatus := 0 |>)))), s') ∧
    dispatcher_ok s' ∧
    released (put_thread c (acquirer o ob (th <| WaitStatus := 0 |>))
                (put_object o (consumed c ob) s)) s'.
Proof.
  intros Hrd Hmin. unfold pass, wait_single_pass. rewrite Hth. cbn [mbind option_bind].
  rewrite Hapc. fold c s0. change (Objects s0) with (Objects s). rewrite Ho.
  cbn [mbind option_bind]. cbv zeta. fold (ready_for c ob). rewrite Hrd.
  set (th0 := th <| WaitStatus := 0 |>) in *.
  assert (Hth0 : Threads s0 !! c = Some th0) by (apply lookup_insert_eq).
  destruct (satisfied_now s0 o ob th0 pass_start Hth0 Ho Hrd Hmin) as [H1 Hex].
  match type of H1 with dispatcher_ok ?x => set (s1 := x) in * end.
  change (CurrentThread s0) with c in *.
  assert (Heq : put_thread c (acquirer o ob th0) (put_object o (consumed c ob) s) = s1).
  { unfold s1, s0, put_thread, put_object. simpl. by rewrite insert_insert_eq. }
  rewrite Heq.
  assert (Hth1 : Threads s1 !! c = Some (acquirer o ob th0)) by (apply lookup_insert_eq).
  destruct (finish_wait_ok s1 (Returned (WaitStatus (acquirer o ob th0))) H1 Hni) as (s' & Hf & H').
  exists s'. split; [|done].
  destruct (Body ob) as [ | |ow a d| | |Limit| | ] eqn:Hb;
    try (rewrite Hex; cbn [mbind option_bind]; rewrite <- Hf;
         do 2 f_equal; unfold acquirer; by rewrite Hb).
  rewrite (proj2 (Z.eqb_neq _ _)) by lia. rewrite Hex. cbn [mbind option_bind].
  rewrite Hth1. cbn [mbind option_bind]. exact Hf.
Qed.

Hypothesis Hnrd : ready_for c ob = false.

Let th1 := (TestForAlertPending al um (th <| WaitStatus := 0 |>)).1.
Let alert := (TestForAlertPending al um (th <| WaitStatus := 0 |>)).2.
Let s1 := put_thread c th1 s0.
Let block := mkWaitBlock o STATUS_SUCCESS WaitAny.

Lemma pass_wait :
  pass =
    (match alert with
     | Some status => finish_wait (Returned status) s1
     | None =>
         match Timeout with
         | None => s ← insert_blocks c 0 [block] s1; block_thread r um al [block] s
         | Some interval =>
             if interval =? 0 then finish_wait (Returned STATUS_TIMEOUT) s1
             else
               let timer := ThreadTimer c in
               tob ← Objects s1 !! timer;
               let s := put_object timer (tob <| WaitListHead := [(c, 1%nat)] |>) s1 in
               '(s, inserted) ← KiInsertTreeTimer timer interval s;
               if inserted : bool then
                 s ← insert_blocks c 0 [block] s;
                 block_thread r um al [block; mkWaitBlock timer STATUS_TIMEOUT WaitAny] s
               else finish_wait (Returned STATUS_TIMEOUT) s
         end
     end).
Proof.
  unfold pass, wait_single_pass. rewrite Hth. cbn [mbind option_bind].
  rewrite Hapc. fold c s0. change (Objects s0) with (Objects s). rewrite Ho.
  cbn [mbind option_bind]. cbv zeta. fold (ready_for c ob). rewrite Hnrd.
  unfold alert, s1, th1. by destruct (TestForAlertPending al um (th <| WaitStatus := 0 |>)).
Qed.

Lemma pass_tested : dispatcher_ok s1.
Proof.
  apply (dispatcher_put_current _ s0 (th <| WaitStatus := 0 |>)).
  - apply pass_start.
  - apply lookup_insert_eq.
  - apply alert_passive.
  - done.
Qed.

Lemma pass_th1 : Threads s1 !! CurrentThread s1 = Some th1.
Proof. apply lookup_insert_eq. Qed.

Lemma pass_alerted status :
  alert = Some status →
  ∃ s', pass = Some (WaitDone (Returned status), s') ∧ dispatcher_ok s' ∧ released s1 s'.
Proof.
  intros Ha. rewrite pass_wait, Ha.
  destruct (finish_wait_ok s1 (Returned status) pass_tested Hni) as (s' & Hf & H'). by exists s'.
Qed.

Lemma pass_polled :
  alert = None → Timeout = Some 0 →
  ∃ s', pass = Some (WaitDone (Returned STATUS_TIMEOUT), s') ∧ dispatcher_ok s' ∧ released s1 s'.
Proof.
  intros Ha HT. rewrite pass_wait, Ha, HT.
  destruct (finish_wait_ok s1 (Returned STATUS_TIMEOUT) pass_tested Hni) as (s' & Hf & H'). by exists s'.
Qed.

Lemma pass_blocks : blocks_ready s1 [block].
Proof.
  assert (Hneg : ¬ 0 < SignalState ob).
  { unfold ready_for in Hnrd. intros Hpos%Z.ltb_lt. rewrite Hpos in Hnrd. by destruct (Body ob). }
  split; try (intros b; rewrite list_elem_of_singleton; intros ->); try done.
  - intros b b' ->%list_elem_of_singleton ->%list_elem_of_singleton. done.
  - intros i (b & Hb & Hs & _). apply list_lookup_singleton_Some in Hb as [_ <-].
    destruct Hs as (ob' & Ho' & Hpos & _). apply Hneg.
    assert (Some ob = Some ob') as [= ->] by (rewrite <- Ho, <- Ho'; done). done.
Qed.

Lemma pass_th1_queue : Queue th = None → Queue th1 = None.
Proof.
  intros Hq. etransitivity; [|exact Hq].
  exact (pv_queue _ _ (alert_passive al um (th <| WaitStatus := 0 |>))).
Qed.

Lemma pass_blocked :
  alert = None → Timeout = None → Queue th = None →
  ∃ s', pass = Some (WaitBlocked, s') ∧ dispatcher_ok s' ∧ blocked s1 s' th1 [block].
Proof.
  intros Ha HT Hq.
  destruct (block_now s1 th1 [block] r um al pass_tested pass_th1 Hni (pass_th1_queue Hq)
              pass_blocks Hr) as (s' & Hb & H').
  exists s'. split; [|done]. by rewrite <- Hb, pass_wait, Ha, HT.
Qed.

Lemma pass_timed iv tob :
  alert = None → Timeout = Some iv → iv ≠ 0 → Queue th = None → timeout_ahead s iv →
  timer_table_ok s → Objects s !! ThreadTimer c = Some tob → o ≠ KiSwapEvent →
  ∃ s' sb, pass = Some (WaitBlocked, s') ∧ dispatcher_ok s' ∧
    blocked sb s' th1 [block; mkWaitBlock (ThreadTimer c) STATUS_TIMEOUT WaitAny] ∧
    ∃ ts tb, sb = timer_set c tob ts tb s1.
Proof.
  intros Ha HT Hiv Hq Hahead Htab Htob Hsw.
  set (tbk := mkWaitBlock (ThreadTimer c) STATUS_TIMEOUT WaitAny).
  pose proof (to_timer _ _ _ (inv_thread _ _ _ (dk_inv _ pass_tested) _ _ pass_th1)) as [tm Htm].
  set (tob1 := tob <| WaitListHead := [(c, 1%nat)] |>).
  set (s2 := put_object (ThreadTimer c) tob1 s1).
  assert (Htob2 : Objects s2 !! ThreadTimer c = Some tob1) by apply lookup_insert_eq.
  destruct (KiInsertTreeTimer_pending s2 (ThreadTimer c) iv tob1 tm Htob2 Htm Htab Hahead)
    as (ts & tb & Hins & Hts).
  set (sb := timer_set c tob ts tb s1).
  assert (Hsb : dispatcher_ok sb) by (apply (timer_set_ok s1 tob ts tb pass_tested Htob Hts)).
  assert (Hcw : can_wait sb [block; tbk]).
  { apply (can_wait_timer s1 [block] tob ts tb pass_blocks pass_tested Htob).
    by intros b ->%list_elem_of_singleton. }
  assert (Hnt : o ≠ ThreadTimer c) by apply Hto.
  pose proof (timer_list_empty s1 c tob pass_tested (dk_current _ pass_tested) Htob) as Hnil.
  set (m := <[o := ob <| WaitListHead := WaitListHead ob ++ [(c, 0%nat)] |>]>
              (<[ThreadTimer c := tob1 <| SignalState := 0 |>]> (Objects s2))).
  destruct (block_thread_ok sb m th1 [block; tbk] r um al Hsb pass_th1 Hni (pass_th1_queue Hq) Hcw Hr)
    as (s' & Hb & H' & Hbl).
  { intros x. unfold m. change (Objects sb) with
      (<[ThreadTimer c := tob <| SignalState := 0 |>]> (Objects s)).
    change (Objects s2) with (<[ThreadTimer c := tob1]> (Objects s)).
    change (CurrentThread sb) with c. cbn [entries_on WaitObject block tbk].
    destruct (decide (o = x)) as [<-|Hx].
    - rewrite lookup_insert_eq, decide_False by done. by rewrite lookup_insert_ne, Ho.
    - rewrite lookup_insert_ne by done. destruct (decide (ThreadTimer c = x)) as [<-|Hx'].
      + rewrite !lookup_insert_eq. simpl. by rewrite Hnil.
      + rewrite !lookup_insert_ne by done. destruct (Objects s !! x) as [obx|]; [|done].
        simpl. f_equal. destruct obx. simpl. by rewrite app_nil_r. }
  exists s', sb. split; [|by eauto]. rewrite <- Hb, pass_wait, Ha, HT, (proj2 (Z.eqb_neq _ _) Hiv).
  change (Objects s1) with (Objects s). cbv zeta. rewrite Htob. cbn [mbind option_bind].
  fold tob1 s2. rewrite Hins. cbn [mbind option_bind insert_blocks WaitObject block].
  rewrite Objects_put, decide_False by done.
  change (Objects (s2 <| Timers := ts |> <| KiTimerTable := tb |>)) with (Objects s2).
  assert (Objects s2 !! o = Some ob) as -> by (unfold s2; rewrite Objects_put; by rewrite decide_False).
  done.
Qed.

End single_object.
