(* ===== verification/KeMultiOk.v ===== *)
(** * KeWaitForMultipleObjects keeps the invariants

    The scans of a wait any and a wait all, the immediate satisfaction of a wait
    all, and blocking on all objects. *)

From stdpp Require Import base list numbers option gmap sets.
From S2P Require Import Prelude KeState KeSched KeWait KeInv KeReady KeFrame KeTest.
From S2P Require Import KeObjects KeBlock KeOps KeObjOk KeBlockOk.

(** The objects of a call: they exist, and are no queues, timers of threads or the
    swap event. *)
Record wait_objects (s : KSTATE) (os : list oid) : Prop := {
  wo_objects o : o ∈ os → ∃ ob, Objects s !! o = Some ob ∧ Body ob ≠ QueueObject;
  wo_timer o : o ∈ os → not_timer o;
  wo_swap : KiSwapEvent ∉ os
}.

Lemma wait_objects_cons s o os : wait_objects s (o :: os) → wait_objects s os.
Proof.
  intros [W1 W2 W3]. split.
  - intros x Hx. apply W1. by right.
  - intros x Hx. apply W2. by right.
  - intros Hx. apply W3. by right.
Qed.

(** The object at some position satisfies the wait, none before it. *)
Definition first_ready (s : KSTATE) (t : tid) (os : list oid) (i : nat) (o : oid) (ob : KOBJECT) : Prop :=
  os !! i = Some o ∧ Objects s !! o = Some ob ∧ ready_for t ob = true ∧
  ∀ j o' ob', (j < i)%nat → os !! j = Some o' → Objects s !! o' = Some ob' → ready_for t ob' = false.

Definition none_ready (s : KSTATE) (t : tid) (os : list oid) : Prop :=
  ∀ o ob, o ∈ os → Objects s !! o = Some ob → ready_for t ob = false.

Lemma first_ready_cons s t o0 ob0 os i o ob :
  Objects s !! o0 = Some ob0 → ready_for t ob0 = false → first_ready s t os i o ob →
  first_ready s t (o0 :: os) (S i) o ob.
Proof.
  intros H0 Hn (Hi & Ho & Hr & Hbefore). split_and!; auto.
  intros [|j] o' ob' Hj Hl Ho'; simpl in Hl; [congruence|]. apply (Hbefore j o'); [lia|done..].
Qed.

(** The wait any is satisfied by the first object that is ready. *)
Record any_satisfied (s : KSTATE) (th : KTHREAD) (os : list oid) (Index : Z) (r : wait_result)
    (s' : KSTATE) : Prop := {
  as_ok : dispatcher_ok s';
  as_result : ∃ i o ob, first_ready s (CurrentThread s) os i o ob ∧
    if decide (SignalState ob = MINLONG)
    then r = WaitDone (Raised STATUS_MUTANT_LIMIT_EXCEEDED) ∧ released s s'
    else r = WaitDone (Returned (Z.lor (Index + Z.of_nat i) (WaitStatus (acquirer o ob th)))) ∧
      released (put_thread (CurrentThread s) (acquirer o ob th)
                  (put_object o (consumed (CurrentThread s) ob) s)) s'
}.

Lemma any_satisfied_here s th o ob os Index :
  dispatcher_ok s → CurrentThread s ≠ IdleThread s → Threads s !! CurrentThread s = Some th →
  WaitStatus th = 0 → Objects s !! o = Some ob → ready_for (CurrentThread s) ob = true →
  ∃ r s', wait_any_scan (CurrentThread s) Index (o :: os) s = Some (Some (r, s')) ∧
    any_satisfied s th (o :: os) Index r s'.
Proof.
  intros Hok Hni Hth Hws Ho Hr.
  assert (Hfirst : first_ready s (CurrentThread s) (o :: os) 0 o ob).
  { split_and!; auto. intros j ? ? ?. lia. }
  cbn [wait_any_scan]. rewrite Ho. cbn [mbind option_bind].
  destruct (decide (SignalState ob = MINLONG)) as [Hmin|Hmin].
  - destruct (finish_wait_ok s (Raised STATUS_MUTANT_LIMIT_EXCEEDED) Hok Hni) as (s' & Hf & H' & Hrel).
    eexists _, s'. split; [|split; [done|]].
    2:{ exists 0%nat, o, ob. split; [done|]. by rewrite decide_True. }
    unfold ready_for in Hr. destruct (Body ob) eqn:Hb; try (rewrite Hmin in Hr; done).
    by rewrite Hr, Hmin, Z.eqb_refl, Hf.
  - pose proof (ready_limit _ _ (dispatcher_signal _ _ _ Hok Ho) Hr Hmin) as Hgt.
    destruct (satisfied_now s o ob th Hok Hth Ho Hr Hgt) as [H1 Hex].
    match type of H1 with dispatcher_ok ?x => set (s1 := x) in * end.
    destruct (finish_wait_ok s1 (Returned Index) H1 Hni) as (s' & Hf & H' & Hrel).
    assert (Hth1 : Threads s1 !! CurrentThread s = Some (acquirer o ob th)) by apply lookup_insert_eq.
    eexists _, s'. split; [|split; [done|]].
    2:{ exists 0%nat, o, ob. split; [done|]. rewrite decide_False by done. split; [|done].
        by rewrite Z.add_0_r. }
    assert (Hzero : (∀ ow a d, Body ob ≠ MutantObject ow a d) →
       Z.lor Index (WaitStatus (acquirer o ob th)) = Index).
    { intros Hn. unfold acquirer. destruct (Body ob) eqn:Hb; try (by rewrite Hws, Z.lor_0_r).
      by destruct (Hn OwnerThread Abandoned ApcDisable). }
    unfold ready_for in Hr. destruct (Body ob) as [ | |ow a d| | |Limit| | ] eqn:Hb;
      try (rewrite Hr, Hex; cbn [mbind option_bind]; rewrite Hf, Hzero by done; done).
    rewrite Hr, (proj2 (Z.eqb_neq _ _) Hmin), Hex. cbn [mbind option_bind]. rewrite Hf.
    cbn [mbind option_bind].
    destruct (rl_threads _ _ Hrel _ _ Hth1) as (th' & -> & _ & _ & _ & _ & _ & _ & Hkeep).
    cbn [mbind option_bind]. destruct Hkeep as [_ ->]; [|done]. destruct (dk_current _ H1) as (th2 & Hth2 & Hrun).
    change (CurrentThread s1) with (CurrentThread s) in Hth2. congruence.
Qed.

Lemma wait_any_scan_ok s th os : ∀ Index,
  dispatcher_ok s → CurrentThread s ≠ IdleThread s → Threads s !! CurrentThread s = Some th →
  WaitStatus th = 0 → wait_objects s os →
  (wait_any_scan (CurrentThread s) Index os s = Some None ∧ none_ready s (CurrentThread s) os) ∨
  ∃ r s', wait_any_scan (CurrentThread s) Index os s = Some (Some (r, s')) ∧
    any_satisfied s th os Index r s'.
Proof.
  induction os as [|o os IH]; intros Index Hok Hni Hth Hws Hwo.
  { left. split; [done|]. intros o ob ?%elem_of_nil. done. }
  destruct (wo_objects _ _ Hwo o) as (ob & Ho & _); [by left|].
  destruct (ready_for (CurrentThread s) ob) eqn:Hr.
  { right. by apply (any_satisfied_here s th o ob). }
  assert (Hstep : wait_any_scan (CurrentThread s) Index (o :: os) s =
    wait_any_scan (CurrentThread s) (Index + 1) os s).
  { cbn [wait_any_scan]. rewrite Ho. cbn [mbind option_bind]. unfold ready_for in Hr.
    by destruct (Body ob); rewrite Hr. }
  rewrite Hstep.
  destruct (IH (Index + 1) Hok Hni Hth Hws (wait_objects_cons _ _ _ Hwo))
    as [[-> Hnone]|(r & s' & -> & Has)].
  - left. split; [done|]. intros x obx [->|Hx]%elem_of_cons Hobx; [congruence|eauto].
  - right. exists r, s'. split; [done|]. destruct Has as [Hok' (i & x & obx & Hf & Hres)].
    split; [done|]. exists (S i), x, obx. split; [by apply (first_ready_cons _ _ _ ob)|].
    by replace (Index + Z.of_nat (S i)) with (Index + 1 + Z.of_nat i) by lia.
Qed.

(** ** Wait all *)

(** A mutant the thread owns was acquired as often as possible. *)
Definition at_limit (t : tid) (ob : KOBJECT) : Prop :=
  ∃ a d, Body ob = MutantObject (Some t) a d ∧ SignalState ob = MINLONG.

Lemma wait_all_scan_ok s t os : ∀ w,
  wait_objects s os →
  (wait_all_scan t w os s = Some None ∧ ∃ o ob, o ∈ os ∧ Objects s !! o = Some ob ∧ at_limit t ob) ∨
  ∃ b, wait_all_scan t w os s = Some (Some b) ∧
    (∀ o ob, o ∈ os → Objects s !! o = Some ob → ¬ at_limit t ob) ∧
    if b then w = true ∧ ∀ o ob, o ∈ os → Objects s !! o = Some ob → ready_for t ob = true
    else w = false ∨ ∃ o ob, o ∈ os ∧ Objects s !! o = Some ob ∧ ready_for t ob = false.
Proof.
  induction os as [|o os IH]; intros w Hwo; cbn [wait_all_scan].
  { right. exists w. split; [done|]. split; [intros ? ? ?%elem_of_nil; done|].
    destruct w; [|by left]. split; [done|]. intros ? ? ?%elem_of_nil. done. }
  destruct (wo_objects _ _ Hwo o) as (ob & Ho & _); [by left|]. rewrite Ho. cbn [mbind option_bind].
  specialize (λ w, IH w (wait_objects_cons _ _ _ Hwo)).
  assert (Hstep : at_limit t ob ∧ (∃ ow a d, Body ob = MutantObject ow a d ∧
     bool_decide (ow = Some t) && (SignalState ob =? MINLONG) = true) ∨ ¬ at_limit t ob).
  { destruct (Body ob) as [ | |ow a d| | | | | ] eqn:Hb;
      try (right; intros (? & ? & Heq & _); congruence).
    destruct (bool_decide (ow = Some t) && (SignalState ob =? MINLONG)) eqn:Hc.
    - left. split; [|eauto]. apply andb_true_iff in Hc as [Hc1%bool_decide_eq_true Hc2%Z.eqb_eq].
      subst ow. by exists a, d.
    - right. intros (a' & d' & Heq & Hmin). rewrite Hb in Heq. injection Heq as -> -> ->.
      rewrite bool_decide_true, Hmin, Z.eqb_refl in Hc by done. done. }
  destruct Hstep as [[Hlim (ow & a & d & Hb & Hc)]|Hlim].
  { left. rewrite Hb, Hc. split; [done|]. exists o, ob. split; [by left|done]. }
  assert (Hnext : (match Body ob with
      | MutantObject OwnerThread _ _ =>
          if bool_decide (OwnerThread = Some t) && (SignalState ob =? MINLONG) then Some None
          else if (SignalState ob <=? 0) && negb (bool_decide (OwnerThread = Some t))
          then wait_all_scan t false os s else wait_all_scan t w os s
      | _ => if SignalState ob <=? 0 then wait_all_scan t false os s else wait_all_scan t w os s
      end) = wait_all_scan t (if ready_for t ob then w else false) os s).
  { unfold ready_for. destruct (Body ob) as [ | |ow a d| | | | | ] eqn:Hb;
      try (rewrite (Z.ltb_antisym (SignalState ob) 0); by destruct (SignalState ob <=? 0)).
    destruct (bool_decide (ow = Some t) && (SignalState ob =? MINLONG)) eqn:Hc.
    - exfalso. apply Hlim. apply andb_true_iff in Hc as [Hc1%bool_decide_eq_true Hc2%Z.eqb_eq].
      subst ow. by exists a, d.
    - rewrite (Z.ltb_antisym (SignalState ob) 0). by destruct (SignalState ob <=? 0), (bool_decide _). }
  rewrite Hnext. destruct (IH (if ready_for t ob then w else false))
    as [[-> (x & obx & ? & ? & ?)]|(b & -> & Hnl & Hb)].
  - left. split; [done|]. exists x, obx. split; [by right|done].
  - right. exists b. split; [done|]. split.
    { intros x obx [->|Hx]%elem_of_cons Hobx; [congruence|eauto]. }
    destruct b.
    + destruct Hb as [Hw Hall]. destruct (ready_for t ob) eqn:Hr; [|done]. split; [done|].
      intros x obx [->|Hx]%elem_of_cons Hobx; [congruence|eauto].
    + destruct Hb as [Hw|(x & obx & ? & ? & ?)].
      * destruct (ready_for t ob) eqn:Hr; [by left|right]. exists o, ob. split; [by left|done].
      * right. exists x, obx. split; [by right|done].
Qed.

Lemma wait_blocks_lookup ty os i b :
  wait_blocks ty os !! i = Some b ↔
    ∃ o, os !! i = Some o ∧ b = mkWaitBlock o (Z.of_nat i) ty.
Proof.
  unfold wait_blocks. rewrite list_lookup_imap_Some. split; intros (o & ? & ?); eauto.
Qed.

Lemma wait_blocks_elem ty os b :
  b ∈ wait_blocks ty os → WaitObject b ∈ os ∧ WaitType b = ty ∧
    ∃ i, (i < length os)%nat ∧ WaitKey b = Z.of_nat i.
Proof.
  intros (i & (o & Hi & ->)%wait_blocks_lookup)%list_elem_of_lookup. simpl.
  split; [by eapply elem_of_lookup|]. split; [done|]. exists i. split; [|done].
  by apply lookup_lt_Some in Hi.
Qed.

Lemma wait_blocks_objects ty os : WaitObject <$> wait_blocks ty os = os.
Proof.
  apply list_eq. intros i. unfold wait_blocks. rewrite list_lookup_fmap, list_lookup_imap.
  by destruct (os !! i).
Qed.

Lemma wait_blocks_ready s t ty os :
  wait_objects s os → os ≠ [] → (length os ≤ MAXIMUM_WAIT_OBJECTS)%nat →
  (ty = WaitAll → NoDup os) →
  (∃ o ob, o ∈ os ∧ Objects s !! o = Some ob ∧ ready_for t ob = false ∧
     (ty = WaitAny → none_ready s t os)) →
  blocks_ready s (wait_blocks ty os).
Proof.
  unfold MAXIMUM_WAIT_OBJECTS. intros Hwo Hne Hlen Hnd (o & ob & Hin & Ho & Hr & Hany).
  assert (Hsig : ∀ x obx, Objects s !! x = Some obx → ready_for t obx = false → ¬ signaled s x).
  { intros x obx Hx Hrx (oby & Hy & Hpos%Z.ltb_lt & _). rewrite Hx in Hy.
    apply (inj Some) in Hy as ->. unfold ready_for in Hrx. rewrite Hpos in Hrx.
    by destruct (Body oby). }
  split.
  - unfold wait_blocks. by destruct os.
  - intros b b' (_ & -> & _)%wait_blocks_elem (_ & -> & _)%wait_blocks_elem. done.
  - intros b (_ & <- & _)%wait_blocks_elem Hall. rewrite wait_blocks_objects. auto.
  - intros b (_ & _ & i & Hi & ->)%wait_blocks_elem. unfold STATUS_TIMEOUT. lia.
  - intros b (Hb & _)%wait_blocks_elem. by apply (wo_timer _ _ Hwo).
  - intros b (Hb & _)%wait_blocks_elem. destruct (wo_objects _ _ Hwo _ Hb) as (? & -> & _). done.
  - intros b (Hb & _)%wait_blocks_elem Heq. rewrite Heq in Hb. by destruct (wo_swap _ _ Hwo).
  - intros i (b & Hb & Hs & Hrest).
    apply wait_blocks_lookup in Hb as (x & Hx & ->). simpl in *.
    destruct Hrest as [->|Hrest].
    + destruct (wo_objects _ _ Hwo x) as (obx & Hobx & _); [by eapply elem_of_lookup|].
      apply (Hsig x obx); [done| |done]. apply (Hany eq_refl x); [by eapply elem_of_lookup|done].
    + apply list_elem_of_lookup in Hin as [j Hj]. apply (Hsig o ob Ho Hr).
      destruct (decide (j = i)) as [->|Hji]; [congruence|].
      apply (Hrest j (mkWaitBlock o (Z.of_nat j) ty) Hji).
      * apply wait_blocks_lookup. eauto.
      * simpl. apply lookup_lt_Some in Hj. unfold STATUS_TIMEOUT. lia.
Qed.

(** The blocks of a running thread matter to nobody. *)
Lemma put_blocks_ok s th bs :
  dispatcher_ok s → Threads s !! CurrentThread s = Some th →
  dispatcher_ok (put_thread (CurrentThread s) (th <| WaitBlockList := bs |>) s).
Proof.
  intros Hok Hth. destruct (dk_current _ Hok) as (th' & Hth' & Hrun).
  apply (dispatcher_put_current _ s th); [done..| |].
  - split; try done. congruence.
  - intros Heq. change (DISPATCH_LEVEL ≤ WaitIrql th). apply (dk_level _ Hok). by rewrite <- Heq.
Qed.

(** A wait all whose objects are all ready. *)
Lemma wait_all_now s th os :
  dispatcher_ok s → Threads s !! CurrentThread s = Some th → os ≠ [] → NoDup os →
  (∀ o, o ∈ os → ∃ ob, Objects s !! o = Some ob ∧ ready_for (CurrentThread s) ob = true ∧
     MINLONG < SignalState ob) →
  let blocks := wait_blocks WaitAll os in
  let s1 := put_thread (CurrentThread s) (th <| WaitBlockList := blocks |>) s in
  ∃ s2, KiWaitSatisfy (CurrentThread s) (pred (length blocks)) s1 = Some s2 ∧ dispatcher_ok s2 ∧
    satisfied (CurrentThread s) s1 s2.
Proof.
  intros Hok Hth Hne Hnd Hready blocks s1.
  assert (H1 : dispatcher_ok s1) by (by apply put_blocks_ok).
  assert (Hlen : length blocks = length os) by apply length_imap.
  assert (Hth1 : Threads s1 !! CurrentThread s = Some (th <| WaitBlockList := blocks |>))
    by apply lookup_insert_eq.
  destruct (lookup_lt_is_Some_2 blocks (pred (length blocks))) as [b Hb].
  { rewrite Hlen. destruct os; [done|]. simpl. lia. }
  unfold KiWaitSatisfy. rewrite Hth1. cbn [mbind option_bind].
  change (WaitBlockList (th <| WaitBlockList := blocks |>)) with blocks. rewrite Hb.
  cbn [mbind option_bind]. pose proof Hb as Hb'. apply elem_of_lookup, wait_blocks_elem in Hb' as (_ & -> & _).
  rewrite decide_False by done.
  destruct (satisfy_blocks_ok (CurrentThread s)
    (drop (pred (length blocks)) blocks ++ take (pred (length blocks)) blocks) _ s1
    (inv_object _ _ _ (dk_inv _ H1)) Hth1) as (s2 & Hs2 & Hsf & Hoi).
  - rewrite ring_perm. unfold blocks. by rewrite wait_blocks_objects.
  - intros b'. rewrite ring_perm. intros (Hin & _)%wait_blocks_elem.
    destruct (Hready _ Hin) as (ob & Ho & Hr & Hmin). exists ob. split; [done|].
    by apply ready_for_grantable.
  - exists s2. split; [done|]. split; [|done]. by apply (dispatcher_satisfied s1 s2 (CurrentThread s)).
Qed.

(** ** Blocking on all objects *)

(** A timeout the call can wait for. *)
Definition timeout_ok (s : KSTATE) (Timeout : option Z) : Prop :=
  match Timeout with
  | Some iv => iv = 0 ∨ timeout_ahead s iv ∧ timer_table_ok s ∧
                        is_Some (Objects s !! ThreadTimer (CurrentThread s))
  | None => True
  end.

(** The call is over at once, with the status given, or the thread waits. *)
Definition blocked_or (s : KSTATE) (P : Z → Prop) (r : wait_result) (s' : KSTATE) : Prop :=
  match r with
  | WaitDone (Returned v) => P v
  | WaitBlocked => CurrentThread s' ≠ CurrentThread s ∧
      ∃ th, Threads s' !! CurrentThread s = Some th ∧ State th = Waiting
  | _ => False
  end.

Lemma blocked_waits s sb s' th bs P :
  blocked sb s' th bs → CurrentThread sb = CurrentThread s → blocked_or s P WaitBlocked s'.
Proof.
  intros [(a & m & r & w & Hth) _ _ Hc _] Heq. simpl. rewrite <- Heq. split; [done|].
  by exists (waiting_thread th a m r w bs).
Qed.

Lemma wait_multiple_block_ok s th bs r um al Timeout :
  dispatcher_ok s → Threads s !! CurrentThread s = Some th → CurrentThread s ≠ IdleThread s →
  Queue th = None → blocks_ready s bs → (∀ b, b ∈ bs → WaitObject b ≠ KiSwapEvent) →
  0 ≤ r < zlen (KeWaitReason s) → timeout_ok s Timeout →
  ∃ res s', wait_multiple_block r um al Timeout bs s = Some (res, s') ∧ dispatcher_ok s' ∧
    blocked_or s (λ v, v = STATUS_TIMEOUT ∧ Timeout = Some 0 ∨
                       (TestForAlertPending al um th).2 = Some v) res s'.
Proof.
  intros Hok Hth Hni Hq Hbr Hsw Hr Hto. unfold wait_multiple_block. rewrite Hth.
  cbn [mbind option_bind]. pose proof (alert_passive al um th) as Hpv.
  destruct (TestForAlertPending al um th) as [th1 alert]. simpl in Hpv. cbv zeta iota beta. simpl snd.
  set (s1 := put_thread (CurrentThread s) th1 s).
  assert (H1 : dispatcher_ok s1) by (by apply (dispatcher_put_current _ s th)).
  assert (Hth1 : Threads s1 !! CurrentThread s1 = Some th1) by apply lookup_insert_eq.
  assert (Hq1 : Queue th1 = None) by (by rewrite (pv_queue _ _ Hpv)).
  assert (Hbr1 : blocks_ready s1 bs) by (by destruct Hbr; split).
  destruct alert as [status|].
  { destruct (finish_wait_ok s1 (Returned status) H1 Hni) as (s' & -> & H' & _).
    eexists _, s'. split; [done|]. split; [done|]. by right. }
  destruct Timeout as [iv|].
  2:{ destruct (block_now s1 th1 bs r um al H1 Hth1 Hni Hq1 Hbr1 Hr) as (s' & Hb & H' & Hbl).
      change (CurrentThread s1) with (CurrentThread s) in Hb. eexists _, s'.
      split; [exact Hb|]. split; [done|]. by eapply blocked_waits. }
  destruct (Z.eqb_spec iv 0) as [->|Hiv].
  { destruct (finish_wait_ok s1 (Returned STATUS_TIMEOUT) H1 Hni) as (s' & -> & H' & _).
    eexists _, s'. split; [done|]. split; [done|]. by left. }
  destruct Hto as [?|(Hahead & Htab & [tob Htob])]; [done|]. set (c := CurrentThread s) in *.
  change (Objects s1) with (Objects s). rewrite Htob. cbn [mbind option_bind].
  pose proof (timer_list_empty s1 c tob H1 (dk_current _ H1) Htob) as Hnil.
  assert (tob <| WaitListHead := [] |> = tob) as -> by (destruct tob; simpl in *; by subst).
  rewrite (put_object_id s1) by done.
  pose proof (to_timer _ _ _ (inv_thread _ _ _ (dk_inv _ H1) _ _ Hth1)) as [tm Htm].
  destruct (KiInsertTreeTimer_pending s1 (ThreadTimer c) iv tob tm Htob Htm Htab Hahead)
    as (ts & tb & -> & Hts). cbn [mbind option_bind].
  pose proof (timer_set_ok s1 tob ts tb H1 Htob Hts) as Hsb.
  pose proof (can_wait_timer s1 bs tob ts tb Hbr1 H1 Htob Hsw) as Hcw.
  fold (timer_set c tob ts tb s1). change (CurrentThread s1) with c in *.
  set (sb := timer_set c tob ts tb s1) in *. change (CurrentThread s) with (CurrentThread sb).
  set (bs' := bs ++ _) in *.
  destruct (insert_blocks_ok c bs' 0 sb) as (m & -> & Hm); [apply Hcw|]. cbn [mbind option_bind].
  destruct (block_thread_ok sb m th1 bs' r um al Hsb Hth1 Hni Hq1 Hcw Hr Hm) as (s' & -> & H' & Hbl).
  eexists _, s'. split; [done|]. split; [done|]. by eapply blocked_waits.
Qed.

(** ** The two calls *)

(** A thread that may wait: not the idle thread, not processing a queue entry. *)
Record wait_call (s : KSTATE) (Reason : Z) (Timeout : option Z) : Prop := {
  wc_idle : CurrentThread s ≠ IdleThread s;
  wc_queue th : Threads s !! CurrentThread s = Some th → Queue th = None;
  wc_reason : 0 ≤ Reason < zlen (KeWaitReason s);
  wc_timeout : timeout_ok s Timeout
}.

(** The results of a wait call made in state [s]. *)
Definition wait_outcome (s : KSTATE) (r : wait_result) (s' : KSTATE) : Prop :=
  match r with
  | WaitDone (Returned _) => True
  | WaitDone (Raised v) => v = STATUS_MUTANT_LIMIT_EXCEEDED ∧
      ∃ o ob, Objects s !! o = Some ob ∧ at_limit (CurrentThread s) ob
  | WaitBlocked => CurrentThread s' ≠ CurrentThread s ∧
      ∃ th, Threads s' !! CurrentThread s = Some th ∧ State th = Waiting
  | WaitAgain => ∃ th, Threads s !! CurrentThread s = Some th ∧ KernelApcPending th = true
  | WaitBugCheck => False
  end.

Lemma ready_at_limit t ob :
  ready_for t ob = true → SignalState ob = MINLONG → at_limit t ob.
Proof.
  unfold ready_for, at_limit. intros Hr Hmin. rewrite Hmin in Hr.
  destruct (Body ob) as [ | |ow a d| | | | | ] eqn:Hb; try done.
  simpl in Hr. apply bool_decide_eq_true in Hr as ->. eauto.
Qed.

Lemma wait_multiple_pass_ok s th os ty r um al Timeout :
  dispatcher_ok s → Threads s !! CurrentThread s = Some th → wait_call s r Timeout →
  wait_objects s os → os ≠ [] → (length os ≤ MAXIMUM_WAIT_OBJECTS)%nat →
  (ty = WaitAll → NoDup os) →
  ∃ res s', wait_multiple_pass os ty r um al Timeout s = Some (res, s') ∧ dispatcher_ok s' ∧
    wait_outcome s res s'.
Proof.
  intros Hok Hth [Hni Hq Hr Hto] Hwo Hne Hlen Hnd. unfold wait_multiple_pass. rewrite Hth.
  cbn [mbind option_bind]. destruct (KernelApcPending th && (WaitIrql th <? APC_LEVEL)) eqn:Hapc.
  { destruct (KiUnlockDispatcherDatabase_ok s (WaitIrql th) Hok) as (s' & -> & H' & _); [done|].
    eexists _, s'. split; [done|]. split; [done|]. exists th. split; [done|].
    by apply andb_true_iff in Hapc as [? _]. }
  set (c := CurrentThread s) in *. set (th0 := th <| WaitStatus := 0 |>).
  set (s0 := put_thread c th0 s). cbv zeta.
  assert (H0 : dispatcher_ok s0) by (apply (dispatcher_put_current _ s th); [done..|by split|done]).
  assert (Hth0 : Threads s0 !! c = Some th0) by apply lookup_insert_eq.
  assert (Hwo0 : wait_objects s0 os) by (by destruct Hwo; split).
  assert (Hblock : (∃ o ob, o ∈ os ∧ Objects s0 !! o = Some ob ∧ ready_for c ob = false ∧
     (ty = WaitAny → none_ready s0 c os)) →
    ∃ res s', wait_multiple_block r um al Timeout (wait_blocks ty os) s0 = Some (res, s') ∧
      dispatcher_ok s' ∧ wait_outcome s res s').
  { intros Hnr. destruct (wait_multiple_block_ok s0 th0 (wait_blocks ty os) r um al Timeout
      H0 Hth0 Hni (Hq th Hth)) as (res & s' & Hb & H' & Hres).
    - by apply (wait_blocks_ready s0 c).
    - intros b (Hb & _)%wait_blocks_elem Heq. rewrite Heq in Hb. by destruct (wo_swap _ _ Hwo).
    - done.
    - done.
    - exists res, s'. split; [done|]. split; [done|]. by destruct res as [[]| | |]. }
  destruct ty.
  - destruct (wait_all_scan_ok s0 c os true Hwo0) as [[-> (o & ob & _ & Ho & Hlim)]|(b & -> & Hnl & Hb)];
      cbn [mbind option_bind].
    + destruct (finish_wait_ok s0 (Raised STATUS_MUTANT_LIMIT_EXCEEDED) H0 Hni) as (s' & -> & H' & _).
      eexists _, s'. split; [done|]. split; [done|]. split; [done|]. by exists o, ob.
    + destruct b.
      2:{ destruct Hb as [|(o & ob & ? & ? & ?)]; [done|]. apply Hblock. by exists o, ob. }
      rewrite Hth0. cbn [mbind option_bind].
      destruct (wait_all_now s0 th0 os H0 Hth0 Hne (Hnd eq_refl)) as (s2 & Hs2 & H2 & Hsf).
      { intros o Hin. destruct (wo_objects _ _ Hwo0 o Hin) as (ob & Ho & _). exists ob.
        destruct Hb as [_ Hb]. split; [done|]. split; [by apply (Hb o)|].
        apply (ready_limit c); [by apply (dispatcher_signal s0 o)|by apply (Hb o)|].
        intros Hmin. apply (Hnl o ob Hin Ho). apply ready_at_limit; [by apply (Hb o)|done]. }
      change (CurrentThread s0) with c in *. cbv zeta. rewrite Hs2. cbn [mbind option_bind].
      destruct (sf_thread _ _ _ Hsf) as (? & a & w & m & _ & ->). cbn [mbind option_bind].
      pose proof (sf_rest _ _ _ Hsf) as Hrest.
      match goal with |- context [finish_wait ?x s2] =>
        destruct (finish_wait_ok s2 x H2) as (s' & -> & H' & _); [by rewrite Hrest|] end.
      by eexists _, s'.
  - pose proof (wait_any_scan_ok s0 th0 os 0 H0 Hni Hth0 eq_refl Hwo0) as Hscan.
    change (CurrentThread s0) with c in Hscan.
    destruct Hscan as [[-> Hnone]|(res & s' & -> & [H' (i & o & ob & Hf & Hres)])]; cbn [mbind option_bind].
    + destruct os as [|o os']; [done|]. apply Hblock.
      destruct (wo_objects _ _ Hwo0 o) as (ob & Ho & _); [by left|].
      exists o, ob. split; [by left|]. split; [done|]. split; [|done]. apply (Hnone o); [by left|done].
    + exists res, s'. split; [done|]. split; [done|].
      destruct Hf as (_ & Ho & Hrd & _). destruct (decide _) as [Hmin|].
      * destruct Hres as [-> _]. split; [done|]. exists o, ob. split; [done|]. by apply ready_at_limit.
      * by destruct Hres as [-> _].
Qed.

Lemma begin_wait_call s Reason Timeout th th1 q :
  wait_call s Reason Timeout → Threads s !! CurrentThread s = Some th → passive th th1 →
  wait_call (put_thread (CurrentThread s) th1 (s <| Irql := q |>)) Reason Timeout.
Proof.
  intros [Hni Hq Hr Hto] Hth Hpv. split; [done| |done|].
  - intros th'. change (CurrentThread (put_thread (CurrentThread s) th1 (s <| Irql := q |>)))
      with (CurrentThread s). rewrite Threads_put, decide_True by done.
    intros <-%(inj Some). rewrite (pv_queue _ _ Hpv). auto.
  - destruct Timeout as [iv|]; exact Hto.
Qed.

Lemma wait_outcome_begin s th th1 q r s' :
  Threads s !! CurrentThread s = Some th → KernelApcPending th1 = KernelApcPending th →
  wait_outcome (put_thread (CurrentThread s) th1 (s <| Irql := q |>)) r s' → wait_outcome s r s'.
Proof.
  intros Hth Ha. destruct r as [[]| | |]; try done. intros (th' & Hth' & Hp). exists th.
  split; [done|]. change (CurrentThread (put_thread (CurrentThread s) th1 (s <| Irql := q |>)))
      with (CurrentThread s) in Hth'. rewrite Threads_put, decide_True in Hth' by done.
  apply (inj Some) in Hth' as <-. congruence.
Qed.

Lemma KeWaitForMultipleObjects_ok s os ty r um al Timeout arr :
  dispatcher_ok s → wait_call s r Timeout → wait_objects s os → os ≠ [] →
  (length os ≤ if arr : bool then MAXIMUM_WAIT_OBJECTS else THREAD_WAIT_OBJECTS)%nat →
  (ty = WaitAll → NoDup os) →
  ∃ res s', KeWaitForMultipleObjects os ty r um al Timeout arr s = Some (res, s') ∧
    dispatcher_ok s' ∧ wait_outcome s res s'.
Proof.
  intros Hok Hwc Hwo Hne Hlen Hnd. unfold KeWaitForMultipleObjects.
  destruct (begin_wait_ok s Hok (wc_idle _ _ _ Hwc))
    as (th & th1 & q & Hth & Hpv & Ha & _ & _ & -> & H1). cbn [mbind option_bind].
  rewrite bool_decide_false by lia.
  set (s1 := put_thread (CurrentThread s) th1 (s <| Irql := q |>)) in *.
  destruct (wait_multiple_pass_ok s1 th1 os ty r um al Timeout H1) as (res & s' & Hp & H' & Hres).
  - apply lookup_insert_eq.
  - by apply (begin_wait_call s r Timeout th).
  - by destruct Hwo; split.
  - done.
  - unfold MAXIMUM_WAIT_OBJECTS, THREAD_WAIT_OBJECTS in *. destruct arr; lia.
  - done.
  - exists res, s'. split; [done|]. split; [done|]. by eapply wait_outcome_begin.
Qed.

Lemma KeWaitForSingleObject_ok s o ob r um al Timeout :
  dispatcher_ok s → wait_call s r Timeout → Objects s !! o = Some ob → Body ob ≠ QueueObject →
  not_timer o → (o = KiSwapEvent → Timeout = None) →
  ∃ res s', KeWaitForSingleObject o r um al Timeout s = Some (res, s') ∧
    dispatcher_ok s' ∧ wait_outcome s res s'.
Proof.
  intros Hok Hwc Ho Hqo Hnt Hsw. unfold KeWaitForSingleObject.
  destruct (begin_wait_ok s Hok (wc_idle _ _ _ Hwc))
    as (th & th1 & q & Hth & Hpv & Ha & _ & _ & -> & H1). cbn [mbind option_bind].
  pose proof (begin_wait_call s r Timeout th th1 q Hwc Hth Hpv) as [Wi Wq Wr Wt].
  set (s1 := put_thread (CurrentThread s) th1 (s <| Irql := q |>)) in *.
  assert (Hth1 : Threads s1 !! CurrentThread s1 = Some th1) by apply lookup_insert_eq.
  assert (Hgo : ∃ res s', wait_single_pass o r um al Timeout s1 = Some (res, s') ∧
    dispatcher_ok s' ∧ wait_outcome s1 res s').
  2:{ destruct Hgo as (res & s' & Hp & H' & Hres). exists res, s'. split; [done|]. split; [done|].
      by eapply wait_outcome_begin. }
  assert (Ho1 : Objects s1 !! o = Some ob) by done.
  destruct (KernelApcPending th1 && (WaitIrql th1 <? APC_LEVEL)) eqn:Hapc.
  { pose proof Hapc as [Hp Hq%Z.ltb_lt]%andb_true_iff.
    destruct (pass_apc s1 o th1 r um al Timeout H1 Wi Hth1 Hp Hq) as (s' & -> & H' & _).
    eexists _, s'. split; [done|]. split; [done|]. by exists th1. }
  pose proof (dispatcher_signal _ _ _ H1 Ho1) as Hsg.
  destruct (ready_for (CurrentThread s1) ob) eqn:Hr.
  { destruct (decide (SignalState ob = MINLONG)) as [Hmin|Hmin].
    - destruct (pass_limit s1 o ob th1 r um al Timeout H1 Wi Hth1 Ho1 Hqo Hapc Hr Hmin) as (s' & -> & H' & _).
      eexists _, s'. split; [done|]. split; [done|]. split; [done|]. exists o, ob.
      split; [done|]. by apply ready_at_limit.
    - pose proof (ready_limit _ _ Hsg Hr Hmin) as Hgt.
      destruct (pass_satisfied s1 o ob th1 r um al Timeout H1 Wi Hth1 Ho1 Hqo Hapc Hr Hgt)
        as (s' & -> & H' & _). by eexists _, s'. }
  destruct (TestForAlertPending al um (th1 <| WaitStatus := 0 |>)).2 as [status|] eqn:Hal.
  { destruct (pass_alerted s1 o ob th1 r um al Timeout H1 Wi Hth1 Ho1 Hapc Hr status Hal)
      as (s' & -> & H' & _). by eexists _, s'. }
  destruct Timeout as [iv|].
  2:{ destruct (pass_blocked s1 o ob th1 r um al None H1 Wi Hth1 Ho1 Hqo Hnt Wr Hapc Hr Hal eq_refl
        (Wq _ Hth1)) as (s' & -> & H' & Hbl).
      eexists _, s'. split; [done|]. split; [done|].
      destruct (blocked_waits s1 _ _ _ _ (λ _, True) Hbl eq_refl) as [? ?]. done. }
  destruct (decide (iv = 0)) as [->|Hiv].
  { destruct (pass_polled s1 o ob th1 r um al (Some 0) H1 Wi Hth1 Ho1 Hapc Hr Hal eq_refl)
      as (s' & -> & H' & _). by eexists _, s'. }
  destruct Wt as [?|(Hahead & Htab & [tob Htob])]; [done|].
  destruct (pass_timed s1 o ob th1 r um al (Some iv) H1 Wi Hth1 Ho1 Hqo Hnt Wr Hapc Hr iv tob Hal
              eq_refl Hiv (Wq _ Hth1) Hahead Htab Htob) as (s' & sb & -> & H' & Hbl & ts & tb & Hsb).
  { intros Heq. by specialize (Hsw Heq). }
  eexists _, s'. split; [done|]. split; [done|].
  destruct (blocked_waits s1 _ _ _ _ (λ _, True) Hbl) as [? ?]; [by rewrite Hsb|]. done.
Qed.

(** ** Exact results of the calls *)

(** What [begin_wait] changes in the thread matters for nothing but the lock. *)
Definition begun (th th1 : KTHREAD) (irql : Z) : Prop :=
  th1 = th <| WaitNext := false |> ∨ th1 = th <| WaitIrql := irql |>.

(** The state after [begin_wait], exactly. *)
Lemma begin_wait_exact s th :
  dispatcher_ok s → CurrentThread s ≠ IdleThread s → Threads s !! CurrentThread s = Some th →
  ∃ th1 q, begun th th1 (Irql s) ∧
    let s1 := put_thread (CurrentThread s) th1 (s <| Irql := q |>) in
    begin_wait s = Some s1 ∧ dispatcher_ok s1.
Proof.
  intros Hok Hni Hth. unfold begin_wait. rewrite Hth. cbn [mbind option_bind]. destruct (WaitNext th).
  - exists (th <| WaitNext := false |>), (Irql s). split; [by left|].
    assert (s <| Irql := Irql s |> = s) as -> by (by destruct s). split; [done|].
    apply (dispatcher_put_current _ s th); [done..|by split|done].
  - exists (th <| WaitIrql := Irql s |>), DISPATCH_LEVEL. split; [by right|]. split; [done|].
    apply (dispatcher_put_current _ (lock s) th); [by apply lock_ok|done|by split|done].
Qed.

Lemma begun_alert th th1 q al um :
  begun th th1 q →
  (TestForAlertPending al um (th1 <| WaitStatus := 0 |>)).2 = (TestForAlertPending al um th).2.
Proof.
  intros Hb. unfold TestForAlertPending.
  destruct Hb as [-> | ->]; destruct al, um; simpl;
    destruct (AlertedUser th), (AlertedKernel th), (UserApcQueued th), (UserApcPending th); done.
Qed.

Lemma begun_apc th th1 q i :
  begun th th1 q → KernelApcPending th = false → KernelApcPending th1 && i = false.
Proof. by intros [-> | ->]; simpl; intros ->. Qed.

Lemma begun_acquirer th th1 q o ob :
  begun th th1 q →
  let a := acquirer o ob (th1 <| WaitStatus := 0 |>) in
  let a' := acquirer o ob (th <| WaitStatus := 0 |>) in
  MutantList a = MutantList a' ∧ KernelApcDisable a = KernelApcDisable a' ∧
  WaitStatus a = WaitStatus a'.
Proof.
  intros Hb. unfold acquirer. destruct Hb as [-> | ->];
    destruct (Body ob) as [ | |[w|] a d| | | | | ]; done.
Qed.

(** The single wait runs its loop body in a state that differs from the one of the
    call in the interrupt level and the thread's part in the lock. *)
Record entered (s s1 : KSTATE) (th th1 : KTHREAD) : Prop := {
  en_ok : dispatcher_ok s1;
  en_current : CurrentThread s1 = CurrentThread s;
  en_running : CurrentThread s1 ≠ IdleThread s1;
  en_thread : Threads s1 !! CurrentThread s1 = Some th1;
  en_begun : begun th th1 (Irql s);
  en_objects : Objects s1 = Objects s;
  en_others t : t ≠ CurrentThread s → Threads s1 !! t = Threads s !! t;
  en_reasons : KeWaitReason s1 = KeWaitReason s
}.

Lemma wait_entered s th :
  dispatcher_ok s → CurrentThread s ≠ IdleThread s → Threads s !! CurrentThread s = Some th →
  ∃ s1 th1, begin_wait s = Some s1 ∧ entered s s1 th th1.
Proof.
  intros Hok Hni Hth. destruct (begin_wait_exact s th Hok Hni Hth) as (th1 & q & Hb & Hbw & H1).
  eexists _, th1. split; [exact Hbw|]. split; try done.
  - apply lookup_insert_eq.
  - intros t Hne. by apply lookup_insert_ne.
Qed.
