(* ===== verification/KeWake.v ===== *)
(** * Exact effect of waits for several objects, and of signals

    A wait any takes from the first ready object alone; a wait all takes from all
    objects or from none. *)

From stdpp Require Import base list numbers option gmap sets.
From S2P Require Import Prelude KeState KeSched KeWait KeInv KeReady KeFrame KeTest.
From S2P Require Import KeObjects KeBlock KeOps KeObjOk KeBlockOk KeMultiOk.

(** The objects after thread [t] has acquired those of [os]. *)
Definition consumed_all (t : tid) (os : list oid) (s : KSTATE) (x : oid) : option KOBJECT :=
  (λ ob, if decide (x ∈ os) then consumed t ob else ob) <$> Objects s !! x.

Lemma satisfy_blocks_exact t bs : ∀ th s s',
  object_inv s → Threads s !! t = Some th → NoDup (WaitObject <$> bs) →
  (∀ b, b ∈ bs → ∃ ob, Objects s !! WaitObject b = Some ob ∧ grantable t ob) →
  satisfy_blocks t bs s = Some s' →
  ∀ x, Objects s' !! x = consumed_all t (WaitObject <$> bs) s x.
Proof.
  unfold consumed_all.
  induction bs as [|b bs IH]; intros th s s' Hi Hth Hnd Hgr Hs x; simpl in *.
  { apply (inj Some) in Hs as <-. by destruct (Objects s !! x). }
  apply NoDup_cons in Hnd as [Hnin Hnd].
  destruct (Hgr b) as (ob & Ho & Hg); [apply elem_of_cons; by left|].
  destruct (KiWaitSatisfyAny_ok t th _ ob s Hi Hth Ho Hg) as (s1 & Hs1 & Hgd).
  pose proof (KiWaitSatisfyAny_exact t th _ ob s (oi_signal _ Hi _ _ Ho) Hth Ho Hg) as Hex.
  rewrite Hs1 in Hs, Hex. apply (inj Some) in Hex. cbn [mbind option_bind] in Hs.
  assert (Hth1 : Threads s1 !! t = Some (acquirer (WaitObject b) ob th))
    by (rewrite Hex; apply lookup_insert_eq).
  assert (Hgr1 : ∀ b', b' ∈ bs → ∃ ob', Objects s1 !! WaitObject b' = Some ob' ∧ grantable t ob').
  { intros b' Hb'. destruct (Hgr b') as (ob' & Ho' & Hg'); [by right|].
    exists ob'. split; [|done]. rewrite (gr_others _ _ _ _ Hgd); [done|]. intros Heq.
    apply Hnin. rewrite <- Heq. apply list_elem_of_fmap. eauto. }
  rewrite (IH _ s1 s' (gr_object _ _ _ _ Hgd) Hth1 Hnd Hgr1 Hs).
  assert (HO : Objects s1 !! x = if decide (x = WaitObject b) then Some (consumed t ob) else Objects s !! x)
    by (rewrite Hex; apply Objects_put).
  rewrite HO. destruct (decide (x = WaitObject b)) as [->|Hx].
  - rewrite Ho. simpl. rewrite decide_False by done. by rewrite decide_True by (by left).
  - destruct (Objects s !! x); [|done]. simpl. f_equal. apply decide_ext.
    rewrite elem_of_cons. tauto.
Qed.

(** ** Wait all *)

Definition all_ready (s : KSTATE) (t : tid) (os : list oid) : bool :=
  forallb (λ o, match Objects s !! o with Some ob => ready_for t ob | None => false end) os.

(** What a wait all for [os] does when it need not be alerted: everything is taken,
    or nothing. *)
Definition all_or_nothing (s : KSTATE) (os : list oid) (res : wait_result) (s' : KSTATE) : Prop :=
  if all_ready s (CurrentThread s) os
  then (∃ status, res = WaitDone (Returned status)) ∧
    ∀ x, x ≠ KiSwapEvent → Objects s' !! x = consumed_all (CurrentThread s) os s x
  else res = WaitBlocked ∧
    ∀ x, (λ ob, (SignalState ob, Body ob)) <$> Objects s' !! x =
         (λ ob, (SignalState ob, Body ob)) <$> Objects s !! x.

Lemma all_ready_true s t os o ob :
  all_ready s t os = true → o ∈ os → Objects s !! o = Some ob → ready_for t ob = true.
Proof.
  unfold all_ready. intros H%Is_true_true%forallb_True Hin Ho.
  rewrite Forall_forall in H. specialize (H o Hin). rewrite Ho in H. by apply Is_true_true in H.
Qed.

Lemma all_ready_false s t os :
  wait_objects s os → all_ready s t os = false →
  ∃ o ob, o ∈ os ∧ Objects s !! o = Some ob ∧ ready_for t ob = false.
Proof.
  induction os as [|o os IH]; intros Hwo H; [done|]. simpl in H.
  destruct (wo_objects _ _ Hwo o) as (ob & Ho & _); [by left|]. rewrite Ho in H.
  destruct (ready_for t ob) eqn:Hr.
  - destruct (IH (wait_objects_cons _ _ _ Hwo) H) as (x & obx & ? & ?). exists x, obx. split; [by right|done].
  - exists o, ob. split; [by left|done].
Qed.

Section wait_all.
Variables (s : KSTATE) (th : KTHREAD) (os : list oid) (r : Z) (um al : bool).
Hypothesis Hok : dispatcher_ok s.
Hypothesis Hth : Threads s !! CurrentThread s = Some th.
Hypothesis Hwc : wait_call s r None.
Hypothesis Hwo : wait_objects s os.
Hypothesis Hne : os ≠ [].
Hypothesis Hlen : (length os ≤ MAXIMUM_WAIT_OBJECTS)%nat.
Hypothesis Hnd : NoDup os.
Hypothesis Hlim : ∀ o ob, o ∈ os → Objects s !! o = Some ob → ¬ at_limit (CurrentThread s) ob.

Lemma wait_all_scan_exact :
  wait_all_scan (CurrentThread s) true os s = Some (Some (all_ready s (CurrentThread s) os)).
Proof.
  destruct (wait_all_scan_ok s (CurrentThread s) os true Hwo)
    as [[_ (o & ob & Hin & Ho & Hl)]|(b & -> & _ & Hb)]; [by destruct (Hlim o ob Hin Ho)|].
  do 2 f_equal. destruct b, (all_ready s (CurrentThread s) os) eqn:Ha; try done.
  - destruct (all_ready_false _ _ _ Hwo Ha) as (o & ob & Hin & Ho & Hr).
    destruct Hb as [_ Hb]. by rewrite (Hb o ob Hin Ho) in Hr.
  - destruct Hb as [|(o & ob & Hin & Ho & Hr)]; [done|].
    by rewrite (all_ready_true _ _ _ _ _ Ha Hin Ho) in Hr.
Qed.

(** All objects are taken. *)
Lemma wait_all_taken :
  all_ready s (CurrentThread s) os = true →
  let blocks := wait_blocks WaitAll os in
  let s1 := put_thread (CurrentThread s) (th <| WaitBlockList := blocks |>) s in
  ∃ s2 th2, KiWaitSatisfy (CurrentThread s) (pred (length blocks)) s1 = Some s2 ∧ dispatcher_ok s2 ∧
    CurrentThread s2 = CurrentThread s ∧ IdleThread s2 = IdleThread s ∧
    Threads s2 !! CurrentThread s = Some th2 ∧
    ∀ x, Objects s2 !! x = consumed_all (CurrentThread s) os s x.
Proof.
  intros Ha blocks s1.
  assert (Hready : ∀ o, o ∈ os → ∃ ob, Objects s !! o = Some ob ∧
    ready_for (CurrentThread s) ob = true ∧ MINLONG < SignalState ob).
  { intros o Hin. destruct (wo_objects _ _ Hwo o Hin) as (ob & Ho & _). exists ob.
    pose proof (all_ready_true _ _ _ _ _ Ha Hin Ho) as Hr. split; [done|]. split; [done|].
    apply (ready_limit (CurrentThread s)); [by apply (dispatcher_signal s o)|done|].
    intros Hmin. apply (Hlim o ob Hin Ho). by apply ready_at_limit. }
  destruct (wait_all_now s th os Hok Hth Hne Hnd Hready) as (s2 & Hs2 & H2 & Hsf).
  destruct (sf_thread _ _ _ Hsf) as (th1 & a & w & m & Hth1 & Hth2).
  pose proof (sf_rest _ _ _ Hsf) as Hrest. eexists s2, _.
  split; [exact Hs2|]. split; [done|]. split; [by rewrite Hrest|]. split; [by rewrite Hrest|].
  split; [exact Hth2|].
  unfold KiWaitSatisfy in Hs2. rewrite Hth1 in Hs2. cbn [mbind option_bind] in Hs2.
  assert (Heq : WaitBlockList th1 = blocks).
  { unfold s1 in Hth1. rewrite Threads_put, decide_True in Hth1 by done.
    by apply (inj Some) in Hth1 as <-. }
  fold blocks in Hs2. rewrite Heq in Hs2. destruct (blocks !! pred (length blocks)) as [b|] eqn:Hb; [|done].
  cbn [mbind option_bind] in Hs2. apply elem_of_lookup, wait_blocks_elem in Hb as (_ & Hty & _).
  rewrite Hty, decide_False in Hs2 by done. intros x.
  match type of Hs2 with satisfy_blocks _ ?l _ = _ =>
    rewrite (satisfy_blocks_exact (CurrentThread s) l th1 s1 s2); [|..|exact Hs2] end.
  - unfold consumed_all. change (Objects s1) with (Objects s). destruct (Objects s !! x); [|done].
    simpl. f_equal. apply decide_ext. rewrite ring_perm. unfold blocks. by rewrite wait_blocks_objects.
  - apply (inv_object _ _ _ (dk_inv _ (put_blocks_ok s th blocks Hok Hth))).
  - done.
  - rewrite ring_perm. unfold blocks. by rewrite wait_blocks_objects.
  - intros b'. rewrite ring_perm. intros (Hin & _)%wait_blocks_elem.
    destruct (Hready _ Hin) as (ob & Ho & Hr & Hmin). exists ob. split; [done|].
    by apply ready_for_grantable.
Qed.

(** Nothing is taken: the thread waits for all objects. *)
Lemma wait_all_blocked :
  all_ready s (CurrentThread s) os = false → (TestForAlertPending al um th).2 = None →
  ∃ s', wait_multiple_block r um al None (wait_blocks WaitAll os) s = Some (WaitBlocked, s') ∧
    dispatcher_ok s' ∧
    ∀ x, (λ ob, (SignalState ob, Body ob)) <$> Objects s' !! x =
         (λ ob, (SignalState ob, Body ob)) <$> Objects s !! x.
Proof.
  intros Ha Hal. destruct Hwc as [Hni Hq Hr _]. unfold wait_multiple_block. rewrite Hth.
  cbn [mbind option_bind]. pose proof (alert_passive al um th) as Hpv.
  destruct (TestForAlertPending al um th) as [th1 alert]. simpl in Hpv, Hal. subst alert.
  set (s1 := put_thread (CurrentThread s) th1 s).
  assert (H1 : dispatcher_ok s1) by (by apply (dispatcher_put_current _ s th)).
  assert (Hth1 : Threads s1 !! CurrentThread s1 = Some th1) by apply lookup_insert_eq.
  assert (Hq1 : Queue th1 = None) by (rewrite (pv_queue _ _ Hpv); eauto).
  destruct (all_ready_false _ _ _ Hwo Ha) as (o & ob & Hin & Ho & Hnr).
  assert (Hbr : blocks_ready s1 (wait_blocks WaitAll os)).
  { apply (wait_blocks_ready s1 (CurrentThread s)); [by destruct Hwo; split|done..|].
    by exists o, ob. }
  destruct (block_now s1 th1 _ r um al H1 Hth1 Hni Hq1 Hbr Hr) as (s' & Hb & H' & [_ Bo _ _ _]).
  exists s'. split; [exact Hb|]. split; [done|]. intros x. rewrite Bo.
  change (Objects s1) with (Objects s). by destruct (Objects s !! x).
Qed.

End wait_all.

Lemma KeWaitForMultipleObjects_all s th os r um al arr :
  dispatcher_ok s → Threads s !! CurrentThread s = Some th → KernelApcPending th = false →
  wait_call s r None → wait_objects s os → os ≠ [] →
  (length os ≤ if arr : bool then MAXIMUM_WAIT_OBJECTS else THREAD_WAIT_OBJECTS)%nat → NoDup os →
  (∀ o ob, o ∈ os → Objects s !! o = Some ob → ¬ at_limit (CurrentThread s) ob) →
  (TestForAlertPending al um th).2 = None →
  ∃ res s', KeWaitForMultipleObjects os WaitAll r um al None arr s = Some (res, s') ∧
    dispatcher_ok s' ∧ all_or_nothing s os res s'.
Proof.
  intros Hok Hth Hapc Hwc Hwo Hne Hlen Hnd Hlim Hal. unfold KeWaitForMultipleObjects.
  destruct (begin_wait_exact s th Hok (wc_idle _ _ _ Hwc) Hth) as (th1 & q & Hb & -> & H1).
  cbn [mbind option_bind]. rewrite bool_decide_false by lia.
  assert (Hmax : (length os ≤ MAXIMUM_WAIT_OBJECTS)%nat)
    by (unfold MAXIMUM_WAIT_OBJECTS, THREAD_WAIT_OBJECTS in *; destruct arr; lia).
  assert (Hpv : passive th th1) by (by destruct Hb as [-> | ->]).
  pose proof (begin_wait_call s r None th th1 q Hwc Hth Hpv) as [Wi Wq Wr Wt].
  set (s1 := put_thread (CurrentThread s) th1 (s <| Irql := q |>)) in *.
  set (th0 := th1 <| WaitStatus := 0 |>). set (s0 := put_thread (CurrentThread s) th0 s1).
  assert (Hth1 : Threads s1 !! CurrentThread s1 = Some th1) by apply lookup_insert_eq.
  assert (Hth0 : Threads s0 !! CurrentThread s0 = Some th0) by apply lookup_insert_eq.
  assert (H0 : dispatcher_ok s0) by (apply (dispatcher_put_current _ s1 th1); [done..|by split|done]).
  assert (Hwc0 : wait_call s0 r None).
  { split; [done| |done|done]. intros th' Hth'. rewrite Hth0 in Hth'. apply (inj Some) in Hth' as <-.
    apply (Wq _ Hth1). }
  assert (Hwo0 : wait_objects s0 os) by (by destruct Hwo; split).
  unfold wait_multiple_pass. rewrite Hth1. cbn [mbind option_bind].
  rewrite (begun_apc _ _ _ _ Hb Hapc). cbv zeta. change (CurrentThread s1) with (CurrentThread s).
  fold th0 s0.
  pose proof (wait_all_scan_exact s0 os Hwo0 Hlim) as Hscan.
  change (CurrentThread s0) with (CurrentThread s) in *. rewrite Hscan. cbn [mbind option_bind].
  unfold all_or_nothing. change (all_ready s) with (all_ready s0).
  destruct (all_ready s0 (CurrentThread s) os) eqn:Ha.
  - rewrite Hth0. cbn [mbind option_bind].
    destruct (wait_all_taken s0 th0 os H0 Hth0 Hwo0 Hne Hnd Hlim Ha)
      as (s2 & th2 & Hs2 & H2 & C2 & I2 & Hth2 & Hobj).
    change (CurrentThread s0) with (CurrentThread s) in *. rewrite Hs2. cbn [mbind option_bind].
    rewrite Hth2. cbn [mbind option_bind].
    destruct (finish_wait_ok s2 (Returned (WaitStatus th2)) H2) as (s' & -> & H' & [_ Ro _]);
      [by rewrite C2, I2|].
    eexists _, s'. split; [done|]. split; [done|]. split; [by eexists|].
    intros x Hx. rewrite Ro by done. apply Hobj.
  - destruct (wait_all_blocked s0 th0 os r um al H0 Hth0 Hwc0 Hwo0 Hne Hmax Hnd Ha)
      as (s' & -> & H' & Hobj).
    { unfold th0. by rewrite (begun_alert _ _ _ _ _ Hb). }
    eexists _, s'. split; [done|]. split; [done|]. split; [done|]. exact Hobj.
Qed.

(** ** Wait any *)

Lemma first_ready_unique s t os i o ob i' o' ob' :
  first_ready s t os i o ob → first_ready s t os i' o' ob' → i = i' ∧ o = o' ∧ ob = ob'.
Proof.
  intros (Hi & Ho & Hr & Hb) (Hi' & Ho' & Hr' & Hb').
  assert (i = i') as ->; [|split; [done|split; congruence]].
  destruct (decide (i < i')%nat) as [Hlt|]; [by rewrite (Hb' _ _ _ Hlt Hi Ho) in Hr|].
  destruct (decide (i' < i)%nat) as [Hlt|]; [by rewrite (Hb _ _ _ Hlt Hi' Ho') in Hr'|lia].
Qed.

Lemma KeWaitForMultipleObjects_any s th os i o ob r um al Timeout arr :
  dispatcher_ok s → CurrentThread s ≠ IdleThread s → Threads s !! CurrentThread s = Some th →
  KernelApcPending th = false → wait_objects s os →
  (length os ≤ if arr : bool then MAXIMUM_WAIT_OBJECTS else THREAD_WAIT_OBJECTS)%nat →
  first_ready s (CurrentThread s) os i o ob → SignalState ob ≠ MINLONG →
  ∃ s', KeWaitForMultipleObjects os WaitAny r um al Timeout arr s =
      Some (WaitDone (Returned (Z.lor (Z.of_nat i)
        (WaitStatus (acquirer o ob (th <| WaitStatus := 0 |>))))), s') ∧ dispatcher_ok s' ∧
    ∀ x, x ≠ KiSwapEvent →
      Objects s' !! x = if decide (x = o) then Some (consumed (CurrentThread s) ob) else Objects s !! x.
Proof.
  intros Hok Hni Hth Hapc Hwo Hlen Hf Hmin. unfold KeWaitForMultipleObjects.
  destruct (begin_wait_exact s th Hok Hni Hth) as (th1 & q & Hb & -> & H1).
  cbn [mbind option_bind]. rewrite bool_decide_false by lia.
  set (s1 := put_thread (CurrentThread s) th1 (s <| Irql := q |>)) in *.
  set (th0 := th1 <| WaitStatus := 0 |>). set (s0 := put_thread (CurrentThread s) th0 s1).
  assert (Hth1 : Threads s1 !! CurrentThread s1 = Some th1) by apply lookup_insert_eq.
  assert (Hth0 : Threads s0 !! CurrentThread s0 = Some th0) by apply lookup_insert_eq.
  assert (H0 : dispatcher_ok s0) by (apply (dispatcher_put_current _ s1 th1); [done..|by split|done]).
  assert (Hwo0 : wait_objects s0 os) by (by destruct Hwo; split).
  unfold wait_multiple_pass. rewrite Hth1. cbn [mbind option_bind].
  rewrite (begun_apc _ _ _ _ Hb Hapc). cbv zeta. change (CurrentThread s1) with (CurrentThread s).
  fold th0 s0. pose proof (wait_any_scan_ok s0 th0 os 0 H0 Hni Hth0 eq_refl Hwo0) as Hscan.
  change (CurrentThread s0) with (CurrentThread s) in Hscan.
  destruct Hscan as [[_ Hnone]|(res & s' & -> & [H' (i' & o' & ob' & Hf' & Hres)])].
  { destruct Hf as (Hi & Ho & Hr & _). rewrite (Hnone o ob) in Hr; [done|by eapply elem_of_lookup|done]. }
  destruct (first_ready_unique _ _ _ _ _ _ _ _ _ Hf Hf') as (<- & <- & <-).
  rewrite decide_False in Hres by done. destruct Hres as [-> [_ Ro _]]. exists s'.
  destruct (begun_acquirer th th1 _ o ob Hb) as (_ & _ & Hws).
  split; [|split; [done|]].
  - cbn [mbind option_bind]. rewrite Z.add_0_l. unfold th0. by rewrite Hws.
  - intros x Hx. rewrite Ro by done. exact (Objects_put o (consumed (CurrentThread s) ob) s0 x).
Qed.

(** ** What signaling an object does, exactly

    The waiter a synchronization event, a semaphore or a mutant wakes is the first
    of its wait list, and the others wait on. *)

(** The first waiter [t] of object [o] takes it: the object becomes [ob'], the
    thread is woken, and no other thread stops waiting
    but from the swap event. *)
Record handed (s : KSTATE) (o : oid) (ob' : KOBJECT) (t : tid) (s' : KSTATE) : Prop := {
  hd_object : Objects s' !! o =
    Some (ob' <| WaitListHead := filter (λ e, e.1 ≠ t) (WaitListHead ob') |>);
  hd_thread : ∃ th th', Threads s !! t = Some th ∧ Threads s' !! t = Some th' ∧
    State th' ≠ Waiting;
  hd_others x th : x ≠ t → Threads s !! x = Some th → State th = Waiting →
    ¬ on_swap_event th → Threads s' !! x = Some th;
  hd_current : CurrentThread s' = CurrentThread s
}.

(** One turn of the loop of [KiWaitTest] that leaves the object not signaled. *)
Lemma KiWaitTest_first s o ob t i b l inc :
  signaled_ok o s → o ≠ KiSwapEvent → Objects s !! o = Some ob →
  WaitListHead ob = (t, i) :: l → 0 < SignalState ob →
  (∃ th, Threads s !! t = Some th ∧ WaitBlockList th !! i = Some b) → WaitType b = WaitAny →
  SignalState (consumed t ob) ≤ 0 →
  ∃ s', KiWaitTest o inc s = Some s' ∧ handed s o (consumed t ob) t s'.
Proof.
  intros Hsg Hsw Ho Hl Hpos (th & Hth & Hb) Hty Hcon.
  pose proof (dk_inv _ Hsg) as Hi. pose proof (inv_wait _ _ _ Hi) as Hwi.
  destruct (swap_depth_ok _ _ _ Hwi) as [Hspec _].
  assert (Hwt : waits unlocked s t (WaitBlockList th) ∧ State th = Waiting).
  { assert ((t, i) ∈ WaitListHead ob) as Hin by (rewrite Hl; by left).
    apply (wi_list _ _ _ Hwi _ _ _ _ Ho) in Hin as (bs & b' & [HE Hv] & _).
    rewrite (wait_view_Some _ _ _ Hth) in Hv. injection Hv as Hst <-. split; [|done].
    split; [done|]. by rewrite (wait_view_Some _ _ _ Hth), Hst. }
  destruct Hwt as [Hwt Hst].
  pose proof (oi_signal _ (inv_object _ _ _ Hi) _ _ Ho) as Hsok.
  assert (Hg : grantable t ob) by (by left).
  destruct (KiWaitSatisfyAny_ok t th o ob s (inv_object _ _ _ Hi) Hth Ho Hg) as (s1 & Hs1 & Hgr).
  pose proof (KiWaitSatisfyAny_exact t th o ob s Hsok Hth Ho Hg) as Hex. rewrite Hs1 in Hex.
  apply (inj Some) in Hex. destruct Hgr as [Hsf Hoi1 _ _ _].
  pose proof (satisfied_inv unlocked _ t s s1 Hsf Hoi1 Hi) as Hi1.
  set (th1 := acquirer o ob th) in *.
  assert (Hth1 : Threads s1 !! t = Some th1) by (rewrite Hex; apply lookup_insert_eq).
  assert (Hst1 : State th1 = Waiting).
  { unfold th1, acquirer. by destruct (Body ob) as [ | |[]| | | | | ]. }
  destruct (unwait_thread_ok _ _ Hspec unlocked _ s1 t th1 (WaitKey b) inc Hi1 Hth1 Hst1)
    as (s2 & Hs2 & Hi2 & Hwk).
  { by intros []. }
  { left. rewrite (satisfied_waiters t s s1 Hsf). done. }
  assert (Ho1 : Objects s1 !! o = Some (consumed t ob)).
  { rewrite Hex. change (Objects (put_object o (consumed t ob) s) !! o = Some (consumed t ob)).
    by rewrite Objects_put, decide_True. }
  pose proof (wk_objects _ _ _ _ _ Hwk o Hsw) as Ho2. rewrite Ho1 in Ho2. simpl in Ho2.
  exists s2. split.
  - unfold KiWaitTest, wait_test. rewrite Ho. cbn [mbind option_bind]. rewrite Hl.
    cbn [length wait_test_loop]. rewrite Ho. cbn [mbind option_bind Flink]. rewrite Hl.
    cbn [head mbind option_bind]. rewrite (proj2 (Z.leb_gt _ _) Hpos), Hth. cbn [mbind option_bind].
    rewrite Hb. cbn [mbind option_bind].
    assert (can_satisfy t i s = Some true) as ->.
    { unfold can_satisfy. rewrite Hth. cbn [mbind option_bind]. rewrite Hb. cbn [mbind option_bind].
      by rewrite decide_True. }
    cbn [mbind option_bind]. rewrite decide_True, Hs1 by done. cbn [mbind option_bind].
    rewrite Hs2. cbn [mbind option_bind]. rewrite Ho2. cbn [mbind option_bind].
    destruct (head _) as [[t' i']|]; [|done].
    match goal with |- context [SignalState ?x <=? 0] =>
      change (SignalState x) with (SignalState (consumed t ob)) end.
    by rewrite (proj2 (Z.leb_le _ _) Hcon).
  - split.
    + exact Ho2.
    + destruct (wk_thread _ _ _ _ _ Hwk) as (th' & ? & _ & ? & _). by exists th, th'.
    + intros x thx Hne Hx Hw Hon.
      assert (Hx1 : Threads s1 !! x = Some thx) by (by rewrite (sf_others _ _ _ Hsf)).
      destruct (wk_others _ _ _ _ _ Hwk x thx Hne Hx1) as (thx' & -> & _ & Heq & _).
      by rewrite Heq.
    + rewrite (wk_current _ _ _ _ _ Hwk). rewrite Hex. done.
Qed.

(** The effect on a whole operation: [t], the first waiter of [o], does not wait any
    more; the other threads that wait go on doing so, those for the swap event
    apart; and [o] is left as [ob'] without the blocks of [t]. *)
Record woke_first (s : KSTATE) (o : oid) (ob' : KOBJECT) (t : tid) (s' : KSTATE) : Prop := {
  wf_object : Objects s' !! o =
    Some (ob' <| WaitListHead := filter (λ e, e.1 ≠ t) (WaitListHead ob') |>);
  wf_thread : ∃ th', Threads s' !! t = Some th' ∧ State th' ≠ Waiting;
  wf_others x th : x ≠ t → Threads s !! x = Some th → State th = Waiting →
    ¬ on_swap_event th → Threads s' !! x = Some th
}.

Lemma handed_woke s o ob' t s' : handed s o ob' t s' → woke_first s o ob' t s'.
Proof. intros [? (? & th' & ? & ? & ?) ? ?]. split; eauto. Qed.

Lemma woke_released s o ob' t s1 s' :
  o ≠ KiSwapEvent → woke_first s o ob' t s1 → released s1 s' → woke_first s o ob' t s'.
Proof.
  intros Hne [Ho (th & Hth & Hst) Hx] [_ Ro Rt]. split.
  - by rewrite Ro.
  - destruct (Rt _ _ Hth) as (th' & ? & _ & _ & _ & _ & _ & _ & Hk). exists th'.
    split; [done|]. by apply Hk.
  - intros x thx Hne' Hthx Hw Hon. specialize (Hx x thx Hne' Hthx Hw Hon).
    destruct (Rt _ _ Hx) as (th' & -> & _ & _ & _ & _ & _ & Hk & _). by rewrite Hk.
Qed.

(** A change of the current thread, which does not wait, before or after. *)
Lemma woke_put_after s o ob' t s1 c th :
  woke_first s o ob' t s1 → State th ≠ Waiting →
  (∀ thc, Threads s !! c = Some thc → State thc ≠ Waiting) →
  woke_first s o ob' t (put_thread c th s1).
Proof.
  intros [Ho (th' & Hth & Hst) Hx] Hw Hc. split; [done| |].
  - rewrite Threads_put. destruct (decide (t = c)); eauto.
  - intros x thx Hne Hthx Hwx Hon. rewrite Threads_put. destruct (decide (x = c)) as [->|]; [|auto].
    by destruct (Hc _ Hthx).
Qed.

Lemma woke_before s s0 o ob' t s1 :
  (∀ x th, Threads s !! x = Some th → State th = Waiting → Threads s0 !! x = Some th) →
  woke_first s0 o ob' t s1 → woke_first s o ob' t s1.
Proof. intros Hs [? ? Hx]. split; [done..|]. intros x th Hne H Hw Hon. apply Hx; auto. Qed.

Lemma current_not_waiting s th :
  dispatcher_ok s → Threads s !! CurrentThread s = Some th → State th ≠ Waiting.
Proof. intros Hok Hth. destruct (dk_current _ Hok) as (th' & ? & ?). congruence. Qed.

(** The first block of a wait list is a wait any. *)
Definition first_waiter (s : KSTATE) (ob : KOBJECT) (t : tid) : Prop :=
  ∃ i l th b, WaitListHead ob = (t, i) :: l ∧ Threads s !! t = Some th ∧
    WaitBlockList th !! i = Some b ∧ WaitType b = WaitAny.

Lemma test_first s o ob t inc :
  signaled_ok o s → o ≠ KiSwapEvent → Objects s !! o = Some ob → 0 < SignalState ob →
  first_waiter s ob t → SignalState (consumed t ob) ≤ 0 →
  ∃ s', KiWaitTest o inc s = Some s' ∧ dispatcher_ok s' ∧ woke_first s o (consumed t ob) t s' ∧
    CurrentThread s' = CurrentThread s ∧ IdleThread s' = IdleThread s.
Proof.
  intros Hsg Hsw Ho Hpos (i & l & th & b & Hl & Hth & Hb & Hany) Hcon.
  destruct (KiWaitTest_first s o ob t i b l inc Hsg Hsw Ho Hl Hpos) as (s' & Hs' & Hh); eauto.
  destruct (signaled_test s o ob inc Hsg Ho) as (s2 & Hs2 & H2 & Hp).
  rewrite Hs' in Hs2. apply (inj Some) in Hs2 as <-. exists s'. split; [done|]. split; [done|].
  split; [by apply handed_woke|]. split; [apply (pg_current _ _ Hp)|apply (pg_idle _ _ Hp)].
Qed.

Lemma KeSetEvent_first s o ob t inc Wait :
  dispatcher_ok s → o ≠ KiSwapEvent → Objects s !! o = Some ob →
  Body ob = SynchronizationEvent → SignalState ob = 0 → first_waiter s ob t →
  ∃ s', KeSetEvent o inc Wait s = Some (Returned 0, s') ∧ woke_first s o ob t s'.
Proof.
  intros Hok Hsw Ho Hb Hz Hf. pose proof Hf as (i & l & _ & _ & Hl & _).
  set (ob1 := ob <| SignalState := 1 |>). set (s1 := put_object o ob1 (lock s)).
  assert (Hsg1 : signaled_ok o s1).
  { apply (signaled_put (lock s) o ob); [by apply lock_ok|done..|]. unfold signal_ok. simpl. rewrite Hb. lia. }
  assert (Hcon : consumed t ob1 = ob).
  { unfold consumed, ob1. simpl. rewrite Hb. destruct ob; simpl in *. by subst. }
  destruct (test_first s1 o ob1 t inc Hsg1 Hsw) as (s2 & Hs2 & H2 & Hw2 & Hc2 & Hid2); try done.
  { unfold s1. by rewrite Objects_put, decide_True. }
  { rewrite Hcon. lia. }
  rewrite Hcon in Hw2. apply (woke_before s s1) in Hw2; [|done].
  change (CurrentThread s1) with (CurrentThread s) in Hc2. change (IdleThread s1) with (IdleThread s) in Hid2.
  unfold KeSetEvent, KiLockDispatcherDatabase. fold (lock s).
  change (Objects (lock s)) with (Objects s). rewrite Ho. cbn [mbind option_bind]. cbv zeta.
  rewrite Hz. fold ob1 s1. change (0 =? 0) with true. cbv iota. rewrite decide_False by (by rewrite Hl).
  rewrite Hs2. cbn [mbind option_bind].
  assert (H3 : ∃ s3, (if Wait then set_wait_next (CurrentThread s2) Wait s2 else Some s2) = Some s3 ∧
    dispatcher_ok s3 ∧ woke_first s o ob t s3 ∧ CurrentThread s3 = CurrentThread s2 ∧
    IdleThread s3 = IdleThread s2).
  { destruct Wait; [|by exists s2].
    destruct (set_wait_next_ok s2 true H2) as (thc & Hthc & -> & ?). eexists. split; [done|].
    split; [done|]. split; [|done]. apply woke_put_after; [done|exact (current_not_waiting s2 thc H2 Hthc)|].
    rewrite Hc2. intros ?. by apply current_not_waiting. }
  destruct H3 as (s3 & -> & H3 & Hw3 & Hc3 & Hi3). cbn [mbind option_bind]. rewrite <- Hc3.
  destruct (leave_dispatcher_ok s3 Wait (Irql s) H3) as (s' & -> & H' & Hrel).
  { unfold old_level. rewrite Hc3, Hi3, Hc2, Hid2. apply (lock_level s Hok). }
  exists s'. split; [done|]. by apply (woke_released _ _ _ _ s3).
Qed.

(** A semaphore released by one with threads waiting. *)
Lemma KeReleaseSemaphore_first s o ob Limit t inc :
  dispatcher_ok s → Objects s !! o = Some ob → Body ob = SemaphoreObject Limit → 0 < Limit →
  SignalState ob = 0 → first_waiter s ob t →
  ∃ s', KeReleaseSemaphore o inc 1 false s = Some (Returned 0, s') ∧ woke_first s o ob t s'.
Proof.
  intros Hok Ho Hb Hlim Hz Hf. pose proof Hf as (i & l & tht & bk & Hl & Htht & Hbk).
  assert (Hsw : o ≠ KiSwapEvent).
  { intros Heq. pose proof (swap_event_body s o ob Hok Ho Heq). congruence. }
  pose proof (dispatcher_signal s o ob Hok Ho) as Hsg. unfold signal_ok in Hsg. rewrite Hb in Hsg.
  destruct Hsg as [_ Hl31]. pose proof (lock_ok s Hok) as Hlk.
  destruct (set_wait_next_ok (lock s) false Hlk) as (th & Hth & _ & H0).
  change (CurrentThread (lock s)) with (CurrentThread s) in *.
  match type of H0 with dispatcher_ok ?x => set (s0 := x) in * end.
  set (ob1 := ob <| SignalState := 1 |>). set (s1 := put_object o ob1 s0).
  assert (Hsg1 : signaled_ok o s1).
  { apply (signaled_put s0 o ob); [done..|]. unfold signal_ok. simpl. rewrite Hb. lia. }
  assert (Hcon : consumed t ob1 = ob).
  { unfold consumed, ob1. simpl. rewrite Hb. destruct ob; simpl in *. by subst. }
  assert (Hkeep : ∀ x thx, Threads s !! x = Some thx → State thx = Waiting → Threads s0 !! x = Some thx).
  { intros x thx Hx Hw. unfold s0. rewrite Threads_put. destruct (decide (x = CurrentThread s)) as [->|]; [|done].
    by destruct (current_not_waiting s thx Hok Hx). }
  destruct (test_first s1 o ob1 t inc Hsg1 Hsw) as (s2 & Hs2 & H2 & Hw2 & Hc2 & Hid2); try done.
  { unfold s1. by rewrite Objects_put, decide_True. }
  { destruct (waiter_waiting s o ob t i l Hok Ho Hl) as (tht' & Htht' & Hstt).
    assert (tht' = tht) as -> by congruence. exists i, l, tht, bk. split; [done|].
    split; [by apply Hkeep|done]. }
  { rewrite Hcon. lia. }
  rewrite Hcon in Hw2. apply (woke_before s s1) in Hw2; [|done].
  unfold KeReleaseSemaphore, KiLockDispatcherDatabase. fold (lock s).
  change (Objects (lock s)) with (Objects s). rewrite Ho. cbn [mbind option_bind]. rewrite Hb. cbv zeta.
  rewrite Hz. change (s32 (0 + 1)) with 1. rewrite (proj2 (Z.ltb_ge _ _)) by lia. cbn [orb Z.ltb Z.compare].
  fold ob1. unfold set_wait_next. change (Threads (put_object o ob1 (lock s))) with (Threads s).
  change (Threads (lock s)) with (Threads s) in Hth. rewrite Hth. cbn [mbind option_bind].
  change (put_thread (CurrentThread s) (th <| WaitNext := false |>) (put_object o ob1 (lock s))) with s1.
  rewrite bool_decide_true by (by rewrite Hl). cbn [andb Z.eqb]. rewrite Hs2. cbn [mbind option_bind].
  change (CurrentThread s1) with (CurrentThread s) in Hc2. rewrite <- Hc2.
  destruct (leave_dispatcher_ok s2 false (Irql s) H2) as (s' & -> & H' & Hrel).
  { unfold old_level. rewrite Hc2, Hid2. apply (lock_level s Hok). }
  exists s'. split; [done|]. by apply (woke_released _ _ _ _ s2).
Qed.

(** The owner's last release of a mutant for which threads wait: the first waiter
    owns it. *)
Lemma KeReleaseMutant_first s o ob a d t inc Wait :
  dispatcher_ok s → Objects s !! o = Some ob → Body ob = MutantObject (Some (CurrentThread s)) a d →
  SignalState ob = 0 → first_waiter s ob t →
  ∃ s', KeReleaseMutant o inc false Wait s = Some (Returned 0, s') ∧
    woke_first s o (mkObject (MutantObject (Some t) false d) 0 (WaitListHead ob)) t s'.
Proof.
  intros Hok Ho Hb Hz (i & l & tht & bk & Hl & Htht & Hbk).
  assert (Hsw : o ≠ KiSwapEvent).
  { intros Heq. pose proof (swap_event_body s o ob Hok Ho Heq). congruence. }
  destruct (KeReleaseMutant_free s o ob _ a d Hok Ho Hb inc false Wait) as
    (sf & s2 & s' & Hr & Hfd & H' & Hp & Hrel & Htest); [by right|].
  rewrite decide_False in Htest by (rewrite Hl; done). rewrite Hz in Hr. exists s'. split; [done|]. apply (woke_released _ _ _ _ s2); [done| |done].
  destruct (fd_object _ _ _ _ _ _ Hfd) as (ob0 & Ho0 & Hof). rewrite Ho in Ho0.
  apply (inj Some) in Ho0 as <-.
  assert (Hkeep : ∀ x thx, Threads s !! x = Some thx → State thx = Waiting → Threads sf !! x = Some thx).
  { intros x thx Hx Hw. rewrite (fd_others _ _ _ _ _ _ Hfd); [done| |].
    - intros ->. by destruct (current_not_waiting s thx Hok Hx).
    - intros th' Hth' Hin. assert (th' = thx) as -> by congruence.
      apply (oi_mutants _ (inv_object _ _ _ (dk_inv _ Hok)) _ _ _ Hx) in Hin
        as (ob' & ? & ? & Ho' & Hb'). rewrite Ho in Ho'. apply (inj Some) in Ho' as <-.
      rewrite Hb in Hb'. injection Hb' as <- _ _. by destruct (current_not_waiting s thx Hok Hx). }
  destruct (waiter_waiting s o ob t i l Hok Ho Hl) as (tht' & Htht' & Hstt).
  assert (tht' = tht) as -> by congruence.
  destruct (test_first sf o _ t inc (fd_ok _ _ _ _ _ _ Hfd) Hsw Hof) as (s2' & Hs2 & _ & Hw & _).
  - done.
  - exists i, l, tht, bk. split; [done|]. split; [by apply Hkeep|done].
  - done.
  - rewrite Htest in Hs2 by (by rewrite Hl). apply (inj Some) in Hs2 as <-.
    by apply (woke_before s sf).
Qed.
