(* ===== verification/KeServe.v ===== *)
(** * Whom a released semaphore serves

    The loop of [KiWaitTest] on a semaphore takes one unit for each thread it wakes:
    the count falls by the number of threads woken, which are taken from the wait
    list in its order, and nobody else stops waiting. *)

From stdpp Require Import base list numbers option gmap sets.
From S2P Require Import Prelude KeState KeSched KeWait KeInv KeReady KeFrame KeTest.
From S2P Require Import KeObjects KeBlock KeOps KeObjOk KeBlockOk.

Definition is_semaphore (ob : KOBJECT) : Prop := ∃ l, Body ob = SemaphoreObject l.

(** A unit of the semaphore is taken. *)
Definition one_less (ob : KOBJECT) : KOBJECT := ob <| SignalState := s32 (SignalState ob - 1) |>.

(** ** The units a satisfied wait takes *)

Lemma satisfy_any_unit o t s s1 x ob :
  KiWaitSatisfyAny o t s = Some s1 → Objects s !! x = Some ob → is_semaphore ob →
  Objects s1 !! x = Some (if decide (x = o) then one_less ob else ob).
Proof.
  unfold KiWaitSatisfyAny, KiWaitSatisfyMutant, KiWaitSatisfyOther. intros Hs Hx [l Hl].
  destruct (decide (x = o)) as [->|Hne].
  - rewrite Hx in Hs. cbn [mbind option_bind] in Hs. rewrite Hl in Hs.
    apply (inj Some) in Hs as <-. by rewrite Objects_put, decide_True.
  - destruct (Objects s !! o) as [ob1|]; cbn [mbind option_bind] in Hs; [|done].
    assert (Hp : ∀ ob', Objects (put_object o ob' s) !! x = Some ob)
      by (intros; by rewrite Objects_put, decide_False).
    destruct (Body ob1); try (apply (inj Some) in Hs as <-; first [exact Hx|exact (Hp _)]).
    destruct (Threads s !! t) as [th|]; cbn [mbind option_bind] in Hs; [|done].
    destruct (_ =? 0); apply (inj Some) in Hs as <-; exact (Hp _).
Qed.

Lemma satisfy_blocks_unit t bs x : ∀ s s1 ob,
  satisfy_blocks t bs s = Some s1 → NoDup (WaitObject <$> bs) →
  Objects s !! x = Some ob → is_semaphore ob →
  Objects s1 !! x = Some (if decide (x ∈ WaitObject <$> bs) then one_less ob else ob).
Proof.
  induction bs as [|b bs IH]; intros s s1 ob Hs Hnd Hx Hl; simpl in *.
  { by apply (inj Some) in Hs as <-. }
  apply NoDup_cons in Hnd as [Hnin Hnd].
  destruct (KiWaitSatisfyAny (WaitObject b) t s) as [s2|] eqn:Hs2; cbn [mbind option_bind] in Hs; [|done].
  pose proof (satisfy_any_unit _ _ _ _ _ _ Hs2 Hx Hl) as Hx2.
  destruct (decide (x = WaitObject b)) as [->|Hne].
  - rewrite (IH _ _ _ Hs Hnd Hx2 Hl), decide_False by done.
    by rewrite decide_True by (by left).
  - rewrite (IH _ _ _ Hs Hnd Hx2 Hl). f_equal. apply decide_ext. rewrite elem_of_cons. tauto.
Qed.

(** The wait of one thread takes one unit from the semaphore, whatever blocks it
    has. *)
Lemma satisfied_unit E P s s1 t th i b ob :
  wait_inv E P s → waits E s t (WaitBlockList th) → Threads s !! t = Some th →
  WaitBlockList th !! i = Some b → Objects s !! WaitObject b = Some ob → is_semaphore ob →
  (if decide (WaitType b = WaitAny) then KiWaitSatisfyAny (WaitObject b) t s
   else KiWaitSatisfy t i s) = Some s1 →
  Objects s1 !! WaitObject b = Some (one_less ob).
Proof.
  intros Hwi Hw Hth Hb Ho Hl Hs. destruct (decide (WaitType b = WaitAny)) as [Hany|Hall].
  - rewrite (satisfy_any_unit _ _ _ _ _ _ Hs Ho Hl). by rewrite decide_True.
  - unfold KiWaitSatisfy in Hs. rewrite Hth in Hs. cbn [mbind option_bind] in Hs.
    rewrite Hb in Hs. cbn [mbind option_bind] in Hs. rewrite decide_False in Hs by done.
    assert (WaitType b = WaitAll) as Hty by (by destruct (WaitType b)).
    pose proof (bw_distinct _ _ (wi_blocks _ _ _ Hwi _ _ Hw) i b Hb Hty) as Hnd.
    rewrite <- (ring_perm (WaitBlockList th) i) in Hnd. rewrite (satisfy_blocks_unit _ _ _ _ _ _ Hs Hnd Ho Hl).
    rewrite decide_True; [done|]. apply list_elem_of_fmap. exists b. split; [done|].
    rewrite ring_perm. by eapply list_elem_of_lookup_2.
Qed.

(** ** The threads woken *)

(** From [s] to [s'] the threads [W] are woken, each for one unit of [o]. *)
Record served (s : KSTATE) (o : oid) (W : list tid) (s' : KSTATE) : Prop := {
  sv_object ob : Objects s !! o = Some ob → Objects s' !! o =
    Some (ob <| SignalState := SignalState ob - Z.of_nat (length W) |>
             <| WaitListHead := filter (λ e, e.1 ∉ W) (WaitListHead ob) |>);
  sv_woken t : t ∈ W → ∃ th, Threads s' !! t = Some th ∧ State th ≠ Waiting;
  sv_others t th : t ∉ W → Threads s !! t = Some th → State th = Waiting →
    ¬ on_swap_event th → Threads s' !! t = Some th
}.

Lemma served_nobody s o : served s o [] s.
Proof.
  split; [|by intros t ?%elem_of_nil|done]. intros ob Ho. rewrite Ho. f_equal.
  rewrite filter_id by (intros; apply not_elem_of_nil). destruct ob as [k v l]. simpl.
  by rewrite Z.sub_0_r.
Qed.

(** Steps in which nobody stops waiting and the semaphore stays as it is. *)
Lemma served_after s o W s1 s' :
  o ≠ KiSwapEvent → served s o W s1 → released s1 s' → served s o W s'.
Proof.
  intros Hne [Ho Hw Hx] [_ Ro Rt]. split.
  - intros ob Hob. rewrite Ro by done. by apply Ho.
  - intros t (th & Hth & Hst)%Hw. destruct (Rt _ _ Hth) as (th' & ? & _ & _ & _ & _ & _ & _ & Hk).
    exists th'. split; [done|]. by apply Hk.
  - intros t th Hn Hth Hst Hon. specialize (Hx t th Hn Hth Hst Hon).
    destruct (Rt _ _ Hx) as (th' & -> & _ & _ & _ & _ & _ & Hk & _). by rewrite Hk.
Qed.

Lemma served_before s s0 o W s' :
  Objects s0 = Objects s → (∀ t th, Threads s !! t = Some th → State th = Waiting → Threads s0 !! t = Some th) →
  served s0 o W s' → served s o W s'.
Proof.
  intros HO HT [Ho Hw Hx]. split; [|done|].
  - intros ob Hob. apply Ho. by rewrite HO.
  - intros t th Hn Hth Hst Hon. apply (Hx t th Hn); [by apply HT|done..].
Qed.

(** One more thread is served first. *)
Lemma served_cons s s1 s2 s' o ob t w Status W :
  o ≠ KiSwapEvent → Objects s !! o = Some ob → Objects s1 !! o = Some (one_less ob) →
  MINLONG < SignalState ob < 2 ^ 31 → (∀ x, x ≠ t → Threads s1 !! x = Threads s !! x) →
  woken t w Status s1 s2 → progress s2 s' → served s2 o W s' → served s o (t :: W) s'.
Proof.
  intros Hne Ho Ho1 Hr Hoth Hwk Hp [Vo Vw Vx]. split.
  - intros ob'. rewrite Ho. intros <-%(inj Some).
    pose proof (wk_objects _ _ _ _ _ Hwk o Hne) as Ho2. rewrite Ho1 in Ho2.
    rewrite (Vo _ Ho2). f_equal. unfold one_less. unfold MINLONG in Hr. destruct ob as [k v l].
    simpl in *. rewrite s32_small by lia. f_equal; [lia|]. rewrite list_filter_filter.
    apply list_filter_iff. intros e. rewrite not_elem_of_cons. tauto.
  - intros x [->|Hx]%elem_of_cons; [|by apply Vw].
    destruct (wk_thread _ _ _ _ _ Hwk) as (th & Hth & _ & Hst & _).
    destruct (pg_threads _ _ Hp _ _ Hth) as (th' & ? & _ & _ & _ & _ & _ & Hk). exists th'.
    split; [done|]. by apply Hk.
  - intros x th [Hxt HxW]%not_elem_of_cons Hth Hst Hon. apply Vx; [done| |done..].
    destruct (wk_others _ _ _ _ _ Hwk x th Hxt) as (th' & -> & _ & Hk & _); [by rewrite Hoth|].
    by rewrite Hk.
Qed.

(** What the loop has left to visit of the list of the threads it wakes. *)
Lemma rest_filtered (skipped rest rest2 : list wait_entry) t i :
  (∀ x k, (x, k) ∈ skipped → x ≠ t) →
  skipped ++ rest2 = filter (λ e, e.1 ≠ t) (skipped ++ (t, i) :: rest) →
  rest2 = filter (λ e, e.1 ≠ t) rest.
Proof.
  intros Hne. rewrite list.filter_app, filter_other_threads by done.
  rewrite list.filter_cons, decide_False by (simpl; tauto). intros H. by apply app_inv_head in H.
Qed.

Lemma filter_threads_sublist t (l : list wait_entry) :
  (filter (λ e, e.1 ≠ t) l).*1 `sublist_of` l.*1 ∧ t ∉ (filter (λ e, e.1 ≠ t) l).*1.
Proof.
  split.
  - induction l as [|[x k] l IH]; [done|]. rewrite list.filter_cons. simpl.
    destruct (decide (x ≠ t)); simpl; [by apply sublist_skip|by apply sublist_cons].
  - intros ([x k] & -> & [Hx _]%list_elem_of_filter)%list_elem_of_fmap. done.
Qed.

Section serve.
Variables (test : KSTATE → option KSTATE) (n : nat).
Hypothesis test_spec : swap_spec test n.

Lemma wait_test_loop_serves o inc fuel : ∀ E P skipped rest ob s s',
  inv E (pending o P skipped) s → Objects s !! o = Some ob → is_semaphore ob → o ≠ KiSwapEvent →
  WaitListHead ob = skipped ++ rest → skipped_ok E s skipped → (length rest < fuel)%nat →
  (swap_waiters s ≤ n)%nat →
  wait_test_loop (ready_thread2 test) fuel o inc (last skipped) s = Some s' →
  ∃ W, NoDup W ∧ W `sublist_of` rest.*1 ∧ served s o W s'.
Proof.
  induction fuel as [|fuel IH]; intros E P skipped rest ob s s' Hi Ho Hsem Hsw Hl Hsk Hfuel Hn Hrun; [lia|].
  pose proof (inv_wait _ _ _ Hi) as Hwi.
  cbn [wait_test_loop] in Hrun. rewrite Ho in Hrun. cbn [mbind option_bind] in Hrun. rewrite Hl in Hrun.
  rewrite Flink_last in Hrun by (rewrite <- Hl; by eapply wi_nodup). cbn [mbind option_bind] in Hrun.
  assert (Hdone : Some s = Some s' → ∃ W, NoDup W ∧ W `sublist_of` rest.*1 ∧ served s o W s').
  { intros <-%(inj Some). exists []. split; [apply NoDup_nil_2|]. split; [apply sublist_nil_l|].
    apply served_nobody. }
  destruct rest as [|[t i] rest]; cbn [head] in Hrun; [by apply Hdone|].
  destruct (Z.leb_spec (SignalState ob) 0) as [|Hpos]; [by apply Hdone|]. clear Hdone.
  assert (Hin : (t, i) ∈ WaitListHead ob).
  { rewrite Hl. apply elem_of_app. right. apply elem_of_cons. by left. }
  apply (wi_list _ _ _ Hwi _ _ _ _ Ho) in Hin as (bs & b & Hw & Hb & Hbo).
  pose proof Hw as Hw'. apply waits_thread in Hw' as (HE & th & Hth & Hst & <-).
  rewrite Hth in Hrun. cbn [mbind option_bind] in Hrun. rewrite Hb in Hrun. cbn [mbind option_bind] in Hrun.
  destruct (can_satisfy_ok E _ s t th i b Hwi Hw Hth Hb) as (r & Hc & Hr). rewrite Hc in Hrun.
  cbn [mbind option_bind] in Hrun. destruct r.
  - destruct (wake_ok test n test_spec E _ s o ob t th i b inc Hi Ho Hpos Hth Hw Hb Hbo Hr (or_introl Hn))
      as (s1 & s2 & w & Hs1 & Hs2 & Hi2 & Hsf & Hw1 & Hwk & _).
    rewrite Hs1 in Hrun. cbn [mbind option_bind] in Hrun. rewrite Hs2 in Hrun.
    cbn [mbind option_bind] in Hrun. pose proof Ho as Hob. rewrite <- Hbo in Hob, Hs1.
    pose proof (satisfied_unit E _ s s1 t th i b ob Hwi Hw Hth Hb Hob Hsem Hs1) as Ho1.
    rewrite Hbo in Ho1.
    assert (Hne : ∀ x k, (x, k) ∈ skipped → x ≠ t) by (intros; by eapply skipped_other).
    destruct (next_round E P s s1 s2 o ob t i w (WaitKey b) skipped rest)
      as (ob2 & rest2 & H2 & Hl2 & Hlen & Hsk2); try done.
    pose proof (wk_objects _ _ _ _ _ Hwk o Hsw) as Ho2. rewrite Ho1, H2 in Ho2. simpl in Ho2.
    apply (inj Some) in Ho2. assert (Hsem2 : is_semaphore ob2) by (by rewrite Ho2).
    assert (rest2 = filter (λ e, e.1 ≠ t) rest) as ->.
    { apply (rest_filtered skipped rest rest2 t i); [done|]. etrans; [symmetry; exact Hl2|].
      rewrite Ho2. simpl. by rewrite Hl. }
    simpl in Hfuel. assert (Hfuel2 : (length (filter (λ e : wait_entry, e.1 ≠ t) rest) < fuel)%nat)
      by (eapply Nat.le_lt_trans; [apply length_filter|]; lia).
    assert (Hn2 : (swap_waiters s2 ≤ n)%nat).
    { pose proof (wk_waiters _ _ _ _ _ Hwk). pose proof (satisfied_waiters _ _ _ Hsf). lia. }
    destruct (IH E P skipped _ ob2 s2 s' Hi2 H2 Hsem2 Hsw Hl2 Hsk2 Hfuel2 Hn2 Hrun) as (W & HndW & HsW & HW).
    destruct (wait_test_loop_ok test n test_spec o inc fuel E P skipped _ ob2 s2 Hi2 H2 Hl2 Hsk2 Hfuel2
      (or_intror (conj Hsw Hn2))) as (s3 & Hrun3 & _ & Hp & _).
    rewrite Hrun in Hrun3. apply (inj Some) in Hrun3 as <-.
    destruct (filter_threads_sublist t rest) as [Hsub Hnin]. exists (t :: W). split_and!.
    + apply NoDup_cons. split; [|done]. intros Ht. by apply Hnin, (elem_of_sublist _ _ _ Ht HsW).
    + simpl. apply sublist_skip. by etrans.
    + eapply (served_cons s s1 s2 s' o ob); try done.
      * destruct Hsem as [l Hbl]. pose proof (oi_signal _ (inv_object _ _ _ Hi) _ _ Ho) as Hsg.
        unfold signal_ok in Hsg. rewrite Hbl in Hsg. unfold MINLONG. lia.
      * apply (sf_others _ _ _ Hsf).
  - destruct Hr as (Hall & j & b' & Hne & Hj & Hk & Hsig).
    destruct (IH E P (skipped ++ [(t, i)]) rest ob s s') as (W & ? & ? & ?); try done.
    + by eapply pending_skip.
    + by rewrite Hl, <- (assoc_L (++)).
    + intros x k [?|[= -> ->]%list_elem_of_singleton]%elem_of_app; [auto|eauto].
    + simpl in Hfuel. lia.
    + by rewrite last_snoc.
    + exists W. split; [done|]. split; [|done]. simpl. by apply sublist_cons.
Qed.

End serve.

Lemma KiWaitTest_serves s s' o ob inc :
  signaled_ok o s → o ≠ KiSwapEvent → Objects s !! o = Some ob → is_semaphore ob →
  KiWaitTest o inc s = Some s' →
  ∃ W, NoDup W ∧ W `sublist_of` (WaitListHead ob).*1 ∧ served s o W s'.
Proof.
  intros Hsg Hsw Ho Hsem Hrun. pose proof (dk_inv _ Hsg) as Hi.
  destruct (swap_depth_ok _ _ _ (inv_wait _ _ _ Hi)) as [Hspec _].
  unfold KiWaitTest, wait_test in Hrun. rewrite Ho in Hrun. cbn [mbind option_bind] in Hrun.
  change None with (last (@nil wait_entry)) in Hrun.
  eapply (wait_test_loop_serves _ _ Hspec o inc _ unlocked nobody [] (WaitListHead ob) ob); try done.
  - by apply pending_start.
  - intros x k ?%elem_of_nil. done.
  - lia.
Qed.

(** The whole operation: the adjustment is added, and a unit taken for each thread
    woken. *)
Lemma KeReleaseSemaphore_served s o ob Limit inc Adjustment Wait :
  dispatcher_ok s → Objects s !! o = Some ob → Body ob = SemaphoreObject Limit →
  0 ≤ Adjustment → SignalState ob + Adjustment ≤ Limit →
  ∃ s' W, KeReleaseSemaphore o inc Adjustment Wait s = Some (Returned (SignalState ob), s') ∧
    dispatcher_ok s' ∧ NoDup W ∧ W `sublist_of` (WaitListHead ob).*1 ∧
    served (put_object o (ob <| SignalState := SignalState ob + Adjustment |>) s) o W s'.
Proof.
  intros Hok Ho Hb Hpos Hle.
  assert (Hsw : o ≠ KiSwapEvent).
  { intros Heq. pose proof (swap_event_body s o ob Hok Ho Heq). congruence. }
  pose proof (dispatcher_signal s o ob Hok Ho) as Hsg. unfold signal_ok in Hsg. rewrite Hb in Hsg.
  destruct (KeReleaseSemaphore_ok s o ob Limit inc Adjustment Wait Hok Ho Hb) as (r & s' & Hr & H' & Hres);
    [lia|]. rewrite decide_True in Hres by done.
  destruct Hres as (-> & _ & s2 & (s1 & Hsg1 & HO & HT & Hs2) & Hrel). exists s'.
  set (ob1 := ob <| SignalState := SignalState ob + Adjustment |>) in *.
  assert (Ho1 : Objects s1 !! o = Some ob1) by (by rewrite HO, Objects_put, decide_True).
  assert (∃ W, NoDup W ∧ W `sublist_of` (WaitListHead ob).*1 ∧ served s1 o W s2) as (W & ? & ? & HW).
  { destruct Hs2 as [->|Hs2].
    - exists []. split; [apply NoDup_nil_2|]. split; [apply sublist_nil_l|apply served_nobody].
    - apply (KiWaitTest_serves s1 s2 o ob1 inc); try done. by exists Limit. }
  exists W. split_and!; try done. apply (served_after _ _ _ s2); [done| |done].
  by apply (served_before _ s1).
Qed.

(** Who still waits for an object that is signaled waits for others too. *)
Lemma left_waits_all s o ob t i :
  dispatcher_ok s → Objects s !! o = Some ob → Body ob ≠ QueueObject → 0 < SignalState ob →
  (t, i) ∈ WaitListHead ob → ∃ th b, Threads s !! t = Some th ∧
    WaitBlockList th !! i = Some b ∧ WaitObject b = o ∧ WaitType b = WaitAll.
Proof.
  intros Hok Ho Hq Hpos Hin. pose proof (inv_wait _ _ _ (dk_inv _ Hok)) as Hwi.
  apply (wi_list _ _ _ Hwi _ _ _ _ Ho) in Hin as (bs & b & Hw & Hb & Hbo).
  pose proof Hw as (_ & th & Hth & _ & <-)%waits_thread. exists th, b. split_and!; try done.
  destruct (WaitType b) eqn:Hty; [done|]. exfalso. apply (wi_sat _ _ _ Hwi _ _ i Hw).
  exists b. split; [done|]. split; [|by left]. exists ob. by rewrite Hbo.
Qed.
