(* ===== verification/KeCalls.v ===== *)
(** * The dispatcher as a system of calls

    The calls the rest of the kernel makes on the dispatcher, by whichever thread
    is running, and the switches of the idle loop, as one transition relation. A
    call may leave another thread running, so sequences of steps are the
    interleavings of the threads' calls. *)

From stdpp Require Import base list numbers option gmap sets.
From S2P Require Import Prelude KeState KeSched KeWait KeInv KeReady KeFrame KeTest.
From S2P Require Import KeObjects KeBlock KeOps KeObjOk KeBlockOk KeMultiOk.

Inductive KCALL :=
  | InitializeEvent (o : oid) (Type_ : KBODY) (State : bool)
  | InitializeSemaphore (o : oid) (Count Limit : Z)
  | InitializeMutant (o : oid) (InitialOwner : bool)
  | InitializeMutex (o : oid)
  | ClearEvent (o : oid)
  | ResetEvent (o : oid)
  | SetEvent (o : oid) (Increment : Z) (Wait : bool)
  | PulseEvent (o : oid) (Increment : Z) (Wait : bool)
  | SetEventBoostPriority (o : oid)
  | ReleaseSemaphore (o : oid) (Increment Adjustment : Z) (Wait : bool)
  | ReleaseMutant (o : oid) (Increment : Z) (Abandoned Wait : bool)
  | WaitForSingleObject (o : oid) (Reason : Z) (UserMode Alertable : bool) (Timeout : option Z)
  | WaitForMultipleObjects (os : list oid) (Type_ : WAIT_TYPE) (Reason : Z)
      (UserMode Alertable : bool) (Timeout : option Z) (WaitBlockArray : bool)
  | IdleSwitch.

Definition run_call (c : KCALL) (s : KSTATE) : option KSTATE :=
  match c with
  | InitializeEvent o ty st => Some (KeInitializeEvent o ty st s)
  | InitializeSemaphore o n l => Some (KeInitializeSemaphore o n l s)
  | InitializeMutant o io => KeInitializeMutant o io s
  | InitializeMutex o => Some (KeInitializeMutex o s)
  | ClearEvent o => KeClearEvent o s
  | ResetEvent o => snd <$> KeResetEvent o s
  | SetEvent o inc w => snd <$> KeSetEvent o inc w s
  | PulseEvent o inc w => snd <$> KePulseEvent o inc w s
  | SetEventBoostPriority o => snd <$> KeSetEventBoostPriority o s
  | ReleaseSemaphore o inc adj w => snd <$> KeReleaseSemaphore o inc adj w s
  | ReleaseMutant o inc ab w => snd <$> KeReleaseMutant o inc ab w s
  | WaitForSingleObject o r um al to => snd <$> KeWaitForSingleObject o r um al to s
  | WaitForMultipleObjects os ty r um al to arr =>
      snd <$> KeWaitForMultipleObjects os ty r um al to arr s
  | IdleSwitch => idle_switch s
  end.

Definition fresh (o : oid) (s : KSTATE) : Prop := Objects s !! o = None ∧ not_timer o.

Definition has_object (o : oid) (s : KSTATE) (P : KOBJECT → Prop) : Prop :=
  ∃ ob, Objects s !! o = Some ob ∧ P ob.

(** What a caller must ensure: the object is of the call's type, a new object is
    really new, the arguments are in range. *)
Definition valid_call (c : KCALL) (s : KSTATE) : Prop :=
  match c with
  | InitializeEvent o ty _ =>
      fresh o s ∧ (ty = NotificationEvent ∨ ty = SynchronizationEvent)
  | InitializeSemaphore o n l => fresh o s ∧ 0 ≤ n ≤ l ∧ l < 2 ^ 31
  | InitializeMutant o _ | InitializeMutex o => fresh o s
  | ClearEvent o | ResetEvent o | SetEvent o _ _ | PulseEvent o _ _ => has_object o s is_event
  | SetEventBoostPriority o => has_object o s (λ ob, Body ob = SynchronizationEvent)
  | ReleaseSemaphore o _ adj _ =>
      has_object o s (λ ob, ∃ l, Body ob = SemaphoreObject l) ∧ - 2 ^ 31 ≤ adj < 2 ^ 31
  | ReleaseMutant o _ _ _ => has_object o s (λ ob, ∃ ow a d, Body ob = MutantObject ow a d)
  | WaitForSingleObject o r _ _ to =>
      wait_call s r to ∧ has_object o s (λ ob, Body ob ≠ QueueObject) ∧ not_timer o ∧
      (o = KiSwapEvent → to = None)
  | WaitForMultipleObjects os ty r _ _ to arr =>
      wait_call s r to ∧ wait_objects s os ∧ os ≠ [] ∧
      (length os ≤ if arr : bool then MAXIMUM_WAIT_OBJECTS else THREAD_WAIT_OBJECTS)%nat ∧
      (ty = WaitAll → NoDup os)
  | IdleSwitch => CurrentThread s = IdleThread s
  end.

Definition dispatcher_step (s s' : KSTATE) : Prop :=
  ∃ c, valid_call c s ∧ run_call c s = Some s'.

Lemma idle_switch_ok s :
  dispatcher_ok s → CurrentThread s = IdleThread s →
  ∃ s', idle_switch s = Some s' ∧ dispatcher_ok s'.
Proof.
  intros Hok Hidle. unfold idle_switch. destruct (NextThread s) as [t|] eqn:Hn; [|by exists s].
  destruct Hok as [[Hs Hd Hw Ho Ht Hc] Hrc Hri [Hl1 Hl2]].
  destruct (take_standby s t Hs Hd Ht Hn) as (Hs1 & Hd1 & th & Hth & Hr & Hst).
  set (s1 := s <| NextThread := None |>) in *.
  destruct (SwapContext_ok unlocked nobody s1 t th) as (s' & Hsw & Hi' & Hcur' & Hs'); auto.
  - apply (wait_inv_ext unlocked _ _ s); [done| |done]. intros x bs. unfold waits, excluded.
    split; [tauto|]. intros [_ Hx]. split; [|done]. intros [->|[]].
    rewrite (wait_view_Some _ _ _ Hth) in Hx. congruence.
  - by apply (object_inv_same s).
  - by apply (thread_inv_kept s); [|split_and!|].
  - intros x r q _ Hne Hx. destruct (si_running _ _ Hs1 x r q) as [->| ->]; [|done| |done].
    + by intros [?|[]].
    + exact Hidle.
  - exists s'. split; [exact Hsw|].
    assert (Hni : IdleThread s ≠ t).
    { destruct Hri as (thi & Hthi & Hri). intros <-. congruence. }
    assert (Hthr : Threads s' !! IdleThread s = Threads s !! IdleThread s).
    { rewrite Hs'. simpl. by rewrite lookup_insert_ne. }
    assert (Hidl : IdleThread s' = IdleThread s) by (by rewrite Hs').
    split; [done|..].
    + rewrite Hcur'. exists (th <| State := Running |>). rewrite Hs'. simpl. by rewrite lookup_insert_eq.
    + unfold runs. by rewrite Hidl, Hthr.
    + unfold idle_level. rewrite Hidl, Hthr, Hcur'. split; [done|]. by intros ->.
Qed.

Ltac call_done H := destruct H as (? & -> & ?); eexists; split; [done|tauto].

(** Every valid call is defined and keeps the invariant. *)
Lemma call_ok c s :
  dispatcher_ok s → valid_call c s → ∃ s', run_call c s = Some s' ∧ dispatcher_ok s'.
Proof.
  intros Hok. destruct c; simpl.
  - intros [[Hf Hn] Hty]. eexists. split; [done|]. by apply KeInitializeEvent_ok.
  - intros [[Hf Hn] [Hr Hl]]. eexists. split; [done|]. by apply KeInitializeSemaphore_ok.
  - intros [Hf Hn]. by apply KeInitializeMutant_ok.
  - intros [Hf Hn]. eexists. split; [done|]. by apply KeInitializeMutex_ok.
  - intros (ob & Ho & He). unfold KeClearEvent. destruct (event_cleared s o ob Hok Ho He) as [-> ?]. eauto.
  - intros (ob & Ho & He). pose proof (KeResetEvent_ok s o ob Hok Ho He) as H. call_done H.
  - intros (ob & Ho & He). pose proof (KeSetEvent_ok s o ob Increment Wait Hok Ho He) as H. call_done H.
  - intros (ob & Ho & He). pose proof (KePulseEvent_ok s o ob Increment Wait Hok Ho He) as H. call_done H.
  - intros (ob & Ho & He). pose proof (KeSetEventBoostPriority_ok s o ob Hok Ho He) as H. call_done H.
  - intros [(ob & Ho & l & Hb) Hadj].
    destruct (KeReleaseSemaphore_ok s o ob l Increment Adjustment Wait Hok Ho Hb Hadj)
      as (r & s' & -> & ? & _). eauto.
  - intros (ob & Ho & ow & a & d & Hb). destruct Abandoned.
    { destruct (KeReleaseMutant_free s o ob ow a d Hok Ho Hb Increment true Wait (or_introl eq_refl))
        as (sf & s2 & s' & -> & _ & ? & _). eauto. }
    destruct (decide (ow = Some (CurrentThread s))) as [Hown|Hown].
    2:{ destruct (KeReleaseMutant_not_owner s o ob ow a d Hok Ho Hb Increment Wait Hown)
          as (s' & th & -> & ? & _). eauto. }
    pose proof (dispatcher_signal s o ob Hok Ho) as Hsg. unfold signal_ok in Hsg. rewrite Hb in Hsg.
    destruct Hsg as [Hr Hn]. assert (SignalState ob ≠ 1) by (intros ?%Hn; congruence).
    destruct (decide (SignalState ob = 0)) as [Hz|Hz].
    + destruct (KeReleaseMutant_free s o ob ow a d Hok Ho Hb Increment false Wait)
        as (sf & s2 & s' & -> & _ & ? & _); eauto.
    + destruct (KeReleaseMutant_nested s o ob ow a d Hok Ho Hb Increment Wait Hown)
        as (s' & -> & ? & _); [lia|]. eauto.
  - intros (Hwc & (ob & Ho & Hq) & Hn & Hsw).
    destruct (KeWaitForSingleObject_ok s o ob Reason UserMode Alertable Timeout Hok Hwc Ho Hq Hn Hsw)
      as (r & s' & -> & ? & _). eauto.
  - intros (Hwc & Hwo & Hne & Hlen & Hnd).
    destruct (KeWaitForMultipleObjects_ok s os Type_ Reason UserMode Alertable Timeout WaitBlockArray
                Hok Hwc Hwo Hne Hlen Hnd) as (r & s' & -> & ? & _). eauto.
  - by apply idle_switch_ok.
Qed.

Lemma step_ok s s' : dispatcher_ok s → dispatcher_step s s' → dispatcher_ok s'.
Proof.
  intros Hok (c & Hv & Hr). destruct (call_ok c s Hok Hv) as (s1 & Hr1 & H1). congruence.
Qed.

Lemma steps_ok s s' : dispatcher_ok s → rtc dispatcher_step s s' → dispatcher_ok s'.
Proof. intros Hok Hs. induction Hs; eauto using step_ok. Qed.

(** ** Waits that are over

    The condition under which a wait need not go on, in terms of the test with
    which [KeWaitForSingleObject] and [KeWaitForMultipleObjects] decide whether to
    wait ([ready_for]: the object is signaled, or is a mutant the thread owns), and
    not of the test of [KiWaitTest]. A queue is left out: it is not waited for with
    these routines. *)

Definition ready_block (s : KSTATE) (t : tid) (b : KWAIT_BLOCK) : Prop :=
  ∃ ob, Objects s !! WaitObject b = Some ob ∧ Body ob ≠ QueueObject ∧ ready_for t ob = true.

(** One block of type wait any is ready, or the wait has blocks of type wait all
    and all of them are ready. *)
Definition wait_ready (s : KSTATE) (t : tid) (bs : list KWAIT_BLOCK) : Prop :=
  (∃ b, b ∈ bs ∧ WaitType b = WaitAny ∧ ready_block s t b) ∨
  (∃ b, b ∈ bs ∧ WaitType b = WaitAll) ∧
  ∀ b, b ∈ bs → WaitType b = WaitAll → ready_block s t b.

(** One of the objects waited for is a mutant of the waiting thread itself. *)
Definition awaits_own_mutant (s : KSTATE) (t : tid) (bs : list KWAIT_BLOCK) : Prop :=
  ∃ b, b ∈ bs ∧ owned_by s (WaitObject b) t.

Lemma ready_block_signaled s t bs b :
  ¬ awaits_own_mutant s t bs → b ∈ bs → ready_block s t b → signaled s (WaitObject b).
Proof.
  intros Hno Hin (ob & Ho & Hq & Hr). exists ob. split; [done|]. split; [|done].
  unfold ready_for in Hr. destruct (Body ob) eqn:Hb; try (by apply Z.ltb_lt).
  apply orb_true_iff in Hr as [Hr|Hr]; [by apply Z.ltb_lt|]. apply bool_decide_eq_true in Hr as ->.
  destruct Hno. exists b. split; [done|]. by eexists _, _, _.
Qed.

Lemma wait_ready_satisfiable s t bs :
  blocks_wf t bs → ¬ awaits_own_mutant s t bs → wait_ready s t bs → ∃ i, satisfiable s bs i.
Proof.
  intros Hwf Hno [(b & Hin & Hty & Hr)|[(b & Hin & Hty) Hall]].
  - pose proof (ready_block_signaled _ _ _ _ Hno Hin Hr). apply list_elem_of_lookup in Hin as [i Hi].
    exists i, b. split; [done|]. split; [done|]. by left.
  - pose proof (ready_block_signaled _ _ _ _ Hno Hin (Hall _ Hin Hty)).
    apply list_elem_of_lookup in Hin as [i Hi]. exists i, b. split; [done|]. split; [done|]. right.
    intros j b' _ Hj Hk. destruct (WaitType b') eqn:Hty'.
    + apply (ready_block_signaled _ _ _ _ Hno); [by eapply list_elem_of_lookup_2|].
      apply Hall; [by eapply list_elem_of_lookup_2|done].
    + by destruct (bw_all _ _ Hwf _ _ _ _ Hi Hj Hty) as (_ & _ & [_ ?]).
Qed.

Lemma waiting_waits s t th :
  Threads s !! t = Some th → State th = Waiting → waits unlocked s t (WaitBlockList th).
Proof. intros Hth Hst. split; [by intros []|]. by rewrite (wait_view_Some _ _ _ Hth), Hst. Qed.

(** When the lock is free, the wait of a thread can only be over if the thread waits
    for a mutant of its own. *)
Lemma not_wait_ready s t th :
  dispatcher_ok s → Threads s !! t = Some th → State th = Waiting →
  ¬ awaits_own_mutant s t (WaitBlockList th) → ¬ wait_ready s t (WaitBlockList th).
Proof.
  intros Hok Hth Hst Hno Hr. pose proof (waiting_waits _ _ _ Hth Hst) as Hw.
  pose proof (inv_wait _ _ _ (dk_inv _ Hok)) as Hwi.
  destruct (wait_ready_satisfiable _ _ _ (wi_blocks _ _ _ Hwi _ _ Hw) Hno Hr) as [i Hi].
  by apply (wi_sat _ _ _ Hwi t _ i Hw).
Qed.
