(* ===== verification/KeExample.v ===== *)
(** * A small system

    Two threads and the idle thread: a state with the invariant from which the
    examples of the dispatcher's theorems start. *)

From stdpp Require Import base list numbers option gmap sets.
From S2P Require Import Prelude KeState KeSched KeWait KeInv KeReady KeFrame KeTest.
From S2P Require Import KeObjects KeBlock KeOps KeObjOk KeBlockOk KeMultiOk KeCalls.

Definition new_thread (st : KTHREAD_STATE) (p level : Z) : KTHREAD :=
  mkThread st p p 0 6 false false true 0%nat [] 0 0 0 false level false false false false
    false false false false 0 [] None.

Definition new_object (b : KBODY) (v : Z) : KOBJECT := mkObject b v [].

Definition start_threads : gmap tid KTHREAD :=
  <[0%nat := new_thread Running 0 DISPATCH_LEVEL]>
  (<[1%nat := new_thread Running 8 0]>
  (<[2%nat := new_thread Ready 8 0]> ∅)).

Definition start_timers : gmap oid KTIMER :=
  <[ThreadTimer 0%nat := mkTimer 0 false]>
  (<[ThreadTimer 1%nat := mkTimer 0 false]>
  (<[ThreadTimer 2%nat := mkTimer 0 false]> ∅)).

Definition start_objects : gmap oid KOBJECT :=
  <[KiSwapEvent := new_object SynchronizationEvent 0]>
  (<[ThreadTimer 1%nat := new_object TimerObject 0]>
  (<[ThreadTimer 2%nat := new_object TimerObject 0]> ∅)).

Definition start_queues : list (list tid) := <[8%nat := [2%nat]]> (replicate 32 []).

(** Thread 1 runs, thread 2 is ready at the same priority. *)
Definition start : KSTATE :=
  mkState start_threads start_objects start_timers ∅ {[ 0%nat := mkProcess ProcessInMemory 6 1 [] ]}
    start_queues 256 0 [] [] [] [] (replicate 32 0) (replicate 128 []) None 1%nat 0%nat 0
    (2 ^ 63) 0 1000 1000 false 0 false false.

Lemma start_thread_cases t th :
  Threads start !! t = Some th →
  t = 0%nat ∧ th = new_thread Running 0 DISPATCH_LEVEL ∨
  t = 1%nat ∧ th = new_thread Running 8 0 ∨ t = 2%nat ∧ th = new_thread Ready 8 0.
Proof.
  simpl. unfold start_threads. rewrite !lookup_insert_Some, lookup_empty. naive_solver.
Qed.

Lemma start_view_cases t v :
  sched_view start t = Some v →
  t = 0%nat ∧ v = (Running, false, 0) ∨ t = 1%nat ∧ v = (Running, false, 8) ∨
  t = 2%nat ∧ v = (Ready, false, 8).
Proof.
  unfold sched_view. destruct (Threads start !! t) as [th|] eqn:Ht; [|done].
  intros [= <-]. apply start_thread_cases in Ht. naive_solver.
Qed.

Lemma start_object_cases o ob :
  Objects start !! o = Some ob →
  o = KiSwapEvent ∧ ob = new_object SynchronizationEvent 0 ∨
  (∃ t, o = ThreadTimer t) ∧ ob = new_object TimerObject 0.
Proof.
  simpl. unfold start_objects. rewrite !lookup_insert_Some, lookup_empty. naive_solver.
Qed.

Lemma start_queue p q :
  ready_queue start p = Some q → p = 8 ∧ q = [2%nat] ∨ p ≠ 8 ∧ q = [].
Proof.
  unfold ready_queue. simpl. unfold array_get. destruct (Z.leb_spec 0 p); [|done].
  unfold start_queues. intros [(Heq & -> & _)|[Hne Hq]]%list_lookup_insert_Some.
  - left. split; [lia|done].
  - right. split; [lia|]. by apply lookup_replicate in Hq as [-> _].
Qed.

Lemma start_nobody_waits t bs : ¬ waits unlocked start t bs.
Proof.
  intros [_ Hv]. unfold wait_view in Hv. destruct (Threads start !! t) as [th|] eqn:Ht; [|done].
  apply start_thread_cases in Ht as [[_ ->]|[[_ ->]|[_ ->]]]; done.
Qed.

Lemma start_not_owned o t : ¬ owned_by start o t.
Proof.
  intros (ob & a & d & Ho & Hb). apply start_object_cases in Ho as [[_ ->]|[_ ->]]; done.
Qed.

Lemma start_ok : dispatcher_ok start.
Proof.
  split; [split|..].
  - split.
    + done.
    + unfold is_u32. simpl. lia.
    + intros p q [[-> ->]|[Hne ->]]%start_queue; [done|].
      change (KiReadySummary start) with (2 ^ 8). rewrite bool_decide_false by auto.
      destruct (decide (0 ≤ p)); [|by apply Z.testbit_neg_r; lia]. by apply Z.pow2_bits_false; lia.
    + intros p q t Hq. apply start_queue in Hq. split.
      * destruct Hq as [[-> ->]|[_ ->]]; [|by intros ?%elem_of_nil].
        intros ->%list_elem_of_singleton. by split; [intros []|].
      * intros [_ [[_ [=]]|[[_ [=]]|[-> [= ->]]]]%start_view_cases].
        destruct Hq as [[_ ->]|[? _]]; [by apply list_elem_of_singleton|done].
    + intros p q [[_ ->]|[_ ->]]%start_queue; [apply NoDup_singleton|apply NoDup_nil_2].
    + intros t. split; [done|]. intros (_ & r & p & Hv). by apply start_view_cases in Hv; naive_solver.
    + intros t r p _ Hv. apply start_view_cases in Hv. simpl. naive_solver.
    + done.
  - exists Running, false, 8. split; [done|]. intros p q Hp [[-> _]|[_ ->]]%start_queue; [lia|done].
  - split.
    + intros o ob t i Ho. apply start_object_cases in Ho as [[_ ->]|[_ ->]]; simpl;
        (split; [by intros ?%elem_of_nil|]); intros (bs & b & Hw & _); by destruct (start_nobody_waits t bs).
    + intros o ob Ho. apply start_object_cases in Ho as [[_ ->]|[_ ->]]; apply NoDup_nil_2.
    + intros t bs i b Hw. by destruct (start_nobody_waits t bs).
    + intros t bs Hw. by destruct (start_nobody_waits t bs).
    + by eexists.
    + intros t bs i b Hw. by destruct (start_nobody_waits t bs).
    + intros t bs i Hw. by destruct (start_nobody_waits t bs).
  - split.
    + intros o ob Ho. apply start_object_cases in Ho as [[_ ->]|[_ ->]]; unfold signal_ok; simpl; [lia|done].
    + intros t th o Ht. apply start_thread_cases in Ht. split.
      * destruct Ht as [[_ ->]|[[_ ->]|[_ ->]]]; by intros ?%elem_of_nil.
      * intros Hown. by destruct (start_not_owned o t).
    + intros o t Hown. by destruct (start_not_owned o t).
    + intros t th Ht. apply start_thread_cases in Ht as [[_ ->]|[[_ ->]|[_ ->]]]; apply NoDup_nil_2.
    + intros t ob Ho. apply start_object_cases in Ho as [[? _]|[_ ->]]; done.
  - intros t th Ht. apply start_thread_cases in Ht as [[-> ->]|[[-> ->]|[-> ->]]];
      split; simpl; unfold HIGH_PRIORITY, zlen; try done; simpl; lia.
  - split; [done|]. by eexists.
  - by eexists.
  - by eexists.
  - split; [|done]. intros th Ht. by apply start_thread_cases in Ht as [[_ ->]|[[? _]|[? _]]].
Qed.

(** ** States reached from it *)

Definition E1 : oid := Obj 1.
Definition E2 : oid := Obj 2.
Definition M3 : oid := Obj 3.
Definition S4 : oid := Obj 4.

Definition next (s : KSTATE) (c : KCALL) : KSTATE := default s (run_call c s).

Lemma next_ok s c :
  dispatcher_ok s → valid_call c s → dispatcher_ok (next s c) ∧ dispatcher_step s (next s c).
Proof.
  intros Hok Hv. destruct (call_ok c s Hok Hv) as (s' & Hr & H'). unfold next. rewrite Hr.
  split; [done|]. by exists c.
Qed.

Lemma next_reach s0 s c :
  dispatcher_ok s ∧ rtc dispatcher_step s0 s → valid_call c s →
  dispatcher_ok (next s c) ∧ rtc dispatcher_step s0 (next s c).
Proof.
  intros [Hok Hr] Hv. destruct (next_ok s c Hok Hv). split; [done|]. by eapply rtc_r.
Qed.

(** A notification event, a synchronization event, a mutant owned by thread 1 and a
    semaphore. *)
Definition s_created : KSTATE :=
  foldl next start
    [InitializeEvent E1 NotificationEvent false; InitializeEvent E2 SynchronizationEvent false;
     InitializeMutant M3 true; InitializeSemaphore S4 0 5].

Definition wait_for (o : oid) : KCALL := WaitForSingleObject o 0 false false None.

Ltac valid_new := split; [vm_compute; reflexivity|]; intros ?; discriminate.

Lemma created_reach : dispatcher_ok s_created ∧ rtc dispatcher_step start s_created.
Proof.
  unfold s_created. cbn [foldl].
  repeat (apply next_reach; [|simpl valid_call; try (split; [valid_new|]); try valid_new]).
  - split; [apply start_ok|done].
  - by left.
  - by right.
  - lia.
Qed.

Lemma single_call s o :
  CurrentThread s ≠ IdleThread s →
  (∃ th, Threads s !! CurrentThread s = Some th ∧ Queue th = None) →
  0 < zlen (KeWaitReason s) → (∃ ob, Objects s !! o = Some ob ∧ Body ob ≠ QueueObject) →
  not_timer o → valid_call (wait_for o) s.
Proof.
  intros Hi (th & Hth & Hq) Hr (ob & Ho & Hb) Hn. split; [|by split_and!; [exists ob|..]].
  split; [done| |lia|done]. intros th'. rewrite Hth. by intros <-%(inj Some).
Qed.

Ltac valid_wait :=
  apply single_call; [vm_compute; discriminate
    |eexists; split; [vm_compute; reflexivity|vm_compute; reflexivity]
    |vm_compute; reflexivity
    |eexists; split; [vm_compute; reflexivity|vm_compute; discriminate]
    |intros ?; discriminate].

(** Thread 1 waits for [E1], [E2] or [S4], and thread 2 runs. *)
Definition s_wait1 : KSTATE := next s_created (wait_for E1).
Definition s_wait2 : KSTATE := next s_created (wait_for E2).
Definition s_wait4 : KSTATE := next s_created (wait_for S4).

Lemma wait1_reach : dispatcher_ok s_wait1 ∧ rtc dispatcher_step start s_wait1.
Proof. apply next_reach; [apply created_reach|]. valid_wait. Qed.

Lemma wait2_reach : dispatcher_ok s_wait2 ∧ rtc dispatcher_step start s_wait2.
Proof. apply next_reach; [apply created_reach|]. valid_wait. Qed.

Lemma wait4_reach : dispatcher_ok s_wait4 ∧ rtc dispatcher_step start s_wait4.
Proof. apply next_reach; [apply created_reach|]. valid_wait. Qed.

(** Then thread 2 waits for the mutant of thread 1, which is woken and runs. *)
Definition s_idle : KSTATE := next s_wait1 (wait_for M3).
Definition s_contended : KSTATE := foldl next s_idle [SetEvent E1 1 false; IdleSwitch].

Lemma contended_reach : dispatcher_ok s_contended ∧ rtc dispatcher_step start s_contended.
Proof.
  unfold s_contended. cbn [foldl]. apply next_reach; [apply next_reach|].
  - apply next_reach; [apply wait1_reach|]. valid_wait.
  - eexists. split; [vm_compute; reflexivity|]. by left.
  - vm_compute. reflexivity.
Qed.

(** Thread 1 waits for its own mutant and [E1] together; then thread 2 sets [E1]. *)
Definition wait_for_all (os : list oid) : KCALL :=
  WaitForMultipleObjects os WaitAll 0 false false None false.

Definition s_all : KSTATE := next s_created (wait_for_all [M3; E1]).
Definition s_stuck : KSTATE := next s_all (SetEvent E1 1 false).

Lemma created_wait : wait_call s_created 0 None.
Proof.
  split; [vm_compute; discriminate| |vm_compute; split; [discriminate|reflexivity]|exact I].
  intros th Hth. vm_compute in Hth. injection Hth as <-. reflexivity.
Qed.

Lemma created_objects os :
  os ⊆ [E1; E2; M3; S4] → wait_objects s_created os.
Proof.
  intros Hin. split.
  - intros o [->|[->|[->|[->|[]%elem_of_nil]%elem_of_cons]%elem_of_cons]%elem_of_cons]%Hin%elem_of_cons;
      (eexists; split; [vm_compute; reflexivity|discriminate]).
  - intros o [->|[->|[->|[->|[]%elem_of_nil]%elem_of_cons]%elem_of_cons]%elem_of_cons]%Hin%elem_of_cons;
      intros ?; discriminate.
  - intros Hsw%Hin. set_unfold in Hsw. unfold E1, E2, M3, S4 in Hsw. naive_solver.
Qed.

Lemma stuck_reach : dispatcher_ok s_stuck ∧ rtc dispatcher_step start s_stuck.
Proof.
  apply next_reach; [apply next_reach; [apply created_reach|]|].
  - split; [apply created_wait|]. split; [apply created_objects; set_solver|].
    split; [done|]. split; [simpl; unfold THREAD_WAIT_OBJECTS; lia|]. intros _.
    apply NoDup_cons. split; [|apply NoDup_singleton]. by intros ?%list_elem_of_singleton.
  - eexists. split; [vm_compute; reflexivity|]. by left.
Qed.
