(* ===== verification/KeTheorems.v ===== *)
(** * Theorems about the dispatcher

    The invariant over every sequence of calls and what it means for waiting
    threads, priorities and mutants; the exact effect of signaling and of waiting;
    error branches; and the defects found. The examples run on the states of
    [KeExample.v]. *)

From stdpp Require Import base list numbers option gmap sets.
From S2P Require Import Prelude KeState KeSched KeWait KeInv KeReady KeFrame KeTest.
From S2P Require Import KeObjects KeBlock KeOps KeObjOk KeBlockOk KeMultiOk KeWake KeServe KeCalls.
From S2P Require Import KeExample.

(** ** The invariant over all sequences of calls *)



(** C7: no wakeup is missed. In every reachable state every wait block of a waiting
    thread (but for a queue) is on the wait list of its object, the object of a wait
    any is not signaled, and the wait is not over by the test with which
    [KeWaitForSingleObject] and [KeWaitForMultipleObjects] decide whether to wait:
    no object of a wait any, and not all objects of a wait all, are signaled or
    owned by the thread. The last is for a thread that does not wait for a mutant of
    its own, which [KiWaitTest] does not look for ([wait_all_ignores_owned_mutant]). *)
Theorem no_missed_wakeup s s' t th :
  dispatcher_ok s → rtc dispatcher_step s s' → Threads s' !! t = Some th → State th = Waiting →
  (∀ i b, WaitBlockList th !! i = Some b → ∃ ob, Objects s' !! WaitObject b = Some ob ∧
     (t, i) ∈ WaitListHead ob ∧
     (WaitType b = WaitAny → Body ob ≠ QueueObject → SignalState ob ≤ 0)) ∧
  (¬ awaits_own_mutant s' t (WaitBlockList th) → ¬ wait_ready s' t (WaitBlockList th)).
Proof.
  intros Hok Hs Hth Hst. pose proof (steps_ok _ _ Hok Hs) as Hok'. split.
  - intros i b Hb. pose proof (inv_wait _ _ _ (dk_inv _ Hok')) as Hwi.
    pose proof (waiting_waits _ _ _ Hth Hst) as Hw.
    destruct (wi_object _ _ _ Hwi _ _ _ _ Hw Hb) as [ob Ho]. exists ob. split; [done|].
    split; [apply (wi_list _ _ _ Hwi _ _ _ _ Ho); eauto|]. intros Hany Hq.
    destruct (decide (SignalState ob ≤ 0)); [done|]. exfalso.
    apply (wi_sat _ _ _ Hwi t _ i Hw). exists b. split; [done|]. split; [|by left]. exists ob.
    split; [done|]. split; [lia|done].
  - by apply not_wait_ready.
Qed.

Lemma no_missed_wakeup_witness :
  ∃ th b ob, Threads s_wait1 !! 1%nat = Some th ∧ WaitBlockList th !! 0%nat = Some b ∧
    Objects s_wait1 !! WaitObject b = Some ob ∧ (1%nat, 0%nat) ∈ WaitListHead ob ∧
    ¬ wait_ready s_wait1 1%nat (WaitBlockList th).
Proof.
  edestruct (no_missed_wakeup start s_wait1 1%nat) as (H1 & H2);
    [apply start_ok|apply wait1_reach|vm_compute; reflexivity|reflexivity|].
  edestruct (H1 0%nat) as (ob & Ho & Hin & _); [vm_compute; reflexivity|].
  eexists _, _, ob. split; [vm_compute; reflexivity|]. split; [vm_compute; reflexivity|].
  split; [exact Ho|]. split; [exact Hin|]. apply H2.
  intros (b & ->%list_elem_of_singleton & ob' & a & d & Ho' & Hb). vm_compute in Ho'.
  injection Ho' as <-. discriminate Hb.
Defined.

(** C8: the processor goes to the highest priority. In every reachable state there
    are 32 ready queues; the queue of a priority holds exactly the ready threads of
    that priority whose process is in memory, each once; the ready summary has
    exactly the bits of the non-empty queues; every such thread is in the queue of its
    priority; and the thread that has the processor next exists and has no lower
    priority than any of them. *)
Theorem priority_order s s' :
  dispatcher_ok s → rtc dispatcher_step s s' →
  length (KiDispatcherReadyListHead s') = 32%nat ∧ is_u32 (KiReadySummary s') ∧
  (∀ p q, ready_queue s' p = Some q →
     Z.testbit (KiReadySummary s') p = bool_decide (q ≠ []) ∧ NoDup q ∧
     ∀ t, t ∈ q ↔ ∃ th, Threads s' !! t = Some th ∧ State th = Ready ∧
                        ProcessReadyQueue th = false ∧ Priority th = p) ∧
  ∀ t th, Threads s' !! t = Some th → State th = Ready → ProcessReadyQueue th = false →
    (∃ q, ready_queue s' (Priority th) = Some q ∧ t ∈ q) ∧
    ∃ tht, Threads s' !! top_thread s' = Some tht ∧ Priority th ≤ Priority tht.
Proof.
  intros Hok Hs. pose proof (steps_ok _ _ Hok Hs) as Hok'.
  destruct (dk_inv _ Hok') as [Hsi Hd _ _ Ht _].
  split. { pose proof (si_length _ _ Hsi). unfold zlen, MAXIMUM_PRIORITY in *. lia. }
  split; [apply (si_summary _ _ Hsi)|]. split.
  { intros p q Hq. split; [by apply (si_bits _ _ Hsi)|]. split; [by apply (si_nodup _ _ Hsi p)|].
    intros t. rewrite (si_queue _ _ Hsi _ _ _ Hq). split.
    - intros [_ (th & ? & ? & ? & ?)%view_thread]. by exists th.
    - intros (th & Hth & Hst & Hr & <-). split; [by intros []|].
      by rewrite (sched_view_Some _ _ _ Hth), Hst, Hr. }
  intros t th Hth Hst Hr.
  destruct (ready_queue_get _ _ _ Hsi (to_priority _ _ _ (Ht _ _ Hth))) as [q Hq].
  assert (Hin : t ∈ q).
  { apply (si_queue _ _ Hsi _ _ _ Hq). split; [by intros []|].
    by rewrite (sched_view_Some _ _ _ Hth), Hst, Hr. }
  assert (q ≠ []) as Hne by (intros ->; by apply elem_of_nil in Hin).
  split; [by exists q|].
  unfold dispatch_ok in Hd. destruct (KiIdleSummary s' =? 0).
  - destruct Hd as (st & r & p & Hv & Hno). destruct (view_thread _ _ _ _ _ Hv) as (tht & ? & _ & _ & <-).
    exists tht. split; [done|]. destruct (decide (Priority th ≤ Priority tht)); [done|].
    by destruct Hne; apply (Hno (Priority th)); [lia|].
  - destruct Hd as [_ Hno]. pose proof (to_priority _ _ _ (Ht _ _ Hth)).
    by destruct Hne; apply (Hno (Priority th)); [lia|].
Qed.

Lemma priority_order_witness :
  Z.testbit (KiReadySummary s_created) 8 = true ∧
  ∃ th tht, Threads s_created !! 2%nat = Some th ∧ Threads s_created !! top_thread s_created = Some tht ∧
    Priority th ≤ Priority tht.
Proof.
  destruct (priority_order start s_created) as (_ & _ & H1 & H2);
    [apply start_ok|apply created_reach|].
  split; [destruct (H1 8 [2%nat]) as [H _]; [vm_compute; reflexivity|exact H]|].
  edestruct (H2 2%nat) as (_ & tht & H3 & H4); [vm_compute; reflexivity|reflexivity|reflexivity|].
  eexists _, tht. split; [vm_compute; reflexivity|]. split; [exact H3|exact H4].
Defined.

(** C9: a mutant has at most one owner, whose list it is on. In every reachable state
    a mutant is on the list of a thread exactly when the thread is its owner, so on
    one list at most, there once, and its owner exists; it is signaled, with signal
    state 1, exactly when it has no owner; and what is on the list of a thread is a
    mutant that the thread owns. *)
Theorem mutant_exclusion s s' :
  dispatcher_ok s → rtc dispatcher_step s s' →
  (∀ o ob ow a d, Objects s' !! o = Some ob → Body ob = MutantObject ow a d →
     (0 < SignalState ob ↔ ow = None) ∧ SignalState ob ≤ 1 ∧
     (∀ t, ow = Some t → is_Some (Threads s' !! t)) ∧
     ∀ t th, Threads s' !! t = Some th → o ∈ MutantList th ↔ ow = Some t) ∧
  ∀ t th, Threads s' !! t = Some th →
    NoDup (MutantList th) ∧
    ∀ o, o ∈ MutantList th → ∃ ob a d, Objects s' !! o = Some ob ∧
      Body ob = MutantObject (Some t) a d.
Proof.
  intros Hok Hs. pose proof (steps_ok _ _ Hok Hs) as Hok'.
  pose proof (inv_object _ _ _ (dk_inv _ Hok')) as Hoi. split.
  - intros o ob ow a d Ho Hb. pose proof (oi_signal _ Hoi _ _ Ho) as Hsg.
    unfold signal_ok in Hsg. rewrite Hb in Hsg. destruct Hsg as [Hr Hn].
    split; [rewrite Hn; lia|]. split; [lia|]. split.
    + intros t ->. apply (oi_owner _ Hoi o). by exists ob, a, d.
    + intros t th Hth. rewrite (oi_mutants _ Hoi _ _ _ Hth). split.
      * intros (ob' & a' & d' & Ho' & Hb'). congruence.
      * intros ->. by exists ob, a, d.
  - intros t th Hth. split; [by apply (oi_nodup _ Hoi t)|]. intros o Hin.
    by apply (oi_mutants _ Hoi _ _ _ Hth).
Qed.

Lemma mutant_exclusion_witness :
  ∃ th, Threads s_contended !! 1%nat = Some th ∧ M3 ∈ MutantList th ∧
    ∃ ob a d, Objects s_contended !! M3 = Some ob ∧ Body ob = MutantObject (Some 1%nat) a d.
Proof.
  destruct (mutant_exclusion start s_contended) as [H1 H2];
    [apply start_ok|apply contended_reach|].
  eexists. split; [vm_compute; reflexivity|].
  assert (M3 ∈ [M3]) as Hin by (by left). split; [exact Hin|].
  edestruct (H2 1%nat) as [_ H3]; [vm_compute; reflexivity|]. exact (H3 M3 Hin).
Defined.

(** ** The ready queues *)

(** [KiFindReadyThread] finds the first thread of the highest non-empty queue
    between the two priorities and takes it off its queue: every ready thread in
    the range has at most its priority. If there is none, nothing changes. *)
Theorem find_ready_highest s HighPriority LowPriority :
  dispatcher_ok s → 0 ≤ LowPriority → 0 ≤ HighPriority ≤ HIGH_PRIORITY →
  ∃ s' r, KiFindReadyThread HighPriority LowPriority s = Some (s', r) ∧
    match r with
    | None => s' = s ∧ ∀ t th, Threads s !! t = Some th → State th = Ready →
        ProcessReadyQueue th = false → ¬ LowPriority ≤ Priority th ≤ HighPriority
    | Some t => ∃ th rest, Threads s !! t = Some th ∧ State th = Ready ∧
        LowPriority ≤ Priority th ≤ HighPriority ∧
        ready_queue s (Priority th) = Some (t :: rest) ∧
        ready_queue s' (Priority th) = Some rest ∧
        (∀ p, p ≠ Priority th → ready_queue s' p = ready_queue s p) ∧
        ∀ x thx, Threads s !! x = Some thx → State thx = Ready → ProcessReadyQueue thx = false →
          LowPriority ≤ Priority thx ≤ HighPriority → Priority thx ≤ Priority th
    end.
Proof.
  intros Hok Hlo Hhi. destruct (dk_inv _ Hok) as [Hsi _ _ _ Ht _].
  assert (Hready : ∀ x thx, Threads s !! x = Some thx → State thx = Ready →
    ProcessReadyQueue thx = false → ∃ q, ready_queue s (Priority thx) = Some q ∧ q ≠ []).
  { intros x thx Hx Hst Hr.
    destruct (ready_queue_get _ _ _ Hsi (to_priority _ _ _ (Ht _ _ Hx))) as [q Hq].
    exists q. split; [done|]. intros ->. apply (elem_of_nil x).
    apply (si_queue _ _ Hsi _ _ _ Hq). split; [by intros []|].
    by rewrite (sched_view_Some _ _ _ Hx), Hst, Hr. }
  destruct (KiFindReadyThread_ok unlocked s HighPriority LowPriority Hsi Hlo Hhi)
    as [[-> Hnone]|(p & t & rest & s' & -> & Hr & Hdq & Hfirst)]; eexists _, _; (split; [done|]).
  - split; [done|]. intros t th Hth Hst Hrq Hrange. destruct (Hready _ _ Hth Hst Hrq) as (q & Hq & Hne).
    by destruct Hne; apply (Hnone (Priority th)).
  - destruct (dequeued_same _ _ _ _ _ Hdq) as (_ & _ & _ & _ & _ & _ & _ & Hqs).
    destruct Hdq as [Hq _]. assert (t ∈ t :: rest) as Hin by (by left).
    apply (si_queue _ _ Hsi _ _ _ Hq) in Hin as [_ Hv].
    destruct (view_thread _ _ _ _ _ Hv) as (th & Hth & Hst & _ & <-).
    exists th, rest. split_and!; try done; try lia.
    + by rewrite Hqs, Z.eqb_refl.
    + intros p Hne. by rewrite Hqs, (proj2 (Z.eqb_neq _ _) Hne).
    + intros x thx Hx Hsx Hrx Hrange. destruct (decide (Priority thx ≤ Priority th)); [done|].
      destruct (Hready _ _ Hx Hsx Hrx) as (q & Hqx & Hne). destruct Hne.
      apply (Hfirst (Priority thx)); [lia|done].
Qed.

Lemma find_ready_highest_witness :
  ∃ s' r, KiFindReadyThread 31 0 s_created = Some (s', r).
Proof.
  destruct (find_ready_highest s_created 31 0 (proj1 created_reach)) as (s' & r & H & _);
    [lia|unfold HIGH_PRIORITY; lia|]. by exists s', r.
Defined.

(** ** Signaling *)

(** C10: [KiWaitTest] misses no wait. From a state where only waits that depend on
    object [o] can be over, it is defined, and in the state it ends in no waiting
    thread's wait is over by the test of the wait routines (see C7; threads that wait
    for a mutant of their own are excepted, which the routine does not look for), the
    object of no wait any is signaled, and no object is more signaled than before. *)
Theorem wait_test_complete s o ob Increment :
  signaled_ok o s → Objects s !! o = Some ob →
  ∃ s', KiWaitTest o Increment s = Some s' ∧ dispatcher_ok s' ∧
    (∀ t th, Threads s' !! t = Some th → State th = Waiting →
       ¬ awaits_own_mutant s' t (WaitBlockList th) → ¬ wait_ready s' t (WaitBlockList th)) ∧
    (∀ t th b obx, Threads s' !! t = Some th → State th = Waiting → b ∈ WaitBlockList th →
       WaitType b = WaitAny → Objects s' !! WaitObject b = Some obx → Body obx ≠ QueueObject →
       SignalState obx ≤ 0) ∧
    ∀ x obx, x ≠ KiSwapEvent → Objects s !! x = Some obx →
      ∃ obx', Objects s' !! x = Some obx' ∧ SignalState obx' ≤ SignalState obx.
Proof.
  intros Hsg Ho. destruct (signaled_test s o ob Increment Hsg Ho) as (s' & Hr & Hok' & Hp).
  exists s'. split; [done|]. split; [done|]. split; [intros t th; by apply not_wait_ready|]. split.
  - intros t th b obx Hth Hst [i Hi]%list_elem_of_lookup Hty Hx Hq.
    destruct (decide (SignalState obx ≤ 0)); [done|]. exfalso.
    apply (wi_sat _ _ _ (inv_wait _ _ _ (dk_inv _ Hok')) t _ i (waiting_waits _ _ _ Hth Hst)).
    exists b. split; [done|]. split; [|by left]. exists obx. split; [done|]. split; [lia|done].
  - intros x obx Hne Hx. destruct (pg_objects _ _ Hp x obx Hne Hx) as (obx' & ? & _ & ? & _). eauto.
Qed.

Definition s_signaled : KSTATE :=
  put_object E1 (mkObject NotificationEvent 1 [(1%nat, 0%nat)]) s_wait1.

Lemma wait_test_complete_witness :
  ∃ s', KiWaitTest E1 1 s_signaled = Some s' ∧ dispatcher_ok s'.
Proof.
  destruct (wait_test_complete s_signaled E1 (mkObject NotificationEvent 1 [(1%nat, 0%nat)]) 1)
    as (s' & ? & ? & _).
  - apply (signaled_put s_wait1 E1 (mkObject NotificationEvent 0 [(1%nat, 0%nat)]));
      [apply wait1_reach|vm_compute; reflexivity|reflexivity|reflexivity|].
    unfold signal_ok. simpl. lia.
  - vm_compute. reflexivity.
  - by exists s'.
Defined.

(** Setting a notification event wakes everybody. [KeSetEvent] returns the old
    state, leaves the event signaled, and afterwards the threads that still wait
    for it are those of a wait all. *)
Theorem set_notification_event s o ob Increment Wait :
  dispatcher_ok s → Objects s !! o = Some ob → Body ob = NotificationEvent →
  ∃ s', KeSetEvent o Increment Wait s = Some (Returned (SignalState ob), s') ∧
    (∃ ob', Objects s' !! o = Some ob' ∧ Body ob' = NotificationEvent ∧ SignalState ob' = 1) ∧
    ∀ t th i b, Threads s' !! t = Some th → State th = Waiting → WaitBlockList th !! i = Some b →
      WaitObject b = o → WaitType b = WaitAll.
Proof.
  intros Hok Ho Hb.
  assert (Hne : o ≠ KiSwapEvent).
  { intros Heq. pose proof (swap_event_body s o ob Hok Ho Heq). congruence. }
  destruct (KeSetEvent_ok s o ob Increment Wait Hok Ho (or_introl Hb)) as (s' & Hr & Hok' & Hla).
  destruct (la_objects _ _ Hla o (ob <| SignalState := 1 |>) Hne) as (ob' & Ho' & Hk & _ & Hn);
    [by rewrite Objects_put, decide_True|].
  specialize (Hn Hb). assert (Hb' : Body ob' = NotificationEvent).
  { by apply (same_kind_notification _ _ Hk). }
  exists s'. split; [done|]. split; [by exists ob'|].
  intros t th i b Hth Hst Hbk Hbo. destruct (WaitType b) eqn:Hty; [done|]. exfalso.
  apply (wi_sat _ _ _ (inv_wait _ _ _ (dk_inv _ Hok')) t (WaitBlockList th) i).
  - split; [by intros []|]. by rewrite (wait_view_Some _ _ _ Hth), Hst.
  - exists b. split; [done|]. split; [|by left]. exists ob'. rewrite Hbo. split; [done|].
    rewrite Hn, Hb'. done.
Qed.

Lemma set_notification_event_witness :
  ∃ s', KeSetEvent E1 1 false s_wait1 = Some (Returned 0, s').
Proof.
  edestruct (set_notification_event s_wait1 E1) with (Increment := 1) (Wait := false)
    as (s' & H & _); [apply wait1_reach|vm_compute; reflexivity|reflexivity|].
  exists s'. exact H.
Defined.

(** Setting a synchronization event wakes one. If the event is not signaled and
    the first block of its wait list is a wait any, [KeSetEvent] leaves the event
    not signaled, wakes exactly that thread, and every other waiting thread (those
    for the swap event apart) goes on waiting unchanged. *)
Theorem set_synchronization_event s o ob t Increment Wait :
  dispatcher_ok s → o ≠ KiSwapEvent → Objects s !! o = Some ob →
  Body ob = SynchronizationEvent → SignalState ob = 0 → first_waiter s ob t →
  ∃ s' ob' th', KeSetEvent o Increment Wait s = Some (Returned 0, s') ∧
    Objects s' !! o = Some ob' ∧ SignalState ob' = 0 ∧
    WaitListHead ob' = filter (λ e, e.1 ≠ t) (WaitListHead ob) ∧
    Threads s' !! t = Some th' ∧ State th' ≠ Waiting ∧
    ∀ x th, x ≠ t → Threads s !! x = Some th → State th = Waiting → ¬ on_swap_event th →
      Threads s' !! x = Some th.
Proof.
  intros Hok Hne Ho Hb Hz Hf.
  destruct (KeSetEvent_first s o ob t Increment Wait Hok Hne Ho Hb Hz Hf) as (s' & Hr & [Hw (th' & ? & ?) ?]).
  eexists s', _, th'. split_and!; try done.
Qed.

Lemma set_synchronization_event_witness :
  ∃ s' th', KeSetEvent E2 1 false s_wait2 = Some (Returned 0, s') ∧
    Threads s' !! 1%nat = Some th' ∧ State th' ≠ Waiting.
Proof.
  edestruct (set_synchronization_event s_wait2 E2) with (t := 1%nat) (Increment := 1) (Wait := false)
    as (s' & ob' & th' & H & _ & _ & _ & H1 & H2 & _);
    [apply wait2_reach|discriminate|vm_compute; reflexivity|reflexivity|reflexivity| |].
  - eexists _, _, _, _. split; [reflexivity|]. split; [vm_compute; reflexivity|].
    split; reflexivity.
  - exists s', th'. split; [exact H|]. split; [exact H1|exact H2].
Defined.



(** A unit of a semaphore goes to the first waiter. Releasing a semaphore with
    count zero by one, with a wait any first in its list, leaves the count zero and
    wakes exactly that thread. *)
Theorem release_semaphore_hands_over s o ob Limit t Increment :
  dispatcher_ok s → Objects s !! o = Some ob → Body ob = SemaphoreObject Limit → 0 < Limit →
  SignalState ob = 0 → first_waiter s ob t →
  ∃ s' ob' th', KeReleaseSemaphore o Increment 1 false s = Some (Returned 0, s') ∧
    Objects s' !! o = Some ob' ∧ SignalState ob' = 0 ∧
    Threads s' !! t = Some th' ∧ State th' ≠ Waiting ∧
    ∀ x th, x ≠ t → Threads s !! x = Some th → State th = Waiting → ¬ on_swap_event th →
      Threads s' !! x = Some th.
Proof.
  intros Hok Ho Hb Hl Hz Hf.
  destruct (KeReleaseSemaphore_first s o ob Limit t Increment Hok Ho Hb Hl Hz Hf)
    as (s' & Hr & [Hw (th' & ? & ?) ?]).
  eexists s', _, th'. split_and!; try done.
Qed.

Lemma release_semaphore_hands_over_witness :
  ∃ s' th', KeReleaseSemaphore S4 1 1 false s_wait4 = Some (Returned 0, s') ∧
    Threads s' !! 1%nat = Some th' ∧ State th' ≠ Waiting.
Proof.
  edestruct (release_semaphore_hands_over s_wait4 S4) with (t := 1%nat) (Increment := 1)
    as (s' & ob' & th' & H & _ & _ & H1 & H2 & _);
    [apply wait4_reach|vm_compute; reflexivity|reflexivity|lia|reflexivity| |].
  - eexists _, _, _, _. split; [reflexivity|]. split; [vm_compute; reflexivity|].
    split; reflexivity.
  - exists s', th'. split; [exact H|]. split; [exact H1|exact H2].
Defined.

(** Only its owner releases a mutant. [KeReleaseMutant] by another thread raises
    [STATUS_ABANDONED] or [STATUS_MUTANT_NOT_OWNED], keeps the invariants, and no
    object but the swap event, no owned mutant of any thread and no waiting thread
    but those for the swap event are changed. *)
Theorem release_mutant_not_owner s o ob ow a d Increment Wait :
  dispatcher_ok s → Objects s !! o = Some ob → Body ob = MutantObject ow a d →
  ow ≠ Some (CurrentThread s) →
  ∃ s', KeReleaseMutant o Increment false Wait s =
      Some (Raised (if a then STATUS_ABANDONED else STATUS_MUTANT_NOT_OWNED), s') ∧
    dispatcher_ok s' ∧ (∀ x, x ≠ KiSwapEvent → Objects s' !! x = Objects s !! x) ∧
    (∀ t th, Threads s !! t = Some th → ∃ th', Threads s' !! t = Some th' ∧
       MutantList th' = MutantList th ∧ (State th = Waiting → ¬ on_swap_event th → th' = th)).
Proof.
  intros Hok Ho Hb Hne.
  destruct (KeReleaseMutant_not_owner s o ob ow a d Hok Ho Hb Increment Wait Hne)
    as (s' & th & Hr & H' & Hth & [_ Ro Rt]).
  exists s'. split; [done|]. split; [done|]. split; [exact Ro|]. intros t tht Htht.
  destruct (decide (t = CurrentThread s)) as [->|Hx].
  - assert (tht = th) as -> by congruence.
    destruct (Rt (CurrentThread s) (th <| WaitNext := Wait |>)) as (th' & Hth' & Hm & _);
      [apply lookup_insert_eq|].
    exists th'. split; [done|]. split; [done|]. intros Hw.
    by destruct (current_not_waiting s th Hok Hth).
  - destruct (Rt t tht) as (th' & Hth' & Hm & _ & _ & _ & _ & Hk & _); [by rewrite Threads_put, decide_False|].
    exists th'. split_and!; done.
Qed.

Lemma release_mutant_not_owner_witness :
  ∃ s', KeReleaseMutant M3 1 false false s_wait1 = Some (Raised STATUS_MUTANT_NOT_OWNED, s').
Proof.
  edestruct (release_mutant_not_owner s_wait1 M3) with (Increment := 1) (Wait := false)
    as (s' & H & _);
    [apply wait1_reach|vm_compute; reflexivity|reflexivity|vm_compute; discriminate|].
  exists s'. exact H.
Defined.

(** A rejected release with [Wait] leaves [WaitNext] set. The exception of
    [KeReleaseMutant] is raised with the dispatcher lock released, at the old
    interrupt level, but [Thread->WaitNext] stays [TRUE]: the next wait of the thread
    takes the lock to be held and goes on at that level without acquiring it. *)
Theorem release_mutant_leaks_wait_next s o ob ow a d Increment :
  dispatcher_ok s → Objects s !! o = Some ob → Body ob = MutantObject ow a d →
  ow ≠ Some (CurrentThread s) → NextThread s = None →
  ∃ s' s1 th', KeReleaseMutant o Increment false true s =
      Some (Raised (if a then STATUS_ABANDONED else STATUS_MUTANT_NOT_OWNED), s') ∧
    CurrentThread s' = CurrentThread s ∧ Irql s' = Irql s ∧
    Threads s' !! CurrentThread s = Some th' ∧ WaitNext th' = true ∧
    begin_wait s' = Some s1 ∧ Irql s1 = Irql s.
Proof.
  intros Hok Ho Hb Hne Hn. destruct (dk_current _ Hok) as (th & Hth & _).
  set (s' := put_thread (CurrentThread s) (th <| WaitNext := true |>) s).
  assert (Hth' : Threads s' !! CurrentThread s' = Some (th <| WaitNext := true |>))
    by apply lookup_insert_eq.
  exists s', (put_thread (CurrentThread s') (th <| WaitNext := true |> <| WaitNext := false |>) s'),
    (th <| WaitNext := true |>). split_and!; try done.
  - unfold KeReleaseMutant, KiLockDispatcherDatabase, set_wait_next. fold (lock s).
    change (Objects (lock s)) with (Objects s). change (Threads (lock s)) with (Threads s).
    rewrite Ho, Hth. cbn [mbind option_bind]. rewrite Hb, bool_decide_false by done. cbn [negb andb].
    unfold KiUnlockDispatcherDatabase, unlock_dispatcher.
    change (NextThread (put_thread (CurrentThread s) (th <| WaitNext := true |>) (lock s)))
      with (NextThread s). rewrite Hn. cbn [mbind option_bind]. simpl Objects. rewrite Ho.
    cbn [mbind option_bind].
    unfold is_abandoned. rewrite Hb. done.
  - unfold begin_wait. by rewrite Hth'.
Qed.

Lemma release_mutant_leaks_wait_next_witness :
  ∃ s' s1, KeReleaseMutant M3 1 false true s_wait1 = Some (Raised STATUS_MUTANT_NOT_OWNED, s') ∧
    begin_wait s' = Some s1 ∧ Irql s1 = 0.
Proof.
  edestruct (release_mutant_leaks_wait_next s_wait1 M3) with (Increment := 1)
    as (s' & s1 & th' & H & _ & _ & _ & _ & H1 & H2);
    [apply wait1_reach|vm_compute; reflexivity|reflexivity|vm_compute; discriminate|reflexivity|].
  exists s', s1. split; [exact H|]. split; [exact H1|]. exact H2.
Defined.

(** A mutant is free when its owner has released it as often as acquired it. A
    release by the owner that wakes nobody (an acquisition is left, or nobody waits)
    returns the old count and adds one to it. With an acquisition left the thread
    keeps the mutant; at the last one the mutant has no owner, has left the thread's
    list, and the thread has its kernel APCs back. *)
Theorem release_mutant_owner s o ob a d th Increment Wait :
  dispatcher_ok s → Objects s !! o = Some ob → Body ob = MutantObject (Some (CurrentThread s)) a d →
  Threads s !! CurrentThread s = Some th → SignalState ob < 0 ∨ WaitListHead ob = [] →
  ∃ s' ob' th', KeReleaseMutant o Increment false Wait s = Some (Returned (SignalState ob), s') ∧
    dispatcher_ok s' ∧ Objects s' !! o = Some ob' ∧ SignalState ob' = SignalState ob + 1 ∧
    WaitListHead ob' = WaitListHead ob ∧ Threads s' !! CurrentThread s = Some th' ∧
    if decide (SignalState ob = 0)
    then Body ob' = MutantObject None a d ∧ MutantList th' = filter (λ x, x ≠ o) (MutantList th) ∧
      KernelApcDisable th' = u8 (KernelApcDisable th + d)
    else Body ob' = Body ob ∧ MutantList th' = MutantList th ∧
      KernelApcDisable th' = KernelApcDisable th.
Proof.
  intros Hok Ho Hb Hth Hcase.
  assert (Hsw : o ≠ KiSwapEvent).
  { intros Heq. pose proof (swap_event_body s o ob Hok Ho Heq). congruence. }
  destruct (mutant_free_iff s o ob _ a d Hok Ho Hb) as [Hle%eq_sym _].
  rewrite bool_decide_true in Hle by done. symmetry in Hle. apply Z.leb_le in Hle.
  destruct (decide (SignalState ob = 0)) as [Hz|Hz].
  - destruct (KeReleaseMutant_free s o ob _ a d Hok Ho Hb Increment false Wait) as
      (sf & s2 & s' & Hr & Hfd & H' & _ & [_ Ro Rt] & Htest); [by right|].
    rewrite decide_True in Htest by (destruct Hcase; [lia|done]). subst s2.
    destruct (fd_object _ _ _ _ _ _ Hfd) as (ob0 & Ho0 & Hof).
    rewrite Ho in Ho0. apply (inj Some) in Ho0 as <-.
    destruct (fd_threads _ _ _ _ _ _ Hfd _ _ Hth) as (th1 & Hth1 & _ & _ & _ & Hm & Hk).
    destruct (Rt _ _ Hth1) as (th' & Hth' & Hm' & Hk' & _).
    rewrite Hz, (bool_decide_true (_ = _)) in Hk by done. simpl in Hk.
    eexists s', _, th'. rewrite (Ro _ Hsw), Hof. split_and!; try done; simpl; [lia| |]; congruence.
  - destruct (KeReleaseMutant_nested s o ob _ a d Hok Ho Hb Increment Wait eq_refl)
      as (s' & Hr & H' & th0 & Hth0 & [_ Ro Rt]); [lia|].
    assert (th0 = th) as -> by congruence.
    destruct (Rt (CurrentThread s) (th <| WaitNext := Wait |>)) as (th' & Hth' & Hm & Hk & _);
      [apply lookup_insert_eq|].
    eexists s', _, th'. rewrite (Ro _ Hsw).
    split_and!; [done|done|apply lookup_insert_eq|done..].
Qed.

Lemma release_mutant_owner_witness :
  ∃ s' ob' th', KeReleaseMutant M3 1 false false s_created = Some (Returned 0, s') ∧
    Objects s' !! M3 = Some ob' ∧ Body ob' = MutantObject None false 0 ∧
    Threads s' !! 1%nat = Some th' ∧ MutantList th' = [].
Proof.
  edestruct (release_mutant_owner s_created M3) with (Increment := 1) (Wait := false)
    as (s' & ob' & th' & H & _ & H1 & _ & _ & H2 & H3);
    [apply created_reach|vm_compute; reflexivity|reflexivity|vm_compute; reflexivity
    |right; reflexivity|].
  destruct H3 as (H3 & H4 & _).
  exists s', ob', th'. split_and!; [exact H|exact H1|exact H3|exact H2|exact H4].
Defined.

(** A released mutant goes to the first waiter. When the owner releases its last
    acquisition and a wait any is first in the list, the waiter owns the mutant
    before any other thread can ask for it, is waiting no more, and every other
    waiting thread (those for the swap event apart) is as before. *)
Theorem release_mutant_hands_over s o ob a d t Increment Wait :
  dispatcher_ok s → Objects s !! o = Some ob → Body ob = MutantObject (Some (CurrentThread s)) a d →
  SignalState ob = 0 → first_waiter s ob t →
  ∃ s' ob' th', KeReleaseMutant o Increment false Wait s = Some (Returned 0, s') ∧
    Objects s' !! o = Some ob' ∧ Body ob' = MutantObject (Some t) false d ∧ SignalState ob' = 0 ∧
    WaitListHead ob' = filter (λ e, e.1 ≠ t) (WaitListHead ob) ∧
    Threads s' !! t = Some th' ∧ State th' ≠ Waiting ∧
    ∀ x th, x ≠ t → Threads s !! x = Some th → State th = Waiting → ¬ on_swap_event th →
      Threads s' !! x = Some th.
Proof.
  intros Hok Ho Hb Hz Hf.
  destruct (KeReleaseMutant_first s o ob a d t Increment Wait Hok Ho Hb Hz Hf)
    as (s' & Hr & [Hw (th' & ? & ?) ?]).
  eexists s', _, th'. split_and!; try done.
Qed.

Lemma release_mutant_hands_over_witness :
  ∃ s' ob', KeReleaseMutant M3 1 false false s_contended = Some (Returned 0, s') ∧
    Objects s' !! M3 = Some ob' ∧ Body ob' = MutantObject (Some 2%nat) false 0.
Proof.
  edestruct (release_mutant_hands_over s_contended M3) with (t := 2%nat) (Increment := 1) (Wait := false)
    as (s' & ob' & th' & H & H1 & H2 & _);
    [apply contended_reach|vm_compute; reflexivity|reflexivity|reflexivity| |].
  - eexists _, _, _, _. split; [reflexivity|]. split; [vm_compute; reflexivity|].
    split; reflexivity.
  - exists s', ob'. split; [exact H|]. split; [exact H1|exact H2].
Defined.

(** ** Waiting *)

(** A wait for an object that is ready ends at once. [KeWaitForSingleObject] for
    an object that is signaled (or a mutant the thread owns) returns success, or
    [STATUS_ABANDONED] for an abandoned mutant; the object loses what the wait takes
    from it (a synchronization event its signal, a semaphore one unit, a mutant one
    acquisition), and no other object but the swap event changes. *)
Theorem wait_satisfied_at_once s o ob th Reason UserMode Alertable_ Timeout :
  dispatcher_ok s → CurrentThread s ≠ IdleThread s → Threads s !! CurrentThread s = Some th →
  KernelApcPending th = false → Objects s !! o = Some ob → Body ob ≠ QueueObject →
  ready_for (CurrentThread s) ob = true → SignalState ob ≠ MINLONG →
  ∃ s' th', KeWaitForSingleObject o Reason UserMode Alertable_ Timeout s =
      Some (WaitDone (Returned (match Body ob with
                                | MutantObject None true _ => STATUS_ABANDONED
                                | _ => STATUS_SUCCESS end)), s') ∧
    dispatcher_ok s' ∧
    (∀ x, x ≠ KiSwapEvent →
       Objects s' !! x = if decide (x = o) then Some (consumed (CurrentThread s) ob) else Objects s !! x) ∧
    Threads s' !! CurrentThread s = Some th' ∧
    MutantList th' = match Body ob with
                     | MutantObject None _ _ => MutantList th ++ [o]
                     | _ => MutantList th end.
Proof.
  intros Hok Hni Hth Hapc Ho Hqo Hr Hmin.
  destruct (wait_entered s th Hok Hni Hth) as (s1 & th1 & Hbw & [H1 Hc Hni1 Hth1 Hb HO _ _]).
  unfold KeWaitForSingleObject. rewrite Hbw. cbn [mbind option_bind].
  rewrite <- HO in Ho. rewrite <- Hc in *.
  pose proof (ready_limit _ _ (dispatcher_signal _ _ _ H1 Ho) Hr Hmin) as Hgt.
  destruct (pass_satisfied s1 o ob th1 Reason UserMode Alertable_ Timeout H1 Hni1 Hth1 Ho Hqo
              (begun_apc _ _ _ _ Hb Hapc) Hr Hgt) as (s' & -> & H' & [_ Ro Rt]).
  destruct (begun_acquirer th th1 _ o ob Hb) as (Hm & _ & Hws).
  destruct (Rt (CurrentThread s1) (acquirer o ob (th1 <| WaitStatus := 0 |>))) as (th' & Hth' & Hm' & _);
    [apply lookup_insert_eq|].
  exists s', th'. rewrite Hws, Hm', Hm. split_and!; try done.
  - unfold acquirer. by destruct (Body ob) as [ | |[] []| | | | | ].
  - intros x Hx. rewrite Ro by done. rewrite <- HO. apply Objects_put.
  - unfold acquirer. by destruct (Body ob) as [ | |[] []| | | | | ].
Qed.

Lemma wait_satisfied_at_once_witness :
  ∃ s', KeWaitForSingleObject M3 0 false false None s_created =
      Some (WaitDone (Returned STATUS_SUCCESS), s').
Proof.
  edestruct (wait_satisfied_at_once s_created M3) with (Reason := 0) (UserMode := false)
    (Alertable_ := false) (Timeout := @None Z) as (s' & th' & H & _);
    [apply created_reach|vm_compute; discriminate|vm_compute; reflexivity|reflexivity
    |vm_compute; reflexivity|discriminate|vm_compute; reflexivity|discriminate|].
  exists s'. exact H.
Defined.

(** C12: a wait without timeout that cannot be satisfied blocks, in order of arrival.
    For a call of [KeWaitForSingleObject] with no timeout and a valid wait reason, by a
    thread that is not the idle thread, is not processing a queue entry and has neither
    an alert nor a kernel APC pending, on an object that is not ready and is neither a queue nor a
    thread's built-in timer: the call puts one wait block at the end of the object's
    wait list, changes no other object, leaves the thread waiting with that block, and
    another thread runs. *)
Theorem wait_blocks_in_order s o ob th Reason UserMode Alertable_ :
  dispatcher_ok s → wait_call s Reason None → Threads s !! CurrentThread s = Some th →
  KernelApcPending th = false → Objects s !! o = Some ob → Body ob ≠ QueueObject → not_timer o →
  ready_for (CurrentThread s) ob = false → (TestForAlertPending Alertable_ UserMode th).2 = None →
  ∃ s' th' thn, KeWaitForSingleObject o Reason UserMode Alertable_ None s = Some (WaitBlocked, s') ∧
    dispatcher_ok s' ∧
    (∀ x, Objects s' !! x =
       if decide (x = o)
       then Some (ob <| WaitListHead := WaitListHead ob ++ [(CurrentThread s, 0%nat)] |>)
       else Objects s !! x) ∧
    Threads s' !! CurrentThread s = Some th' ∧ State th' = Waiting ∧
    WaitBlockList th' = [mkWaitBlock o STATUS_SUCCESS WaitAny] ∧
    CurrentThread s' ≠ CurrentThread s ∧
    Threads s' !! CurrentThread s' = Some thn ∧ State thn = Running.
Proof.
  intros Hok [Hni Hq Hr _] Hth Hapc Ho Hqo Hnt Hnr Hal.
  destruct (wait_entered s th Hok Hni Hth) as (s1 & th1 & Hbw & [H1 Hc Hni1 Hth1 Hb HO Hoth Hrs]).
  unfold KeWaitForSingleObject. rewrite Hbw. cbn [mbind option_bind].
  pose proof Ho as Ho1. rewrite <- HO in Ho1. rewrite <- Hc in Hnr |- *. rewrite <- Hrs in Hr.
  assert (Hq1 : Queue th1 = None) by (destruct Hb as [-> | ->]; exact (Hq _ Hth)).
  pose proof (begun_alert th th1 _ Alertable_ UserMode Hb) as Hal1. rewrite Hal in Hal1.
  destruct (pass_blocked s1 o ob th1 Reason UserMode Alertable_ None H1 Hni1 Hth1 Ho1 Hqo Hnt Hr
              (begun_apc _ _ _ _ Hb Hapc) Hnr Hal1 eq_refl Hq1)
    as (s' & -> & H' & [(a & m & r & w & Bt) Bo _ Bc (thn & Hn & Hn')]).
  eexists s', _, _. split; [done|]. split; [done|]. split.
  { intros x. rewrite Bo. change (Objects (put_thread _ _ _)) with (Objects s1). rewrite HO.
    rewrite entries_on_single. simpl WaitObject.
    destruct (decide (x = o)) as [->|Hx]; [by rewrite decide_True, Ho|].
    rewrite decide_False by done. destruct (Objects s !! x) as [obx|]; [|done].
    simpl. rewrite app_nil_r. by destruct obx. }
  split; [exact Bt|]. split; [done|]. split; [done|]. split; [exact Bc|]. split; [exact Hn'|done].
Qed.

Lemma wait_blocks_in_order_witness :
  ∃ s' th', KeWaitForSingleObject E1 0 false false None s_created = Some (WaitBlocked, s') ∧
    Threads s' !! 1%nat = Some th' ∧ State th' = Waiting.
Proof.
  edestruct (wait_blocks_in_order s_created E1) with (Reason := 0) (UserMode := false)
    (Alertable_ := false) as (s' & th' & thn & H & _ & _ & H1 & H2 & _);
    [apply created_reach| |vm_compute; reflexivity|reflexivity|vm_compute; reflexivity
    |discriminate|intros ?; discriminate|vm_compute; reflexivity|reflexivity|].
  - split; [vm_compute; discriminate| |vm_compute; split; [discriminate|reflexivity]|exact I].
    intros th Hth. vm_compute in Hth. injection Hth as <-. reflexivity.
  - exists s', th'. split; [exact H|]. split; [exact H1|exact H2].
Defined.

(** A wait with a zero timeout never blocks. If the object is not ready and no
    alert is pending the call returns [STATUS_TIMEOUT] and changes no object but the
    swap event. *)
Theorem zero_timeout_polls s o ob th Reason UserMode Alertable_ :
  dispatcher_ok s → CurrentThread s ≠ IdleThread s → Threads s !! CurrentThread s = Some th →
  KernelApcPending th = false → Objects s !! o = Some ob →
  ready_for (CurrentThread s) ob = false → (TestForAlertPending Alertable_ UserMode th).2 = None →
  ∃ s', KeWaitForSingleObject o Reason UserMode Alertable_ (Some 0) s =
      Some (WaitDone (Returned STATUS_TIMEOUT), s') ∧ dispatcher_ok s' ∧
    ∀ x, x ≠ KiSwapEvent → Objects s' !! x = Objects s !! x.
Proof.
  intros Hok Hni Hth Hapc Ho Hnr Hal.
  destruct (wait_entered s th Hok Hni Hth) as (s1 & th1 & Hbw & [H1 Hc Hni1 Hth1 Hb HO Hoth Hrs]).
  unfold KeWaitForSingleObject. rewrite Hbw. cbn [mbind option_bind].
  pose proof Ho as Ho1. rewrite <- HO in Ho1. rewrite <- Hc in Hnr.
  pose proof (begun_alert th th1 _ Alertable_ UserMode Hb) as Hal1. rewrite Hal in Hal1.
  destruct (pass_polled s1 o ob th1 Reason UserMode Alertable_ (Some 0) H1 Hni1 Hth1 Ho1
              (begun_apc _ _ _ _ Hb Hapc) Hnr Hal1 eq_refl) as (s' & -> & H' & [_ Ro _]).
  exists s'. split; [done|]. split; [done|]. intros x Hx. rewrite Ro by done. by rewrite <- HO.
Qed.

Lemma zero_timeout_polls_witness :
  ∃ s', KeWaitForSingleObject E1 0 false false (Some 0) s_created =
      Some (WaitDone (Returned STATUS_TIMEOUT), s').
Proof.
  edestruct (zero_timeout_polls s_created E1) with (Reason := 0) (UserMode := false)
    (Alertable_ := false) as (s' & H & _);
    [apply created_reach|vm_compute; discriminate|vm_compute; reflexivity|reflexivity
    |vm_compute; reflexivity|vm_compute; reflexivity|reflexivity|].
  exists s'. exact H.
Defined.

(** A wait any returns the first ready object. [KeWaitForMultipleObjects] for any
    of several objects of which some are ready returns the position of the first
    (with [STATUS_ABANDONED] added for an abandoned mutant), takes from that object
    alone what a wait takes, and changes no other object but the swap event. *)
Theorem wait_any_first_ready s th os i o ob Reason UserMode Alertable_ Timeout WaitBlockArray :
  dispatcher_ok s → CurrentThread s ≠ IdleThread s → Threads s !! CurrentThread s = Some th →
  KernelApcPending th = false → wait_objects s os →
  (length os ≤ if WaitBlockArray : bool then MAXIMUM_WAIT_OBJECTS else THREAD_WAIT_OBJECTS)%nat →
  first_ready s (CurrentThread s) os i o ob → SignalState ob ≠ MINLONG →
  ∃ s', KeWaitForMultipleObjects os WaitAny Reason UserMode Alertable_ Timeout WaitBlockArray s =
      Some (WaitDone (Returned (Z.lor (Z.of_nat i) (match Body ob with
        | MutantObject None true _ => STATUS_ABANDONED
        | _ => STATUS_SUCCESS end))), s') ∧ dispatcher_ok s' ∧
    ∀ x, x ≠ KiSwapEvent →
      Objects s' !! x = if decide (x = o) then Some (consumed (CurrentThread s) ob) else Objects s !! x.
Proof.
  intros Hok Hni Hth Hapc Hwo Hlen Hf Hmin.
  destruct (KeWaitForMultipleObjects_any s th os i o ob Reason UserMode Alertable_ Timeout
              WaitBlockArray Hok Hni Hth Hapc Hwo Hlen Hf Hmin) as (s' & -> & H' & Hobj).
  exists s'. split; [|done]. do 5 f_equal. unfold acquirer.
  by destruct (Body ob) as [ | |[] []| | | | | ].
Qed.

Lemma wait_any_first_ready_witness :
  ∃ s', KeWaitForMultipleObjects [E1; S4; M3] WaitAny 0 false false None false s_created =
      Some (WaitDone (Returned 2), s').
Proof.
  edestruct (wait_any_first_ready s_created) with (os := [E1; S4; M3]) (i := 2%nat) (o := M3)
    (Reason := 0) (UserMode := false) (Alertable_ := false) (Timeout := @None Z)
    (WaitBlockArray := false) as (s' & H & _);
    [apply created_reach|vm_compute; discriminate|vm_compute; reflexivity|reflexivity
    |apply created_objects; set_solver|simpl; unfold THREAD_WAIT_OBJECTS; lia| | |].
  - split; [reflexivity|]. split; [vm_compute; reflexivity|]. split; [reflexivity|].
    intros [|[|j]] o' ob' Hj Hl Ho'; [| |lia]; injection Hl as <-; vm_compute in Ho';
      injection Ho' as <-; reflexivity.
  - discriminate.
  - exists s'. exact H.
Defined.

(** C13: a wait all without timeout takes everything or nothing. For a call of
    [KeWaitForMultipleObjects] for all of several distinct objects ([wait_objects]: no
    queues, thread timers or the swap event; at most 64, or 3 without a wait block
    array), with no timeout and a valid wait reason, by a thread that is not the idle
    thread, is not processing a queue entry and has neither an alert nor a kernel APC
    pending, none of the objects being a mutant at its acquisition limit: if all objects are ready at the time of
    the call, it takes from each of them what a wait takes and returns; if one is
    not, the thread waits and no object's signal state or owner changes. *)
Theorem wait_all_atomic s th os Reason UserMode Alertable_ WaitBlockArray :
  dispatcher_ok s → Threads s !! CurrentThread s = Some th → KernelApcPending th = false →
  wait_call s Reason None → wait_objects s os → os ≠ [] →
  (length os ≤ if WaitBlockArray : bool then MAXIMUM_WAIT_OBJECTS else THREAD_WAIT_OBJECTS)%nat →
  NoDup os → (∀ o ob, o ∈ os → Objects s !! o = Some ob → ¬ at_limit (CurrentThread s) ob) →
  (TestForAlertPending Alertable_ UserMode th).2 = None →
  ∃ res s', KeWaitForMultipleObjects os WaitAll Reason UserMode Alertable_ None WaitBlockArray s =
      Some (res, s') ∧ dispatcher_ok s' ∧
    if all_ready s (CurrentThread s) os
    then (∃ status, res = WaitDone (Returned status)) ∧
      ∀ x, x ≠ KiSwapEvent → Objects s' !! x =
        (λ ob, if decide (x ∈ os) then consumed (CurrentThread s) ob else ob) <$> Objects s !! x
    else res = WaitBlocked ∧
      ∀ x, (λ ob, (SignalState ob, Body ob)) <$> Objects s' !! x =
           (λ ob, (SignalState ob, Body ob)) <$> Objects s !! x.
Proof. intros. by apply (KeWaitForMultipleObjects_all s th). Qed.

Lemma wait_all_atomic_witness :
  ∃ s', KeWaitForMultipleObjects [M3; E1] WaitAll 0 false false None false s_created =
      Some (WaitBlocked, s').
Proof.
  edestruct (wait_all_atomic s_created) with (os := [M3; E1]) (Reason := 0) (UserMode := false)
    (Alertable_ := false) (WaitBlockArray := false) as (res & s' & H & _ & H1);
    [apply created_reach|vm_compute; reflexivity|reflexivity|apply created_wait
    |apply created_objects; set_solver|discriminate|simpl; unfold THREAD_WAIT_OBJECTS; lia| | |reflexivity|].
  - apply NoDup_cons. split; [|apply NoDup_singleton]. by intros ?%list_elem_of_singleton.
  - intros o ob [->| ->%list_elem_of_singleton]%elem_of_cons Ho; vm_compute in Ho; injection Ho as <-;
      intros (a & d & _ & H); discriminate.
  - vm_compute in H1. destruct H1 as [-> _]. exists s'. exact H.
Defined.

(** A wait all for a mutant the thread already owns can wait for ever. In a
    reachable state a thread waits for its own mutant and an event together and the
    event is signaled: every object of the wait is one for which the thread would
    not wait ([ready_for], the test of [KeWaitForMultipleObjects]), but the test of
    [KiWaitTest] rejects the owned mutant and the thread was not woken. *)
Theorem wait_all_ignores_owned_mutant :
  ∃ s t th, dispatcher_ok start ∧ rtc dispatcher_step start s ∧
    Threads s !! t = Some th ∧ State th = Waiting ∧ WaitBlockList th ≠ [] ∧
    ∀ b, b ∈ WaitBlockList th → WaitType b = WaitAll ∧
      ∃ ob, Objects s !! WaitObject b = Some ob ∧ ready_for t ob = true.
Proof.
  eexists s_stuck, 1%nat, _. split; [apply start_ok|]. split; [apply stuck_reach|].
  split; [vm_compute; reflexivity|]. split; [reflexivity|]. split; [discriminate|].
  intros b [->| ->%list_elem_of_singleton]%elem_of_cons; (split; [reflexivity|]);
    (eexists; split; [vm_compute; reflexivity|reflexivity]).
Qed.
