(* ===== verification/Splay.v ===== *)
(** * Splay links ([RTL/SPLAY.C], macros of [NTRTL.H])

    Binary trees of links with parent pointers in a heap of link records. The
    routines take the heap and return it changed; [None] is a null or dangling
    pointer that is followed, or a loop that does not end. *)

From stdpp Require Import base list numbers option gmap.
From S2P Require Import Prelude.

Definition addr := nat.

Record RTL_SPLAY_LINKS := mkLinks
  { Parent : addr; LeftChild : option addr; RightChild : option addr }.

Abbreviation heap := (gmap addr RTL_SPLAY_LINKS).

(** ** The macros *)

Definition RtlInitializeSplayLinks (Links : addr) (h : heap) : heap :=
  <[Links := mkLinks Links None None]> h.

Definition RtlParent (Links : addr) (h : heap) : option addr := Parent <$> h !! Links.
Definition RtlLeftChild (Links : addr) (h : heap) : option (option addr) :=
  LeftChild <$> h !! Links.
Definition RtlRightChild (Links : addr) (h : heap) : option (option addr) :=
  RightChild <$> h !! Links.

Definition RtlIsRoot (Links : addr) (h : heap) : option bool :=
  p ← RtlParent Links h; Some (bool_decide (p = Links)).
Definition RtlIsLeftChild (Links : addr) (h : heap) : option bool :=
  p ← RtlParent Links h; c ← RtlLeftChild p h; Some (bool_decide (c = Some Links)).
Definition RtlIsRightChild (Links : addr) (h : heap) : option bool :=
  p ← RtlParent Links h; c ← RtlRightChild p h; Some (bool_decide (c = Some Links)).

(** Assignments to the fields of a link. *)
Definition set_parent (x v : addr) (h : heap) : option heap :=
  l ← h !! x; Some (<[x := mkLinks v (LeftChild l) (RightChild l)]> h).
Definition set_left (x : addr) (v : option addr) (h : heap) : option heap :=
  l ← h !! x; Some (<[x := mkLinks (Parent l) v (RightChild l)]> h).
Definition set_right (x : addr) (v : option addr) (h : heap) : option heap :=
  l ← h !! x; Some (<[x := mkLinks (Parent l) (LeftChild l) v]> h).

Definition RtlInsertAsLeftChild (ParentLinks ChildLinks : addr) (h : heap) : option heap :=
  h ← set_left ParentLinks (Some ChildLinks) h; set_parent ChildLinks ParentLinks h.
Definition RtlInsertAsRightChild (ParentLinks ChildLinks : addr) (h : heap) : option heap :=
  h ← set_right ParentLinks (Some ChildLinks) h; set_parent ChildLinks ParentLinks h.

(** The address of a child pointer: the link and which of its two fields. *)
Inductive child_ptr := LeftOf_ (x : addr) | RightOf_ (x : addr).

Definition ParentsChildPointerAddress (Links : addr) (h : heap) : option child_ptr :=
  b ← RtlIsLeftChild Links h;
  p ← RtlParent Links h;
  Some (if b : bool then LeftOf_ p else RightOf_ p).

Definition read_ptr (p : child_ptr) (h : heap) : option (option addr) :=
  match p with LeftOf_ x => RtlLeftChild x h | RightOf_ x => RtlRightChild x h end.
Definition write_ptr (p : child_ptr) (v : option addr) (h : heap) : option heap :=
  match p with LeftOf_ x => set_left x v h | RightOf_ x => set_right x v h end.

(** [if (c != NULL) {c->Parent = p;}] *)
Definition adopt (c : option addr) (p : addr) (h : heap) : option heap :=
  match c with Some c => set_parent c p h | None => Some h end.
Definition adopt_left (p : addr) (h : heap) : option heap :=
  c ← RtlLeftChild p h; adopt c p h.
Definition adopt_right (p : addr) (h : heap) : option heap :=
  c ← RtlRightChild p h; adopt c p h.

(** ** RtlSplay *)

(** [L] takes the place of [G] in the tree. *)
Definition replace_top (L G : addr) (h : heap) : option heap :=
  r ← RtlIsRoot G h;
  if r : bool then set_parent L L h
  else
    q ← RtlParent G h;
    h ← set_parent L q h;
    ptr ← ParentsChildPointerAddress G h;
    write_ptr ptr (Some L) h.

(** The body of the loop. *)
Definition splay_step (L : addr) (h : heap) : option heap :=
  P ← RtlParent L h;
  G ← RtlParent P h;
  left ← RtlIsLeftChild L h;
  root ← RtlIsRoot P h;
  if left : bool then
    if root : bool then
      c ← RtlRightChild L h; h ← set_left P c h; h ← adopt_left P h;
      h ← set_right L (Some P) h; h ← set_parent P L h;
      set_parent L L h
    else
      pleft ← RtlIsLeftChild P h;
      if pleft : bool then
        c ← RtlRightChild L h; h ← set_left P c h; h ← adopt_left P h;
        c ← RtlRightChild P h; h ← set_left G c h; h ← adopt_left G h;
        h ← replace_top L G h;
        h ← set_right L (Some P) h; h ← set_parent P L h;
        h ← set_right P (Some G) h; set_parent G P h
      else
        c ← RtlLeftChild L h; h ← set_right G c h; h ← adopt_right G h;
        c ← RtlRightChild L h; h ← set_left P c h; h ← adopt_left P h;
        h ← replace_top L G h;
        h ← set_left L (Some G) h; h ← set_parent G L h;
        h ← set_right L (Some P) h; set_parent P L h
  else
    if root : bool then
      c ← RtlLeftChild L h; h ← set_right P c h; h ← adopt_right P h;
      h ← set_left L (Some P) h; h ← set_parent P L h;
      set_parent L L h
    else
      pright ← RtlIsRightChild P h;
      if pright : bool then
        c ← RtlLeftChild P h; h ← set_right G c h; h ← adopt_right G h;
        c ← RtlLeftChild L h; h ← set_right P c h; h ← adopt_right P h;
        h ← replace_top L G h;
        h ← set_left L (Some P) h; h ← set_parent P L h;
        h ← set_left P (Some G) h; set_parent G P h
      else
        c ← RtlLeftChild L h; h ← set_right P c h; h ← adopt_right P h;
        c ← RtlRightChild L h; h ← set_left G c h; h ← adopt_left G h;
        h ← replace_top L G h;
        h ← set_left L (Some P) h; h ← set_parent P L h;
        h ← set_right L (Some G) h; set_parent G L h.

Fixpoint splay_loop (fuel : nat) (L : addr) (h : heap) : option (addr * heap) :=
  match fuel with
  | O => None
  | S fuel =>
      r ← RtlIsRoot L h;
      if r : bool then Some (L, h) else h ← splay_step L h; splay_loop fuel L h
  end.

(** Each turn raises the link by one or two levels. *)
Definition RtlSplay (Links : addr) (h : heap) : option (addr * heap) :=
  splay_loop (S (size h)) Links h.

(** ** Successors and predecessors *)

Fixpoint leftmost (fuel : nat) (Ptr : addr) (h : heap) : option addr :=
  match fuel with
  | O => None
  | S fuel =>
      c ← RtlLeftChild Ptr h;
      match c with Some c => leftmost fuel c h | None => Some Ptr end
  end.

Fixpoint rightmost (fuel : nat) (Ptr : addr) (h : heap) : option addr :=
  match fuel with
  | O => None
  | S fuel =>
      c ← RtlRightChild Ptr h;
      match c with Some c => rightmost fuel c h | None => Some Ptr end
  end.

Definition RtlSubtreeSuccessor (Links : addr) (h : heap) : option (option addr) :=
  c ← RtlRightChild Links h;
  match c with Some c => Some <$> leftmost (S (size h)) c h | None => Some None end.

Definition RtlSubtreePredecessor (Links : addr) (h : heap) : option (option addr) :=
  c ← RtlLeftChild Links h;
  match c with Some c => Some <$> rightmost (S (size h)) c h | None => Some None end.

(** [while (RtlIsRightChild(Ptr)) Ptr = RtlParent(Ptr)], and its mirror image. *)
Fixpoint up_right (fuel : nat) (Ptr : addr) (h : heap) : option addr :=
  match fuel with
  | O => None
  | S fuel =>
      b ← RtlIsRightChild Ptr h;
      if b : bool then p ← RtlParent Ptr h; up_right fuel p h else Some Ptr
  end.

Fixpoint up_left (fuel : nat) (Ptr : addr) (h : heap) : option addr :=
  match fuel with
  | O => None
  | S fuel =>
      b ← RtlIsLeftChild Ptr h;
      if b : bool then p ← RtlParent Ptr h; up_left fuel p h else Some Ptr
  end.

Definition RtlRealSuccessor (Links : addr) (h : heap) : option (option addr) :=
  c ← RtlRightChild Links h;
  match c with
  | Some c => Some <$> leftmost (S (size h)) c h
  | None =>
      Ptr ← up_right (S (size h)) Links h;
      b ← RtlIsLeftChild Ptr h;
      if b : bool then Some <$> RtlParent Ptr h else Some None
  end.

Definition RtlRealPredecessor (Links : addr) (h : heap) : option (option addr) :=
  c ← RtlLeftChild Links h;
  match c with
  | Some c => Some <$> rightmost (S (size h)) c h
  | None =>
      Ptr ← up_left (S (size h)) Links h;
      b ← RtlIsRightChild Ptr h;
      if b : bool then Some <$> RtlParent Ptr h else Some None
  end.

(** ** RtlDelete *)

(** [SwapPointers] of the child pointers of two links. *)
Definition swap_left (x y : addr) (h : heap) : option heap :=
  a ← RtlLeftChild x h; b ← RtlLeftChild y h; h ← set_left x b h; set_left y a h.
Definition swap_right (x y : addr) (h : heap) : option heap :=
  a ← RtlRightChild x h; b ← RtlRightChild y h; h ← set_right x b h; set_right y a h.

Definition SwapSplayLinks (Link1 Link2 : addr) (h : heap) : option heap :=
  r1 ← RtlIsRoot Link1 h;
  p2 ← RtlParent Link2 h;
  let '(Link1, Link2) :=
    if (r1 : bool) || bool_decide (p2 = Link1) then (Link2, Link1) else (Link1, Link2) in
  p1 ← RtlParent Link1 h;
  p2 ← RtlParent Link2 h;
  root2 ← RtlIsRoot Link2 h;
  h ← (if bool_decide (p1 ≠ Link2) then
         h ← (if negb root2 then
                Parent1ChildPtr ← ParentsChildPointerAddress Link1 h;
                Parent2ChildPtr ← ParentsChildPointerAddress Link2 h;
                a ← read_ptr Parent1ChildPtr h;
                b ← read_ptr Parent2ChildPtr h;
                h ← write_ptr Parent1ChildPtr b h;
                h ← write_ptr Parent2ChildPtr a h;
                h ← set_parent Link1 p2 h;
                set_parent Link2 p1 h
              else
                Parent1ChildPtr ← ParentsChildPointerAddress Link1 h;
                h ← write_ptr Parent1ChildPtr (Some Link2) h;
                h ← set_parent Link2 p1 h;
                set_parent Link1 Link1 h);
         h ← swap_left Link1 Link2 h;
         swap_right Link1 Link2 h
       else
         h ← (if negb root2 then
                Parent2ChildPtr ← ParentsChildPointerAddress Link2 h;
                h ← write_ptr Parent2ChildPtr (Some Link1) h;
                set_parent Link1 p2 h
              else set_parent Link1 Link1 h);
         h ← swap_left Link1 Link2 h;
         h ← swap_right Link1 Link2 h;
         c ← RtlLeftChild Link1 h;
         if bool_decide (c = Some Link1) then set_left Link1 (Some Link2) h
         else set_right Link1 (Some Link2) h);
  h ← adopt_left Link1 h;
  h ← adopt_right Link1 h;
  h ← adopt_left Link2 h;
  adopt_right Link2 h.

(** The tail of [RtlDelete]: the link has at most one child. *)
Definition unlink (Links : addr) (h : heap) : option (option addr * heap) :=
  l ← RtlLeftChild Links h;
  r ← RtlRightChild Links h;
  root ← RtlIsRoot Links h;
  match l, r with
  | None, None =>
      if root : bool then Some (None, h)
      else
        Parent ← RtlParent Links h;
        ParentChildPtr ← ParentsChildPointerAddress Links h;
        h ← write_ptr ParentChildPtr None h;
        '(x, h) ← RtlSplay Parent h; Some (Some x, h)
  | Some Child, _ | None, Some Child =>
      if root : bool then h ← set_parent Child Child h; Some (Some Child, h)
      else
        ParentChildPtr ← ParentsChildPointerAddress Links h;
        h ← write_ptr ParentChildPtr (Some Child) h;
        p ← RtlParent Links h;
        h ← set_parent Child p h;
        p ← RtlParent Child h;
        '(x, h) ← RtlSplay p h; Some (Some x, h)
  end.

Definition RtlDelete (Links : addr) (h : heap) : option (option addr * heap) :=
  l ← RtlLeftChild Links h;
  r ← RtlRightChild Links h;
  h ← match l, r with
      | Some _, Some _ =>
          p ← RtlSubtreePredecessor Links h;
          match p with Some Predecessor => SwapSplayLinks Predecessor Links h | None => None end
      | _, _ => Some h
      end;
  unlink Links h.
