(* ===== verification/SplayTree.v ===== *)
(** * Trees in the heap

    A separation-style view of the heap: [holds cs h] says that the heap has the
    listed cells, at pairwise different addresses. The cells of a tree, and of a tree
    with a hole, are lists; the order of cells does not matter. Then the routines
    against trees. *)

From stdpp Require Import base list list_tactics numbers option gmap.
From S2P Require Import Prelude Splay.

Abbreviation cell := (addr * RTL_SPLAY_LINKS)%type.

Definition holds (cs : list cell) (h : heap) : Prop :=
  NoDup cs.*1 ∧ ∀ x v, (x, v) ∈ cs → h !! x = Some v.

#[export] Instance holds_proper : Proper ((≡ₚ) ==> (=) ==> iff) holds.
Proof.
  intros cs cs' Hp h h' ->. unfold holds. rewrite Hp. split; intros [? H]; (split; [done|]);
    intros x v Hin; apply H; by rewrite Hp || rewrite <- Hp.
Qed.

Lemma holds_lookup x v cs h : holds ((x, v) :: cs) h → h !! x = Some v.
Proof. intros [_ H]. apply H. by left. Qed.

Lemma holds_update x v v' cs h : holds ((x, v) :: cs) h → holds ((x, v') :: cs) (<[x := v']> h).
Proof.
  intros [Hnd H]. split; [done|]. intros y w. rewrite elem_of_cons. intros [[= -> ->]|Hin].
  - apply lookup_insert_eq.
  - rewrite lookup_insert_ne; [apply H; by right|]. intros ->.
    apply NoDup_cons in Hnd as [Hx _]. apply Hx. simpl. apply list_elem_of_fmap. by exists (y, w).
Qed.

Lemma holds_new x v cs h : h !! x = None → holds cs h → holds ((x, v) :: cs) (<[x := v]> h).
Proof.
  intros Hx [Hnd H]. split.
  - simpl. apply NoDup_cons. split; [|done]. intros ([y w] & Heq & Hin)%list_elem_of_fmap.
    simpl in Heq. subst y. apply H in Hin. congruence.
  - intros y w. rewrite elem_of_cons. intros [[= -> ->]|Hin]; [apply lookup_insert_eq|].
    rewrite lookup_insert_ne; [by apply H|]. intros ->. apply H in Hin. congruence.
Qed.

Lemma holds_app_r cs cs' h : holds (cs ++ cs') h → holds cs' h.
Proof.
  intros [Hnd H]. rewrite fmap_app in Hnd. apply NoDup_app in Hnd as (_ & _ & ?). split; [done|].
  intros x v Hin. apply H. apply elem_of_app. by right.
Qed.

Lemma holds_app_l cs cs' h : holds (cs ++ cs') h → holds cs h.
Proof. rewrite (Permutation_app_comm cs). apply holds_app_r. Qed.

(** Every cell has an address of its own in the heap: the fuel of the loops. *)
Lemma holds_size cs h : holds cs h → (length cs ≤ size h)%nat.
Proof.
  intros [Hnd H]. rewrite <- (length_fmap fst cs), <- (size_list_to_set (C := gset addr)) by done.
  rewrite <- size_dom. apply subseteq_size. intros x. rewrite elem_of_list_to_set, elem_of_dom.
  intros ([y v] & -> & Hin)%list_elem_of_fmap. exists v. by apply H.
Qed.

Lemma holds_ne x v y w cs h : holds ((x, v) :: (y, w) :: cs) h → x ≠ y.
Proof. intros [[Hx _]%NoDup_cons _] ->. apply Hx. by left. Qed.

(** ** Trees *)

Inductive tree := Leaf | Node (l : tree) (x : addr) (r : tree).

Definition root (t : tree) : option addr := match t with Leaf => None | Node _ x _ => Some x end.

Fixpoint inorder (t : tree) : list addr :=
  match t with Leaf => [] | Node l x r => inorder l ++ x :: inorder r end.

(** The cells of a tree whose root has parent [q]; the root of a whole tree
    ([None]) is its own parent. *)
Fixpoint cells (q : option addr) (t : tree) : list cell :=
  match t with
  | Leaf => []
  | Node l x r =>
      (x, mkLinks (default x q) (root l) (root r)) :: cells (Some x) l ++ cells (Some x) r
  end.

(** One step of the way from a subtree to the root: the subtree is a left or right
    child, with a sibling. *)
Inductive frame := LeftOf (P : addr) (c : tree) | RightOf (c : tree) (P : addr).

Definition above (f : frame) : addr := match f with LeftOf P _ | RightOf _ P => P end.
Definition sibling (f : frame) : tree := match f with LeftOf _ c | RightOf c _ => c end.

Definition context := list frame.

Fixpoint plug (k : context) (t : tree) : tree :=
  match k with
  | [] => t
  | LeftOf P c :: k => plug k (Node t P c)
  | RightOf c P :: k => plug k (Node c P t)
  end.

Definition hole_parent (k : context) (q : option addr) : option addr :=
  match k with [] => q | f :: _ => Some (above f) end.

(** The cells of a tree with a hole, in which [x] is linked. *)
Fixpoint context_cells (k : context) (x : option addr) (q : option addr) : list cell :=
  match k with
  | [] => []
  | f :: k =>
      (above f, match f with
                | LeftOf P c => mkLinks (default P (hole_parent k q)) x (root c)
                | RightOf c P => mkLinks (default P (hole_parent k q)) (root c) x
                end) :: cells (Some (above f)) (sibling f) ++ context_cells k (Some (above f)) q
  end.

Lemma plug_cells k q : ∀ t,
  cells q (plug k t) ≡ₚ cells (hole_parent k q) t ++ context_cells k (root t) q.
Proof.
  induction k as [|[P c|c P] k IH]; intros t; simpl plug; simpl context_cells.
  - by rewrite app_nil_r.
  - rewrite IH. simpl. solve_Permutation.
  - rewrite IH. simpl. solve_Permutation.
Qed.

(** A node of a tree, with what lies around it. *)
Lemma node_cells k a x b q :
  cells q (plug k (Node a x b)) ≡ₚ
    (x, mkLinks (default x (hole_parent k q)) (root a) (root b)) ::
      cells (Some x) a ++ cells (Some x) b ++ context_cells k (Some x) q.
Proof. rewrite plug_cells. simpl. solve_Permutation. Qed.

Lemma cells_addresses t q : (cells q t).*1 ≡ₚ inorder t.
Proof.
  revert q. induction t as [|l IHl x r IHr]; intros q; [done|]. simpl.
  rewrite fmap_app, IHl, IHr. solve_Permutation.
Qed.

Lemma length_cells t q : length (cells q t) = length (inorder t).
Proof. by rewrite <- (length_fmap fst), cells_addresses. Qed.

Lemma inorder_nodup t q R h : holds (cells q t ++ R) h → NoDup (inorder t).
Proof.
  intros [Hnd _]%holds_app_l. by rewrite cells_addresses in Hnd.
Qed.

(** The nodes before and after the hole. *)
Fixpoint before (k : context) : list addr :=
  match k with
  | [] => [] | LeftOf P c :: k => before k | RightOf c P :: k => before k ++ inorder c ++ [P]
  end.
Fixpoint after (k : context) : list addr :=
  match k with
  | [] => [] | LeftOf P c :: k => P :: inorder c ++ after k | RightOf c P :: k => after k
  end.

Lemma plug_inorder k : ∀ t, inorder (plug k t) = before k ++ inorder t ++ after k.
Proof.
  induction k as [|[P c|c P] k IH]; intros t; simpl; [by rewrite app_nil_r|..];
    rewrite IH; simpl; by rewrite <- ?app_assoc.
Qed.

Lemma plug_app k k' t : plug (k ++ k') t = plug k' (plug k t).
Proof. revert t. by induction k as [|[P c|c P] k IH]; intros t; simpl. Qed.

Lemma locate t x : x ∈ inorder t → ∃ k a b, t = plug k (Node a x b).
Proof.
  induction t as [|l IHl y r IHr]; [by intros ?%elem_of_nil|]. simpl.
  rewrite elem_of_app, elem_of_cons. intros [Hl|[->|Hr]].
  - destruct (IHl Hl) as (k & a & b & ->). exists (k ++ [LeftOf y r]), a, b. by rewrite plug_app.
  - by exists [], l, r.
  - destruct (IHr Hr) as (k & a & b & ->). exists (k ++ [RightOf l y]), a, b. by rewrite plug_app.
Qed.

Lemma length_context_cells k x q : (length k ≤ length (context_cells k x q))%nat.
Proof.
  revert x. induction k as [|f k IH]; intros x; simpl; [done|]. rewrite length_app.
  specialize (IH (Some (above f))). lia.
Qed.

(** ** The heap operations on cells *)

Section operations.
Context {x p : addr} {l r : option addr} {cs : list cell} {h : heap}.
Hypothesis H : holds ((x, mkLinks p l r) :: cs) h.

Lemma parent_of : RtlParent x h = Some p.
Proof using H. unfold RtlParent. by rewrite (holds_lookup _ _ _ _ H). Qed.
Lemma left_of : RtlLeftChild x h = Some l.
Proof using H. unfold RtlLeftChild. by rewrite (holds_lookup _ _ _ _ H). Qed.
Lemma right_of : RtlRightChild x h = Some r.
Proof using H. unfold RtlRightChild. by rewrite (holds_lookup _ _ _ _ H). Qed.
Lemma is_root_of : RtlIsRoot x h = Some (bool_decide (p = x)).
Proof using H. unfold RtlIsRoot. by rewrite parent_of. Qed.

Lemma set_parent_of v :
  ∃ h', set_parent x v h = Some h' ∧ holds ((x, mkLinks v l r) :: cs) h'.
Proof using H.
  unfold set_parent. rewrite (holds_lookup _ _ _ _ H). eexists. split; [done|].
  by eapply holds_update.
Qed.
Lemma set_left_of v :
  ∃ h', set_left x v h = Some h' ∧ holds ((x, mkLinks p v r) :: cs) h'.
Proof using H.
  unfold set_left. rewrite (holds_lookup _ _ _ _ H). eexists. split; [done|].
  by eapply holds_update.
Qed.
Lemma set_right_of v :
  ∃ h', set_right x v h = Some h' ∧ holds ((x, mkLinks p l v) :: cs) h'.
Proof using H.
  unfold set_right. rewrite (holds_lookup _ _ _ _ H). eexists. split; [done|].
  by eapply holds_update.
Qed.
End operations.

Lemma adopt_of q t p cs h :
  holds (cells q t ++ cs) h →
  ∃ h', adopt (root t) p h = Some h' ∧ holds (cells (Some p) t ++ cs) h'.
Proof.
  destruct t as [|a x b]; simpl; [by eauto|]. intros H. apply (set_parent_of H).
Qed.

(** Which child a link is. *)
Lemma is_left_of x c p l r pp cs h :
  holds ((x, c) :: (p, mkLinks pp l r) :: cs) h → Parent c = p →
  RtlIsLeftChild x h = Some (bool_decide (l = Some x)).
Proof.
  intros H Hp. unfold RtlIsLeftChild, RtlParent. rewrite (holds_lookup _ _ _ _ H). simpl.
  rewrite Hp. unfold RtlLeftChild.
  assert (h !! p = Some (mkLinks pp l r)) as -> by (apply H; right; by left). done.
Qed.
Lemma is_right_of x c p l r pp cs h :
  holds ((x, c) :: (p, mkLinks pp l r) :: cs) h → Parent c = p →
  RtlIsRightChild x h = Some (bool_decide (r = Some x)).
Proof.
  intros H Hp. unfold RtlIsRightChild, RtlParent. rewrite (holds_lookup _ _ _ _ H). simpl.
  rewrite Hp. unfold RtlRightChild.
  assert (h !! p = Some (mkLinks pp l r)) as -> by (apply H; right; by left). done.
Qed.

(** The root of a tree is none of the other cells. *)
Lemma root_ne q t x v cs h : holds ((x, v) :: cells q t ++ cs) h → root t ≠ Some x.
Proof.
  destruct t as [|a y b]; [done|]. simpl. intros Hh [= ->]. by apply holds_ne in Hh.
Qed.

(** ** RtlSplay implements bottom-up splaying

    The heap routine is run symbolically on the cells of a tree with the link in
    its context; the result is the functional [splay_up], which has the same nodes
    in the same order. *)

(** Induction by two elements, as the loop goes. *)
Lemma two_step_ind {A} (P : list A → Prop) :
  P [] → (∀ x, P [x]) → (∀ x y l, P l → P (x :: y :: l)) → ∀ l, P l.
Proof.
  intros H0 H1 H2 l. enough (P l ∧ ∀ x, P (x :: l)) by tauto.
  induction l as [|y l [IH1 IH2]]; auto.
Qed.

(** ** Running heap code *)

Definition returns {A} (e : option A) (Q : A → Prop) : Prop := ∃ a, e = Some a ∧ Q a.

Lemma returns_bind {A B} (e : option A) (K : A → option B) Q :
  returns e (λ a, returns (K a) Q) → returns (e ≫= K) Q.
Proof. intros (a & -> & Ha). exact Ha. Qed.

Lemma returns_fmap {A B} (f : A → B) (e : option A) Q :
  returns e (λ a, Q (f a)) → returns (f <$> e) Q.
Proof. intros (a & -> & Ha). by exists (f a). Qed.

Lemma returns_eq {A} (e : option A) a (Q : A → Prop) : e = Some a → Q a → returns e Q.
Proof. intros -> H. by exists a. Qed.

Lemma returns_mono {A} (e : option A) (Q Q' : A → Prop) :
  returns e Q → (∀ a, Q a → Q' a) → returns e Q'.
Proof. intros (a & -> & Ha) HQ. exists a. auto. Qed.

Lemma holds_perm cs cs' h : cs ≡ₚ cs' → holds cs h → holds cs' h.
Proof. by intros ->. Qed.

(** Brings a cell, or the cells of a subtree, to the front. *)
Ltac focus H x :=
  lazymatch type of H with
  | holds ?cs _ =>
      match cs with
      | context C [(x, ?v) :: ?tl] =>
          let r := context C [tl] in
          apply (holds_perm cs ((x, v) :: r)) in H; [|solve_Permutation]
      end
  end.
Ltac focus_tree H t :=
  lazymatch type of H with
  | holds ?cs _ =>
      match cs with
      | context C [cells ?q t ++ ?tl] =>
          let r := context C [tl] in
          apply (holds_perm cs (cells q t ++ r)) in H; [|solve_Permutation]
      end
  end.
Ltac focus_parent H x :=
  focus H x;
  lazymatch type of H with
  | holds ((_, mkLinks ?p _ _) :: _) _ => focus H p; focus H x
  end.

(** One heap operation; [H] says what the heap holds before and after. *)
Ltac write H lem :=
  let h := fresh "h" in let Hw := fresh in let Heq := fresh in
  destruct lem as (h & Heq & Hw); clear H; rename Hw into H;
  apply (returns_eq _ _ _ Heq); clear Heq.
Ltac operation H e :=
  lazymatch e with
  | RtlParent ?x _ => focus H x; apply (returns_eq _ _ _ (parent_of H))
  | RtlLeftChild ?x _ => focus H x; apply (returns_eq _ _ _ (left_of H))
  | RtlRightChild ?x _ => focus H x; apply (returns_eq _ _ _ (right_of H))
  | RtlIsRoot ?x _ => focus H x; apply (returns_eq _ _ _ (is_root_of H))
  | RtlIsLeftChild ?x _ =>
      focus_parent H x; apply (returns_eq _ _ _ (is_left_of _ _ _ _ _ _ _ _ H eq_refl))
  | RtlIsRightChild ?x _ =>
      focus_parent H x; apply (returns_eq _ _ _ (is_right_of _ _ _ _ _ _ _ _ H eq_refl))
  | Some ?v => apply (returns_eq (Some v) v _ eq_refl)
  | write_ptr (LeftOf_ ?x) ?v _ => focus H x; write H (set_left_of H v)
  | write_ptr (RightOf_ ?x) ?v _ => focus H x; write H (set_right_of H v)
  | set_parent ?x ?v _ => focus H x; write H (set_parent_of H v)
  | set_left ?x ?v _ => focus H x; write H (set_left_of H v)
  | set_right ?x ?v _ => focus H x; write H (set_right_of H v)
  | adopt (Some ?x) ?p _ => focus H x; write H (set_parent_of H p)
  | adopt None _ _ => apply (returns_eq _ _ _ eq_refl)
  | adopt (root ?t) ?p _ => focus_tree H t; write H (adopt_of _ t p _ _ H)
  | adopt_left ?p _ =>
      focus H p; apply returns_bind, (returns_eq _ _ _ (left_of H));
      lazymatch goal with
      | |- returns (adopt (root ?t) p _) _ => focus_tree H t; write H (adopt_of _ t p _ _ H)
      end
  | adopt_right ?p _ =>
      focus H p; apply returns_bind, (returns_eq _ _ _ (right_of H));
      lazymatch goal with
      | |- returns (adopt (root ?t) p _) _ => focus_tree H t; write H (adopt_of _ t p _ _ H)
      end
  end.
Ltac run H :=
  cbv beta;
  lazymatch goal with
  | |- returns (_ ≫= _) _ => apply returns_bind; run H
  | |- returns (_ <$> _) _ => apply returns_fmap; run H
  | |- returns ?e _ => operation H e
  end.
(** Decides a test of the code. *)
Ltac test b := lazymatch b with
  | true => rewrite bool_decide_true by congruence
  | false => rewrite bool_decide_false by congruence
  end.

(** ** Child pointers *)

(** The child pointer that leads to a hole. *)
Definition hole_ptr (f : frame) : child_ptr :=
  match f with LeftOf P _ => LeftOf_ P | RightOf _ P => RightOf_ P end.

Section hole.
Context {f : frame} {k : context} {q : option addr} {R : list cell} {h : heap}.

Lemma hole_ptr_of x l r :
  holds ((x, mkLinks (above f) l r) :: context_cells (f :: k) (Some x) q ++ R) h →
  ParentsChildPointerAddress x h = Some (hole_ptr f).
Proof.
  intros H. unfold ParentsChildPointerAddress. destruct f as [P c|c P]; simpl in H |- *.
  - focus_parent H x. rewrite (is_left_of _ _ _ _ _ _ _ _ H eq_refl). test true.
    cbn [mbind option_bind]. by rewrite (parent_of H).
  - pose proof H as Hne. focus_tree Hne c. focus Hne x. apply root_ne in Hne.
    focus_parent H x. rewrite (is_left_of _ _ _ _ _ _ _ _ H eq_refl). test false.
    cbn [mbind option_bind]. by rewrite (parent_of H).
Qed.

Lemma read_hole x : holds (context_cells (f :: k) x q ++ R) h → read_ptr (hole_ptr f) h = Some x.
Proof.
  intros H. destruct f; simpl in H |- *; [apply (left_of H)|apply (right_of H)].
Qed.

Lemma write_hole x y :
  holds (context_cells (f :: k) x q ++ R) h →
  ∃ h', write_ptr (hole_ptr f) y h = Some h' ∧ holds (context_cells (f :: k) y q ++ R) h'.
Proof.
  intros H. destruct f; simpl in H |- *; [apply (set_left_of H)|apply (set_right_of H)].
Qed.

Lemma hole_above_ne x v y : holds ((x, v) :: context_cells (f :: k) y q ++ R) h → above f ≠ x.
Proof. intros H <-. simpl in H. by apply holds_ne in H. Qed.
End hole.

(** [L] takes the place of [G] under the rest of the tree. *)
Lemma replace_top_of k L G p l r gl gr R h :
  holds ((L, mkLinks p l r) :: (G, mkLinks (default G (hole_parent k None)) gl gr) ::
         context_cells k (Some G) None ++ R) h →
  returns (replace_top L G h)
    (holds ((L, mkLinks (default L (hole_parent k None)) l r) ::
            (G, mkLinks (default G (hole_parent k None)) gl gr) ::
            context_cells k (Some L) None ++ R)).
Proof.
  intros H. unfold replace_top. destruct k as [|f k].
  - simpl in *. run H. test true. run H. eapply holds_perm; [|exact H]. solve_Permutation.
  - change (default G (hole_parent (f :: k) None)) with (above f) in *.
    change (default L (hole_parent (f :: k) None)) with (above f).
    focus H G. apply (holds_perm _ ((G, mkLinks (above f) gl gr) ::
      context_cells (f :: k) (Some G) None ++ (L, mkLinks p l r) :: R)) in H; [|solve_Permutation].
    pose proof (hole_above_ne _ _ _ H) as Hne. run H. test false. run H. run H.
    apply (holds_perm _ ((G, mkLinks (above f) gl gr) :: context_cells (f :: k) (Some G) None ++
      (L, mkLinks (above f) l r) :: R)) in H; [|solve_Permutation].
    rewrite (hole_ptr_of _ _ _ H). cbn [mbind option_bind].
    apply (holds_perm _ (context_cells (f :: k) (Some G) None ++
      (G, mkLinks (above f) gl gr) :: (L, mkLinks (above f) l r) :: R)) in H; [|solve_Permutation].
    destruct (write_hole _ (Some L) H) as (h' & -> & H'). exists h'. split; [done|].
    eapply holds_perm; [|exact H']. solve_Permutation.
Qed.

(** ** The six cases of the loop body *)

(** The tree around [L], one level up or two. *)
Definition zig (f : frame) (a b : tree) : tree * tree :=
  match f with
  | LeftOf P c => (a, Node b P c)
  | RightOf c P => (Node c P a, b)
  end.

Definition zig_zig (f g : frame) (a b : tree) : tree * tree :=
  match f, g with
  | LeftOf P c, LeftOf G d => (a, Node b P (Node c G d))
  | LeftOf P c, RightOf d G => (Node d G a, Node b P c)
  | RightOf c P, RightOf d G => (Node (Node d G c) P a, b)
  | RightOf c P, LeftOf G d => (Node c P a, Node b G d)
  end.

Definition placed (k : context) (L : addr) (ab : tree * tree) (R : list cell) (h : heap) : Prop :=
  holds (cells None (plug k (Node ab.1 L ab.2)) ++ R) h.

Ltac replaced H L G k :=
  apply returns_bind;
  focus H G; focus H L; rewrite <- ?app_assoc in H;
  lazymatch type of H with
  | holds ((L, ?vl) :: (G, ?vg) :: ?rest) _ =>
      match rest with
      | context C [context_cells k (Some G) None ++ ?tl] =>
          let r := context C [tl] in
          apply (holds_perm _ ((L, vl) :: (G, vg) :: context_cells k (Some G) None ++ r)) in H;
            [|solve_Permutation]
      end
  end;
  let Hr := fresh in
  pose proof (replace_top_of _ _ _ _ _ _ _ _ _ _ H) as Hr; clear H;
  eapply returns_mono; [exact Hr|]; clear Hr; intros ? H.

Ltac finish H := eapply holds_perm; [|exact H]; rewrite ?node_cells; simpl; solve_Permutation.

Lemma splay_step_zig f L a b R h :
  placed [f] L (a, b) R h → returns (splay_step L h) (placed [] L (zig f a b) R).
Proof.
  unfold placed. simpl fst. simpl snd. rewrite node_cells. intros H. unfold splay_step.
  destruct f as [P c|c P]; simpl in H |- *.
  - run H. run H. run H. test true. run H. test true.
    run H. run H. run H. run H. run H. run H. finish H.
  - pose proof H as Hne. focus_tree Hne c. focus Hne L. apply root_ne in Hne.
    run H. run H. run H. test false. run H. test true.
    run H. run H. run H. run H. run H. run H. finish H.
Qed.

Lemma splay_step_zig_zig f g k L a b R h :
  placed (f :: g :: k) L (a, b) R h → returns (splay_step L h) (placed k L (zig_zig f g a b) R).
Proof.
  unfold placed. simpl fst. simpl snd. rewrite node_cells. intros H. unfold splay_step.
  assert (Hpg : above g ≠ above f).
  { pose proof H as Hn. simpl in Hn. focus Hn (above g). focus Hn (above f). by apply holds_ne in Hn. }
  destruct f as [P c|c P], g as [G d|d G]; simpl in H, Hpg |- *; rewrite <- ?app_assoc in H.
  - run H. run H. run H. test true. run H. test false. run H. test true.
    run H. run H. run H. run H. run H. run H. replaced H L G k.
    run H. run H. run H. run H. finish H.
  - pose proof H as Hne. focus_tree Hne d. focus Hne P. apply root_ne in Hne.
    run H. run H. run H. test true. run H. test false. run H. test false.
    run H. run H. run H. run H. run H. run H. replaced H L G k.
    run H. run H. run H. run H. finish H.
  - pose proof H as Hne. focus_tree Hne c. focus Hne L. apply root_ne in Hne.
    pose proof H as Hne'. focus_tree Hne' d. focus Hne' P. apply root_ne in Hne'.
    run H. run H. run H. test false. run H. test false. run H. test false.
    run H. run H. run H. run H. run H. run H. replaced H L G k.
    run H. run H. run H. run H. finish H.
  - pose proof H as Hne. focus_tree Hne c. focus Hne L. apply root_ne in Hne.
    run H. run H. run H. test false. run H. test false. run H. test true.
    run H. run H. run H. run H. run H. run H. replaced H L G k.
    run H. run H. run H. run H. finish H.
Qed.

(** ** The loop *)

(** Bottom-up splaying of the link in context [k] with subtrees [a] and [b]. *)
Fixpoint splay_up (k : context) (L : addr) (ab : tree * tree) : tree :=
  match k with
  | [] => Node ab.1 L ab.2
  | [f] => let '(a, b) := zig f ab.1 ab.2 in Node a L b
  | f :: g :: k => splay_up k L (zig_zig f g ab.1 ab.2)
  end.

Lemma splay_up_root k L ab : ∃ a b, splay_up k L ab = Node a L b.
Proof.
  revert ab. induction k as [|f|f g k IH] using two_step_ind; intros ab; simpl; [by eauto| |apply IH].
  destruct (zig _ _ _); eauto.
Qed.

Lemma splay_up_inorder k L ab :
  inorder (splay_up k L ab) = inorder (plug k (Node ab.1 L ab.2)).
Proof.
  revert ab. induction k as [|f|f g k IH] using two_step_ind; intros [a b]; simpl; [done| |].
  - destruct f; simpl; by repeat (rewrite <- app_assoc; simpl).
  - rewrite IH. destruct f, g; simpl plug; rewrite !plug_inorder; simpl;
      by repeat (rewrite <- app_assoc; simpl).
Qed.

Lemma splay_loop_ok n k L ab R h :
  placed k L ab R h → (length k < n)%nat →
  returns (splay_loop n L h) (λ r, r.1 = L ∧ holds (cells None (splay_up k L ab) ++ R) r.2).
Proof.
  revert k ab h. induction n as [|n IH]; intros k [a b] h H Hn; [lia|]. simpl splay_loop.
  assert (Hroot : returns (RtlIsRoot L h) (λ r, r = bool_decide (k = []))).
  { unfold placed in H. rewrite node_cells in H. simpl in H. run H.
    apply bool_decide_ext. destruct k as [|f k]; [done|]. simpl in H |- *. split; [|done].
    intros Heq. focus H (above f). focus H L. by apply holds_ne in H. }
  destruct Hroot as (r & -> & ->). cbn [mbind option_bind].
  destruct k as [|f [|g k]].
  - by exists (L, h).
  - rewrite bool_decide_false by done. apply returns_bind.
    eapply returns_mono; [by apply (splay_step_zig f)|]. intros h1 H1.
    eapply returns_mono; [apply (IH [] (zig f a b)); [done|simpl in *; lia]|].
    intros r. simpl. by destruct (zig f a b).
  - rewrite bool_decide_false by done. apply returns_bind.
    eapply returns_mono; [by apply (splay_step_zig_zig f g)|]. intros h1 H1.
    apply (IH k (zig_zig f g a b)); [done|simpl in *; lia].
Qed.

Lemma placed_length k L ab R h : placed k L ab R h → (length k < S (size h))%nat.
Proof.
  unfold placed. rewrite node_cells. intros H. apply holds_app_l in H.
  apply holds_size in H. revert H. simpl. rewrite !length_app.
  pose proof (length_context_cells k (Some L) None). lia.
Qed.

Lemma RtlSplay_ok k L ab R h :
  placed k L ab R h →
  returns (RtlSplay L h) (λ r, r.1 = L ∧ holds (cells None (splay_up k L ab) ++ R) r.2).
Proof. intros H. apply splay_loop_ok; [done|]. by eapply placed_length. Qed.
