(* ===== verification/SplayDelete.v ===== *)
(** * Successors, predecessors and RtlDelete *)

From stdpp Require Import base list list_tactics numbers option gmap.
From S2P Require Import Prelude Splay SplayTree.

(** ** Walks down and up *)

Lemma leftmost_ok t : ∀ x q R h n,
  root t = Some x → holds (cells q t ++ R) h → (length (inorder t) ≤ n)%nat →
  returns (leftmost n x h) (λ y, head (inorder t) = Some y).
Proof.
  induction t as [|l IHl y r _]; intros x q R h n Hx H Hn; [done|]. injection Hx as ->.
  simpl in Hn. rewrite length_app in Hn. simpl in Hn. destruct n as [|n]; [lia|].
  simpl in H |- *. rewrite <- app_assoc in H. run H. focus_tree H l.
  destruct l as [|ll z lr]; [by exists x|].
  eapply returns_mono; [apply (IHl z _ _ _ n eq_refl H); lia|].
  intros a Ha. simpl in *. by destruct (inorder ll).
Qed.

Lemma rightmost_ok t : ∀ x q R h n,
  root t = Some x → holds (cells q t ++ R) h → (length (inorder t) ≤ n)%nat →
  returns (rightmost n x h) (λ y, last (inorder t) = Some y).
Proof.
  induction t as [|l _ y r IHr]; intros x q R h n Hx H Hn; [done|]. injection Hx as ->.
  simpl in Hn. rewrite length_app in Hn. simpl in Hn. destruct n as [|n]; [lia|].
  simpl in H |- *. rewrite <- app_assoc in H. run H. focus_tree H r.
  destruct r as [|rl z rr]; [by exists x; split; [|simpl; rewrite last_snoc]|].
  eapply returns_mono; [apply (IHr z _ _ _ n eq_refl H); lia|].
  intros a Ha. simpl in Ha |- *. by rewrite last_app, last_cons, Ha.
Qed.

Lemma tree_size q t R h : holds (cells q t ++ R) h → (length (inorder t) ≤ size h)%nat.
Proof. intros H%holds_app_l%holds_size. by rewrite length_cells in H. Qed.

(** The link after a subtree is the first node after its hole. *)
Lemma climb_right k : ∀ t x R h n,
  root t = Some x → holds (cells None (plug k t) ++ R) h → (length k < n)%nat →
  returns (Ptr ← up_right n x h; b ← RtlIsLeftChild Ptr h;
           if b : bool then Some <$> RtlParent Ptr h else Some None)
    (λ r, r = head (after k)).
Proof.
  induction k as [|f k IH]; intros t x R h n Hx H Hn; (destruct n as [|n]; [lia|]);
    destruct t as [|a y b]; try done; injection Hx as ->; simpl up_right.
  - simpl in H. rewrite <- app_assoc in H.
    pose proof H as Ha. focus_tree Ha a. focus Ha x. apply root_ne in Ha.
    pose proof H as Hb. focus_tree Hb b. focus Hb x. apply root_ne in Hb.
    unfold RtlIsRightChild, RtlIsLeftChild. rewrite (parent_of H). cbn [mbind option_bind].
    rewrite (right_of H). cbn [mbind option_bind]. test false.
    cbn [mbind option_bind]. rewrite (parent_of H). cbn [mbind option_bind]. rewrite (left_of H). cbn [mbind option_bind]. test false. by exists None.
  - pose proof H as H0. rewrite node_cells in H. simpl in H. rewrite <- !app_assoc in H.
    destruct f as [P c|c P]; simpl in H, H0 |- *.
    + pose proof H as Hc. focus_tree Hc c. focus Hc x. apply root_ne in Hc.
      focus_parent H x. rewrite (is_right_of _ _ _ _ _ _ _ _ H eq_refl). cbn [mbind option_bind].
      test false. cbn [mbind option_bind]. run H. test true. run H. done.
    + focus_parent H x. rewrite (is_right_of _ _ _ _ _ _ _ _ H eq_refl). cbn [mbind option_bind].
      test true. rewrite (parent_of H). cbn [mbind option_bind].
      apply (IH (Node c P (Node a x b)) P R h n eq_refl H0). simpl in Hn. lia.
Qed.

Lemma climb_left k : ∀ t x R h n,
  root t = Some x → holds (cells None (plug k t) ++ R) h → (length k < n)%nat →
  returns (Ptr ← up_left n x h; b ← RtlIsRightChild Ptr h;
           if b : bool then Some <$> RtlParent Ptr h else Some None)
    (λ r, r = last (before k)).
Proof.
  induction k as [|f k IH]; intros t x R h n Hx H Hn; (destruct n as [|n]; [lia|]);
    destruct t as [|a y b]; try done; injection Hx as ->; simpl up_left.
  - simpl in H. rewrite <- app_assoc in H.
    pose proof H as Ha. focus_tree Ha a. focus Ha x. apply root_ne in Ha.
    pose proof H as Hb. focus_tree Hb b. focus Hb x. apply root_ne in Hb.
    unfold RtlIsRightChild, RtlIsLeftChild. rewrite (parent_of H). cbn [mbind option_bind].
    rewrite (left_of H). cbn [mbind option_bind]. test false.
    cbn [mbind option_bind]. rewrite (parent_of H). cbn [mbind option_bind]. rewrite (right_of H). cbn [mbind option_bind]. test false. by exists None.
  - pose proof H as H0. rewrite node_cells in H. simpl in H. rewrite <- !app_assoc in H.
    destruct f as [P c|c P]; simpl in H, H0 |- *.
    + focus_parent H x. rewrite (is_left_of _ _ _ _ _ _ _ _ H eq_refl). cbn [mbind option_bind].
      test true. rewrite (parent_of H). cbn [mbind option_bind].
      apply (IH (Node (Node a x b) P c) P R h n eq_refl H0). simpl in Hn. lia.
    + pose proof H as Hc. focus_tree Hc c. focus Hc x. apply root_ne in Hc.
      focus_parent H x. rewrite (is_left_of _ _ _ _ _ _ _ _ H eq_refl). cbn [mbind option_bind].
      test false. cbn [mbind option_bind]. run H. test true. run H. by rewrite !app_assoc, last_snoc.
Qed.

Section neighbours.
Variables (k : context) (a b : tree) (x : addr) (R : list cell) (h : heap).
Hypothesis H : placed k x (a, b) R h.

Lemma neighbours_cells :
  holds ((x, mkLinks (default x (hole_parent k None)) (root a) (root b)) ::
         cells (Some x) a ++ cells (Some x) b ++ context_cells k (Some x) None ++ R) h.
Proof. pose proof H as H'. unfold placed in H'. rewrite node_cells in H'. simpl in H'.
  by rewrite <- !app_assoc in H'. Qed.

Lemma RtlRealSuccessor_ok :
  returns (RtlRealSuccessor x h) (λ r, r = head (inorder b ++ after k)).
Proof.
  pose proof neighbours_cells as Hc. unfold RtlRealSuccessor. run Hc. focus_tree Hc b.
  destruct b as [|bl z br] eqn:Hb; simpl root.
  - apply (climb_right k (Node a x Leaf) x R h _ eq_refl H). by eapply placed_length.
  - rewrite <- Hb in Hc |- *. apply returns_fmap.
    eapply returns_mono; [eapply (leftmost_ok b z); [by rewrite Hb|exact Hc|]|].
    + pose proof (tree_size _ _ _ _ Hc). lia.
    + intros y Hy. destruct (inorder b); [done|]. simpl in *. congruence.
Qed.

Lemma RtlRealPredecessor_ok :
  returns (RtlRealPredecessor x h) (λ r, r = last (before k ++ inorder a)).
Proof.
  pose proof neighbours_cells as Hc. unfold RtlRealPredecessor. run Hc. focus_tree Hc a.
  destruct a as [|al z ar] eqn:Ha; simpl root.
  - rewrite app_nil_r.
    apply (climb_left k (Node Leaf x b) x R h _ eq_refl H). by eapply placed_length.
  - rewrite <- Ha in Hc |- *. apply returns_fmap.
    eapply returns_mono; [eapply (rightmost_ok a z); [by rewrite Ha|exact Hc|]|].
    + pose proof (tree_size _ _ _ _ Hc). lia.
    + intros y Hy. rewrite last_app, Hy. done.
Qed.

Lemma RtlSubtreeSuccessor_ok :
  returns (RtlSubtreeSuccessor x h) (λ r, r = head (inorder b)).
Proof.
  pose proof neighbours_cells as Hc. unfold RtlSubtreeSuccessor. run Hc. focus_tree Hc b.
  destruct b as [|bl z br] eqn:Hb; simpl root; [by exists None|].
  rewrite <- Hb in Hc |- *. apply returns_fmap.
  eapply returns_mono; [eapply (leftmost_ok b z); [by rewrite Hb|exact Hc|]|done].
  pose proof (tree_size _ _ _ _ Hc). lia.
Qed.

Lemma RtlSubtreePredecessor_ok :
  returns (RtlSubtreePredecessor x h) (λ r, r = last (inorder a)).
Proof.
  pose proof neighbours_cells as Hc. unfold RtlSubtreePredecessor. run Hc. focus_tree Hc a.
  destruct a as [|al z ar] eqn:Ha; simpl root; [by exists None|].
  rewrite <- Ha in Hc |- *. apply returns_fmap.
  eapply returns_mono; [eapply (rightmost_ok a z); [by rewrite Ha|exact Hc|]|done].
  pose proof (tree_size _ _ _ _ Hc). lia.
Qed.
End neighbours.

(** ** Contexts with two ends *)

(** The topmost node of a context with [x] in its hole. *)
Fixpoint top (k : context) (x : addr) : addr :=
  match k with [] => x | f :: k => top k (above f) end.

Lemma hole_parent_app k k' q : hole_parent (k ++ k') q = hole_parent k (hole_parent k' q).
Proof. by destruct k. Qed.

Lemma context_cells_app k k' q : ∀ x,
  context_cells (k ++ k') (Some x) q =
    context_cells k (Some x) (hole_parent k' q) ++ context_cells k' (Some (top k x)) q.
Proof.
  induction k as [|f k IH]; intros x; [done|]. simpl. rewrite IH, hole_parent_app, <- app_assoc.
  by destruct f.
Qed.

(** The topmost node of a context gets another parent. *)
Lemma retop f k x p q R h :
  holds (context_cells (f :: k) x (Some p) ++ R) h →
  ∃ h', set_parent (top k (above f)) q h = Some h' ∧ holds (context_cells (f :: k) x (Some q) ++ R) h'.
Proof.
  revert f x R. induction k as [|g k IH]; intros f x R H.
  - destruct f; simpl in H |- *; apply (set_parent_of H).
  - assert (Hsplit : ∀ p', context_cells (f :: g :: k) x (Some p') ++ R ≡ₚ
      context_cells (g :: k) (Some (above f)) (Some p') ++
      ((above f, match f with
                 | LeftOf P c => mkLinks (above g) x (root c)
                 | RightOf c P => mkLinks (above g) (root c) x
                 end) :: cells (Some (above f)) (sibling f) ++ R)).
    { intros p'. destruct f; simpl; solve_Permutation. }
    rewrite Hsplit in H. destruct (IH _ _ _ H) as (h' & Hs & H'). exists h'. split; [exact Hs|].
    by rewrite Hsplit.
Qed.

(** Brings the cells of a context to the front. *)
Ltac focus_context H k x :=
  rewrite <- ?app_assoc in H;
  lazymatch type of H with
  | holds ?cs _ =>
      match cs with
      | context C [context_cells k x ?q ++ ?tl] =>
          let r := context C [tl] in
          apply (holds_perm cs (context_cells k x q ++ r)) in H; [|solve_Permutation]
      end
  end.

(** The tree around [x] (with subtree [r]) and its predecessor [y] (with subtree [pl]),
    [js] being the way from [y] up to [x] and [k] that from [x] to the root. *)
Definition around (x y : addr) (js k : context) (pl r : tree) (R : list cell) : list cell :=
  (y, mkLinks (default y (hole_parent js (Some x))) (root pl) None) ::
  (x, mkLinks (default x (hole_parent k None)) (Some (top js y)) (root r)) ::
  cells (Some y) pl ++ cells (Some x) r ++
  context_cells js (Some y) (Some x) ++ context_cells k (Some x) None ++ R.

Lemma around_cells x y js k pl r R :
  cells None (plug (js ++ LeftOf x r :: k) (Node pl y Leaf)) ++ R ≡ₚ around x y js k pl r R.
Proof.
  rewrite node_cells, context_cells_app, hole_parent_app. unfold around. simpl. solve_Permutation.
Qed.

(** The state in the middle of [SwapSplayLinks]: the links have changed places but
    their children still point to the old ones. *)
Definition swapped (x y : addr) (js k : context) (pl r : tree) (R : list cell) : list cell :=
  (y, mkLinks (default y (hole_parent k None)) (Some (top js x)) (root r)) ::
  (x, mkLinks (default x (hole_parent js (Some y))) (root pl) None) ::
  cells (Some y) pl ++ cells (Some x) r ++
  context_cells js (Some x) (Some x) ++ context_cells k (Some y) None ++ R.

Lemma adopt_children f x y js k pl r R h :
  holds (swapped x y (f :: js) k pl r R) h →
  returns (h ← adopt_left y h; h ← adopt_right y h; h ← adopt_left x h; adopt_right x h)
    (holds (around y x (f :: js) k pl r R)).
Proof.
  unfold swapped. intros H. unfold adopt_left, adopt_right. run H. cbv beta. simpl adopt.
  focus_context H (f :: js) (Some x). destruct (retop _ _ _ _ y _ _ H) as (h1 & Hs & H1).
  apply (returns_eq _ _ _ Hs). clear H Hs.
  run H1. run H1. run H1. run H1. run H1. eexists. split; [done|].
  eapply holds_perm; [|exact H1]. unfold around. solve_Permutation.
Qed.

(** Decides the tests of the code that are closed. *)
Ltac decided := first [congruence|by auto|by intros []].
Ltac tests :=
  repeat match goal with
  | |- context [bool_decide ?P] =>
      first [rewrite (bool_decide_true P) by decided|rewrite (bool_decide_false P) by decided]
  end; cbn [negb orb].

Ltac enter := cbv beta; repeat lazymatch goal with |- returns (_ ≫= _) _ => apply returns_bind end.
Ltac goes H := repeat (run H; tests).

Lemma swap_adjacent x y k pl r R h :
  holds (around x y [] k pl r R) h →
  returns (SwapSplayLinks y x h) (holds (around y x [] k pl r R)).
Proof.
  unfold around. simpl app. intros H. unfold SwapSplayLinks, swap_left, swap_right, adopt_left, adopt_right.
  assert (Hxy : x ≠ y) by (intros ->; by apply holds_ne in H).
  destruct k as [|g k]; simpl hole_parent in *; simpl default in *; simpl top in *.
  - goes H. eapply holds_perm; [|exact H]. simpl. solve_Permutation.
  - pose proof H as Hg. focus_context Hg (g :: k) (Some x). focus Hg y. apply hole_above_ne in Hg.
    pose proof H as Hx. focus_context Hx (g :: k) (Some x). focus Hx x. apply hole_above_ne in Hx.
    goes H. focus_context H (g :: k) (Some x). focus H x.
    enter. apply (returns_eq _ _ _ (hole_ptr_of _ _ _ H)).
    focus_context H (g :: k) (Some x). destruct (write_hole _ (Some y) H) as (h1 & Hw & H1).
    enter. apply (returns_eq _ _ _ Hw). clear H Hw. goes H1.
    eapply holds_perm; [|exact H1]. simpl. solve_Permutation.
Qed.

Lemma swap_distant x y f js k pl r R h :
  holds (around x y (f :: js) k pl r R) h →
  returns (SwapSplayLinks y x h) (holds (around y x (f :: js) k pl r R)).
Proof.
  unfold around at 1. intros H. unfold SwapSplayLinks, swap_left, swap_right.
  assert (Hxy : x ≠ y) by (intros ->; by apply holds_ne in H).
  pose proof H as Hf. focus_context Hf (f :: js) (Some y). focus Hf y. apply hole_above_ne in Hf.
  pose proof H as Hfx. focus_context Hfx (f :: js) (Some y). focus Hfx x. apply hole_above_ne in Hfx.
  destruct k as [|g k]; simpl hole_parent in *; simpl default in *.
  - goes H. focus_context H (f :: js) (Some y). focus H y.
    enter. apply (returns_eq _ _ _ (hole_ptr_of _ _ _ H)).
    focus_context H (f :: js) (Some y). destruct (write_hole _ (Some x) H) as (h1 & Hw & H1).
    enter. apply (returns_eq _ _ _ Hw). clear H Hw. goes H1.
    eapply (adopt_children f x y js [] pl r R), holds_perm; [|exact H1].
    unfold swapped. simpl. solve_Permutation.
  - pose proof H as Hg. focus_context Hg (g :: k) (Some x). focus Hg y. apply hole_above_ne in Hg.
    pose proof H as Hx. focus_context Hx (g :: k) (Some x). focus Hx x. apply hole_above_ne in Hx.
    goes H. enter. focus_context H (f :: js) (Some y). focus H y.
    apply (returns_eq _ _ _ (hole_ptr_of _ _ _ H)).
    enter. focus_context H (g :: k) (Some x). focus H x.
    apply (returns_eq _ _ _ (hole_ptr_of _ _ _ H)).
    enter. focus_context H (f :: js) (Some y). apply (returns_eq _ _ _ (read_hole _ H)).
    enter. focus_context H (g :: k) (Some x). apply (returns_eq _ _ _ (read_hole _ H)).
    enter. focus_context H (f :: js) (Some y). destruct (write_hole _ (Some x) H) as (h1 & Hw & H1).
    apply (returns_eq _ _ _ Hw). clear H Hw.
    enter. focus_context H1 (g :: k) (Some x). destruct (write_hole _ (Some y) H1) as (h2 & Hw & H).
    apply (returns_eq _ _ _ Hw). clear H1 Hw. goes H.
    eapply (adopt_children f x y js (g :: k) pl r R), holds_perm; [|exact H].
    unfold swapped. simpl. solve_Permutation.
Qed.

Lemma SwapSplayLinks_ok x y js k pl r R h :
  holds (around x y js k pl r R) h →
  returns (SwapSplayLinks y x h) (holds (around y x js k pl r R)).
Proof. destruct js; [apply swap_adjacent|apply swap_distant]. Qed.

(** ** RtlDelete *)

(** The rightmost node of a tree. *)
Lemma rightmost_split t x : root t = Some x →
  ∃ js pl y, t = plug js (Node pl y Leaf) ∧ after js = [] ∧ last (inorder t) = Some y.
Proof.
  revert x. induction t as [|l _ z r IHr]; intros x Hx; [done|]. destruct r as [|rl w rr].
  - exists [], l, z. simpl. by rewrite last_snoc.
  - destruct (IHr w eq_refl) as (js & pl & y & Heq & Ha & Hl). exists (js ++ [RightOf l z]), pl, y.
    rewrite plug_app, <- Heq. split; [done|]. split.
    + clear -Ha. induction js as [|[P c|c P] js IH]; simpl in *; auto; done.
    + simpl inorder. rewrite last_app, last_cons. simpl in Hl. by rewrite Hl.
Qed.

Definition child_tree (a b : tree) : tree := match a with Leaf => b | _ => a end.

(** A tree [t'] in the heap, returned as its root. *)
Definition tree_result (l : list addr) (R : list cell) (r : option addr * heap) : Prop :=
  ∃ t, inorder t = l ∧ r.1 = root t ∧ holds (cells None t ++ R) r.2.

(** Splaying the parent of a hole. *)
Lemma splay_above f k t x v R h :
  holds (cells (Some (above f)) t ++ context_cells (f :: k) (root t) None ++ (x, v) :: R) h →
  returns ('(y, h) ← RtlSplay (above f) h; Some (Some y, h))
    (tree_result (inorder (plug (f :: k) t)) ((x, v) :: R)).
Proof.
  intros H. set (ab := match f with LeftOf _ c => (t, c) | RightOf c _ => (c, t) end).
  assert (Hab : plug (f :: k) t = plug k (Node ab.1 (above f) ab.2)) by (by destruct f).
  assert (Hp : placed k (above f) ab ((x, v) :: R) h).
  { unfold placed. rewrite <- Hab. eapply holds_perm; [|exact H]. rewrite plug_cells.
    simpl hole_parent. solve_Permutation. }
  apply returns_bind. eapply returns_mono; [by apply (RtlSplay_ok k)|].
  intros [y h'] [Hy Hh]. simpl in Hy, Hh. subst y. eexists. split; [done|]. exists (splay_up k (above f) ab).
  split; [by rewrite splay_up_inorder, Hab|]. split; [|done].
  destruct (splay_up_root k (above f) ab) as (? & ? & ->). done.
Qed.

Definition deleted (l : list addr) (x : addr) (R : list cell) (r : option addr * heap) : Prop :=
  ∃ v, tree_result l ((x, v) :: R) r.

Lemma unlink_ok k x a b R h :
  placed k x (a, b) R h → a = Leaf ∨ b = Leaf →
  returns (unlink x h) (deleted (inorder (plug k (child_tree a b))) x R).
Proof.
  intros H%neighbours_cells Hab. unfold unlink.
  assert (Hc : ∃ q, holds ((x, mkLinks (default x (hole_parent k None)) (root a) (root b)) ::
     cells (Some q) (child_tree a b) ++ context_cells k (Some x) None ++ R) h).
  { exists x. destruct Hab as [-> | ->]; [exact H|]. destruct a; exact H. }
  clear H. destruct Hc as [q H]. run H. run H. run H. cbv beta. set (t := child_tree a b) in *.
  assert (Ht : root t = match root a, root b with Some c, _ | None, Some c => Some c | None, None => None end).
  { unfold t. destruct Hab as [-> | ->]; simpl; [by destruct (root b)|by destruct a]. }
  destruct k as [|f k].
  - simpl hole_parent in *. simpl default in *. tests.
    assert (Hfin : ∀ h', holds (cells None t ++ (x, mkLinks x (root a) (root b)) :: R) h' →
      deleted (inorder t) x R (root t, h')).
    { intros h' Hh. eexists. exists t. split; [done|]. split; [done|exact Hh]. }
    destruct t as [|tl y tr] eqn:Et.
    + destruct (root a), (root b); try done. eexists. split; [done|]. apply (Hfin h).
      eapply holds_perm; [|exact H]. done.
    + assert (Hgo : returns (h ← set_parent y y h; Some (Some y, h))
        (deleted (inorder (Node tl y tr)) x R)).
      { simpl in H. run H. eexists. split; [done|]. apply Hfin.
        eapply holds_perm; [|exact H]. simpl. solve_Permutation. }
      destruct (root a), (root b); try done; injection Ht as <-; exact Hgo.
  - simpl hole_parent in *. simpl default in *.
    pose proof H as Hf. focus_context Hf (f :: k) (Some x). focus Hf x. apply hole_above_ne in Hf. tests.
    assert (Hptr : ParentsChildPointerAddress x h = Some (hole_ptr f)).
    { focus_context H (f :: k) (Some x). focus H x. apply (hole_ptr_of _ _ _ H). }
    focus_context H (f :: k) (Some x). destruct (write_hole _ (root t) H) as (h1 & Hw & H1).
    assert (Hfin : ∀ h', holds (cells (Some (above f)) t ++ context_cells (f :: k) (root t) None ++
        (x, mkLinks (above f) (root a) (root b)) :: R) h' →
      returns ('(y, h) ← RtlSplay (above f) h'; Some (Some y, h))
        (deleted (inorder (plug (f :: k) t)) x R)).
    { intros h' Hh. eapply returns_mono; [by eapply splay_above|]. intros r Hr. by eexists. }
    destruct t as [|tl y tr] eqn:Et.
    + destruct (root a) eqn:Ea, (root b) eqn:Eb; try done. run H. rewrite Hptr. cbn [mbind option_bind].
      simpl root in Hw. rewrite Hw. cbn [mbind option_bind]. apply Hfin.
      eapply holds_perm; [|exact H1]. simpl. solve_Permutation.
    + assert (Hgo : returns (
        ParentChildPtr ← ParentsChildPointerAddress x h;
        h ← write_ptr ParentChildPtr (Some y) h;
        p ← RtlParent x h; h ← set_parent y p h; p ← RtlParent y h;
        '(x, h) ← RtlSplay p h; Some (Some x, h)) (deleted (inorder (plug (f :: k) (Node tl y tr))) x R)).
      { rewrite Hptr. cbn [mbind option_bind]. simpl root in Hw. rewrite Hw. cbn [mbind option_bind].
        simpl cells in H1. run H1. run H1. run H1. cbv beta. apply Hfin.
        eapply holds_perm; [|exact H1]. simpl. solve_Permutation. }
      destruct (root a), (root b); try done; injection Ht as <-; exact Hgo.
Qed.

Lemma RtlDelete_ok k x a b R h :
  placed k x (a, b) R h →
  returns (RtlDelete x h) (deleted (before k ++ inorder a ++ inorder b ++ after k) x R).
Proof.
  intros H. unfold RtlDelete. pose proof (neighbours_cells _ _ _ _ _ _ H) as Hc.
  rewrite (left_of Hc), (right_of Hc). cbn [mbind option_bind].
  assert (Hone : a = Leaf ∨ b = Leaf →
    returns (unlink x h) (deleted (before k ++ inorder a ++ inorder b ++ after k) x R)).
  { intros Hab. eapply returns_mono; [by apply (unlink_ok k x a b)|]. intros r Hr.
    rewrite plug_inorder in Hr. destruct Hab as [-> | ->]; [exact Hr|]. by destruct a. }
  destruct a as [|al z ar]; [by apply Hone; left|]. destruct b as [|bl w br]; [by apply Hone; right|].
  set (a := Node al z ar) in *. set (b := Node bl w br) in *. simpl root. cbn iota.
  destruct (RtlSubtreePredecessor_ok k a b x R h H) as (p & -> & ->).
  destruct (rightmost_split a z eq_refl) as (js & pl & y & Ha & Hafter & ->). cbn [mbind option_bind].
  apply returns_bind.
  assert (Hsw : holds (around x y js k pl b R) h).
  { rewrite <- around_cells, plug_app, <- Ha. exact H. }
  eapply returns_mono; [by apply SwapSplayLinks_ok|]. intros h' Hh. rewrite <- around_cells in Hh.
  eapply returns_mono; [apply (unlink_ok (js ++ LeftOf y b :: k) x pl Leaf); [exact Hh|by right]|].
  intros r Hr. rewrite plug_app in Hr. simpl plug in Hr. rewrite plug_inorder in Hr.
  assert (Hin : inorder a = before js ++ inorder pl ++ [y]).
  { rewrite Ha, plug_inorder, Hafter. simpl. by rewrite app_nil_r. }
  rewrite Hin. assert (Hpl : inorder (child_tree pl Leaf) = inorder pl) by (by destruct pl).
  simpl in Hr. rewrite plug_inorder, Hafter, Hpl, app_nil_r in Hr. rewrite <- !app_assoc in *. exact Hr.
Qed.
