(* ===== verification/GenTable.v ===== *)
(** * Generic tables ([RTL/GENTABLE.C])

    A table of user data ordered by a compare routine of the user, kept as a splay
    tree and as a list in order of insertion. A node is the address of its splay
    links; the list entry and the data follow in the same allocation. The user's
    routines are arguments: the comparison, and the allocator, which returns the
    address of a node or fails; a freed node is gone from the heap. *)

From stdpp Require Import base list numbers option gmap.
From S2P Require Import Prelude Splay.

Inductive RTL_GENERIC_COMPARE_RESULTS := GenericLessThan | GenericGreaterThan | GenericEqual.

Inductive SEARCH_RESULT := EmptyTree | FoundNode | InsertAsLeft | InsertAsRight.

Section gentable.
Context {D : Type}.

(** [OrderedPointer] is an entry of [InsertOrderList] or ([None]) its head. *)
Record RTL_GENERIC_TABLE := mkTable
  { Nodes : heap; Data : gmap addr D;
    TableRoot : option addr; InsertOrderList : list addr;
    OrderedPointer : option addr; WhichOrderedElement : Z; NumberGenericTableElements : Z }.

#[export] Instance RTL_GENERIC_TABLE_eta : Eta RTL_GENERIC_TABLE :=
  λ r, mkTable (Nodes r) (Data r) (TableRoot r) (InsertOrderList r) (OrderedPointer r)
         (WhichOrderedElement r) (NumberGenericTableElements r).

Variable CompareRoutine : D → D → RTL_GENERIC_COMPARE_RESULTS.
Variable AllocateRoutine : RTL_GENERIC_TABLE → Z → option addr.

Definition RtlInitializeGenericTable : RTL_GENERIC_TABLE := mkTable ∅ ∅ None [] None 0 0.

Definition RtlIsGenericTableEmpty (T : RTL_GENERIC_TABLE) : bool :=
  match TableRoot T with Some _ => false | None => true end.

Definition RtlNumberGenericTableElements (T : RTL_GENERIC_TABLE) : Z :=
  NumberGenericTableElements T.

(** ** FindNodeOrParent *)

Fixpoint find_loop (fuel : nat) (NodeToExamine : addr) (Buffer : D) (T : RTL_GENERIC_TABLE) :
    option (SEARCH_RESULT * addr) :=
  match fuel with
  | O => None
  | S fuel =>
      d ← Data T !! NodeToExamine;
      match CompareRoutine Buffer d with
      | GenericLessThan =>
          c ← RtlLeftChild NodeToExamine (Nodes T);
          match c with
          | Some Child => find_loop fuel Child Buffer T
          | None => Some (InsertAsLeft, NodeToExamine)
          end
      | GenericGreaterThan =>
          c ← RtlRightChild NodeToExamine (Nodes T);
          match c with
          | Some Child => find_loop fuel Child Buffer T
          | None => Some (InsertAsRight, NodeToExamine)
          end
      | GenericEqual => Some (FoundNode, NodeToExamine)
      end
  end.

(** The node or parent is not set for an empty tree. *)
Definition FindNodeOrParent (T : RTL_GENERIC_TABLE) (Buffer : D) :
    option (SEARCH_RESULT * option addr) :=
  match TableRoot T with
  | None => Some (EmptyTree, None)
  | Some Root =>
      '(r, p) ← find_loop (S (size (Nodes T))) Root Buffer T; Some (r, Some p)
  end.

(** [Table->TableRoot = RtlSplay(x)] *)
Definition splay_root (x : addr) (T : RTL_GENERIC_TABLE) : option RTL_GENERIC_TABLE :=
  '(r, h) ← RtlSplay x (Nodes T); Some (T <| Nodes := h |> <| TableRoot := Some r |>).

(** ** Insertion, deletion, lookup *)

(** [sizeof(RTL_SPLAY_LINKS) + sizeof(LIST_ENTRY)] *)
Definition NODE_SIZE : Z := 20.

(** The new node enters the list and the tree. *)
Definition insert_node (Lookup : SEARCH_RESULT) (NodeOrParent : option addr) (Node : addr)
    (Buffer : D) (T : RTL_GENERIC_TABLE) : option RTL_GENERIC_TABLE :=
  let T := T <| Nodes := RtlInitializeSplayLinks Node (Nodes T) |>
             <| InsertOrderList := InsertOrderList T ++ [Node] |>
             <| NumberGenericTableElements := NumberGenericTableElements T +u 1 |> in
  T ← match Lookup with
      | EmptyTree => Some (T <| TableRoot := Some Node |>)
      | InsertAsLeft =>
          p ← NodeOrParent; h ← RtlInsertAsLeftChild p Node (Nodes T); Some (T <| Nodes := h |>)
      | _ =>
          p ← NodeOrParent; h ← RtlInsertAsRightChild p Node (Nodes T); Some (T <| Nodes := h |>)
      end;
  Some (T <| Data := <[Node := Buffer]> (Data T) |>).

(** The element (or a null pointer) and [NewElement]. *)
Definition RtlInsertElementGenericTable (Buffer : D) (BufferSize : Z) (T : RTL_GENERIC_TABLE) :
    option (option addr * bool * RTL_GENERIC_TABLE) :=
  '(Lookup, NodeOrParent) ← FindNodeOrParent T Buffer;
  match Lookup with
  | FoundNode =>
      NodeToReturn ← NodeOrParent;
      T ← splay_root NodeToReturn T;
      Some (Some NodeToReturn, false, T)
  | _ =>
      match AllocateRoutine T (BufferSize +u NODE_SIZE) with
      | None => Some (None, false, T)
      | Some NodeToReturn =>
          T ← insert_node Lookup NodeOrParent NodeToReturn Buffer T;
          T ← splay_root NodeToReturn T;
          Some (Some NodeToReturn, true, T)
      end
  end.

Definition RtlDeleteElementGenericTable (Buffer : D) (T : RTL_GENERIC_TABLE) :
    option (bool * RTL_GENERIC_TABLE) :=
  '(Lookup, NodeOrParent) ← FindNodeOrParent T Buffer;
  match Lookup with
  | FoundNode =>
      Node ← NodeOrParent;
      '(Root, h) ← RtlDelete Node (Nodes T);
      Some (true, T <| TableRoot := Root |>
                    <| InsertOrderList := filter (λ x, x ≠ Node) (InsertOrderList T) |>
                    <| NumberGenericTableElements := NumberGenericTableElements T -u 1 |>
                    <| WhichOrderedElement := 0 |> <| OrderedPointer := None |>
                    <| Nodes := delete Node h |> <| Data := delete Node (Data T) |>)
  | _ => Some (false, T)
  end.

Definition RtlLookupElementGenericTable (Buffer : D) (T : RTL_GENERIC_TABLE) :
    option (option addr * RTL_GENERIC_TABLE) :=
  '(Lookup, NodeOrParent) ← FindNodeOrParent T Buffer;
  match Lookup with
  | FoundNode => x ← NodeOrParent; T ← splay_root x T; Some (Some x, T)
  | _ => Some (None, T)
  end.

(** ** Enumeration *)

Definition RtlEnumerateGenericTable (Restart : bool) (T : RTL_GENERIC_TABLE) :
    option (option addr * RTL_GENERIC_TABLE) :=
  match TableRoot T with
  | None => Some (None, T)
  | Some Root =>
      if Restart then
        NodeToReturn ← leftmost (S (size (Nodes T))) Root (Nodes T);
        T ← splay_root NodeToReturn T; Some (Some NodeToReturn, T)
      else
        n ← RtlRealSuccessor Root (Nodes T);
        match n with
        | Some NodeToReturn => T ← splay_root NodeToReturn T; Some (Some NodeToReturn, T)
        | None => Some (None, T)
        end
  end.

(** Returns the element and the new [*RestartKey]. *)
Definition RtlEnumerateGenericTableWithoutSplaying (RestartKey : option addr)
    (T : RTL_GENERIC_TABLE) : option (option addr * option addr) :=
  match TableRoot T with
  | None => Some (None, RestartKey)
  | Some Root =>
      match RestartKey with
      | None =>
          NodeToReturn ← leftmost (S (size (Nodes T))) Root (Nodes T);
          Some (Some NodeToReturn, Some NodeToReturn)
      | Some Key =>
          n ← RtlRealSuccessor Key (Nodes T);
          match n with
          | Some NodeToReturn => Some (Some NodeToReturn, Some NodeToReturn)
          | None => Some (None, RestartKey)
          end
      end
  end.

(** ** Elements by order of insertion *)

(** The entry after [p] in a circular list ([None] is the head); the result is
    [None] if [p] is not in the list. *)
Fixpoint next_entry (p : addr) (l : list addr) : option (option addr) :=
  match l with
  | [] => None
  | x :: l => if decide (x = p) then Some (head l) else next_entry p l
  end.

Definition entry_Flink (p : option addr) (l : list addr) : option (option addr) :=
  match p with None => Some (head l) | Some p => next_entry p l end.
Definition entry_Blink (p : option addr) (l : list addr) : option (option addr) :=
  entry_Flink p (reverse l).

(** [for (...; n; n--) CurrentNode = CurrentNode->Flink] and the like. *)
Fixpoint walk (n : nat) (link : option addr → option (option addr)) (p : option addr) :
    option (option addr) :=
  match n with O => Some p | S n => p ← link p; walk n link p end.

Definition RtlGetElementGenericTable (I : Z) (T : RTL_GENERIC_TABLE) :
    option (option addr * RTL_GENERIC_TABLE) :=
  let CurrentLocation := WhichOrderedElement T in
  let NumberInTable := NumberGenericTableElements T in
  let NormalizedI := I +u 1 in
  let CurrentNode := OrderedPointer T in
  let forward := λ p, entry_Flink p (InsertOrderList T) in
  let backward := λ p, entry_Blink p (InsertOrderList T) in
  if (I =? MAXULONG) || (NumberInTable <? NormalizedI) then Some (None, T)
  else if NormalizedI =? CurrentLocation then Some (CurrentNode, T)
  else
    CurrentNode ←
      (if NormalizedI <? CurrentLocation then
         if CurrentLocation `div` 2 <? NormalizedI
         then walk (Z.to_nat (CurrentLocation -u NormalizedI)) backward CurrentNode
         else walk (Z.to_nat NormalizedI) forward None
       else
         let ForwardDistance := NormalizedI -u CurrentLocation in
         let BackwardDistance := (NumberInTable -u NormalizedI) +u 1 in
         if ForwardDistance <=? BackwardDistance
         then walk (Z.to_nat ForwardDistance) forward CurrentNode
         else walk (Z.to_nat BackwardDistance) backward None);
    Some (CurrentNode, T <| OrderedPointer := CurrentNode |> <| WhichOrderedElement := I +u 1 |>).

End gentable.

Arguments RTL_GENERIC_TABLE : clear implicits.
