(* ===== verification/GenTableOk.v ===== *)
(** * Generic tables implement a list of elements in order of insertion

    [rep T ls] relates a table to its elements: the tree is in the heap and sorted
    by the user's comparison, the list holds the nodes of the tree, the count and
    the cursor agree with it. Every operation is shown to return, to keep the
    relation, and to give the result of the operation on the list. *)

From stdpp Require Import base list list_tactics numbers option gmap sorting.
From S2P Require Import Prelude Splay SplayTree SplayDelete GenTable.

(** What a compare routine must do: it orders the elements, up to equality of
    keys. *)
Class CompareOrder {D} (cmp : D → D → RTL_GENERIC_COMPARE_RESULTS) := {
  cmp_refl x : cmp x x = GenericEqual;
  cmp_swap x y : cmp x y = GenericLessThan → cmp y x = GenericGreaterThan;
  cmp_swap' x y : cmp x y = GenericGreaterThan → cmp y x = GenericLessThan;
  cmp_trans x y z :
    cmp x y = GenericLessThan → cmp y z = GenericLessThan → cmp x z = GenericLessThan;
  cmp_equal x y z : cmp x y = GenericEqual → cmp x z = cmp y z
}.

#[export] Instance RTL_GENERIC_COMPARE_RESULTS_eq : EqDecision RTL_GENERIC_COMPARE_RESULTS.
Proof. solve_decision. Defined.

Section order.
Context {D : Type} (cmp : D → D → RTL_GENERIC_COMPARE_RESULTS) `{!CompareOrder cmp}.

Lemma cmp_equal_sym x y : cmp x y = GenericEqual → cmp y x = GenericEqual.
Proof. intros H. rewrite <- (cmp_equal x y x H). apply cmp_refl. Qed.

Context (T : RTL_GENERIC_TABLE D).

(** The buffer is less than, greater than, or equal to the node's data. *)
Definition compares (r : RTL_GENERIC_COMPARE_RESULTS) (d : D) (x : addr) : Prop :=
  ∃ e, Data T !! x = Some e ∧ cmp d e = r.

Definition key_lt (x y : addr) : Prop :=
  ∃ d, Data T !! x = Some d ∧ compares GenericLessThan d y.

Lemma compares_less d x y : compares GenericLessThan d x → key_lt x y → compares GenericLessThan d y.
Proof.
  intros (e & He & Hc) (e' & He' & e2 & H2 & Hc2). rewrite He in He'. apply (inj Some) in He' as <-.
  exists e2. split; [done|]. by eapply cmp_trans.
Qed.

Lemma compares_greater d x y :
  compares GenericGreaterThan d y → key_lt x y → compares GenericGreaterThan d x.
Proof.
  intros (e & He & Hc) (e' & He' & e2 & H2 & Hc2). rewrite He in H2. apply (inj Some) in H2 as <-.
  exists e'. split; [done|]. apply cmp_swap. eapply cmp_trans; [done|]. by apply cmp_swap'.
Qed.

(** ** Searching *)

Definition found (t : tree) (d : D) (r : SEARCH_RESULT * addr) : Prop :=
  match r.1 with
  | EmptyTree => False
  | FoundNode => r.2 ∈ inorder t ∧ compares GenericEqual d r.2
  | InsertAsLeft => ∃ k b, t = plug k (Node Leaf r.2 b) ∧
      Forall (compares GenericGreaterThan d) (before k) ∧
      Forall (compares GenericLessThan d) (r.2 :: inorder b ++ after k)
  | InsertAsRight => ∃ k a, t = plug k (Node a r.2 Leaf) ∧
      Forall (compares GenericGreaterThan d) (before k ++ inorder a ++ [r.2]) ∧
      Forall (compares GenericLessThan d) (after k)
  end.

Lemma before_app k k' : before (k ++ k') = before k' ++ before k.
Proof.
  induction k as [|[P c|c P] k IH]; simpl; [by rewrite app_nil_r|done|].
  by rewrite IH, <- app_assoc.
Qed.
Lemma after_app k k' : after (k ++ k') = after k ++ after k'.
Proof.
  induction k as [|[P c|c P] k IH]; simpl; [done| |done]. by rewrite IH, <- app_assoc.
Qed.

(** A result in a subtree is a result in the tree. *)
Lemma found_left l x r d res :
  compares GenericLessThan d x → Forall (key_lt x) (inorder r) →
  found l d res → found (Node l x r) d res.
Proof.
  intros Hx Hr. assert (Hxr : Forall (compares GenericLessThan d) (x :: inorder r)).
  { constructor; [done|]. eapply Forall_impl; [exact Hr|]. intros y. by apply compares_less. }
  destruct res as [[] p]; simpl; [done| | |]; unfold found; simpl.
  - intros [Hin ?]. split; [set_solver|done].
  - intros (k & b & -> & Hb & Ha). exists (k ++ [LeftOf x r]), b. rewrite plug_app, before_app, after_app.
    simpl. rewrite app_nil_r. split; [done|]. split; [done|].
    change (p :: inorder b ++ after k ++ x :: inorder r) with ((p :: inorder b) ++ after k ++ x :: inorder r).
    rewrite app_assoc. by apply Forall_app.
  - intros (k & a & -> & Hb & Ha). exists (k ++ [LeftOf x r]), a. rewrite plug_app, before_app, after_app.
    simpl. rewrite app_nil_r. split; [done|]. split; [done|]. by apply Forall_app.
Qed.

Lemma found_right l x r d res :
  compares GenericGreaterThan d x → Forall (λ y, key_lt y x) (inorder l) →
  found r d res → found (Node l x r) d res.
Proof.
  intros Hx Hl. assert (Hlx : Forall (compares GenericGreaterThan d) (inorder l ++ [x])).
  { apply Forall_app. split; [|by constructor]. eapply Forall_impl; [exact Hl|].
    intros y. by apply compares_greater. }
  destruct res as [[] p]; simpl; [done| | |]; unfold found; simpl.
  - intros [Hin ?]. split; [set_solver|done].
  - intros (k & b & -> & Hb & Ha). exists (k ++ [RightOf l x]), b. rewrite plug_app, before_app, after_app.
    simpl. rewrite app_nil_r. split; [done|]. split; [by apply Forall_app|done].
  - intros (k & a & -> & Hb & Ha). exists (k ++ [RightOf l x]), a. rewrite plug_app, before_app, after_app.
    simpl. rewrite app_nil_r. split; [done|]. split; [|done]. rewrite <- !app_assoc.
    rewrite app_assoc. by apply Forall_app.
Qed.

Lemma find_loop_ok t : ∀ x q R n d,
  root t = Some x → holds (cells q t ++ R) (Nodes T) → (∀ y, y ∈ inorder t → is_Some (Data T !! y)) →
  StronglySorted key_lt (inorder t) → (length (inorder t) ≤ n)%nat →
  returns (find_loop cmp n x d T) (found t d).
Proof.
  induction t as [|l IHl y r IHr]; intros x q R n d Hx H Hd Hs Hn; [done|]. injection Hx as ->.
  simpl in Hn, Hd, Hs. rewrite length_app in Hn. simpl in Hn. destruct n as [|n]; [lia|].
  apply StronglySorted_app in Hs as (Hlr & Hsl & [Hxr Hsr]%StronglySorted_cons).
  assert (Hlx : Forall (λ y, key_lt y x) (inorder l)).
  { apply Forall_forall. intros y Hy. apply Hlr; [done|by left]. }
  simpl find_loop. destruct (Hd x) as [e He]; [set_solver|]. rewrite He. cbn [mbind option_bind].
  simpl in H. rewrite <- app_assoc in H. destruct (cmp d e) eqn:Hc.
  - assert (Hdx : compares GenericLessThan d x) by (by exists e).
    rewrite (left_of H). cbn [mbind option_bind]. focus_tree H l. destruct l as [|ll z lr]; simpl root.
    + eexists. split; [done|]. exists [], r. split; [done|]. split; [constructor|]. simpl.
      rewrite app_nil_r. constructor; [done|]. eapply Forall_impl; [exact Hxr|]. intros y. by apply compares_less.
    + eapply returns_mono; [eapply (IHl z); [done|exact H|set_solver|done|simpl in *; lia]|].
      intros res. by apply found_left.
  - assert (Hdx : compares GenericGreaterThan d x) by (by exists e).
    rewrite (right_of H). cbn [mbind option_bind]. focus_tree H r. destruct r as [|rl z rr]; simpl root.
    + eexists. split; [done|]. exists [], l. split; [done|]. split; [|constructor]. simpl.
      apply Forall_app. split; [|by constructor]. eapply Forall_impl; [exact Hlx|].
      intros y. by apply compares_greater.
    + eapply returns_mono; [eapply (IHr z); [done|exact H|set_solver|done|simpl in *; lia]|].
      intros res. by apply found_right.
  - eexists. split; [done|]. split; [simpl; set_solver|]. by exists e.
Qed.

End order.

(** ** The relation between a table and its elements *)

Section table.
Context {D : Type} (cmp : D → D → RTL_GENERIC_COMPARE_RESULTS) `{!CompareOrder cmp}.

Record table_tree (T : RTL_GENERIC_TABLE D) (t : tree) : Prop := {
  tt_holds : holds (cells None t) (Nodes T);
  tt_root : TableRoot T = root t;
  tt_list : InsertOrderList T ≡ₚ inorder t;
  tt_data x : x ∈ inorder t → is_Some (Data T !! x);
  tt_sorted : StronglySorted (key_lt cmp T) (inorder t)
}.

(** The cursor of [RtlGetElementGenericTable]: the entry at some position of the
    list, counted from one, or its head. *)
Definition cursor_ok (T : RTL_GENERIC_TABLE D) : Prop :=
  0 ≤ WhichOrderedElement T ≤ zlen (InsertOrderList T) ∧
  OrderedPointer T = if WhichOrderedElement T =? 0 then None
                     else InsertOrderList T !! Z.to_nat (WhichOrderedElement T - 1).

Record rep (T : RTL_GENERIC_TABLE D) (ls : list D) : Prop := {
  rp_tree : ∃ t, table_tree T t;
  rp_elements : Forall2 (λ x d, Data T !! x = Some d) (InsertOrderList T) ls;
  rp_count : NumberGenericTableElements T = zlen (InsertOrderList T);
  rp_bound : zlen (InsertOrderList T) < 2 ^ 32;
  rp_cursor : cursor_ok T
}.

Lemma initialized_ok : rep RtlInitializeGenericTable [].
Proof.
  split; [|constructor|done|done|done]. exists Leaf. split; try done.
  - split; [constructor|]. intros x v ?%elem_of_nil. done.
  - intros x ?%elem_of_nil. done.
  - constructor.
Qed.

(** ** Splaying changes the shape of the tree only *)

Record reshaped (T T' : RTL_GENERIC_TABLE D) (t t' : tree) : Prop := {
  rs_tree : table_tree T' t';
  rs_order : inorder t' = inorder t;
  rs_rest : T' = T <| Nodes := Nodes T' |> <| TableRoot := TableRoot T' |>
}.

Lemma table_tree_reshape T t t' h r :
  table_tree T t → inorder t' = inorder t → r = root t' → holds (cells None t') h →
  table_tree (T <| Nodes := h |> <| TableRoot := r |>) t'.
Proof.
  intros [Hh Hr Hl Hd Hs] Hi -> H'. split; [done|done|by rewrite Hi|by rewrite Hi|by rewrite Hi].
Qed.

Lemma rep_reshaped T T' t t' ls : rep T ls → reshaped T T' t t' → rep T' ls.
Proof.
  intros [_ He Hc Hb Hcur] [Ht _ Hrest]. rewrite Hrest. split; try done. exists t'. by rewrite <- Hrest.
Qed.

Lemma splay_root_ok T t x :
  table_tree T t → x ∈ inorder t →
  returns (splay_root x T) (λ T', ∃ t', reshaped T T' t t' ∧ root t' = Some x).
Proof.
  intros Ht Hx. destruct (locate t x Hx) as (k & a & b & ->). unfold splay_root. apply returns_bind.
  assert (Hp : placed k x (a, b) [] (Nodes T)).
  { unfold placed. simpl. rewrite app_nil_r. apply (tt_holds _ _ Ht). }
  eapply returns_mono; [by apply (RtlSplay_ok k x (a, b))|]. intros [y h] [Hy Hh]. simpl in Hy, Hh.
  subst y. eexists. split; [done|]. exists (splay_up k x (a, b)).
  destruct (splay_up_root k x (a, b)) as (a' & b' & Hroot).
  assert (Hi := splay_up_inorder k x (a, b)). simpl in Hi. rewrite app_nil_r in Hh.
  split; [|by rewrite Hroot]. split; [|done|done].
  by apply (table_tree_reshape T (plug k (Node a x b)) (splay_up k x (a, b))); [..|rewrite Hroot|].
Qed.

(** ** Finding *)

Lemma FindNodeOrParent_ok T t d :
  table_tree T t →
  returns (FindNodeOrParent cmp T d) (λ r,
    match t with
    | Leaf => r = (EmptyTree, None)
    | _ => ∃ p, r.2 = Some p ∧ found cmp T t d (r.1, p)
    end).
Proof.
  intros [Hh Hr Hl Hd Hs]. unfold FindNodeOrParent. rewrite Hr. destruct t as [|a x b]; [by eexists|].
  simpl root. apply returns_bind.
  assert (Hh' : holds (cells None (Node a x b) ++ []) (Nodes T)) by (by rewrite app_nil_r).
  eapply returns_mono; [eapply (find_loop_ok cmp T (Node a x b) x None [] _ d eq_refl Hh' Hd Hs)|].
  { pose proof (tree_size _ _ _ _ Hh'). lia. }
  intros [r p] Hf. eexists. split; [done|]. by exists p.
Qed.

(** Whether an element with the key of [d] is in the list. *)
Definition find_equal (d : D) (ls : list D) : option D :=
  head (filter (λ e, cmp d e = GenericEqual) ls).

Lemma elements_lookup T ls x :
  rep T ls → x ∈ InsertOrderList T → ∃ e, e ∈ ls ∧ Data T !! x = Some e.
Proof.
  intros Hr (i & Hi)%list_elem_of_lookup.
  destruct (Forall2_lookup_l _ _ _ _ _ (rp_elements _ _ Hr) Hi) as (e & He & Hx).
  exists e. split; [|done]. by eapply list_elem_of_lookup_2.
Qed.

Lemma elements_node T ls e :
  rep T ls → e ∈ ls → ∃ x, x ∈ InsertOrderList T ∧ Data T !! x = Some e.
Proof.
  intros Hr (i & Hi)%list_elem_of_lookup.
  destruct (Forall2_lookup_r _ _ _ _ _ (rp_elements _ _ Hr) Hi) as (x & Hx & He).
  exists x. split; [|done]. by eapply list_elem_of_lookup_2.
Qed.

(** Two nodes of a table never have equal keys. *)
Lemma keys_distinct T t x y d :
  table_tree T t → x ∈ inorder t → y ∈ inorder t → compares cmp T GenericEqual d x →
  compares cmp T GenericEqual d y → x = y.
Proof.
  intros Ht Hx Hy (e & He & Hc) (e' & He' & Hc').
  destruct (locate t x Hx) as (k & a & b & ->).
  pose proof (tt_sorted _ _ Ht) as Hs. rewrite plug_inorder in Hs, Hy. simpl in Hs, Hy.
  assert (Hee : cmp e e' = GenericEqual) by (rewrite <- (cmp_equal d e e' Hc); done).
  assert (Hno : ¬ key_lt cmp T x y ∧ ¬ key_lt cmp T y x).
  { split; intros (u & Hu & w & Hw & Hl).
    - rewrite He in Hu. apply (inj Some) in Hu as <-. rewrite He' in Hw. apply (inj Some) in Hw as <-.
      congruence.
    - rewrite He' in Hu. apply (inj Some) in Hu as <-. rewrite He in Hw. apply (inj Some) in Hw as <-.
      rewrite (cmp_equal_sym cmp _ _ Hee) in Hl. done. }
  rewrite app_assoc in Hs. rewrite <- !app_assoc in Hs. simpl in Hs.
  replace (before k ++ inorder a ++ x :: inorder b ++ after k)
    with ((before k ++ inorder a) ++ x :: inorder b ++ after k) in Hs by (by rewrite <- app_assoc).
  apply StronglySorted_app in Hs as (Hlr & _ & [Hxr _]%StronglySorted_cons).
  rewrite Forall_forall in Hxr. destruct Hno as [N1 N2].
  rewrite !elem_of_app, elem_of_cons in Hy.
  destruct Hy as [Hy|[[Hy|[Hy|Hy]]|Hy]]; [| | by rewrite Hy| |].
  - destruct N2. apply Hlr; set_solver.
  - destruct N2. apply Hlr; set_solver.
  - destruct N1. apply Hxr. set_solver.
  - destruct N1. apply Hxr. set_solver.
Qed.

Lemma find_equal_found T t ls d x :
  rep T ls → table_tree T t → x ∈ inorder t → compares cmp T GenericEqual d x →
  find_equal d ls = Data T !! x.
Proof.
  intros Hr Ht Hx (e & He & Hc). rewrite He. unfold find_equal.
  destruct (filter (λ e, cmp d e = GenericEqual) ls) as [|e' l] eqn:Hf.
  - exfalso. rewrite <- (tt_list _ _ Ht) in Hx.
    destruct (elements_lookup T ls x Hr Hx) as (e' & Hin & He'). rewrite He in He'.
    apply (inj Some) in He' as <-.
    assert (e ∈ filter (λ e, cmp d e = GenericEqual) ls) as Hin2 by (by apply list_elem_of_filter).
    rewrite Hf in Hin2. by apply elem_of_nil in Hin2.
  - simpl. f_equal.
    assert (e' ∈ filter (λ e, cmp d e = GenericEqual) ls) as [Hc' Hin]%list_elem_of_filter
      by (rewrite Hf; by left).
    destruct (elements_node T ls e' Hr Hin) as (y & Hy & He'). rewrite (tt_list _ _ Ht) in Hy.
    assert (x = y) as <- by (eapply (keys_distinct T t x y d); [done..|by exists e|by exists e']).
    congruence.
Qed.

Lemma find_equal_none T t ls d :
  rep T ls → table_tree T t → (∀ x, x ∈ inorder t → ¬ compares cmp T GenericEqual d x) →
  find_equal d ls = None.
Proof.
  intros Hr Ht Hno. unfold find_equal.
  destruct (filter (λ e, cmp d e = GenericEqual) ls) as [|e l] eqn:Hf; [done|]. exfalso.
  assert (e ∈ filter (λ e, cmp d e = GenericEqual) ls) as [Hc Hin]%list_elem_of_filter
    by (rewrite Hf; by left).
  destruct (elements_node T ls e Hr Hin) as (y & Hy & He). rewrite (tt_list _ _ Ht) in Hy.
  apply (Hno y Hy). by exists e.
Qed.

(** A slot for a new key: no node has it. *)
Lemma slot_none T t d p r :
  found cmp T t d (r, p) → r ≠ FoundNode →
  ∀ x, x ∈ inorder t → ¬ compares cmp T GenericEqual d x.
Proof.
  intros Hf Hne x Hx (e & He & Hc).
  assert (Hsplit : ∃ l1 l2, inorder t = l1 ++ l2 ∧ Forall (compares cmp T GenericGreaterThan d) l1 ∧
    Forall (compares cmp T GenericLessThan d) l2).
  { destruct r; try done.
    - destruct Hf as (k & b & -> & H1 & H2). rewrite plug_inorder. simpl in *. eauto.
    - destruct Hf as (k & a & -> & H1 & H2). rewrite plug_inorder. simpl in *.
      exists (before k ++ inorder a ++ [p]), (after k). rewrite <- !app_assoc. eauto. }
  destruct Hsplit as (l1 & l2 & Heq & H1 & H2). rewrite Heq in Hx. rewrite Forall_forall in H1, H2.
  apply elem_of_app in Hx as [Hx|Hx]; [destruct (H1 _ Hx) as (e' & He' & ?)|destruct (H2 _ Hx) as (e' & He' & ?)];
    congruence.
Qed.

(** The slot of a new key, as [FindNodeOrParent] reports it. *)
Definition slot (k : context) : SEARCH_RESULT * option addr :=
  match k with
  | [] => (EmptyTree, None)
  | LeftOf p _ :: _ => (InsertAsLeft, Some p)
  | RightOf _ p :: _ => (InsertAsRight, Some p)
  end.

(** ** Lookup *)

(** A returned pointer and the element it stands for. *)
Definition points (T : RTL_GENERIC_TABLE D) (r : option addr) (e : option D) : Prop :=
  match r, e with
  | Some x, Some e => Data T !! x = Some e
  | None, None => True
  | _, _ => False
  end.

Lemma reshaped_data T T' t t' : reshaped T T' t t' → Data T' = Data T.
Proof. intros [_ _ ->]. done. Qed.

(** The outcome of a search, with the element the list has. *)
Lemma find_cases T t ls d :
  rep T ls → table_tree T t →
  returns (FindNodeOrParent cmp T d) (λ r,
    (∃ x, r = (FoundNode, Some x) ∧ x ∈ inorder t ∧ compares cmp T GenericEqual d x ∧
       find_equal d ls = Data T !! x) ∨
    (r.1 ≠ FoundNode ∧ find_equal d ls = None ∧
     ∃ k, t = plug k Leaf ∧ Forall (compares cmp T GenericGreaterThan d) (before k) ∧
       Forall (compares cmp T GenericLessThan d) (after k) ∧
       r = slot k)).
Proof.
  intros Hr Ht. eapply returns_mono; [by apply FindNodeOrParent_ok|]. intros [r p].
  destruct t as [|a0 x0 b0].
  { intros [= -> ->]. right. split; [done|]. split.
    - apply (find_equal_none T Leaf); [done..|]. intros x ?%elem_of_nil. done.
    - exists []. split_and!; try done; constructor. }
  set (t := Node a0 x0 b0) in *. intros (q & Hq & Hf). simpl in Hq, Hf. subst p.
  assert (Hnone : r ≠ FoundNode → find_equal d ls = None).
  { intros Hne. apply (find_equal_none T t); [done..|]. by eapply slot_none. }
  destruct r; [done| | |].
  - left. exists q. destruct Hf as [Hin Hc]. split_and!; try done. by eapply find_equal_found.
  - right. split; [done|]. split; [by apply Hnone|]. destruct Hf as (k & b & -> & H1 & H2).
    exists (LeftOf q b :: k). split_and!; try done.
  - right. split; [done|]. split; [by apply Hnone|]. destruct Hf as (k & a & -> & H1 & H2).
    exists (RightOf a q :: k). split_and!; try done.
Qed.

Lemma RtlLookupElementGenericTable_ok T ls d :
  rep T ls →
  returns (RtlLookupElementGenericTable cmp d T) (λ r,
    rep r.2 ls ∧ points r.2 r.1 (find_equal d ls)).
Proof.
  intros Hr. destruct (rp_tree _ _ Hr) as [t Ht]. unfold RtlLookupElementGenericTable.
  apply returns_bind. eapply returns_mono; [by apply (find_cases T t ls)|].
  intros r [(x & -> & Hx & Hc & ->)|(Hne & -> & _)].
  - cbn [mbind option_bind]. apply returns_bind. eapply returns_mono; [by apply (splay_root_ok T t x)|].
    intros T' (t' & Hrs & _). eexists. split; [done|]. simpl. split; [by eapply rep_reshaped|].
    rewrite (reshaped_data _ _ _ _ Hrs). destruct (tt_data _ _ Ht _ Hx) as [e He]. by rewrite He.
  - destruct r as [[] p]; try done; by eexists.
Qed.

(** ** Insertion *)

Section fresh.
Context (T : RTL_GENERIC_TABLE D) (n : addr) (d : D).
Hypothesis Hn : Nodes T !! n = None.

Lemma fresh_node t : table_tree T t → n ∉ inorder t.
Proof.
  intros Ht Hin. destruct (tt_holds _ _ Ht) as [_ Hh]. rewrite <- (cells_addresses t None) in Hin.
  apply list_elem_of_fmap in Hin as ([y v] & -> & Hin). simpl in Hn. apply Hh in Hin. congruence.
Qed.

Context (T' : RTL_GENERIC_TABLE D).
Hypothesis HD : Data T' = <[n := d]> (Data T).

Lemma compares_fresh r e x : x ≠ n → compares cmp T r e x → compares cmp T' r e x.
Proof. intros Hne (u & Hu & Hc). exists u. split; [|done]. by rewrite HD, lookup_insert_ne. Qed.

Lemma key_lt_fresh x y : x ≠ n → y ≠ n → key_lt cmp T x y → key_lt cmp T' x y.
Proof.
  intros Hx Hy (u & Hu & Hc). exists u. split; [by rewrite HD, lookup_insert_ne|].
  by apply compares_fresh.
Qed.

(** The new node in its slot keeps the order. *)
Lemma sorted_insert l1 l2 :
  n ∉ l1 ++ l2 → StronglySorted (key_lt cmp T) (l1 ++ l2) →
  Forall (compares cmp T GenericGreaterThan d) l1 → Forall (compares cmp T GenericLessThan d) l2 →
  StronglySorted (key_lt cmp T') (l1 ++ n :: l2).
Proof.
  intros Hnin Hs H1 H2. rewrite Forall_forall in H1, H2.
  assert (Hmono : ∀ l, (∀ x, x ∈ l → x ∈ l1 ++ l2) → StronglySorted (key_lt cmp T) l →
    StronglySorted (key_lt cmp T') l).
  { intros l Hl. induction 1 as [|x l Hl' IH Hx]; constructor.
    - apply IH. intros y Hy. apply Hl. by right.
    - rewrite Forall_forall in Hx |- *. intros y Hy. apply key_lt_fresh; [..|by apply Hx].
      + intros ->. apply Hnin, Hl. by left.
      + intros ->. apply Hnin, Hl. by right. }
  apply StronglySorted_app in Hs as (Hlr & Hs1 & Hs2).
  assert (Hnd : Data T' !! n = Some d) by (rewrite HD; apply lookup_insert_eq).
  apply StronglySorted_app. split; [|split].
  - intros x y Hx [->|Hy]%elem_of_cons.
    + destruct (H1 _ Hx) as (e & He & Hc). exists e. split.
      * rewrite HD, lookup_insert_ne; [done|]. intros ->. apply Hnin. set_solver.
      * exists d. split; [done|]. by apply cmp_swap'.
    + apply key_lt_fresh; [intros ->; apply Hnin; set_solver..|by apply Hlr].
  - apply Hmono; [set_solver|done].
  - constructor; [apply Hmono; [set_solver|done]|]. apply Forall_forall. intros y Hy.
    exists d. split; [done|]. apply compares_fresh; [|by apply H2]. intros ->. apply Hnin. set_solver.
Qed.
End fresh.
End table.
