(* ===== verification/GenTableOps.v ===== *)
(** * The operations of a generic table on its list of elements

    Insertion, deletion, the enumerations and access by position: each returns,
    keeps [rep], and does on the list of elements what the interface promises. *)

From stdpp Require Import base list list_tactics numbers option gmap sorting.
From S2P Require Import Prelude Splay SplayTree SplayDelete GenTable GenTableOk.

(** What an allocator must do: a node it returns is not in use. *)
Class Allocator {D} (alloc : RTL_GENERIC_TABLE D → Z → option addr) :=
  alloc_fresh T s n : alloc T s = Some n → Nodes T !! n = None.

Lemma plug_root f k t t' : root (plug (f :: k) t) = root (plug (f :: k) t').
Proof. revert f t t'. induction k as [|g k IH]; intros [|] t t'; simpl; [done..|apply IH|apply IH]. Qed.

Lemma holds_delete x v cs h : holds ((x, v) :: cs) h → holds cs (delete x h).
Proof.
  intros [[Hx Hnd]%NoDup_cons H]. split; [done|]. intros y w Hin.
  rewrite lookup_delete_ne; [apply H; by right|]. intros ->. apply Hx, list_elem_of_fmap. by exists (y, w).
Qed.

Lemma filter_ne (x : addr) l1 l2 : NoDup (l1 ++ x :: l2) → filter (λ y, y ≠ x) (l1 ++ x :: l2) = l1 ++ l2.
Proof.
  intros (Hnd & Hd & [Hx ?]%NoDup_cons)%NoDup_app.
  assert (Hid : ∀ l : list addr, x ∉ l → filter (λ y, y ≠ x) l = l).
  { intros l Hl. induction l as [|y l IH]; [done|]. rewrite filter_cons_True by set_solver.
    by rewrite IH by set_solver. }
  rewrite filter_app, filter_cons_False by auto. rewrite !Hid; [done|done|].
  intros Hin. apply (Hd _ Hin). by left.
Qed.

Lemma Forall2_filter {A B} (R : A → B → Prop) P Q `{!∀ x, Decision (P x), !∀ y, Decision (Q y)} l k :
  Forall2 R l k → (∀ x y, x ∈ l → R x y → P x ↔ Q y) → Forall2 R (filter P l) (filter Q k).
Proof.
  induction 1 as [|x y l k Hxy _ IH]; intros Heq; [constructor|].
  assert (Hf : Forall2 R (filter P l) (filter Q k)) by (apply IH; intros ???; apply Heq; by right).
  pose proof (Heq x y ltac:(by left) Hxy) as Hd. destruct (decide (P x)).
  - rewrite !filter_cons_True by tauto. by constructor.
  - by rewrite !filter_cons_False by tauto.
Qed.

(** ** The list in order of insertion *)

(** The entry at a position, counted from one; the head is at position zero and
    after the last. *)
Definition entry (l : list addr) (i : nat) : option addr :=
  match i with O => None | S i => l !! i end.

Section entries.
Context (l : list addr) (Hnd : NoDup l).

Lemma next_entry_of j x : l !! j = Some x → next_entry x l = Some (l !! S j).
Proof using Hnd.
  revert j. induction Hnd as [|y k Hy Hk IH]; intros j Hj; [done|]. simpl. destruct j as [|j].
  - injection Hj as ->. rewrite decide_True by done. f_equal. by destruct k.
  - simpl in Hj. rewrite decide_False; [by apply IH|]. intros ->. apply Hy. by eapply list_elem_of_lookup_2.
Qed.

Lemma Flink_of i : (i ≤ length l)%nat → entry_Flink (entry l i) l = Some (entry l (S i)).
Proof using Hnd.
  intros Hi. destruct i as [|i]; simpl; [by destruct l|].
  destruct (lookup_lt_is_Some_2 l i) as [x Hx]; [lia|]. rewrite Hx. simpl. by apply next_entry_of.
Qed.

Lemma walk_forward n : ∀ i, (i + n ≤ S (length l))%nat →
  walk n (λ p, entry_Flink p l) (entry l i) = Some (entry l (i + n)).
Proof using Hnd.
  induction n as [|n IH]; intros i Hi; simpl walk; [by rewrite Nat.add_0_r|].
  rewrite Flink_of by lia. cbn [mbind option_bind]. rewrite IH by lia. by rewrite Nat.add_succ_r.
Qed.
End entries.

Lemma entry_reverse l i : (i ≤ length l)%nat → entry (reverse l) (length l - i) = entry l (S i).
Proof.
  intros Hi. destruct (length l - i)%nat as [|j] eqn:Hj; simpl.
  - rewrite lookup_ge_None_2; [done|lia].
  - rewrite reverse_lookup by lia. f_equal. lia.
Qed.

Lemma Blink_of l i : NoDup l → (i ≤ length l)%nat → entry_Blink (entry l (S i)) l = Some (entry l i).
Proof.
  intros Hnd Hi. unfold entry_Blink. rewrite <- entry_reverse by done.
  rewrite Flink_of; [|by rewrite reverse_Permutation|rewrite length_reverse; lia]. f_equal. simpl.
  destruct i as [|i]; simpl.
  - rewrite lookup_ge_None_2; [done|]. rewrite length_reverse. lia.
  - rewrite reverse_lookup by lia. f_equal. lia.
Qed.

Lemma walk_back l n : NoDup l → ∀ i, (n ≤ i ≤ S (length l))%nat →
  walk n (λ p, entry_Blink p l) (entry l i) = Some (entry l (i - n)).
Proof.
  intros Hnd. induction n as [|n IH]; intros i Hi; simpl walk; [by rewrite Nat.sub_0_r|].
  destruct i as [|i]; [lia|]. rewrite Blink_of by (done || lia). cbn [mbind option_bind].
  rewrite IH by lia. done.
Qed.

Section insert.
Context {D : Type} (cmp : D → D → RTL_GENERIC_COMPARE_RESULTS) `{!CompareOrder cmp}.

Context (T : RTL_GENERIC_TABLE D) (k : context) (n : addr) (d : D).
Hypothesis Ht : table_tree cmp T (plug k Leaf).
Hypothesis Hn : Nodes T !! n = None.
Hypothesis Hlow : Forall (compares cmp T GenericGreaterThan d) (before k).
Hypothesis Hhigh : Forall (compares cmp T GenericLessThan d) (after k).

(** The new node hangs in the slot. *)
Lemma insert_node_tree :
  returns (insert_node (slot k).1 (slot k).2 n d T) (λ T',
    table_tree cmp T' (plug k (Node Leaf n Leaf)) ∧
    T' = T <| Nodes := Nodes T' |> <| TableRoot := TableRoot T' |>
           <| InsertOrderList := InsertOrderList T ++ [n] |>
           <| NumberGenericTableElements := NumberGenericTableElements T +u 1 |>
           <| Data := <[n := d]> (Data T) |>).
Proof.
  assert (Hfresh := fresh_node cmp T n Hn _ Ht). rewrite plug_inorder in Hfresh. simpl in Hfresh.
  assert (Hrest : ∀ T', Data T' = <[n := d]> (Data T) → InsertOrderList T' = InsertOrderList T ++ [n] →
    holds (cells None (plug k (Node Leaf n Leaf))) (Nodes T') →
    TableRoot T' = root (plug k (Node Leaf n Leaf)) →
    table_tree cmp T' (plug k (Node Leaf n Leaf))).
  { intros T' HD HL Hh Hr. split; [done|done|..].
    - rewrite HL, (tt_list _ _ _ Ht), !plug_inorder. simpl. solve_Permutation.
    - intros x. rewrite plug_inorder, HD. simpl. intros Hx. destruct (decide (x = n)) as [->|Hne].
      { rewrite lookup_insert_eq. eauto. }
      rewrite lookup_insert_ne by done. apply (tt_data _ _ _ Ht). rewrite plug_inorder. set_solver.
    - rewrite plug_inorder. simpl. eapply (sorted_insert cmp T); [done..| |done|done].
      pose proof (tt_sorted _ _ _ Ht) as Hs. by rewrite plug_inorder in Hs. }
  pose proof (tt_holds _ _ _ Ht) as Hh. pose proof (tt_root _ _ _ Ht) as Hroot.
  apply (holds_new n (mkLinks n None None)) in Hh; [|done].
  unfold insert_node. destruct k as [|f j]; simpl slot; cbv zeta.
  - eexists. split; [reflexivity|]. split; [|reflexivity]. apply Hrest; done.
  - rewrite plug_cells in Hh. cbn [cells root app] in Hh. rewrite <- (app_nil_r (context_cells _ _ _)) in Hh.
    destruct f as [P c|c P]; cbn [fst snd mbind option_bind]; apply returns_bind;
      unfold RtlInsertAsLeftChild, RtlInsertAsRightChild; simpl in Hh; apply returns_bind.
    + run Hh. run Hh. do 2 (eexists; split; [reflexivity|]). split; [|reflexivity]. apply Hrest; [done|done| |].
      * eapply holds_perm; [|exact Hh]. rewrite node_cells. simpl. solve_Permutation.
      * etransitivity; [exact Hroot|]. apply plug_root.
    + run Hh. run Hh. do 2 (eexists; split; [reflexivity|]). split; [|reflexivity]. apply Hrest; [done|done| |].
      * eapply holds_perm; [|exact Hh]. rewrite node_cells. simpl. solve_Permutation.
      * etransitivity; [exact Hroot|]. apply plug_root.
Qed.
End insert.

Lemma elements_kept {D} (m m' : gmap addr D) (L : list addr) (ls : list D) :
  (∀ x, x ∈ L → m' !! x = m !! x) → Forall2 (λ x d, m !! x = Some d) L ls →
  Forall2 (λ x d, m' !! x = Some d) L ls.
Proof.
  intros Hm. induction 1 as [|x d L ls Hx _ IH]; constructor.
  - rewrite Hm; [done|by left].
  - apply IH. intros y Hy. apply Hm. by right.
Qed.

Section insertion.
Context {D : Type} (cmp : D → D → RTL_GENERIC_COMPARE_RESULTS) `{!CompareOrder cmp}.
Context (alloc : RTL_GENERIC_TABLE D → Z → option addr) `{!Allocator alloc}.

(** What insertion of [d] gives on the elements. *)
Definition insert_result (T : RTL_GENERIC_TABLE D) (d : D) (size : Z) (ls : list D)
    (r : option addr * bool * RTL_GENERIC_TABLE D) : Prop :=
  match find_equal cmp d ls with
  | Some e => r.1.2 = false ∧ rep cmp r.2 ls ∧ points r.2 r.1.1 (Some e)
  | None =>
      match alloc T (size +u NODE_SIZE) with
      | None => r = (None, false, T)
      | Some n => r.1 = (Some n, true) ∧ rep cmp r.2 (ls ++ [d]) ∧ points r.2 (Some n) (Some d)
      end
  end.

Lemma insert_rep T T' t n d ls :
  rep cmp T ls → Nodes T !! n = None → zlen ls + 1 < 2 ^ 32 → table_tree cmp T' t →
  T' = T <| Nodes := Nodes T' |> <| TableRoot := TableRoot T' |>
         <| InsertOrderList := InsertOrderList T ++ [n] |>
         <| NumberGenericTableElements := NumberGenericTableElements T +u 1 |>
         <| Data := <[n := d]> (Data T) |> →
  rep cmp T' (ls ++ [d]).
Proof.
  intros Hr Hn Hb Ht HT. destruct (rp_tree _ _ _ Hr) as [t0 Ht0].
  pose proof (fresh_node cmp T n Hn _ Ht0) as Hfresh. rewrite <- (tt_list _ _ _ Ht0) in Hfresh.
  destruct Hr as [_ He Hc _ [Hw Ho]]. pose proof (Forall2_length _ _ _ He) as Hlen.
  assert (HL : InsertOrderList T' = InsertOrderList T ++ [n]) by (by rewrite HT).
  assert (HD : Data T' = <[n := d]> (Data T)) by (by rewrite HT).
  assert (Hz : zlen (InsertOrderList T ++ [n]) = zlen (InsertOrderList T) + 1)
    by (unfold zlen; rewrite length_app; simpl; lia).
  assert (Hzl : zlen (InsertOrderList T) = zlen ls) by (unfold zlen; lia).
  split; [by exists t|..].
  - rewrite HL, HD. apply Forall2_app; [|constructor; [apply lookup_insert_eq|constructor]].
    eapply elements_kept; [|exact He]. intros x Hx. rewrite lookup_insert_ne; [done|set_solver].
  - assert (NumberGenericTableElements T' = NumberGenericTableElements T +u 1) as -> by (by rewrite HT).
    rewrite HL, Hz, Hc, u32_small; [done|]. unfold zlen in *. lia.
  - rewrite HL, Hz. lia.
  - unfold cursor_ok. rewrite HL, Hz.
    assert (WhichOrderedElement T' = WhichOrderedElement T) as -> by (by rewrite HT).
    assert (OrderedPointer T' = OrderedPointer T) as -> by (by rewrite HT).
    split; [lia|]. rewrite Ho. destruct (Z.eqb_spec (WhichOrderedElement T) 0); [done|].
    rewrite lookup_app_l; [done|]. unfold zlen in *. lia.
Qed.

Lemma RtlInsertElementGenericTable_ok T ls d size :
  rep cmp T ls → zlen ls + 1 < 2 ^ 32 →
  returns (RtlInsertElementGenericTable cmp alloc d size T) (insert_result T d size ls).
Proof.
  intros Hr Hb. destruct (rp_tree _ _ _ Hr) as [t Ht]. unfold RtlInsertElementGenericTable.
  apply returns_bind. eapply returns_mono; [by apply (find_cases cmp T t ls)|].
  intros r [(x & -> & Hx & Hc & Hfe)|(Hne & Hfe & k & -> & Hlow & Hhigh & ->)].
  - cbn [mbind option_bind]. apply returns_bind. eapply returns_mono; [by apply (splay_root_ok cmp T t x)|].
    intros T' (t' & Hrs & _). eexists. split; [done|]. unfold insert_result. rewrite Hfe.
    destruct (tt_data _ _ _ Ht _ Hx) as [e He]. rewrite He. split; [done|].
    split; [by eapply rep_reshaped|]. simpl. by rewrite (reshaped_data cmp _ _ _ _ Hrs).
  - pose proof (insert_node_tree cmp T k) as Hins. destruct (slot k) as [l p].
    assert (Hgo : returns
      match alloc T (size +u NODE_SIZE) with
      | None => Some (None, false, T)
      | Some NodeToReturn =>
          T ← insert_node l p NodeToReturn d T;
          T ← splay_root NodeToReturn T;
          Some (Some NodeToReturn, true, T)
      end (insert_result T d size ls)); [|by destruct l].
    unfold insert_result. rewrite Hfe. destruct (alloc T _) as [n|] eqn:Ha; [|by eexists].
    apply alloc_fresh in Ha. apply returns_bind.
    eapply returns_mono; [by apply (Hins n d)|]. intros T1 [Ht1 HT1].
    apply returns_bind. eapply returns_mono; [apply (splay_root_ok cmp T1 _ n Ht1)|].
    { rewrite plug_inorder. set_solver. }
    intros T2 (t2 & Hrs & _). eexists. split; [done|]. split; [done|].
    split; [eapply rep_reshaped; [|done]; by eapply insert_rep|]. simpl.
    rewrite (reshaped_data cmp _ _ _ _ Hrs), HT1. apply lookup_insert_eq.
Qed.

End insertion.

(** ** Deletion *)

Section operations.
Context {D : Type} (cmp : D → D → RTL_GENERIC_COMPARE_RESULTS) `{!CompareOrder cmp}.

Lemma key_lt_delete T T' x l1 l2 :
  x ∉ l1 ++ l2 → Data T' = delete x (Data T) → StronglySorted (key_lt cmp T) (l1 ++ x :: l2) →
  StronglySorted (key_lt cmp T') (l1 ++ l2).
Proof.
  intros Hx HD (Hlr & H1 & [_ H2]%StronglySorted_cons)%StronglySorted_app.
  assert (Hkey : ∀ y z, y ≠ x → z ≠ x → key_lt cmp T y z → key_lt cmp T' y z).
  { intros y z Hy Hz (u & Hu & w & Hw & Hc). exists u. rewrite HD, lookup_delete_ne by done.
    split; [done|]. exists w. by rewrite HD, lookup_delete_ne by done. }
  assert (Hmono : ∀ l, x ∉ l → StronglySorted (key_lt cmp T) l → StronglySorted (key_lt cmp T') l).
  { intros l Hl. induction 1 as [|y l Hl' IH Hy]; constructor; [apply IH; set_solver|].
    rewrite Forall_forall in Hy |- *. intros z Hz. apply Hkey; [set_solver..|by apply Hy]. }
  apply StronglySorted_app. split; [|split; apply Hmono; [set_solver|done|set_solver|done]].
  intros y z Hy Hz. apply Hkey; [set_solver..|]. apply Hlr; [done|by right].
Qed.

(** Without the node [x], which has the key of [d]. *)
Lemma delete_rep T ls d x l1 l2 t t' h :
  rep cmp T ls → table_tree cmp T t → inorder t = l1 ++ x :: l2 →
  compares cmp T GenericEqual d x → holds (cells None t') h → inorder t' = l1 ++ l2 →
  rep cmp (T <| TableRoot := root t' |>
             <| InsertOrderList := filter (λ y, y ≠ x) (InsertOrderList T) |>
             <| NumberGenericTableElements := NumberGenericTableElements T -u 1 |>
             <| WhichOrderedElement := 0 |> <| OrderedPointer := None |>
             <| Nodes := h |> <| Data := delete x (Data T) |>)
    (filter (λ e, cmp d e ≠ GenericEqual) ls).
Proof.
  intros Hr Ht Hi Hx Hh Hi'. pose proof Hr as [_ He Hc Hb _].
  assert (Hnd : NoDup (l1 ++ x :: l2)).
  { rewrite <- Hi. apply (inorder_nodup t None [] (Nodes T)). rewrite app_nil_r. apply Ht. }
  assert (HL : filter (λ y, y ≠ x) (InsertOrderList T) ≡ₚ l1 ++ l2).
  { rewrite (tt_list _ _ _ Ht), Hi. by rewrite filter_ne. }
  assert (Hxl : x ∉ l1 ++ l2).
  { apply NoDup_app in Hnd as (_ & Hd & [? _]%NoDup_cons). intros [Hin|Hin]%elem_of_app; [|done].
    apply (Hd _ Hin). by left. }
  assert (Hlen : zlen (InsertOrderList T) = zlen (filter (λ y, y ≠ x) (InsertOrderList T)) + 1).
  { unfold zlen. rewrite HL, (tt_list _ _ _ Ht), Hi, !length_app. simpl. lia. }
  split; simpl.
  - exists t'. split; simpl; [done|done|by rewrite Hi'| |].
    + intros y. rewrite Hi'. intros Hy. rewrite lookup_delete_ne by set_solver.
      apply (tt_data _ _ _ Ht). rewrite Hi. set_solver.
    + rewrite Hi'. eapply (key_lt_delete T _ x); [done|done|]. rewrite <- Hi. apply Ht.
  - eapply elements_kept.
    { intros y [Hy _]%list_elem_of_filter. apply lookup_delete_ne. congruence. }
    apply Forall2_filter; [done|]. intros y e Hy Hye. rewrite (tt_list _ _ _ Ht) in Hy.
    assert (Hxi : x ∈ inorder t) by (rewrite Hi; set_solver). split.
    + intros Hne Hde. apply Hne. eapply (keys_distinct cmp T t y x d); [done..| |done]. by exists e.
    + intros Hne ->. destruct Hx as (u & Hu & ?). congruence.
  - rewrite Hc, Hlen, u32_small; unfold zlen in *; lia.
  - lia.
  - split; simpl; [unfold zlen; lia|done].
Qed.

Definition delete_result (T : RTL_GENERIC_TABLE D) (d : D) (ls : list D)
    (r : bool * RTL_GENERIC_TABLE D) : Prop :=
  match find_equal cmp d ls with
  | None => r = (false, T)
  | Some _ => r.1 = true ∧ rep cmp r.2 (filter (λ e, cmp d e ≠ GenericEqual) ls)
  end.

Lemma RtlDeleteElementGenericTable_ok T ls d :
  rep cmp T ls → returns (RtlDeleteElementGenericTable cmp d T) (delete_result T d ls).
Proof.
  intros Hr. destruct (rp_tree _ _ _ Hr) as [t Ht]. unfold RtlDeleteElementGenericTable.
  apply returns_bind. eapply returns_mono; [by apply (find_cases cmp T t ls)|].
  intros r [(x & -> & Hx & Hc & Hfe)|(Hne & Hfe & _)].
  2: { unfold delete_result. rewrite Hfe. destruct r as [[] p]; try done; by eexists. }
  unfold delete_result. rewrite Hfe. destruct (tt_data _ _ _ Ht _ Hx) as [e He]. rewrite He.
  cbn [mbind option_bind]. apply returns_bind.
  destruct (locate t x Hx) as (k & a & b & ->).
  assert (Hp : placed k x (a, b) [] (Nodes T)).
  { unfold placed. simpl. rewrite app_nil_r. apply (tt_holds _ _ _ Ht). }
  eapply returns_mono; [by apply (RtlDelete_ok k x a b)|]. intros [R h] Hdel.
  destruct Hdel as (v & t' & HR & Hi' & Hh).
  simpl in Hi', Hh. subst R. eexists. split; [done|]. split; [done|]. cbn [snd].
  eapply (delete_rep T ls d x (before k ++ inorder a) (inorder b ++ after k)); [done|done| |done| |].
  - rewrite plug_inorder. simpl. by rewrite <- !app_assoc.
  - rewrite Permutation_app_comm in Hh. by apply holds_delete in Hh.
  - by rewrite HR, <- !app_assoc.
Qed.

(** ** Access by position *)

Lemma RtlGetElementGenericTable_ok T ls I :
  rep cmp T ls → 0 ≤ I < 2 ^ 32 →
  returns (RtlGetElementGenericTable I T) (λ r, rep cmp r.2 ls ∧ points r.2 r.1 (ls !! Z.to_nat I)).
Proof.
  intros Hr HI. pose proof Hr as [Htree He Hc Hb [Hw Ho]]. destruct Htree as [t Ht].
  assert (Hnd : NoDup (InsertOrderList T)).
  { rewrite (tt_list _ _ _ Ht). apply (inorder_nodup t None [] (Nodes T)). rewrite app_nil_r. apply Ht. }
  assert (Hwn : ∃ w, WhichOrderedElement T = Z.of_nat w) by (exists (Z.to_nat (WhichOrderedElement T)); lia).
  destruct Hwn as [w Hwn].
  set (L := InsertOrderList T) in *.
  assert (Hcur : OrderedPointer T = entry L w).
  { rewrite Ho. destruct (Z.eqb_spec (WhichOrderedElement T) 0) as [|]; [by replace w with 0%nat by lia|].
    destruct w as [|w]; [lia|]. simpl. f_equal. lia. }
  assert (Hpt : points T (entry L (S (Z.to_nat I))) (ls !! Z.to_nat I)).
  { simpl. pose proof (Forall2_length _ _ _ He) as Hlen. destruct (L !! Z.to_nat I) as [x|] eqn:HL.
    - destruct (Forall2_lookup_l _ _ _ _ _ He HL) as (e & -> & Hx). done.
    - rewrite (lookup_ge_None_2 ls); [done|]. apply lookup_ge_None in HL. lia. }
  unfold RtlGetElementGenericTable. fold L. unfold MAXULONG in *. unfold zlen in *. rewrite Hc, Hcur.
  destruct (Z.eqb_spec I (2 ^ 32 - 1)) as [->|HI']; simpl orb.
  { eexists. split; [done|]. split; [done|]. cbn [fst snd]. simpl entry in Hpt.
    rewrite lookup_ge_None_2 in Hpt by lia. done. }
  rewrite !(u32_small (I + 1)) by lia.
  destruct (Z.ltb_spec (Z.of_nat (length L)) (I + 1)).
  { eexists. split; [done|]. split; [done|]. cbn [fst snd]. simpl entry in Hpt.
    rewrite lookup_ge_None_2 in Hpt by lia. done. }
  destruct (Z.eqb_spec (I + 1) (WhichOrderedElement T)) as [HE|HE].
  { eexists. split; [done|]. split; [done|]. cbn [fst snd].
    by replace w with (S (Z.to_nat I)) by lia. }
  apply returns_bind.
  eapply returns_mono; [instantiate (1 := λ p, p = entry L (S (Z.to_nat I)))|].
  - assert (Hhead : entry L 0 = None) by done.
    assert (Hend : entry L (S (length L)) = None) by (simpl; by apply lookup_ge_None_2).
    destruct (Z.ltb_spec (I + 1) (WhichOrderedElement T));
      [destruct (Z.ltb_spec (WhichOrderedElement T `div` 2) (I + 1))|cbv zeta; rewrite !(u32_small (_ - _)), !(u32_small (_ + 1)) by lia;
       destruct (Z.leb_spec (I + 1 - WhichOrderedElement T) (Z.of_nat (length L) - (I + 1) + 1))].
    + rewrite u32_small by lia. rewrite walk_back by (done || lia).
      eexists. split; [done|]. f_equal. lia.
    + rewrite <- Hhead, walk_forward by (done || lia). eexists. split; [done|]. f_equal. lia.
    + rewrite walk_forward by (done || lia). eexists. split; [done|]. f_equal. lia.
    + rewrite <- Hend.
      rewrite walk_back by (done || lia). eexists. split; [done|]. f_equal. lia.
  - intros p ->. eexists. split; [done|]. split; [|done]. cbn [snd]. split; try done.
    { exists t. destruct Ht. by split. }
    split; simpl; [unfold zlen; fold L; lia|]. rewrite (proj2 (Z.eqb_neq _ _)) by lia.
    f_equal. lia.
Qed.
End operations.
