(* ===== verification/GenTableEnum.v ===== *)
(** * Enumerating a generic table

    The loops that the comments of [RtlEnumerateGenericTable] and of
    [RtlEnumerateGenericTableWithoutSplaying] give as their use, and the proof that
    they visit every element once, in the order of the keys. *)

From stdpp Require Import base list list_tactics numbers option gmap sorting.
From S2P Require Import Prelude Splay SplayTree SplayDelete GenTable GenTableOk.

(** [for (ptr = Enumerate(Table, TRUE); ptr != NULL; ptr = Enumerate(Table, FALSE))]:
    the pointers of the iterations. *)
Fixpoint enumerate_rest {D} (fuel : nat) (ptr : option addr) (T : RTL_GENERIC_TABLE D) :
    option (list addr * RTL_GENERIC_TABLE D) :=
  match ptr, fuel with
  | None, _ => Some ([], T)
  | _, O => None
  | Some x, S fuel =>
      '(ptr, T) ← RtlEnumerateGenericTable false T;
      '(l, T) ← enumerate_rest fuel ptr T; Some (x :: l, T)
  end.

Definition enumerate_all {D} (T : RTL_GENERIC_TABLE D) :
    option (list addr * RTL_GENERIC_TABLE D) :=
  '(ptr, T) ← RtlEnumerateGenericTable true T; enumerate_rest (size (Nodes T)) ptr T.

(** The same without splaying: the table does not change, [RestartKey] does. *)
Fixpoint enumerate_keys {D} (fuel : nat) (ptr RestartKey : option addr) (T : RTL_GENERIC_TABLE D) :
    option (list addr) :=
  match ptr, fuel with
  | None, _ => Some []
  | _, O => None
  | Some x, S fuel =>
      '(ptr, RestartKey) ← RtlEnumerateGenericTableWithoutSplaying RestartKey T;
      l ← enumerate_keys fuel ptr RestartKey T; Some (x :: l)
  end.

Definition enumerate_without_splaying {D} (T : RTL_GENERIC_TABLE D) : option (list addr) :=
  '(ptr, RestartKey) ← RtlEnumerateGenericTableWithoutSplaying None T;
  enumerate_keys (size (Nodes T)) ptr RestartKey T.

Lemma split_unique {A} (x : A) l1 l2 m1 m2 :
  NoDup (l1 ++ x :: l2) → l1 ++ x :: l2 = m1 ++ x :: m2 → l2 = m2.
Proof.
  revert m1. induction l1 as [|y l1 IH]; intros [|z m1] Hnd Heq; simpl in *.
  - by injection Heq.
  - injection Heq as <- ->. apply NoDup_cons in Hnd as [Hx _]. destruct Hx. set_solver.
  - injection Heq as -> <-. apply NoDup_cons in Hnd as [Hx _]. destruct Hx. set_solver.
  - injection Heq as <- Heq. apply NoDup_cons in Hnd as [_ Hnd]. by eapply IH.
Qed.

Section enumeration.
Context {D : Type} (cmp : D → D → RTL_GENERIC_COMPARE_RESULTS) `{!CompareOrder cmp}.

Lemma table_nodup T t : table_tree cmp T t → NoDup (inorder t).
Proof.
  intros Ht. apply (inorder_nodup t None [] (Nodes T)). rewrite app_nil_r. apply Ht.
Qed.

Lemma table_size T t : table_tree cmp T t → (length (inorder t) ≤ size (Nodes T))%nat.
Proof. intros Ht. eapply (tree_size None t []). rewrite app_nil_r. apply Ht. Qed.

(** The successor in the heap is the next node of the order. *)
Lemma successor_ok T t x l1 l2 :
  table_tree cmp T t → inorder t = l1 ++ x :: l2 →
  returns (RtlRealSuccessor x (Nodes T)) (λ r, r = head l2).
Proof.
  intros Ht Hi. assert (Hx : x ∈ inorder t) by (rewrite Hi; set_solver).
  pose proof (table_nodup _ _ Ht) as Hnd. destruct (locate t x Hx) as (k & a & b & ->).
  eapply returns_mono.
  { apply (RtlRealSuccessor_ok k a b x [] (Nodes T)). unfold placed. simpl. rewrite app_nil_r. apply Ht. }
  intros r ->. f_equal. rewrite plug_inorder in Hi, Hnd. simpl in Hi, Hnd.
  rewrite <- !app_assoc in Hi, Hnd.
  apply (split_unique x (before k ++ inorder a) _ l1); rewrite <- !app_assoc; [exact Hnd|exact Hi].
Qed.

Lemma least_ok T t a x b :
  table_tree cmp T t → t = Node a x b →
  returns (leftmost (S (size (Nodes T))) x (Nodes T)) (λ y, head (inorder t) = Some y).
Proof.
  intros Ht ->. apply (leftmost_ok (Node a x b) x None []); [done| |].
  - rewrite app_nil_r. apply Ht.
  - pose proof (table_size _ _ Ht). lia.
Qed.

(** ** With splaying *)

Lemma splay_to T t x :
  table_tree cmp T t → x ∈ inorder t →
  returns (T ← splay_root x T; Some (Some x, T)) (λ r,
    r.1 = Some x ∧ ∃ t', reshaped cmp T r.2 t t' ∧ root t' = Some x).
Proof.
  intros Ht Hx. apply returns_bind. eapply returns_mono; [by apply splay_root_ok|].
  intros T' HT'. by eexists.
Qed.

Lemma reshaped_refl T t : table_tree cmp T t → reshaped cmp T T t t.
Proof. intros Ht. split; [done|done|]. by destruct T. Qed.

Lemma reshaped_trans T1 T2 T3 t1 t2 t3 :
  reshaped cmp T1 T2 t1 t2 → reshaped cmp T2 T3 t2 t3 → reshaped cmp T1 T3 t1 t3.
Proof.
  intros [_ Ho1 Hr1] [Ht Ho2 Hr2]. split; [done|congruence|].
  rewrite Hr2 at 1. rewrite Hr1. by destruct T1.
Qed.

(** A call returns the head of what is to come and makes it the root. *)
Definition visits (T : RTL_GENERIC_TABLE D) (t : tree) (l : list addr)
    (r : option addr * RTL_GENERIC_TABLE D) : Prop :=
  r.1 = head l ∧ ∃ t', reshaped cmp T r.2 t t' ∧ (l ≠ [] → root t' = head l).

Lemma enumerate_first T t :
  table_tree cmp T t → returns (RtlEnumerateGenericTable true T) (visits T t (inorder t)).
Proof.
  intros Ht. unfold RtlEnumerateGenericTable. rewrite (tt_root _ _ _ Ht).
  destruct t as [|a x b] eqn:Htx; simpl root.
  { eexists. split; [done|]. split; [done|]. exists Leaf. split; [by apply reshaped_refl|done]. }
  rewrite <- Htx in *. apply returns_bind. eapply returns_mono; [by eapply least_ok|].
  intros y Hy. eapply returns_mono; [apply (splay_to T t y Ht)|].
  { apply head_Some_elem_of in Hy. done. }
  intros r (Hr & t' & Hrs & Hroot). split; [congruence|]. exists t'. split; [done|]. congruence.
Qed.

Lemma enumerate_next T t x l1 l2 :
  table_tree cmp T t → root t = Some x → inorder t = l1 ++ x :: l2 →
  returns (RtlEnumerateGenericTable false T) (visits T t l2).
Proof.
  intros Ht Hx Hi. unfold RtlEnumerateGenericTable. rewrite (tt_root _ _ _ Ht), Hx.
  apply returns_bind. eapply returns_mono; [by eapply successor_ok|]. intros r ->.
  destruct l2 as [|y l2]; simpl head.
  { eexists. split; [done|]. split; [done|]. exists t. split; [by apply reshaped_refl|done]. }
  eapply returns_mono; [apply (splay_to T t y Ht)|].
  { rewrite Hi. set_solver. }
  intros r (Hr & t' & Hrs & Hroot). split; [done|]. by exists t'.
Qed.

Lemma enumerate_rest_ok l2 : ∀ n T t l1,
  table_tree cmp T t → (l2 ≠ [] → root t = head l2) → inorder t = l1 ++ l2 → (length l2 ≤ n)%nat →
  returns (enumerate_rest n (head l2) T) (λ r, r.1 = l2 ∧ ∃ t', reshaped cmp T r.2 t t').
Proof.
  induction l2 as [|x l2 IH]; intros n T t l1 Ht Hroot Hi Hn.
  { destruct n; (eexists; split; [done|]; split; [done|]; exists t; by apply reshaped_refl). }
  destruct n as [|n]; simpl in Hn; [lia|]. simpl. apply returns_bind.
  eapply returns_mono; [by apply (enumerate_next T t x l1 l2); auto|].
  intros [p T'] (Hp & t' & Hrs & Hroot'). simpl in Hp, Hrs. subst p. apply returns_bind.
  eapply returns_mono; [apply (IH n T' t' (l1 ++ [x]))|]; [apply Hrs|done| |lia|].
  { rewrite (rs_order _ _ _ _ _ Hrs), Hi. by rewrite <- app_assoc. }
  intros [l T''] [Hl [t'' Hrs']]. simpl in Hl, Hrs'. subst l. eexists. split; [done|]. split; [done|]. exists t''.
  by eapply reshaped_trans.
Qed.

Lemma enumerate_all_ok T t :
  table_tree cmp T t →
  returns (enumerate_all T) (λ r, r.1 = inorder t ∧ ∃ t', reshaped cmp T r.2 t t').
Proof.
  intros Ht. apply returns_bind. eapply returns_mono; [by eapply enumerate_first|].
  intros [p T'] (Hp & t' & Hrs & Hroot). simpl in Hp, Hrs. subst p. rewrite <- (rs_order _ _ _ _ _ Hrs).
  eapply returns_mono; [apply (enumerate_rest_ok _ _ T' t' [])|]; try done.
  - apply Hrs.
  - by rewrite (rs_order _ _ _ _ _ Hrs).
  - apply table_size, Hrs.
  - intros [l T''] [Hl [t'' Hrs']]. simpl in Hl, Hrs'. subst l. split; [done|]. exists t''. by eapply reshaped_trans.
Qed.

(** ** Without splaying *)

Lemma enumerate_keys_ok l2 : ∀ n T t l1 K,
  table_tree cmp T t → inorder t = l1 ++ l2 → (l2 ≠ [] → K = head l2) → (length l2 ≤ n)%nat →
  returns (enumerate_keys n (head l2) K T) (λ l, l = l2).
Proof.
  induction l2 as [|x l2 IH]; intros n T t l1 K Ht Hi HK Hn; [by destruct n; eexists|].
  destruct n as [|n]; simpl in Hn; [lia|]. rewrite HK by done. simpl.
  unfold RtlEnumerateGenericTableWithoutSplaying. rewrite (tt_root _ _ _ Ht).
  assert (Hne : ∃ y, root t = Some y) by (destruct t; [by destruct l1|eauto]).
  destruct Hne as [y ->]. apply returns_bind. apply returns_bind.
  eapply returns_mono; [by eapply successor_ok|]. intros r ->.
  assert (Hi' : inorder t = (l1 ++ [x]) ++ l2) by (by rewrite Hi, <- app_assoc).
  destruct l2 as [|z l2]; simpl head.
  - eexists. split; [done|]. destruct n; by eexists.
  - eexists. split; [done|]. cbv beta iota. apply returns_bind.
    eapply returns_mono; [apply (IH n T t _ (Some z) Ht Hi'); [done|simpl in *; lia]|].
    intros l ->. by eexists.
Qed.

Lemma enumerate_without_splaying_ok T t :
  table_tree cmp T t → returns (enumerate_without_splaying T) (λ l, l = inorder t).
Proof.
  intros Ht. unfold enumerate_without_splaying, RtlEnumerateGenericTableWithoutSplaying at 1.
  rewrite (tt_root _ _ _ Ht). destruct t as [|a x b] eqn:Htx; simpl root.
  { cbn [mbind option_bind]. destruct (size (Nodes T)); by eexists. }
  rewrite <- Htx in *. apply returns_bind, returns_bind.
  eapply returns_mono; [by eapply least_ok|]. intros y Hy. eexists. split; [done|]. cbv beta iota.
  rewrite <- Hy. apply (enumerate_keys_ok _ _ T t []); [done..|]. by apply table_size.
Qed.

(** ** The elements *)

(** The elements of the nodes, in order. *)
Definition in_order (T : RTL_GENERIC_TABLE D) (ls : list D) (l : list addr) : Prop :=
  ∃ es, Forall2 (λ x d, Data T !! x = Some d) l es ∧ es ≡ₚ ls ∧
    StronglySorted (λ a b, cmp a b = GenericLessThan) es.

Lemma tree_in_order T t ls : rep cmp T ls → table_tree cmp T t → in_order T ls (inorder t).
Proof.
  intros Hr Ht. pose proof (rp_elements _ _ _ Hr) as He.
  set (f := λ x, Data T !! x).
  assert (Hls : ls = omap f (InsertOrderList T)).
  { clear Hr. induction He as [|x d L ls Hx _ IH]; [done|]. simpl. unfold f at 1. rewrite Hx. by f_equal. }
  assert (Hes : Forall2 (λ x d, Data T !! x = Some d) (inorder t) (omap f (inorder t))).
  { pose proof (tt_data _ _ _ Ht) as Hd. induction (inorder t) as [|x l IH]; [constructor|].
    destruct (Hd x) as [d Hx]; [by left|]. simpl. unfold f at 1. rewrite Hx. constructor; [done|].
    apply IH. intros y Hy. apply Hd. by right. }
  exists (omap f (inorder t)). split; [done|]. split; [by rewrite Hls, (tt_list _ _ _ Ht)|].
  pose proof (tt_sorted _ _ _ Ht) as Hs.
  induction Hes as [|x d l es Hx Hes IH]; [constructor|].
  apply StronglySorted_cons in Hs as [Hlt Hs]. constructor; [by apply IH|].
  apply Forall_forall. intros e (i & Hi)%list_elem_of_lookup.
  destruct (Forall2_lookup_r _ _ _ _ _ Hes Hi) as (y & Hy & He').
  rewrite Forall_forall in Hlt. destruct (Hlt y) as (u & Hu & w & Hw & Hc); [by eapply list_elem_of_lookup_2|].
  congruence.
Qed.
End enumeration.
