(* ===== verification/GenTableTheorems.v ===== *)
(** * Splay links and generic tables: the theorems

    Splaying against a functional bottom-up splay, deletion from a tree, a
    generic table against a list of elements for any sequence of calls, and the
    enumeration loops. *)

From stdpp Require Import base list list_tactics numbers option gmap sorting fin_maps infinite.
From S2P Require Import Prelude Splay SplayTree SplayDelete GenTable GenTableOk GenTableOps GenTableEnum.

(** ** The calls of a client and what they promise *)

Section calls.
Context {D : Type} (cmp : D → D → RTL_GENERIC_COMPARE_RESULTS).
Context (alloc : RTL_GENERIC_TABLE D → Z → option addr).

Inductive call :=
  | Insert (d : D) (size : Z)
  | Delete (d : D)
  | Lookup (d : D)
  | GetElement (i : Z)
  | Enumerate
  | NumberElements
  | IsEmpty.

Inductive reply :=
  | Inserted (e : option D) (NewElement : bool)
  | Deleted (found : bool)
  | Element (e : option D)
  | Elements (es : list D)
  | Number (n : Z)
  | Empty (b : bool).

(** The element behind a returned pointer. *)
Definition deref (T : RTL_GENERIC_TABLE D) (p : option addr) : option (option D) :=
  match p with Some x => d ← Data T !! x; Some (Some d) | None => Some None end.

Definition do_call (c : call) (T : RTL_GENERIC_TABLE D) : option (reply * RTL_GENERIC_TABLE D) :=
  match c with
  | Insert d size =>
      '(p, new, T) ← RtlInsertElementGenericTable cmp alloc d size T;
      e ← deref T p; Some (Inserted e new, T)
  | Delete d => '(b, T) ← RtlDeleteElementGenericTable cmp d T; Some (Deleted b, T)
  | Lookup d =>
      '(p, T) ← RtlLookupElementGenericTable cmp d T; e ← deref T p; Some (Element e, T)
  | GetElement i => '(p, T) ← RtlGetElementGenericTable i T; e ← deref T p; Some (Element e, T)
  | Enumerate =>
      '(l, T) ← enumerate_all T; es ← mapM (λ x, Data T !! x) l; Some (Elements es, T)
  | NumberElements => Some (Number (RtlNumberGenericTableElements T), T)
  | IsEmpty => Some (Empty (RtlIsGenericTableEmpty T), T)
  end.

Fixpoint do_calls (cs : list call) (T : RTL_GENERIC_TABLE D) :
    option (list reply * RTL_GENERIC_TABLE D) :=
  match cs with
  | [] => Some ([], T)
  | c :: cs =>
      '(r, T) ← do_call c T; '(rs, T) ← do_calls cs T; Some (r :: rs, T)
  end.

(** The specification: the state is the list of elements in order of insertion. *)
Inductive spec_step (ls : list D) : call → reply → list D → Prop :=
  | spec_insert_old d size e :
      find_equal cmp d ls = Some e → spec_step ls (Insert d size) (Inserted (Some e) false) ls
  | spec_insert_new d size :
      find_equal cmp d ls = None →
      spec_step ls (Insert d size) (Inserted (Some d) true) (ls ++ [d])
  | spec_insert_no_memory d size T :
      find_equal cmp d ls = None → alloc T (size +u NODE_SIZE) = None →
      spec_step ls (Insert d size) (Inserted None false) ls
  | spec_delete d :
      spec_step ls (Delete d) (Deleted (bool_decide (is_Some (find_equal cmp d ls))))
        (filter (λ e, cmp d e ≠ GenericEqual) ls)
  | spec_lookup d : spec_step ls (Lookup d) (Element (find_equal cmp d ls)) ls
  | spec_get i : spec_step ls (GetElement i) (Element (ls !! Z.to_nat i)) ls
  | spec_enumerate es :
      es ≡ₚ ls → StronglySorted (λ a b, cmp a b = GenericLessThan) es →
      spec_step ls Enumerate (Elements es) ls
  | spec_number : spec_step ls NumberElements (Number (zlen ls)) ls
  | spec_empty : spec_step ls IsEmpty (Empty (bool_decide (ls = []))) ls.

Inductive spec_steps : list D → list call → list reply → list D → Prop :=
  | spec_done ls : spec_steps ls [] [] ls
  | spec_call ls c r ls' cs rs ls'' :
      spec_step ls c r ls' → spec_steps ls' cs rs ls'' → spec_steps ls (c :: cs) (r :: rs) ls''.

(** A position is a [ULONG]. *)
Definition call_ok (c : call) : Prop :=
  match c with GetElement i => 0 ≤ i < 2 ^ 32 | _ => True end.
End calls.

Arguments call : clear implicits.
Arguments reply : clear implicits.

(** ** The simulation *)

Section simulation.
Context {D : Type} (cmp : D → D → RTL_GENERIC_COMPARE_RESULTS) `{!CompareOrder cmp}.
Context (alloc : RTL_GENERIC_TABLE D → Z → option addr) `{!Allocator alloc}.

Lemma points_deref (T : RTL_GENERIC_TABLE D) p e : points T p e → deref T p = Some e.
Proof. destruct p as [x|], e as [e|]; try done. simpl. by intros ->. Qed.

Lemma rep_length T ls : rep cmp T ls → zlen (InsertOrderList T) = zlen ls.
Proof. intros Hr. unfold zlen. by rewrite (Forall2_length _ _ _ (rp_elements _ _ _ Hr)). Qed.

Lemma find_equal_filter d ls :
  find_equal cmp d ls = None → filter (λ e, cmp d e ≠ GenericEqual) ls = ls.
Proof.
  unfold find_equal. induction ls as [|e ls IH]; [done|]. rewrite !filter_cons.
  destruct (decide (cmp d e = GenericEqual)); [done|]. rewrite decide_True by done.
  intros H. by rewrite IH.
Qed.

Lemma is_empty_ok T ls : rep cmp T ls → RtlIsGenericTableEmpty T = bool_decide (ls = []).
Proof.
  intros Hr. destruct (rp_tree _ _ _ Hr) as [t Ht]. unfold RtlIsGenericTableEmpty.
  rewrite (tt_root _ _ _ Ht). pose proof (Forall2_length _ _ _ (rp_elements _ _ _ Hr)) as Hl.
  rewrite (tt_list _ _ _ Ht) in Hl. symmetry. destruct t as [|a x b]; simpl in *.
  - apply bool_decide_true. by destruct ls.
  - apply bool_decide_false. intros ->. rewrite length_app in Hl. simpl in Hl. lia.
Qed.

Lemma do_call_ok c T ls :
  rep cmp T ls → zlen ls + 1 < 2 ^ 32 → call_ok c →
  returns (do_call cmp alloc c T) (λ r, ∃ ls',
    spec_step cmp alloc ls c r.1 ls' ∧ rep cmp r.2 ls' ∧ zlen ls' ≤ zlen ls + 1).
Proof.
  intros Hr Hb Hok.
  assert (Hsame : zlen ls ≤ zlen ls + 1) by lia.
  assert (Hmore : ∀ d, zlen (ls ++ [d]) ≤ zlen ls + 1) by (intros; unfold zlen; rewrite length_app; simpl; lia).
  destruct c as [d size|d|d|i| | |]; simpl do_call.
  - apply returns_bind. eapply returns_mono; [by apply RtlInsertElementGenericTable_ok|].
    intros [[p new] T']. unfold insert_result. cbn [fst snd].
    destruct (find_equal cmp d ls) as [e|] eqn:Hf.
    { intros (-> & Hr' & Hp). rewrite (points_deref _ _ _ Hp). eexists. split; [done|].
      exists ls. split; [by constructor|done]. }
    destruct (alloc T _) as [n|] eqn:Ha.
    + intros ([= -> ->] & Hr' & Hp). rewrite (points_deref _ _ _ Hp). eexists. split; [done|].
      exists (ls ++ [d]). split; [by constructor|]. by split.
    + intros [= -> -> ->]. eexists. split; [done|]. exists ls. split; [by eapply spec_insert_no_memory|done].
  - apply returns_bind. eapply returns_mono; [by apply (RtlDeleteElementGenericTable_ok cmp)|].
    intros [b T']. unfold delete_result. cbn [fst snd]. intros Hdel. eexists. split; [done|].
    exists (filter (λ e, cmp d e ≠ GenericEqual) ls). cbn [fst snd].
    assert (Hlen : zlen (filter (λ e, cmp d e ≠ GenericEqual) ls) ≤ zlen ls + 1).
    { unfold zlen. pose proof (length_filter (λ e, cmp d e ≠ GenericEqual) ls). lia. }
    pose proof (spec_delete cmp alloc ls d) as Hspec.
    destruct (find_equal cmp d ls) as [e|] eqn:Hf.
    + destruct Hdel as [-> Hr']. by split.
    + injection Hdel as -> ->. rewrite (find_equal_filter _ _ Hf) in *. by split.
  - apply returns_bind. eapply returns_mono; [by apply (RtlLookupElementGenericTable_ok cmp)|].
    intros [p T'] [Hr' Hp]. cbn [fst snd] in *. rewrite (points_deref _ _ _ Hp). eexists. split; [done|].
    exists ls. split; [constructor|done].
  - apply returns_bind. eapply returns_mono; [by apply (RtlGetElementGenericTable_ok cmp)|].
    intros [p T'] [Hr' Hp]. cbn [fst snd] in *. rewrite (points_deref _ _ _ Hp). eexists. split; [done|].
    exists ls. split; [constructor|done].
  - destruct (rp_tree _ _ _ Hr) as [t Ht]. apply returns_bind.
    eapply returns_mono; [by apply (enumerate_all_ok cmp)|]. intros [l T'] [Hl [t' Hrs]].
    simpl in Hl, Hrs. subst l. rewrite (reshaped_data cmp _ _ _ _ Hrs).
    destruct (tree_in_order cmp T t ls Hr Ht) as (es & Hes & Hp & Hs).
    apply mapM_Some in Hes. rewrite Hes. eexists. split; [done|]. exists ls.
    split; [by constructor|]. split; [by eapply rep_reshaped|done].
  - eexists. split; [done|]. exists ls. split; [|done]. unfold RtlNumberGenericTableElements.
    rewrite (rp_count _ _ _ Hr), (rep_length _ _ Hr). constructor.
  - eexists. split; [done|]. exists ls. split; [|done]. rewrite (is_empty_ok _ _ Hr). constructor.
Qed.

Lemma do_calls_ok cs : ∀ T ls,
  rep cmp T ls → zlen ls + zlen cs < 2 ^ 32 → Forall call_ok cs →
  returns (do_calls cmp alloc cs T) (λ r, ∃ ls',
    spec_steps cmp alloc ls cs r.1 ls' ∧ rep cmp r.2 ls').
Proof.
  induction cs as [|c cs IH]; intros T ls Hr Hb Hok.
  { eexists. split; [done|]. exists ls. split; [constructor|done]. }
  apply Forall_cons in Hok as [Hc Hok]. simpl do_calls. apply returns_bind.
  assert (Hz : zlen (c :: cs) = zlen cs + 1) by (unfold zlen; simpl; lia).
  eapply returns_mono; [apply (do_call_ok c T ls Hr); [unfold zlen in *; lia|done]|].
  intros [r T'] (ls' & Hstep & Hr' & Hl). apply returns_bind. cbn [fst snd] in *.
  eapply returns_mono; [apply (IH T' ls' Hr'); [lia|done]|].
  intros [rs T''] (ls'' & Hsteps & Hr''). eexists. split; [done|]. exists ls''.
  split; [by econstructor|done].
Qed.
End simulation.

(** ** Concrete inputs *)

Module Concrete.
Definition compare (a b : Z) : RTL_GENERIC_COMPARE_RESULTS :=
  match a ?= b with Lt => GenericLessThan | Gt => GenericGreaterThan | Eq => GenericEqual end.

#[export] Instance compare_order : CompareOrder compare.
Proof.
  unfold compare. split.
  - intros x. by rewrite Z.compare_refl.
  - intros x y. rewrite (Z.compare_antisym x y). by destruct (x ?= y).
  - intros x y. rewrite (Z.compare_antisym x y). by destruct (x ?= y).
  - intros x y z. destruct (Z.compare_spec x y), (Z.compare_spec y z), (Z.compare_spec x z); done || lia.
  - intros x y z. destruct (Z.compare_spec x y); try done. by subst.
Qed.

(** Grants requests below a page. *)
Definition allocate (T : RTL_GENERIC_TABLE Z) (s : Z) : option addr :=
  if s <? 4096 then Some (fresh (dom (Nodes T))) else None.

#[export] Instance allocate_ok : Allocator allocate.
Proof.
  intros T s n. unfold allocate. destruct (s <? 4096); [|done]. intros [= <-].
  apply not_elem_of_dom, is_fresh.
Qed.

Definition t5 : tree :=
  Node (Node (Node Leaf 1%nat Leaf) 2%nat (Node Leaf 3%nat Leaf)) 4%nat (Node Leaf 5%nat Leaf).
Definition heap5 : heap := list_to_map (cells None t5).

Lemma heap5_ok : holds (cells None t5 ++ []) heap5.
Proof.
  rewrite app_nil_r. split; [apply (bool_decide_unpack _); by vm_compute|].
  intros x v. apply elem_of_list_to_map_1. apply (bool_decide_unpack _). by vm_compute.
Qed.

Definition calls : list (call Z) :=
  [Insert 5 4; Insert 2 4; Insert 9 4; Insert 2 4; Insert 7 5000; Lookup 2; Delete 5;
   Insert 1 4; GetElement 2; GetElement 3; Enumerate; NumberElements; IsEmpty].

Lemma calls_ok : Forall call_ok calls.
Proof. unfold calls. repeat (apply Forall_cons; split; [done || (simpl; lia)|]). constructor. Qed.

Definition inserts : list (call Z) := [Insert 5 4; Insert 2 4; Insert 9 4].

Definition table3 : RTL_GENERIC_TABLE Z :=
  match do_calls compare allocate inserts RtlInitializeGenericTable with
  | Some (_, T) => T
  | None => RtlInitializeGenericTable
  end.

Lemma table3_ok : rep compare table3 [5; 2; 9].
Proof.
  assert (Hok : Forall call_ok inserts) by (repeat (apply Forall_cons; split; [done|]); constructor).
  destruct (do_calls_ok compare allocate inserts _ [] (initialized_ok compare) eq_refl Hok)
    as ([rs T] & Heq & ls & Hs & Hr).
  assert (Hrs : fst <$> do_calls compare allocate inserts RtlInitializeGenericTable =
    Some [Inserted (Some 5) true; Inserted (Some 2) true; Inserted (Some 9) true]) by (by vm_compute).
  unfold table3. rewrite Heq in Hrs |- *. simpl in Hrs, Hs, Hr. injection Hrs as ->.
  unfold inserts in Hs. repeat match goal with
    | H : spec_steps _ _ _ _ _ _ |- _ => inversion H; subst; clear H
    | H : spec_step _ _ _ _ _ _ |- _ => inversion H; subst; clear H
    end. exact Hr.
Qed.
End Concrete.
Import Concrete.

(** ** The theorems *)

(** C14: [RtlSplay] of any link of a tree returns and makes that link the root. The
    tree it leaves is the one of functional bottom-up splaying ([splay_up]: zig,
    zig-zig and zig-zag steps from the link to the root), so the order of the links
    does not change, and links outside the tree keep their contents. *)
Theorem splay_correct k a x b R h :
  holds (cells None (plug k (Node a x b)) ++ R) h →
  returns (RtlSplay x h) (λ r, r.1 = x ∧
    holds (cells None (splay_up k x (a, b)) ++ R) r.2 ∧
    root (splay_up k x (a, b)) = Some x ∧
    inorder (splay_up k x (a, b)) = inorder (plug k (Node a x b))).
Proof.
  intros H. eapply returns_mono; [by apply (RtlSplay_ok k x (a, b) R)|]. intros r [-> Hh].
  split; [done|]. split; [done|]. split; [|apply splay_up_inorder].
  destruct (splay_up_root k x (a, b)) as (a' & b' & ->). done.
Qed.

Lemma splay_correct_witness :
  holds (cells None t5 ++ []) heap5 ∧
  returns (RtlSplay 3%nat heap5) (λ r, r.1 = 3%nat ∧
    holds (cells None (Node (Node (Node Leaf 1%nat Leaf) 2%nat Leaf) 3%nat
                            (Node Leaf 4%nat (Node Leaf 5%nat Leaf))) ++ []) r.2).
Proof.
  split; [exact heap5_ok|].
  eapply returns_mono;
    [apply (splay_correct [RightOf (Node Leaf 1%nat Leaf) 2%nat; LeftOf 4%nat (Node Leaf 5%nat Leaf)]
              Leaf 3%nat Leaf [] heap5); exact heap5_ok|].
  intros r (Hx & Hh & _). by split.
Defined.

(** C15: [RtlDelete] of any link of a tree returns the root of a tree of the other
    links in their order ([NULL] if there are none), and links outside the tree
    keep their contents. *)
Theorem delete_correct k a x b R h :
  holds (cells None (plug k (Node a x b)) ++ R) h →
  returns (RtlDelete x h) (λ r, ∃ t,
    inorder t = (before k ++ inorder a) ++ (inorder b ++ after k) ∧
    inorder (plug k (Node a x b)) = (before k ++ inorder a) ++ x :: (inorder b ++ after k) ∧
    r.1 = root t ∧ holds (cells None t ++ R) r.2).
Proof.
  intros H. eapply returns_mono; [by apply (RtlDelete_ok k x a b R)|].
  intros [r h'] (v & t & Ht & Hr & Hh). exists t. rewrite Ht, plug_inorder. simpl.
  rewrite <- !app_assoc. split; [done|]. split; [done|]. split; [done|].
  simpl in Hh |- *. apply (holds_perm _ ((x, v) :: cells None t ++ R)) in Hh; [|solve_Permutation].
  by apply (holds_app_r [(x, v)]) in Hh.
Qed.

Lemma delete_correct_witness :
  holds (cells None t5 ++ []) heap5 ∧
  returns (RtlDelete 2%nat heap5) (λ r, ∃ t,
    inorder t = [1; 3; 4; 5]%nat ∧ r.1 = root t ∧ holds (cells None t ++ []) r.2).
Proof.
  split; [exact heap5_ok|].
  eapply returns_mono;
    [apply (delete_correct [LeftOf 4%nat (Node Leaf 5%nat Leaf)]
              (Node Leaf 1%nat Leaf) 2%nat (Node Leaf 3%nat Leaf) [] heap5); exact heap5_ok|].
  intros r (t & Ht & _ & Hr & Hh). by exists t.
Defined.

(** C16: a generic table implements a list of elements with different keys. Any
    sequence of calls on an initialized table, with a comparison that orders the
    elements and an allocator that does not hand out nodes in use, returns; its
    replies are those of the list: insertion adds a new key at the end or returns
    the element that has it, and leaves the table alone if there is no memory,
    deletion removes the key, lookup finds it, access by position counts in order
    of insertion, enumeration gives every element once in the order of the keys. *)
Theorem table_refines_list {D} (cmp : D → D → RTL_GENERIC_COMPARE_RESULTS) alloc cs :
  CompareOrder cmp → Allocator alloc → Forall call_ok cs → zlen cs < 2 ^ 32 →
  returns (do_calls cmp alloc cs RtlInitializeGenericTable) (λ r, ∃ ls,
    spec_steps cmp alloc [] cs r.1 ls ∧ rep cmp r.2 ls).
Proof.
  intros ? ? Hok Hb. apply do_calls_ok; [done|done|apply initialized_ok|done|done].
Qed.

Lemma table_refines_list_witness :
  Forall call_ok calls ∧
  fst <$> do_calls compare allocate calls RtlInitializeGenericTable =
    Some [Inserted (Some 5) true; Inserted (Some 2) true; Inserted (Some 9) true;
          Inserted (Some 2) false; Inserted None false; Element (Some 2); Deleted true;
          Inserted (Some 1) true; Element (Some 1); Element None; Elements [1; 2; 9];
          Number 3; Empty false] ∧
  returns (do_calls compare allocate calls RtlInitializeGenericTable) (λ r, ∃ ls,
    spec_steps compare allocate [] calls r.1 ls ∧ rep compare r.2 ls).
Proof.
  split; [exact calls_ok|]. split; [by vm_compute|].
  apply (table_refines_list compare allocate calls); [apply _|apply _|exact calls_ok|by vm_compute].
Defined.

(** C17: the enumeration loops of the comments, with and without splaying, end; both
    visit the nodes of a table once each, in the same order, and their elements are
    those of the table sorted by the comparison. Splaying does not change the
    elements. *)
Theorem enumeration_sorted {D} (cmp : D → D → RTL_GENERIC_COMPARE_RESULTS)
    (T : RTL_GENERIC_TABLE D) ls :
  CompareOrder cmp → rep cmp T ls →
  ∃ l T', enumerate_all T = Some (l, T') ∧ enumerate_without_splaying T = Some l ∧
    in_order cmp T ls l ∧ Data T' = Data T ∧ rep cmp T' ls.
Proof.
  intros ? Hr. destruct (rp_tree _ _ _ Hr) as [t Ht].
  destruct (enumerate_all_ok cmp T t Ht) as ([l T'] & He & Hl & t' & Hrs). simpl in Hl, Hrs. subst l.
  destruct (enumerate_without_splaying_ok cmp T t Ht) as (l & He' & ->).
  exists (inorder t), T'. split_and!; [done|done|by apply tree_in_order| |by eapply rep_reshaped].
  by eapply reshaped_data.
Qed.

Lemma enumeration_sorted_witness :
  rep compare table3 [5; 2; 9] ∧
  ∃ l T', enumerate_all table3 = Some (l, T') ∧ enumerate_without_splaying table3 = Some l ∧
    Forall2 (λ x d, Data table3 !! x = Some d) l [2; 5; 9].
Proof.
  split; [exact table3_ok|].
  destruct (enumeration_sorted compare table3 [5; 2; 9] _ table3_ok)
    as (l & T' & He & Hk & _ & _ & _).
  exists l, T'. split; [done|]. split; [done|].
  assert (Hl : enumerate_without_splaying table3 = Some [1; 0; 2]%nat) by (by vm_compute).
  rewrite Hl in Hk. injection Hk as <-. repeat constructor; by vm_compute.
Defined.
