(* ===== verification/LargeInt.v ===== *)
(** * 64-bit arithmetic on a 32-bit processor ([RTL/I386/LARGEINT.ASM])

    The large-integer routines the time package calls, as their instructions
    compute them: 32-bit registers and memory words, with the carry of each
    addition. A [LARGE_INTEGER] is the signed number of its [QuadPart]. The lemmas
    give the value of each routine. *)

From stdpp Require Import base list numbers option.
From S2P Require Import Prelude.

(** The two words of a large integer, as bits. *)
Definition LowDword (x : Z) : Z := u32 x.
Definition HighDword (x : Z) : Z := u32 (x / 2 ^ 32).

(** The large integer in [edx:eax]. *)
Definition quad (edx eax : Z) : Z := s64 (edx * 2 ^ 32 + eax).

(** [LowPart] (a [ULONG]) and [HighPart] (a [LONG]). *)
Definition LowPart (x : Z) : Z := LowDword x.
Definition HighPart (x : Z) : Z := s32 (HighDword x).

(** The sum of an addition and the carry it leaves. *)
Definition adc (a b cf : Z) : Z * Z := (u32 (a + b + cf), (a + b + cf) / 2 ^ 32).
Definition sbb (a b cf : Z) : Z * Z := (u32 (a - b - cf), if a - b - cf <? 0 then 1 else 0).

Definition RtlLargeIntegerAdd (Addend1 Addend2 : Z) : Z :=
  let '(eax, cf) := adc (LowDword Addend1) (LowDword Addend2) 0 in
  let '(edx, _) := adc (HighDword Addend1) (HighDword Addend2) cf in
  quad edx eax.

Definition RtlLargeIntegerSubtract (Minuend Subtrahend : Z) : Z :=
  let '(eax, cf) := sbb (LowDword Minuend) (LowDword Subtrahend) 0 in
  let '(edx, _) := sbb (HighDword Minuend) (HighDword Subtrahend) cf in
  quad edx eax.

(** [RtlLargeIntegerLessThan] *)
Definition RtlLargeIntegerLessThan (X Y : Z) : bool :=
  (HighPart X =? HighPart Y) && (LowPart X <? LowPart Y) || (HighPart X <? HighPart Y).

(** [neg hi; neg lo; sbb hi,0] *)
Definition neg64 (hi lo : Z) : Z * Z :=
  (fst (sbb (u32 (- hi)) 0 (if lo =? 0 then 0 else 1)), u32 (- lo)).

(** [test x,80000000h] *)
Definition negative (x : Z) : bool := Z.testbit x 31.

(** [mul]: the high and the low word of a product. *)
Definition mul (a b : Z) : Z * Z := (a * b / 2 ^ 32, u32 (a * b)).

(** [shrd eax,edx,n] and [shr edx,n], for [n] below 32. *)
Definition shrd (eax edx n : Z) : Z := u32 (Z.lor (Z.shiftr eax n) (Z.shiftl edx (32 - n))).
Definition shr (edx n : Z) : Z := Z.shiftr edx n.

(** The shift by more than 31 bits, 31 at a time. *)
Fixpoint shift_right (fuel : nat) (cl edx eax : Z) : Z * Z :=
  match fuel with
  | O => (edx, eax)
  | S fuel =>
      if cl <=? 31 then (shr edx cl, shrd eax edx cl)
      else shift_right fuel (cl - 31) (shr edx 31) (shrd eax edx 31)
  end.

(** The high 64 bits of the product of two unsigned 64-bit numbers. *)
Definition high_product (dhi dlo rhi rlo : Z) : Z * Z :=
  let '(Tmp1, _) := mul rlo dlo in
  let '(Tmp3, Tmp2) := mul rlo dhi in
  let '(edx, eax) := mul rhi dlo in
  let '(eax, cf) := adc eax Tmp1 0 in
  let ecx := u32 (0 + cf) in
  let '(eax, cf) := adc eax Tmp2 0 in
  let ecx := u32 (ecx + cf) in
  let Tmp1 := edx in
  let '(edx, eax) := mul rhi dhi in
  let '(eax, cf) := adc eax Tmp1 0 in
  let edx := u32 (edx + cf) in
  let '(eax, cf) := adc eax Tmp3 0 in
  let edx := u32 (edx + cf) in
  let '(eax, cf) := adc eax ecx 0 in
  let edx := u32 (edx + cf) in
  (edx, eax).

(** The shift count is an unsigned byte. *)
Definition RtlExtendedMagicDivide (Dividend MagicDivisor ShiftCount : Z) : Z :=
  let esi := HighDword Dividend in
  let '(dhi, dlo) := if negative esi then neg64 esi (LowDword Dividend)
                     else (esi, LowDword Dividend) in
  let '(edx, eax) := high_product dhi dlo (HighDword MagicDivisor) (LowDword MagicDivisor) in
  let '(edx, eax) := shift_right (S (Z.to_nat ShiftCount)) ShiftCount edx eax in
  let '(edx, eax) := if negative esi then neg64 edx eax else (edx, eax) in
  quad edx eax.

Definition RtlExtendedIntegerMultiply (Multiplicand Multiplier : Z) : Z :=
  let esi := Z.lxor (u32 Multiplier) (HighDword Multiplicand) in
  let '(mhi, mlo) := if negative (HighDword Multiplicand)
                     then neg64 (HighDword Multiplicand) (LowDword Multiplicand)
                     else (HighDword Multiplicand, LowDword Multiplicand) in
  let MPER := if negative (u32 Multiplier) then u32 (- u32 Multiplier) else u32 Multiplier in
  let '(carried, ecx) := mul MPER mlo in
  let '(_, eax) := mul MPER mhi in
  let eax := u32 (eax + carried) in
  let '(eax, ecx) := if negative esi then neg64 eax ecx else (eax, ecx) in
  quad eax ecx.

(** [Int32x32To64] *)
Definition Int32x32To64 (a b : Z) : Z := s32 a * s32 b.

Arguments adc : simpl never.
Arguments mul : simpl never.

(** ** Values *)

Definition is_s64 (x : Z) : Prop := - 2 ^ 63 ≤ x < 2 ^ 63.

Lemma words (x : Z) : ∃ q, x = HighDword x * 2 ^ 32 + LowDword x + q * 2 ^ 64.
Proof.
  exists (x / 2 ^ 64). unfold HighDword, LowDword, u32.
  pose proof (Z.div_mod x (2 ^ 32)). pose proof (Z.div_mod (x / 2 ^ 32) (2 ^ 32)).
  rewrite (Z.div_div x) in * by lia. change (2 ^ 64) with (2 ^ 32 * 2 ^ 32). lia.
Qed.

Lemma s64_congr (x y q : Z) : x = y + q * 2 ^ 64 → s64 x = s64 y.
Proof.
  intros ->. unfold s64. f_equal.
  replace (y + q * 2 ^ 64 + 2 ^ 63) with (y + 2 ^ 63 + q * 2 ^ 64) by lia.
  apply Z.mod_add. lia.
Qed.

Lemma u32_eq (x : Z) : ∃ q, x = u32 x + q * 2 ^ 32.
Proof. exists (x / 2 ^ 32). unfold u32. pose proof (Z.div_mod x (2 ^ 32)). lia. Qed.

Lemma RtlLargeIntegerAdd_value a b : RtlLargeIntegerAdd a b = s64 (a + b).
Proof.
  unfold RtlLargeIntegerAdd, adc, quad. destruct (words a) as [qa Ha], (words b) as [qb Hb].
  set (la := LowDword a) in *. set (lb := LowDword b) in *.
  set (ha := HighDword a) in *. set (hb := HighDword b) in *.
  set (c := (la + lb + 0) / 2 ^ 32).
  destruct (u32_eq (ha + hb + c)) as [q Hq].
  symmetry. apply (s64_congr _ _ (qa + qb + q)). unfold u32 at 2.
  pose proof (Z.div_mod (la + lb + 0) (2 ^ 32)). lia.
Qed.

Lemma RtlLargeIntegerSubtract_value a b : RtlLargeIntegerSubtract a b = s64 (a - b).
Proof.
  unfold RtlLargeIntegerSubtract, sbb, quad. destruct (words a) as [qa Ha], (words b) as [qb Hb].
  pose proof (u32_range a). pose proof (u32_range b). fold (LowDword a) (LowDword b) in *.
  set (la := LowDword a) in *. set (lb := LowDword b) in *.
  set (ha := HighDword a) in *. set (hb := HighDword b) in *.
  set (c := if la - lb - 0 <? 0 then 1 else 0).
  assert (Hl : u32 (la - lb - 0) = la - lb + c * 2 ^ 32).
  { unfold is_u32 in *. subst c. unfold u32. destruct (Z.ltb_spec (la - lb - 0) 0).
    - symmetry. apply (Z.mod_unique _ _ (-1)); lia.
    - symmetry. apply (Z.mod_unique _ _ 0); lia. }
  destruct (u32_eq (ha - hb - c)) as [q Hq].
  symmetry. apply (s64_congr _ _ (qa - qb + q)). lia.
Qed.

(** Two words as an unsigned number. *)
Definition val (w : Z * Z) : Z := w.1 * 2 ^ 32 + w.2.
Definition is_words (w : Z * Z) : Prop := is_u32 w.1 ∧ is_u32 w.2.

Lemma words_unsigned x : val (HighDword x, LowDword x) = u64 x.
Proof.
  unfold val, u64. simpl. destruct (words x) as [q Hq].
  pose proof (u32_range x). pose proof (u32_range (x / 2 ^ 32)).
  fold (LowDword x) (HighDword x) in *. unfold is_u32 in *.
  apply (Z.mod_unique _ _ q); lia.
Qed.

Lemma is_words_of x : is_words (HighDword x, LowDword x).
Proof. split; apply u32_range. Qed.

Lemma val_range w : is_words w → 0 ≤ val w < 2 ^ 64.
Proof. unfold is_words, is_u32, val. lia. Qed.

Lemma neg64_words hi lo : is_words (neg64 hi lo).
Proof. split; apply u32_range. Qed.

Lemma neg64_val hi lo : is_words (hi, lo) → val (neg64 hi lo) = u64 (- val (hi, lo)).
Proof.
  intros [Hh Hl]. unfold is_u32, val, neg64, sbb in *. simpl in *.
  destruct (u32_eq (- hi)) as [q1 H1].
  set (c := if lo =? 0 then 0 else 1).
  destruct (u32_eq (u32 (- hi) - 0 - c)) as [q2 H2].
  assert (H3 : u32 (- lo) = - lo + c * 2 ^ 32).
  { subst c. unfold u32. symmetry. destruct (Z.eqb_spec lo 0) as [->|]; [done|].
    apply (Z.mod_unique _ _ (-1)); lia. }
  pose proof (u32_range (u32 (- hi) - 0 - c)). pose proof (u32_range (- lo)). unfold is_u32 in *.
  unfold u64. apply (Z.mod_unique _ _ (q1 + q2)); lia.
Qed.

(** The sign bit of the high word is the sign. *)
Lemma negative_sign x : is_s64 x → negative (HighDword x) = (x <? 0).
Proof.
  intros Hx. unfold negative, HighDword, is_s64 in *.
  rewrite testbit_u32. change (31 <? 32) with true. rewrite andb_true_l.
  rewrite Z.div_pow2_bits by lia. change (31 + 32) with 63.
  destruct (Z.ltb_spec x 0).
  - rewrite <- (Z.opp_involutive x), Z.bits_opp by lia.
    rewrite (testbit_high _ 63); [done|lia|lia].
  - by rewrite (testbit_high _ 63) by lia.
Qed.

Lemma adc_eq a b cf : 0 ≤ a + b + cf →
  a + b + cf = (adc a b cf).1 + (adc a b cf).2 * 2 ^ 32.
Proof. intros. unfold adc, u32. simpl. pose proof (Z.div_mod (a + b + cf) (2 ^ 32)). lia. Qed.

Lemma adc_carry a b : is_u32 a → is_u32 b →
  is_u32 (adc a b 0).1 ∧ 0 ≤ (adc a b 0).2 ≤ 1.
Proof.
  intros Ha Hb. split; [apply u32_range|]. unfold adc, is_u32 in *. simpl.
  pose proof (Z.div_mod (a + b + 0) (2 ^ 32)). pose proof (Z.mod_pos_bound (a + b + 0) (2 ^ 32)). lia.
Qed.

Lemma mul_words a b : is_u32 a → is_u32 b → is_words (mul a b) ∧ a * b = val (mul a b).
Proof.
  intros Ha Hb. unfold is_words, mul, val, is_u32 in *. simpl.
  pose proof (Z.div_mod (a * b) (2 ^ 32)). pose proof (Z.mod_pos_bound (a * b) (2 ^ 32)).
  unfold u32. split; [split; [|lia]|lia]. split; [apply Z.div_pos; nia|].
  apply Z.div_lt_upper_bound; [lia|]. nia.
Qed.

(** One addition of [high_product], with the carry it leaves. *)
Ltac carry a b s c :=
  let He := fresh in let Hc := fresh in
  pose proof (adc_eq a b 0 ltac:(lia)) as He;
  pose proof (adc_carry a b ltac:(unfold is_u32; lia) ltac:(unfold is_u32; lia)) as Hc;
  destruct (adc a b 0) as [s c]; unfold is_u32 in Hc; simpl in He, Hc.

Lemma high_product_val dhi dlo rhi rlo :
  is_words (dhi, dlo) → is_words (rhi, rlo) →
  is_words (high_product dhi dlo rhi rlo) ∧
  val (high_product dhi dlo rhi rlo) = val (dhi, dlo) * val (rhi, rlo) / 2 ^ 64.
Proof.
  intros [Hdh Hdl] [Hrh Hrl]. cbn [fst snd] in *. unfold high_product.
  destruct (mul_words rlo dlo) as [[Wa1 Wa0] Va]; [done..|]. destruct (mul rlo dlo) as [T1 T0].
  destruct (mul_words rlo dhi) as [[Wb1 Wb0] Vb]; [done..|]. destruct (mul rlo dhi) as [T3 T2].
  destruct (mul_words rhi dlo) as [[Wc1 Wc0] Vc]; [done..|]. destruct (mul rhi dlo) as [edx eax].
  destruct (mul_words rhi dhi) as [[Wd1 Wd0] Vd]; [done..|]. destruct (mul rhi dhi) as [edx2 eax2].
  unfold val in *. cbn [fst snd] in *. set (P := (dhi * 2 ^ 32 + dlo) * (rhi * 2 ^ 32 + rlo)).
  assert (HP : P = T0 + 2 ^ 32 * (T1 + T2 + eax) + 2 ^ 64 * (T3 + edx + eax2) + 2 ^ 96 * edx2).
  { transitivity (rlo * dlo + 2 ^ 32 * (rlo * dhi + rhi * dlo) + 2 ^ 64 * (rhi * dhi)); [subst P; ring|].
    rewrite Va, Vb, Vc, Vd. ring. }
  assert (Hlt : 0 ≤ P < 2 ^ 128).
  { subst P. unfold is_u32 in *. change (2 ^ 128) with (2 ^ 64 * 2 ^ 64). nia. }
  clearbody P. unfold is_u32 in Wa1, Wa0, Wb1, Wb0, Wc1, Wc0, Wd1, Wd0.
  carry eax T1 e1 c1. cbv zeta; rewrite (u32_small (0 + c1)) by lia. carry e1 T2 e2 c2.
  rewrite (u32_small (0 + c1 + c2)) by lia. carry eax2 edx f1 k1. carry f1 T3 f2 k2.
  carry f2 (0 + c1 + c2) f3 k3. cbn [fst snd].
  assert (edx2 + k1 + k2 + k3 < 2 ^ 32) by lia.
  rewrite (u32_small (edx2 + k1)), (u32_small (edx2 + k1 + k2)), (u32_small (edx2 + k1 + k2 + k3)) by lia.
  split; [split; unfold is_u32; simpl; lia|].
  apply (Z.div_unique _ _ _ (T0 + 2 ^ 32 * e2)); lia.
Qed.

(** ** Shifts *)

Lemma join_words hi lo : is_u32 lo → Z.lor (Z.shiftl hi 32) lo = hi * 2 ^ 32 + lo.
Proof.
  intros Hl. unfold is_u32 in *. rewrite <- Z.shiftl_mul_pow2 by lia. rewrite <- Z.add_lor_land.
  replace (Z.land (Z.shiftl hi 32) lo) with 0; [lia|].
  apply Z.bits_inj'. intros i Hi. rewrite Z.land_spec, Z.testbit_0_l, testbit_shiftl by lia.
  destruct (Z.lt_ge_cases i 32).
  - by rewrite Z.testbit_neg_r by lia.
  - by rewrite (testbit_high lo 32), andb_false_r by lia.
Qed.

Lemma shift_step edx eax n :
  is_words (edx, eax) → 0 ≤ n < 32 →
  is_words (shr edx n, shrd eax edx n) ∧ val (shr edx n, shrd eax edx n) = val (edx, eax) / 2 ^ n.
Proof.
  intros [Hh Hl] Hn. unfold is_words, val, shr, shrd in *. cbn [fst snd] in *.
  rewrite <- (join_words edx eax) by done. rewrite <- Z.shiftr_div_pow2 by lia.
  set (Y := Z.shiftr (Z.lor (Z.shiftl edx 32) eax) n).
  assert (Hlo : u32 (Z.lor (Z.shiftr eax n) (Z.shiftl edx (32 - n))) = u32 Y).
  { unfold Y. bitwise i. rewrite orb_comm. f_equal. f_equal. lia. }
  assert (Hhi : Z.shiftr edx n = Y / 2 ^ 32).
  { unfold Y. rewrite <- Z.shiftr_div_pow2 by lia. unfold is_u32 in *. bitwise i.
    rewrite (testbit_high eax 32), orb_false_r by lia. f_equal. lia. }
  rewrite Hlo, Hhi. split; [split; [|apply u32_range]|].
  - rewrite <- Hhi, Z.shiftr_div_pow2 by lia. unfold is_u32 in *.
    split; [apply Z.div_pos; lia|]. apply Z.div_lt_upper_bound; [lia|].
    assert (1 ≤ 2 ^ n) by (apply (Z.pow_le_mono_r 2 0); lia). nia.
  - unfold u32. pose proof (Z.div_mod Y (2 ^ 32)). lia.
Qed.

Lemma shift_right_val fuel : ∀ cl edx eax,
  is_words (edx, eax) → 0 ≤ cl < Z.of_nat fuel →
  is_words (shift_right fuel cl edx eax) ∧
  val (shift_right fuel cl edx eax) = val (edx, eax) / 2 ^ cl.
Proof.
  induction fuel as [|fuel IH]; intros cl edx eax Hw Hcl; [lia|]. simpl.
  destruct (Z.leb_spec cl 31); [by apply shift_step; [|lia]|].
  destruct (shift_step edx eax 31 Hw) as [Hw' Hv]; [lia|].
  destruct (IH (cl - 31) _ _ Hw') as [Hr Hv']; [lia|]. split; [done|].
  rewrite Hv', Hv, Z.div_div by lia. f_equal. rewrite <- Z.pow_add_r by lia. f_equal. lia.
Qed.

(** ** Division by a reciprocal *)

Lemma abs_words x : is_s64 x →
  let w := if negative (HighDword x) then neg64 (HighDword x) (LowDword x)
           else (HighDword x, LowDword x) in
  is_words w ∧ val w = Z.abs x.
Proof.
  intros Hx. rewrite negative_sign by done. unfold is_s64 in Hx. destruct (Z.ltb_spec x 0); cbv zeta.
  - split; [apply neg64_words|]. rewrite neg64_val, words_unsigned by apply is_words_of.
    unfold u64. symmetry. rewrite Z.abs_neq by lia.
    apply (Z.mod_unique _ _ (-1)); [lia|].
    rewrite <- (Z.mod_unique x (2 ^ 64) (-1) (x + 2 ^ 64)); lia.
  - split; [apply is_words_of|]. rewrite words_unsigned, u64_small, Z.abs_eq by lia. done.
Qed.

(** A result of either sign, from its absolute value. *)
Lemma signed_quad (b : bool) w :
  is_words w → val w < 2 ^ 63 →
  (let '(edx, eax) := if b then neg64 w.1 w.2 else w in quad edx eax) = if b then - val w else val w.
Proof.
  intros Hw Hlt. pose proof (val_range w Hw). destruct w as [hi lo]. destruct b; cbn [fst snd].
  - destruct (neg64 hi lo) as [h l] eqn:Hn. pose proof (neg64_val hi lo Hw) as Hv. rewrite Hn in Hv.
    unfold quad. change (h * 2 ^ 32 + l) with (val (h, l)). rewrite Hv. unfold u64.
    rewrite <- (s64_small (- val (hi, lo))) at 2 by lia. symmetry.
    apply (s64_congr _ _ (- val (hi, lo) / 2 ^ 64)).
    pose proof (Z.div_mod (- val (hi, lo)) (2 ^ 64)). lia.
  - unfold quad. fold (val (hi, lo)). apply s64_small. unfold val in *. simpl in *. lia.
Qed.

Lemma RtlExtendedMagicDivide_value D M s :
  is_s64 D → 0 ≤ M < 2 ^ 64 → 0 < s →
  RtlExtendedMagicDivide D M s = Z.sgn D * (Z.abs D * M / 2 ^ (64 + s)).
Proof.
  intros HD HM Hs. unfold RtlExtendedMagicDivide.
  destruct (abs_words D HD) as [Hw Hv].
  rewrite negative_sign in * by done. set (w := if D <? 0 then _ else _) in *.
  destruct w as [dhi dlo]. cbv zeta.
  destruct (high_product_val dhi dlo (HighDword M) (LowDword M) Hw (is_words_of M)) as [Hpw Hpv].
  destruct (high_product _ _ _ _) as [edx eax].
  destruct (shift_right_val (S (Z.to_nat s)) s edx eax Hpw) as [Hsw Hsv]; [lia|].
  destruct (shift_right _ _ _ _) as [edx' eax'].
  rewrite Hv, words_unsigned, u64_small in Hpv by lia. rewrite Hpv, Z.div_div in Hsv by lia.
  rewrite <- Z.pow_add_r in Hsv by lia.
  pose proof (signed_quad (D <? 0) (edx', eax') Hsw) as Hq. cbn [fst snd] in Hq. rewrite Hq, Hsv.
  - destruct (Z.ltb_spec D 0); [rewrite Z.sgn_neg by lia; lia|].
    destruct (Z.eq_dec D 0) as [->|]; [done|rewrite Z.sgn_pos by lia; lia].
  - rewrite Hsv. apply Z.div_lt_upper_bound; [lia|].
    assert (2 ^ 65 ≤ 2 ^ (64 + s)) by (apply Z.pow_le_mono_r; lia).
    unfold is_s64 in HD. change (2 ^ 65) with (2 * 2 ^ 64) in *. nia.
Qed.

(** A rounded-up reciprocal divides exactly. *)
Lemma magic_exact n M d s :
  0 ≤ n ≤ 2 ^ 63 → 0 < d → 0 ≤ s → 0 ≤ M * d - 2 ^ (64 + s) →
  (M * d - 2 ^ (64 + s)) * 2 ^ 63 < 2 ^ (64 + s) →
  n * M / 2 ^ (64 + s) = n / d.
Proof.
  intros Hn Hd Hs He Hlt. set (B := 2 ^ (64 + s)) in *.
  assert (0 < B) by (apply Z.pow_pos_nonneg; lia).
  pose proof (Z.div_mod n d). pose proof (Z.mod_pos_bound n d).
  set (q := n / d) in *. set (r := n mod d) in *. set (e := M * d - B) in *.
  symmetry. apply (Z.div_unique _ _ _ (n * M - B * q)); [|lia]. left.
  assert (Hd' : d * (n * M - B * q) = n * e + r * B) by (subst e; nia).
  assert (0 ≤ n * e) by nia. assert (n * e < B) by nia.
  split; nia.
Qed.

Lemma magic_divide_quot D M d s :
  is_s64 D → 0 ≤ M < 2 ^ 64 → 0 < d → 0 < s → 0 ≤ M * d - 2 ^ (64 + s) →
  (M * d - 2 ^ (64 + s)) * 2 ^ 63 < 2 ^ (64 + s) →
  RtlExtendedMagicDivide D M s = Z.quot D d.
Proof.
  intros HD HM Hd Hs He Hlt. rewrite RtlExtendedMagicDivide_value by done. unfold is_s64 in HD.
  rewrite (magic_exact _ M d) by lia. destruct (Z.lt_ge_cases D 0).
  - rewrite Z.sgn_neg, Z.abs_neq by lia. rewrite <- Z.quot_div_nonneg by lia.
    rewrite Z.quot_opp_l by lia. lia.
  - rewrite Z.abs_eq by lia. rewrite <- Z.quot_div_nonneg by lia.
    destruct (Z.eq_dec D 0) as [->|]; [done|]. rewrite Z.sgn_pos by lia. lia.
Qed.

(** ** Multiplication *)

Lemma s32_u32 b : s32 b = if negative (u32 b) then u32 b - 2 ^ 32 else u32 b.
Proof.
  unfold negative. rewrite testbit_u32. change (31 <? 32) with true. rewrite andb_true_l.
  pose proof (u32_range b) as Hr. unfold is_u32, u32, s32 in *.
  pose proof (Z.div_mod b (2 ^ 32)).
  assert (Hb : Z.testbit b 31 = (2 ^ 31 <=? b mod 2 ^ 32)).
  { rewrite <- (Z.mod_pow2_bits_low b 32 31) by lia. destruct (Z.leb_spec (2 ^ 31) (b mod 2 ^ 32)).
    - apply Z.testbit_true; [lia|].
      rewrite <- (Z.div_unique (b mod 2 ^ 32) (2 ^ 31) 1 (b mod 2 ^ 32 - 2 ^ 31)); [done|lia|lia].
    - apply (testbit_high _ 31); lia. }
  rewrite Hb. destruct (Z.leb_spec (2 ^ 31) (b mod 2 ^ 32)).
  - rewrite <- (Z.mod_unique (b + 2 ^ 31) (2 ^ 32) (b / 2 ^ 32 + 1) (b mod 2 ^ 32 - 2 ^ 31)); lia.
  - rewrite <- (Z.mod_unique (b + 2 ^ 31) (2 ^ 32) (b / 2 ^ 32) (b mod 2 ^ 32 + 2 ^ 31)); lia.
Qed.

Lemma quad_congr b w n q :
  is_words w → val w = n + q * 2 ^ 64 →
  (let '(edx, eax) := if b : bool then neg64 w.1 w.2 else w in quad edx eax) =
    s64 (if b then - n else n).
Proof.
  intros Hw Hv. destruct w as [hi lo]. destruct b; cbn [fst snd].
  - destruct (neg64 hi lo) as [h l] eqn:Hn. pose proof (neg64_val hi lo Hw) as Hv'. rewrite Hn in Hv'.
    unfold quad. change (h * 2 ^ 32 + l) with (val (h, l)). rewrite Hv', Hv. unfold u64.
    apply (s64_congr _ _ (- q - (- (n + q * 2 ^ 64)) / 2 ^ 64)).
    pose proof (Z.div_mod (- (n + q * 2 ^ 64)) (2 ^ 64)). lia.
  - unfold quad. fold (val (hi, lo)). by apply (s64_congr _ _ q).
Qed.

Lemma RtlExtendedIntegerMultiply_value a b :
  is_s64 a → RtlExtendedIntegerMultiply a b = s64 (a * s32 b).
Proof.
  intros Ha. unfold RtlExtendedIntegerMultiply. destruct (abs_words a Ha) as [Hw Hv].
  assert (Hsign : negative (Z.lxor (u32 b) (HighDword a)) = xorb (negative (u32 b)) (a <? 0)).
  { unfold negative at 1. rewrite Z.lxor_spec. fold (negative (u32 b)) (negative (HighDword a)).
    by rewrite negative_sign. }
  rewrite Hsign. rewrite negative_sign in * by done. set (w := if a <? 0 then _ else _) in *.
  destruct w as [mhi mlo]. cbv zeta in Hw, Hv |- *. destruct Hw as [Hmh Hml]. cbn [fst snd] in *.
  set (m := if negative (u32 b) then u32 (- u32 b) else u32 b).
  assert (Hm : is_u32 m ∧ m = Z.abs (s32 b)).
  { pose proof (u32_range b) as Hr. pose proof (s32_range b). rewrite s32_u32 in *. unfold m.
    unfold is_u32 in *. destruct (negative (u32 b)) eqn:E; [|lia].
    assert (u32 (- u32 b) = 2 ^ 32 - u32 b) as ->; [|lia].
    symmetry. apply (Z.mod_unique _ _ (-1)); lia. }
  destruct Hm as [Hmr Hmv]. cbv beta zeta.
  destruct (mul_words m mlo Hmr Hml) as [[Hc He] Hp]. destruct (mul m mlo) as [carried ecx].
  destruct (mul_words m mhi Hmr Hmh) as [[_ Hf] Hp']. destruct (mul m mhi) as [top eax].
  cbn [fst snd] in *. destruct (u32_eq (eax + carried)) as [q Hq].
  pose proof (quad_congr (xorb (negative (u32 b)) (a <? 0)) (u32 (eax + carried), ecx)
    (m * Z.abs a) (- top - q)) as Hres. cbn [fst snd] in Hres. rewrite Hres.
  - f_equal. rewrite Hmv, s32_u32. pose proof (u32_range b) as Hr. pose proof (s32_range b) as Hs.
    rewrite s32_u32 in Hs. unfold is_u32 in *.
    destruct (negative (u32 b)), (Z.ltb_spec a 0); simpl; nia.
  - split; [apply u32_range|done].
  - rewrite <- Hv. unfold val in *. cbn [fst snd] in *. nia.
Qed.

Lemma RtlLargeIntegerLessThan_value a b :
  is_s64 a → is_s64 b → RtlLargeIntegerLessThan a b = (a <? b).
Proof.
  intros Ha Hb. unfold RtlLargeIntegerLessThan.
  assert (Hx : ∀ x, is_s64 x → x = HighPart x * 2 ^ 32 + LowPart x ∧ is_u32 (LowPart x)).
  { intros x Hx. split; [|apply u32_range]. unfold HighPart, LowPart, HighDword, LowDword, is_s64 in *.
    pose proof (Z.div_mod x (2 ^ 32)).
    assert (s32 (u32 (x / 2 ^ 32)) = x / 2 ^ 32) as ->; [|unfold u32; lia].
    unfold s32, u32. rewrite Z.add_mod_idemp_l by lia.
    assert (- 2 ^ 31 ≤ x / 2 ^ 32 < 2 ^ 31).
    { split; [apply Z.div_le_lower_bound|apply Z.div_lt_upper_bound]; lia. }
    rewrite Z.mod_small; lia. }
  destruct (Hx a Ha) as [Ea La], (Hx b Hb) as [Eb Lb]. unfold is_u32 in *.
  apply bool_eq_true. rewrite orb_true_iff, andb_true_iff, !Z.ltb_lt, Z.eqb_eq. lia.
Qed.
