(* ===== verification/Time.v ===== *)
(** * Time conversion ([RTL/TIME.C])

    Conversions between a 64-bit NT time (100ns units since the start of 1601), time
    fields, and seconds since 1970 and 1980. [ULONG] and [CSHORT] variables are
    wrapped at each assignment; the fields of a [TIME_FIELDS] are [CSHORT]s. [None]
    is an access outside one of the tables. *)

From stdpp Require Import base list numbers option.
From S2P Require Import Prelude LargeInt.

(** ** Tables and constants *)

Definition days (l : list nat) : list Z :=
  concat (imap (λ m n, replicate n (Z.of_nat m)) l).

Definition LeapYearDayToMonth : list Z :=
  days [31; 29; 31; 30; 31; 30; 31; 31; 30; 31; 30; 31]%nat.
Definition NormalYearDayToMonth : list Z :=
  days [31; 28; 31; 30; 31; 30; 31; 31; 30; 31; 30; 31]%nat.

Definition LeapYearDaysPrecedingMonth : list Z :=
  [0; 31; 31+29; 31+29+31; 31+29+31+30; 31+29+31+30+31; 31+29+31+30+31+30;
   31+29+31+30+31+30+31; 31+29+31+30+31+30+31+31; 31+29+31+30+31+30+31+31+30;
   31+29+31+30+31+30+31+31+30+31; 31+29+31+30+31+30+31+31+30+31+30;
   31+29+31+30+31+30+31+31+30+31+30+31].
Definition NormalYearDaysPrecedingMonth : list Z :=
  [0; 31; 31+28; 31+28+31; 31+28+31+30; 31+28+31+30+31; 31+28+31+30+31+30;
   31+28+31+30+31+30+31; 31+28+31+30+31+30+31+31; 31+28+31+30+31+30+31+31+30;
   31+28+31+30+31+30+31+31+30+31; 31+28+31+30+31+30+31+31+30+31+30;
   31+28+31+30+31+30+31+31+30+31+30+31].

Definition WEEKDAY_OF_1601 : Z := 1.
Definition SecondsToStartOf1970 : Z := 0x2b6109100.
Definition SecondsToStartOf1980 : Z := 0x2c8df3700.
Definition Magic10000 : Z := 0xd1b71758e219652c.
Definition Magic10000000 : Z := 0xd6bf94d5e57a42bd.
Definition Magic86400000 : Z := 0xc6d750ebfa67b90e.

Definition Convert100nsToMilliseconds (t : Z) : Z := RtlExtendedMagicDivide t Magic10000 13.
Definition ConvertMillisecondsTo100ns (m : Z) : Z := RtlExtendedIntegerMultiply m 10000.
Definition Convert100nsToSeconds (t : Z) : Z := RtlExtendedMagicDivide t Magic10000000 23.
Definition ConvertSecondsTo100ns (s : Z) : Z := RtlExtendedIntegerMultiply s 10000000.
Definition ConvertMillisecondsToDays (m : Z) : Z := RtlExtendedMagicDivide m Magic86400000 26.
Definition ConvertDaysToMilliseconds (d : Z) : Z := Int32x32To64 d 86400000.

(** ** Years and days *)

Definition ElapsedDaysToYears (ElapsedDays : Z) : Z :=
  let NumberOf400s := ElapsedDays / 146097 in
  let ElapsedDays := ElapsedDays -u NumberOf400s *u 146097 in
  let NumberOf100s := (ElapsedDays *u 100 +u 75) / 3652425 in
  let ElapsedDays := ElapsedDays -u NumberOf100s *u 36524 in
  let NumberOf4s := ElapsedDays / 1461 in
  let ElapsedDays := ElapsedDays -u NumberOf4s *u 1461 in
  NumberOf400s *u 400 +u NumberOf100s *u 100 +u NumberOf4s *u 4 +u
    (ElapsedDays *u 100 +u 75) / 36525.

Definition NumberOfLeapYears (YEARS : Z) : Z := YEARS / 4 -u YEARS / 100 +u YEARS / 400.
Definition ElapsedYearsToDays (YEARS : Z) : Z := YEARS *u 365 +u NumberOfLeapYears YEARS.
Definition IsLeapYear (YEARS : Z) : bool :=
  (YEARS mod 400 =? 0) || negb (YEARS mod 100 =? 0) && (YEARS mod 4 =? 0).

(** The table of the days that precede a month, for a year. *)
Definition DaysPrecedingMonth (leap : bool) : list Z :=
  if leap then LeapYearDaysPrecedingMonth else NormalYearDaysPrecedingMonth.
Definition DayToMonth (leap : bool) : list Z :=
  if leap then LeapYearDayToMonth else NormalYearDayToMonth.

Definition MaxDaysInMonth (YEAR MONTH : Z) : option Z :=
  a ← array_get (DaysPrecedingMonth (IsLeapYear YEAR)) (MONTH +u 1);
  b ← array_get (DaysPrecedingMonth (IsLeapYear YEAR)) MONTH;
  Some (a - b).

(** ** Days and milliseconds *)

(** Returns [*ElapsedDays] and [*Milliseconds]. *)
Definition TimeToDaysAndFraction (Time : Z) : Z * Z :=
  let TotalMilliseconds := Convert100nsToMilliseconds Time in
  let Temp := ConvertMillisecondsToDays TotalMilliseconds in
  let ElapsedDays := LowPart Temp in
  let Temp := ConvertDaysToMilliseconds ElapsedDays in
  let Temp := s64 (TotalMilliseconds - Temp) in
  (ElapsedDays, LowPart Temp).

Definition DaysAndFractionToTime (ElapsedDays Milliseconds : Z) : Z :=
  let Temp := ConvertDaysToMilliseconds ElapsedDays in
  let Temp := RtlLargeIntegerAdd Temp Milliseconds in
  ConvertMillisecondsTo100ns Temp.

(** ** Time fields *)

Record TIME_FIELDS := mkTimeFields
  { Year : Z; Month : Z; Day : Z; Hour : Z; Minute : Z; Second : Z; Milliseconds : Z;
    Weekday : Z }.

#[export] Instance TIME_FIELDS_eta : Eta TIME_FIELDS :=
  λ r, mkTimeFields (Year r) (Month r) (Day r) (Hour r) (Minute r) (Second r) (Milliseconds r)
         (Weekday r).

Definition RtlTimeToTimeFields (Time : Z) : option TIME_FIELDS :=
  let '(Days, Milliseconds) := TimeToDaysAndFraction Time in
  let Weekday := s16 ((Days +u WEEKDAY_OF_1601) mod 7) in
  let Years := ElapsedDaysToYears Days in
  let Days := Days -u ElapsedYearsToDays Years in
  let leap := IsLeapYear (Years +u 1) in
  Month ← array_get (DayToMonth leap) Days;
  preceding ← array_get (DaysPrecedingMonth leap) Month;
  let Days := Days -u preceding in
  let Seconds := Milliseconds / 1000 in
  let Milliseconds := Milliseconds mod 1000 in
  let Minutes := Seconds / 60 in
  let Seconds := Seconds mod 60 in
  let Hours := Minutes / 60 in
  let Minutes := Minutes mod 60 in
  Some (mkTimeFields (s16 (Years +u 1601)) (s16 (Month +u 1)) (s16 (Days +u 1)) (s16 Hours)
          (s16 Minutes) (s16 Seconds) (s16 Milliseconds) Weekday).

(** Whether the fields are rejected; the tests in the order of the source. *)
Definition ill_formed (TimeFields : TIME_FIELDS) : option bool :=
  let y := u32 (Year TimeFields) in
  let m := Month TimeFields -u 1 in
  let d := Day TimeFields -u 1 in
  if (Month TimeFields <? 1) || (Day TimeFields <? 1) || (y <? 1601) || (11 <? m)
  then Some true
  else
    max ← MaxDaysInMonth y m;
    Some ((max <=? s16 d) || (23 <? u32 (Hour TimeFields)) || (59 <? u32 (Minute TimeFields)) ||
          (59 <? u32 (Second TimeFields)) || (999 <? u32 (Milliseconds TimeFields))).

(** The returned [BOOLEAN] is whether there is a time. *)
Definition RtlTimeFieldsToTime (TimeFields : TIME_FIELDS) : option (option Z) :=
  let y := u32 (Year TimeFields) in
  let m := Month TimeFields -u 1 in
  let d := Day TimeFields -u 1 in
  bad ← ill_formed TimeFields;
  if bad : bool then Some None
  else
    let ElapsedDays := ElapsedYearsToDays (y -u 1601) in
    preceding ← array_get (DaysPrecedingMonth (IsLeapYear (y -u 1600))) m;
    let ElapsedDays := ElapsedDays +u preceding in
    let ElapsedDays := ElapsedDays +u d in
    let ElapsedMilliseconds :=
      ((u32 (Hour TimeFields) *u 60 +u u32 (Minute TimeFields)) *u 60 +u
        u32 (Second TimeFields)) *u 1000 +u u32 (Milliseconds TimeFields) in
    Some (Some (DaysAndFractionToTime ElapsedDays ElapsedMilliseconds)).

(** Keeps the old [Weekday]. *)
Definition RtlTimeToElapsedTimeFields (Time : Z) (TimeFields : TIME_FIELDS) : TIME_FIELDS :=
  let '(Days, Milliseconds) := TimeToDaysAndFraction Time in
  let Seconds := Milliseconds / 1000 in
  let Milliseconds := Milliseconds mod 1000 in
  let Minutes := Seconds / 60 in
  let Seconds := Seconds mod 60 in
  let Hours := Minutes / 60 in
  let Minutes := Minutes mod 60 in
  mkTimeFields 0 0 (s16 Days) (s16 Hours) (s16 Minutes) (s16 Seconds) (s16 Milliseconds)
    (Weekday TimeFields).

(** ** Seconds since 1970 and 1980 *)

(** [None] is the result [FALSE]. *)
Definition RtlTimeToSecondsSince1980 (Time : Z) : option Z :=
  let Seconds := Convert100nsToSeconds Time in
  let Seconds := RtlLargeIntegerSubtract Seconds SecondsToStartOf1980 in
  if negb (HighPart Seconds =? 0) then None else Some (LowPart Seconds).

Definition RtlSecondsSince1980ToTime (ElapsedSeconds : Z) : Z :=
  ConvertSecondsTo100ns (RtlLargeIntegerAdd ElapsedSeconds SecondsToStartOf1980).

Definition RtlTimeToSecondsSince1970 (Time : Z) : option Z :=
  let Seconds := Convert100nsToSeconds Time in
  let Seconds := RtlLargeIntegerSubtract Seconds SecondsToStartOf1970 in
  if negb (HighPart Seconds =? 0) then None else Some (LowPart Seconds).

Definition RtlSecondsSince1970ToTime (ElapsedSeconds : Z) : Z :=
  ConvertSecondsTo100ns (RtlLargeIntegerAdd ElapsedSeconds SecondsToStartOf1970).

(** ** Time zones *)

(** [ZwQuerySystemInformation] gives a status and the time zone bias. *)
Definition RtlSystemTimeToLocalTime (Query : Z * Z) (SystemTime : Z) : Z * option Z :=
  let '(Status, TimeZoneBias) := Query in
  if Status <? 0 then (Status, None) else (0, Some (s64 (SystemTime - TimeZoneBias))).

Definition RtlLocalTimeToSystemTime (Query : Z * Z) (LocalTime : Z) : Z * option Z :=
  let '(Status, TimeZoneBias) := Query in
  if Status <? 0 then (Status, None) else (0, Some (RtlLargeIntegerAdd LocalTime TimeZoneBias)).

(** ** Cutover times *)

(** [while ( WorkingWeekdayNumber < TargetWeekdayNumber )]: the day of the last
    weekday reached. *)
Fixpoint weekday_loop (fuel : nat) (WorkingTimeField : TIME_FIELDS)
    (WorkingWeekdayNumber TargetWeekdayNumber BestWeekdayDate : Z) : option Z :=
  match fuel with
  | O => None
  | S fuel =>
      if WorkingWeekdayNumber <? TargetWeekdayNumber then
        let WorkingTimeField := WorkingTimeField <| Day := s16 (Day WorkingTimeField + 7) |> in
        r ← RtlTimeFieldsToTime WorkingTimeField;
        match r with
        | None => Some BestWeekdayDate
        | Some ScratchTime =>
            ScratchTimeField ← RtlTimeToTimeFields ScratchTime;
            weekday_loop fuel WorkingTimeField (s16 (WorkingWeekdayNumber + 1))
              TargetWeekdayNumber (Day ScratchTimeField)
        end
      else Some BestWeekdayDate
  end.

(** From [try_next_year] on: the result, or [goto try_next_year]. *)
Definition cutover_in_year (CutoverTime CurrentTimeFields : TIME_FIELDS) (CurrentSystemTime : Z)
    (MonthMatches : bool) (TargetYear : Z) : option (option (option Z)) :=
  let WorkingTimeField :=
    mkTimeFields TargetYear (Month CutoverTime) 1 (Hour CutoverTime) (Minute CutoverTime)
      (Second CutoverTime) (Milliseconds CutoverTime) 0 in
  let TargetWeekday := Weekday CutoverTime in
  r ← RtlTimeFieldsToTime WorkingTimeField;
  match r with
  | None => Some (Some None)
  | Some ScratchTime =>
      ScratchTimeField ← RtlTimeToTimeFields ScratchTime;
      let WorkingTimeField :=
        if TargetWeekday <? Weekday ScratchTimeField
        then WorkingTimeField <| Day := s16 (Day WorkingTimeField +
               (7 - (Weekday ScratchTimeField - TargetWeekday))) |>
        else if Weekday ScratchTimeField <? TargetWeekday
        then WorkingTimeField <| Day := s16 (Day WorkingTimeField +
               (TargetWeekday - Weekday ScratchTimeField)) |>
        else WorkingTimeField in
      BestWeekdayDate ← weekday_loop 5 WorkingTimeField 1 (Day CutoverTime) (Day WorkingTimeField);
      let WorkingTimeField := WorkingTimeField <| Day := BestWeekdayDate |> in
      r ← RtlTimeFieldsToTime WorkingTimeField;
      match r with
      | None => Some (Some None)
      | Some ScratchTime =>
          Some (if MonthMatches &&
                   ((Day WorkingTimeField <? Day CurrentTimeFields) ||
                    (Day WorkingTimeField =? Day CurrentTimeFields) &&
                      RtlLargeIntegerLessThan ScratchTime CurrentSystemTime)
                then None else Some (Some ScratchTime))
      end
  end.

(** Returns the result and [*SystemTime], which a rejected absolute time in the past
    has overwritten. *)
Definition RtlCutoverTimeToSystemTime (CutoverTime : TIME_FIELDS)
    (SystemTime CurrentSystemTime : Z) (ThisYear : bool) : option (bool * Z) :=
  CurrentTimeFields ← RtlTimeToTimeFields CurrentSystemTime;
  if negb (Year CutoverTime =? 0) then
    r ← RtlTimeFieldsToTime CutoverTime;
    match r with
    | None => Some (false, SystemTime)
    | Some Time => Some (negb (RtlLargeIntegerLessThan Time CurrentSystemTime), Time)
    end
  else if (5 <? Day CutoverTime) || (Day CutoverTime =? 0) then Some (false, SystemTime)
  else
    let '(TargetYear, MonthMatches) :=
      if ThisYear then (Year CurrentTimeFields, false)
      else if Month CutoverTime <? Month CurrentTimeFields
      then (s16 (Year CurrentTimeFields + 1), false)
      else if Month CurrentTimeFields <? Month CutoverTime then (Year CurrentTimeFields, false)
      else (Year CurrentTimeFields, true) in
    let finish (r : option Z) :=
      match r with None => (false, SystemTime) | Some Time => (true, Time) end in
    r ← cutover_in_year CutoverTime CurrentTimeFields CurrentSystemTime MonthMatches TargetYear;
    match r with
    | Some r => Some (finish r)
    | None =>
        r ← cutover_in_year CutoverTime CurrentTimeFields CurrentSystemTime false
              (s16 (TargetYear + 1));
        r ← r; Some (finish r)
    end.
