(* ===== verification/TimeOk.v ===== *)
(** * The Gregorian calendar and the time package

    A calendar that counts days year by year and month by month, and the proof
    that the divisions and tables of [RTL/TIME.C] compute it. *)

From stdpp Require Import base list numbers option.
From S2P Require Import Prelude LargeInt Time.

(** ** The calendar *)

Definition leap (y : Z) : bool :=
  if y mod 400 =? 0 then true else if y mod 100 =? 0 then false else y mod 4 =? 0.

Definition year_length (y : Z) : Z := if leap y then 366 else 365.

(** The days of the first [n] years from 1601 on. *)
Fixpoint days_of_years (n : nat) : Z :=
  match n with O => 0 | S n => days_of_years n + year_length (1601 + Z.of_nat n) end.

(** The months of a normal or of a leap year. *)
Definition month_lengths (is_leap : bool) : list Z :=
  [31; if is_leap then 29 else 28; 31; 30; 31; 30; 31; 31; 30; 31; 30; 31].

(** The days of the first [m] months. *)
Definition days_of_months (is_leap : bool) (m : Z) : Z :=
  foldr Z.add 0 (take (Z.to_nat m) (month_lengths is_leap)).

Definition month_length (y m : Z) : Z := nth (Z.to_nat (m - 1)) (month_lengths (leap y)) 0.

(** The number of days from the start of 1601 to a date. *)
Definition date_days (y m d : Z) : Z :=
  days_of_years (Z.to_nat (y - 1601)) + days_of_months (leap y) (m - 1) + (d - 1).

Definition valid_date (y m d : Z) : Prop := 1601 ≤ y ∧ 1 ≤ m ≤ 12 ∧ 1 ≤ d ≤ month_length y m.

(** ** Years *)

(** The sum of the year lengths in closed form. *)
Definition year_days (n : Z) : Z := 365 * n + n / 4 - n / 100 + n / 400.

Lemma leap_IsLeapYear n : IsLeapYear n = leap n.
Proof.
  unfold IsLeapYear, leap. destruct (_ =? 0), (_ =? 0), (_ =? 0); done.
Qed.

Lemma leap_1600 n : leap (1600 + n) = leap n.
Proof.
  unfold leap. rewrite !(Z.add_mod 1600 n) by lia.
  change (1600 mod 400) with 0. change (1600 mod 100) with 0. change (1600 mod 4) with 0.
  by rewrite !Z.add_0_l, !Z.mod_mod by lia.
Qed.

(** Dividing the next number. *)
Lemma div_succ n d : 0 < d → (n + 1) / d = n / d + (if (n + 1) mod d =? 0 then 1 else 0).
Proof.
  intros Hd. pose proof (Z.div_mod n d). pose proof (Z.mod_pos_bound n d).
  pose proof (Z.div_mod (n + 1) d). pose proof (Z.mod_pos_bound (n + 1) d).
  destruct (Z.eqb_spec ((n + 1) mod d) 0); nia.
Qed.

Lemma year_days_succ n : 0 ≤ n → year_days (n + 1) = year_days n + year_length (1601 + n).
Proof.
  intros Hn. unfold year_days, year_length. rewrite !div_succ by lia.
  replace (1601 + n) with (1600 + (n + 1)) by lia. rewrite leap_1600. unfold leap.
  pose proof (Z.div_mod (n + 1) 400). pose proof (Z.div_mod (n + 1) 100). pose proof (Z.div_mod (n + 1) 4).
  pose proof (Z.mod_pos_bound (n + 1) 4). pose proof (Z.mod_pos_bound (n + 1) 100).
  destruct (Z.eqb_spec ((n + 1) mod 400) 0), (Z.eqb_spec ((n + 1) mod 100) 0), (Z.eqb_spec ((n + 1) mod 4) 0); lia.
Qed.

Lemma year_days_sum n : days_of_years n = year_days (Z.of_nat n).
Proof.
  induction n as [|n IH]; [done|]. rewrite Nat2Z.inj_succ. unfold Z.succ.
  rewrite year_days_succ by lia. simpl. by rewrite IH.
Qed.

Lemma year_days_mono n m : 0 ≤ n ≤ m → year_days n ≤ year_days m.
Proof.
  intros Hn. unfold year_days.
  pose proof (Z.div_le_mono n m 4). pose proof (Z.div_le_mono n m 400).
  pose proof (Z.div_mod n 100). pose proof (Z.div_mod m 100).
  pose proof (Z.mod_pos_bound n 100). pose proof (Z.mod_pos_bound m 100). lia.
Qed.

(** A year is determined by a day of it. *)
Lemma year_unique n m d :
  0 ≤ n → 0 ≤ m → year_days n ≤ d < year_days (n + 1) → year_days m ≤ d < year_days (m + 1) → n = m.
Proof.
  intros Hn Hm H1 H2. pose proof (year_days_mono (n + 1) m). pose proof (year_days_mono (m + 1) n). lia.
Qed.

Lemma ElapsedYearsToDays_value n :
  0 ≤ n → year_days n < 2 ^ 32 → ElapsedYearsToDays n = year_days n.
Proof.
  intros Hn. unfold ElapsedYearsToDays, NumberOfLeapYears, year_days.
  pose proof (Z.div_pos n 400). pose proof (Z.div_pos n 100).
  pose proof (Z.div_le_compat_l n 4 100). intros Hlt. drop_wrap. lia.
Qed.

(** The divisions by blocks of 400, 100 and 4 years find the year. *)
Lemma blocks q a b c r :
  0 ≤ q → 0 ≤ a ≤ 3 → 0 ≤ b ≤ 24 → 0 ≤ c ≤ 3 →
  365 * c ≤ r < 365 * (c + 1) + (if c =? 3 then 1 else 0) →
  (c = 3 → b = 24 → a < 3 → r < 1460) →
  let n := 400 * q + 100 * a + 4 * b + c in
  year_days n ≤ 146097 * q + 36524 * a + 1461 * b + r < year_days (n + 1).
Proof.
  intros Hq Ha Hb Hc Hr Hcentury n. unfold year_days.
  rewrite !div_succ by lia.
  assert (n / 4 = 100 * q + 25 * a + b) as -> by (symmetry; apply (Z.div_unique _ _ _ c); lia).
  assert (n / 100 = 4 * q + a) as -> by (symmetry; apply (Z.div_unique _ _ _ (4 * b + c)); lia).
  assert (n / 400 = q) as -> by (symmetry; apply (Z.div_unique _ _ _ (100 * a + 4 * b + c)); lia).
  pose proof (Z.div_mod (n + 1) 400). pose proof (Z.div_mod (n + 1) 100). pose proof (Z.div_mod (n + 1) 4).
  pose proof (Z.mod_pos_bound (n + 1) 4). pose proof (Z.mod_pos_bound (n + 1) 100).
  pose proof (Z.mod_pos_bound (n + 1) 400).
  destruct (Z.eqb_spec c 3), (Z.eqb_spec ((n + 1) mod 400) 0), (Z.eqb_spec ((n + 1) mod 100) 0),
    (Z.eqb_spec ((n + 1) mod 4) 0); lia.
Qed.

Lemma ElapsedDaysToYears_ok d :
  0 ≤ d < 2 ^ 32 →
  let n := ElapsedDaysToYears d in 0 ≤ n ∧ year_days n ≤ d < year_days (n + 1).
Proof.
  intros Hd. unfold ElapsedDaysToYears.
  pose proof (Z.div_mod d 146097). pose proof (Z.mod_pos_bound d 146097).
  set (q := d / 146097) in *. assert (0 ≤ q) by (apply Z.div_pos; lia).
  rewrite (u32_small (q * 146097)), (u32_small (d - _)) by lia.
  set (r := d - q * 146097). assert (0 ≤ r < 146097) by lia.
  rewrite (u32_small (r * 100)), (u32_small (r * 100 + 75)) by lia.
  pose proof (Z.div_mod (r * 100 + 75) 3652425). pose proof (Z.mod_pos_bound (r * 100 + 75) 3652425).
  set (a := (r * 100 + 75) / 3652425) in *.
  rewrite (u32_small (a * 36524)), (u32_small (r - _)) by lia.
  set (r2 := r - a * 36524). assert (0 ≤ r2 ≤ 36524) by lia.
  pose proof (Z.div_mod r2 1461). pose proof (Z.mod_pos_bound r2 1461).
  set (b := r2 / 1461) in *.
  rewrite (u32_small (b * 1461)), (u32_small (r2 - _)) by lia.
  set (r3 := r2 - b * 1461). assert (0 ≤ r3 < 1461) by lia.
  rewrite (u32_small (r3 * 100)), (u32_small (r3 * 100 + 75)) by lia.
  pose proof (Z.div_mod (r3 * 100 + 75) 36525). pose proof (Z.mod_pos_bound (r3 * 100 + 75) 36525).
  set (c := (r3 * 100 + 75) / 36525) in *.
  drop_wrap. cbv zeta. split; [lia|].
  pose proof (blocks q a b c r3) as Hb. cbv zeta in Hb.
  replace (q * 400 + a * 100 + b * 4 + c) with (400 * q + 100 * a + 4 * b + c) by lia.
  replace d with (146097 * q + 36524 * a + 1461 * b + r3) by lia.
  apply Hb; try lia. destruct (Z.eqb_spec c 3); lia.
Qed.

(** ** Months *)

Definition month_check (is_leap : bool) (d : Z) : bool :=
  match array_get (DayToMonth is_leap) d with
  | Some m => (0 <=? m) && (m <? 12) && (days_of_months is_leap m <=? d) &&
              (d <? days_of_months is_leap (m + 1))
  | None => false
  end.

(** The month table gives the month of a day of the year. *)
Lemma month_of_day y d :
  0 ≤ d < year_length y →
  ∃ m, array_get (DayToMonth (leap y)) d = Some m ∧ 0 ≤ m < 12 ∧
    days_of_months (leap y) m ≤ d < days_of_months (leap y) (m + 1).
Proof.
  intros Hd. assert (Hc : month_check (leap y) d = true).
  { unfold year_length in Hd. destruct (leap y).
    - apply (forall_range (month_check true) 366); [by vm_compute|done].
    - apply (forall_range (month_check false) 365); [by vm_compute|done]. }
  unfold month_check in Hc. destruct (array_get _ d) as [m|]; [|done]. exists m.
  rewrite !andb_true_iff, !Z.leb_le, !Z.ltb_lt in Hc. split; [done|]. lia.
Qed.

(** Case analysis on a month. *)
Lemma month_cases (P : Z → Prop) m :
  P 0 → P 1 → P 2 → P 3 → P 4 → P 5 → P 6 → P 7 → P 8 → P 9 → P 10 → P 11 → 0 ≤ m < 12 → P m.
Proof.
  intros ???????????? Hm.
  assert (m = 0 ∨ m = 1 ∨ m = 2 ∨ m = 3 ∨ m = 4 ∨ m = 5 ∨ m = 6 ∨ m = 7 ∨ m = 8 ∨ m = 9 ∨
    m = 10 ∨ m = 11) as Hc by lia.
  repeat destruct Hc as [->|Hc]; try done. by subst.
Qed.

(** Proves a statement about a month by computing it for each. *)
Ltac each_month m := pattern m; apply month_cases; [done..|assumption].

Lemma preceding_ok l m :
  0 ≤ m < 12 →
  array_get (DaysPrecedingMonth l) m = Some (days_of_months l m) ∧
  array_get (DaysPrecedingMonth l) (m + 1) = Some (days_of_months l (m + 1)).
Proof. intros Hm. destruct l; each_month m. Qed.

Lemma days_of_months_succ y m :
  1 ≤ m ≤ 12 → days_of_months (leap y) m = days_of_months (leap y) (m - 1) + month_length y m.
Proof.
  intros Hm. replace m with ((m - 1) + 1) by lia. assert (Hm' : 0 ≤ m - 1 < 12) by lia.
  unfold month_length. rewrite !Z.add_simpl_r. destruct (leap y); each_month (m - 1).
Qed.

Lemma months_in_year y m d :
  1 ≤ m ≤ 12 → 1 ≤ d ≤ month_length y m →
  0 ≤ days_of_months (leap y) (m - 1) + (d - 1) < year_length y.
Proof.
  intros Hm Hd. pose proof (days_of_months_succ y m Hm).
  assert (0 ≤ days_of_months (leap y) (m - 1) ∧ days_of_months (leap y) (m - 1 + 1) ≤ year_length y) as [].
  { unfold year_length. assert (Hm' : 0 ≤ m - 1 < 12) by lia. destruct (leap y); each_month (m - 1). }
  replace (m - 1 + 1) with m in * by lia. lia.
Qed.

Lemma days_of_months_nonneg l m : 0 ≤ m < 12 → 0 ≤ days_of_months l m.
Proof. intros Hm. destruct l; each_month m. Qed.

Lemma month_length_bound y m : month_length y m ≤ 31.
Proof.
  unfold month_length. destruct (Z.to_nat (m - 1)) as [|i]; [simpl; lia|].
  do 12 (destruct i as [|i]; [simpl; destruct (leap y); lia|]). simpl. lia.
Qed.

(** The last day of a 64-bit time is in the year 30828. *)
Lemma years_bound d : 0 ≤ d ≤ 10675199 → ElapsedDaysToYears d ≤ 29227.
Proof.
  intros Hd. destruct (ElapsedDaysToYears_ok d) as [_ Hr]; [lia|]. cbv zeta in Hr.
  destruct (Z.le_gt_cases (ElapsedDaysToYears d) 29227) as [|Hgt]; [done|].
  pose proof (year_days_mono 29228 (ElapsedDaysToYears d) ltac:(lia)).
  assert (year_days 29228 = 10675308) by done. lia.
Qed.

Lemma days_of_months_mono l a b :
  0 ≤ a < 12 → 0 ≤ b < 12 → a < b → days_of_months l (a + 1) ≤ days_of_months l b.
Proof.
  intros Ha Hb. revert b Hb. pattern a.
  apply month_cases; [..|done]; intros b Hb; destruct l; each_month b.
Qed.

(** A month is determined by a day of it. *)
Lemma month_unique l m m' d :
  0 ≤ m < 12 → 0 ≤ m' < 12 → days_of_months l m ≤ d < days_of_months l (m + 1) →
  days_of_months l m' ≤ d < days_of_months l (m' + 1) → m = m'.
Proof.
  intros Hm Hm' H1 H2. destruct (Z.lt_trichotomy m m') as [Hlt|[|Hlt]]; [|done|].
  - pose proof (days_of_months_mono l m m'). lia.
  - pose proof (days_of_months_mono l m' m). lia.
Qed.

(** ** Times *)

Definition valid_fields (f : TIME_FIELDS) : Prop :=
  valid_date (Year f) (Month f) (Day f) ∧ 0 ≤ Hour f ≤ 23 ∧ 0 ≤ Minute f ≤ 59 ∧
  0 ≤ Second f ≤ 59 ∧ 0 ≤ Milliseconds f ≤ 999.

Definition fields_days (f : TIME_FIELDS) : Z := date_days (Year f) (Month f) (Day f).

(** The NT time that time fields denote. *)
Definition fields_time (f : TIME_FIELDS) : Z :=
  ((((fields_days f * 24 + Hour f) * 60 + Minute f) * 60 + Second f) * 1000 + Milliseconds f) * 10000.

(** The day of the week, Sunday being 0; the first day of 1601 was a Monday. *)
Definition fields_weekday (f : TIME_FIELDS) : Z := (fields_days f + 1) mod 7.

Ltac magic := intros; apply magic_divide_quot; [done|by vm_compute..].

Lemma Convert100nsToMilliseconds_value t : is_s64 t → Convert100nsToMilliseconds t = Z.quot t 10000.
Proof. magic. Qed.
Lemma Convert100nsToSeconds_value t : is_s64 t → Convert100nsToSeconds t = Z.quot t 10000000.
Proof. magic. Qed.
Lemma ConvertMillisecondsToDays_value t :
  is_s64 t → ConvertMillisecondsToDays t = Z.quot t 86400000.
Proof. magic. Qed.

Lemma HighPart_zero x : is_s64 x → (HighPart x =? 0) = (0 <=? x) && (x <? 2 ^ 32).
Proof.
  intros Hx. unfold HighPart, HighDword, is_s64 in *.
  assert (- 2 ^ 31 ≤ x / 2 ^ 32 < 2 ^ 31).
  { split; [apply Z.div_le_lower_bound|apply Z.div_lt_upper_bound]; lia. }
  assert (s32 (u32 (x / 2 ^ 32)) = x / 2 ^ 32) as ->.
  { unfold s32, u32. rewrite Z.add_mod_idemp_l by lia. rewrite Z.mod_small; lia. }
  pose proof (Z.div_mod x (2 ^ 32)). pose proof (Z.mod_pos_bound x (2 ^ 32)).
  apply bool_eq_true. rewrite andb_true_iff, Z.eqb_eq, Z.leb_le, Z.ltb_lt. lia.
Qed.

Lemma TimeToDaysAndFraction_value t :
  0 ≤ t < 2 ^ 63 →
  TimeToDaysAndFraction t = (t / 864000000000, t / 10000 mod 86400000).
Proof.
  intros Ht. unfold TimeToDaysAndFraction.
  pose proof (Z.div_mod t 10000). pose proof (Z.mod_pos_bound t 10000).
  rewrite Convert100nsToMilliseconds_value by (unfold is_s64; lia).
  rewrite Z.quot_div_nonneg by lia. set (ms := t / 10000) in *.
  rewrite ConvertMillisecondsToDays_value by (unfold is_s64; lia). rewrite Z.quot_div_nonneg by lia.
  pose proof (Z.div_mod ms 86400000). pose proof (Z.mod_pos_bound ms 86400000).
  assert (t / 864000000000 = ms / 86400000) as -> by (unfold ms; rewrite Z.div_div by lia; done).
  set (d := ms / 86400000) in *. unfold LowPart, LowDword, ConvertDaysToMilliseconds, Int32x32To64.
  rewrite (u32_small d) by lia. rewrite (s32_small d), (s32_small 86400000) by lia.
  rewrite s64_small by lia. rewrite u32_small by lia. f_equal. lia.
Qed.

Lemma TimeToDaysAndFraction_days t : is_u32 (TimeToDaysAndFraction t).1.
Proof. apply u32_range. Qed.

(** The year of a day and the days before it in that year. *)
Lemma year_of_days d :
  0 ≤ d < 2 ^ 32 →
  ∃ n, ElapsedDaysToYears d = n ∧ 0 ≤ n < 2 ^ 24 ∧ d -u ElapsedYearsToDays n = d - year_days n ∧
    0 ≤ d - year_days n < year_length (1601 + n).
Proof.
  intros Hd. destruct (ElapsedDaysToYears_ok d Hd) as [Hn Hr]. exists (ElapsedDaysToYears d).
  revert Hn Hr. generalize (ElapsedDaysToYears d). intros n Hn Hr.
  assert (365 * n ≤ year_days n).
  { unfold year_days. pose proof (Z.div_pos n 400). pose proof (Z.div_le_compat_l n 4 100). lia. }
  rewrite year_days_succ in Hr by done. split; [done|]. split; [lia|].
  rewrite ElapsedYearsToDays_value by lia. rewrite u32_small by lia. split; [done|lia].
Qed.

(** The day of a date, from the number of days. *)
Lemma date_of_days d :
  0 ≤ d < 2 ^ 32 →
  let n := ElapsedDaysToYears d in
  let rest := d -u ElapsedYearsToDays n in
  ∃ m, array_get (DayToMonth (IsLeapYear (n +u 1))) rest = Some m ∧
    array_get (DaysPrecedingMonth (IsLeapYear (n +u 1))) m = Some (days_of_months (leap (1601 + n)) m) ∧
    0 ≤ n < 2 ^ 24 ∧ 0 ≤ days_of_months (leap (1601 + n)) m ≤ rest ∧
    valid_date (1601 + n) (m + 1) (rest - days_of_months (leap (1601 + n)) m + 1) ∧
    date_days (1601 + n) (m + 1) (rest - days_of_months (leap (1601 + n)) m + 1) = d.
Proof.
  intros Hd. cbv zeta. destruct (year_of_days d Hd) as (n & -> & Hn & -> & Hr).
  set (rest := d - year_days n) in *. assert (Hrest : rest = d - year_days n) by done.
  clearbody rest.
  rewrite (u32_small (n + 1)) by lia. rewrite leap_IsLeapYear.
  replace (leap (n + 1)) with (leap (1601 + n)) by (rewrite <- (leap_1600 (n + 1)); f_equal; lia).
  destruct (month_of_day (1601 + n) rest) as (m & Hm & Hm12 & Hmd); [lia|].
  destruct (preceding_ok (leap (1601 + n)) m Hm12) as [Hp _].
  pose proof (days_of_months_succ (1601 + n) (m + 1)) as Hsucc. rewrite Z.add_simpl_r in Hsucc.
  pose proof (days_of_months_nonneg (leap (1601 + n)) m Hm12).
  exists m. split; [done|]. split; [done|]. split; [lia|]. split; [lia|]. split.
  - unfold valid_date. lia.
  - unfold date_days. rewrite year_days_sum, Z2Nat.id by lia. rewrite Z.add_simpl_r.
    replace (1601 + n - 1601) with n by lia. lia.
Qed.

(** The conversion is defined for every 64-bit time. *)
Lemma RtlTimeToTimeFields_defined t : is_Some (RtlTimeToTimeFields t).
Proof.
  unfold RtlTimeToTimeFields. pose proof (TimeToDaysAndFraction_days t) as Hd.
  destruct (TimeToDaysAndFraction t) as [d ms]. simpl in Hd. unfold is_u32 in Hd.
  destruct (date_of_days d Hd) as (m & Hm & Hp & _). cbv zeta.
  rewrite Hm. cbn [mbind option_bind]. rewrite Hp. cbn [mbind option_bind]. eauto.
Qed.

Lemma RtlTimeToTimeFields_ok t :
  0 ≤ t < 2 ^ 63 →
  ∃ f, RtlTimeToTimeFields t = Some f ∧ valid_fields f ∧ Year f ≤ 30828 ∧
    fields_time f = t - t mod 10000 ∧ Weekday f = fields_weekday f.
Proof.
  intros Ht. unfold RtlTimeToTimeFields. rewrite TimeToDaysAndFraction_value by done.
  pose proof (Z.div_mod t 10000). pose proof (Z.mod_pos_bound t 10000).
  set (ms := t / 10000) in *.
  assert (t / 864000000000 = ms / 86400000) as -> by (unfold ms; rewrite Z.div_div by lia; done).
  pose proof (Z.div_mod ms 86400000). pose proof (Z.mod_pos_bound ms 86400000).
  set (d := ms / 86400000) in *. set (rest_ms := ms mod 86400000) in *.
  destruct (date_of_days d) as (m & Hm & Hp & Hn & Hpre & Hv & Hdays); [lia|].
  cbv zeta in Hm, Hp, Hn, Hpre, Hv, Hdays.
  set (n := ElapsedDaysToYears d) in *. set (rest := d -u ElapsedYearsToDays n) in *. cbv zeta.
  rewrite Hm. cbn [mbind option_bind]. rewrite Hp. cbn [mbind option_bind].
  set (pre := days_of_months (leap (1601 + n)) m) in *.
  assert (Hn' : n ≤ 29227) by (apply years_bound; lia).
  pose proof Hv as (Hv1 & Hv2 & Hv3). pose proof (month_length_bound (1601 + n) (m + 1)).
  rewrite (u32_small (d + WEEKDAY_OF_1601)) by (unfold WEEKDAY_OF_1601; lia).
  rewrite (u32_small (rest - pre)) by lia.
  rewrite (u32_small (n + 1601)), (u32_small (m + 1)), (u32_small (rest - pre + 1)) by lia.
  pose proof (Z.div_mod rest_ms 1000). pose proof (Z.mod_pos_bound rest_ms 1000).
  set (s := rest_ms / 1000) in *. pose proof (Z.div_mod s 60). pose proof (Z.mod_pos_bound s 60).
  set (mi := s / 60) in *. pose proof (Z.div_mod mi 60). pose proof (Z.mod_pos_bound mi 60).
  pose proof (Z.mod_pos_bound (d + WEEKDAY_OF_1601) 7).
  rewrite !s16_small by lia. eexists. split; [done|].
  rewrite (Z.add_comm n 1601). unfold valid_fields, fields_time, fields_weekday, fields_days. simpl.
  rewrite Hdays. split; [split; [done|lia]|]. split; [lia|]. split; [lia|done].
Qed.

(** ** From time fields to a time *)

Definition is_s16 (x : Z) : Prop := - 2 ^ 15 ≤ x < 2 ^ 15.

(** The fields are [CSHORT]s. *)
Definition is_fields (f : TIME_FIELDS) : Prop :=
  Forall is_s16 [Year f; Month f; Day f; Hour f; Minute f; Second f; Milliseconds f; Weekday f].

#[export] Instance valid_fields_dec f : Decision (valid_fields f).
Proof. unfold valid_fields, valid_date. apply _. Defined.

Lemma u32_signed x : is_s16 x → u32 x = if x <? 0 then x + 2 ^ 32 else x.
Proof.
  unfold is_s16. intros Hx. destruct (Z.ltb_spec x 0); [|apply u32_small; lia].
  symmetry. apply (Z.mod_unique _ _ (-1)); lia.
Qed.

(** A test of an unsigned conversion also rejects negative values. *)
Lemma above_unsigned n x : 0 ≤ n < 2 ^ 15 → is_s16 x → (n <? u32 x) = negb ((0 <=? x) && (x <=? n)).
Proof.
  intros Hn Hx. rewrite u32_signed by done. unfold is_s16 in Hx.
  apply bool_eq_true. rewrite negb_true_iff, andb_false_iff, Z.leb_gt, Z.leb_gt, Z.ltb_lt.
  destruct (Z.ltb_spec x 0); lia.
Qed.

Lemma MaxDaysInMonth_value y m :
  0 ≤ m < 12 → MaxDaysInMonth y m = Some (month_length y (m + 1)).
Proof.
  intros Hm. unfold MaxDaysInMonth. rewrite (u32_small (m + 1)) by lia. rewrite leap_IsLeapYear.
  destruct (preceding_ok (leap y) m Hm) as [-> ->]. cbn [mbind option_bind]. f_equal.
  rewrite (days_of_months_succ y (m + 1)) by lia. rewrite Z.add_simpl_r. lia.
Qed.

Lemma ill_formed_ok f :
  is_fields f → 0 ≤ Year f → ill_formed f = Some (negb (bool_decide (valid_fields f))).
Proof.
  unfold is_fields. rewrite !Forall_cons_iff. intros (Hy & Hm & Hd & Hh & Hi & Hs & Hms & _) H0.
  unfold ill_formed. unfold is_s16 in Hy, Hm, Hd. rewrite (u32_small (Year f)) by lia.
  assert (Hno : ∀ b, (b = true → ¬ valid_fields f) → (b = false → valid_fields f) →
    b = negb (bool_decide (valid_fields f))).
  { intros [] H1 H2; [rewrite bool_decide_false by auto|rewrite bool_decide_true by auto]; done. }
  destruct (Z.ltb_spec (Month f) 1) as [Hm1|Hm1].
  { simpl. f_equal. apply Hno; [|done]. intros _ [(_ & ? & _) _]. lia. }
  destruct (Z.ltb_spec (Day f) 1) as [Hd1|Hd1].
  { simpl. f_equal. apply Hno; [|done]. intros _ [(_ & _ & ?) _]. lia. }
  destruct (Z.ltb_spec (Year f) 1601) as [Hy1|Hy1].
  { simpl. f_equal. apply Hno; [|done]. intros _ [(? & _) _]. lia. }
  rewrite (u32_small (Month f - 1)), (u32_small (Day f - 1)) by lia.
  destruct (Z.ltb_spec 11 (Month f - 1)) as [Hm2|Hm2].
  { simpl. f_equal. apply Hno; [|done]. intros _ [(_ & ? & _) _]. lia. }
  simpl. rewrite MaxDaysInMonth_value by lia. cbn [mbind option_bind]. f_equal. apply Hno.
  - rewrite !above_unsigned by (done || lia). rewrite s16_small by lia.
    rewrite !orb_true_iff, !negb_true_iff, !andb_false_iff, !Z.leb_gt, Z.leb_le.
    replace (Month f - 1 + 1) with (Month f) by lia. unfold valid_fields, valid_date. lia.
  - rewrite !above_unsigned by (done || lia). rewrite s16_small by lia.
    rewrite !orb_false_iff, !negb_false_iff, !andb_true_iff, !Z.leb_le, Z.leb_gt.
    replace (Month f - 1 + 1) with (Month f) by lia. unfold valid_fields, valid_date. lia.
Qed.

Lemma DaysAndFractionToTime_value d ms :
  0 ≤ d < 2 ^ 31 → 0 ≤ ms < 2 ^ 32 →
  DaysAndFractionToTime d ms = s64 ((d * 86400000 + ms) * 10000).
Proof.
  intros Hd Hms. unfold DaysAndFractionToTime, ConvertDaysToMilliseconds, Int32x32To64, ConvertMillisecondsTo100ns.
  rewrite (s32_small d), (s32_small 86400000) by lia. rewrite RtlLargeIntegerAdd_value.
  rewrite (s64_small (_ + _)) by lia. rewrite RtlExtendedIntegerMultiply_value by (unfold is_s64; lia).
  by rewrite (s32_small 10000) by lia.
Qed.

Lemma valid_days_bound f : valid_fields f → Year f < 2 ^ 15 → 0 ≤ fields_days f < 12000000.
Proof.
  intros [(Hy & Hm & Hd) _] Hb. unfold fields_days, date_days.
  pose proof (months_in_year (Year f) (Month f) (Day f) Hm Hd).
  rewrite year_days_sum, Z2Nat.id by lia.
  pose proof (year_days_mono 0 (Year f - 1601)). change (year_days 0) with 0 in *.
  pose proof (year_days_mono (Year f - 1601) 31167). assert (year_days 31167 = 11383512) by done.
  assert (year_length (Year f) ≤ 366) by (unfold year_length; destruct (leap _); lia). lia.
Qed.

Lemma RtlTimeFieldsToTime_ok f :
  is_fields f → 0 ≤ Year f →
  RtlTimeFieldsToTime f = Some (if decide (valid_fields f) then Some (s64 (fields_time f)) else None).
Proof.
  intros Hf H0. unfold RtlTimeFieldsToTime. rewrite ill_formed_ok by done. cbn [mbind option_bind].
  destruct (decide (valid_fields f)) as [Hv|Hv]; [|by rewrite bool_decide_false].
  rewrite bool_decide_true by done. simpl negb. cbv iota.
  unfold is_fields in Hf. rewrite !Forall_cons_iff in Hf. unfold is_s16 in Hf.
  pose proof (valid_days_bound f Hv) as Hb. destruct Hv as [(Hy & Hm & Hd) (Hh & Hi & Hs & Hms)].
  rewrite (u32_small (Year f)), (u32_small (Year f - 1601)), (u32_small (Year f - 1600)),
    (u32_small (Month f - 1)), (u32_small (Day f - 1)) by lia.
  rewrite leap_IsLeapYear, <- (leap_1600 (Year f - 1600)).
  replace (1600 + (Year f - 1600)) with (Year f) by lia.
  destruct (preceding_ok (leap (Year f)) (Month f - 1)) as [-> _]; [lia|]. cbn [mbind option_bind].
  unfold fields_days, date_days in Hb. rewrite year_days_sum, Z2Nat.id in Hb by lia.
  pose proof (days_of_months_nonneg (leap (Year f)) (Month f - 1)).
  pose proof (year_days_mono 0 (Year f - 1601)). change (year_days 0) with 0 in *.
  rewrite ElapsedYearsToDays_value by lia. drop_wrap.
  rewrite DaysAndFractionToTime_value by lia. unfold fields_time, fields_days, date_days.
  rewrite year_days_sum, Z2Nat.id by lia. do 3 f_equal. lia.
Qed.
