(* ===== verification/TimeRound.v ===== *)
(** * Dates are unique, round trips, seconds, and cutover times *)

From stdpp Require Import base list numbers option.
From S2P Require Import Prelude LargeInt Time TimeOk.

(** ** Round trips *)

Lemma date_year y m d :
  valid_date y m d →
  year_days (y - 1601) ≤ date_days y m d < year_days (y - 1601 + 1) ∧
  date_days y m d = year_days (y - 1601) + (days_of_months (leap y) (m - 1) + (d - 1)).
Proof.
  intros (Hy & Hm & Hd). pose proof (months_in_year y m d Hm Hd).
  rewrite year_days_succ by lia. replace (1601 + (y - 1601)) with y by lia.
  unfold date_days. rewrite year_days_sum, Z2Nat.id by lia. lia.
Qed.

(** A day has one date. *)
Lemma date_unique y m d y' m' d' :
  valid_date y m d → valid_date y' m' d' → date_days y m d = date_days y' m' d' →
  y = y' ∧ m = m' ∧ d = d'.
Proof.
  intros Hv Hv' Heq. destruct (date_year _ _ _ Hv) as [Hr Hd], (date_year _ _ _ Hv') as [Hr' Hd'].
  destruct Hv as (Hy & Hm & Hdd), Hv' as (Hy' & Hm' & Hdd').
  assert (y = y') as <-.
  { assert (y - 1601 = y' - 1601); [|lia].
    apply (year_unique _ _ (date_days y m d)); [lia..|done|]. by rewrite Heq. }
  pose proof (days_of_months_succ y m Hm). pose proof (days_of_months_succ y m' Hm').
  assert (m - 1 = m' - 1) as Hmm.
  { apply (month_unique (leap y) _ _ (days_of_months (leap y) (m - 1) + (d - 1))); [lia..| |];
      rewrite !Z.sub_add; lia. }
  replace m' with m in * by lia. lia.
Qed.

(** Two valid time fields of one time differ in the day of the week at most. *)
Lemma fields_unique f g :
  valid_fields f → valid_fields g → fields_time f = fields_time g → g = f <| Weekday := Weekday g |>.
Proof.
  intros [Hd Ht] [Hd' Ht'] Heq. unfold fields_time in Heq.
  assert (Hdays : fields_days f = fields_days g) by lia.
  destruct (date_unique _ _ _ _ _ _ Hd Hd' Hdays) as (HY & HM & HD).
  assert (Hour f = Hour g) by lia. assert (Minute f = Minute g) by lia.
  assert (Second f = Second g) by lia. assert (Milliseconds f = Milliseconds g) by lia.
  destruct f, g. simpl in *. congruence.
Qed.

Lemma fields_time_bound f :
  valid_fields f → Year f ≤ 30827 → 0 ≤ fields_time f < 2 ^ 63 ∧ fields_time f mod 10000 = 0.
Proof.
  intros [Hv Ht] Hy. destruct (date_year _ _ _ Hv) as [Hr _]. destruct Hv as (Hy' & _).
  pose proof (year_days_mono 0 (Year f - 1601)). change (year_days 0) with 0 in *.
  pose proof (year_days_mono (Year f - 1601 + 1) 29227). assert (year_days 29227 = 10674942) by done.
  unfold fields_time, fields_days. split; [lia|]. apply Z.mod_mul. lia.
Qed.

Lemma fields_roundtrip f :
  is_fields f → valid_fields f → Year f ≤ 30827 →
  RtlTimeFieldsToTime f = Some (Some (fields_time f)) ∧
  RtlTimeToTimeFields (fields_time f) = Some (f <| Weekday := fields_weekday f |>).
Proof.
  intros Hf Hv Hy. destruct (fields_time_bound f Hv Hy) as [Hb Hm].
  rewrite RtlTimeFieldsToTime_ok by (done || (destruct Hv as [(? & _) _]; lia)).
  rewrite decide_True by done. rewrite s64_small by lia. split; [done|].
  destruct (RtlTimeToTimeFields_ok (fields_time f) Hb) as (g & -> & Hg & _ & Ht & Hw). f_equal.
  rewrite Hm, Z.sub_0_r in Ht. rewrite (fields_unique f g Hv Hg) by done. f_equal.
  rewrite Hw. pose proof (fields_unique f g Hv Hg) as Hfg. unfold fields_weekday, fields_days.
  rewrite Hfg by done. done.
Qed.

(** ** Seconds *)

Lemma seconds_value S0 t :
  is_s64 t → 0 ≤ S0 < 2 ^ 40 →
  let Seconds := RtlLargeIntegerSubtract (Convert100nsToSeconds t) S0 in
  (if negb (HighPart Seconds =? 0) then None else Some (LowPart Seconds)) =
    (if (S0 <=? Z.quot t 10000000) && (Z.quot t 10000000 <? S0 + 2 ^ 32)
     then Some (Z.quot t 10000000 - S0) else None).
Proof.
  intros Ht HS. rewrite Convert100nsToSeconds_value by done. rewrite RtlLargeIntegerSubtract_value.
  set (q := Z.quot t 10000000).
  assert (Hq : - 2 ^ 40 ≤ q ≤ 2 ^ 40).
  { unfold q, is_s64 in *. destruct (Z.le_gt_cases 0 t).
    - rewrite Z.quot_div_nonneg by lia. pose proof (Z.div_pos t 10000000).
      pose proof (Z.div_le_upper_bound t 10000000 (2 ^ 40)). lia.
    - rewrite <- (Z.opp_involutive t), Z.quot_opp_l, Z.quot_div_nonneg by lia.
      pose proof (Z.div_pos (- t) 10000000). pose proof (Z.div_le_upper_bound (- t) 10000000 (2 ^ 40)). lia. }
  rewrite s64_small by lia. cbv zeta. rewrite HighPart_zero by (unfold is_s64; lia).
  destruct (Z.leb_spec 0 (q - S0)), (Z.leb_spec S0 q); try lia; simpl; [|done].
  destruct (Z.ltb_spec (q - S0) (2 ^ 32)), (Z.ltb_spec q (S0 + 2 ^ 32)); try lia; simpl; [|done].
  unfold LowPart, LowDword. by rewrite u32_small by lia.
Qed.

Lemma from_seconds_value S0 n :
  0 ≤ S0 < 2 ^ 36 → 0 ≤ n < 2 ^ 32 →
  ConvertSecondsTo100ns (RtlLargeIntegerAdd n S0) = (n + S0) * 10000000.
Proof.
  intros HS Hn. unfold ConvertSecondsTo100ns. rewrite RtlLargeIntegerAdd_value, s64_small by lia.
  rewrite RtlExtendedIntegerMultiply_value by (unfold is_s64; lia).
  rewrite (s32_small 10000000) by lia. by rewrite s64_small by lia.
Qed.

Lemma seconds_roundtrip S0 n :
  0 ≤ S0 < 2 ^ 36 → 0 ≤ n < 2 ^ 32 →
  let Seconds := RtlLargeIntegerSubtract
    (Convert100nsToSeconds (ConvertSecondsTo100ns (RtlLargeIntegerAdd n S0))) S0 in
  (if negb (HighPart Seconds =? 0) then None else Some (LowPart Seconds)) = Some n.
Proof.
  intros HS Hn. rewrite from_seconds_value by done.
  cbv zeta. rewrite (seconds_value S0) by (unfold is_s64; lia). rewrite Z.quot_mul by lia.
  rewrite (proj2 (Z.leb_le _ _)), (proj2 (Z.ltb_lt _ _)) by lia. simpl. f_equal. lia.
Qed.

(** ** Cutover times *)

(** A cutover time of the form "[Day]-th [Weekday] of [Month]", 5 being the last. *)
Record valid_cutover (c : TIME_FIELDS) : Prop := {
  vc_year : Year c = 0; vc_month : 1 ≤ Month c ≤ 12; vc_day : 1 ≤ Day c ≤ 5;
  vc_weekday : 0 ≤ Weekday c ≤ 6; vc_hour : 0 ≤ Hour c ≤ 23; vc_minute : 0 ≤ Minute c ≤ 59;
  vc_second : 0 ≤ Second c ≤ 59; vc_ms : 0 ≤ Milliseconds c ≤ 999
}.

(** The cutover time of a day [d] of its month in year [y]. *)
Definition dated (c : TIME_FIELDS) (y d : Z) : TIME_FIELDS :=
  mkTimeFields y (Month c) d (Hour c) (Minute c) (Second c) (Milliseconds c) 0.

(** The first day of the month that is the weekday, and the day of the cutover. *)
Definition first_weekday (c : TIME_FIELDS) (y : Z) : Z :=
  1 + (Weekday c - (date_days y (Month c) 1 + 1)) mod 7.
Definition cutover_day (c : TIME_FIELDS) (y : Z) : Z :=
  first_weekday c y +
    7 * Z.min (Day c - 1) ((month_length y (Month c) - first_weekday c y) / 7).

Lemma date_days_first y m d : date_days y m d = date_days y m 1 + (d - 1).
Proof. unfold date_days. lia. Qed.

Section cutover.
Context (c : TIME_FIELDS) (Hc : valid_cutover c) (y : Z) (Hy : 1601 ≤ y ≤ 30827).
Local Abbreviation len := (month_length y (Month c)).

Lemma len_bounds : 28 ≤ len ≤ 31.
Proof using Hc.
  unfold month_length. pose proof (vc_month c Hc). assert (0 ≤ Month c - 1 < 12) as Hm by lia.
  destruct (leap y); each_month (Month c - 1).
Qed.

Lemma dated_fields d : is_s16 d → is_fields (dated c y d).
Proof using Hc Hy.
  intros Hd. destruct Hc. unfold is_fields, dated, is_s16 in *. simpl. repeat constructor; lia.
Qed.

Lemma dated_valid d : valid_fields (dated c y d) ↔ 1 ≤ d ≤ len.
Proof using Hc Hy. destruct Hc. unfold valid_fields, valid_date, dated. simpl. lia. Qed.

Lemma dated_time d :
  is_s16 d →
  RtlTimeFieldsToTime (dated c y d) =
    Some (if decide (1 ≤ d ≤ len) then Some (fields_time (dated c y d)) else None).
Proof using Hc Hy.
  intros Hd. rewrite RtlTimeFieldsToTime_ok; [|by apply dated_fields|simpl; lia]. f_equal.
  destruct (decide (1 ≤ d ≤ len)) as [Hv|Hv].
  - rewrite decide_True by (by apply dated_valid). f_equal. apply s64_small.
    destruct (fields_time_bound (dated c y d)); [by apply dated_valid|simpl; lia|lia].
  - rewrite decide_False by (by rewrite dated_valid). done.
Qed.

Lemma dated_back d :
  1 ≤ d ≤ len →
  RtlTimeToTimeFields (fields_time (dated c y d)) =
    Some ((dated c y d) <| Weekday := (date_days y (Month c) d + 1) mod 7 |>).
Proof using Hc Hy.
  intros Hd. pose proof len_bounds.
  destruct (fields_roundtrip (dated c y d)) as [_ H']; [|by apply dated_valid|simpl; lia|exact H'].
  apply dated_fields. unfold is_s16. lia.
Qed.

Lemma weekday_loop_ok fuel : ∀ d k,
  1 ≤ d ≤ len → 1 ≤ k ≤ Day c → Day c - k < Z.of_nat fuel →
  weekday_loop fuel (dated c y d) k (Day c) d = Some (d + 7 * Z.min (Day c - k) ((len - d) / 7)).
Proof using Hc Hy.
  pose proof len_bounds as Hl. pose proof (vc_day c Hc).
  induction fuel as [|fuel IH]; intros d k Hd Hk Hf; [lia|].
  cbn [weekday_loop]. cbv zeta. change (Day (dated c y d)) with d.
  pose proof (Z.div_mod (len - d) 7). pose proof (Z.mod_pos_bound (len - d) 7).
  destruct (Z.ltb_spec k (Day c)).
  - change ((dated c y d) <| Day := s16 (d + 7) |>) with (dated c y (s16 (d + 7))).
    rewrite (s16_small (d + 7)) by lia. rewrite dated_time by (unfold is_s16; lia).
    cbn [mbind option_bind]. destruct (decide (1 ≤ d + 7 ≤ len)).
    + rewrite dated_back by done. cbn [mbind option_bind].
      change (Day ((dated c y (d + 7)) <| Weekday := _ |>)) with (d + 7).
      rewrite (s16_small (k + 1)), IH by lia. f_equal.
      pose proof (Z.div_mod (len - (d + 7)) 7). pose proof (Z.mod_pos_bound (len - (d + 7)) 7). lia.
    + f_equal. lia.
  - f_equal. lia.
Qed.

Lemma first_weekday_bounds : 1 ≤ first_weekday c y ≤ 7.
Proof using.
  unfold first_weekday. pose proof (Z.mod_pos_bound (Weekday c - (date_days y (Month c) 1 + 1)) 7). lia.
Qed.

Lemma cutover_day_bounds : 1 ≤ cutover_day c y ≤ len.
Proof using Hc.
  pose proof first_weekday_bounds. pose proof len_bounds. pose proof (vc_day c Hc). unfold cutover_day.
  pose proof (Z.div_mod (len - first_weekday c y) 7). pose proof (Z.mod_pos_bound (len - first_weekday c y) 7).
  lia.
Qed.

(** The day is the [Day]-th weekday of the month, or the last if there are fewer. *)
Lemma cutover_day_nth :
  7 * (Day c - 1) < cutover_day c y ≤ 7 * Day c ∨
  cutover_day c y ≤ 7 * (Day c - 1) ∧ len < cutover_day c y + 7.
Proof using Hc.
  pose proof first_weekday_bounds. pose proof len_bounds. pose proof (vc_day c Hc). unfold cutover_day.
  pose proof (Z.div_mod (len - first_weekday c y) 7). pose proof (Z.mod_pos_bound (len - first_weekday c y) 7).
  lia.
Qed.

(** The day is the weekday asked for. *)
Lemma cutover_day_weekday : fields_weekday (dated c y (cutover_day c y)) = Weekday c.
Proof using Hc.
  pose proof (vc_weekday c Hc). unfold fields_weekday, fields_days.
  change (date_days (Year (dated c y (cutover_day c y))) _ _) with (date_days y (Month c) (cutover_day c y)).
  rewrite date_days_first. unfold cutover_day, first_weekday.
  set (a := date_days y (Month c) 1). set (k := Z.min _ _).
  replace (a + (1 + (Weekday c - (a + 1)) mod 7 + 7 * k - 1) + 1)
    with ((Weekday c - (a + 1)) mod 7 + (a + 1) + k * 7) by lia.
  rewrite Z.mod_add by lia. rewrite Z.add_mod_idemp_l by lia.
  replace (Weekday c - (a + 1) + (a + 1)) with (Weekday c) by lia. apply Z.mod_small. lia.
Qed.

(** The move from the first day of the month to the weekday. *)
Lemma first_day_moved w :
  w = (date_days y (Month c) 1 + 1) mod 7 →
  (if Weekday c <? w then (dated c y 1) <| Day := s16 (1 + (7 - (w - Weekday c))) |>
   else if w <? Weekday c then (dated c y 1) <| Day := s16 (1 + (Weekday c - w)) |>
   else dated c y 1) = dated c y (first_weekday c y).
Proof using Hc.
  intros Hw. pose proof (vc_weekday c Hc). pose proof (Z.mod_pos_bound (date_days y (Month c) 1 + 1) 7).
  assert (Hf : first_weekday c y = 1 + (Weekday c - w) mod 7).
  { unfold first_weekday. rewrite Hw, Zminus_mod_idemp_r. done. }
  rewrite Hf. clear Hf. rewrite !s16_small by lia.
  change ((dated c y 1) <| Day := ?v |>) with (dated c y v).
  destruct (Z.ltb_spec (Weekday c) w); [|destruct (Z.ltb_spec w (Weekday c))]; f_equal.
  - rewrite <- (Z.mod_unique (Weekday c - w) 7 (-1) (Weekday c - w + 7)); lia.
  - rewrite Z.mod_small; lia.
  - rewrite Z.mod_small; lia.
Qed.

Lemma cutover_in_year_ok cur now mm :
  cutover_in_year c cur now mm y =
    Some (if mm && ((cutover_day c y <? Day cur) || (cutover_day c y =? Day cur) &&
                RtlLargeIntegerLessThan (fields_time (dated c y (cutover_day c y))) now)
          then None else Some (Some (fields_time (dated c y (cutover_day c y))))).
Proof using Hc Hy.
  pose proof len_bounds. pose proof (vc_day c Hc). pose proof first_weekday_bounds.
  pose proof cutover_day_bounds.
  unfold cutover_in_year. cbv zeta. fold (dated c y 1).
  rewrite dated_time by (unfold is_s16; lia). cbn [mbind option_bind]. rewrite decide_True by lia.
  rewrite dated_back by lia. cbn [mbind option_bind].
  change (Weekday ((dated c y 1) <| Weekday := ?w |>)) with w.
  change (Day (dated c y 1)) with 1. rewrite (first_day_moved _ eq_refl).
  change (Day (dated c y (first_weekday c y))) with (first_weekday c y).
  rewrite weekday_loop_ok by lia. cbn [mbind option_bind]. fold (cutover_day c y).
  change ((dated c y (first_weekday c y)) <| Day := cutover_day c y |>) with (dated c y (cutover_day c y)).
  rewrite dated_time by (unfold is_s16; lia). cbn [mbind option_bind]. by rewrite decide_True by lia.
Qed.
End cutover.

Lemma earlier_day f g :
  valid_fields f → valid_fields g → fields_days f < fields_days g →
  fields_time f + 10000 ≤ fields_time g.
Proof. intros [_ Hf] [_ Hg] Hd. unfold fields_time. lia. Qed.

Lemma earlier_month f g :
  valid_fields f → valid_fields g → Year f = Year g → Month f < Month g →
  fields_days f < fields_days g.
Proof.
  intros [Hf _] [Hg _] Hy Hm. unfold fields_days.
  destruct (date_year _ _ _ Hf) as [_ ->], (date_year _ _ _ Hg) as [_ ->].
  destruct Hf as (_ & Hfm & Hfd), Hg as (_ & Hgm & Hgd). rewrite Hy in *.
  pose proof (days_of_months_succ (Year g) (Month f) Hfm).
  assert (days_of_months (leap (Year g)) (Month f - 1 + 1) ≤ days_of_months (leap (Year g)) (Month g - 1)).
  { apply days_of_months_mono; lia. }
  replace (Month f - 1 + 1) with (Month f) in * by lia. lia.
Qed.

Lemma same_month f g :
  Year f = Year g → Month f = Month g → Day f < Day g → fields_days f < fields_days g.
Proof. intros HY HM HD. unfold fields_days, date_days. rewrite HY, HM. lia. Qed.

(** Whether a time in the month of the current time has passed. *)
Lemma past_in_month f cur now :
  valid_fields f → valid_fields cur → Year f = Year cur → Month f = Month cur →
  fields_time cur ≤ now < fields_time cur + 10000 →
  (Day f <? Day cur) || (Day f =? Day cur) && (fields_time f <? now) = negb (now <=? fields_time f).
Proof.
  intros Hf Hv HY HM Hin. destruct (Z.lt_trichotomy (Day f) (Day cur)) as [Hlt|[Hsame|Hgt]].
  - pose proof (earlier_day f cur Hf Hv (same_month f cur HY HM Hlt)).
    rewrite (proj2 (Z.ltb_lt _ _)), (proj2 (Z.leb_gt now (fields_time f))) by lia. done.
  - rewrite Hsame, Z.ltb_irrefl, Z.eqb_refl. simpl. by rewrite Z.leb_antisym, negb_involutive.
  - pose proof (earlier_day cur f Hv Hf (same_month cur f (eq_sym HY) (eq_sym HM) Hgt)).
    rewrite (proj2 (Z.ltb_ge _ _)), (proj2 (Z.eqb_neq _ _)), (proj2 (Z.leb_le now (fields_time f))) by lia. done.
Qed.

(** The cutover time in a year. *)
Definition cutover_time (c : TIME_FIELDS) (y : Z) : Z := fields_time (dated c y (cutover_day c y)).

Lemma RtlCutoverTimeToSystemTime_ok c now this s cur :
  valid_cutover c → 0 ≤ now < 2 ^ 63 → RtlTimeToTimeFields now = Some cur → Year cur ≤ 30826 →
  RtlCutoverTimeToSystemTime c s now this =
    Some (true, cutover_time c (if this || (now <=? cutover_time c (Year cur))
                                then Year cur else Year cur + 1)).
Proof.
  intros Hc Hnow Hcur Hy.
  destruct (RtlTimeToTimeFields_ok now Hnow) as (g & Hg & Hv & _ & Ht & _).
  rewrite Hcur in Hg. injection Hg as <-. pose proof (Z.mod_pos_bound now 10000).
  assert (Hyear : 1601 ≤ Year cur) by apply Hv.
  unfold RtlCutoverTimeToSystemTime. rewrite Hcur. cbn [mbind option_bind].
  rewrite (vc_year c Hc). simpl negb. cbv iota. pose proof (vc_day c Hc).
  rewrite (proj2 (Z.ltb_ge 5 _)), (proj2 (Z.eqb_neq _ _)) by lia. simpl orb. cbv iota.
  set (T := cutover_time c (Year cur)).
  pose proof (cutover_day_bounds c Hc (Year cur)) as Hcd.
  set (f := dated c (Year cur) (cutover_day c (Year cur))).
  assert (Hf : valid_fields f) by (by apply dated_valid; [done|lia|]).
  assert (HT : T = fields_time f) by done.
  destruct (fields_time_bound f Hf) as [HTb _]; [simpl; lia|].
  assert (Hf_y : Year f = Year cur) by done. assert (Hf_m : Month f = Month c) by done.
  assert (Hf_d : Day f = cutover_day c (Year cur)) by done.
  destruct this; simpl orb; cbv iota beta.
  { by rewrite (cutover_in_year_ok c Hc (Year cur)) by lia. }
  destruct (Z.ltb_spec (Month c) (Month cur)) as [Hlt|Hge].
  - assert (T < now) by (pose proof (earlier_day f cur Hf Hv (earlier_month f cur Hf Hv Hf_y Hlt)); lia).
    rewrite (proj2 (Z.leb_gt now T)) by lia. rewrite (s16_small (Year cur + 1)) by lia.
    by rewrite (cutover_in_year_ok c Hc (Year cur + 1)) by lia.
  - destruct (Z.ltb_spec (Month cur) (Month c)) as [Hgt|Heq].
    + assert (now < T) by (pose proof (earlier_day cur f Hv Hf (earlier_month cur f Hv Hf eq_refl Hgt)); lia).
      rewrite (proj2 (Z.leb_le now T)) by lia. by rewrite (cutover_in_year_ok c Hc (Year cur)) by lia.
    + assert (Hmm : Month f = Month cur) by lia.
      rewrite (cutover_in_year_ok c Hc (Year cur)) by lia. fold f. rewrite <- HT, <- Hf_d.
      rewrite RtlLargeIntegerLessThan_value by (unfold is_s64; lia). rewrite andb_true_l.
      assert (Hin : fields_time cur ≤ now < fields_time cur + 10000) by lia.
      rewrite HT, (past_in_month f cur now Hf Hv Hf_y Hmm Hin), <- HT.
      destruct (now <=? T); simpl negb; cbn [mbind option_bind]; [done|].
      rewrite (s16_small (Year cur + 1)) by lia. by rewrite (cutover_in_year_ok c Hc (Year cur + 1)) by lia.
Qed.
