(* ===== verification/TimeTheorems.v ===== *)
(** * Time conversion: the theorems *)

From stdpp Require Import base list numbers option.
From S2P Require Import Prelude LargeInt Time TimeOk TimeRound.

(** C20: the divisions by multiplication with a 64-bit reciprocal, which the i386
    code carries out in 32-bit words with carries and shifts, are exact for every
    64-bit dividend: they round toward zero like a division by 10,000, 10,000,000
    and 86,400,000. The multiplications by 10,000 and 10,000,000 give the low 64
    bits of the product. *)
Theorem large_integer_exact (t : Z) :
  - 2 ^ 63 ≤ t < 2 ^ 63 →
  Convert100nsToMilliseconds t = Z.quot t 10000 ∧
  Convert100nsToSeconds t = Z.quot t 10000000 ∧
  ConvertMillisecondsToDays t = Z.quot t 86400000 ∧
  ConvertMillisecondsTo100ns t = s64 (t * 10000) ∧
  ConvertSecondsTo100ns t = s64 (t * 10000000).
Proof.
  intros Ht. split_and!.
  - by apply Convert100nsToMilliseconds_value.
  - by apply Convert100nsToSeconds_value.
  - by apply ConvertMillisecondsToDays_value.
  - unfold ConvertMillisecondsTo100ns. by rewrite RtlExtendedIntegerMultiply_value.
  - unfold ConvertSecondsTo100ns. by rewrite RtlExtendedIntegerMultiply_value.
Qed.

Lemma large_integer_exact_witness :
  Convert100nsToMilliseconds (-19999) = -1 ∧ ConvertMillisecondsToDays 86399999 = 0.
Proof.
  destruct (large_integer_exact (-19999)) as [H1 _]; [lia|].
  destruct (large_integer_exact 86399999) as (_ & _ & H2 & _); [lia|]. split; [rewrite H1|rewrite H2]; by vm_compute.
Defined.

(** C19: [RtlTimeToTimeFields] reads no table out of range, whatever the 64-bit time.
    For a time that is not negative it gives the date of the Gregorian calendar
    ([date_days] counts the days year by year and month by month) and the time of
    day: the fields are in range, they denote the time rounded down to the
    millisecond, no other valid fields do, and the weekday counts on from the
    Monday on which 1601 began. *)
Theorem time_to_fields_correct (t : Z) :
  is_Some (RtlTimeToTimeFields t) ∧
  (0 ≤ t < 2 ^ 63 →
   ∃ f, RtlTimeToTimeFields t = Some f ∧ valid_fields f ∧ Year f ≤ 30828 ∧
     fields_time f = t - t mod 10000 ∧ Weekday f = fields_weekday f ∧
     ∀ g, valid_fields g → fields_time g = t - t mod 10000 → g = f <| Weekday := Weekday g |>).
Proof.
  split; [apply RtlTimeToTimeFields_defined|]. intros Ht.
  destruct (RtlTimeToTimeFields_ok t Ht) as (f & Hf & Hv & Hy & Hft & Hw). exists f.
  split_and!; [done..|]. intros g Hg Hgt. apply fields_unique; [done|done|congruence].
Qed.

Lemma time_to_fields_correct_witness :
  ∃ f, RtlTimeToTimeFields 116444736000000000 = Some f ∧ f = mkTimeFields 1970 1 1 0 0 0 0 4.
Proof.
  destruct (time_to_fields_correct 116444736000000000) as [_ H].
  destruct H as (f & Hf & _); [lia|]. exists f. split; [done|].
  assert (He : RtlTimeToTimeFields 116444736000000000 = Some (mkTimeFields 1970 1 1 0 0 0 0 4))
    by (by vm_compute).
  congruence.
Defined.

(** C18: [RtlTimeFieldsToTime] of fields whose year is not negative succeeds exactly
    when they are a date of the calendar from 1601 on and a time of day, and its
    result is the time they denote in 64 bits. Up to the year 30827 that is the time
    itself, and [RtlTimeToTimeFields] gives the fields back, with the day of the week
    filled in. *)
Theorem time_fields_roundtrip (f : TIME_FIELDS) :
  is_fields f → 0 ≤ Year f →
  RtlTimeFieldsToTime f =
    Some (if decide (valid_fields f) then Some (s64 (fields_time f)) else None) ∧
  (valid_fields f → Year f ≤ 30827 →
   ∃ t, RtlTimeFieldsToTime f = Some (Some t) ∧ 0 ≤ t < 2 ^ 63 ∧
     RtlTimeToTimeFields t = Some (f <| Weekday := fields_weekday f |>)).
Proof.
  intros Hf H0. split; [by apply RtlTimeFieldsToTime_ok|]. intros Hv Hy.
  exists (fields_time f). destruct (fields_roundtrip f Hf Hv Hy) as [H1 H2].
  destruct (fields_time_bound f Hv Hy) as [Hb _]. done.
Qed.

Lemma time_fields_roundtrip_witness :
  RtlTimeFieldsToTime (mkTimeFields 1900 2 29 0 0 0 0 0) = Some None ∧
  ∃ t, RtlTimeFieldsToTime (mkTimeFields 1994 9 21 17 30 15 250 0) = Some (Some t) ∧
    RtlTimeToTimeFields t = Some (mkTimeFields 1994 9 21 17 30 15 250 3).
Proof.
  split.
  - destruct (time_fields_roundtrip (mkTimeFields 1900 2 29 0 0 0 0 0)) as [-> _];
      [repeat constructor; done|done|by vm_compute].
  - destruct (time_fields_roundtrip (mkTimeFields 1994 9 21 17 30 15 250 0)) as [_ H];
      [repeat constructor; done|done|].
    destruct H as (t & H1 & _ & H2); [apply (bool_decide_unpack _); by vm_compute|done|].
    exists t. split; [done|]. rewrite H2. by vm_compute.
Defined.

(** The range checks of [RtlTimeFieldsToTime] have two gaps: a negative year is
    converted to a large unsigned number and passes for a year after 1601, and a
    year past 30828 passes although its time does not fit in 64 bits, so that the
    result is negative. *)
Theorem fields_to_time_accepts_bad_years :
  (∃ t, RtlTimeFieldsToTime (mkTimeFields (-1) 1 1 0 0 0 0 0) = Some (Some t)) ∧
  (∃ t, RtlTimeFieldsToTime (mkTimeFields 30829 1 1 0 0 0 0 0) = Some (Some t) ∧ t < 0).
Proof. split; eexists; [by vm_compute|]. split; by vm_compute. Qed.

(** The conversions between a time and the seconds since the start of 1970 and
    of 1980. A time is accepted exactly when its second, rounded toward zero, lies in
    the 2^32 seconds from then on; converting any number of seconds to a time and
    back gives that number. *)
Theorem seconds_correct (t n : Z) :
  - 2 ^ 63 ≤ t < 2 ^ 63 → 0 ≤ n < 2 ^ 32 →
  let second := Z.quot t 10000000 in
  RtlTimeToSecondsSince1970 t =
    (if (11644473600 <=? second) && (second <? 11644473600 + 2 ^ 32)
     then Some (second - 11644473600) else None) ∧
  RtlTimeToSecondsSince1980 t =
    (if (11960006400 <=? second) && (second <? 11960006400 + 2 ^ 32)
     then Some (second - 11960006400) else None) ∧
  RtlTimeToSecondsSince1970 (RtlSecondsSince1970ToTime n) = Some n ∧
  RtlTimeToSecondsSince1980 (RtlSecondsSince1980ToTime n) = Some n.
Proof.
  intros Ht Hn. cbv zeta. split_and!.
  - by apply (seconds_value SecondsToStartOf1970).
  - by apply (seconds_value SecondsToStartOf1980).
  - by apply (seconds_roundtrip SecondsToStartOf1970).
  - by apply (seconds_roundtrip SecondsToStartOf1980).
Qed.

Lemma seconds_correct_witness :
  RtlTimeToSecondsSince1970 116444735999999999 = None ∧
  RtlTimeToSecondsSince1970 (RtlSecondsSince1970ToTime 4294967295) = Some 4294967295.
Proof.
  destruct (seconds_correct 116444735999999999 4294967295) as (H1 & _ & H2 & _); [lia|lia|].
  split; [rewrite H1; by vm_compute|exact H2].
Defined.

(** [RtlCutoverTimeToSystemTime] of a rule "n-th weekday of a month at a time of
    day" (5 for the last) returns the time of that weekday: the n-th of the month,
    or the last if there are fewer, in the current year if that is asked for or
    the time has not passed, otherwise in the next year. *)
Theorem cutover_correct (c cur : TIME_FIELDS) (s now : Z) (ThisYear : bool) :
  valid_cutover c → 0 ≤ now < 2 ^ 63 → RtlTimeToTimeFields now = Some cur → Year cur ≤ 30826 →
  let y := if ThisYear || (now <=? cutover_time c (Year cur)) then Year cur else Year cur + 1 in
  RtlCutoverTimeToSystemTime c s now ThisYear = Some (true, cutover_time c y) ∧
  valid_fields (dated c y (cutover_day c y)) ∧
  fields_weekday (dated c y (cutover_day c y)) = Weekday c ∧
  (7 * (Day c - 1) < cutover_day c y ≤ 7 * Day c ∨
   cutover_day c y ≤ 7 * (Day c - 1) ∧ month_length y (Month c) < cutover_day c y + 7).
Proof.
  intros Hc Hnow Hcur Hy y. split; [by apply RtlCutoverTimeToSystemTime_ok|].
  assert (Hyear : 1601 ≤ Year cur).
  { destruct (RtlTimeToTimeFields_ok now Hnow) as (g & Hg & Hv & _). rewrite Hcur in Hg.
    injection Hg as <-. apply Hv. }
  assert (1601 ≤ y ≤ 30827) by (unfold y; destruct (_ || _); lia).
  split; [apply dated_valid; [done|lia|by apply cutover_day_bounds]|].
  split; [by apply cutover_day_weekday|by apply cutover_day_nth].
Qed.

(** The last Sunday of October at two o'clock, asked for in September 2020 and in
    December 2020. *)
Lemma cutover_correct_witness :
  let c := mkTimeFields 0 10 5 2 0 0 0 0 in
  valid_cutover c ∧
  RtlCutoverTimeToSystemTime c 0 132444736000000000 false = Some (true, 132480648000000000) ∧
  RtlCutoverTimeToSystemTime c 0 132520320000000000 false = Some (true, cutover_time c 2021).
Proof.
  intros c. assert (Hc : valid_cutover c) by (split; simpl; lia). split; [done|].
  split.
  - edestruct (cutover_correct c (mkTimeFields 2020 9 13 12 26 40 0 0) 0 132444736000000000 false Hc)
      as [-> _]; [lia|by vm_compute|done|]. by vm_compute.
  - edestruct (cutover_correct c (mkTimeFields 2020 12 10 0 0 0 0 4) 0 132520320000000000 false Hc)
      as [-> _]; [lia|by vm_compute|done|]. by vm_compute.
Defined.
