(* ===== verification/Resource.v ===== *)
(** * Executive resources ([EX/RESOURCE.C], uniprocessor free build)

    A resource is a lock that several threads may own for shared access or one
    thread for exclusive access. Each routine runs under the resource's lock up to
    the point where it waits, sets the event or releases the semaphore; these
    sections are functions on the resource. What a thread does after a section is
    its [pc], so that the steps of a system of threads are sections and calls of
    the dispatcher, in any interleaving. The event and the semaphore of the resource
    keep their waiters in order of arrival. Statistics and priority boosts are left
    out; the flags of the resource are its exclusive flag and the boost flag. *)

From stdpp Require Import base list numbers option gmap.
From S2P Require Import Prelude.

(** ** The resource *)

(** The thread is a pointer, or 0, or 1 between the grant of exclusive access and the
    wakeup of the new owner. *)
Record OWNER_ENTRY := mkOwner { OwnerThread : Z; OwnerCount : Z }.

Record ERESOURCE := mkResource
  { OwnerTable : list OWNER_ENTRY; ActiveCount : Z; OwnedExclusive : bool;
    DisablePriorityBoost : bool; SharedWaiters : bool; ExclusiveWaiters : bool;
    Owner0 : OWNER_ENTRY; Owner1 : OWNER_ENTRY;
    NumberOfSharedWaiters : Z; NumberOfExclusiveWaiters : Z }.

#[export] Instance OWNER_ENTRY_eta : Eta OWNER_ENTRY := λ r, mkOwner (OwnerThread r) (OwnerCount r).
#[export] Instance ERESOURCE_eta : Eta ERESOURCE :=
  λ r, mkResource (OwnerTable r) (ActiveCount r) (OwnedExclusive r) (DisablePriorityBoost r)
         (SharedWaiters r) (ExclusiveWaiters r) (Owner0 r) (Owner1 r) (NumberOfSharedWaiters r)
         (NumberOfExclusiveWaiters r).

(** [OwnerThreads[0].TableSize], a [USHORT]. *)
Definition TableSize (R : ERESOURCE) : Z := u16 (zlen (OwnerTable R)).

Definition IsExclusiveWaiting (R : ERESOURCE) : bool := negb (NumberOfExclusiveWaiters R =? 0).
Definition IsSharedWaiting (R : ERESOURCE) : bool := negb (NumberOfSharedWaiters R =? 0).

Definition ExInitializeResourceLite : ERESOURCE :=
  mkResource [] 0 false false false false (mkOwner 0 0) (mkOwner 0 0) 0 0.

Definition ExDisableResourceBoostLite (R : ERESOURCE) : ERESOURCE :=
  R <| DisablePriorityBoost := true |>.

(** A pointer to an owner entry. *)
Inductive POWNER_ENTRY := Entry0 | Entry1 | InTable (i : nat).

Definition get_owner (p : POWNER_ENTRY) (R : ERESOURCE) : option OWNER_ENTRY :=
  match p with
  | Entry0 => Some (Owner0 R)
  | Entry1 => Some (Owner1 R)
  | InTable i => OwnerTable R !! i
  end.

Definition set_owner (p : POWNER_ENTRY) (e : OWNER_ENTRY) (R : ERESOURCE) : option ERESOURCE :=
  match p with
  | Entry0 => Some (R <| Owner0 := e |>)
  | Entry1 => Some (R <| Owner1 := e |>)
  | InTable i =>
      if decide (i < length (OwnerTable R))%nat
      then Some (R <| OwnerTable := <[i := e]> (OwnerTable R) |>) else None
  end.

(** The loop over the table: the thread's entry, or the last free one. *)
Fixpoint scan_table (CurrentThread : Z) (i : nat) (l : list OWNER_ENTRY)
    (FreeEntry : option POWNER_ENTRY) : POWNER_ENTRY + option POWNER_ENTRY :=
  match l with
  | [] => inr FreeEntry
  | e :: l =>
      if OwnerThread e =? CurrentThread then inl (InTable i)
      else scan_table CurrentThread (S i) l
             (if OwnerThread e =? 0 then Some (InTable i) else FreeEntry)
  end.

Definition ExpFindCurrentThread (R : ERESOURCE) (CurrentThread : Z) : POWNER_ENTRY * ERESOURCE :=
  if OwnerThread (Owner0 R) =? CurrentThread then (Entry0, R)
  else if OwnerThread (Owner1 R) =? CurrentThread then (Entry1, R)
  else
    let FreeEntry := if OwnerThread (Owner1 R) =? 0 then Some Entry1 else None in
    let OldSize := Z.to_nat (TableSize R) in
    match scan_table CurrentThread 0 (take OldSize (OwnerTable R)) FreeEntry with
    | inl p => (p, R)
    | inr (Some p) => (p, R)
    | inr None =>
        let NewSize := if decide (OldSize = 0)%nat then 3%nat else (OldSize + 4)%nat in
        (InTable OldSize,
         R <| OwnerTable := take OldSize (OwnerTable R) ++
                replicate (NewSize - OldSize) (mkOwner 0 0) |>)
    end.

(** ** What a thread does next *)

Inductive pc :=
  | Idle
  | AllocatingEvent
  | CallingExclusive
  | EnteringExclusive
  | BlockedExclusive
  | GrantedExclusive
  | CallingShared (starve Wait : bool)
  | EnteringShared (again : bool)
  | BlockedShared (again : bool)
  | SettingEvent
  | ReleasingShared (Number : Z).

(** The end of a section: the routine returns a [BOOLEAN], with the access granted, or
    the thread goes on at a [pc]. *)
Inductive section_end :=
  | Acquired (exclusive : bool)
  | Refused
  | Released
  | Goes (next : pc).

(** ** Acquiring *)

Definition owned_by (CurrentThread : Z) (R : ERESOURCE) : bool :=
  OwnedExclusive R && (OwnerThread (Owner0 R) =? CurrentThread).

(** [Resource->OwnerThreads[0].OwnerCount += 1] *)
Definition enter_again (R : ERESOURCE) : ERESOURCE :=
  R <| Owner0 := mkOwner (OwnerThread (Owner0 R)) (s16 (OwnerCount (Owner0 R) + 1)) |>.

Definition grant_exclusive (CurrentThread : Z) (R : ERESOURCE) : ERESOURCE :=
  R <| OwnedExclusive := true |> <| Owner0 := mkOwner CurrentThread 1 |> <| ActiveCount := 1 |>.

Definition grant_shared (CurrentThread : Z) (R : ERESOURCE) : ERESOURCE :=
  R <| Owner1 := mkOwner CurrentThread 1 |> <| ActiveCount := 1 |>.

Definition ExAcquireResourceExclusiveLite (CurrentThread : Z) (Wait : bool) (R : ERESOURCE) :
    section_end * ERESOURCE :=
  if ActiveCount R =? 0 then (Acquired true, grant_exclusive CurrentThread R)
  else if owned_by CurrentThread R then (Acquired true, enter_again R)
  else if negb Wait then (Refused, R)
  else if negb (ExclusiveWaiters R) then (Goes AllocatingEvent, R)
  else (Goes EnteringExclusive,
        R <| NumberOfExclusiveWaiters := u16 (NumberOfExclusiveWaiters R + 1) |>).

(** The second section of the long path; then the routine calls itself. *)
Definition allocate_event (R : ERESOURCE) : section_end * ERESOURCE :=
  (Goes CallingExclusive, R <| ExclusiveWaiters := true |>).

Definition ExTryToAcquireResourceExclusiveLite (CurrentThread : Z) (R : ERESOURCE) :
    section_end * ERESOURCE :=
  if ActiveCount R =? 0 then (Acquired true, grant_exclusive CurrentThread R)
  else if owned_by CurrentThread R then (Acquired true, enter_again R)
  else (Refused, R).

(** The first level; that of [ExAcquireSharedStarveExclusive] is the same. *)
Definition ExAcquireResourceSharedLite (starve : bool) (CurrentThread : Z) (Wait : bool)
    (R : ERESOURCE) : section_end * ERESOURCE :=
  if ActiveCount R =? 0 then (Acquired false, grant_shared CurrentThread R)
  else if owned_by CurrentThread R then (Acquired false, enter_again R)
  else (Goes (CallingShared starve Wait), R).

Definition ExAcquireSharedStarveExclusive : Z → bool → ERESOURCE → section_end * ERESOURCE :=
  ExAcquireResourceSharedLite true.

(** The entry waits for shared access. *)
Definition wait_shared (OwnerEntry : POWNER_ENTRY) (CurrentThread : Z) (Wait : bool)
    (R : ERESOURCE) : option (section_end * ERESOURCE) :=
  if negb Wait then Some (Refused, R)
  else
    let R := R <| SharedWaiters := true |> in
    R ← set_owner OwnerEntry (mkOwner CurrentThread 1) R;
    Some (Goes (EnteringShared false),
          R <| NumberOfSharedWaiters := u16 (NumberOfSharedWaiters R + 1) |>).

(** The entry owns the resource shared: [Some] when the thread already does or may. *)
Definition join_shared (OwnerEntry : POWNER_ENTRY) (CurrentThread : Z) (may : bool)
    (R : ERESOURCE) : option (option ERESOURCE) :=
  e ← get_owner OwnerEntry R;
  if OwnerThread e =? CurrentThread then
    R ← set_owner OwnerEntry (mkOwner (OwnerThread e) (s16 (OwnerCount e + 1))) R; Some (Some R)
  else if may then
    R ← set_owner OwnerEntry (mkOwner CurrentThread 1) R;
    Some (Some (R <| ActiveCount := s16 (ActiveCount R + 1) |>))
  else Some None.

(** The second level, [ExpAcquireResourceSharedLite] and
    [ExpAcquireSharedStarveExclusive]: the latter does not look for exclusive
    waiters. *)
Definition ExpAcquireResourceSharedLite (starve : bool) (CurrentThread : Z) (Wait : bool)
    (R : ERESOURCE) : option (section_end * ERESOURCE) :=
  if ActiveCount R =? 0 then Some (Acquired false, grant_shared CurrentThread R)
  else if OwnedExclusive R then
    if OwnerThread (Owner0 R) =? CurrentThread then Some (Acquired false, enter_again R)
    else
      let '(OwnerEntry, R) := ExpFindCurrentThread R 0 in
      wait_shared OwnerEntry CurrentThread Wait R
  else
    let '(OwnerEntry, R) := ExpFindCurrentThread R CurrentThread in
    r ← join_shared OwnerEntry CurrentThread (starve || negb (IsExclusiveWaiting R)) R;
    match r with
    | Some R => Some (Acquired false, R)
    | None => wait_shared OwnerEntry CurrentThread Wait R
    end.

Definition ExpAcquireSharedStarveExclusive :
    Z → bool → ERESOURCE → option (section_end * ERESOURCE) := ExpAcquireResourceSharedLite true.

(** Waits for exclusive waiters without an owner entry, and then acquires. *)
Definition ExAcquireSharedWaitForExclusive (CurrentThread : Z) (Wait : bool) (R : ERESOURCE) :
    option (section_end * ERESOURCE) :=
  if ActiveCount R =? 0 then Some (Acquired false, grant_shared CurrentThread R)
  else if OwnedExclusive R then
    if OwnerThread (Owner0 R) =? CurrentThread then Some (Acquired false, enter_again R)
    else
      let '(OwnerEntry, R) := ExpFindCurrentThread R 0 in
      wait_shared OwnerEntry CurrentThread Wait R
  else if IsExclusiveWaiting R then
    if negb Wait then Some (Refused, R)
    else Some (Goes (EnteringShared true),
               R <| SharedWaiters := true |>
                 <| NumberOfSharedWaiters := u16 (NumberOfSharedWaiters R + 1) |>)
  else
    let '(OwnerEntry, R) := ExpFindCurrentThread R CurrentThread in
    r ← join_shared OwnerEntry CurrentThread true R;
    match r with Some R => Some (Acquired false, R) | None => None end.

(** ** Releasing *)

(** The search of the release: the entry after the table if there is none. *)
Fixpoint scan_release (CurrentThread : Z) (i : nat) (l : list OWNER_ENTRY) : POWNER_ENTRY :=
  match l with
  | [] => InTable i
  | e :: l =>
      if OwnerThread e =? CurrentThread then InTable i else scan_release CurrentThread (S i) l
  end.

Definition find_release (CurrentThread : Z) (R : ERESOURCE) : POWNER_ENTRY :=
  if OwnerThread (Owner0 R) =? CurrentThread then Entry0
  else if OwnerThread (Owner1 R) =? CurrentThread then Entry1
  else scan_release CurrentThread 0 (take (Z.to_nat (TableSize R)) (OwnerTable R)).

(** The resource passes to the waiters when the last owner leaves. *)
Definition pass_on (R : ERESOURCE) : section_end * ERESOURCE :=
  let ExclusiveAccess := OwnedExclusive R in
  let R := R <| OwnedExclusive := false |> in
  if (negb ExclusiveAccess || negb (IsSharedWaiting R)) && IsExclusiveWaiting R then
    (Goes SettingEvent,
     R <| OwnedExclusive := true |> <| Owner0 := mkOwner 1 1 |> <| ActiveCount := 1 |>
       <| NumberOfExclusiveWaiters := u16 (NumberOfExclusiveWaiters R - 1) |>)
  else if IsSharedWaiting R then
    let Number := NumberOfSharedWaiters R in
    (Goes (ReleasingShared Number),
     R <| ActiveCount := s16 Number |> <| NumberOfSharedWaiters := 0 |>)
  else (Released, R).

Definition ExReleaseResourceForThreadLite (CurrentThread : Z) (R : ERESOURCE) :
    option (section_end * ERESOURCE) :=
  let OwnerEntry := find_release CurrentThread R in
  e ← get_owner OwnerEntry R;
  let count := s16 (OwnerCount e - 1) in
  if negb (count =? 0) then
    R ← set_owner OwnerEntry (mkOwner (OwnerThread e) count) R; Some (Released, R)
  else
    R ← set_owner OwnerEntry (mkOwner 0 count) R;
    let R := R <| ActiveCount := s16 (ActiveCount R - 1) |> in
    Some (if ActiveCount R =? 0 then pass_on R else (Released, R)).

Definition ExConvertExclusiveToSharedLite (R : ERESOURCE) : section_end * ERESOURCE :=
  let R := R <| OwnedExclusive := false |> in
  if IsSharedWaiting R then
    let Number := NumberOfSharedWaiters R in
    (Goes (ReleasingShared Number),
     R <| ActiveCount := s16 (ActiveCount R + s16 Number) |> <| NumberOfSharedWaiters := 0 |>)
  else (Released, R).

(** ** Queries *)

Definition ExGetExclusiveWaiterCount (R : ERESOURCE) : Z := NumberOfExclusiveWaiters R.
Definition ExGetSharedWaiterCount (R : ERESOURCE) : Z := NumberOfSharedWaiters R.
Definition ExIsResourceAcquiredExclusiveLite (CurrentThread : Z) (R : ERESOURCE) : bool :=
  owned_by CurrentThread R.

Fixpoint scan_count (CurrentThread : Z) (l : list OWNER_ENTRY) : Z :=
  match l with
  | [] => 0
  | e :: l => if OwnerThread e =? CurrentThread then u16 (OwnerCount e) else scan_count CurrentThread l
  end.

Definition ExIsResourceAcquiredSharedLite (CurrentThread : Z) (R : ERESOURCE) : Z :=
  if OwnerThread (Owner0 R) =? CurrentThread then u16 (OwnerCount (Owner0 R))
  else if OwnerThread (Owner1 R) =? CurrentThread then u16 (OwnerCount (Owner1 R))
  else scan_count CurrentThread (take (Z.to_nat (TableSize R)) (OwnerTable R)).
