(* ===== verification/ResourceSys.v ===== *)
(** * Threads that share a resource

    The system of a resource, the event and the semaphore of its waiters, and the
    threads that call its routines. A step is one section of a routine, or one call
    of the dispatcher: [KeWaitForSingleObject], [KeSetEventBoostPriority] or
    [KeReleaseSemaphore] ([KE/WAIT.C], [KE/EVENTOBJ.C], [KE/SEMPHOBJ.C]), or a wait
    that times out and is repeated by [ExpWaitForResource]. *)

From stdpp Require Import base list numbers option gmap.
From S2P Require Import Prelude Resource.

(** A thread: where it is, how often it has acquired and not released the resource,
    and whether for exclusive access. *)
Record THREAD := mkThread { State : pc; Holds : Z; HoldsExclusive : bool }.

Record SYSTEM := mkSystem
  { Lock : ERESOURCE; EventSignaled : bool; EventWaiters : list Z;
    SemaphoreCount : Z; SemaphoreWaiters : list Z; Threads : gmap Z THREAD }.

#[export] Instance THREAD_eta : Eta THREAD := λ r, mkThread (State r) (Holds r) (HoldsExclusive r).
#[export] Instance SYSTEM_eta : Eta SYSTEM :=
  λ r, mkSystem (Lock r) (EventSignaled r) (EventWaiters r) (SemaphoreCount r)
         (SemaphoreWaiters r) (Threads r).

Definition put_thread (t : Z) (th : THREAD) (s : SYSTEM) : SYSTEM :=
  s <| Threads := <[t := th]> (Threads s) |>.

(** The routine returns [TRUE] to the thread. *)
Definition acquire (exclusive : bool) (th : THREAD) : THREAD :=
  mkThread Idle (Holds th + 1) (HoldsExclusive th || exclusive).

Definition goes (next : pc) (th : THREAD) : THREAD := th <| State := next |>.

(** The end of a section of thread [t]. *)
Definition section (t : Z) (r : section_end * ERESOURCE) (s : SYSTEM) : option SYSTEM :=
  th ← Threads s !! t;
  Some (put_thread t
    match r.1 with
    | Acquired exclusive => acquire exclusive th
    | Refused | Released => goes Idle th
    | Goes next => goes next th
    end (s <| Lock := r.2 |>)).

(** ** Calls *)

Inductive call :=
  | AcquireExclusive (Wait : bool)
  | TryToAcquireExclusive
  | AcquireShared (Wait : bool)
  | AcquireSharedStarveExclusive (Wait : bool)
  | AcquireSharedWaitForExclusive (Wait : bool)
  | ReleaseForThread (owner : Z)
  | ConvertExclusiveToShared.

(** The thread has one acquisition less. *)
Definition release (th : THREAD) : THREAD :=
  mkThread (State th) (Holds th - 1) (HoldsExclusive th && negb (Holds th =? 1)).

Definition do_call (t : Z) (c : call) (s : SYSTEM) : option SYSTEM :=
  let R := Lock s in
  match c with
  | AcquireExclusive Wait => section t (ExAcquireResourceExclusiveLite t Wait R) s
  | TryToAcquireExclusive => section t (ExTryToAcquireResourceExclusiveLite t R) s
  | AcquireShared Wait => section t (ExAcquireResourceSharedLite false t Wait R) s
  | AcquireSharedStarveExclusive Wait => section t (ExAcquireSharedStarveExclusive t Wait R) s
  | AcquireSharedWaitForExclusive Wait => r ← ExAcquireSharedWaitForExclusive t Wait R; section t r s
  | ReleaseForThread u =>
      r ← ExReleaseResourceForThreadLite u R;
      th ← Threads s !! u;
      section t r (put_thread u (release th) s)
  | ConvertExclusiveToShared =>
      th ← Threads s !! t;
      section t (ExConvertExclusiveToSharedLite R) (put_thread t (th <| HoldsExclusive := false |>) s)
  end.

(** ** Dispatcher calls *)

(** A satisfied wait for the semaphore: [TRUE], or the second acquisition of
    [ExAcquireSharedWaitForExclusive]. *)
Definition shared_wait_over (again : bool) (th : THREAD) : THREAD :=
  if again then goes (CallingShared false true) th else acquire false th.

(** [KeReleaseSemaphore]: the waiters are satisfied in order while the count lasts. *)
Fixpoint wake_shared (n : nat) (s : SYSTEM) : option SYSTEM :=
  match n with
  | O => Some s
  | S n =>
      match SemaphoreWaiters s with
      | [] => Some s
      | w :: ws =>
          if SemaphoreCount s =? 0 then Some s
          else
            th ← Threads s !! w;
            match State th with
            | BlockedShared again =>
                wake_shared n (put_thread w (shared_wait_over again th)
                  (s <| SemaphoreWaiters := ws |> <| SemaphoreCount := SemaphoreCount s - 1 |>))
            | _ => None
            end
      end
  end.

(** [KeReleaseSemaphore] of the shared waiters. *)
Definition release_waiters (Number : Z) (s : SYSTEM) : option SYSTEM :=
  wake_shared (length (SemaphoreWaiters s)) (s <| SemaphoreCount := SemaphoreCount s + Number |>).

(** [KeSetEventBoostPriority]: the event is set, or the first waiter is satisfied and
    stored as the owner. *)
Definition set_event_boost (s : SYSTEM) : option SYSTEM :=
  match EventWaiters s with
  | [] => Some (s <| EventSignaled := true |>)
  | w :: ws =>
      wth ← Threads s !! w;
      let R := Lock s in
      Some (put_thread w (goes GrantedExclusive wth)
        (s <| EventWaiters := ws |>
           <| Lock := R <| Owner0 := mkOwner w (OwnerCount (Owner0 R)) |> |>))
  end.

(** [KeWaitForSingleObject] for the event and for the semaphore, in
    [ExpWaitForResource]. *)
Definition wait_event (t : Z) (th : THREAD) (s : SYSTEM) : SYSTEM :=
  if EventSignaled s then put_thread t (goes GrantedExclusive th) (s <| EventSignaled := false |>)
  else put_thread t (goes BlockedExclusive th) (s <| EventWaiters := EventWaiters s ++ [t] |>).

Definition wait_semaphore (t : Z) (th : THREAD) (again : bool) (s : SYSTEM) : SYSTEM :=
  if 0 <? SemaphoreCount s
  then put_thread t (shared_wait_over again th) (s <| SemaphoreCount := SemaphoreCount s - 1 |>)
  else put_thread t (goes (BlockedShared again) th) (s <| SemaphoreWaiters := SemaphoreWaiters s ++ [t] |>).

(** The end of [ExAcquireResourceExclusiveLite]: the thread stores itself as the owner. *)
Definition take_ownership (t : Z) (R : ERESOURCE) : ERESOURCE :=
  R <| Owner0 := mkOwner t (OwnerCount (Owner0 R)) |>.

(** The thread goes on after its section. *)
Definition continue (t : Z) (s : SYSTEM) : option SYSTEM :=
  th ← Threads s !! t;
  match State th with
  | AllocatingEvent => section t (allocate_event (Lock s)) s
  | CallingExclusive => section t (ExAcquireResourceExclusiveLite t true (Lock s)) s
  | CallingShared starve Wait =>
      r ← if starve then ExpAcquireSharedStarveExclusive t Wait (Lock s)
          else ExpAcquireResourceSharedLite false t Wait (Lock s);
      section t r s
  | EnteringExclusive => Some (wait_event t th s)
  | GrantedExclusive => Some (put_thread t (acquire true th) (s <| Lock := take_ownership t (Lock s) |>))
  | EnteringShared again => Some (wait_semaphore t th again s)
  | SettingEvent => set_event_boost (put_thread t (goes Idle th) s)
  | ReleasingShared Number => release_waiters Number (put_thread t (goes Idle th) s)
  | Idle | BlockedExclusive | BlockedShared _ => None
  end.

(** The wait of a blocked thread times out; [ExpWaitForResource] waits again. *)
Definition timeout (t : Z) (s : SYSTEM) : option SYSTEM :=
  th ← Threads s !! t;
  match State th with
  | BlockedExclusive =>
      Some (put_thread t (goes EnteringExclusive th)
        (s <| EventWaiters := filter (λ u, u ≠ t) (EventWaiters s) |>))
  | BlockedShared again =>
      Some (put_thread t (goes (EnteringShared again) th)
        (s <| SemaphoreWaiters := filter (λ u, u ≠ t) (SemaphoreWaiters s) |>))
  | _ => None
  end.

(** ** Runs *)

Inductive action := Call (t : Z) (c : call) | Continue (t : Z) | Timeout (t : Z).

Definition do_action (a : action) (s : SYSTEM) : option SYSTEM :=
  match a with
  | Call t c => do_call t c s
  | Continue t => continue t s
  | Timeout t => timeout t s
  end.

(** A thread that may act, and may act so: it calls when it is not in a call, it
    releases what is held and converts what it holds, and it does not count past a
    [SHORT]. *)
Definition action_ok (s : SYSTEM) (a : action) : Prop :=
  match a with
  | Call t c =>
      ∃ th, Threads s !! t = Some th ∧ State th = Idle ∧
        match c with
        | ReleaseForThread u => ∃ th', Threads s !! u = Some th' ∧ 0 < Holds th'
        | ConvertExclusiveToShared => HoldsExclusive th = true
        | _ => Holds th < 2 ^ 15 - 1
        end
  | Continue t =>
      ∃ th, Threads s !! t = Some th ∧
        match State th with Idle | BlockedExclusive | BlockedShared _ => False | _ => True end
  | Timeout t =>
      ∃ th, Threads s !! t = Some th ∧
        match State th with BlockedExclusive | BlockedShared _ => True | _ => False end
  end.

(** No thread asks to wait for exclusive owners while it has no owner entry. *)
Definition no_wait_for_exclusive (a : action) : Prop :=
  match a with Call _ (AcquireSharedWaitForExclusive true) => False | _ => True end.

(** Threads that are not in a call. A thread is a pointer above 1; fewer than 2^15. *)
Definition idle_threads (n : nat) : gmap Z THREAD :=
  list_to_map ((λ t, (t, mkThread Idle 0 false)) <$> seqZ 2 (Z.of_nat n)).

Definition initial (n : nat) : SYSTEM :=
  mkSystem ExInitializeResourceLite false [] 0 [] (idle_threads n).

Inductive reachable (ok : action → Prop) (n : nat) : SYSTEM → Prop :=
  | reach_initial : reachable ok n (initial n)
  | reach_step s a s' :
      reachable ok n s → action_ok s a → ok a → do_action a s = Some s' → reachable ok n s'.
