(* ===== verification/ResourceInv.v ===== *)
(** * The invariant of a system of threads that share a resource

    What holds between any two steps: how the counts of the resource relate to the
    numbers of threads that hold it, wait for it, or have been granted it and not
    yet been told, and which owner entries there are. *)

From stdpp Require Import base list list_tactics numbers option gmap fin_maps.
From S2P Require Import Prelude Resource ResourceSys.

(** ** Sums over threads *)

Definition total (f : THREAD → Z) (m : gmap Z THREAD) : Z := map_fold (λ _ th acc, f th + acc) 0 m.

Section total.
Context (f : THREAD → Z) (m : gmap Z THREAD).

Lemma total_new t th : m !! t = None → total f (<[t := th]> m) = f th + total f m.
Proof. intros Hn. unfold total. rewrite map_fold_insert_L; [done|intros; lia|done]. Qed.

Lemma total_insert t th th' :
  m !! t = Some th → total f (<[t := th']> m) = total f m - f th + f th'.
Proof.
  intros Ht. unfold total. rewrite <- (insert_delete_eq m t th').
  rewrite map_fold_insert_L; [|intros; lia|apply lookup_delete_eq].
  rewrite (map_fold_delete_L _ _ t th m); [lia|intros; lia|done].
Qed.

End total.

Lemma total_ind (P : Z → gmap Z THREAD → Prop) f :
  P 0 ∅ → (∀ t th m, m !! t = None → P (total f m) m → P (f th + total f m) (<[t := th]> m)) →
  ∀ m, P (total f m) m.
Proof.
  intros H0 Hs. apply map_ind; [exact H0|]. intros t th m Hn IH. rewrite total_new by done. by apply Hs.
Qed.

Lemma total_nonneg f m : (∀ th, 0 ≤ f th) → 0 ≤ total f m.
Proof.
  intros Hf. apply (total_ind (λ z _, 0 ≤ z)); [done|]. intros t th m' _ IH. specialize (Hf th). lia.
Qed.

(** Each thread is part of the sum. *)
Lemma total_ge f m t th : (∀ th, 0 ≤ f th) → m !! t = Some th → f th ≤ total f m.
Proof.
  intros Hf. revert t th.
  apply (total_ind (λ z m, ∀ t th, m !! t = Some th → f th ≤ z)); [done|].
  intros u thu m' Hn IH t th. pose proof (Hf thu). pose proof (total_nonneg f m' Hf).
  destruct (decide (t = u)) as [->|].
  - rewrite lookup_insert_eq. intros [= <-]. lia.
  - rewrite lookup_insert_ne by done. intros Ht. specialize (IH _ _ Ht). lia.
Qed.

(** A positive sum has a positive part. *)
Lemma total_pos f m : (∀ th, 0 ≤ f th) → 0 < total f m → ∃ t th, m !! t = Some th ∧ 0 < f th.
Proof.
  intros Hf. apply (total_ind (λ z m, 0 < z → ∃ t th, m !! t = Some th ∧ 0 < f th)); [lia|].
  intros t th m' Hn IH Hp. destruct (decide (0 < f th)).
  - exists t, th. by rewrite lookup_insert_eq.
  - destruct IH as (u & th' & Hu & Hp'); [specialize (Hf th); lia|]. exists u, th'.
    rewrite lookup_insert_ne; [done|congruence].
Qed.

Lemma total_bound f m : (∀ th, f th ≤ 1) → total f m ≤ Z.of_nat (size m).
Proof.
  intros Hf. apply (total_ind (λ z m, z ≤ Z.of_nat (size m))); [by rewrite map_size_empty|].
  intros t th m' Hn IH. rewrite map_size_insert_None by done. specialize (Hf th). lia.
Qed.

Lemma total_plus f g m : total (λ th, f th + g th) m = total f m + total g m.
Proof.
  apply (map_ind (λ m, total (λ th, f th + g th) m = total f m + total g m)); [done|].
  intros t th m' Hn IH. rewrite !total_new by done. lia.
Qed.

(** ** What threads count as *)

Definition waits_exclusive (th : THREAD) : Z :=
  match State th with EnteringExclusive | BlockedExclusive => 1 | _ => 0 end.
Definition granted (th : THREAD) : Z := match State th with GrantedExclusive => 1 | _ => 0 end.
Definition sets_event (th : THREAD) : Z := match State th with SettingEvent => 1 | _ => 0 end.
Definition waits_shared (th : THREAD) : Z :=
  match State th with EnteringShared _ | BlockedShared _ => 1 | _ => 0 end.
Definition releases (th : THREAD) : Z := match State th with ReleasingShared n => Z.max 0 n | _ => 0 end.
Definition holds (th : THREAD) : Z := if 0 <? Holds th then 1 else 0.

(** The count of the owner entry of a thread; 0 for none. *)
Definition entry_count (th : THREAD) : Z := if 0 <? Holds th then Holds th else waits_shared th.

(** Grants of shared access that threads have not been told of. *)
Definition shared_grants (count : Z) (m : gmap Z THREAD) : Z := count + total releases m.

(** The pending grant of exclusive access, before the wakeup. *)
Definition exclusive_grants (signaled : bool) (m : gmap Z THREAD) : Z :=
  (if signaled then 1 else 0) + total sets_event m.

(** ** Owner entries *)

(** The entries that threads own: not the one of a pending exclusive grant. *)
Definition entries (handoff : bool) (R : ERESOURCE) : list OWNER_ENTRY :=
  (if handoff then mkOwner 0 0 else Owner0 R) :: Owner1 R :: OwnerTable R.

Record entries_ok (E : list OWNER_ENTRY) (m : gmap Z THREAD) : Prop := {
  eo_thread i e : E !! i = Some e → OwnerThread e ≠ 0 →
    ∃ th, m !! OwnerThread e = Some th ∧ entry_count th = OwnerCount e ∧ 0 < OwnerCount e ∧
      (i = 0%nat → 0 < Holds th);
  eo_entry t th : m !! t = Some th → 0 < entry_count th → ∃ i, E !! i = Some (mkOwner t (entry_count th));
  eo_unique i j e e' : E !! i = Some e → E !! j = Some e' → OwnerThread e = OwnerThread e' →
    OwnerThread e ≠ 0 → i = j
}.

(** ** Modes *)

Inductive mode := SharedMode | OwnedMode (t : Z) | HandoffMode.

Definition mode_ok (md : mode) (R : ERESOURCE) (signaled : bool) (count : Z) (m : gmap Z THREAD) :
    Prop :=
  match md with
  | SharedMode =>
      OwnedExclusive R = false ∧ ActiveCount R = total holds m + shared_grants count m ∧
      total waits_shared m = NumberOfSharedWaiters R + shared_grants count m ∧
      total waits_exclusive m = NumberOfExclusiveWaiters R ∧
      exclusive_grants signaled m = 0 ∧ total granted m = 0 ∧
      (ActiveCount R = 0 → NumberOfSharedWaiters R = 0 ∧ NumberOfExclusiveWaiters R = 0) ∧
      (∀ t th, m !! t = Some th → HoldsExclusive th = false)
  | OwnedMode t =>
      OwnedExclusive R = true ∧ ActiveCount R = 1 ∧ shared_grants count m = 0 ∧
      total waits_shared m = NumberOfSharedWaiters R ∧
      total waits_exclusive m = NumberOfExclusiveWaiters R ∧
      exclusive_grants signaled m = 0 ∧ total granted m = 0 ∧ total holds m = 1 ∧
      ∃ th, m !! t = Some th ∧ 0 < Holds th ∧ HoldsExclusive th = true ∧ Owner0 R = mkOwner t (Holds th)
  | HandoffMode =>
      OwnedExclusive R = true ∧ ActiveCount R = 1 ∧ shared_grants count m = 0 ∧
      total waits_shared m = NumberOfSharedWaiters R ∧
      total waits_exclusive m = NumberOfExclusiveWaiters R + exclusive_grants signaled m ∧
      exclusive_grants signaled m + total granted m = 1 ∧ total holds m = 0 ∧ OwnerCount (Owner0 R) = 1 ∧
      (OwnerThread (Owner0 R) = 1 ∨
       ∃ th, m !! OwnerThread (Owner0 R) = Some th ∧ State th = GrantedExclusive)
  end.

Definition handoff (md : mode) : bool := match md with HandoffMode => true | _ => false end.

(** The thread may still find that it is an owner. *)
Definition acquiring (p : pc) : Prop :=
  match p with AllocatingEvent | CallingExclusive | CallingShared _ _ => True | _ => False end.

Record thread_ok (t : Z) (th : THREAD) : Prop := {
  to_pointer : 2 ≤ t;
  to_holds : 0 ≤ Holds th < 2 ^ 15;
  to_exclusive : HoldsExclusive th = true → 0 < Holds th;
  to_waiting : 0 < waits_shared th → Holds th = 0;
  to_again : State th ≠ EnteringShared true ∧ State th ≠ BlockedShared true;
  to_releasing n : State th = ReleasingShared n → 0 < n;
  to_room : acquiring (State th) → Holds th < 2 ^ 15 - 1
}.

(** The queues; [settled] when no wakeup is under way. *)
Record queues_ok (settled : bool) (s : SYSTEM) : Prop := {
  q_event_nodup : NoDup (EventWaiters s);
  q_event t : t ∈ EventWaiters s ↔ ∃ th, Threads s !! t = Some th ∧ State th = BlockedExclusive;
  q_signaled : settled = true → EventSignaled s = true → EventWaiters s = [];
  q_sem_nodup : NoDup (SemaphoreWaiters s);
  q_sem t : t ∈ SemaphoreWaiters s ↔ ∃ th a, Threads s !! t = Some th ∧ State th = BlockedShared a;
  q_count : 0 ≤ SemaphoreCount s;
  q_available : settled = true → 0 < SemaphoreCount s → SemaphoreWaiters s = []
}.

Record inv_at (settled : bool) (md : mode) (s : SYSTEM) : Prop := {
  in_mode : mode_ok md (Lock s) (EventSignaled s) (SemaphoreCount s) (Threads s);
  in_threads t th : Threads s !! t = Some th → thread_ok t th;
  in_size : Z.of_nat (size (Threads s)) < 2 ^ 15;
  in_queues : queues_ok settled s;
  in_entries : entries_ok (entries (handoff md) (Lock s)) (Threads s);
  in_table : zlen (OwnerTable (Lock s)) < 2 ^ 16;
  in_counts : 0 ≤ NumberOfSharedWaiters (Lock s) ∧ 0 ≤ NumberOfExclusiveWaiters (Lock s)
}.

Arguments in_mode {_} _ _ _.
Arguments in_threads {_} _ _ _ _ _ _.
Arguments in_size {_} _ _ _.
Arguments in_queues {_} _ _ _.
Arguments in_entries {_} _ _ _.
Arguments in_table {_} _ _ _.
Arguments in_counts {_} _ _ _.
Arguments q_count {_} _ _.

Abbreviation inv_in := (inv_at true).

Definition inv (s : SYSTEM) : Prop := ∃ md, inv_in md s.
