(* ===== verification/ResourceOk.v ===== *)
(** * Owner entries, and steps that keep the invariant

    Searching, taking and leaving entries, and the relation between entries and
    threads. *)

From stdpp Require Import base list list_tactics numbers option gmap fin_maps.
From S2P Require Import Prelude Resource ResourceSys ResourceInv.

(** ** Pointers and lists *)

Definition index (p : POWNER_ENTRY) : nat :=
  match p with Entry0 => 0%nat | Entry1 => 1%nat | InTable i => S (S i) end.

(** The pointer does not refer to the entry of a pending grant. *)
Definition visible (h : bool) (p : POWNER_ENTRY) : Prop := p = Entry0 → h = false.

Lemma get_owner_entries h p R : visible h p → get_owner p R = entries h R !! index p.
Proof. intros Hv. destruct p; simpl; [by rewrite Hv|done|done]. Qed.

(** Everything but the owner entries is the same. *)
Definition same_state (R R' : ERESOURCE) : Prop :=
  ActiveCount R' = ActiveCount R ∧ OwnedExclusive R' = OwnedExclusive R ∧
  NumberOfSharedWaiters R' = NumberOfSharedWaiters R ∧
  NumberOfExclusiveWaiters R' = NumberOfExclusiveWaiters R.

#[export] Instance same_state_po : PreOrder same_state.
Proof. split; unfold same_state; [done|]. intros R1 R2 R3. intuition congruence. Qed.

Lemma set_owner_ok h p e e' R :
  visible h p → get_owner p R = Some e →
  ∃ R', set_owner p e' R = Some R' ∧ same_state R R' ∧
    entries h R' = <[index p := e']> (entries h R) ∧
    length (OwnerTable R') = length (OwnerTable R) ∧ (p ≠ Entry0 → Owner0 R' = Owner0 R).
Proof.
  intros Hv He. destruct p as [| |i]; simpl in *.
  - rewrite Hv by done. by eexists.
  - by eexists.
  - apply lookup_lt_Some in He as Hlt. rewrite decide_True by done. eexists. split; [done|].
    split; [done|]. split; [done|]. split; [|done]. simpl. by rewrite length_insert.
Qed.

(** ** Searching *)

Lemma scan_table_ok t l : ∀ i free,
  match scan_table t i l free with
  | inl p => ∃ j e, p = InTable (i + j) ∧ l !! j = Some e ∧ OwnerThread e = t
  | inr f => (∀ e, e ∈ l → OwnerThread e ≠ t) ∧
      (f = free ∧ (∀ e, e ∈ l → OwnerThread e ≠ 0) ∨
       ∃ j e, f = Some (InTable (i + j)) ∧ l !! j = Some e ∧ OwnerThread e = 0)
  end.
Proof.
  induction l as [|e l IH]; intros i free; simpl.
  { split; [by intros e ?%elem_of_nil|]. left. split; [done|]. by intros e ?%elem_of_nil. }
  destruct (Z.eqb_spec (OwnerThread e) t) as [Ht|Ht].
  { exists 0%nat, e. by rewrite Nat.add_0_r. }
  specialize (IH (S i) (if OwnerThread e =? 0 then Some (InTable i) else free)).
  destruct (scan_table t (S i) l _) as [p|f].
  - destruct IH as (j & e' & -> & Hj & He). exists (S j), e'. split; [f_equal; lia|done].
  - destruct IH as [Hno Hf]. split; [intros e'; rewrite elem_of_cons; intros [->|]; auto|].
    destruct Hf as [[-> Hnz]|(j & e' & -> & Hj & He)].
    + destruct (Z.eqb_spec (OwnerThread e) 0) as [H0|H0].
      * right. exists 0%nat, e. by rewrite Nat.add_0_r.
      * left. split; [done|]. intros e'. rewrite elem_of_cons. intros [->|]; auto.
    + right. exists (S j), e'. split; [do 2 f_equal; lia|done].
Qed.

Lemma whole_table R : zlen (OwnerTable R) < 2 ^ 16 →
  take (Z.to_nat (TableSize R)) (OwnerTable R) = OwnerTable R ∧
  Z.to_nat (TableSize R) = length (OwnerTable R).
Proof.
  intros Hl. unfold TableSize, u16, zlen in *. rewrite Z.mod_small by lia. rewrite Nat2Z.id.
  split; [|done]. by apply take_ge.
Qed.

(** The result of a search: the entry of the thread, or a free one if it has none;
    the table grows only when it is full. *)
Lemma ExpFindCurrentThread_ok R t :
  zlen (OwnerTable R) < 2 ^ 16 →
  let '(p, R') := ExpFindCurrentThread R t in
  ∃ k e, same_state R R' ∧ Owner0 R' = Owner0 R ∧ Owner1 R' = Owner1 R ∧
    OwnerTable R' = OwnerTable R ++ replicate k (mkOwner 0 0) ∧ (k ≤ 4)%nat ∧
    get_owner p R' = Some e ∧ (p = Entry0 → OwnerThread (Owner0 R) = t) ∧
    (OwnerThread e = t ∨ OwnerThread e = 0 ∧ ∀ e, e ∈ entries false R → OwnerThread e ≠ t) ∧
    ((0 < k)%nat → ∀ e, e ∈ OwnerTable R → OwnerThread e ≠ 0).
Proof.
  intros Hl. destruct (whole_table R Hl) as [Htake Hsize]. unfold ExpFindCurrentThread.
  assert (Hself : OwnerTable R = OwnerTable R ++ replicate 0 (mkOwner 0 0)) by (by rewrite app_nil_r).
  destruct (Z.eqb_spec (OwnerThread (Owner0 R)) t) as [H0|H0].
  { exists 0%nat, (Owner0 R). split_and!; try done; [lia|by left|lia]. }
  destruct (Z.eqb_spec (OwnerThread (Owner1 R)) t) as [H1|H1].
  { exists 0%nat, (Owner1 R). split_and!; try done; [lia|by left|lia]. }
  rewrite Htake, Hsize.
  pose proof (scan_table_ok t (OwnerTable R) 0 (if OwnerThread (Owner1 R) =? 0 then Some Entry1 else None)) as Hs.
  destruct (scan_table _ _ _ _) as [p|[p|]].
  - destruct Hs as (j & e & -> & Hj & He). exists 0%nat, e. split_and!; try done; [lia|by left|lia].
  - destruct Hs as [Hno Hf]. assert (Hnone : ∀ e, e ∈ entries false R → OwnerThread e ≠ t).
    { intros e. unfold entries. rewrite !elem_of_cons. intros [->|[->|]]; auto. }
    destruct Hf as [[Hf _]|(j & e & Hf & Hj & He)].
    + destruct (Z.eqb_spec (OwnerThread (Owner1 R)) 0); [|done]. injection Hf as ->.
      exists 0%nat, (Owner1 R). split_and!; try done; [lia|by right|lia].
    + injection Hf as ->. exists 0%nat, e. split_and!; try done; [lia|by right|lia].
  - destruct Hs as [Hno Hf]. assert (Hnone : ∀ e, e ∈ entries false R → OwnerThread e ≠ t).
    { intros e. unfold entries. rewrite !elem_of_cons. intros [->|[->|]]; auto. }
    destruct Hf as [[Hf Hfull]|(j & e & Hf & _)]; [|done].
    set (k := ((if decide (length (OwnerTable R) = 0) then 3 else length (OwnerTable R) + 4) -
      length (OwnerTable R))%nat).
    assert (Hk : (0 < k ≤ 4)%nat) by (unfold k; destruct (decide _); lia).
    exists k, (mkOwner 0 0). split_and!; try done; [lia| |by right].
    simpl. rewrite lookup_app_r by lia. rewrite Nat.sub_diag. apply lookup_replicate. by split; [|lia].
Qed.

(** ** Entries and threads *)

Section entries.
Context (E : list OWNER_ENTRY) (m : gmap Z THREAD) (t : Z) (th th' : THREAD).
Hypothesis HE : entries_ok E m.
Hypothesis Ht : m !! t = Some th.
Hypothesis Hnull : m !! 0 = None.

(** A thread whose entry stays. *)
Lemma eo_same :
  entry_count th' = entry_count th → (0 < Holds th → 0 < Holds th') →
  entries_ok E (<[t := th']> m).
Proof using HE Ht.
  intros Hc Hh. split.
  - intros i e He H0. destruct (eo_thread _ _ HE i e He H0) as (tho & Hm & Hcnt & Hpos & Hz).
    destruct (decide (OwnerThread e = t)) as [Heq|].
    + exists th'. rewrite Heq in *. rewrite Ht in Hm. apply (inj Some) in Hm as ->.
      rewrite lookup_insert_eq. split; [done|]. split; [congruence|]. auto.
    + exists tho. by rewrite lookup_insert_ne by done.
  - intros u thu. destruct (decide (u = t)) as [->|].
    + rewrite lookup_insert_eq. intros [= <-]. rewrite Hc. apply (eo_entry _ _ HE _ _ Ht).
    + rewrite lookup_insert_ne by done. apply HE.
  - apply HE.
Qed.

(** A thread takes a free entry, or changes the count of its own. *)
Lemma eo_take i e :
  E !! i = Some e → t ≠ 0 → OwnerThread e = t ∨ OwnerThread e = 0 ∧ entry_count th = 0 →
  0 < entry_count th' → (i = 0%nat → 0 < Holds th') →
  entries_ok (<[i := mkOwner t (entry_count th')]> E) (<[t := th']> m).
Proof using HE Ht Hnull.
  intros Hi Ht0 He Hpos Hz. apply lookup_lt_Some in Hi as Hlt.
  assert (Hother : ∀ j e', j ≠ i → E !! j = Some e' → OwnerThread e' ≠ t).
  { intros j e' Hj He' Heq. destruct He as [He|[He Hnone]].
    - apply Hj. apply (eo_unique _ _ HE j i e' e); congruence.
    - destruct (eo_thread _ _ HE j e' He') as (tho & Hm & Hcnt & Hp & _); [congruence|].
      rewrite Heq, Ht in Hm. apply (inj Some) in Hm as <-. lia. }
  split.
  - intros j e' Hj H0. destruct (decide (j = i)) as [->|Hne].
    + rewrite list_lookup_insert_eq in Hj by done. injection Hj as <-. simpl in *.
      exists th'. rewrite lookup_insert_eq. auto.
    + rewrite list_lookup_insert_ne in Hj by done. pose proof (Hother j e' Hne Hj).
      rewrite lookup_insert_ne by done. by apply (eo_thread _ _ HE).
  - intros u thu. destruct (decide (u = t)) as [->|Hne].
    + rewrite lookup_insert_eq. intros [= <-] _. exists i. by rewrite list_lookup_insert_eq.
    + rewrite lookup_insert_ne by done. intros Hu Hp. destruct (eo_entry _ _ HE u thu Hu Hp) as [j Hj].
      exists j. rewrite list_lookup_insert_ne; [done|]. intros ->. rewrite Hi in Hj.
      apply (inj Some) in Hj as ->. simpl in He. destruct He as [He|[He _]]; congruence.
  - intros j j' e1 e2 Hj Hj' Heq H0. destruct (decide (j = i)) as [->|Hne], (decide (j' = i)) as [->|Hne']; [done|..].
    + rewrite list_lookup_insert_eq in Hj by done. rewrite list_lookup_insert_ne in Hj' by done.
      injection Hj as <-. destruct (Hother _ _ Hne' Hj'). done.
    + rewrite list_lookup_insert_eq in Hj' by done. rewrite list_lookup_insert_ne in Hj by done.
      injection Hj' as <-. by destruct (Hother _ _ Hne Hj).
    + rewrite list_lookup_insert_ne in Hj, Hj' by done. by apply (eo_unique _ _ HE j j' e1 e2).
Qed.

(** A thread leaves its entry. *)
Lemma eo_leave i e c :
  E !! i = Some e → OwnerThread e = t → t ≠ 0 → entry_count th' = 0 →
  entries_ok (<[i := mkOwner 0 c]> E) (<[t := th']> m).
Proof using HE Ht Hnull.
  intros Hi He Ht0 Hc. apply lookup_lt_Some in Hi as Hlt.
  assert (Hother : ∀ j e', j ≠ i → E !! j = Some e' → OwnerThread e' ≠ t).
  { intros j e' Hj He' Heq. apply Hj. apply (eo_unique _ _ HE j i e' e); congruence. }
  split.
  - intros j e' Hj H0. destruct (decide (j = i)) as [->|Hne].
    + rewrite list_lookup_insert_eq in Hj by done. by injection Hj as <-.
    + rewrite list_lookup_insert_ne in Hj by done. pose proof (Hother j e' Hne Hj).
      rewrite lookup_insert_ne by done. by apply (eo_thread _ _ HE).
  - intros u thu. destruct (decide (u = t)) as [->|Hne].
    + rewrite lookup_insert_eq. intros [= <-]. lia.
    + rewrite lookup_insert_ne by done. intros Hu Hp. destruct (eo_entry _ _ HE u thu Hu Hp) as [j Hj].
      exists j. rewrite list_lookup_insert_ne; [done|]. intros ->. rewrite Hi in Hj.
      apply (inj Some) in Hj as ->. by simpl in He.
  - intros j j' e1 e2 Hj Hj' Heq H0. destruct (decide (j = i)) as [->|Hne].
    { rewrite list_lookup_insert_eq in Hj by done. by injection Hj as <-. }
    destruct (decide (j' = i)) as [->|Hne'].
    { rewrite list_lookup_insert_eq in Hj' by done. injection Hj' as <-. by rewrite Heq in H0. }
    rewrite list_lookup_insert_ne in Hj, Hj' by done. by apply (eo_unique _ _ HE j j' e1 e2).
Qed.

(** The entry of a thread, from any pointer to it. *)
Lemma eo_own i e : E !! i = Some e → OwnerThread e = t → t ≠ 0 → e = mkOwner t (entry_count th).
Proof using HE Ht Hnull.
  intros Hi He Ht0. destruct (eo_thread _ _ HE i e Hi) as (tho & Hm & Hc & _); [congruence|].
  rewrite He, Ht in Hm. apply (inj Some) in Hm as <-. destruct e. simpl in *. congruence.
Qed.
End entries.

Lemma eo_grow E m k : entries_ok E m → entries_ok (E ++ replicate k (mkOwner 0 0)) m.
Proof.
  intros HE. assert (Hin : ∀ i e, (E ++ replicate k (mkOwner 0 0)) !! i = Some e → OwnerThread e ≠ 0 →
    E !! i = Some e).
  { intros i e Hi H0. apply lookup_app_Some in Hi as [Hi|[_ Hi]]; [done|].
    apply lookup_replicate in Hi as [-> _]. done. }
  split.
  - intros i e Hi H0. by apply (eo_thread _ _ HE), H0; apply Hin.
  - intros t th Ht Hp. destruct (eo_entry _ _ HE t th Ht Hp) as [i Hi]. exists i.
    by apply lookup_app_l_Some.
  - intros i j e e' Hi Hj Heq H0. apply (eo_unique _ _ HE i j e e'); [by apply Hin|apply Hin; congruence|done|done].
Qed.

(** The entry of a pending grant appears or disappears without owners. *)
Lemma eo_first E m e :
  entries_ok E m → m !! 0 = None → OwnerThread e = 0 → (∀ e0, E !! 0%nat = Some e0 → OwnerThread e0 = 0) →
  entries_ok (<[0%nat := e]> E) m.
Proof.
  intros HE Hnull He H0. destruct E as [|e0 E]; [done|]. specialize (H0 e0 eq_refl). split.
  - intros [|i] e' Hi Hne; simpl in Hi; [congruence|]. apply (eo_thread _ _ HE (S i) e' Hi Hne).
  - intros t th Ht Hp. destruct (eo_entry _ _ HE t th Ht Hp) as [[|i] Hi]; [|by exists (S i)].
    injection Hi as ->. simpl in H0. congruence.
  - intros [|i] [|j] e1 e2 Hi Hj Heq Hne; simpl in Hi, Hj; try congruence.
    apply (eo_unique _ _ HE (S i) (S j) e1 e2); done.
Qed.

(** ** The sections of the resource routines keep the invariant *)

(** ** Counting *)

Ltac weigh :=
  unfold waits_exclusive, granted, sets_event, waits_shared, releases, holds, entry_count in *.

Lemma weights_nonneg th :
  0 ≤ waits_exclusive th ≤ 1 ∧ 0 ≤ granted th ≤ 1 ∧ 0 ≤ sets_event th ≤ 1 ∧
  0 ≤ waits_shared th ≤ 1 ∧ 0 ≤ releases th ∧ 0 ≤ holds th ≤ 1.
Proof. weigh. destruct (State th), (0 <? Holds th); lia. Qed.

(** All sums of the threads are not negative. *)
Lemma totals_nonneg m :
  0 ≤ total waits_exclusive m ∧ 0 ≤ total granted m ∧ 0 ≤ total sets_event m ∧
  0 ≤ total waits_shared m ∧ 0 ≤ total releases m ∧ 0 ≤ total holds m.
Proof. split_and!; apply total_nonneg; intros th; apply weights_nonneg. Qed.

Lemma totals_bound m :
  total waits_exclusive m ≤ Z.of_nat (size m) ∧ total holds m + total waits_shared m ≤ 2 * Z.of_nat (size m).
Proof.
  assert (total waits_exclusive m ≤ Z.of_nat (size m)) by (apply total_bound; intros th; apply weights_nonneg).
  assert (total holds m ≤ Z.of_nat (size m)) by (apply total_bound; intros th; apply weights_nonneg).
  assert (total waits_shared m ≤ Z.of_nat (size m)) by (apply total_bound; intros th; apply weights_nonneg). lia.
Qed.

(** A thread that waits for shared access holds nothing, so the holders and the
    shared waiters are at most all threads. *)
Lemma holders_and_waiters m :
  (∀ t th, m !! t = Some th → thread_ok t th) →
  total holds m + total waits_shared m ≤ Z.of_nat (size m).
Proof.
  apply (map_ind (λ m, (∀ t th, m !! t = Some th → thread_ok t th) →
    total holds m + total waits_shared m ≤ Z.of_nat (size m))); [done|].
  intros t th m' Hn IH Hok. rewrite !total_new by done.
  rewrite map_size_insert_None by done.
  assert (Hth : thread_ok t th) by (apply Hok; apply lookup_insert_eq).
  pose proof (to_waiting _ _ Hth). pose proof (weights_nonneg th).
  assert (holds th + waits_shared th ≤ 1).
  { unfold holds. destruct (Z.ltb_spec 0 (Holds th)); lia. }
  assert (total holds m' + total waits_shared m' ≤ Z.of_nat (size m')); [|lia].
  apply IH. intros u thu Hu. apply Hok. rewrite lookup_insert_ne; [done|congruence].
Qed.

(** Part of a sum. *)
Lemma holds_part m t th : m !! t = Some th → holds th ≤ total holds m.
Proof. apply total_ge. intros th'. apply weights_nonneg. Qed.
Lemma waits_shared_part m t th : m !! t = Some th → waits_shared th ≤ total waits_shared m.
Proof. apply total_ge. intros th'. apply weights_nonneg. Qed.
Lemma granted_part m t th : m !! t = Some th → granted th ≤ total granted m.
Proof. apply total_ge. intros th'. apply weights_nonneg. Qed.

(** When nobody holds the resource, nobody does. *)
Lemma no_holder m t th : total holds m = 0 → m !! t = Some th → Holds th ≤ 0.
Proof.
  intros H0 Ht. pose proof (holds_part m t th Ht). unfold holds in *.
  destruct (Z.ltb_spec 0 (Holds th)); lia.
Qed.

(** A full table has at most one entry per thread. *)
Lemma full_table h R m :
  entries_ok (entries h R) m → (∀ e, e ∈ OwnerTable R → OwnerThread e ≠ 0) →
  zlen (OwnerTable R) ≤ Z.of_nat (size m).
Proof.
  intros HE Hfull. unfold zlen. apply Nat2Z.inj_le.
  rewrite <- (length_fmap OwnerThread (OwnerTable R)).
  assert (Hnd : NoDup (OwnerThread <$> OwnerTable R)).
  { apply NoDup_alt. intros i j x Hi Hj.
    apply list_lookup_fmap_Some in Hi as (e & -> & Hi), Hj as (e' & Heq & Hj).
    assert (S (S i) = S (S j)); [|lia].
    apply (eo_unique _ _ HE _ _ e e'); [done|done|done|]. apply Hfull. by eapply list_elem_of_lookup_2. }
  rewrite <- (size_list_to_set (C := gset Z)) by done. rewrite <- size_dom. apply subseteq_size.
  intros x. rewrite elem_of_list_to_set, elem_of_dom. intros (e & -> & Hin)%list_elem_of_fmap.
  apply list_elem_of_lookup in Hin as Hl. destruct Hl as [i Hi].
  destruct (eo_thread _ _ HE (S (S i)) e Hi) as (th & Hm & _); [by apply Hfull|]. eauto.
Qed.

(** ** One thread moves *)

Definition blocked (th : THREAD) : bool :=
  match State th with BlockedExclusive | BlockedShared _ => true | _ => false end.

(** A thread between calls: it is in none of the counts but that of the holders. *)
Definition neutral (p : pc) : Prop :=
  match p with Idle | AllocatingEvent | CallingExclusive | CallingShared _ _ => True | _ => False end.

(** The thread is in the same queue, or in none. *)
Definition same_queue (th th' : THREAD) : Prop :=
  State th' = State th ∨ blocked th = false ∧ blocked th' = false.

Lemma queues_same b s s' t th th' :
  queues_ok b s → Threads s !! t = Some th → Threads s' = <[t := th']> (Threads s) →
  EventSignaled s' = EventSignaled s → EventWaiters s' = EventWaiters s →
  SemaphoreCount s' = SemaphoreCount s → SemaphoreWaiters s' = SemaphoreWaiters s →
  same_queue th th' → queues_ok b s'.
Proof.
  intros [H1 H2 H3 H4 H5 H6 H7] Ht HT He1 He2 Hs1 Hs2 Hq.
  assert (Hb : (State th' = BlockedExclusive ↔ State th = BlockedExclusive) ∧
    ∀ a, State th' = BlockedShared a ↔ State th = BlockedShared a).
  { destruct Hq as [->|[Hb Hb']]; [done|]. unfold blocked in *.
    split; [|intros a]; split; intros Heq; by rewrite Heq in *. }
  destruct Hb as [Hbe Hbs]. split; rewrite ?He1, ?He2, ?Hs1, ?Hs2; try done.
  - intros u. rewrite H2, HT. destruct (decide (u = t)) as [->|].
    + rewrite lookup_insert_eq, Ht. split; intros (x & [= <-] & Hx); eexists; (split; [done|]); by apply Hbe.
    + by rewrite lookup_insert_ne by done.
  - intros u. rewrite H5, HT. destruct (decide (u = t)) as [->|].
    + rewrite lookup_insert_eq, Ht. split; intros (x & a & [= <-] & Hx); eexists _, a; (split; [done|]); by apply Hbs.
    + by rewrite lookup_insert_ne by done.
Qed.

Lemma threads_insert (P : Z → THREAD → Prop) (m : gmap Z THREAD) t th' :
  (∀ u thu, m !! u = Some thu → P u thu) → P t th' →
  ∀ u thu, <[t := th']> m !! u = Some thu → P u thu.
Proof. intros Hm Ht. by apply map_Forall_insert_2. Qed.

(** A section of the routine changes one thread. *)
Lemma inv_change md md' s t th th' R' :
  inv_in md s → Threads s !! t = Some th → same_queue th th' → thread_ok t th' →
  mode_ok md' R' (EventSignaled s) (SemaphoreCount s) (<[t := th']> (Threads s)) →
  entries_ok (entries (handoff md') R') (<[t := th']> (Threads s)) → zlen (OwnerTable R') < 2 ^ 16 →
  0 ≤ NumberOfSharedWaiters R' ∧ 0 ≤ NumberOfExclusiveWaiters R' →
  inv_in md' (put_thread t th' (s <| Lock := R' |>)).
Proof.
  intros Hi Ht Hq Hok Hmd HE Htab Hc. split; try done.
  - apply threads_insert; [apply Hi|done].
  - change (Z.of_nat (size (<[t := th']> (Threads s))) < 2 ^ 15).
    rewrite map_size_insert_Some; [apply Hi|eauto].
  - by apply (queues_same _ s _ t th th'); [apply Hi|..].
Qed.

Lemma inv_section md md' s t th th' R' :
  inv_in md s → Threads s !! t = Some th → blocked th = false → blocked th' = false → thread_ok t th' →
  mode_ok md' R' (EventSignaled s) (SemaphoreCount s) (<[t := th']> (Threads s)) →
  entries_ok (entries (handoff md') R') (<[t := th']> (Threads s)) → zlen (OwnerTable R') < 2 ^ 16 →
  0 ≤ NumberOfSharedWaiters R' ∧ 0 ≤ NumberOfExclusiveWaiters R' →
  inv_in md' (put_thread t th' (s <| Lock := R' |>)).
Proof. intros Hi Ht Hb Hb'. apply (inv_change md md' s t th th' R' Hi Ht). by right. Qed.

Lemma null_thread md s : inv_in md s → Threads s !! 0 = None ∧ Threads s !! 1 = None.
Proof.
  intros Hi. split; [destruct (Threads s !! 0) as [th|] eqn:H|destruct (Threads s !! 1) as [th|] eqn:H];
    try done; apply (in_threads _ _ Hi) in H as [? _]; lia.
Qed.

(** ** Tactics *)

(** The sums after thread [t] has changed, and the parts of the thread. *)
Ltac counts Ht :=
  unfold shared_grants, exclusive_grants in *; rewrite ?(total_insert _ _ _ _ _ Ht).

(** ** Neutral sections *)

Lemma thread_ok_goes t th p :
  thread_ok t th → (match p with EnteringShared _ | BlockedShared _ | ReleasingShared _ => False | _ => True end) →
  (acquiring p → Holds th < 2 ^ 15 - 1) → thread_ok t (goes p th).
Proof.
  intros [H1 H2 H3 H4 H5 H6 H7] Hp Hr. split; simpl; try done.
  - unfold waits_shared. simpl. by destruct p.
  - by destruct p.
  - intros n ->. done.
Qed.

Lemma neutral_weights th :
  neutral (State th) → waits_exclusive th = 0 ∧ granted th = 0 ∧ sets_event th = 0 ∧ waits_shared th = 0 ∧
    releases th = 0 ∧ blocked th = false.
Proof. unfold blocked. weigh. by destruct (State th). Qed.

(** A thread goes where it is counted among other waiters. *)
Lemma mode_goes md R R' ev c m t th p :
  mode_ok md R ev c m → m !! t = Some th → granted th = 0 → granted (goes p th) = 0 →
  sets_event (goes p th) = sets_event th → releases (goes p th) = releases th →
  ActiveCount R' = ActiveCount R → OwnedExclusive R' = OwnedExclusive R → Owner0 R' = Owner0 R →
  NumberOfSharedWaiters R' = NumberOfSharedWaiters R + waits_shared (goes p th) - waits_shared th →
  NumberOfExclusiveWaiters R' = NumberOfExclusiveWaiters R + waits_exclusive (goes p th) - waits_exclusive th →
  (ActiveCount R = 0 → waits_shared (goes p th) = waits_shared th ∧ waits_exclusive (goes p th) = waits_exclusive th) →
  mode_ok md R' ev c (<[t := goes p th]> m).
Proof.
  intros Hm Ht W2 V2 V3 V5 HA HO H0 HS HX Hz. assert (V7 : holds (goes p th) = holds th) by done.
  destruct md; unfold mode_ok in *; counts Ht; rewrite HA, HO, HS, HX, ?H0.
  - destruct Hm as (? & ? & ? & ? & ? & ? & ? & Hex). split_and!; try lia; try done.
    apply (threads_insert (λ _ th, HoldsExclusive th = false)); [done|by apply (Hex t th)].
  - destruct Hm as (? & ? & ? & ? & ? & ? & ? & ? & thu & Hu & Hh & Hex & Ho). split_and!; try lia; try done.
    destruct (decide (t0 = t)) as [->|].
    + exists (goes p th). rewrite lookup_insert_eq. rewrite Ht in Hu. apply (inj Some) in Hu as ->. done.
    + exists thu. by rewrite lookup_insert_ne by done.
  - destruct Hm as (? & ? & ? & ? & ? & ? & ? & ? & Hown). split_and!; try lia; try done.
    destruct Hown as [Hown|(thu & Hu & Hg)]; [by left|right]. exists thu.
    rewrite lookup_insert_ne; [done|]. intros Heq. rewrite <- Heq, Ht in Hu. apply (inj Some) in Hu as ->.
    unfold granted in W2. by rewrite Hg in W2.
Qed.

(** A thread that is not counted goes where it is neutral or waits. *)
Lemma goes_mode md R R' ev c m t th p :
  mode_ok md R ev c m → m !! t = Some th → neutral (State th) →
  match p with GrantedExclusive | SettingEvent | ReleasingShared _ => False | _ => True end →
  ActiveCount R' = ActiveCount R → OwnedExclusive R' = OwnedExclusive R → Owner0 R' = Owner0 R →
  NumberOfSharedWaiters R' = NumberOfSharedWaiters R + waits_shared (goes p th) →
  NumberOfExclusiveWaiters R' = NumberOfExclusiveWaiters R + waits_exclusive (goes p th) →
  ActiveCount R ≠ 0 ∨ neutral p → mode_ok md R' ev c (<[t := goes p th]> m).
Proof.
  intros Hm Ht Hn Hp HA HO H0 HS HX Hact.
  pose proof (neutral_weights th Hn) as (W1 & W2 & W3 & W4 & W5 & W6).
  apply (mode_goes md R R' ev c m t th p Hm Ht W2); try done; try lia; try (rewrite ?W3, ?W5; by destruct p).
  intros Hz. destruct Hact as [|Hnp]; [done|]. pose proof (neutral_weights (goes p th) Hnp). lia.
Qed.

(** The thread goes from one neutral place to another. *)
Lemma neutral_ok md s t th p :
  inv_in md s → Threads s !! t = Some th → neutral (State th) → neutral p →
  (acquiring p → Holds th < 2 ^ 15 - 1) → inv_in md (put_thread t (goes p th) s).
Proof.
  intros Hi Ht Hn Hp Hr. pose proof (neutral_weights th Hn) as (_ & _ & _ & W4 & _ & W6).
  pose proof (neutral_weights (goes p th) Hp) as (V1 & _ & _ & V4 & _ & V6).
  apply (inv_section md md s t th (goes p th) (Lock s)); try done; [..|apply Hi|apply Hi].
  - apply thread_ok_goes; [by apply Hi|by destruct p|done].
  - apply (goes_mode _ (Lock s)); try done; [apply Hi|by destruct p|lia|lia|by right].
  - apply (eo_same _ _ _ th); [apply Hi|done| |done]. unfold entry_count. by rewrite W4, V4.
Qed.

(** ** Searching for an entry *)

Lemma mode_ok_same md R R' ev c m :
  same_state R R' → Owner0 R' = Owner0 R → mode_ok md R ev c m → mode_ok md R' ev c m.
Proof. intros (HA & HO & HS & HX) H0. unfold mode_ok. by rewrite HA, HO, HS, HX, H0. Qed.

(** What a search finds; the invariant holds although the table may have grown. *)
Lemma find_inv md s t :
  inv_in md s →
  let '(p, R') := ExpFindCurrentThread (Lock s) t in
  inv_in md (s <| Lock := R' |>) ∧ same_state (Lock s) R' ∧ Owner0 R' = Owner0 (Lock s) ∧
  ∃ e, get_owner p R' = Some e ∧ (p = Entry0 → OwnerThread (Owner0 (Lock s)) = t) ∧
    (OwnerThread e = t ∨ OwnerThread e = 0 ∧ ∀ e, e ∈ entries false (Lock s) → OwnerThread e ≠ t).
Proof.
  intros Hi. pose proof (ExpFindCurrentThread_ok (Lock s) t (in_table _ _ Hi)) as Hf.
  destruct (ExpFindCurrentThread (Lock s) t) as [p R'].
  destruct Hf as (k & e & Hs & H0 & H1 & Htab & Hk & Hget & Hp & He & Hfull).
  split; [|split_and!; try done; by exists e].
  destruct Hi as [Hm HT Hsz [Q1 Q2 Q3 Q4 Q5 Q6 Q7] HE Hlen Hc].
  split; [|exact HT|exact Hsz|done|..].
  - by apply (mode_ok_same _ (Lock s)).
  - change (entries_ok (entries (handoff md) R') (Threads s)).
    replace (entries (handoff md) R') with (entries (handoff md) (Lock s) ++ replicate k (mkOwner 0 0))
      by (unfold entries; rewrite H0, H1, Htab; done). by apply eo_grow.
  - change (zlen (OwnerTable R') < 2 ^ 16). rewrite Htab. unfold zlen in *. rewrite length_app, length_replicate.
    destruct (decide (0 < k)%nat) as [Hpos|]; [|lia].
    pose proof (full_table _ _ _ HE (Hfull Hpos)) as Hb. unfold zlen in Hb. lia.
  - change (0 ≤ NumberOfSharedWaiters R' ∧ 0 ≤ NumberOfExclusiveWaiters R').
    destruct Hs as (_ & _ & -> & ->). done.
Qed.

(** ** A free resource *)

Lemma free_resource md s :
  inv_in md s → ActiveCount (Lock s) = 0 →
  md = SharedMode ∧ total holds (Threads s) = 0 ∧ total waits_shared (Threads s) = 0 ∧
  total waits_exclusive (Threads s) = 0 ∧ SemaphoreCount s = 0 ∧ total releases (Threads s) = 0 ∧
  NumberOfSharedWaiters (Lock s) = 0 ∧ NumberOfExclusiveWaiters (Lock s) = 0.
Proof.
  intros Hi HA. pose proof (in_mode _ _ Hi) as Hm.
  destruct md; unfold mode_ok in Hm; destruct Hm as (_ & Hm); [|lia..].
  pose proof (totals_nonneg (Threads s)). pose proof (q_count _ (in_queues _ _ Hi)).
  unfold shared_grants in Hm. destruct Hm as (? & ? & ? & ? & ? & Hz & _). specialize (Hz HA).
  split; [done|]. lia.
Qed.

(** No thread has an entry. *)
Lemma no_entries E m i e :
  entries_ok E m → total holds m = 0 → total waits_shared m = 0 → E !! i = Some e → OwnerThread e = 0.
Proof.
  intros HE Hh Hw Hi. destruct (decide (OwnerThread e = 0)) as [|Hne]; [done|].
  destruct (eo_thread _ _ HE i e Hi Hne) as (th & Ht & Hc & Hp & _).
  pose proof (no_holder _ _ _ Hh Ht). pose proof (waits_shared_part _ _ _ Ht).
  unfold entry_count in Hc. destruct (Z.ltb_spec 0 (Holds th)); lia.
Qed.
