(* ===== verification/ResourceAcquire.v ===== *)
(** * The sections that acquire a resource keep the invariant, and the other calls *)

From stdpp Require Import base list list_tactics numbers option gmap fin_maps.
From S2P Require Import Prelude Resource ResourceSys ResourceInv ResourceOk.

(** ** Threads that acquire *)

Lemma acquire_ok t th b : thread_ok t th → Holds th < 2 ^ 15 - 1 → thread_ok t (acquire b th).
Proof.
  intros [H1 H2 H3 H4 H5 H6 H7] Hr. split; simpl; try done; lia.
Qed.

Lemma acquire_weights b th :
  0 ≤ Holds th → waits_exclusive (acquire b th) = 0 ∧ granted (acquire b th) = 0 ∧
  sets_event (acquire b th) = 0 ∧ waits_shared (acquire b th) = 0 ∧ releases (acquire b th) = 0 ∧
  holds (acquire b th) = 1 ∧ entry_count (acquire b th) = Holds th + 1.
Proof.
  intros Hh. weigh. simpl. destruct (Z.ltb_spec 0 (Holds th + 1)); [done|lia].
Qed.

Lemma holds_zero th : Holds th = 0 → holds th = 0 ∧ entry_count th = waits_shared th.
Proof. intros H0. unfold holds, entry_count. by rewrite H0. Qed.

Lemma holds_pos th : 0 < Holds th → holds th = 1 ∧ entry_count th = Holds th.
Proof. intros Hp. unfold holds, entry_count. destruct (Z.ltb_spec 0 (Holds th)); [done|lia]. Qed.

Section acquire.
Context (md : mode) (s : SYSTEM) (t : Z) (th : THREAD).
Hypothesis Hi : inv_in md s.
Hypothesis Ht : Threads s !! t = Some th.
Hypothesis Hn : neutral (State th).

Lemma thread_pointer : t ≠ 0 ∧ t ≠ 1 ∧ 0 ≤ Holds th < 2 ^ 15.
Proof using Hi Ht. apply (in_threads _ _ Hi) in Ht as [H1 H2 _]. lia. Qed.

(** Exclusive access to a free resource. *)
Lemma exclusive_free_ok :
  ActiveCount (Lock s) = 0 →
  inv_in (OwnedMode t) (put_thread t (acquire true th) (s <| Lock := grant_exclusive t (Lock s) |>)).
Proof using Hi Ht Hn.
  intros HA. destruct thread_pointer as (Ht0 & Ht1 & Hh).
  destruct (free_resource _ _ Hi HA) as (-> & Fh & Fs & Fx & Fc & Fr & FN & FX). pose proof (no_holder _ _ _ Fh Ht) as Hle.
  destruct (neutral_weights th Hn) as (W1 & W2 & W3 & W4 & W5 & W6).
  destruct (acquire_weights true th ltac:(lia)) as (V1 & V2 & V3 & V4 & V5 & V6 & V7).
  destruct (holds_zero th ltac:(lia)) as [W7 W8].
  apply (inv_section SharedMode (OwnedMode t) s t th); try done.
  - apply acquire_ok; [by apply Hi|lia].
  - pose proof (in_mode _ _ Hi) as Hm. unfold mode_ok in *. counts Ht.
    destruct Hm as (? & ? & ? & ? & ? & ? & ? & Hex). split_and!; try done; try (simpl; lia).
    exists (acquire true th). rewrite lookup_insert_eq. split_and!; [done|simpl; lia|apply orb_true_r|].
    simpl. f_equal. lia.
  - replace (entries _ _) with (<[0%nat := mkOwner t (entry_count (acquire true th))]> (entries false (Lock s)))
      by (rewrite V7; replace (Holds th + 1) with 1 by lia; done).
    apply (eo_take _ _ _ th _ (in_entries _ _ Hi) Ht (proj1 (null_thread _ _ Hi)) 0 (Owner0 (Lock s)));
      try done; [|lia|simpl; lia].
    right. split; [|lia]. by apply (no_entries _ _ 0 _ (in_entries _ _ Hi)).
  - apply Hi.
  - apply Hi.
Qed.

(** Shared access to a free resource. *)
Lemma shared_free_ok :
  ActiveCount (Lock s) = 0 →
  inv_in SharedMode (put_thread t (acquire false th) (s <| Lock := grant_shared t (Lock s) |>)).
Proof using Hi Ht Hn.
  intros HA. destruct thread_pointer as (Ht0 & Ht1 & Hh).
  destruct (free_resource _ _ Hi HA) as (-> & Fh & Fs & Fx & Fc & Fr & FN & FX). pose proof (no_holder _ _ _ Fh Ht) as Hle.
  destruct (neutral_weights th Hn) as (W1 & W2 & W3 & W4 & W5 & W6).
  destruct (acquire_weights false th ltac:(lia)) as (V1 & V2 & V3 & V4 & V5 & V6 & V7).
  destruct (holds_zero th ltac:(lia)) as [W7 W8].
  apply (inv_section SharedMode SharedMode s t th); try done.
  - apply acquire_ok; [by apply Hi|lia].
  - pose proof (in_mode _ _ Hi) as Hm. unfold mode_ok in *. counts Ht.
    destruct Hm as (? & ? & ? & ? & ? & ? & ? & Hex). split_and!; try done; try (simpl; lia).
    apply (threads_insert (λ _ th, HoldsExclusive th = false)); [done|]. simpl. by rewrite (Hex t th Ht).
  - replace (entries _ _) with (<[1%nat := mkOwner t (entry_count (acquire false th))]> (entries false (Lock s)))
      by (rewrite V7; replace (Holds th + 1) with 1 by lia; done).
    apply (eo_take _ _ _ th _ (in_entries _ _ Hi) Ht (proj1 (null_thread _ _ Hi)) 1 (Owner1 (Lock s)));
      try done; [|lia].
    right. split; [|lia]. by apply (no_entries _ _ 1 _ (in_entries _ _ Hi)).
  - apply Hi.
  - apply Hi.
Qed.

(** The exclusive owner of the resource acquires it again. *)
Lemma owned_by_mode : owned_by t (Lock s) = true → md = OwnedMode t.
Proof using Hi Ht Hn.
  intros [Ho Heq]%andb_prop. apply Z.eqb_eq in Heq. pose proof (in_mode _ _ Hi) as Hm.
  destruct thread_pointer as (_ & Ht1 & _). destruct md; unfold mode_ok in Hm.
  - destruct Hm as [Hm _]. congruence.
  - destruct Hm as (_ & _ & _ & _ & _ & _ & _ & _ & tho & _ & _ & _ & Hown). rewrite Hown in Heq.
    simpl in Heq. by subst.
  - destruct Hm as (_ & _ & _ & _ & _ & _ & _ & _ & [H1|(tho & Hto & Hg)]); [congruence|].
    rewrite Heq, Ht in Hto. apply (inj Some) in Hto as ->. by rewrite Hg in Hn.
Qed.

Lemma enter_again_ok b :
  owned_by t (Lock s) = true → Holds th < 2 ^ 15 - 1 →
  inv_in (OwnedMode t) (put_thread t (acquire b th) (s <| Lock := enter_again (Lock s) |>)).
Proof using Hi Ht Hn.
  intros Hob Hr. destruct thread_pointer as (Ht0 & Ht1 & Hh). pose proof (owned_by_mode Hob) as ->.
  destruct (neutral_weights th Hn) as (W1 & W2 & W3 & W4 & W5 & W6).
  destruct (acquire_weights b th ltac:(lia)) as (V1 & V2 & V3 & V4 & V5 & V6 & V7).
  pose proof (in_mode _ _ Hi) as Hm. unfold mode_ok in Hm.
  destruct Hm as (? & ? & ? & ? & ? & ? & ? & ? & tho & Hto & Hp & Hex & Hown).
  rewrite Ht in Hto. apply (inj Some) in Hto as <-. destruct (holds_pos th Hp) as [W7 W8].
  assert (Hcount : s16 (OwnerCount (Owner0 (Lock s)) + 1) = entry_count (acquire b th)).
  { rewrite Hown, V7. simpl. rewrite s16_small by lia. done. }
  apply (inv_section (OwnedMode t) (OwnedMode t) s t th); try done.
  - apply acquire_ok; [by apply Hi|lia].
  - unfold mode_ok. counts Ht. split_and!; try done; try (simpl; lia).
    exists (acquire b th). rewrite lookup_insert_eq. split_and!; [done|simpl; lia|simpl; by rewrite Hex|].
    simpl. rewrite Hcount, Hown, V7. done.
  - replace (entries _ _) with (<[0%nat := mkOwner t (entry_count (acquire b th))]> (entries false (Lock s)))
      by (rewrite <- Hcount; simpl; unfold entries, enter_again; simpl; rewrite Hown; done).
    apply (eo_take _ _ _ th _ (in_entries _ _ Hi) Ht (proj1 (null_thread _ _ Hi)) 0 (Owner0 (Lock s)));
      try done; [|lia|simpl; lia].
    left. by rewrite Hown.
  - apply Hi.
  - apply Hi.
Qed.
(** ** Waiting *)

(** The thread waits for the event. *)
Lemma wait_exclusive_ok :
  ActiveCount (Lock s) ≠ 0 →
  inv_in md (put_thread t (goes EnteringExclusive th)
    (s <| Lock := (Lock s) <| NumberOfExclusiveWaiters := u16 (NumberOfExclusiveWaiters (Lock s) + 1) |> |>)).
Proof using Hi Ht Hn.
  intros HA. destruct (neutral_weights th Hn) as (W1 & W2 & W3 & W4 & W5 & W6).
  assert (Hb : 0 ≤ NumberOfExclusiveWaiters (Lock s) + 1 < 2 ^ 16).
  { pose proof (totals_bound (<[t := goes EnteringExclusive th]> (Threads s))) as [Hb _].
    rewrite (total_insert _ _ _ _ _ Ht), map_size_insert_Some, W1 in Hb by eauto. pose proof (in_size _ _ Hi).
    pose proof (in_counts _ _ Hi). assert (NumberOfExclusiveWaiters (Lock s) ≤ total waits_exclusive (Threads s)).
    { pose proof (in_mode _ _ Hi) as Hm. pose proof (totals_nonneg (Threads s)).
      unfold mode_ok, exclusive_grants in Hm. destruct md, (EventSignaled s); lia. }
    change (waits_exclusive (goes EnteringExclusive th)) with 1 in Hb. lia. }
  rewrite u16_small by lia.
  apply (inv_section md md s t th); try done; [..|apply Hi|].
  - apply thread_ok_goes; [by apply Hi|done|done].
  - apply (goes_mode _ (Lock s)); try done; [apply Hi|weigh; simpl; lia|by left].
  - change (entries_ok (entries (handoff md) (Lock s)) (<[t := goes EnteringExclusive th]> (Threads s))).
    apply (eo_same _ _ _ th); [apply Hi|done| |done]. unfold entry_count. by rewrite W4.
  - pose proof (in_counts _ _ Hi). simpl. lia.
Qed.

(** The thread takes a free entry and waits for the semaphore. *)
Lemma wait_shared_ok p e :
  ActiveCount (Lock s) ≠ 0 → get_owner p (Lock s) = Some e → p ≠ Entry0 → OwnerThread e = 0 → Holds th = 0 →
  ∃ R', wait_shared p t true (Lock s) = Some (Goes (EnteringShared false), R') ∧
    inv_in md (put_thread t (goes (EnteringShared false) th) (s <| Lock := R' |>)).
Proof using Hi Ht Hn.
  intros HA He Hp H0 Hh. destruct (neutral_weights th Hn) as (W1 & W2 & W3 & W4 & W5 & W6).
  destruct thread_pointer as (Ht0 & _). destruct (holds_zero th Hh) as [_ W8].
  destruct (holds_zero (goes (EnteringShared false) th) Hh) as [_ V8].
  change (waits_shared (goes (EnteringShared false) th)) with 1 in V8.
  assert (Hb : 0 ≤ NumberOfSharedWaiters (Lock s) + 1 < 2 ^ 16).
  { pose proof (in_counts _ _ Hi). pose proof (totals_bound (Threads s)). pose proof (totals_nonneg (Threads s)).
    pose proof (in_size _ _ Hi). pose proof (q_count _ (in_queues _ _ Hi)).
    pose proof (in_mode _ _ Hi) as Hm. unfold mode_ok, shared_grants in Hm. destruct md; lia. }
  destruct (set_owner_ok (handoff md) p e (mkOwner t 1) ((Lock s) <| SharedWaiters := true |>))
    as (R' & HR & (HA' & HO & HS & HX) & HE & Hlen & HO0); [by intros ->|by destruct p|].
  unfold wait_shared. cbn [negb]. cbv zeta. rewrite HR. cbn [mbind option_bind].
  eexists. split; [done|]. rewrite HS, u16_small by (simpl; lia).
  apply (inv_section md md s t th); try done.
  - destruct (in_threads _ _ Hi t th Ht). split; try done.
  - apply (goes_mode _ (Lock s)); try done; [apply Hi|by apply HO0|weigh; simpl in *; lia|by left].
  - change (entries_ok (entries (handoff md) R') (<[t := goes (EnteringShared false) th]> (Threads s))).
    rewrite HE, <- V8. change (entries (handoff md) (_ <| SharedWaiters := true |>)) with (entries (handoff md) (Lock s)).
    apply (eo_take _ _ _ th _ (in_entries _ _ Hi) Ht (proj1 (null_thread _ _ Hi)) _ e); try done.
    + rewrite <- get_owner_entries; [done|by intros ->].
    + right. split; [done|lia].
    + lia.
    + by destruct p.
  - change (zlen (OwnerTable R') < 2 ^ 16). unfold zlen. rewrite Hlen. apply Hi.
  - pose proof (in_counts _ _ Hi). simpl in *. lia.
Qed.
End acquire.
(** ** Joining the shared owners *)

Section join.
Context (s : SYSTEM) (t : Z) (th : THREAD) (p : POWNER_ENTRY) (e : OWNER_ENTRY).
Hypothesis Hi : inv_in SharedMode s.
Hypothesis Ht : Threads s !! t = Some th.
Hypothesis Hn : neutral (State th).
Hypothesis He : get_owner p (Lock s) = Some e.

Lemma entry_index : entries false (Lock s) !! index p = Some e.
Proof using He. by rewrite <- get_owner_entries. Qed.

Lemma shared_entry (c : Z) R' :
  thread_ok t (acquire false th) → entry_count (acquire false th) = c →
  OwnerThread e = t ∨ OwnerThread e = 0 ∧ entry_count th = 0 →
  entries false R' = <[index p := mkOwner t c]> (entries false (Lock s)) →
  entries_ok (entries false R') (<[t := acquire false th]> (Threads s)).
Proof using Hi Ht He.
  intros Hok <- Hown ->. destruct (thread_pointer _ _ _ _ Hi Ht) as (Ht0 & _ & Hh).
  destruct (acquire_weights false th) as (_ & _ & _ & _ & _ & _ & V7); [lia|].
  apply (eo_take _ _ _ th _ (in_entries _ _ Hi) Ht (proj1 (null_thread _ _ Hi)) _ e); try done; [|lia|].
  - apply entry_index.
  - intros _. simpl. lia.
Qed.

(** The sum of holders, grants and waiters fits the counts. *)
Lemma active_bound :
  Holds th = 0 → ActiveCount (Lock s) + 1 < 2 ^ 15 ∧ 0 ≤ ActiveCount (Lock s).
Proof using Hi Ht Hn.
  intros H0. destruct (thread_pointer _ _ _ _ Hi Ht) as (Ht0 & _ & Hh).
  destruct (neutral_weights th Hn) as (_ & _ & _ & W4 & W5 & _).
  destruct (acquire_weights false th) as (_ & _ & _ & V4 & _ & V6 & _); [lia|].
  destruct (holds_zero th H0) as [W7 _].
  assert (Hb : total holds (Threads s) + 1 + total waits_shared (Threads s) ≤ Z.of_nat (size (Threads s))).
  { pose proof (holders_and_waiters (<[t := acquire false th]> (Threads s))) as Hb.
    rewrite !(total_insert _ _ _ _ _ Ht), map_size_insert_Some in Hb by eauto.
    enough (total holds (Threads s) - holds th + holds (acquire false th) +
      (total waits_shared (Threads s) - waits_shared th + waits_shared (acquire false th)) ≤
      Z.of_nat (size (Threads s))) by lia.
    apply Hb. apply threads_insert; [apply Hi|]. apply acquire_ok; [by apply Hi|lia]. }
  pose proof (in_size _ _ Hi). pose proof (in_counts _ _ Hi). pose proof (totals_nonneg (Threads s)).
  pose proof (q_count _ (in_queues _ _ Hi)).
  pose proof (in_mode _ _ Hi) as Hm. unfold mode_ok, shared_grants in Hm. lia.
Qed.

(** The thread is an owner and acquires again. *)
Lemma join_again_ok may :
  OwnerThread e = t → Holds th < 2 ^ 15 - 1 →
  ∃ R', join_shared p t may (Lock s) = Some (Some R') ∧
    inv_in SharedMode (put_thread t (acquire false th) (s <| Lock := R' |>)).
Proof using Hi Ht Hn He.
  intros Hown Hr. destruct (thread_pointer _ _ _ _ Hi Ht) as (Ht0 & _ & Hh).
  destruct (neutral_weights th Hn) as (W1 & W2 & W3 & W4 & W5 & W6).
  destruct (acquire_weights false th) as (V1 & V2 & V3 & V4 & V5 & V6 & V7); [lia|].
  pose proof (eo_own _ _ _ _ (in_entries _ _ Hi) Ht (proj1 (null_thread _ _ Hi)) _ _ entry_index Hown Ht0) as Heq.
  destruct (eo_thread _ _ (in_entries _ _ Hi) _ _ entry_index) as (tho & Hto & Hc & Hpos & _); [congruence|].
  rewrite Hown, Ht in Hto. apply (inj Some) in Hto as <-.
  assert (Hp : 0 < Holds th) by (unfold entry_count in Hc; destruct (Z.ltb_spec 0 (Holds th)); lia).
  destruct (holds_pos th Hp) as [W7 W8].
  destruct (set_owner_ok false p e (mkOwner (OwnerThread e) (s16 (OwnerCount e + 1))) (Lock s))
    as (R' & HR & Hs & HE & Hlen & HO0); [done|done|].
  unfold join_shared. rewrite He. cbn [mbind option_bind]. rewrite (proj2 (Z.eqb_eq _ _) Hown), HR.
  cbn [mbind option_bind]. eexists. split; [done|].
  assert (Hok : thread_ok t (acquire false th)) by (apply acquire_ok; [by apply Hi|lia]).
  rewrite Heq, W8 in HE. simpl in HE. rewrite s16_small in HE by lia.
  apply (inv_section SharedMode SharedMode s t th); try done.
  - destruct Hs as (HA & HO & HS & HX). pose proof (in_mode _ _ Hi) as Hm. unfold mode_ok in *. counts Ht.
    rewrite HA, HO, HS, HX. destruct Hm as (? & ? & ? & ? & ? & ? & ? & Hex). split_and!; try done; try lia.
    apply (threads_insert (λ _ th, HoldsExclusive th = false)); [done|]. simpl. by rewrite (Hex t th Ht).
  - apply (shared_entry (Holds th + 1)); [done|done|by left|done].
  - unfold zlen. rewrite Hlen. apply Hi.
  - destruct Hs as (HA & HO & -> & ->). apply Hi.
Qed.

(** The thread becomes an owner. *)
Lemma join_new_ok :
  OwnerThread e = 0 → p ≠ Entry0 → Holds th = 0 →
  ∃ R', join_shared p t true (Lock s) = Some (Some R') ∧
    inv_in SharedMode (put_thread t (acquire false th) (s <| Lock := R' |>)).
Proof using Hi Ht Hn He.
  intros Hown Hp0 H0. destruct (thread_pointer _ _ _ _ Hi Ht) as (Ht0 & _ & Hh).
  destruct (neutral_weights th Hn) as (W1 & W2 & W3 & W4 & W5 & W6).
  destruct (acquire_weights false th) as (V1 & V2 & V3 & V4 & V5 & V6 & V7); [lia|].
  destruct (holds_zero th H0) as [W7 W8]. pose proof (active_bound H0) as Hb.
  destruct (set_owner_ok false p e (mkOwner t 1) (Lock s)) as (R' & HR & Hs & HE & Hlen & HO0); [done|done|].
  unfold join_shared. rewrite He. cbn [mbind option_bind]. rewrite (proj2 (Z.eqb_neq _ _)) by congruence.
  rewrite HR. cbn [mbind option_bind]. eexists. split; [done|].
  assert (Hok : thread_ok t (acquire false th)) by (apply acquire_ok; [by apply Hi|lia]).
  destruct Hs as (HA & HO & HS & HX). rewrite HA, s16_small by lia.
  apply (inv_section SharedMode SharedMode s t th); try done.
  - pose proof (in_mode _ _ Hi) as Hm. unfold mode_ok in *. counts Ht.
    destruct Hm as (? & ? & ? & ? & ? & ? & ? & Hex).
    split_and!; try done; try (simpl; lia); [simpl; congruence|].
    apply (threads_insert (λ _ th, HoldsExclusive th = false)); [done|]. simpl. by rewrite (Hex t th Ht).
  - apply (shared_entry 1); [done|lia|right; split; [done|lia]|done].
  - change (zlen (OwnerTable R') < 2 ^ 16). unfold zlen. rewrite Hlen. apply Hi.
  - pose proof (in_counts _ _ Hi). simpl. lia.
Qed.
End join.

(** ** The calls that acquire a resource

    Each section of an acquiring routine ends, with the invariant, whatever the other
    threads are doing. *)

(** One thread owns the resource: no other holds it. *)
Lemma sole_holder m t u th thu :
  total holds m = 1 → m !! t = Some th → 0 < Holds th → m !! u = Some thu → u ≠ t → Holds thu ≤ 0.
Proof.
  intros H1 Ht Hp Hu Hne. destruct (holds_pos th Hp) as [Hh _].
  apply (no_holder (<[t := mkThread Idle 0 false]> m) u).
  - rewrite (total_insert _ _ _ _ _ Ht). change (holds (mkThread Idle 0 false)) with 0. lia.
  - by rewrite lookup_insert_ne.
Qed.

(** The resource is owned exclusively by another thread, or about to be. *)
Lemma owned_by_other md s t th :
  inv_in md s → Threads s !! t = Some th → OwnedExclusive (Lock s) = true →
  OwnerThread (Owner0 (Lock s)) ≠ t →
  Holds th = 0 ∧ OwnerThread (Owner0 (Lock s)) ≠ 0 ∧ ActiveCount (Lock s) ≠ 0.
Proof.
  intros Hi Ht HO Hne. destruct (thread_pointer _ _ _ _ Hi Ht) as (_ & _ & Hh).
  pose proof (in_mode _ _ Hi) as Hm. destruct md as [|u|]; unfold mode_ok in Hm.
  - destruct Hm as [Hm _]. congruence.
  - destruct Hm as (_ & HA & _ & _ & _ & _ & _ & H1 & thu & Hu & Hp & _ & Hown). rewrite Hown in *. simpl in *.
    destruct (thread_pointer _ _ _ _ Hi Hu) as (Hu0 & _).
    pose proof (sole_holder _ _ _ _ _ H1 Hu Hp Ht (not_eq_sym Hne)). lia.
  - destruct Hm as (_ & HA & _ & _ & _ & _ & Hz & _ & Hown). pose proof (no_holder _ _ _ Hz Ht).
    split; [lia|]. split; [|lia]. destruct Hown as [->|(thu & Hu & _)]; [done|].
    by destruct (thread_pointer _ _ _ _ Hi Hu).
Qed.

(** A thread that holds the resource for exclusive access is its owner. *)
Lemma exclusive_owner md s t th :
  inv_in md s → Threads s !! t = Some th → HoldsExclusive th = true → md = OwnedMode t.
Proof.
  intros Hi Ht Hex. destruct (in_threads _ _ Hi t th Ht) as [_ _ Hx _ _ _ _]. specialize (Hx Hex).
  pose proof (in_mode _ _ Hi) as Hm. destruct md as [|u|]; unfold mode_ok in Hm.
  - destruct Hm as (_ & _ & _ & _ & _ & _ & _ & Hm). rewrite (Hm t th Ht) in Hex. done.
  - destruct Hm as (_ & _ & _ & _ & _ & _ & _ & H1 & thu & Hu & Hpos & _).
    destruct (decide (t = u)) as [->|Hne]; [done|]. pose proof (sole_holder _ _ _ _ _ H1 Hu Hpos Ht Hne). lia.
  - destruct Hm as (_ & _ & _ & _ & _ & _ & Hz & _). pose proof (no_holder _ _ _ Hz Ht). lia.
Qed.

Section calls.
Context (md : mode) (s : SYSTEM) (t : Z) (th : THREAD).
Hypothesis Hi : inv_in md s.
Hypothesis Ht : Threads s !! t = Some th.
Hypothesis Hn : neutral (State th).
Hypothesis Hr : Holds th < 2 ^ 15 - 1.

(** A section ends with the invariant. *)
Definition ends (r : section_end * ERESOURCE) : Prop := ∃ s', section t r s = Some s' ∧ inv s'.

Lemma ends_in md' r th' :
  match r.1 with
  | Acquired exclusive => acquire exclusive th | Refused | Released => goes Idle th | Goes next => goes next th
  end = th' →
  inv_in md' (put_thread t th' (s <| Lock := r.2 |>)) → ends r.
Proof using Ht. intros <- Hi'. unfold ends, section. rewrite Ht. simpl. eexists. split; [done|]. by exists md'. Qed.

Lemma stays next : neutral next → ends (Goes next, Lock s).
Proof using Hi Ht Hn Hr.
  intros Hp. apply (ends_in md _ (goes next th)); [done|]. by apply (neutral_ok md s t th next).
Qed.

Lemma refused : ends (Refused, Lock s).
Proof using Hi Ht Hn Hr.
  apply (ends_in md _ (goes Idle th)); [done|]. by apply (neutral_ok md s t th Idle).
Qed.

Lemma exclusive_call_ok Wait : ends (ExAcquireResourceExclusiveLite t Wait (Lock s)).
Proof using Hi Ht Hn Hr.
  unfold ExAcquireResourceExclusiveLite. destruct (Z.eqb_spec (ActiveCount (Lock s)) 0) as [HA|HA].
  { eapply ends_in; [done|]. by apply (exclusive_free_ok md). }
  destruct (owned_by t (Lock s)) eqn:Hob.
  { eapply ends_in; [done|]. by apply (enter_again_ok md). }
  destruct Wait; [|apply refused]. cbn [negb].
  destruct (ExclusiveWaiters (Lock s)); [|by apply stays].
  eapply ends_in; [done|]. by apply (wait_exclusive_ok md).
Qed.

Lemma try_call_ok : ends (ExTryToAcquireResourceExclusiveLite t (Lock s)).
Proof using Hi Ht Hn Hr.
  unfold ExTryToAcquireResourceExclusiveLite. destruct (Z.eqb_spec (ActiveCount (Lock s)) 0) as [HA|HA].
  { eapply ends_in; [done|]. by apply (exclusive_free_ok md). }
  destruct (owned_by t (Lock s)) eqn:Hob; [|apply refused].
  eapply ends_in; [done|]. by apply (enter_again_ok md).
Qed.

Lemma shared_call_ok starve Wait : ends (ExAcquireResourceSharedLite starve t Wait (Lock s)).
Proof using Hi Ht Hn Hr.
  unfold ExAcquireResourceSharedLite. destruct (Z.eqb_spec (ActiveCount (Lock s)) 0) as [HA|HA].
  { eapply ends_in; [done|]. by apply (shared_free_ok md). }
  destruct (owned_by t (Lock s)) eqn:Hob; [|by apply stays].
  eapply ends_in; [done|]. by apply (enter_again_ok md).
Qed.

Lemma allocate_event_ok : ends (allocate_event (Lock s)).
Proof using Hi Ht Hn Hr.
  apply (ends_in md _ (goes CallingExclusive th)); [done|].
  destruct (neutral_ok md s t th CallingExclusive Hi Ht Hn) as [H1 H2 H3 [Q1 Q2 Q3 Q4 Q5 Q6 Q7] H5 H6 H7]; [done|done|].
  split; [|done|done|by split|done|done|done]. by apply (mode_ok_same _ (Lock s)).
Qed.

(** A free entry, found by [ExpFindCurrentThread], to wait with. *)
Lemma find_and_wait Wait :
  OwnedExclusive (Lock s) = true → OwnerThread (Owner0 (Lock s)) ≠ t →
  ∃ r, (let '(OwnerEntry, R) := ExpFindCurrentThread (Lock s) 0 in wait_shared OwnerEntry t Wait R) = Some r ∧
    ends r.
Proof using Hi Ht Hn Hr.
  intros HO Hne. destruct (owned_by_other md s t th Hi Ht HO Hne) as (H0 & Hown & HA).
  pose proof (find_inv md s 0 Hi) as Hf. destruct (ExpFindCurrentThread (Lock s) 0) as [p R'].
  destruct Hf as (Hi' & (HA' & _) & _ & e & Hget & Hp & He).
  destruct Wait; cbn [negb].
  - destruct (wait_shared_ok md _ t th Hi' Ht Hn p e) as (R'' & HR & Hi''); [|done|auto|tauto|done|].
    { by rewrite <- HA' in HA. }
    change (Lock (s <| Lock := R' |>)) with R' in HR. rewrite HR.
    eexists. split; [done|]. by eapply ends_in.
  - eexists. split; [done|]. apply (ends_in md _ (goes Idle th)); [done|].
    by apply (neutral_ok md _ t th Idle Hi').
Qed.

(** An entry to join the shared owners with, or to wait with. *)
Lemma find_and_join may Wait :
  OwnedExclusive (Lock s) = false → ActiveCount (Lock s) ≠ 0 →
  ∃ r, (let '(OwnerEntry, R) := ExpFindCurrentThread (Lock s) t in
        r ← join_shared OwnerEntry t (may R) R;
        match r with Some R => Some (Acquired false, R) | None => wait_shared OwnerEntry t Wait R end) = Some r ∧
    ends r.
Proof using Hi Ht Hn Hr.
  intros HO HA. assert (Hmd : md = SharedMode).
  { pose proof (in_mode _ _ Hi) as Hm. destruct md; [done|..]; unfold mode_ok in Hm; destruct Hm as [Hm _]; congruence. }
  destruct (thread_pointer _ _ _ _ Hi Ht) as (Ht0 & _ & Hh). pose proof Hi as Hi0. rewrite Hmd in Hi0.
  pose proof (find_inv SharedMode s t Hi0) as Hf. destruct (ExpFindCurrentThread (Lock s) t) as [p R'].
  destruct Hf as (Hi' & (HA' & _) & _ & e & Hget & Hp & He).
  destruct (decide (OwnerThread e = t)) as [Heq|Hne].
  { destruct (join_again_ok _ t th p e Hi' Ht Hn Hget (may R') Heq Hr) as (R'' & HR & Hi'').
    change (Lock (s <| Lock := R' |>)) with R' in HR. rewrite HR. cbn [mbind option_bind].
    eexists. split; [done|]. by eapply ends_in. }
  destruct He as [He|[He Hnone]]; [done|].
  assert (Hp0 : p ≠ Entry0) by (intros ->; by apply (Hnone (Owner0 (Lock s))); [left|auto]).
  assert (H0 : Holds th = 0).
  { destruct (decide (Holds th = 0)) as [|Hne']; [done|]. destruct (holds_pos th) as [_ Hc]; [lia|].
    destruct (eo_entry _ _ (in_entries _ _ Hi0) t th Ht) as [i Hl]; [lia|].
    apply list_elem_of_lookup_2 in Hl. by destruct (Hnone _ Hl). }
  destruct (may R') eqn:Hmay.
  { destruct (join_new_ok _ t th p e Hi' Ht Hn Hget He Hp0 H0) as (R'' & HR & Hi'').
    change (Lock (s <| Lock := R' |>)) with R' in HR. rewrite HR. cbn [mbind option_bind].
    eexists. split; [done|]. by eapply ends_in. }
  unfold join_shared. rewrite Hget. cbn [mbind option_bind]. rewrite (proj2 (Z.eqb_neq _ _) Hne).
  cbn [mbind option_bind]. destruct Wait.
  - destruct (wait_shared_ok SharedMode _ t th Hi' Ht Hn p e) as (R'' & HR & Hi''); [|done..|].
    { by rewrite <- HA' in HA. }
    change (Lock (s <| Lock := R' |>)) with R' in HR. rewrite HR.
    eexists. split; [done|]. by eapply ends_in.
  - eexists. split; [done|]. apply (ends_in SharedMode _ (goes Idle th)); [done|].
    by apply (neutral_ok SharedMode _ t th Idle Hi').
Qed.

(** The second level of the shared acquisition. *)
Lemma second_level_ok starve Wait :
  ∃ r, ExpAcquireResourceSharedLite starve t Wait (Lock s) = Some r ∧ ends r.
Proof using Hi Ht Hn Hr.
  unfold ExpAcquireResourceSharedLite. destruct (Z.eqb_spec (ActiveCount (Lock s)) 0) as [HA|HA].
  { eexists. split; [done|]. eapply ends_in; [done|]. by apply (shared_free_ok md). }
  destruct (OwnedExclusive (Lock s)) eqn:HO.
  - destruct (Z.eqb_spec (OwnerThread (Owner0 (Lock s))) t) as [Heq|Hne]; [|by apply find_and_wait].
    eexists. split; [done|]. eapply ends_in; [done|]. apply (enter_again_ok md); try done.
    unfold owned_by. rewrite HO. by apply Z.eqb_eq.
  - by apply (find_and_join (λ R, starve || negb (IsExclusiveWaiting R))).
Qed.

Lemma wait_for_exclusive_ok :
  ∃ r, ExAcquireSharedWaitForExclusive t false (Lock s) = Some r ∧ ends r.
Proof using Hi Ht Hn Hr.
  unfold ExAcquireSharedWaitForExclusive. destruct (Z.eqb_spec (ActiveCount (Lock s)) 0) as [HA|HA].
  { eexists. split; [done|]. eapply ends_in; [done|]. by apply (shared_free_ok md). }
  destruct (OwnedExclusive (Lock s)) eqn:HO.
  - destruct (Z.eqb_spec (OwnerThread (Owner0 (Lock s))) t) as [Heq|Hne]; [|by apply find_and_wait].
    eexists. split; [done|]. eapply ends_in; [done|]. apply (enter_again_ok md); try done.
    unfold owned_by. rewrite HO. by apply Z.eqb_eq.
  - destruct (IsExclusiveWaiting (Lock s)); [eexists; split; [done|]; apply refused|].
    destruct (find_and_join (λ _, true) false HO HA) as (r & Hr' & He). exists r. split; [|done].
    destruct (ExpFindCurrentThread (Lock s) t) as [p R']. unfold join_shared in *.
    destruct (get_owner p R') as [e|]; cbn [mbind option_bind] in *; [|done].
    destruct (OwnerThread e =? t); by destruct (set_owner _ _ _).
Qed.
End calls.
