(* ===== verification/ResourceRelease.v ===== *)
(** * Releasing and converting a resource keep the invariant *)

From stdpp Require Import base list list_tactics numbers option gmap fin_maps.
From S2P Require Import Prelude Resource ResourceSys ResourceInv ResourceOk ResourceAcquire.

(** ** The entry of an owner *)

Lemma scan_release_ok t l : ∀ i j e,
  l !! j = Some e → OwnerThread e = t →
  ∃ k e', scan_release t i l = InTable (i + k) ∧ l !! k = Some e' ∧ OwnerThread e' = t.
Proof.
  induction l as [|e0 l IH]; intros i j e Hj He; [done|]. simpl.
  destruct (Z.eqb_spec (OwnerThread e0) t) as [H0|H0].
  { exists 0%nat, e0. by rewrite Nat.add_0_r. }
  destruct j as [|j]; [simpl in Hj; congruence|]. destruct (IH (S i) j e Hj He) as (k & e' & -> & Hk & He').
  exists (S k), e'. split; [f_equal; lia|done].
Qed.

Section owner.
Context (md : mode) (s : SYSTEM) (u : Z) (thu : THREAD).
Hypothesis Hi : inv_in md s.
Hypothesis Hu : Threads s !! u = Some thu.
Hypothesis Hp : 0 < Holds thu.

(** Somebody holds the resource, so it is not being passed on. *)
Lemma held : handoff md = false ∧ md ≠ HandoffMode.
Proof using Hi Hu Hp.
  pose proof (in_mode _ _ Hi) as Hm. destruct md; [done|done|]. unfold mode_ok in Hm.
  destruct Hm as (_ & _ & _ & _ & _ & _ & Hz & _). pose proof (no_holder _ _ _ Hz Hu). lia.
Qed.

Lemma find_release_ok :
  get_owner (find_release u (Lock s)) (Lock s) = Some (mkOwner u (Holds thu)).
Proof using Hi Hu Hp.
  destruct (thread_pointer _ _ _ _ Hi Hu) as (Hu0 & _). destruct (holds_pos thu Hp) as [_ Hc].
  pose proof (in_entries _ _ Hi) as HE. rewrite (proj1 held) in HE.
  assert (Hown : ∀ i e, entries false (Lock s) !! i = Some e → OwnerThread e = u → e = mkOwner u (Holds thu)).
  { intros i e Hl He. rewrite <- Hc. by apply (eo_own _ _ _ _ HE Hu (proj1 (null_thread _ _ Hi)) i). }
  unfold find_release. destruct (Z.eqb_spec (OwnerThread (Owner0 (Lock s))) u) as [H0|H0].
  { simpl. f_equal. by apply (Hown 0%nat). }
  destruct (Z.eqb_spec (OwnerThread (Owner1 (Lock s))) u) as [H1|H1].
  { simpl. f_equal. by apply (Hown 1%nat). }
  destruct (whole_table _ (in_table _ _ Hi)) as [-> _].
  destruct (eo_entry _ _ HE u thu Hu) as [[|[|i]] Hl]; [lia|..].
  - unfold entries in Hl. simpl in Hl. apply (inj Some) in Hl. by rewrite Hl in H0.
  - unfold entries in Hl. simpl in Hl. apply (inj Some) in Hl. by rewrite Hl in H1.
  - destruct (scan_release_ok u (OwnerTable (Lock s)) 0 i _ Hl eq_refl) as (k & e & -> & Hk & He).
    simpl. rewrite Hk. f_equal. by apply (Hown (S (S k))).
Qed.

Lemma release_weights :
  waits_exclusive (release thu) = waits_exclusive thu ∧ granted (release thu) = granted thu ∧
  sets_event (release thu) = sets_event thu ∧ waits_shared (release thu) = 0 ∧ waits_shared thu = 0 ∧
  releases (release thu) = releases thu ∧ entry_count (release thu) = Holds thu - 1 ∧
  holds (release thu) = if decide (Holds thu = 1) then 0 else 1.
Proof using Hi Hu Hp.
  assert (Hw : waits_shared thu = 0).
  { destruct (in_threads _ _ Hi u thu Hu) as [_ _ _ Hw _ _ _]. pose proof (weights_nonneg thu). lia. }
  assert (Hw' : waits_shared (release thu) = 0) by done.
  unfold entry_count. rewrite Hw'. unfold holds. simpl.
  destruct (Z.ltb_spec 0 (Holds thu - 1)), (decide (Holds thu = 1)); split_and!; try done; lia.
Qed.

Lemma release_thread_ok : thread_ok u (release thu).
Proof using Hi Hu Hp.
  destruct (in_threads _ _ Hi u thu Hu) as [H1 H2 H3 H4 H5 H6 H7].
  destruct release_weights as (_ & _ & _ & Hw & _).
  split; simpl; try done; lia.
Qed.

(** ** Leaving an entry *)

(** The owner has acquired the resource more than once. *)
Lemma release_again_ok :
  Holds thu ≠ 1 →
  ∃ R', ExReleaseResourceForThreadLite u (Lock s) = Some (Released, R') ∧
    inv_in md (put_thread u (release thu) (s <| Lock := R' |>)).
Proof using Hi Hu Hp.
  intros Hne. destruct (thread_pointer _ _ _ _ Hi Hu) as (Hu0 & _ & Hh).
  destruct release_weights as (V1 & V2 & V3 & V4 & W4 & V5 & V7 & V6). rewrite decide_False in V6 by done.
  destruct (holds_pos thu Hp) as [W6 W7]. pose proof find_release_ok as Hfind. destruct held as [Hh0 HH].
  destruct (set_owner_ok false (find_release u (Lock s)) (mkOwner u (Holds thu)) (mkOwner u (Holds thu - 1)) (Lock s))
    as (R' & HR & (HA & HO & HS & HX) & HE & Hlen & HO0); [done|exact Hfind|].
  unfold ExReleaseResourceForThreadLite. rewrite Hfind. cbn [mbind option_bind OwnerCount OwnerThread].
  rewrite s16_small by lia. rewrite (proj2 (Z.eqb_neq _ _)) by lia. cbn [negb]. rewrite HR.
  cbn [mbind option_bind]. eexists. split; [done|].
  assert (HEi : entries false (Lock s) !! index (find_release u (Lock s)) = Some (mkOwner u (Holds thu)))
    by (by rewrite <- get_owner_entries).
  apply (inv_change md md s u thu); try done.
  - by left.
  - apply release_thread_ok.
  - pose proof (in_mode _ _ Hi) as Hm. destruct md as [|t|]; [..|done]; unfold mode_ok in *; counts Hu;
      rewrite HA, HO, HS, HX.
    + destruct Hm as (? & ? & ? & ? & ? & ? & ? & Hex). split_and!; try done; try lia.
      apply (threads_insert (λ _ th, HoldsExclusive th = false)); [done|]. simpl. by rewrite (Hex u thu Hu).
    + destruct Hm as (? & ? & ? & ? & ? & ? & ? & H1 & th & Ht & Hpt & Hex & Hown). split_and!; try done; try lia.
      assert (u = t) as ->.
      { destruct (decide (u = t)) as [|Hut]; [done|]. pose proof (sole_holder _ _ _ _ _ H1 Ht Hpt Hu Hut). lia. }
      rewrite Hu in Ht. apply (inj Some) in Ht as <-. exists (release thu). rewrite lookup_insert_eq.
      split_and!; [done|simpl; lia|simpl; rewrite Hex; simpl; lia|].
      assert (Hz : find_release t (Lock s) = Entry0).
      { unfold find_release. by rewrite Hown, Z.eqb_refl. }
      rewrite Hz in HE. unfold entries in HE. simpl in HE. by injection HE as ->.
  - rewrite Hh0, HE, <- V7. pose proof (in_entries _ _ Hi) as HE'. rewrite Hh0 in HE'.
    apply (eo_take _ _ _ thu _ HE' Hu (proj1 (null_thread _ _ Hi)) _ _ HEi); [done|by left|lia|simpl; lia].
  - unfold zlen. rewrite Hlen. apply Hi.
  - rewrite HS, HX. apply Hi.
Qed.
End owner.
(** ** The last owner leaves *)

(** Nobody owns the resource and nobody has been granted it. *)
Record left_ok (s : SYSTEM) : Prop := {
  lo_holds : total holds (Threads s) = 0;
  lo_grants : SemaphoreCount s = 0 ∧ total releases (Threads s) = 0;
  lo_waiters : total waits_shared (Threads s) = NumberOfSharedWaiters (Lock s) ∧
    total waits_exclusive (Threads s) = NumberOfExclusiveWaiters (Lock s);
  lo_event : EventSignaled s = false ∧ total sets_event (Threads s) = 0 ∧ total granted (Threads s) = 0;
  lo_active : ActiveCount (Lock s) = 0;
  lo_threads t th : Threads s !! t = Some th → thread_ok t th;
  lo_size : Z.of_nat (size (Threads s)) < 2 ^ 15;
  lo_queues : queues_ok true s;
  lo_entries : entries_ok (entries false (Lock s)) (Threads s);
  lo_table : zlen (OwnerTable (Lock s)) < 2 ^ 16;
  lo_counts : 0 ≤ NumberOfSharedWaiters (Lock s) ∧ 0 ≤ NumberOfExclusiveWaiters (Lock s)
}.

Section pass_on.
Context (s : SYSTEM) (t : Z) (th : THREAD).
Hypothesis Hl : left_ok s.
Hypothesis Ht : Threads s !! t = Some th.
Hypothesis Hidle : State th = Idle.

Lemma left_no_exclusive u thu : Threads s !! u = Some thu → HoldsExclusive thu = false.
Proof using Hl.
  intros Hu. pose proof (no_holder _ _ _ (lo_holds _ Hl) Hu).
  destruct (lo_threads _ Hl _ _ Hu) as [_ _ Hx _ _ _ _]. destruct (HoldsExclusive thu); [|done].
  specialize (Hx eq_refl). lia.
Qed.

(** The thread wakes up waiters with what [R'] grants them. *)
Lemma left_inv md p R' :
  match p with SettingEvent | ReleasingShared _ | Idle => True | _ => False end →
  (∀ n, p = ReleasingShared n → 0 < n) → OwnerTable R' = OwnerTable (Lock s) →
  entries_ok (entries (handoff md) R') (Threads s) →
  mode_ok md R' false 0 (<[t := goes p th]> (Threads s)) →
  0 ≤ NumberOfSharedWaiters R' ∧ 0 ≤ NumberOfExclusiveWaiters R' →
  inv_in md (put_thread t (goes p th) (s <| Lock := R' |>)).
Proof using Hl Ht Hidle.
  intros Hp Hpos Htab HE Hm Hc. destruct (lo_event _ Hl) as [He _]. destruct (lo_grants _ Hl) as [Hs _].
  split.
  - simpl. by rewrite He, Hs.
  - apply threads_insert; [apply Hl|]. destruct (lo_threads _ Hl _ _ Ht) as [H1 H2 H3 H4 H5 H6 H7].
    split; simpl; try done; [unfold waits_shared; simpl; by destruct p|by destruct p|by destruct p].
  - change (Z.of_nat (size (<[t := goes p th]> (Threads s))) < 2 ^ 15).
    rewrite map_size_insert_Some; [apply Hl|eauto].
  - apply (queues_same _ s _ t th (goes p th)); try done; [apply Hl|]. right. unfold blocked. simpl.
    rewrite Hidle. by destruct p.
  - change (entries_ok (entries (handoff md) R') (<[t := goes p th]> (Threads s))).
    apply (eo_same _ _ _ th); [done|done| |done]. unfold entry_count, waits_shared. simpl. rewrite Hidle.
    by destruct p.
  - simpl. rewrite Htab. apply Hl.
  - done.
Qed.

Lemma pass_exclusive_ok :
  NumberOfExclusiveWaiters (Lock s) ≠ 0 →
  inv_in HandoffMode (put_thread t (goes SettingEvent th) (s <| Lock :=
    (Lock s) <| OwnedExclusive := true |> <| Owner0 := mkOwner 1 1 |> <| ActiveCount := 1 |>
       <| NumberOfExclusiveWaiters := u16 (NumberOfExclusiveWaiters (Lock s) - 1) |> |>)).
Proof using Hl Ht Hidle.
  intros HX. destruct (lo_counts _ Hl) as [Hc1 Hc2]. destruct (lo_waiters _ Hl) as [Hw1 Hw2].
  assert (NumberOfExclusiveWaiters (Lock s) < 2 ^ 16).
  { pose proof (totals_bound (Threads s)). pose proof (lo_size _ Hl). lia. }
  rewrite u16_small by lia. apply left_inv; try done; [|..|simpl; lia].
  - change (entries_ok (<[0%nat := mkOwner 0 0]> (entries false (Lock s))) (Threads s)).
    assert (Hnull : Threads s !! 0 = None).
    { destruct (Threads s !! 0) as [th0|] eqn:H0; [|done]. apply (lo_threads _ Hl) in H0 as [? _]. lia. }
    apply eo_first; [apply Hl|done|done|]. intros e0 He0.
    destruct (decide (OwnerThread e0 = 0)) as [|Hne]; [done|].
    destruct (eo_thread _ _ (lo_entries _ Hl) 0 e0 He0 Hne) as (tho & Hto & _ & _ & Hpos).
    specialize (Hpos eq_refl). pose proof (no_holder _ _ _ (lo_holds _ Hl) Hto). lia.
  - unfold mode_ok. counts Ht. destruct (lo_grants _ Hl) as [_ Hr]. destruct (lo_event _ Hl) as (_ & Hse & Hg).
    pose proof (lo_holds _ Hl). weigh. simpl. rewrite Hidle. split_and!; try done; try lia.
Qed.

Lemma pass_shared_ok :
  NumberOfSharedWaiters (Lock s) ≠ 0 →
  inv_in SharedMode (put_thread t (goes (ReleasingShared (NumberOfSharedWaiters (Lock s))) th) (s <| Lock :=
    (Lock s) <| OwnedExclusive := false |> <| ActiveCount := s16 (NumberOfSharedWaiters (Lock s)) |>
       <| NumberOfSharedWaiters := 0 |> |>)).
Proof using Hl Ht Hidle.
  intros HS. destruct (lo_counts _ Hl) as [Hc1 Hc2]. destruct (lo_waiters _ Hl) as [Hw1 Hw2].
  assert (NumberOfSharedWaiters (Lock s) < 2 ^ 15).
  { pose proof (holders_and_waiters _ (lo_threads _ Hl)). pose proof (lo_size _ Hl). pose proof (lo_holds _ Hl). lia. }
  rewrite s16_small by lia. apply left_inv; try done; [|apply Hl|].
  - intros n [= <-]. lia.
  - unfold mode_ok. counts Ht. destruct (lo_grants _ Hl) as [_ Hr]. destruct (lo_event _ Hl) as (_ & Hse & Hg).
    pose proof (lo_holds _ Hl). split_and!; try done; try (weigh; simpl; rewrite ?Hidle; lia).
    apply (threads_insert (λ _ th, HoldsExclusive th = false)); [apply left_no_exclusive|].
    by apply (left_no_exclusive t th).
Qed.

Lemma pass_nobody_ok :
  NumberOfSharedWaiters (Lock s) = 0 → NumberOfExclusiveWaiters (Lock s) = 0 →
  inv_in SharedMode (put_thread t (goes Idle th) (s <| Lock := (Lock s) <| OwnedExclusive := false |> |>)).
Proof using Hl Ht Hidle.
  intros HS HX. apply left_inv; try done; [apply Hl|..|apply Hl].
  unfold mode_ok. counts Ht. destruct (lo_grants _ Hl) as [_ Hr]. destruct (lo_event _ Hl) as (_ & Hse & Hg).
  pose proof (lo_holds _ Hl). pose proof (lo_active _ Hl). destruct (lo_waiters _ Hl) as [Hw1 Hw2].
  split_and!; try done; try (weigh; simpl; rewrite ?Hidle; lia).
  apply (threads_insert (λ _ th, HoldsExclusive th = false)); [apply left_no_exclusive|].
  by apply (left_no_exclusive t th).
Qed.

(** The resource passes to waiters if there are any. *)
Lemma pass_on_ok : ends s t (pass_on (Lock s)).
Proof using Hl Ht Hidle.
  unfold pass_on, IsSharedWaiting, IsExclusiveWaiting. simpl.
  destruct (Z.eqb_spec (NumberOfExclusiveWaiters (Lock s)) 0) as [HX|HX],
    (Z.eqb_spec (NumberOfSharedWaiters (Lock s)) 0) as [HS|HS]; rewrite ?andb_false_r, ?andb_true_r, ?orb_true_r; simpl.
  - eapply (ends_in _ _ th Ht SharedMode); [done|]. by apply pass_nobody_ok.
  - eapply (ends_in _ _ th Ht SharedMode); [done|]. by apply pass_shared_ok.
  - eapply (ends_in _ _ th Ht HandoffMode); [done|]. by apply pass_exclusive_ok.
  - destruct (OwnedExclusive (Lock s)); simpl.
    + eapply (ends_in _ _ th Ht SharedMode); [done|]. by apply pass_shared_ok.
    + eapply (ends_in _ _ th Ht HandoffMode); [done|]. by apply pass_exclusive_ok.
Qed.
End pass_on.

Section last.
Context (md : mode) (s : SYSTEM) (u : Z) (thu : THREAD).
Hypothesis Hi : inv_in md s.
Hypothesis Hu : Threads s !! u = Some thu.
Hypothesis H1 : Holds thu = 1.

(** The resource after the owner has left. *)
Lemma leave_entry_ok :
  ∃ R', set_owner (find_release u (Lock s)) (mkOwner 0 0) (Lock s) = Some R' ∧ same_state (Lock s) R' ∧
    entries_ok (entries false R') (<[u := release thu]> (Threads s)) ∧
    length (OwnerTable R') = length (OwnerTable (Lock s)).
Proof using Hi Hu H1.
  assert (Hp : 0 < Holds thu) by lia. destruct (thread_pointer _ _ _ _ Hi Hu) as (Hu0 & _).
  pose proof (find_release_ok md s u thu Hi Hu Hp) as Hfind. destruct (held md s u thu Hi Hu Hp) as [Hh0 _].
  destruct (release_weights md s u thu Hi Hu Hp) as (_ & _ & _ & _ & _ & _ & V7 & _).
  destruct (set_owner_ok false (find_release u (Lock s)) (mkOwner u (Holds thu)) (mkOwner 0 0) (Lock s))
    as (R' & HR & Hs & HE & Hlen & HO0); [done|exact Hfind|].
  exists R'. split_and!; try done. rewrite HE. pose proof (in_entries _ _ Hi) as HE'. rewrite Hh0 in HE'.
  apply (eo_leave _ _ _ thu _ HE' Hu (proj1 (null_thread _ _ Hi)) _ (mkOwner u (Holds thu))); [|done|done|lia].
  by rewrite <- get_owner_entries.
Qed.

(** Other threads still own the resource, for shared access. *)
Lemma leave_shared_ok R' :
  ActiveCount (Lock s) ≠ 1 → same_state (Lock s) R' →
  entries_ok (entries false R') (<[u := release thu]> (Threads s)) →
  length (OwnerTable R') = length (OwnerTable (Lock s)) →
  inv_in SharedMode (put_thread u (release thu) (s <| Lock := R' <| ActiveCount := ActiveCount (Lock s) - 1 |> |>)).
Proof using Hi Hu H1.
  intros HA (_ & HO & HS & HX) HE Hlen. assert (Hp : 0 < Holds thu) by lia.
  destruct (release_weights md s u thu Hi Hu Hp) as (V1 & V2 & V3 & V4 & W4 & V5 & V7 & V6).
  rewrite decide_True in V6 by done. destruct (holds_pos thu Hp) as [W6 _].
  pose proof (in_mode _ _ Hi) as Hm.
  destruct md; unfold mode_ok in Hm; [|destruct Hm as (_ & Hm & _); lia|destruct Hm as (_ & Hm & _); lia].
  destruct Hm as (? & ? & ? & ? & ? & ? & ? & Hex).
  apply (inv_change SharedMode SharedMode s u thu); try done.
  - by left.
  - by apply (release_thread_ok SharedMode s).
  - unfold mode_ok. counts Hu. split_and!; simpl; try congruence; try lia.
    apply (threads_insert (λ _ th, HoldsExclusive th = false)); [done|]. simpl. by rewrite (Hex u thu Hu).
  - unfold zlen. simpl. rewrite Hlen. apply Hi.
  - simpl. rewrite HS, HX. apply Hi.
Qed.

(** Nobody else does. *)
Lemma leave_left_ok R' :
  ActiveCount (Lock s) = 1 → same_state (Lock s) R' →
  entries_ok (entries false R') (<[u := release thu]> (Threads s)) →
  length (OwnerTable R') = length (OwnerTable (Lock s)) →
  left_ok (put_thread u (release thu) (s <| Lock := R' <| ActiveCount := ActiveCount (Lock s) - 1 |> |>)).
Proof using Hi Hu H1.
  intros HA (_ & HO & HS & HX) HE Hlen. assert (Hp : 0 < Holds thu) by lia.
  destruct (release_weights md s u thu Hi Hu Hp) as (V1 & V2 & V3 & V4 & W4 & V5 & V7 & V6).
  rewrite decide_True in V6 by done. destruct (holds_pos thu Hp) as [W6 _].
  pose proof (q_count _ (in_queues _ _ Hi)) as Hq. pose proof (totals_nonneg (Threads s)) as Hnn.
  pose proof (holds_part _ _ _ Hu) as Hpart.
  assert (Hm : total holds (Threads s) = 1 ∧ SemaphoreCount s = 0 ∧ total releases (Threads s) = 0 ∧
    total waits_shared (Threads s) = NumberOfSharedWaiters (Lock s) ∧
    total waits_exclusive (Threads s) = NumberOfExclusiveWaiters (Lock s) ∧
    EventSignaled s = false ∧ total sets_event (Threads s) = 0 ∧ total granted (Threads s) = 0).
  { pose proof (in_mode _ _ Hi) as Hm. destruct (held md s u thu Hi Hu Hp) as [_ HH].
    destruct md; [..|done]; unfold mode_ok, shared_grants, exclusive_grants in Hm; destruct (EventSignaled s);
      split_and!; try done; lia. }
  destruct Hm as (M1 & M2 & M3 & M4 & M5 & M6 & M7 & M8).
  split; simpl; rewrite ?(total_insert _ _ _ _ _ Hu); try done; try lia.
  - split; [done|lia].
  - apply threads_insert; [apply Hi|]. by apply (release_thread_ok md s).
  - rewrite map_size_insert_Some; [apply Hi|eauto].
  - by apply (queues_same _ s _ u thu (release thu)); [apply Hi|..|left].
  - unfold zlen. rewrite Hlen. apply Hi.
Qed.
End last.

(** ** Calls *)

Lemma release_call_ok md s t th u thu :
  inv_in md s → Threads s !! t = Some th → State th = Idle → Threads s !! u = Some thu → 0 < Holds thu →
  ∃ s', do_call t (ReleaseForThread u) s = Some s' ∧ inv s'.
Proof.
  intros Hi Ht Hidle Hu Hp. simpl.
  assert (Ht' : ∀ R', ∃ th', Threads (put_thread u (release thu) (s <| Lock := R' |>)) !! t = Some th' ∧ State th' = Idle).
  { intros R'. simpl. destruct (decide (t = u)) as [->|Hne].
    - rewrite lookup_insert_eq. eexists. split; [done|]. simpl. congruence.
    - rewrite lookup_insert_ne by done. eauto. }
  destruct (decide (Holds thu = 1)) as [H1|H1].
  - destruct (leave_entry_ok md s u thu Hi Hu H1) as (R' & HR & Hs & HE & Hlen).
    destruct (Ht' (R' <| ActiveCount := ActiveCount (Lock s) - 1 |>)) as (th' & Htt & Hi').
    assert (HA : 0 < ActiveCount (Lock s) < 2 ^ 15).
    { pose proof (holds_part _ _ _ Hu). destruct (holds_pos thu Hp) as [W6 _].
      pose proof (holders_and_waiters _ (in_threads _ _ Hi)). pose proof (in_size _ _ Hi).
      pose proof (q_count _ (in_queues _ _ Hi)). pose proof (totals_nonneg (Threads s)). pose proof (in_counts _ _ Hi).
      pose proof (in_mode _ _ Hi) as Hm. destruct md; unfold mode_ok, shared_grants in Hm; lia. }
    unfold ExReleaseResourceForThreadLite. rewrite (find_release_ok md s u thu Hi Hu Hp).
    cbn [mbind option_bind OwnerCount OwnerThread]. rewrite H1. change (s16 (1 - 1)) with 0. cbn [Z.eqb negb].
    rewrite HR. cbn [mbind option_bind]. cbv zeta. rewrite (proj1 Hs), s16_small, Hu by lia. cbn [mbind option_bind].
    simpl ActiveCount. destruct (Z.eqb_spec (ActiveCount (Lock s) - 1) 0) as [Hz|Hz].
    + pose proof (leave_left_ok md s u thu Hi Hu H1 R' ltac:(lia) Hs HE Hlen) as Hl.
      exact (pass_on_ok _ t th' Hl Htt Hi').
    + pose proof (leave_shared_ok md s u thu Hi Hu H1 R' ltac:(lia) Hs HE Hlen) as Hi2.
      apply (ends_in _ t th' Htt SharedMode (Released, _) (goes Idle th')); [done|].
      apply (neutral_ok SharedMode _ t th' Idle Hi2 Htt); [by rewrite Hi'|done|done].
  - destruct (release_again_ok md s u thu Hi Hu Hp H1) as (R' & -> & Hi2). cbn [mbind option_bind]. rewrite Hu.
    cbn [mbind option_bind]. destruct (Ht' R') as (th' & Htt & Hi').
    apply (ends_in _ t th' Htt md (Released, _) (goes Idle th')); [done|].
    apply (neutral_ok md _ t th' Idle Hi2 Htt); [by rewrite Hi'|done|done].
Qed.

Lemma put_put t th th' s R :
  put_thread t th' ((put_thread t th s) <| Lock := R |>) = put_thread t th' (s <| Lock := R |>).
Proof. unfold put_thread. simpl. by rewrite insert_insert_eq. Qed.

(** The exclusive owner becomes a shared owner. *)
Lemma convert_ok s t th n :
  inv_in (OwnedMode t) s → Threads s !! t = Some th → State th = Idle → NumberOfSharedWaiters (Lock s) = n →
  let th1 := th <| HoldsExclusive := false |> in
  inv_in SharedMode (put_thread t (goes (if n =? 0 then Idle else ReleasingShared n) th1)
    (s <| Lock := (Lock s) <| OwnedExclusive := false |> <| ActiveCount := 1 + n |> <| NumberOfSharedWaiters := 0 |> |>)).
Proof.
  intros Hi Ht Hidle Hn th1. destruct (in_counts _ _ Hi) as [Hc1 Hc2].
  set (p := if n =? 0 then Idle else ReleasingShared n).
  assert (Hrel : releases (goes p th1) = n) by (unfold p; weigh; destruct (Z.eqb_spec n 0); simpl; lia).
  assert (Hp : match p with Idle | ReleasingShared _ => True | _ => False end) by (unfold p; by destruct (n =? 0)).
  pose proof (in_mode _ _ Hi) as Hm. unfold mode_ok in Hm.
  destruct Hm as (? & ? & ? & ? & ? & ? & ? & H1 & tho & Hto & Hpos & Hex & Hown).
  rewrite Ht in Hto. apply (inj Some) in Hto as <-.
  assert (Hb : blocked th = false) by (unfold blocked; by rewrite Hidle).
  apply (inv_section (OwnedMode t) SharedMode s t th); try done.
  - unfold blocked. simpl. by destruct p.
  - destruct (in_threads _ _ Hi t th Ht) as [T1 T2 T3 T4 T5 T6 T7].
    split; simpl; try done; [unfold waits_shared; simpl; by destruct p|by destruct p| |by destruct p].
    intros k Hk. unfold p in Hk. destruct (Z.eqb_spec n 0); [done|]. injection Hk as <-. lia.
  - assert (V : waits_exclusive (goes p th1) = 0 ∧ granted (goes p th1) = 0 ∧ sets_event (goes p th1) = 0 ∧
      waits_shared (goes p th1) = 0 ∧ holds (goes p th1) = holds th) by (weigh; simpl; by destruct p).
    assert (W : waits_exclusive th = 0 ∧ granted th = 0 ∧ sets_event th = 0 ∧ waits_shared th = 0 ∧ releases th = 0)
      by (weigh; by rewrite Hidle).
    unfold mode_ok. counts Ht. simpl. split_and!; try done; try lia.
    intros u thu. destruct (decide (u = t)) as [->|Hne].
    + rewrite lookup_insert_eq. by intros [= <-].
    + rewrite lookup_insert_ne by done. intros Hu. pose proof (sole_holder _ _ _ _ _ H1 Ht Hpos Hu Hne). destruct (in_threads _ _ Hi u thu Hu) as [_ _ Hx _ _ _ _].
      destruct (HoldsExclusive thu); [|done]. specialize (Hx eq_refl). lia.
  - change (entries_ok (entries false (Lock s)) (<[t := goes p th1]> (Threads s))).
    apply (eo_same _ _ _ th); [apply Hi|done| |done]. unfold entry_count, waits_shared. simpl. rewrite Hidle.
    by destruct p.
  - apply Hi.
Qed.

Lemma convert_call_ok md s t th :
  inv_in md s → Threads s !! t = Some th → State th = Idle → HoldsExclusive th = true →
  ∃ s', do_call t ConvertExclusiveToShared s = Some s' ∧ inv s'.
Proof.
  intros Hi Ht Hidle Hex. pose proof (exclusive_owner _ _ _ _ Hi Ht Hex) as ->.
  pose proof (convert_ok s t th _ Hi Ht Hidle eq_refl) as Hi'. cbv zeta in Hi'.
  pose proof (in_mode _ _ Hi) as Hm. unfold mode_ok in Hm. destruct Hm as (_ & HA & _ & Hw & _ & _ & _ & H1 & _).
  pose proof (in_counts _ _ Hi) as Hc. pose proof (in_size _ _ Hi). pose proof (holders_and_waiters _ (in_threads _ _ Hi)).
  simpl. rewrite Ht. cbn [mbind option_bind]. unfold section, ExConvertExclusiveToSharedLite, IsSharedWaiting.
  simpl Threads. rewrite lookup_insert_eq. cbn [mbind option_bind]. simpl NumberOfSharedWaiters.
  destruct (Z.eqb_spec (NumberOfSharedWaiters (Lock s)) 0) as [HN|HN]; cbn [negb fst snd].
  - eexists. split; [done|]. exists SharedMode. rewrite put_put. rewrite HN in Hi'.
    destruct Hi' as [I1 I2 I3 [Q1 Q2 Q3 Q4 Q5 Q6 Q7] I5 I6 I7].
    split; [|done|done|by split|done|done|simpl in *; lia].
    eapply mode_ok_same; [..|exact I1]; [|done]. split_and!; simpl; try done; lia.
  - eexists. split; [done|]. exists SharedMode. rewrite put_put. simpl ActiveCount. rewrite HA, !s16_small by (rewrite ?s16_small; lia).
    exact Hi'.
Qed.
