(* ===== verification/ResourceWait.v ===== *)
(** * Waits and wakeups of a resource keep the invariant *)

From stdpp Require Import base list list_tactics numbers option gmap fin_maps.
From S2P Require Import Prelude Resource ResourceSys ResourceInv ResourceOk ResourceAcquire ResourceRelease.

(** ** Queues *)

Lemma in_event_queue b s t th :
  queues_ok b s → Threads s !! t = Some th → t ∈ EventWaiters s ↔ State th = BlockedExclusive.
Proof. intros Hq Ht. rewrite (q_event _ _ Hq), Ht. naive_solver. Qed.

Lemma in_semaphore_queue b s t th :
  queues_ok b s → Threads s !! t = Some th → t ∈ SemaphoreWaiters s ↔ ∃ a, State th = BlockedShared a.
Proof. intros Hq Ht. rewrite (q_sem _ _ Hq), Ht. naive_solver. Qed.

(** A dispatcher call that moves one thread. *)
Lemma inv_move b b' md md' s s' t th th' :
  inv_at b md s → Threads s !! t = Some th → Threads s' = <[t := th']> (Threads s) → thread_ok t th' →
  NoDup (EventWaiters s') →
  (∀ u, u ∈ EventWaiters s' ↔ u = t ∧ State th' = BlockedExclusive ∨ u ≠ t ∧ u ∈ EventWaiters s) →
  NoDup (SemaphoreWaiters s') →
  (∀ u, u ∈ SemaphoreWaiters s' ↔ u = t ∧ (∃ a, State th' = BlockedShared a) ∨ u ≠ t ∧ u ∈ SemaphoreWaiters s) →
  (b' = true → EventSignaled s' = true → EventWaiters s' = []) → 0 ≤ SemaphoreCount s' →
  (b' = true → 0 < SemaphoreCount s' → SemaphoreWaiters s' = []) →
  mode_ok md' (Lock s') (EventSignaled s') (SemaphoreCount s') (<[t := th']> (Threads s)) →
  entries_ok (entries (handoff md') (Lock s')) (<[t := th']> (Threads s)) →
  OwnerTable (Lock s') = OwnerTable (Lock s) →
  NumberOfSharedWaiters (Lock s') = NumberOfSharedWaiters (Lock s) →
  NumberOfExclusiveWaiters (Lock s') = NumberOfExclusiveWaiters (Lock s) → inv_at b' md' s'.
Proof.
  intros Hi Ht HT Hok He1 He2 Hs1 Hs2 He3 Hc Hs3 Hm HE Htab HS HX.
  pose proof (in_queues _ _ Hi) as Hq. split; rewrite ?HT, ?Htab, ?HS, ?HX; try done; try apply Hi.
  - apply threads_insert; [apply Hi|done].
  - rewrite map_size_insert_Some; [apply Hi|eauto].
  - split; try done; intros u; rewrite HT.
    + rewrite He2, (q_event _ _ Hq). destruct (decide (u = t)) as [->|].
      * rewrite lookup_insert_eq. naive_solver.
      * rewrite lookup_insert_ne by done. naive_solver.
    + rewrite Hs2, (q_sem _ _ Hq). destruct (decide (u = t)) as [->|].
      * rewrite lookup_insert_eq. naive_solver.
      * rewrite lookup_insert_ne by done. naive_solver.
Qed.

(** A queue that the thread is not in, joins, or leaves. *)
Lemma queue_other (l : list Z) t (P : Prop) : t ∉ l → ¬ P → ∀ u, u ∈ l ↔ u = t ∧ P ∨ u ≠ t ∧ u ∈ l.
Proof. intros Ht HP u. destruct (decide (u = t)) as [->|]; tauto. Qed.

Lemma queue_join (l : list Z) t (P : Prop) : t ∉ l → P → ∀ u, u ∈ l ++ [t] ↔ u = t ∧ P ∨ u ≠ t ∧ u ∈ l.
Proof.
  intros Ht HP u. rewrite elem_of_app, list_elem_of_singleton. destruct (decide (u = t)) as [->|]; tauto.
Qed.

Lemma queue_filter (l : list Z) t (P : Prop) :
  ¬ P → ∀ u, u ∈ filter (λ u, u ≠ t) l ↔ u = t ∧ P ∨ u ≠ t ∧ u ∈ l.
Proof. intros HP u. rewrite list_elem_of_filter. tauto. Qed.

Lemma queue_head (l : list Z) t (P : Prop) :
  NoDup (t :: l) → ¬ P → ∀ u, u ∈ l ↔ u = t ∧ P ∨ u ≠ t ∧ u ∈ t :: l.
Proof.
  intros [Hn _]%NoDup_cons HP u. rewrite elem_of_cons. destruct (decide (u = t)) as [->|]; tauto.
Qed.

Lemma nodup_join (l : list Z) t : NoDup l → t ∉ l → NoDup (l ++ [t]).
Proof.
  intros Hl Ht. apply NoDup_app. split_and!; [done| |apply NoDup_singleton].
  intros u Hu ->%list_elem_of_singleton. done.
Qed.

(** ** Blocking and timing out *)

(** The thread counts as before. *)
Lemma mode_requeue md R ev c m t th p :
  mode_ok md R ev c m → m !! t = Some th → granted th = 0 →
  waits_exclusive (goes p th) = waits_exclusive th → granted (goes p th) = 0 →
  sets_event (goes p th) = sets_event th → waits_shared (goes p th) = waits_shared th →
  releases (goes p th) = releases th → mode_ok md R ev c (<[t := goes p th]> m).
Proof.
  intros Hm Ht W2 V1 V2 V3 V4 V5. by apply (mode_goes md R R ev c m t th p Hm Ht W2); try done; lia.
Qed.

Section steps.
Context (md : mode) (s : SYSTEM) (t : Z) (th : THREAD).
Hypothesis Hi : inv_in md s.
Hypothesis Ht : Threads s !! t = Some th.

Lemma requeue_entries p :
  waits_shared (goes p th) = waits_shared th →
  entries_ok (entries (handoff md) (Lock s)) (<[t := goes p th]> (Threads s)).
Proof using Hi Ht.
  intros Hw. apply (eo_same _ _ _ th); [apply Hi|done| |done]. unfold entry_count. by rewrite Hw.
Qed.

Lemma block_exclusive_ok :
  State th = EnteringExclusive → EventSignaled s = false →
  inv_in md (put_thread t (goes BlockedExclusive th) (s <| EventWaiters := EventWaiters s ++ [t] |>)).
Proof using Hi Ht.
  intros Hs Hev. pose proof (in_queues _ _ Hi) as Hq.
  assert (Hne : t ∉ EventWaiters s) by (rewrite (in_event_queue _ _ _ _ Hq Ht); congruence).
  assert (Hns : t ∉ SemaphoreWaiters s) by (rewrite (in_semaphore_queue _ _ _ _ Hq Ht); intros [a Ha]; congruence).
  apply (inv_move true true md md s _ t th (goes BlockedExclusive th)); try done.
  - apply thread_ok_goes; [by apply Hi|done|done].
  - apply nodup_join; [apply Hq|done].
  - by apply queue_join.
  - apply Hq.
  - apply queue_other; [done|]. by intros [a Ha].
  - simpl. by rewrite Hev.
  - apply Hq.
  - apply Hq.
  - apply (mode_requeue _ _ _ _ _ _ th); try done; [apply Hi|..]; weigh; by rewrite Hs.
  - apply requeue_entries. unfold waits_shared. by rewrite Hs.
Qed.

Lemma timeout_exclusive_ok :
  State th = BlockedExclusive →
  inv_in md (put_thread t (goes EnteringExclusive th) (s <| EventWaiters := filter (λ u, u ≠ t) (EventWaiters s) |>)).
Proof using Hi Ht.
  intros Hs. pose proof (in_queues _ _ Hi) as Hq.
  assert (Hns : t ∉ SemaphoreWaiters s) by (rewrite (in_semaphore_queue _ _ _ _ Hq Ht); intros [a Ha]; congruence).
  apply (inv_move true true md md s _ t th (goes EnteringExclusive th)); try done.
  - apply thread_ok_goes; [by apply Hi|done|done].
  - apply NoDup_filter, Hq.
  - by apply queue_filter.
  - apply Hq.
  - apply queue_other; [done|]. by intros [a Ha].
  - intros _ Hev. simpl. by rewrite (q_signaled _ _ Hq eq_refl Hev).
  - apply Hq.
  - apply Hq.
  - apply (mode_requeue _ _ _ _ _ _ th); try done; [apply Hi|..]; weigh; by rewrite Hs.
  - apply requeue_entries. unfold waits_shared. by rewrite Hs.
Qed.

Lemma block_shared_ok :
  State th = EnteringShared false → SemaphoreCount s = 0 →
  inv_in md (put_thread t (goes (BlockedShared false) th) (s <| SemaphoreWaiters := SemaphoreWaiters s ++ [t] |>)).
Proof using Hi Ht.
  intros Hs H0. pose proof (in_queues _ _ Hi) as Hq.
  assert (Hne : t ∉ EventWaiters s) by (rewrite (in_event_queue _ _ _ _ Hq Ht); congruence).
  assert (Hns : t ∉ SemaphoreWaiters s) by (rewrite (in_semaphore_queue _ _ _ _ Hq Ht); intros [a Ha]; congruence).
  apply (inv_move true true md md s _ t th (goes (BlockedShared false) th)); try done.
  - destruct (in_threads _ _ Hi t th Ht) as [T1 T2 T3 T4 T5 T6 T7]. split; try done.
    intros _. apply T4. unfold waits_shared. by rewrite Hs.
  - apply Hq.
  - by apply queue_other.
  - apply nodup_join; [apply Hq|done].
  - apply queue_join; [done|]. by exists false.
  - apply Hq.
  - apply Hq.
  - intros _. simpl. lia.
  - apply (mode_requeue _ _ _ _ _ _ th); try done; [apply Hi|..]; weigh; by rewrite Hs.
  - apply requeue_entries. unfold waits_shared. by rewrite Hs.
Qed.

Lemma timeout_shared_ok :
  State th = BlockedShared false →
  inv_in md (put_thread t (goes (EnteringShared false) th)
    (s <| SemaphoreWaiters := filter (λ u, u ≠ t) (SemaphoreWaiters s) |>)).
Proof using Hi Ht.
  intros Hs. pose proof (in_queues _ _ Hi) as Hq.
  assert (Hne : t ∉ EventWaiters s) by (rewrite (in_event_queue _ _ _ _ Hq Ht); congruence).
  apply (inv_move true true md md s _ t th (goes (EnteringShared false) th)); try done.
  - destruct (in_threads _ _ Hi t th Ht) as [T1 T2 T3 T4 T5 T6 T7]. split; try done.
    intros _. apply T4. unfold waits_shared. by rewrite Hs.
  - apply Hq.
  - by apply queue_other.
  - apply NoDup_filter, Hq.
  - apply queue_filter. by intros [a Ha].
  - apply Hq.
  - apply Hq.
  - intros _ Hc. simpl. by rewrite (q_available _ _ Hq eq_refl Hc).
  - apply (mode_requeue _ _ _ _ _ _ th); try done; [apply Hi|..]; weigh; by rewrite Hs.
  - apply requeue_entries. unfold waits_shared. by rewrite Hs.
Qed.
End steps.

(** ** Exclusive grants *)

(** A signaled event is a pending grant. *)
Lemma signaled_mode b md s : inv_at b md s → EventSignaled s = true → md = HandoffMode.
Proof.
  intros Hi He. pose proof (in_mode _ _ Hi) as Hm. pose proof (totals_nonneg (Threads s)).
  destruct md; [..|done]; unfold mode_ok, exclusive_grants in Hm; rewrite He in Hm; lia.
Qed.

Lemma sets_event_mode b md s t th :
  inv_at b md s → Threads s !! t = Some th → State th = SettingEvent → md = HandoffMode ∧ EventSignaled s = false.
Proof.
  intros Hi Ht Hs. pose proof (in_mode _ _ Hi) as Hm. pose proof (totals_nonneg (Threads s)).
  assert (1 ≤ total sets_event (Threads s)).
  { pose proof (total_ge sets_event _ _ _ (λ th, proj1 (proj1 (proj2 (proj2 (weights_nonneg th))))) Ht) as Hle.
    unfold sets_event at 1 in Hle. by rewrite Hs in Hle. }
  destruct md; unfold mode_ok, exclusive_grants in Hm; destruct (EventSignaled s); try lia. done.
Qed.

(** The event satisfies the wait of a thread: it is reset. The thread that sets the
    event stores the new owner, or has stored nothing. *)
Lemma take_event_ok b s w th o ws :
  inv_at b HandoffMode s → EventSignaled s = true → Threads s !! w = Some th → waits_exclusive th = 1 →
  o = OwnerThread (Owner0 (Lock s)) ∨ o = w →
  EventWaiters s = (if blocked th then w :: ws else ws) →
  (∀ a, State th ≠ BlockedShared a) → (0 < SemaphoreCount s → SemaphoreWaiters s = []) →
  inv_in HandoffMode (put_thread w (goes GrantedExclusive th)
    (s <| EventSignaled := false |> <| EventWaiters := ws |>
       <| Lock := (Lock s) <| Owner0 := mkOwner o (OwnerCount (Owner0 (Lock s))) |> |>)).
Proof.
  intros Hi Hev Hw Hwait Ho Hqueue Hbs Hav. pose proof (in_queues _ _ Hi) as Hq.
  assert (Hst : State th = EnteringExclusive ∨ State th = BlockedExclusive).
  { unfold waits_exclusive in Hwait. destruct (State th); auto; done. }
  assert (Hns : w ∉ SemaphoreWaiters s) by (rewrite (in_semaphore_queue _ _ _ _ Hq Hw); by intros [a Ha%Hbs]).
  assert (Hev1 : NoDup ws ∧ ∀ u, u ∈ ws ↔ u = w ∧ GrantedExclusive = BlockedExclusive ∨ u ≠ w ∧ u ∈ EventWaiters s).
  { pose proof (q_event_nodup _ _ Hq) as Hnd. rewrite Hqueue in *. destruct (blocked th) eqn:Hb.
    - apply NoDup_cons in Hnd as Hnd2. split; [apply Hnd2|]. by apply queue_head.
    - split; [done|]. apply queue_other; [|done]. pose proof (in_event_queue _ _ _ _ Hq Hw) as Hin.
      rewrite Hqueue in Hin. rewrite Hin. unfold blocked in Hb. intros Heq. by rewrite Heq in Hb. }
  apply (inv_move b true HandoffMode HandoffMode s _ w th (goes GrantedExclusive th)); try done; try apply Hev1.
  - apply thread_ok_goes; [by apply Hi|done|done].
  - apply Hq.
  - apply queue_other; [done|]. by intros [a Ha].
  - apply Hq.
  - pose proof (in_mode _ _ Hi) as Hm. unfold mode_ok in *. counts Hw. simpl. rewrite Hev in Hm.
    destruct Hm as (? & ? & ? & ? & ? & ? & ? & ? & Hown). weigh. simpl.
    split_and!; try done; try (destruct Hst as [Hst|Hst]; rewrite Hst in *; lia).
    destruct Ho as [->| ->].
    + destruct Hown as [Hown|(thu & Hu & Hg)]; [by left|right]. exists thu.
      rewrite lookup_insert_ne; [done|]. intros Heq. rewrite <- Heq, Hw in Hu. apply (inj Some) in Hu as ->.
      destruct Hst; congruence.
    + right. rewrite lookup_insert_eq. by eexists.
  - apply (eo_same _ _ _ th); [apply Hi|done| |done]. unfold entry_count, waits_shared. simpl.
    by destruct Hst as [->| ->].
Qed.

(** The owner of the last acquisition signals the event. *)
Lemma set_event_ok s t th :
  inv_in HandoffMode s → Threads s !! t = Some th → State th = SettingEvent → EventSignaled s = false →
  inv_at false HandoffMode (put_thread t (goes Idle th) (s <| EventSignaled := true |>)).
Proof.
  intros Hi Ht Hs Hev. pose proof (in_queues _ _ Hi) as Hq.
  assert (Hne : t ∉ EventWaiters s) by (rewrite (in_event_queue _ _ _ _ Hq Ht); congruence).
  assert (Hns : t ∉ SemaphoreWaiters s) by (rewrite (in_semaphore_queue _ _ _ _ Hq Ht); intros [a Ha]; congruence).
  apply (inv_move true false HandoffMode HandoffMode s _ t th (goes Idle th)); try done; try apply Hq.
  - apply thread_ok_goes; [by apply Hi|done|done].
  - by apply queue_other.
  - apply queue_other; [done|]. by intros [a Ha].
  - pose proof (in_mode _ _ Hi) as Hm. unfold mode_ok in *. counts Ht. simpl. rewrite Hev in Hm.
    destruct Hm as (? & ? & ? & ? & ? & ? & ? & ? & Hown). weigh. simpl. rewrite Hs.
    split_and!; try done; try lia. destruct Hown as [Hown|(thu & Hu & Hg)]; [by left|right]. exists thu.
    rewrite lookup_insert_ne; [done|]. intros Heq. rewrite <- Heq, Ht in Hu. apply (inj Some) in Hu as ->. congruence.
  - apply (eo_same _ _ _ th); [apply Hi|done| |done]. unfold entry_count, waits_shared. simpl. by rewrite Hs.
Qed.

(** The new owner returns from its wait. *)
Lemma granted_ok md s t th :
  inv_in md s → Threads s !! t = Some th → State th = GrantedExclusive →
  inv_in (OwnedMode t) (put_thread t (acquire true th)
    (s <| Lock := (Lock s) <| Owner0 := mkOwner t (OwnerCount (Owner0 (Lock s))) |> |>)).
Proof.
  intros Hi Ht Hs. pose proof (in_mode _ _ Hi) as Hm. pose proof (totals_nonneg (Threads s)) as Hnn.
  assert (Hg : 1 ≤ total granted (Threads s)).
  { pose proof (granted_part _ _ _ Ht) as Hg. unfold granted at 1 in Hg. by rewrite Hs in Hg. }
  destruct md; unfold mode_ok, exclusive_grants in Hm; [lia|lia|].
  destruct Hm as (? & ? & ? & ? & ? & ? & Hz & Hcnt & Hown). pose proof (no_holder _ _ _ Hz Ht).
  destruct (thread_pointer _ _ _ _ Hi Ht) as (Ht0 & _ & Hh).
  destruct (acquire_weights true th) as (V1 & V2 & V3 & V4 & V5 & V6 & V7); [lia|].
  assert (W : waits_exclusive th = 0 ∧ granted th = 1 ∧ sets_event th = 0 ∧ waits_shared th = 0 ∧ releases th = 0)
    by (weigh; by rewrite Hs).
  destruct (holds_zero th) as [W6 W7]; [lia|].
  apply (inv_section HandoffMode (OwnedMode t) s t th); try done.
  - unfold blocked. by rewrite Hs.
  - apply acquire_ok; [by apply Hi|lia].
  - unfold mode_ok. counts Ht. split_and!; try done; try (simpl; destruct (EventSignaled s); lia).
    exists (acquire true th). rewrite lookup_insert_eq. split_and!; [done|simpl; lia|apply orb_true_r|].
    simpl. rewrite Hcnt. f_equal. lia.
  - change (entries_ok (<[0%nat := mkOwner t (OwnerCount (Owner0 (Lock s)))]> (entries true (Lock s)))
      (<[t := acquire true th]> (Threads s))).
    replace (OwnerCount (Owner0 (Lock s))) with (entry_count (acquire true th)) by lia.
    apply (eo_take _ _ _ th _ (in_entries _ _ Hi) Ht (proj1 (null_thread _ _ Hi)) 0 (mkOwner 0 0));
      try done; [|lia|simpl; lia]. right. split; [done|lia].
  - apply Hi.
  - apply Hi.
Qed.

(** ** Shared grants *)

Lemma shared_waiter_state th : 0 < waits_shared th → ∃ a, State th = EnteringShared a ∨ State th = BlockedShared a.
Proof. unfold waits_shared. destruct (State th); eauto; lia. Qed.

(** The semaphore satisfies the wait of a thread. *)
Lemma take_semaphore_ok b md s w th ws :
  inv_at b md s → 0 < SemaphoreCount s → Threads s !! w = Some th → waits_shared th = 1 →
  SemaphoreWaiters s = (if blocked th then w :: ws else ws) →
  (b = true → ws = []) → (EventSignaled s = true → EventWaiters s = []) →
  inv_at b SharedMode (put_thread w (acquire false th)
    (s <| SemaphoreWaiters := ws |> <| SemaphoreCount := SemaphoreCount s - 1 |>)).
Proof.
  intros Hi Hc Hw Hwait Hqueue Hws Hev. pose proof (in_queues _ _ Hi) as Hq.
  pose proof (totals_nonneg (Threads s)) as Hnn. pose proof (in_mode _ _ Hi) as Hm.
  destruct md; unfold mode_ok, shared_grants in Hm; [|lia|lia]. fold (shared_grants (SemaphoreCount s) (Threads s)) in Hm.
  destruct (shared_waiter_state th) as [a Hst]; [lia|]. destruct (in_threads _ _ Hi w th Hw) as [T1 T2 T3 T4 T5 T6 T7].
  assert (H0 : Holds th = 0) by (apply T4; lia). destruct (holds_zero th H0) as [W6 W7].
  destruct (acquire_weights false th) as (V1 & V2 & V3 & V4 & V5 & V6 & V7); [lia|].
  assert (W : waits_exclusive th = 0 ∧ granted th = 0 ∧ sets_event th = 0 ∧ releases th = 0)
    by (weigh; by destruct Hst as [->| ->]).
  assert (Hne : w ∉ EventWaiters s) by (rewrite (in_event_queue _ _ _ _ Hq Hw); destruct Hst; congruence).
  assert (Hs1 : NoDup ws ∧ ∀ u, u ∈ ws ↔ u = w ∧ (∃ a, Idle = BlockedShared a) ∨ u ≠ w ∧ u ∈ SemaphoreWaiters s).
  { pose proof (q_sem_nodup _ _ Hq) as Hnd. rewrite Hqueue in *. destruct (blocked th) eqn:Hb.
    - apply NoDup_cons in Hnd as Hnd2. split; [apply Hnd2|]. apply queue_head; [done|]. by intros [? ?].
    - split; [done|]. apply queue_other; [|by intros [? ?]]. pose proof (in_semaphore_queue _ _ _ _ Hq Hw) as Hin.
      rewrite Hqueue in Hin. rewrite Hin. unfold blocked in Hb. intros [a' Heq]. by rewrite Heq in Hb. }
  apply (inv_move b b SharedMode SharedMode s _ w th (acquire false th)); try done; try apply Hs1; try apply Hq.
  - apply acquire_ok; [done|lia].
  - by apply queue_other.
  - simpl. lia.
  - intros Hb _. by apply Hws.
  - unfold mode_ok. counts Hw. destruct Hm as (? & ? & ? & ? & ? & ? & ? & Hex). simpl.
    split_and!; try done; try lia.
    apply (threads_insert (λ _ th, HoldsExclusive th = false)); [done|]. simpl. by rewrite (Hex w th Hw).
  - apply (eo_same _ _ _ th); [apply Hi|done|lia|simpl; lia].
Qed.

(** The waiters that the semaphore can satisfy are satisfied. *)
Lemma wake_shared_ok n : ∀ s,
  inv_at false SharedMode s → (EventSignaled s = true → EventWaiters s = []) →
  (length (SemaphoreWaiters s) ≤ n)%nat →
  ∃ s', wake_shared n s = Some s' ∧ inv_in SharedMode s'.
Proof.
  induction n as [|n IH]; intros s Hi Hev Hlen.
  - exists s. split; [done|]. destruct Hi as [I1 I2 I3 [Q1 Q2 Q3 Q4 Q5 Q6 Q7] I5 I6 I7]. split; try done.
    split; try done. intros _ _. by destruct (SemaphoreWaiters s); simpl in Hlen; [|lia].
  - simpl. destruct (SemaphoreWaiters s) as [|w ws] eqn:Hqueue.
    { exists s. split; [done|]. destruct Hi as [I1 I2 I3 [Q1 Q2 Q3 Q4 Q5 Q6 Q7] I5 I6 I7]. by split. }
    pose proof (in_queues _ _ Hi) as Hq. pose proof (q_count _ Hq) as Hc.
    destruct (Z.eqb_spec (SemaphoreCount s) 0) as [H0|H0].
    { exists s. split; [done|]. destruct Hi as [I1 I2 I3 [Q1 Q2 Q3 Q4 Q5 Q6 Q7] I5 I6 I7]. split; try done.
      split; try done. lia. }
    assert (Hw : w ∈ SemaphoreWaiters s) by (rewrite Hqueue; by left).
    apply (q_sem _ _ Hq) in Hw as (th & a & Hw & Hs). rewrite Hw. cbn [mbind option_bind]. rewrite Hs.
    assert (Ha : a = false).
    { destruct (in_threads _ _ Hi w th Hw) as [_ _ _ _ [_ Ha] _ _]. destruct a; [by rewrite Hs in Ha|done]. }
    subst a. apply IH; [|done|simpl in *; lia].
    apply (take_semaphore_ok false SharedMode s w th ws); try done; [lia|..].
    + unfold waits_shared. by rewrite Hs.
    + unfold blocked. by rewrite Hs.
Qed.

(** The thread that passes the resource on releases the semaphore. *)
Lemma release_semaphore_ok md s t th n :
  inv_in md s → Threads s !! t = Some th → State th = ReleasingShared n →
  inv_at false SharedMode (put_thread t (goes Idle th) (s <| SemaphoreCount := SemaphoreCount s + n |>)).
Proof.
  intros Hi Ht Hs. pose proof (in_queues _ _ Hi) as Hq. pose proof (q_count _ Hq) as Hc.
  pose proof (totals_nonneg (Threads s)) as Hnn. pose proof (in_mode _ _ Hi) as Hm.
  destruct (in_threads _ _ Hi t th Ht) as [T1 T2 T3 T4 T5 T6 T7]. pose proof (T6 n Hs) as Hn.
  assert (Hr : n ≤ total releases (Threads s)).
  { pose proof (total_ge releases _ _ _ (λ th, proj1 (proj2 (proj2 (proj2 (proj2 (weights_nonneg th)))))) Ht) as Hle.
    unfold releases at 1 in Hle. rewrite Hs in Hle. lia. }
  destruct md; [|unfold mode_ok, shared_grants in Hm; lia..].
  assert (Hne : t ∉ EventWaiters s) by (rewrite (in_event_queue _ _ _ _ Hq Ht); congruence).
  assert (Hns : t ∉ SemaphoreWaiters s) by (rewrite (in_semaphore_queue _ _ _ _ Hq Ht); intros [a Ha]; congruence).
  apply (inv_move true false SharedMode SharedMode s _ t th (goes Idle th)); try done; try apply Hq.
  - by apply queue_other.
  - apply queue_other; [done|]. by intros [a Ha].
  - simpl. lia.
  - unfold mode_ok in *. counts Ht. destruct Hm as (? & ? & ? & ? & ? & ? & ? & Hex). simpl.
    assert (W : waits_exclusive th = 0 ∧ granted th = 0 ∧ sets_event th = 0 ∧ waits_shared th = 0 ∧ releases th = n)
      by (weigh; rewrite Hs; lia).
    assert (V : waits_exclusive (goes Idle th) = 0 ∧ granted (goes Idle th) = 0 ∧ sets_event (goes Idle th) = 0 ∧
      waits_shared (goes Idle th) = 0 ∧ releases (goes Idle th) = 0 ∧ holds (goes Idle th) = holds th) by done.
    split_and!; try done; try lia.
    apply (threads_insert (λ _ th, HoldsExclusive th = false)); [done|by apply (Hex t th)].
  - apply (eo_same _ _ _ th); [apply Hi|done| |done]. unfold entry_count, waits_shared. simpl. by rewrite Hs.
Qed.
