(* ===== verification/ResourceRun.v ===== *)
(** * Runs of threads that share a resource

    Every step that a thread may take is defined and keeps the invariant, so the
    invariant holds in every reachable state; and what follows from it about
    holders, waiters and queries. *)

From stdpp Require Import base list list_tactics numbers option gmap fin_maps.
From S2P Require Import Prelude Resource ResourceSys ResourceInv ResourceOk ResourceAcquire ResourceRelease ResourceWait.

(** ** Steps *)

Lemma resource_call_ok s t c :
  inv s → action_ok s (Call t c) → no_wait_for_exclusive (Call t c) → ∃ s', do_call t c s = Some s' ∧ inv s'.
Proof.
  intros [md Hi] (th & Ht & Hidle & Hc) Hw. assert (Hn : neutral (State th)) by (by rewrite Hidle). destruct c; simpl.
  - by apply (exclusive_call_ok md _ _ th).
  - by apply (try_call_ok md _ _ th).
  - by apply (shared_call_ok md _ _ th).
  - by apply (shared_call_ok md _ _ th).
  - destruct Wait; [done|]. destruct (wait_for_exclusive_ok md s t th Hi Ht Hn Hc) as (r & -> & Hr). exact Hr.
  - destruct Hc as (thu & Hu & Hp). by apply (release_call_ok md s t th owner thu).
  - by apply (convert_call_ok md s t th).
Qed.

(** The thread that sets the event hands the resource to the first waiter. *)
Lemma set_event_call_ok md s t th :
  inv_in md s → Threads s !! t = Some th → State th = SettingEvent → ∃ s', continue t s = Some s' ∧ inv s'.
Proof.
  intros Hi Ht Hs. destruct (sets_event_mode _ _ _ _ _ Hi Ht Hs) as [-> Hev].
  pose proof (set_event_ok s t th Hi Ht Hs Hev) as Hi1. pose proof (in_queues _ _ Hi) as Hq.
  unfold continue. rewrite Ht. cbn [mbind option_bind]. rewrite Hs. unfold set_event_boost. cbv zeta. simpl EventWaiters.
  destruct (EventWaiters s) as [|w ws] eqn:Hqueue.
  - eexists. split; [done|]. exists HandoffMode.
    destruct Hi1 as [I1 I2 I3 [Q1 Q2 Q3 Q4 Q5 Q6 Q7] I5 I6 I7]. split; try done. split; try done. apply Hq.
  - assert (Hw : w ∈ EventWaiters s) by (rewrite Hqueue; by left).
    apply (q_event _ _ Hq) in Hw as (wth & Hw & Hb). assert (Hne : w ≠ t) by congruence.
    simpl Threads. rewrite lookup_insert_ne, Hw by done. cbn [mbind option_bind].
    eexists. split; [done|]. exists HandoffMode.
    assert (Hw1 : Threads (put_thread t (goes Idle th) (s <| EventSignaled := true |>)) !! w = Some wth)
      by (simpl; by rewrite lookup_insert_ne).
    pose proof (take_event_ok false _ w wth w ws Hi1 eq_refl Hw1) as Hi2.
    replace (put_thread w _ _) with (put_thread w (goes GrantedExclusive wth)
      ((put_thread t (goes Idle th) (s <| EventSignaled := true |>)) <| EventSignaled := false |> <| EventWaiters := ws |>
       <| Lock := (Lock s) <| Owner0 := mkOwner w (OwnerCount (Owner0 (Lock s))) |> |>))
      by (destruct s; simpl in Hev |- *; unfold put_thread; simpl; by rewrite Hev).
    apply Hi2; [weigh; by rewrite Hb|by right|unfold blocked; by rewrite Hb|intros a; by rewrite Hb|].
    simpl. by apply Hq.
Qed.

Lemma continue_ok s t :
  inv s → action_ok s (Continue t) → ∃ s', continue t s = Some s' ∧ inv s'.
Proof.
  intros [md Hi] (th & Ht & Hc). pose proof (in_queues _ _ Hi) as Hq.
  destruct (in_threads _ _ Hi t th Ht) as [_ _ _ _ [Ha Ha'] _ Hroom].
  destruct (State th) as [| | | | | |starve Wait|again|again| |Number] eqn:Hs; try done.
  - unfold continue. rewrite Ht. cbn [mbind option_bind]. rewrite Hs. apply (allocate_event_ok md _ _ th); try done.
    + by rewrite Hs.
    + auto.
  - unfold continue. rewrite Ht. cbn [mbind option_bind]. rewrite Hs. apply (exclusive_call_ok md _ _ th); try done.
    + by rewrite Hs.
    + auto.
  - unfold continue. rewrite Ht. cbn [mbind option_bind]. rewrite Hs. unfold wait_event. destruct (EventSignaled s) eqn:Hev.
    + pose proof (signaled_mode _ _ _ Hi Hev) as ->. eexists. split; [done|]. exists HandoffMode.
      pose proof (take_event_ok true s t th (OwnerThread (Owner0 (Lock s))) (EventWaiters s) Hi Hev Ht) as Hi2.
      replace (put_thread t _ _) with (put_thread t (goes GrantedExclusive th)
        (s <| EventSignaled := false |> <| EventWaiters := EventWaiters s |>
         <| Lock := (Lock s) <| Owner0 := mkOwner (OwnerThread (Owner0 (Lock s))) (OwnerCount (Owner0 (Lock s))) |> |>))
        by (destruct s as [R ? ? ? ? ?]; simpl; destruct R as [? ? ? ? ? ? [? ?] ? ? ?]; done).
      apply Hi2; [weigh; by rewrite Hs|by left|unfold blocked; by rewrite Hs|intros a; by rewrite Hs|by apply Hq].
    + eexists. split; [done|]. exists md. by apply block_exclusive_ok.
  - unfold continue. rewrite Ht. cbn [mbind option_bind]. rewrite Hs. eexists. split; [done|].
    exists (OwnedMode t). by apply (granted_ok md).
  - unfold continue. rewrite Ht. cbn [mbind option_bind]. rewrite Hs.
    replace (if starve then _ else _) with (ExpAcquireResourceSharedLite starve t Wait (Lock s)) by (by destruct starve).
    destruct (second_level_ok md s t th Hi Ht) with (starve := starve) (Wait := Wait) as (r & -> & Hr); [by rewrite Hs|auto|].
    exact Hr.
  - unfold continue. rewrite Ht. cbn [mbind option_bind]. rewrite Hs. unfold wait_semaphore. destruct again; [done|].
    pose proof (q_count _ Hq) as Hcount. destruct (Z.ltb_spec 0 (SemaphoreCount s)) as [Hpos|Hz].
    + eexists. split; [done|]. exists SharedMode. pose proof (q_available _ _ Hq eq_refl Hpos) as Hnil.
      pose proof (take_semaphore_ok true md s t th [] Hi Hpos Ht) as Hi2.
      replace (put_thread t _ _) with (put_thread t (acquire false th)
        (s <| SemaphoreWaiters := [] |> <| SemaphoreCount := SemaphoreCount s - 1 |>))
        by (destruct s; simpl in Hnil |- *; by rewrite Hnil).
      apply Hi2; [weigh; by rewrite Hs|unfold blocked; by rewrite Hs, Hnil|done|by apply Hq].
    + eexists. split; [done|]. exists md. apply block_shared_ok; [done|done|done|lia].
  - by apply (set_event_call_ok md s t th).
  - unfold continue. rewrite Ht. cbn [mbind option_bind]. rewrite Hs. unfold release_waiters.
    destruct (wake_shared_ok (length (SemaphoreWaiters s)) _ (release_semaphore_ok md s t th Number Hi Ht Hs))
      as (s' & Hs' & Hi'); [by apply Hq|done|]. exists s'. split; [exact Hs'|]. by exists SharedMode.
Qed.

Lemma timeout_ok s t :
  inv s → action_ok s (Timeout t) → ∃ s', timeout t s = Some s' ∧ inv s'.
Proof.
  intros [md Hi] (th & Ht & Hc). destruct (in_threads _ _ Hi t th Ht) as [_ _ _ _ [Ha Ha'] _ _].
  unfold timeout. rewrite Ht. cbn [mbind option_bind]. destruct (State th) as [| | | | | | | |again| |] eqn:Hs; try done.
  - eexists. split; [done|]. exists md. by apply timeout_exclusive_ok.
  - destruct again; [done|]. eexists. split; [done|]. exists md. by apply timeout_shared_ok.
Qed.

Lemma action_inv s a :
  inv s → action_ok s a → no_wait_for_exclusive a → ∃ s', do_action a s = Some s' ∧ inv s'.
Proof.
  destruct a; intros Hi Ha Hw; simpl; [by apply resource_call_ok|by apply continue_ok|by apply timeout_ok].
Qed.

(** ** Reachable states *)

Lemma idle_thread n t th :
  idle_threads n !! t = Some th → 2 ≤ t ∧ th = mkThread Idle 0 false.
Proof.
  intros Hl%elem_of_list_to_map_2. apply list_elem_of_fmap in Hl as (u & [= -> ->] & Hu).
  apply elem_of_seqZ in Hu. split; [lia|done].
Qed.

Lemma total_zero f (m : gmap Z THREAD) : (∀ t th, m !! t = Some th → f th = 0) → total f m = 0.
Proof.
  apply (total_ind (λ z m, (∀ t th, m !! t = Some th → f th = 0) → z = 0)); [done|].
  intros t th m' Hn IH Hz. rewrite (Hz t th) by apply lookup_insert_eq. rewrite IH; [done|].
  intros u thu Hu. apply (Hz u). rewrite lookup_insert_ne; [done|congruence].
Qed.

Lemma initial_inv n : Z.of_nat n < 2 ^ 15 → inv (initial n).
Proof.
  intros Hn. exists SharedMode.
  assert (Hz : ∀ f, f (mkThread Idle 0 false) = 0 → total f (idle_threads n) = 0).
  { intros f Hf. apply total_zero. by intros t th [_ ->]%idle_thread. }
  split; simpl.
  - unfold shared_grants, exclusive_grants. rewrite !Hz by done. split_and!; try done.
    by intros t th [_ ->]%idle_thread.
  - intros t th [Ht ->]%idle_thread. split; simpl; try done; lia.
  - unfold idle_threads. rewrite map_size_list_to_map.
    + rewrite length_fmap, length_seqZ. lia.
    + rewrite <- list_fmap_compose. change (NoDup (id <$> seqZ 2 (Z.of_nat n))). rewrite list_fmap_id. apply NoDup_seqZ.
  - split; simpl; try done; try apply NoDup_nil_2.
    + intros t. rewrite elem_of_nil. split; [done|]. by intros (th & [_ ->]%idle_thread & Hs).
    + intros t. rewrite elem_of_nil. split; [done|]. by intros (th & a & [_ ->]%idle_thread & Hs).
  - split.
    + intros [|[|i]] e; simpl; [by intros [= <-]|by intros [= <-]|done].
    + by intros t th [_ ->]%idle_thread.
    + intros [|[|i]] [|[|j]] e e'; simpl; try done; by intros [= <-].
  - done.
  - done.
Qed.

Lemma reachable_inv n s : Z.of_nat n < 2 ^ 15 → reachable no_wait_for_exclusive n s → inv s.
Proof.
  intros Hn Hr. induction Hr as [|s a s' Hr IH Ha Hok Hs]; [by apply initial_inv|].
  destruct (action_inv s a IH Ha Hok) as (s1 & Hs1 & Hi). congruence.
Qed.

(** ** Runs *)

(** [action_ok] as a test. *)
Definition action_okb (s : SYSTEM) (a : action) : bool :=
  match a with
  | Call t c =>
      match Threads s !! t with
      | Some th =>
          match State th with Idle => true | _ => false end &&
          match c with
          | ReleaseForThread u => match Threads s !! u with Some th' => 0 <? Holds th' | None => false end
          | ConvertExclusiveToShared => HoldsExclusive th
          | _ => Holds th <? 2 ^ 15 - 1
          end
      | None => false
      end
  | Continue t =>
      match Threads s !! t with
      | Some th => match State th with Idle | BlockedExclusive | BlockedShared _ => false | _ => true end
      | None => false
      end
  | Timeout t =>
      match Threads s !! t with
      | Some th => match State th with BlockedExclusive | BlockedShared _ => true | _ => false end
      | None => false
      end
  end.

Lemma action_okb_ok s a : action_okb s a = true → action_ok s a.
Proof.
  destruct a as [t c|t|t]; simpl; destruct (Threads s !! t) as [th|] eqn:Ht; try done.
  - intros [Hs Hc]%andb_prop. exists th. split; [done|]. split; [by destruct (State th)|].
    destruct c; try by apply Z.ltb_lt.
    + destruct (Threads s !! owner) as [thu|] eqn:Hu; [|done]. exists thu. split; [done|]. by apply Z.ltb_lt.
    + done.
  - intros Hs. exists th. split; [done|]. by destruct (State th).
  - intros Hs. exists th. split; [done|]. by destruct (State th).
Qed.

(** The actions in order, as long as each may be taken. *)
Fixpoint run (l : list action) (s : SYSTEM) : option SYSTEM :=
  match l with
  | [] => Some s
  | a :: l => if action_okb s a then s' ← do_action a s; run l s' else None
  end.

Lemma run_reachable ok n l : ∀ s s',
  reachable ok n s → Forall ok l → run l s = Some s' → reachable ok n s'.
Proof.
  induction l as [|a l IH]; intros s s' Hr Hok; simpl; [by intros [= <-]|].
  apply Forall_cons_iff in Hok as [Ha Hl]. destruct (action_okb s a) eqn:Hb; [|done].
  destruct (do_action a s) as [s1|] eqn:Hs; [|done]. simpl. apply IH; [|done].
  by apply (reach_step ok n s a); [|apply action_okb_ok|..].
Qed.

(** ** Consequences of the invariant *)

(** A thread that can go on. *)
Lemma may_continue s t th :
  Threads s !! t = Some th → State th ≠ Idle → blocked th = false → action_ok s (Continue t).
Proof. intros Ht Hi Hb. exists th. split; [done|]. unfold blocked in Hb. by destruct (State th). Qed.

Lemma weight_nonneg_sets_event th : 0 ≤ sets_event th.
Proof. apply weights_nonneg. Qed.
Lemma weight_nonneg_releases th : 0 ≤ releases th.
Proof. apply weights_nonneg. Qed.

(** Somebody sets the event, releases the semaphore or has been granted access. *)
Lemma total_continues f s :
  (∀ th, 0 ≤ f th) → (∀ th, 0 < f th → State th ≠ Idle ∧ blocked th = false) → 0 < total f (Threads s) →
  ∃ u, action_ok s (Continue u).
Proof.
  intros Hn Hf (u & th & Hu & Hp)%total_pos; [|done]. exists u. apply Hf in Hp as [Hi Hb].
  by apply (may_continue _ _ th).
Qed.

(** A waiter that is in no queue can go on. *)
Lemma waiters_continue s :
  queues_ok true s →
  (EventWaiters s = [] → 0 < total waits_exclusive (Threads s) → ∃ u, action_ok s (Continue u)) ∧
  (SemaphoreWaiters s = [] → 0 < total waits_shared (Threads s) → ∃ u, action_ok s (Continue u)).
Proof.
  intros Hq. split; intros Hnil Hp.
  - apply total_pos in Hp as (u & th & Hu & Hp); [|intros; apply weights_nonneg]. exists u.
    apply (may_continue _ _ th); [done|intros Hs; unfold waits_exclusive in Hp; by rewrite Hs in Hp|].
    pose proof (in_event_queue _ _ _ _ Hq Hu) as Hin. rewrite Hnil, elem_of_nil in Hin.
    unfold waits_exclusive, blocked in *. destruct (State th); try done. by destruct Hin as [_ []].
  - apply total_pos in Hp as (u & th & Hu & Hp); [|intros; apply weights_nonneg]. exists u.
    apply (may_continue _ _ th); [done|intros Hs; unfold waits_shared in Hp; by rewrite Hs in Hp|].
    pose proof (in_semaphore_queue _ _ _ _ Hq Hu) as Hin. rewrite Hnil, elem_of_nil in Hin.
    unfold waits_shared, blocked in *. destruct (State th); try done. destruct Hin as [_ []]. by eexists.
Qed.

(** Pending grants reach threads that can go on. *)
Lemma grants_continue md s :
  inv_in md s → ActiveCount (Lock s) ≠ 0 →
  0 < total holds (Threads s) ∨ ∃ u, action_ok s (Continue u).
Proof.
  intros Hi HA. pose proof (in_queues _ _ Hi) as Hq. pose proof (q_count _ Hq) as Hc.
  destruct (waiters_continue _ Hq) as [Hwx Hws]. pose proof (totals_nonneg (Threads s)) as Hnn.
  pose proof (in_counts _ _ Hi) as Hcnt. pose proof (in_mode _ _ Hi) as Hm.
  destruct (decide (0 < total releases (Threads s))) as [Hr|Hr].
  { right. apply (total_continues releases); [apply weight_nonneg_releases| |done].
    intros th. unfold releases, blocked. by destruct (State th). }
  destruct (decide (0 < total sets_event (Threads s))) as [He|He].
  { right. apply (total_continues sets_event); [apply weight_nonneg_sets_event| |done].
    intros th. unfold sets_event, blocked. by destruct (State th). }
  destruct (decide (0 < total granted (Threads s))) as [Hg|Hg].
  { right. apply (total_continues granted); [intros; apply weights_nonneg| |done].
    intros th. unfold granted, blocked. by destruct (State th). }
  destruct md; unfold mode_ok, shared_grants, exclusive_grants in Hm.
  - destruct (decide (0 < SemaphoreCount s)) as [Hsc|]; [|lia]. right.
    apply Hws; [by apply (q_available _ _ Hq)|lia].
  - lia.
  - destruct (EventSignaled s) eqn:Hev; [|lia]. right. apply Hwx; [by apply (q_signaled _ _ Hq)|lia].
Qed.

(** A resource that a thread waits for is not free. *)
Lemma waiter_active md s t th :
  inv_in md s → Threads s !! t = Some th → blocked th = true → ActiveCount (Lock s) ≠ 0.
Proof.
  intros Hi Ht Hb HA. destruct (free_resource _ _ Hi HA) as (_ & _ & Fs & Fx & _).
  pose proof (waits_shared_part _ _ _ Ht) as Hs.
  pose proof (total_ge waits_exclusive _ _ _ (λ th, proj1 (proj1 (weights_nonneg th))) Ht) as Hx.
  unfold blocked in Hb. unfold waits_shared at 1 in Hs. unfold waits_exclusive at 1 in Hx.
  destruct (State th); try done; lia.
Qed.

(** What the queries read. *)
Lemma scan_count_found t c l :
  (∀ e, e ∈ l → OwnerThread e = t → OwnerCount e = c) → (∃ e, e ∈ l ∧ OwnerThread e = t) →
  scan_count t l = u16 c.
Proof.
  induction l as [|e l IH]; intros Hc (e0 & Hin & He0); [by apply elem_of_nil in Hin|]. simpl.
  destruct (Z.eqb_spec (OwnerThread e) t) as [He|He].
  - rewrite (Hc e); [done|by left|done].
  - apply IH; [intros e' Hin'; apply Hc; by right|]. apply elem_of_cons in Hin as [->|Hin]; [done|by exists e0].
Qed.

Lemma scan_count_none t l : (∀ e, e ∈ l → OwnerThread e ≠ t) → scan_count t l = 0.
Proof.
  induction l as [|e l IH]; intros Hn; [done|]. simpl. rewrite (proj2 (Z.eqb_neq _ _)).
  - apply IH. intros e' Hin. apply Hn. by right.
  - apply Hn. by left.
Qed.

(** The entries of a thread in the resource: also not the one of a pending grant. *)
Lemma idle_entries md s t th e :
  inv_in md s → Threads s !! t = Some th → State th = Idle → e ∈ entries false (Lock s) → OwnerThread e = t →
  OwnerCount e = Holds th ∧ 0 < Holds th.
Proof.
  intros Hi Ht Hs Hin Heq. destruct (thread_pointer _ _ _ _ Hi Ht) as (Ht0 & Ht1 & Hh).
  assert (Hin' : e ∈ entries (handoff md) (Lock s)).
  { destruct md; [done|done|]. unfold entries in *. rewrite elem_of_cons in *. destruct Hin as [->|Hin]; [|by right].
    pose proof (in_mode _ _ Hi) as Hm. unfold mode_ok in Hm.
    destruct Hm as (_ & _ & _ & _ & _ & _ & _ & _ & [Hown|(thw & Hw & Hg)]); [congruence|].
    rewrite Heq, Ht in Hw. apply (inj Some) in Hw as ->. congruence. }
  apply list_elem_of_lookup in Hin' as [i Hl].
  destruct (eo_thread _ _ (in_entries _ _ Hi) i e Hl) as (tho & Hto & Hc & Hp & _); [congruence|].
  rewrite Heq, Ht in Hto. apply (inj Some) in Hto as <-. unfold entry_count, waits_shared in Hc. rewrite Hs in Hc.
  destruct (Z.ltb_spec 0 (Holds th)); lia.
Qed.

Lemma shared_query md s t th :
  inv_in md s → Threads s !! t = Some th → State th = Idle →
  ExIsResourceAcquiredSharedLite t (Lock s) = Holds th.
Proof.
  intros Hi Ht Hs. destruct (thread_pointer _ _ _ _ Hi Ht) as (Ht0 & Ht1 & Hh).
  pose proof (λ e, idle_entries md s t th e Hi Ht Hs) as Hown. unfold ExIsResourceAcquiredSharedLite.
  destruct (Z.eqb_spec (OwnerThread (Owner0 (Lock s))) t) as [H0|H0].
  { destruct (Hown (Owner0 (Lock s))) as [-> _]; [by left|done|]. apply u16_small. lia. }
  destruct (Z.eqb_spec (OwnerThread (Owner1 (Lock s))) t) as [H1|H1].
  { destruct (Hown (Owner1 (Lock s))) as [-> _]; [by right; left|done|]. apply u16_small. lia. }
  destruct (whole_table _ (in_table _ _ Hi)) as [-> _].
  destruct (decide (Holds th = 0)) as [Hz|Hz].
  - rewrite scan_count_none; [done|]. intros e Hin Heq. destruct (Hown e); [by right; right|done|lia].
  - rewrite (scan_count_found _ (Holds th)); [apply u16_small; lia| |].
    + intros e Hin Heq. apply Hown; [by right; right|done].
    + destruct (holds_pos th) as [_ Hc]; [lia|]. destruct (held _ _ _ _ Hi Ht) as [Hh0 _]; [lia|].
      destruct (eo_entry _ _ (in_entries _ _ Hi) t th Ht) as [i Hl]; [lia|].
      rewrite Hh0 in Hl. apply list_elem_of_lookup_2 in Hl. unfold entries in Hl.
      rewrite !elem_of_cons in Hl. destruct Hl as [Hl|[Hl|Hl]]; [by rewrite <- Hl in H0|by rewrite <- Hl in H1|].
      by eexists.
Qed.

Lemma exclusive_query md s t th :
  inv_in md s → Threads s !! t = Some th → State th = Idle →
  ExIsResourceAcquiredExclusiveLite t (Lock s) = HoldsExclusive th.
Proof.
  intros Hi Ht Hs. unfold ExIsResourceAcquiredExclusiveLite. destruct (owned_by t (Lock s)) eqn:Hob.
  - pose proof (owned_by_mode md s t th Hi Ht) as Hm. rewrite Hs in Hm. specialize (Hm I Hob). subst md.
    pose proof (in_mode _ _ Hi) as Hm. unfold mode_ok in Hm.
    destruct Hm as (_ & _ & _ & _ & _ & _ & _ & _ & tho & Hto & _ & Hex & _). rewrite Ht in Hto.
    apply (inj Some) in Hto as <-. done.
  - destruct (HoldsExclusive th) eqn:Hex; [|done]. pose proof (exclusive_owner _ _ _ _ Hi Ht Hex) as ->.
    pose proof (in_mode _ _ Hi) as Hm. unfold mode_ok in Hm.
    destruct Hm as (HO & _ & _ & _ & _ & _ & _ & _ & tho & Hto & _ & _ & Hown).
    unfold owned_by in Hob. rewrite HO, Hown in Hob. simpl in Hob. by rewrite Z.eqb_refl in Hob.
Qed.

(** A resource is free when no thread is concerned with it. *)
Lemma unused_free md s :
  inv_in md s → (∀ t th, Threads s !! t = Some th → Holds th = 0 ∧ neutral (State th)) →
  ActiveCount (Lock s) = 0.
Proof.
  intros Hi Hall. assert (Hz : ∀ f, (∀ th, Holds th = 0 → neutral (State th) → f th = 0) → total f (Threads s) = 0).
  { intros f Hf. apply total_zero. intros t th [H0 Hn]%Hall. by apply Hf. }
  pose proof (Hz holds (λ th H0 _, proj1 (holds_zero th H0))).
  pose proof (Hz waits_shared (λ th _ Hn, proj1 (proj2 (proj2 (proj2 (neutral_weights th Hn)))))).
  pose proof (Hz waits_exclusive (λ th _ Hn, proj1 (neutral_weights th Hn))).
  pose proof (Hz granted (λ th _ Hn, proj1 (proj2 (neutral_weights th Hn)))).
  pose proof (Hz sets_event (λ th _ Hn, proj1 (proj2 (proj2 (neutral_weights th Hn))))).
  pose proof (Hz releases (λ th _ Hn, proj1 (proj2 (proj2 (proj2 (proj2 (neutral_weights th Hn))))))).
  pose proof (q_count _ (in_queues _ _ Hi)). pose proof (in_counts _ _ Hi). pose proof (in_mode _ _ Hi) as Hm.
  destruct md; unfold mode_ok, shared_grants, exclusive_grants in Hm; destruct (EventSignaled s); lia.
Qed.

Lemma free_unused md s t th :
  inv_in md s → ActiveCount (Lock s) = 0 → Threads s !! t = Some th → Holds th = 0 ∧ neutral (State th).
Proof.
  intros Hi HA Ht. destruct (free_resource _ _ Hi HA) as (-> & Fh & Fs & Fx & _ & Fr & _).
  pose proof (in_mode _ _ Hi) as Hm. pose proof (totals_nonneg (Threads s)). unfold mode_ok, exclusive_grants in Hm.
  destruct (thread_pointer _ _ _ _ Hi Ht) as (_ & _ & Hh). pose proof (no_holder _ _ _ Fh Ht).
  destruct (in_threads _ _ Hi t th Ht) as [_ _ _ _ _ Hrel _].
  assert (Hz : waits_shared th = 0 ∧ waits_exclusive th = 0 ∧ granted th = 0 ∧ sets_event th = 0 ∧ releases th = 0).
  { pose proof (weights_nonneg th). pose proof (waits_shared_part _ _ _ Ht). pose proof (granted_part _ _ _ Ht).
    pose proof (total_ge waits_exclusive _ _ _ (λ th, proj1 (proj1 (weights_nonneg th))) Ht).
    pose proof (total_ge sets_event _ _ _ weight_nonneg_sets_event Ht).
    pose proof (total_ge releases _ _ _ weight_nonneg_releases Ht). destruct (EventSignaled s); lia. }
  split; [lia|]. weigh. destruct (State th) as [| | | | | | | | | |n]; try lia; try done. specialize (Hrel n eq_refl). lia.
Qed.

(** ** The counts *)

(** The counts of the resource, in machine words, equal the unbounded numbers of
    threads and acquisitions they stand for: those of the threads that wait, less
    the pending grants; those that hold the resource, and the grants; and how often
    each holder has acquired it. So no count has wrapped around. *)
Record counts_exact (s : SYSTEM) : Prop := {
  ce_shared : total waits_shared (Threads s) =
    NumberOfSharedWaiters (Lock s) + shared_grants (SemaphoreCount s) (Threads s);
  ce_exclusive : total waits_exclusive (Threads s) =
    NumberOfExclusiveWaiters (Lock s) + exclusive_grants (EventSignaled s) (Threads s);
  ce_active : ActiveCount (Lock s) =
    if OwnedExclusive (Lock s) then 1
    else total holds (Threads s) + shared_grants (SemaphoreCount s) (Threads s);
  ce_owners t th : Threads s !! t = Some th → 0 < Holds th →
    ∃ p, get_owner p (Lock s) = Some (mkOwner t (Holds th));
  ce_holds t th : Threads s !! t = Some th → 0 ≤ Holds th < 2 ^ 15;
  ce_bounds : 0 ≤ NumberOfSharedWaiters (Lock s) < 2 ^ 15 ∧
    0 ≤ NumberOfExclusiveWaiters (Lock s) < 2 ^ 15 ∧ 0 ≤ ActiveCount (Lock s) < 2 ^ 15
}.

Lemma holder_entry md s t th :
  inv_in md s → Threads s !! t = Some th → 0 < Holds th →
  ∃ p, get_owner p (Lock s) = Some (mkOwner t (Holds th)).
Proof.
  intros Hi Ht Hp. destruct (thread_pointer _ _ _ _ Hi Ht) as (Ht0 & _ & _).
  assert (Hc : entry_count th = Holds th) by (unfold entry_count; by rewrite (proj2 (Z.ltb_lt _ _) Hp)).
  destruct (eo_entry _ _ (in_entries _ _ Hi) t th Ht) as [i Hl]; [lia|]. rewrite Hc in Hl.
  unfold entries in Hl. destruct i as [|[|i]]; simpl in Hl.
  - destruct (handoff md); [by apply (inj Some) in Hl; injection Hl as <- _|]. by exists Entry0.
  - by exists Entry1.
  - by exists (InTable i).
Qed.

Lemma inv_counts s : inv s → counts_exact s.
Proof.
  intros [md Hi]. pose proof (in_mode _ _ Hi) as Hm. pose proof (in_counts _ _ Hi).
  pose proof (in_size _ _ Hi). pose proof (totals_nonneg (Threads s)).
  pose proof (q_count _ (in_queues _ _ Hi)). pose proof (holders_and_waiters _ (in_threads _ _ Hi)).
  pose proof (totals_bound (Threads s)).
  assert (0 ≤ exclusive_grants (EventSignaled s) (Threads s))
    by (unfold exclusive_grants; destruct (EventSignaled s); lia).
  assert (0 ≤ shared_grants (SemaphoreCount s) (Threads s)) by (unfold shared_grants; lia).
  destruct (OwnedExclusive (Lock s)) eqn:HO; destruct md; unfold mode_ok in Hm;
    rewrite HO in Hm; try (by destruct Hm);
    (split; [lia|lia|rewrite HO; lia|intros u thu Hu; by apply (holder_entry _ s u thu Hi)
            |intros u thu Hu; by apply (thread_pointer _ _ _ _ Hi Hu)|lia]).
Qed.
