(* ===== verification/ResourceTheorems.v ===== *)
(** * Executive resources: theorems

    In every state that threads can reach by calling the routines, in any order and
    with any interleaving of their sections: exclusive access excludes, no waiter is
    forgotten, and the counts are exact; all this as long as no thread calls
    [ExAcquireSharedWaitForExclusive] with [Wait], which counts its access twice, and
    for steps that [action_ok] allows: threads release only what is held, convert only
    what they hold exclusively, and acquire at most 2^15 - 1 times each. *)

From stdpp Require Import base list list_tactics numbers option gmap fin_maps.
From S2P Require Import Prelude Resource ResourceSys ResourceInv ResourceOk ResourceAcquire ResourceRelease ResourceWait.
From S2P Require Import ResourceRun.

(** ** Example runs *)

(** Thread 2 owns the resource shared; 3 waits for exclusive access and 4 for shared
    access behind it; 2 releases and 3 becomes the owner. *)
Definition handoff_run : list action :=
  [Call 2 (AcquireShared true); Call 3 (AcquireExclusive true); Continue 3; Continue 3;
   Continue 3; Call 4 (AcquireShared true); Continue 4; Continue 4; Timeout 4; Continue 4;
   Call 2 (ReleaseForThread 2); Continue 2; Continue 3].

(** As above, but 4 waits for the exclusive waiter; 3 releases, and 4 acquires and
    releases. *)
Definition leak_run : list action :=
  [Call 2 (AcquireShared true); Call 3 (AcquireExclusive true); Continue 3; Continue 3;
   Continue 3; Call 4 (AcquireSharedWaitForExclusive true); Continue 4;
   Call 2 (ReleaseForThread 2); Continue 2; Continue 3; Call 3 (ReleaseForThread 3); Continue 3;
   Continue 4; Call 4 (ReleaseForThread 4)].

(** The state after a run; the initial state if the run is not possible. *)
Definition after (l : list action) : SYSTEM := default (initial 3) (run l (initial 3)).

Lemma after_reachable ok l :
  Forall ok l → match run l (initial 3) with Some _ => True | None => False end → reachable ok 3 (after l).
Proof.
  intros Hok Hrun. unfold after. destruct (run l (initial 3)) as [s|] eqn:Hs; [|done].
  apply (run_reachable ok 3 l (initial 3)); [apply reach_initial|done|done].
Qed.

Ltac example_run := apply after_reachable; [repeat constructor|vm_compute; exact I].

(** ** Theorems *)

(** C21: in a system of fewer than 2^15 threads, of which none calls
    [ExAcquireSharedWaitForExclusive] with [Wait] (see C25), no thread holds the resource in a
    reachable state while another one holds it for exclusive access. *)
Theorem mutual_exclusion n s t th u thu :
  Z.of_nat n < 2 ^ 15 → reachable no_wait_for_exclusive n s →
  Threads s !! t = Some th → HoldsExclusive th = true → Threads s !! u = Some thu → u ≠ t → Holds thu = 0.
Proof.
  intros Hn Hr Ht Hex Hu Hne. destruct (reachable_inv n s Hn Hr) as [md Hi].
  pose proof (exclusive_owner _ _ _ _ Hi Ht Hex) as ->. pose proof (in_mode _ _ Hi) as Hm. unfold mode_ok in Hm.
  destruct Hm as (_ & _ & _ & _ & _ & _ & _ & H1 & tho & Hto & Hp & _).
  pose proof (sole_holder _ _ _ _ _ H1 Hto Hp Hu Hne). destruct (thread_pointer _ _ _ _ Hi Hu) as (_ & _ & Hh). lia.
Qed.

Lemma mutual_exclusion_witness :
  Threads (after handoff_run) !! 3 = Some (mkThread Idle 1 true) ∧ Holds (mkThread (BlockedShared false) 0 false) = 0.
Proof.
  split; [by vm_compute|].
  apply (mutual_exclusion 3 (after handoff_run) 3 (mkThread Idle 1 true) 4); [done|example_run|by vm_compute..].
Defined.

(** C23: in a system of fewer than 2^15 threads, of which none calls
    [ExAcquireSharedWaitForExclusive] with [Wait] (see C25), each step a thread may take in a
    reachable state is defined: no section reads or writes an owner entry outside the
    table, a release finds the entry of the owner, and a wakeup finds the waiter.
    Before and after it the counts are exact, so none has wrapped around: the 16-bit
    counts of the resource are the unbounded numbers of threads that wait, hold the
    resource or have been granted it, the entry of each holder has the number of its
    acquisitions, and all are below 2^15. *)
Theorem resource_steps_defined n s a :
  Z.of_nat n < 2 ^ 15 → reachable no_wait_for_exclusive n s → action_ok s a → no_wait_for_exclusive a →
  counts_exact s ∧ ∃ s', do_action a s = Some s' ∧ counts_exact s'.
Proof.
  intros Hn Hr Ha Hw. pose proof (reachable_inv n s Hn Hr) as Hi. split; [by apply inv_counts|].
  destruct (action_inv s a Hi Ha Hw) as (s' & Hs' & Hi'). exists s'. split; [done|]. by apply inv_counts.
Qed.

Lemma resource_steps_defined_witness :
  ∃ s', do_action (Call 3 (ReleaseForThread 3)) (after handoff_run) = Some s' ∧ counts_exact s'.
Proof.
  apply (resource_steps_defined 3); [done|example_run| |done].
  apply action_okb_ok. by vm_compute.
Defined.

(** C22: in a system of fewer than 2^15 threads, of which none calls
    [ExAcquireSharedWaitForExclusive] with [Wait] (see C25), no wakeup is lost: in every reachable
    state in which a thread is blocked, some thread holds the resource or some thread
    can go on. *)
Theorem waiters_not_forgotten n s t th :
  Z.of_nat n < 2 ^ 15 → reachable no_wait_for_exclusive n s → Threads s !! t = Some th → blocked th = true →
  (∃ u thu, Threads s !! u = Some thu ∧ 0 < Holds thu) ∨ ∃ u, action_ok s (Continue u).
Proof.
  intros Hn Hr Ht Hb. destruct (reachable_inv n s Hn Hr) as [md Hi].
  destruct (grants_continue md s Hi (waiter_active md s t th Hi Ht Hb)) as [Hp|Hc]; [left|by right].
  apply total_pos in Hp as (u & thu & Hu & Hp); [|intros; apply weights_nonneg]. exists u, thu. split; [done|].
  unfold holds in Hp. destruct (Z.ltb_spec 0 (Holds thu)); lia.
Qed.

Lemma waiters_not_forgotten_witness :
  (∃ u thu, Threads (after handoff_run) !! u = Some thu ∧ 0 < Holds thu) ∨
  ∃ u, action_ok (after handoff_run) (Continue u).
Proof.
  apply (waiters_not_forgotten 3 (after handoff_run) 4 (mkThread (BlockedShared false) 0 false));
    [done|example_run|by vm_compute..].
Defined.

(** C24: in a system of fewer than 2^15 threads, of which none calls
    [ExAcquireSharedWaitForExclusive] with [Wait] (see C25), the active count of a reachable state
    is 0 exactly when no thread holds the resource, waits for it, has been granted it
    or passes it on; then a request is granted at once. *)
Theorem free_iff_unused n s :
  Z.of_nat n < 2 ^ 15 → reachable no_wait_for_exclusive n s →
  (ActiveCount (Lock s) = 0 ↔ ∀ t th, Threads s !! t = Some th → Holds th = 0 ∧ neutral (State th)) ∧
  (ActiveCount (Lock s) = 0 → ∀ t Wait starve,
     (ExAcquireResourceExclusiveLite t Wait (Lock s)).1 = Acquired true ∧
     (ExAcquireResourceSharedLite starve t Wait (Lock s)).1 = Acquired false).
Proof.
  intros Hn Hr. destruct (reachable_inv n s Hn Hr) as [md Hi]. split; [split|].
  - intros HA t th Ht. by apply (free_unused md s t th).
  - by apply (unused_free md).
  - intros HA t Wait starve. unfold ExAcquireResourceExclusiveLite, ExAcquireResourceSharedLite. by rewrite HA.
Qed.

Lemma free_iff_unused_witness :
  ActiveCount (Lock (after [Call 2 (AcquireShared true); Call 2 (ReleaseForThread 2)])) = 0 ∧
  ∀ t Wait starve,
    (ExAcquireResourceExclusiveLite t Wait
      (Lock (after [Call 2 (AcquireShared true); Call 2 (ReleaseForThread 2)]))).1 = Acquired true ∧
    (ExAcquireResourceSharedLite starve t Wait
      (Lock (after [Call 2 (AcquireShared true); Call 2 (ReleaseForThread 2)]))).1 = Acquired false.
Proof.
  split; [by vm_compute|].
  apply (free_iff_unused 3 (after [Call 2 (AcquireShared true); Call 2 (ReleaseForThread 2)]));
    [done|example_run|by vm_compute].
Defined.

(** In every reachable state, the queries answer a thread that is in no call how
    often it has acquired the resource, and whether for exclusive access. *)
Theorem resource_queries_correct n s t th :
  Z.of_nat n < 2 ^ 15 → reachable no_wait_for_exclusive n s → Threads s !! t = Some th → State th = Idle →
  ExIsResourceAcquiredSharedLite t (Lock s) = Holds th ∧
  ExIsResourceAcquiredExclusiveLite t (Lock s) = HoldsExclusive th.
Proof.
  intros Hn Hr Ht Hs. destruct (reachable_inv n s Hn Hr) as [md Hi].
  split; [by apply (shared_query md)|by apply (exclusive_query md)].
Qed.

Lemma resource_queries_correct_witness :
  ExIsResourceAcquiredSharedLite 3 (Lock (after handoff_run)) = 1 ∧
  ExIsResourceAcquiredExclusiveLite 3 (Lock (after handoff_run)) = true.
Proof.
  apply (resource_queries_correct 3 (after handoff_run) 3 (mkThread Idle 1 true)); [done|example_run|by vm_compute|done].
Defined.

(** C25: a thread that waits in [ExAcquireSharedWaitForExclusive] is counted when the
    access is granted and again when it then acquires the resource: in a reachable
    state all threads are idle and hold nothing, and the resource is refused to
    every thread that wants it for exclusive access. *)
Theorem wait_for_exclusive_leaks :
  ∃ s, reachable (λ _, True) 3 s ∧
    (∀ t th, Threads s !! t = Some th → State th = Idle ∧ Holds th = 0) ∧
    ActiveCount (Lock s) = 1 ∧
    ∀ t, ExTryToAcquireResourceExclusiveLite t (Lock s) = (Refused, Lock s).
Proof.
  exists (after leak_run). split; [example_run|]. split; [|split].
  - assert (Threads (after leak_run) = idle_threads 3) as -> by (by vm_compute).
    by intros t th [_ ->]%idle_thread.
  - by vm_compute.
  - intros t. unfold ExTryToAcquireResourceExclusiveLite, owned_by.
    assert ((ActiveCount (Lock (after leak_run)) =? 0) = false) as -> by (by vm_compute).
    assert (OwnedExclusive (Lock (after leak_run)) = false) as -> by (by vm_compute). done.
Qed.
