(* ===== verification/Name.v ===== *)
(** * File name support ([FSRTL/NAME.C])

    Path dissection, comparison, and matching of a name against an expression with
    wild cards. A [UNICODE_STRING] is the list of its characters. The matcher keeps
    the set of states of a nondeterministic automaton in two arrays, which first are
    on the stack and then in a pool block; a write outside an array is [None]. *)

From stdpp Require Import base list numbers option.
From S2P Require Import Prelude.

Abbreviation UNICODE_STRING := (list Z) (only parsing).

(** ** Characters *)

Definition Backslash : Z := 0x5c.
Definition Dot : Z := 0x2e.
Definition Star : Z := 0x2a.
Definition QuestionMark : Z := 0x3f.
Definition DOS_STAR : Z := 0x3c.
Definition DOS_QM : Z := 0x3e.
Definition DOS_DOT : Z := 0x22.

Definition FSRTL_WILD_CHARACTER : Z := 0x08.

(** [FSRTL_FAT_LEGAL] is 1, [FSRTL_HPFS_LEGAL] 2 and [FSRTL_NTFS_LEGAL] 4. *)
Definition LocalLegalAnsiCharacterArray : list Z :=
  replicate 32 0 ++
  [7; 7; 8; 7; 7; 7; 7; 7; 7; 7; 8; 6; 6; 7; 7; 0] ++
  [7; 7; 7; 7; 7; 7; 7; 7; 7; 7; 4; 6; 8; 6; 8; 8] ++
  replicate 27 7 ++ [6; 0; 6; 7; 7] ++ replicate 27 7 ++ [7; 0; 7; 7; 7].

Definition FsRtlIsUnicodeCharacterWild (C : Z) : bool :=
  if 0x40 <=? C then false
  else negb (Z.land (nth (Z.to_nat C) LocalLegalAnsiCharacterArray 0) FSRTL_WILD_CHARACTER =? 0).

Fixpoint FsRtlDoesNameContainWildCards (Name : UNICODE_STRING) : bool :=
  match Name with
  | [] => false
  | c :: Name => if FsRtlIsUnicodeCharacterWild c then true else FsRtlDoesNameContainWildCards Name
  end.

(** ** Dissection and comparison *)

(** The loop to the next backslash: the characters before it and from it on. *)
Fixpoint first_name (Path : UNICODE_STRING) : UNICODE_STRING * UNICODE_STRING :=
  match Path with
  | [] => ([], [])
  | c :: Path' =>
      if c =? Backslash then ([], Path)
      else let '(FirstName, rest) := first_name Path' in (c :: FirstName, rest)
  end.

(** [FirstName] and [RemainingName]. *)
Definition FsRtlDissectName (Path : UNICODE_STRING) : UNICODE_STRING * UNICODE_STRING :=
  match Path with
  | [] => ([], [])
  | c :: Path' =>
      let '(FirstName, rest) := first_name (if c =? Backslash then Path' else Path) in
      (FirstName, match rest with [] => [] | _ :: RemainingName => RemainingName end)
  end.

(** The system's upcase macro for one character; [Upcase844] is the offset that the
    loaded language table gives a character above z. *)
Definition NLS_UPCASE (Upcase844 : Z → Z) (c : Z) : Z :=
  if c <? 0x61 then c else if c <=? 0x7a then c - 0x20 else u16 (c + Upcase844 c).

(** [RtlUpcaseUnicodeString] with an allocated destination: [STATUS_NO_MEMORY] when
    the allocation fails. *)
Definition STATUS_NO_MEMORY : Z := 0xc0000017.

Definition RtlUpcaseUnicodeString (Upcase844 : Z → Z) (allocated : bool) (s : UNICODE_STRING) :
    Z + UNICODE_STRING :=
  if allocated then inr (NLS_UPCASE Upcase844 <$> s) else inl STATUS_NO_MEMORY.

(** The result, or the status raised. [UpcaseTable] is the optional table; the two
    flags tell which allocations succeed. *)
Definition FsRtlAreNamesEqual (Upcase844 : Z → Z) (allocated1 allocated2 : bool)
    (ConstantNameA ConstantNameB : UNICODE_STRING) (IgnoreCase : bool) (UpcaseTable : option (Z → Z)) :
    Z + bool :=
  if negb (zlen ConstantNameA =? zlen ConstantNameB) then inr false
  else
    match IgnoreCase, UpcaseTable with
    | true, None =>
        match RtlUpcaseUnicodeString Upcase844 allocated1 ConstantNameA with
        | inl Status => inl Status
        | inr LocalNameA =>
            match RtlUpcaseUnicodeString Upcase844 allocated2 ConstantNameB with
            | inl Status => inl Status
            | inr LocalNameB => inr (bool_decide (LocalNameA = LocalNameB))
            end
        end
    | true, Some table => inr (bool_decide (table <$> ConstantNameA = table <$> ConstantNameB))
    | false, _ => inr (bool_decide (ConstantNameA = ConstantNameB))
    end.

(** ** The matcher *)

Definition MATCHES_ARRAY_SIZE : Z := 16.

(** The matches found for the current character, and whether the arrays are in the
    pool block. *)
Record MATCHES := mkMatches { CurrentMatches : list Z; AuxBuffer : bool }.

#[export] Instance MATCHES_eta : Eta MATCHES := λ r, mkMatches (CurrentMatches r) (AuxBuffer r).

Section matcher.
Context (Expression : UNICODE_STRING) (IgnoreCase : bool) (UpcaseTable : Z → Z).

Let ExpressionChars : Z := zlen Expression.
Let Length : Z := 2 * ExpressionChars.
Let MaxState : Z := u16 (Length * 2).

(** The number of entries of the current array. *)
Definition array_size (M : MATCHES) : Z :=
  if AuxBuffer M then (ExpressionChars + 1) * 2 else MATCHES_ARRAY_SIZE.

(** [CurrentMatches[DestCount++] = State] *)
Definition add_match (State : Z) (M : MATCHES) : option MATCHES :=
  if zlen (CurrentMatches M) <? array_size M
  then Some (M <| CurrentMatches := CurrentMatches M ++ [State] |>) else None.

(** The pool block is allocated when the local arrays may be exhausted; both local
    arrays are copied into it. *)
Definition check_space (M : MATCHES) : option MATCHES :=
  if (MATCHES_ARRAY_SIZE - 2 <=? zlen (CurrentMatches M)) && negb (AuxBuffer M) then
    if (ExpressionChars + 1) * 2 + MATCHES_ARRAY_SIZE <=? (ExpressionChars + 1) * 2 * 2
    then Some (M <| AuxBuffer := true |>) else None
  else Some M.

Section character.
(** The current character, none when the name is finished, and the characters after it. *)
Context (NameChar : option Z) (NameRest : UNICODE_STRING).

Definition NameFinished : bool := bool_decide (NameChar = None).
Definition at_dot : bool := bool_decide (NameChar = Some Dot).

(** A period that is not the last one. *)
Definition ICanEatADot : bool := at_dot && existsb (λ c, c =? Dot) NameRest.

Definition upcase (c : Z) : Z := if IgnoreCase then UpcaseTable c else c.

(** The expression from [ExprOffset] on, as far as it matches. *)
Fixpoint expression_loop (E : UNICODE_STRING) (ExprOffset : Z) (M : MATCHES) : option MATCHES :=
  match E with
  | [] => add_match MaxState M
  | ExprChar :: E =>
      let next := expression_loop E (u16 (ExprOffset + 2)) in
      let CurrentState := u16 (ExprOffset * 2) in
      M ← check_space M;
      if ExprChar =? Star then
        M ← add_match CurrentState M; M ← add_match (u16 (CurrentState + 3)) M; next M
      else if ExprChar =? DOS_STAR then
        if NameFinished || negb at_dot || ICanEatADot then
          M ← add_match CurrentState M; M ← add_match (u16 (CurrentState + 3)) M; next M
        else M ← add_match (u16 (CurrentState + 3)) M; next M
      else
        let CurrentState := u16 (CurrentState + 4) in
        if (ExprChar =? DOS_QM) && (NameFinished || at_dot) then next M
        else if ExprChar =? DOS_QM then add_match CurrentState M
        else if (ExprChar =? DOS_DOT) && NameFinished then next M
        else if (ExprChar =? DOS_DOT) && at_dot then add_match CurrentState M
        else
          match NameChar with
          | None => Some M
          | Some c =>
              if ExprChar =? QuestionMark then add_match CurrentState M
              else if ExprChar =? upcase c then add_match CurrentState M
              else Some M
          end
  end.

(** Previous matches are skipped, one at most for each new match that is larger.
    Entries after the last previous match are stale; they only end the loop. *)
Fixpoint skip_matches (New PreviousMatches : list Z) : list Z :=
  match New, PreviousMatches with
  | [], _ => PreviousMatches
  | _ :: _, [] => []
  | d :: New, s :: rest => skip_matches New (if s <? d then rest else PreviousMatches)
  end.

Fixpoint source_loop (fuel : nat) (PreviousMatches : list Z) (M : MATCHES) : option MATCHES :=
  match PreviousMatches with
  | [] => Some M
  | s :: rest =>
      match fuel with
      | O => None
      | S fuel =>
          let ExprOffset := u16 ((s + 1) / 2) in
          M' ← (if ExprOffset =? Length then Some M
                else expression_loop (drop (Z.to_nat (ExprOffset / 2)) Expression) ExprOffset M);
          source_loop fuel
            (skip_matches (drop (length (CurrentMatches M)) (CurrentMatches M')) rest) M'
      end
  end.
End character.

(** The loop over the name; one step more when the name is finished. *)
Fixpoint name_loop (Name : UNICODE_STRING) (PreviousMatches : list Z) (Aux : bool) : option bool :=
  match Name with
  | [] =>
      if bool_decide (list.last PreviousMatches = Some MaxState) then Some true
      else
        M ← source_loop None [] (length PreviousMatches) PreviousMatches (mkMatches [] Aux);
        Some (bool_decide (list.last (CurrentMatches M) = Some MaxState))
  | c :: Name =>
      M ← source_loop (Some c) Name (length PreviousMatches) PreviousMatches (mkMatches [] Aux);
      if bool_decide (CurrentMatches M = []) then Some false
      else name_loop Name (CurrentMatches M) (AuxBuffer M)
  end.

(** The special case of a star and a name without wild cards. *)
Definition match_end (LocalExpression Name : UNICODE_STRING) : bool :=
  if zlen Name <? zlen LocalExpression then false
  else
    let NameEnd := drop (length Name - length LocalExpression) Name in
    bool_decide ((upcase <$> NameEnd) = LocalExpression).

Definition FsRtlIsNameInExpressionPrivate (Name : UNICODE_STRING) : option bool :=
  match Expression, Name with
  | [], [] => Some true
  | [], _ | _, [] => Some false
  | ExprChar :: LocalExpression, _ =>
      if (ExprChar =? Star) && bool_decide (LocalExpression = []) then Some true
      else if (ExprChar =? Star) && negb (FsRtlDoesNameContainWildCards LocalExpression)
      then Some (match_end LocalExpression Name)
      else name_loop Name [0] false
  end.
End matcher.

(** The wrapper upcases the name when it has no table. *)
Definition FsRtlIsNameInExpression (Upcase844 : Z → Z) (allocated : bool)
    (Expression Name : UNICODE_STRING) (IgnoreCase : bool) (UpcaseTable : option (Z → Z)) :
    option (Z + bool) :=
  match IgnoreCase, UpcaseTable with
  | true, None =>
      match RtlUpcaseUnicodeString Upcase844 allocated Name with
      | inl Status => Some (inl Status)
      | inr LocalName => inr <$> FsRtlIsNameInExpressionPrivate Expression false id LocalName
      end
  | _, Some table => inr <$> FsRtlIsNameInExpressionPrivate Expression IgnoreCase table Name
  | false, None => inr <$> FsRtlIsNameInExpressionPrivate Expression false id Name
  end.
