(* ===== verification/NameWalk.v ===== *)
(** * The states a match adds, walks, and a step of the matcher

    Without the arrays: [adds] is the list of states that one previous match leads
    to, and the loops of the matcher append these lists. Then the arrays as walks, and what
    one character of the name does to them. *)

From stdpp Require Import base list list_tactics numbers option sorting.
From S2P Require Import Prelude Name.

Lemma zlen_cons {A} (x : A) l : zlen (x :: l) = zlen l + 1.
Proof. unfold zlen. simpl. lia. Qed.

(** ** One previous match *)

Section adds.
Context (up : Z → Z) (NameChar : option Z) (NameRest : list Z).

(** The expression character matches without a character of the name. *)
Definition passes (x : Z) : bool :=
  (x =? Star) || (x =? DOS_STAR) || ((x =? DOS_QM) && (NameFinished NameChar || at_dot NameChar)) ||
  ((x =? DOS_DOT) && NameFinished NameChar).

(** The expression character matches the character of the name and the match goes on
    after it. *)
Definition takes (x : Z) : bool :=
  match NameChar with
  | None => false
  | Some c => (x =? DOS_QM) || ((x =? DOS_DOT) && at_dot NameChar) || (x =? QuestionMark) || (x =? up c)
  end.

(** The states added at the character of index [k]. *)
Definition here (x : Z) (k : Z) : list Z :=
  if x =? Star then [4 * k; 4 * k + 3]
  else if x =? DOS_STAR then
    if NameFinished NameChar || negb (at_dot NameChar) || ICanEatADot NameChar NameRest
    then [4 * k; 4 * k + 3] else [4 * k + 3]
  else if passes x then [] else if takes x then [4 * (k + 1)] else [].

Fixpoint adds (E : list Z) (k : Z) : list Z :=
  match E with
  | [] => [4 * k]
  | x :: E => here x k ++ (if passes x then adds E (k + 1) else [])
  end.
End adds.

(** ** The loops *)

Section loops.
Context (Expression : list Z) (IgnoreCase : bool) (UpcaseTable : Z → Z).
Hypothesis Hshort : zlen Expression < 2 ^ 14.

Abbreviation up := (upcase IgnoreCase UpcaseTable).
Abbreviation n := (zlen Expression).

Lemma max_state : u16 (2 * n * 2) = 4 * n.
Proof using Hshort. unfold zlen in *. rewrite u16_small; lia. Qed.

Lemma add_match_some State M M' :
  add_match Expression State M = Some M' → CurrentMatches M' = CurrentMatches M ++ [State].
Proof. unfold add_match. case_match; [|done]. by intros [= <-]. Qed.

Lemma check_space_some M M' :
  check_space Expression M = Some M' → CurrentMatches M' = CurrentMatches M.
Proof. unfold check_space. repeat case_match; intros; simplify_eq; done. Qed.

(** The loop over the expression appends the states. *)
Lemma expression_loop_adds c w E : ∀ k M M',
  0 ≤ k → k + zlen E = n →
  expression_loop Expression IgnoreCase UpcaseTable c w E (2 * k) M = Some M' →
  CurrentMatches M' = CurrentMatches M ++ adds up c w E k.
Proof using Hshort.
  induction E as [|x E IH]; intros k M M' Hk Hn.
  - simpl. intros HM%add_match_some. rewrite HM, max_state. do 3 f_equal. unfold zlen in *. simpl in Hn. lia.
  - rewrite zlen_cons in Hn. assert (Hz : 0 ≤ zlen E) by (unfold zlen; lia).
    cbn [expression_loop adds]. cbv zeta.
    rewrite !(u16_small (2 * k * 2)), (u16_small (2 * k + 2)), (u16_small (2 * k * 2 + 3)),
      (u16_small (2 * k * 2 + 4)) by lia.
    replace (2 * k + 2) with (2 * (k + 1)) by lia. replace (2 * k * 2) with (4 * k) by lia.
    intros (M1 & HM1 & HM)%bind_Some. apply check_space_some in HM1. rewrite <- HM1. revert HM.
    assert (IH' := IH (k + 1)). replace (k + 1 + zlen E) with n in IH' by lia.
    unfold here, passes, takes. destruct (Z.eqb_spec x Star) as [->|HS].
    { intros (M2 & HM2%add_match_some & (M3 & HM3%add_match_some & HM)%bind_Some)%bind_Some.
      apply IH' in HM; [|lia|done]. rewrite HM, HM3, HM2. simpl. by rewrite <- !app_assoc. }
    destruct (Z.eqb_spec x DOS_STAR) as [->|HD].
    { destruct (_ || _ || _).
      - intros (M2 & HM2%add_match_some & (M3 & HM3%add_match_some & HM)%bind_Some)%bind_Some.
        apply IH' in HM; [|lia|done]. rewrite HM, HM3, HM2. simpl. by rewrite <- !app_assoc.
      - intros (M2 & HM2%add_match_some & HM)%bind_Some. apply IH' in HM; [|lia|done]. rewrite HM, HM2. simpl.
        by rewrite <- !app_assoc. }
    replace (4 * k + 4) with (4 * (k + 1)) by lia.
    destruct (Z.eqb_spec x DOS_QM) as [->|HQ]; simpl.
    { destruct (NameFinished c || at_dot c) eqn:Hf; simpl.
      - intros HM. by apply IH' in HM; [|lia|done].
      - intros HM%add_match_some. rewrite HM. destruct c; [done|]. by apply orb_false_iff in Hf as [? _]. }
    destruct (Z.eqb_spec x DOS_DOT) as [->|HDD]; simpl.
    { destruct (NameFinished c) eqn:Hf; simpl; [intros HM; by apply IH' in HM; [|lia|done]|].
      destruct c as [c|]; [|done]. destruct (at_dot (Some c)); simpl.
      - intros HM%add_match_some. by rewrite HM.
      - case_match; [intros HM%add_match_some; by rewrite HM|]. intros [= <-]. by rewrite app_nil_r. }
    destruct c as [c|]; simpl; [|intros [= <-]; by rewrite app_nil_r].
    destruct (x =? QuestionMark); simpl; [intros HM%add_match_some; by rewrite HM|].
    destruct (x =? up c); [intros HM%add_match_some; by rewrite HM|]. intros [= <-]. by rewrite app_nil_r.
Qed.
End loops.

(** ** The order of the matches

    The array of matches is not sorted and may hold duplicates. It is a walk: it
    begins with its least state, ends with its greatest, and never steps up over a
    state that it has elsewhere. Skipping a previous match that is smaller than a new
    one then loses nothing, and the last entry tells whether the expression is
    exhausted. *)

(** ** Walks *)

Definition no_jump (P : Z → Prop) (L : list Z) : Prop :=
  ∀ l1 x y l2 v, L = l1 ++ x :: y :: l2 → P v → x < y → v ≤ x ∨ y ≤ v.

Record walk (L : list Z) : Prop := {
  walk_steps : no_jump (λ v, v ∈ L) L;
  walk_head x l v : L = x :: l → v ∈ L → x ≤ v;
  walk_last x l v : L = l ++ [x] → v ∈ L → v ≤ x
}.

Section walk.
Context (L : list Z) (HL : walk L).

(** A walk passes every state between a place and a higher place after it. *)
Lemma walk_up B : ∀ A x y C v, L = A ++ x :: B ++ y :: C → v ∈ L → x < v < y → v ∈ B.
Proof using HL.
  induction B as [|b B IH]; intros A x y C v Heq Hv Hb.
  - destruct (walk_steps _ HL A x y C v Heq Hv); lia.
  - destruct (decide (v = b)) as [->|Hne]; [by left|]. right. destruct (decide (v < b)) as [Hlt|Hge].
    + destruct (walk_steps _ HL A x b (B ++ y :: C) v Heq Hv); lia.
    + apply (IH (A ++ [x]) b y C); [|done|lia]. by rewrite Heq, <- app_assoc.
Qed.

Lemma walk_before A y C v : L = A ++ y :: C → v ∈ L → v < y → v ∈ A.
Proof using HL.
  intros Heq Hv Hlt. destruct A as [|x A].
  - pose proof (walk_head _ HL y C v Heq Hv). lia.
  - pose proof (walk_head _ HL x _ v Heq Hv) as Hx. destruct (decide (v = x)) as [->|]; [by left|].
    right. by apply (walk_up A [] x y C); [| |lia].
Qed.

Lemma walk_after A x B v : L = A ++ x :: B → v ∈ L → x < v → v ∈ B.
Proof using HL.
  intros Heq Hv Hlt. destruct B as [|z B _] using rev_ind.
  - pose proof (walk_last _ HL x A v Heq Hv). lia.
  - pose proof (walk_last _ HL z (A ++ x :: B) v) as Hz. rewrite <- app_assoc in Hz. specialize (Hz Heq Hv).
    apply elem_of_app. destruct (decide (v = z)) as [->|]; [right; by left|].
    left. apply (walk_up B A x z []); [done|done|lia].
Qed.
End walk.

(** ** States *)

(** The index of the expression character a state continues with. *)
Definition off (s : Z) : nat := Z.to_nat ((s + 1) / 4).

Lemma off_even (k : nat) : off (4 * Z.of_nat k) = k.
Proof.
  unfold off. replace ((4 * Z.of_nat k + 1) / 4) with (Z.of_nat k); [lia|].
  apply (Z.div_unique _ _ _ 1); lia.
Qed.

Lemma off_odd (k : nat) : off (4 * Z.of_nat k + 3) = S k.
Proof.
  unfold off. replace ((4 * Z.of_nat k + 3 + 1) / 4) with (Z.of_nat k + 1); [lia|].
  apply (Z.div_unique _ _ _ 0); lia.
Qed.

Section step.
Context (up : Z → Z) (Expression : list Z) (c : option Z) (w : list Z).
Abbreviation n := (length Expression).

Definition is_star (k : nat) : Prop := ∃ x, Expression !! k = Some x ∧ (x = Star ∨ x = DOS_STAR).

Definition valid (s : Z) : Prop :=
  (∃ k : nat, (k ≤ n)%nat ∧ s = 4 * Z.of_nat k) ∨ (∃ k : nat, is_star k ∧ s = 4 * Z.of_nat k + 3).

Lemma valid_off s : valid s → (off s ≤ n)%nat ∧ (s = 4 * Z.of_nat (off s) ∨ s = 4 * Z.of_nat (off s) - 1).
Proof.
  intros [(k & Hk & ->)|(k & (x & Hx%lookup_lt_Some & _) & ->)].
  - rewrite off_even. auto.
  - rewrite off_odd. split; [lia|right; lia].
Qed.

Lemma off_lt s s' : valid s → valid s' → (off s < off s')%nat → s < s'.
Proof. intros [_ H]%valid_off [_ H']%valid_off Hlt. lia. Qed.

(** The states reached from the character of index [k]. *)
Definition chain_from (k : nat) : list Z := adds up c w (drop k Expression) (Z.of_nat k).

(** The states that a previous match leads to: none at the end of the expression. *)
Definition chain (k : nat) : list Z := if decide (k < n)%nat then chain_from k else [].

Lemma chain_from_end : chain_from n = [4 * Z.of_nat n].
Proof. unfold chain_from. by rewrite drop_all. Qed.

Lemma chain_from_step k x :
  Expression !! k = Some x →
  chain_from k = here up c w x (Z.of_nat k) ++ (if passes c x then chain_from (S k) else []).
Proof.
  intros Hx. unfold chain_from. rewrite (drop_S _ x) by done. simpl. by rewrite Nat2Z.inj_succ.
Qed.

Lemma here_range x k s :
  s ∈ here up c w x k → 4 * k ≤ s ≤ 4 * k + 4 ∧ (passes c x = true → s ≤ 4 * k + 3).
Proof.
  unfold here. destruct (Z.eqb_spec x Star) as [->|]; [rewrite !elem_of_cons, elem_of_nil; lia|].
  destruct (Z.eqb_spec x DOS_STAR) as [->|].
  - destruct (_ || _ || _); rewrite ?elem_of_cons, elem_of_nil; lia.
  - destruct (passes c x); [by rewrite elem_of_nil|]. destruct (takes up c x); rewrite ?elem_of_cons, elem_of_nil; [|done].
    intros [->|[]]. split; [lia|done].
Qed.

Lemma here_sorted x k : StronglySorted Z.lt (here up c w x k).
Proof.
  unfold here. repeat case_match; repeat constructor; lia.
Qed.

(** Induction from the end of the expression. *)
Lemma index_ind (P : nat → Prop) :
  P n → (∀ k, (k < n)%nat → P (S k) → P k) → ∀ k, (k ≤ n)%nat → P k.
Proof.
  intros Hn Hs k Hk. remember (n - k)%nat as m eqn:Hm. revert k Hk Hm.
  induction m as [|m IH]; intros k Hk Hm.
  - by replace k with n by lia.
  - apply Hs; [lia|]. apply IH; lia.
Qed.

Lemma chain_from_range k s : (k ≤ n)%nat → s ∈ chain_from k → 4 * Z.of_nat k ≤ s.
Proof.
  revert k. apply (index_ind (λ k, s ∈ chain_from k → 4 * Z.of_nat k ≤ s)).
  - rewrite chain_from_end, list_elem_of_singleton. lia.
  - intros k Hk IH. destruct (lookup_lt_is_Some_2 Expression k Hk) as [x Hx]. rewrite (chain_from_step k x Hx).
    rewrite elem_of_app. intros [Hs%here_range|Hs]; [lia|]. destruct (passes c x); [|by apply elem_of_nil in Hs].
    specialize (IH Hs). lia.
Qed.

Lemma chain_from_sorted k : (k ≤ n)%nat → StronglySorted Z.lt (chain_from k).
Proof.
  revert k. apply (index_ind (λ k, StronglySorted Z.lt (chain_from k))).
  - rewrite chain_from_end. repeat constructor.
  - intros k Hk IH. destruct (lookup_lt_is_Some_2 Expression k Hk) as [x Hx]. rewrite (chain_from_step k x Hx).
    destruct (passes c x) eqn:Hp; [|rewrite app_nil_r; apply here_sorted].
    apply StronglySorted_app. split_and!; [|apply here_sorted|done].
    intros s s' [_ Hs]%here_range Hs'%chain_from_range; [|lia]. specialize (Hs Hp). lia.
Qed.

Lemma star_passes k x : Expression !! k = Some x → is_star k → passes c x = true.
Proof. intros Hx (y & Hy & Hs). rewrite Hx in Hy. apply (inj Some) in Hy as ->. unfold passes. by destruct Hs as [->| ->]. Qed.

Lemma chain_from_valid k s : (k ≤ n)%nat → s ∈ chain_from k → valid s.
Proof.
  revert k. apply (index_ind (λ k, s ∈ chain_from k → valid s)).
  - rewrite chain_from_end, list_elem_of_singleton. intros ->. left. by exists n.
  - intros k Hk IH. destruct (lookup_lt_is_Some_2 Expression k Hk) as [x Hx]. rewrite (chain_from_step k x Hx).
    rewrite elem_of_app. intros [Hs|Hs]; [|destruct (passes c x); [auto|by apply elem_of_nil in Hs]].
    assert (Hstar : x = Star ∨ x = DOS_STAR → s ∈ [4 * Z.of_nat k; 4 * Z.of_nat k + 3] → valid s).
    { intros Hx' Hin. apply elem_of_cons in Hin as [->| ->%list_elem_of_singleton].
      - left. exists k. split; [lia|done].
      - right. exists k. split; [by exists x|done]. }
    unfold here in Hs. destruct (Z.eqb_spec x Star) as [->|]; [auto|].
    destruct (Z.eqb_spec x DOS_STAR) as [->|].
    + destruct (_ || _ || _); [auto|]. apply Hstar; [auto|]. by right.
    + destruct (passes c x); [by apply elem_of_nil in Hs|]. destruct (takes up c x); [|by apply elem_of_nil in Hs].
      apply list_elem_of_singleton in Hs as ->. left. exists (S k). split; [lia|]. lia.
Qed.

(** Either the states from [k'] on are the last states from [k] on, or the chain from
    [k] ends before [k']. *)
Lemma chain_reach k k' :
  (k ≤ k' ≤ n)%nat →
  (∃ pre, chain_from k = pre ++ chain_from k') ∨ ∀ s, s ∈ chain_from k → s ≤ 4 * Z.of_nat k'.
Proof.
  intros Hk. remember (k' - k)%nat as m eqn:Hm. revert k Hk Hm. induction m as [|m IH]; intros k Hk Hm.
  { left. exists []. by replace k with k' by lia. }
  destruct (lookup_lt_is_Some_2 Expression k) as [x Hx]; [lia|]. rewrite (chain_from_step k x Hx).
  destruct (passes c x) eqn:Hp.
  - destruct (IH (S k)) as [[pre Hpre]|Hle]; [lia|lia|left|right].
    + exists (here up c w x (Z.of_nat k) ++ pre). by rewrite Hpre, app_assoc.
    + intros s [[Hs _]%here_range|Hs]%elem_of_app; [lia|auto].
  - right. intros s. rewrite app_nil_r. intros [Hs _]%here_range. lia.
Qed.

(** A smaller match from the chain's beginning on is on the chain. *)
Lemma chain_skip k q d :
  (k ≤ off q)%nat → valid q → d ∈ chain_from k → q < d → ∃ pre, chain_from k = pre ++ chain_from (off q).
Proof.
  intros Hk Hq Hd Hlt. destruct (valid_off q Hq) as [Hn Hqo].
  destruct (chain_reach k (off q)) as [|Hle]; [lia|done|]. specialize (Hle d Hd).
  destruct Hq as [(j & Hj & ->)|(j & Hstar & ->)]; [rewrite off_even in *; lia|]. rewrite off_odd in *.
  destruct (decide (k = S j)) as [->|Hne]; [by exists []|].
  pose proof Hstar as (x & Hx & _). destruct (chain_reach k j) as [[pre Hpre]|Hle']; [lia| |specialize (Hle' d Hd); lia].
  exists (pre ++ here up c w x (Z.of_nat j)). rewrite Hpre, (chain_from_step j x Hx), (star_passes j x Hx Hstar).
  by rewrite app_assoc.
Qed.
End step.

(** ** One character of the name

    The new array is a walk again, and its states are those that any previous match
    leads to, although matches are skipped. *)

Lemma skip_matches_ok New : ∀ P,
  ∃ B, P = B ++ skip_matches New P ∧ ∀ b, b ∈ B → ∃ d, d ∈ New ∧ b < d.
Proof.
  induction New as [|d New IH]; intros P; simpl.
  { exists []. split; [done|]. by intros b ?%elem_of_nil. }
  destruct P as [|s rest]; [exists []; split; [done|]; by intros b ?%elem_of_nil|].
  destruct (Z.ltb_spec s d) as [Hlt|Hge].
  - destruct (IH rest) as (B & HB & Hb). exists (s :: B). split; [simpl; by f_equal|].
    intros b [->|Hin]%elem_of_cons; [exists d; split; [by left|done]|].
    destruct (Hb b Hin) as (d' & Hd' & Hlt'). exists d'. split; [by right|done].
  - destruct (IH (s :: rest)) as (B & HB & Hb). exists B. split; [done|]. intros b Hin.
    destruct (Hb b Hin) as (d' & Hd' & Hlt'). exists d'. split; [by right|done].
Qed.

Lemma no_jump_app P D1 D2 :
  no_jump P D1 → no_jump P D2 →
  (∀ l x y l' v, D1 = l ++ [x] → D2 = y :: l' → P v → x < y → v ≤ x ∨ y ≤ v) → no_jump P (D1 ++ D2).
Proof.
  intros H1 H2 Hj l1 x y l2 v Heq Hv Hxy. apply app_eq_inv in Heq as [(k & -> & Hk)|(k & -> & Hk)].
  - destruct k as [|x' k]; simpl in Hk; [by apply (H2 [] x y l2 v)|]. injection Hk as <- Hk.
    destruct k as [|y' k]; simpl in Hk.
    + by apply (Hj l1 x y l2 v).
    + injection Hk as <- ->. by apply (H1 l1 x y k v).
  - by apply (H2 k x y l2 v).
Qed.

Section step.
Context (up : Z → Z) (Expression : list Z) (c : option Z) (w : list Z).
Abbreviation n := (length Expression).
Abbreviation chain := (chain up Expression c w).
Abbreviation chain_from := (chain_from up Expression c w).

(** The loop over the previous matches, without the arrays. *)
Fixpoint sources (fuel : nat) (P D : list Z) : list Z :=
  match P with
  | [] => D
  | s :: rest =>
      match fuel with
      | O => D
      | S fuel => let New := chain (off s) in sources fuel (skip_matches New rest) (D ++ New)
      end
  end.

Lemma chain_cases k s : s ∈ chain k → (k < n)%nat ∧ chain k = chain_from k.
Proof. unfold NameWalk.chain. destruct (decide _); [done|by intros ?%elem_of_nil]. Qed.

(** A chain that begins earlier does not end later. *)
Lemma chain_le_last k k' s l x :
  (k ≤ k')%nat → s ∈ chain k → chain k' = l ++ [x] → s ≤ x.
Proof.
  intros Hk Hs Hx. destruct (chain_cases k s Hs) as [Hkn Heq]. rewrite Heq in Hs.
  assert (Hin : x ∈ chain k') by (rewrite Hx; apply elem_of_app; right; by left).
  destruct (chain_cases k' x Hin) as [Hkn' Heq']. rewrite Heq' in *.
  destruct (chain_reach up Expression c w k k') as [[pre Hpre]|Hle]; [lia| |].
  - pose proof (chain_from_sorted up Expression c w k ltac:(lia)) as Hsort. rewrite Hpre, Hx, app_assoc in *.
    apply elem_of_app in Hs as [Hs| ->%list_elem_of_singleton]; [|lia].
    apply StronglySorted_app in Hsort as (Hlt & _ & _).
    specialize (Hlt s x Hs). rewrite list_elem_of_singleton in Hlt. specialize (Hlt eq_refl). lia.
  - specialize (Hle s Hs). pose proof (chain_from_range up Expression c w k' x ltac:(lia) Hin). lia.
Qed.

(** A chain that begins later does not begin with a smaller state. *)
Lemma chain_head_le k k' s l y :
  (k ≤ k')%nat → s ∈ chain k' → chain k = y :: l → y ≤ s.
Proof.
  intros Hk Hs Hy. destruct (chain_cases k' s Hs) as [Hkn' Heq']. rewrite Heq' in Hs.
  assert (Hin : y ∈ chain k) by (rewrite Hy; by left).
  destruct (chain_cases k y Hin) as [Hkn Heq]. rewrite Heq in *.
  destruct (chain_reach up Expression c w k k') as [[pre Hpre]|Hle]; [lia| |].
  - pose proof (chain_from_sorted up Expression c w k ltac:(lia)) as Hsort. rewrite Hy in Hsort, Hpre.
    apply StronglySorted_inv in Hsort as [_ Hall]. rewrite Forall_forall in Hall.
    destruct pre as [|p pre]; simpl in Hpre.
    + rewrite <- Hpre in Hs. apply elem_of_cons in Hs as [->|Hs]; [lia|]. specialize (Hall s Hs). lia.
    + injection Hpre as _ ->. specialize (Hall s). rewrite elem_of_app in Hall. specialize (Hall (or_intror Hs)). lia.
  - specialize (Hle y Hin). pose proof (chain_from_range up Expression c w k' s ltac:(lia) Hs). lia.
Qed.

(** The chain of a skipped match is part of the chain it was skipped for. *)
Lemma skipped_chain k q d s :
  (k ≤ off q)%nat → valid Expression q → d ∈ chain k → q < d → s ∈ chain (off q) → s ∈ chain k.
Proof.
  intros Hk Hq Hd Hlt Hs. destruct (chain_cases _ _ Hd) as [Hkn Heq]. destruct (chain_cases _ _ Hs) as [Hqn Heq'].
  rewrite Heq in *. rewrite Heq' in Hs.
  destruct (chain_skip up Expression c w k q d Hk Hq Hd Hlt) as [pre Hpre]. rewrite Hpre. apply elem_of_app. by right.
Qed.

Section walk.
Context (L : list Z).
Hypothesis HL : walk L.
Hypothesis Hvalid : ∀ q, q ∈ L → valid Expression q.

(** The states that some previous match leads to. *)
Definition target (s : Z) : Prop := ∃ q, q ∈ L ∧ s ∈ chain (off q).

(** After the matches [done]. *)
Record progress (done D : list Z) : Prop := {
  pr_covered q s : q ∈ done → s ∈ chain (off q) → s ∈ D;
  pr_sound s : s ∈ D → target s;
  pr_steps : no_jump target D;
  pr_ends : (D = [] ∧ ∀ q s, q ∈ done → s ∉ chain (off q)) ∨
    ∃ A s B D' l x, done = A ++ s :: B ∧ D = D' ++ chain (off s) ∧ chain (off s) = l ++ [x] ∧
      (∀ b, b ∈ B → chain (off b) = [] ∨ ∃ d, d ∈ chain (off s) ∧ b < d) ∧
      (∀ y l' v, D = y :: l' → target v → y ≤ v)
}.

(** A target above the end of the last chain is not led to by the matches after it. *)
Lemma above_last s (B : list Z) q v l x :
  chain (off s) = l ++ [x] → s ∈ L → q ∈ L → v ∈ chain (off q) → x < v →
  (∀ b, b ∈ B → chain (off b) = [] ∨ ∃ d, d ∈ chain (off s) ∧ b < d) → s < q ∧ q ∉ B.
Proof using Hvalid.
  intros Hx Hs Hq Hv Hlt HB. assert (Ho : (off s < off q)%nat).
  { destruct (decide (off s < off q)%nat) as [|Hge]; [done|].
    pose proof (chain_le_last (off q) (off s) v l x ltac:(lia) Hv Hx). lia. }
  split; [by apply (off_lt Expression); auto|]. intros Hin. destruct (HB q Hin) as [Hnil|(d & Hd & Hqd)].
  - rewrite Hnil in Hv. by apply elem_of_nil in Hv.
  - assert (Hin' : v ∈ chain (off s)) by (apply (skipped_chain _ q d); [lia|auto|done..]).
    pose proof (chain_le_last (off s) (off s) v l x ltac:(lia) Hin' Hx). lia.
Qed.

(** A target below the beginning of a chain comes from a smaller match. *)
Lemma below_head s q v y l :
  chain (off s) = y :: l → s ∈ L → q ∈ L → v ∈ chain (off q) → v < y → q < s.
Proof using Hvalid.
  intros Hy Hs Hq Hv Hlt. apply (off_lt Expression); auto.
  destruct (decide (off q < off s)%nat) as [|Hge]; [done|].
  pose proof (chain_head_le (off s) (off q) v l y ltac:(lia) Hv Hy). lia.
Qed.

(** A chain has no jump: every target between two of its states is on it. *)
Lemma chain_no_jump s : s ∈ L → no_jump target (chain (off s)).
Proof using Hvalid.
  intros Hs l1 x y l2 v Heq (q & Hq & Hv) Hxy.
  assert (Hx : x ∈ chain (off s)) by (rewrite Heq; apply elem_of_app; right; by left).
  destruct (chain_cases _ _ Hx) as [Hsn Hcf]. destruct (chain_cases _ _ Hv) as [Hqn Hcf'].
  pose proof (chain_from_sorted up Expression c w (off s) ltac:(lia)) as Hsort. rewrite <- Hcf, Heq in Hsort.
  assert (Hmem : v ∈ chain (off s) → v ≤ x ∨ y ≤ v).
  { rewrite Heq. apply StronglySorted_app in Hsort as (H1 & _ & H2). rewrite elem_of_app. intros [Hin|Hin].
    - specialize (H1 v x Hin). rewrite elem_of_cons in H1. specialize (H1 (or_introl eq_refl)). lia.
    - apply elem_of_cons in Hin as [->|Hin]; [lia|]. right. apply StronglySorted_inv in H2 as [H2 _].
      apply elem_of_cons in Hin as [->|Hin]; [lia|]. apply StronglySorted_inv in H2 as [_ H2].
      rewrite Forall_forall in H2. specialize (H2 v Hin). lia. }
  destruct (decide (off s ≤ off q)%nat) as [Ho|Ho].
  - destruct (chain_reach up Expression c w (off s) (off q)) as [[pre Hpre]|Hle]; [lia| |].
    + apply Hmem. rewrite Hcf, Hpre, <- Hcf'. apply elem_of_app. by right.
    + right. assert (Hy : y ∈ chain (off s)) by (rewrite Heq; apply elem_of_app; right; right; by left).
      rewrite Hcf in Hy. specialize (Hle y Hy). rewrite Hcf' in Hv.
      pose proof (chain_from_range up Expression c w (off q) v ltac:(lia) Hv). lia.
  - destruct (chain_reach up Expression c w (off q) (off s)) as [[pre Hpre]|Hle]; [lia| |].
    + pose proof (chain_from_sorted up Expression c w (off q) ltac:(lia)) as Hsort'. rewrite Hpre in Hsort'.
      rewrite Hcf', Hpre in Hv. apply elem_of_app in Hv as [Hv|Hv]; [|apply Hmem; by rewrite Hcf].
      apply StronglySorted_app in Hsort' as (H1 & _ & _). rewrite Hcf in Hx. specialize (H1 v x Hv Hx). lia.
    + left. rewrite Hcf' in Hv. specialize (Hle v Hv). rewrite Hcf in Hx.
      pose proof (chain_from_range up Expression c w (off s) x ltac:(lia) Hx). lia.
Qed.

(** One more match is processed, and [B] skipped after it. *)
Lemma progress_step done s B rest D :
  L = done ++ s :: B ++ rest → progress done D →
  (∀ b, b ∈ B → ∃ d, d ∈ chain (off s) ∧ b < d) → progress (done ++ s :: B) (D ++ chain (off s)).
Proof using HL Hvalid.
  intros Heq [Hcov Hsound Hsteps Hends] HB.
  assert (Hs : s ∈ L) by (rewrite Heq; apply elem_of_app; right; by left). split.
  - intros q v. rewrite !elem_of_app, elem_of_cons. intros [Hq|[->|Hq]] Hv; [left; eauto|by right|].
    destruct (HB q Hq) as (d & Hd & Hlt).
    assert (HqL : q ∈ L) by (rewrite Heq, elem_of_app, elem_of_cons, elem_of_app; auto).
    destruct (decide (off s ≤ off q)%nat) as [Ho|Ho].
    + right. apply (skipped_chain _ q d); auto.
    + left. apply (Hcov q v); [|done]. apply (walk_before L HL _ s (B ++ rest)); [done|done|].
      apply (off_lt Expression); [auto|auto|lia].
  - intros v. rewrite elem_of_app. intros [Hv|Hv]; [auto|by exists s].
  - apply no_jump_app; [done|by apply chain_no_jump|]. intros l x y l' v -> Hy (q & Hq & Hv) Hxy.
    destruct Hends as [[Hnil _]|(A & s' & B' & D' & l1 & x1 & -> & HD & Hx1 & HB' & _)]; [by destruct l|].
    rewrite Hx1, app_assoc in HD. apply app_inj_tail in HD as [_ <-].
    destruct (decide (v ≤ x)) as [|Hgt]; [by left|]. right. destruct (decide (y ≤ v)) as [|Hlt]; [done|].
    assert (Hs' : s' ∈ L) by (rewrite Heq, <- app_assoc, elem_of_app; right; by left).
    destruct (above_last s' B' q v l1 x) as [Hlo Hno]; [done..|lia|done|]. destruct Hno.
    apply (walk_up L HL B' A s' s (B ++ rest)); [by rewrite Heq, <- app_assoc|done|].
    split; [done|]. apply (below_head s q v y l'); [done..|lia].
  - destruct (decide (chain (off s) = [])) as [Hnil|Hne].
    + assert (B = []) as ->.
      { destruct B as [|b B]; [done|]. destruct (HB b) as (d & Hd & _); [by left|].
        rewrite Hnil in Hd. by apply elem_of_nil in Hd. }
      rewrite Hnil, app_nil_r. destruct Hends as [[-> Hno]|(A & s' & B' & D' & l1 & x1 & -> & HD & Hx1 & HB' & Hhd)].
      * left. split; [done|]. intros q v [Hq| ->%list_elem_of_singleton]%elem_of_app; [by apply Hno|].
        rewrite Hnil. apply not_elem_of_nil.
      * right. exists A, s', (B' ++ [s]), D', l1, x1. split_and!; [by rewrite <- app_assoc|done|done| |done].
        intros b [Hb| ->%list_elem_of_singleton]%elem_of_app; [by apply HB'|by left].
    + right. destruct (exists_last Hne) as (l0 & z & Hz). exists done, s, B, D, l0, z.
      split_and!; [done|done|done|intros b Hb; right; by apply HB|].
      intros y l' v Hy (q & Hq & Hv). destruct D as [|y' D]; simpl in Hy.
      * destruct (decide (y ≤ v)) as [|Hlt]; [done|]. exfalso.
        destruct Hends as [[_ Hno]|(A & s' & B' & D' & l1 & x1 & _ & HD & Hx1 & _)].
        -- apply (Hno q v); [|done]. apply (walk_before L HL _ s (B ++ rest)); [done|done|].
           apply (below_head s q v y l'); [done..|lia].
        -- rewrite Hx1 in HD. by destruct D', l1.
      * injection Hy as -> _. destruct Hends as [[? _]|(A & s' & B' & D' & l1 & x1 & _ & _ & _ & _ & Hhd)]; [done|].
        apply (Hhd y D v); [done|by exists q].
Qed.

Lemma sources_progress fuel : ∀ done P D,
  L = done ++ P → (length P ≤ fuel)%nat → progress done D → progress L (sources fuel P D).
Proof using HL Hvalid.
  induction fuel as [|fuel IH]; intros done P D Heq Hlen Hp.
  - destruct P; [|simpl in Hlen; lia]. rewrite app_nil_r in Heq. simpl. by subst.
  - destruct P as [|s rest]; simpl.
    { rewrite app_nil_r in Heq. by subst. }
    destruct (skip_matches_ok (chain (off s)) rest) as (B & HB & Hb).
    apply (IH (done ++ s :: B)).
    + rewrite <- app_assoc. simpl. by rewrite <- HB.
    + assert (length rest = length B + length (skip_matches (chain (off s)) rest))%nat
        by (rewrite HB at 1; apply length_app). simpl in Hlen. lia.
    + apply (progress_step done s B (skip_matches (chain (off s)) rest)); [by rewrite <- HB|done|done].
Qed.

(** The new array is a walk over all targets. *)
Lemma sources_walk :
  let D := sources (length L) L [] in walk D ∧ ∀ s, s ∈ D ↔ target s.
Proof using HL Hvalid.
  intros D. assert (Hp : progress L D).
  { apply (sources_progress _ []); [done|done|]. split.
    - by intros q s ?%elem_of_nil.
    - by intros s ?%elem_of_nil.
    - intros l1 x y l2 v Heq. by destruct l1.
    - left. split; [done|]. by intros q s ?%elem_of_nil. }
  destruct Hp as [Hcov Hsound Hsteps Hends].
  assert (Hiff : ∀ s, s ∈ D ↔ target s) by (intros s; split; [apply Hsound|intros (q & Hq & Hs); by apply (Hcov q)]).
  split; [|done]. destruct Hends as [[-> _]|(A & s & B & D' & l & x & HLs & HD & Hx & HB & Hhd)].
  { split; [intros [|??] ????; done|done|by intros ? []]. }
  split.
  - intros l1 a b l2 v Heq Hv. apply (Hsteps l1 a b l2 v Heq). by apply Hiff.
  - intros a l' v Heq Hv. apply (Hhd a l' v Heq). by apply Hiff.
  - intros a l' v Heq (q & Hq & Hv)%Hiff. rewrite HD, Hx, app_assoc in Heq. apply app_inj_tail in Heq as [_ ->].
    destruct (decide (v ≤ a)) as [|Hgt]; [done|]. exfalso.
    assert (Hs : s ∈ L) by (rewrite HLs; apply elem_of_app; right; by left).
    destruct (above_last s B q v l a) as [Hlo Hno]; [done..|lia|done|]. apply Hno.
    by apply (walk_after L HL A s).
Qed.
End walk.
End step.
