(* ===== verification/NameLang.v ===== *)
(** * The language of an expression

    What the wild cards mean, and that the matcher, first without and then with
    its special cases, decides it. *)

From stdpp Require Import base list list_tactics numbers option sorting.
From S2P Require Import Prelude Name NameWalk.

(** ** Meaning of the wild cards

    A star takes any characters. The DOS star takes characters up to and with the last
    period of the name. The DOS question mark takes one character other than a period,
    or nothing at a period or at the end of the name; at the end of the expression it
    takes a last period. The DOS dot takes a period, or nothing at the end of the name. *)

Section language.
Context (up : Z → Z).

Inductive in_expression : list Z → list Z → Prop :=
  | in_end : in_expression [] []
  | in_star_none E w : in_expression E w → in_expression (Star :: E) w
  | in_star_one E c w : in_expression (Star :: E) w → in_expression (Star :: E) (c :: w)
  | in_dos_star_none E w : in_expression E w → in_expression (DOS_STAR :: E) w
  | in_dos_star_one E c w :
      c ≠ Dot ∨ Dot ∈ w → in_expression (DOS_STAR :: E) w → in_expression (DOS_STAR :: E) (c :: w)
  | in_dos_star_dot E w : in_expression E w → in_expression (DOS_STAR :: E) (Dot :: w)
  | in_dos_qm_one E c w : c ≠ Dot → in_expression E w → in_expression (DOS_QM :: E) (c :: w)
  | in_dos_qm_end E : in_expression E [] → in_expression (DOS_QM :: E) []
  | in_dos_qm_none E w : in_expression E (Dot :: w) → in_expression (DOS_QM :: E) (Dot :: w)
  | in_dos_qm_dot m : in_expression (replicate (S m) DOS_QM) [Dot]
  | in_dos_dot_one E w : in_expression E w → in_expression (DOS_DOT :: E) (Dot :: w)
  | in_dos_dot_end E : in_expression E [] → in_expression (DOS_DOT :: E) []
  | in_question_mark E c w : in_expression E w → in_expression (QuestionMark :: E) (c :: w)
  | in_character E x c w :
      x ≠ Star → x ≠ DOS_STAR → x ≠ DOS_QM → x ≠ QuestionMark → x = up c →
      in_expression E w → in_expression (x :: E) (c :: w).

(** ** The residual by one character *)

(** All characters of the expression pass over [c]. *)
Abbreviation all_pass c E := (Forall (λ x, passes c x = true) E).

Lemma passes_some c x :
  passes (Some c) x = true ↔ x = Star ∨ x = DOS_STAR ∨ x = DOS_QM ∧ c = Dot.
Proof.
  unfold passes, NameFinished, at_dot. rewrite !orb_true_iff, !andb_true_iff, !Z.eqb_eq. simpl.
  split.
  - intros [[[->| ->]|[-> Hd]]|[_ ?]]; auto; [|done]. right. right. split; [done|].
    destruct (decide (c = Dot)) as [|Hne]; [done|]. rewrite bool_decide_eq_false_2 in Hd; [done|congruence].
  - intros [->|[->|[-> ->]]]; auto.
Qed.

Lemma pass_empty c E : all_pass (Some c) E → in_expression E [].
Proof.
  induction 1 as [|x E Hx _ IH]; [constructor|]. apply passes_some in Hx as [->|[->|[-> _]]]; by constructor.
Qed.

(** An expression that passes over the last character of the name takes it. *)
Lemma pass_last c E : E ≠ [] → all_pass (Some c) E → in_expression E [c].
Proof.
  intros Hne Hp. assert (in_expression E [c] ∨ E = replicate (length E) DOS_QM ∧ c = Dot) as [|[-> ->]]; [|done|].
  2: { destruct E; [done|]. apply in_dos_qm_dot. }
  revert Hne. induction Hp as [|x E Hx Hp IH]; intros Hne; [done|]. pose proof (pass_empty c E Hp) as Hemp.
  apply passes_some in Hx as [->|[->|[-> ->]]].
  - left. by do 2 constructor.
  - left. destruct (decide (c = Dot)) as [->|]; [by apply in_dos_star_dot|]. apply in_dos_star_one; [by left|by constructor].
  - destruct E as [|y E]; [by right|]. destruct IH as [IH|[HE _]]; [done| |].
    + left. by apply in_dos_qm_none.
    + right. split; [|done]. simpl. f_equal. exact HE.
Qed.

(** Inversion for each kind of expression character. *)
Ltac invert H := inversion H; subst; try done.

Lemma in_star E c w : in_expression (Star :: E) (c :: w) ↔ in_expression E (c :: w) ∨ in_expression (Star :: E) w.
Proof. split; [intros H; invert H; auto|]. intros [H|H]; by constructor. Qed.

Lemma in_dos_star E c w :
  in_expression (DOS_STAR :: E) (c :: w) ↔
  in_expression E (c :: w) ∨ (c ≠ Dot ∨ Dot ∈ w) ∧ in_expression (DOS_STAR :: E) w ∨ in_expression E w.
Proof.
  split; [intros H; invert H; auto|]. intros [H|[[Hc H]|H]]; [by constructor|by apply in_dos_star_one|].
  destruct (decide (c = Dot)) as [->|]; [by apply in_dos_star_dot|]. apply in_dos_star_one; [by left|by constructor].
Qed.

Lemma in_dos_qm E c w :
  in_expression (DOS_QM :: E) (c :: w) ↔
  if decide (c = Dot) then in_expression E (c :: w) ∨ w = [] ∧ E = replicate (length E) DOS_QM
  else in_expression E w.
Proof.
  split.
  - intros H. destruct (decide (c = Dot)) as [->|Hne].
    + invert H; [by left|]. right. by rewrite length_replicate.
    + invert H.
  - destruct (decide (c = Dot)) as [->|Hne]; [|by constructor].
    intros [H|[-> HE]]; [by constructor|]. rewrite HE. apply in_dos_qm_dot.
Qed.

Lemma in_other E x c w :
  x ≠ Star → x ≠ DOS_STAR → x ≠ DOS_QM →
  in_expression (x :: E) (c :: w) ↔ takes up (Some c) x = true ∧ in_expression E w.
Proof.
  intros H1 H2 H3. unfold takes, at_dot. rewrite !orb_true_iff, andb_true_iff, !Z.eqb_eq, bool_decide_eq_true. split.
  - intros H. invert H; auto 8.
  - intros [[[[->|[-> Hd]]| ->]| ->] H]; [done|..|by constructor|].
    + injection Hd as ->. by constructor.
    + destruct (decide (up c = QuestionMark)) as [->|]; [by constructor|]. by apply in_character.
Qed.

Context (Expression : list Z).
Abbreviation n := (length Expression).

(** The rest of the expression from a state on. *)
Definition rest (s : Z) : list Z := drop (off s) Expression.

Lemma can_eat c w :
  NameFinished (Some c) || negb (at_dot (Some c)) || ICanEatADot (Some c) w = true ↔ c ≠ Dot ∨ Dot ∈ w.
Proof.
  unfold ICanEatADot, at_dot. change (NameFinished (Some c)) with false. destruct (decide (c = Dot)) as [->|Hne].
  - rewrite bool_decide_eq_true_2 by done. simpl. rewrite existsb_exists. split.
    + intros (x & Hx & ->%Z.eqb_eq). right. by apply list_elem_of_In.
    + intros [?|Hd]; [done|]. exists Dot. split; [by apply list_elem_of_In|done].
  - rewrite bool_decide_eq_false_2 by congruence. simpl. split; [by left|done].
Qed.

(** Some state accepts [w]. *)
Definition accept (l w : list Z) : Prop := Exists (λ s, in_expression (rest s) w) l.

Lemma accept_nil w : accept [] w ↔ False.
Proof. apply Exists_nil. Qed.
Lemma accept_cons s l w : accept (s :: l) w ↔ in_expression (rest s) w ∨ accept l w.
Proof. apply Exists_cons. Qed.
Lemma accept_app l l' w : accept (l ++ l') w ↔ accept l w ∨ accept l' w.
Proof. apply Exists_app. Qed.

(** The states after one character accept the rest of the name when the state before
    it accepts the character and the rest; the end of the expression, when all
    characters pass, too. *)
Lemma chain_from_residual c w k :
  (k ≤ n)%nat →
  accept (chain_from up Expression (Some c) w k) w ↔
  in_expression (drop k Expression) (c :: w) ∨ w = [] ∧ all_pass (Some c) (drop k Expression).
Proof.
  revert k. apply index_ind.
  - rewrite chain_from_end, drop_all, accept_cons, accept_nil. unfold rest. rewrite off_even, drop_all. split.
    + intros [H|[]]. right. by invert H.
    + intros [H|[-> _]]; [by invert H|]. left. constructor.
  - intros k Hk IH. destruct (lookup_lt_is_Some_2 Expression k Hk) as [x Hx].
    rewrite (chain_from_step _ _ _ _ k x Hx), (drop_S _ x k Hx), accept_app, Forall_cons.
    assert (Hodd : rest (4 * Z.of_nat k + 3) = drop (S k) Expression) by (unfold rest; by rewrite off_odd).
    assert (Heven : rest (4 * Z.of_nat k) = x :: drop (S k) Expression) by (unfold rest; by rewrite off_even, (drop_S _ x k Hx)).
    assert (Hnext : rest (4 * (Z.of_nat k + 1)) = drop (S k) Expression)
      by (unfold rest; replace (Z.of_nat k + 1) with (Z.of_nat (S k)) by lia; by rewrite off_even).
    set (E := drop (S k) Expression) in *.
    assert (Hpass : w = [] ∧ all_pass (Some c) E → in_expression E w) by (intros [-> Hp]; by apply (pass_empty c)).
    unfold here. destruct (Z.eqb_spec x Star) as [->|HS].
    { change (passes (Some c) Star) with true. rewrite IH, !accept_cons, accept_nil, Hodd, Heven, in_star.
      pose proof (in_star_none E w). tauto. }
    destruct (Z.eqb_spec x DOS_STAR) as [->|HD].
    { change (passes (Some c) DOS_STAR) with true. rewrite IH, in_dos_star. pose proof (in_dos_star_none E w).
      pose proof (can_eat c w) as Heat.
      destruct (_ || _ || _); rewrite ?accept_cons, accept_nil, Hodd, ?Heven.
      - destruct Heat as [Heat _]. specialize (Heat eq_refl). tauto.
      - assert (¬ (c ≠ Dot ∨ Dot ∈ w)) by (intros H'; by apply Heat in H'). tauto. }
    destruct (passes (Some c) x) eqn:Hp.
    + apply passes_some in Hp as [|[|[-> ->]]]; [done|done|]. rewrite accept_nil, IH, in_dos_qm, decide_True by done.
      assert (E = replicate (length E) DOS_QM → all_pass (Some Dot) E).
      { intros ->. apply Forall_replicate. done. }
      assert (passes (Some Dot) DOS_QM = true) by done. tauto.
    + rewrite accept_nil. assert (Hno : ∀ P, (false = true ∧ P) ↔ False) by (intros P; split; [by intros [? _]|done]).
      rewrite Hno. destruct (decide (x = DOS_QM)) as [->|HQ].
      * assert (Hc : c ≠ Dot) by (intros ->; by rewrite (proj2 (passes_some Dot DOS_QM)) in Hp; auto).
        rewrite in_dos_qm, decide_False by done. change (takes up (Some c) DOS_QM) with true. cbv iota.
        rewrite accept_cons, accept_nil, Hnext. tauto.
      * rewrite in_other by done. destruct (takes up (Some c) x); rewrite ?accept_cons, accept_nil, ?Hnext.
        -- tauto.
        -- split; [tauto|]. intros [[? _]|[_ []]]; done.
Qed.

Lemma chain_residual c w s :
  valid Expression s → accept (chain up Expression (Some c) w (off s)) w ↔ in_expression (rest s) (c :: w).
Proof.
  intros [Hs _]%valid_off. unfold chain. destruct (decide (off s < n)%nat) as [Hlt|Hge].
  - rewrite chain_from_residual by done. split; [|by left]. intros [H|[-> Hp]]; [done|]. apply pass_last; [|done].
    intros Hnil%(f_equal length). unfold rest in Hnil. rewrite length_drop in Hnil. simpl in Hnil. lia.
  - rewrite accept_nil. unfold rest. rewrite drop_ge by lia. split; [done|]. intros H. by invert H.
Qed.

(** ** The end of the name *)

Lemma in_empty E x : in_expression (x :: E) [] ↔ passes None x = true ∧ in_expression E [].
Proof.
  unfold passes. change (NameFinished None) with true. rewrite !orb_true_iff, !andb_true_iff, !Z.eqb_eq. simpl. split.
  - intros H. invert H; auto 8.
  - intros [[[[->| ->]|[-> _]]|[-> _]] H]; by constructor.
Qed.

Lemma here_none w x k s : s ∈ here up None w x k → s ≤ 4 * k + 3.
Proof.
  intros Hs. destruct (here_range _ _ _ _ _ _ Hs) as [_ Hp]. destruct (passes None x) eqn:Hpx; [auto|].
  unfold here in Hs. unfold passes in Hpx. rewrite !orb_false_iff in Hpx. destruct Hpx as [[[H1 H2] _] _].
  rewrite H1, H2 in Hs. fold (passes None x) in Hs. revert Hs. change (takes up None x) with false.
  destruct (passes None x); by rewrite elem_of_nil.
Qed.

Lemma chain_from_finish w k :
  (k ≤ n)%nat → 4 * Z.of_nat n ∈ chain_from up Expression None w k ↔ in_expression (drop k Expression) [].
Proof.
  revert k. apply index_ind.
  - rewrite chain_from_end, drop_all. split; [constructor|]. intros _. by left.
  - intros k Hk IH. destruct (lookup_lt_is_Some_2 Expression k Hk) as [x Hx].
    rewrite (chain_from_step _ _ _ _ k x Hx), (drop_S _ x k Hx), elem_of_app, in_empty.
    assert (4 * Z.of_nat n ∉ here up None w x (Z.of_nat k)) by (intros Hs%here_none; lia).
    destruct (passes None x).
    + rewrite IH. tauto.
    + rewrite elem_of_nil. split; [tauto|]. by intros [? _].
Qed.

(** A match at the end of the expression comes with the last state. *)
Lemma chain_from_closed c w k s :
  (k ≤ n)%nat → s ∈ chain_from up Expression c w k → off s = n → 4 * Z.of_nat n ∈ chain_from up Expression c w k.
Proof.
  revert k. apply (index_ind Expression (λ k, s ∈ chain_from up Expression c w k → off s = n →
    4 * Z.of_nat n ∈ chain_from up Expression c w k)).
  - intros _ _. rewrite chain_from_end. by left.
  - intros k Hk IH. destruct (lookup_lt_is_Some_2 Expression k Hk) as [x Hx].
    rewrite (chain_from_step _ _ _ _ k x Hx), !elem_of_app. intros [Hs|Hs] Hn.
    + assert (Hv : valid Expression s).
      { apply (chain_from_valid up Expression c w k); [lia|]. rewrite (chain_from_step _ _ _ _ k x Hx). apply elem_of_app. by left. }
      destruct (valid_off _ _ Hv) as [_ Ho]. rewrite Hn in Ho. destruct (here_range _ _ _ _ _ _ Hs) as [Hr Hp].
      destruct Ho as [->|Ho]; [by left|]. right. assert (n = S k) as Hk' by lia.
      destruct Hv as [(j & _ & Hj)|(j & Hstar & Hj)]; [lia|]. assert (j = k) as -> by lia.
      rewrite (star_passes Expression c k x Hx Hstar). rewrite <- Hk', chain_from_end. by left.
    + right. destruct (passes c x); [auto|by apply elem_of_nil in Hs].
Qed.
End language.

(** ** The matcher decides the language of the expression

    Whenever no write leaves the arrays. *)

Section matcher.
Context (Expression : list Z) (IgnoreCase : bool) (UpcaseTable : Z → Z).
Hypothesis Hshort : zlen Expression < 2 ^ 14.

Abbreviation up := (upcase IgnoreCase UpcaseTable).
Abbreviation n := (length Expression).
Abbreviation MaxState := (4 * Z.of_nat n).

(** The byte offset of a state. *)
Lemma expr_offset s :
  valid Expression s → u16 ((s + 1) / 2) = 2 * Z.of_nat (off s) ∧ (off s ≤ n)%nat.
Proof using Hshort.
  intros Hv. destruct (valid_off _ _ Hv) as [Hn Hs]. split; [|done]. unfold zlen in Hshort.
  replace ((s + 1) / 2) with (2 * Z.of_nat (off s)); [apply u16_small; lia|].
  destruct Hs as [Hs|Hs]; [apply (Z.div_unique _ _ _ 1)|apply (Z.div_unique _ _ _ 0)]; lia.
Qed.

(** One previous match appends its chain. *)
Lemma source_chain c w s M M' :
  valid Expression s →
  (let ExprOffset := u16 ((s + 1) / 2) in
   if ExprOffset =? 2 * zlen Expression then Some M
   else expression_loop Expression IgnoreCase UpcaseTable c w (drop (Z.to_nat (ExprOffset / 2)) Expression) ExprOffset M)
    = Some M' →
  CurrentMatches M' = CurrentMatches M ++ chain up Expression c w (off s).
Proof using Hshort.
  intros Hv. destruct (expr_offset s Hv) as [-> Hn]. cbv zeta. unfold chain. unfold zlen at 1.
  destruct (Z.eqb_spec (2 * Z.of_nat (off s)) (2 * Z.of_nat n)) as [Heq|Hne].
  - rewrite decide_False by lia. intros [= <-]. by rewrite app_nil_r.
  - rewrite decide_True by lia. replace (2 * Z.of_nat (off s) / 2) with (Z.of_nat (off s)) by (rewrite Z.mul_comm, Z.div_mul; lia).
    rewrite Nat2Z.id. intros HM. by apply expression_loop_adds in HM; [..|lia|unfold zlen; rewrite length_drop; lia].
Qed.

Lemma skip_matches_valid New P : Forall (valid Expression) P → Forall (valid Expression) (skip_matches New P).
Proof.
  intros HP. destruct (skip_matches_ok New P) as (B & HB & _). rewrite HB in HP. by apply Forall_app in HP as [_ ?].
Qed.

Lemma source_loop_sources c w fuel : ∀ P M M',
  Forall (valid Expression) P →
  source_loop Expression IgnoreCase UpcaseTable c w fuel P M = Some M' →
  CurrentMatches M' = sources up Expression c w fuel P (CurrentMatches M).
Proof using Hshort.
  induction fuel as [|fuel IH]; intros P M M' HP.
  - destruct P; simpl; [by intros [= <-]|done].
  - destruct P as [|s rest]; [simpl; by intros [= <-]|]. apply Forall_cons_iff in HP as [Hs HP].
    cbn [source_loop sources]. cbv zeta. intros (M1 & HM1 & HM)%bind_Some.
    apply (source_chain c w s M M1 Hs) in HM1. rewrite HM1, drop_app_length in HM.
    apply IH in HM; [|by apply skip_matches_valid]. by rewrite HM, HM1.
Qed.

(** What the array of matches satisfies between two characters. *)
Record matches_ok (L : list Z) : Prop := {
  mo_walk : walk L;
  mo_valid q : q ∈ L → valid Expression q;
  mo_closed q : q ∈ L → off q = n → MaxState ∈ L
}.

Lemma valid_max s : valid Expression s → s ≤ MaxState.
Proof. intros [Hn Hs]%valid_off. lia. Qed.

(** The last entry is the last state exactly when the last state is a match. *)
Lemma last_max L : matches_ok L → list.last L = Some MaxState ↔ MaxState ∈ L.
Proof.
  intros [Hw Hv _]. split; [apply last_Some_elem_of|]. intros Hin. destruct L as [|x L _] using rev_ind; [by apply elem_of_nil in Hin|].
  rewrite last_snoc. f_equal. pose proof (walk_last _ Hw x L MaxState eq_refl Hin).
  assert (x ≤ MaxState); [|lia]. apply valid_max, Hv. apply elem_of_app. right. by left.
Qed.

(** The matches after one more character. *)
Lemma step_matches c w L :
  matches_ok L →
  let D := sources up Expression c w (length L) L [] in
  matches_ok D ∧ ∀ s, s ∈ D ↔ ∃ q, q ∈ L ∧ s ∈ chain up Expression c w (off q).
Proof.
  intros [Hw Hv Hc] D. destruct (sources_walk up Expression c w L Hw Hv) as [HD Hiff]. fold D in HD, Hiff.
  split; [|done]. split; [done|..].
  - intros s (q & Hq & Hs)%Hiff. destruct (chain_cases _ _ _ _ _ _ Hs) as [Hlt Heq]. rewrite Heq in Hs.
    by apply (chain_from_valid up Expression c w (off q)); [lia|].
  - intros s (q & Hq & Hs)%Hiff Hn. apply Hiff. exists q. split; [done|].
    destruct (chain_cases _ _ _ _ _ _ Hs) as [Hlt Heq]. rewrite Heq in *.
    by apply (chain_from_closed up Expression c w (off q) s); [lia|..].
Qed.

Lemma step_accept c w L :
  matches_ok L →
  accept up Expression (sources up Expression (Some c) w (length L) L []) w ↔ accept up Expression L (c :: w).
Proof.
  intros HL. destruct (step_matches (Some c) w L HL) as [_ Hiff]. unfold accept. rewrite !Exists_exists. split.
  - intros (s & (q & Hq & Hs)%Hiff & H). exists q. split; [done|]. apply chain_residual; [by apply HL|].
    apply Exists_exists. by exists s.
  - intros (q & Hq & H). apply chain_residual in H; [|by apply HL]. apply Exists_exists in H as (s & Hs & H).
    exists s. split; [|done]. apply Hiff. by exists q.
Qed.

Lemma step_finish L :
  matches_ok L → MaxState ∉ L →
  MaxState ∈ sources up Expression None [] (length L) L [] ↔ accept up Expression L [].
Proof.
  intros HL Hno. destruct (step_matches None [] L HL) as [_ Hiff]. unfold accept. rewrite Hiff, Exists_exists.
  assert (Hq : ∀ q, q ∈ L → MaxState ∈ chain up Expression None [] (off q) ↔ in_expression up (rest Expression q) []).
  { intros q Hq. destruct (valid_off _ _ (mo_valid _ HL q Hq)) as [Hn _]. unfold rest.
    rewrite <- (chain_from_finish up Expression [] (off q)) by done. unfold chain.
    destruct (decide (off q < n)%nat) as [|Hge]; [done|]. destruct Hno. apply (mo_closed _ HL q Hq). lia. }
  split; intros (q & Hin & H); exists q; (split; [done|]); by apply Hq.
Qed.

Lemma name_loop_ok w : ∀ L Aux b,
  matches_ok L → name_loop Expression IgnoreCase UpcaseTable w L Aux = Some b →
  b = true ↔ accept up Expression L w.
Proof using Hshort.
  induction w as [|c w IH]; intros L Aux b HL.
  - cbn [name_loop]. rewrite max_state by done. unfold zlen. destruct (bool_decide _) eqn:Hlast.
    + apply bool_decide_eq_true in Hlast. intros [= <-]. split; [|done]. intros _.
      apply last_max in Hlast; [|done]. apply Exists_exists. exists MaxState. split; [done|]. unfold rest.
      rewrite off_even, drop_all. constructor.
    + apply bool_decide_eq_false in Hlast. rewrite last_max in Hlast by done. intros (M & HM & [= <-])%bind_Some.
      apply source_loop_sources in HM; [|apply Forall_forall; apply HL]. rewrite bool_decide_eq_true, HM.
      destruct (step_matches None [] L HL) as [HD _]. simpl CurrentMatches. rewrite last_max by done. by apply step_finish.
  - cbn [name_loop]. intros (M & HM & Hb)%bind_Some.
    apply source_loop_sources in HM; [|apply Forall_forall; apply HL]. simpl CurrentMatches in HM.
    destruct (step_matches (Some c) w L HL) as [HD _]. rewrite <- step_accept by done. rewrite HM in Hb.
    destruct (bool_decide _) eqn:Hnil in Hb.
    + apply bool_decide_eq_true in Hnil. rewrite Hnil. injection Hb as <-. by rewrite accept_nil.
    + by apply (IH _ (AuxBuffer M)).
Qed.
End matcher.
