(* ===== verification/NameSpace.v ===== *)
(** * The space of the matches

    For expressions of characters, stars and question marks, the matches of one
    character of the name come from different characters of the expression, two at
    most from each, so the arrays have room for them. *)

From stdpp Require Import base list list_tactics numbers option sorting.
From S2P Require Import Prelude Name NameWalk NameLang.

(** An expression without the DOS wild cards. *)
Definition plain (x : Z) : Prop := x ≠ DOS_STAR ∧ x ≠ DOS_QM ∧ x ≠ DOS_DOT.

Section space.
Context (up : Z → Z) (Expression : list Z) (c : option Z) (w : list Z).
Hypothesis Hplain : Forall plain Expression.

Abbreviation n := (length Expression).
Abbreviation chain := (chain up Expression c w).
Abbreviation chain_from := (chain_from up Expression c w).

Lemma plain_passes k x : Expression !! k = Some x → passes c x = true ↔ x = Star.
Proof using Hplain.
  intros Hx. destruct (Forall_lookup_1 _ _ _ _ Hplain Hx) as (H1 & H2 & H3). unfold passes.
  rewrite (proj2 (Z.eqb_neq _ _) H1), (proj2 (Z.eqb_neq _ _) H2), (proj2 (Z.eqb_neq _ _) H3). simpl.
  rewrite !orb_false_r. apply Z.eqb_eq.
Qed.

(** ** One chain *)

(** The chain from [k] comes from the characters before [b]: stars, and a last character
    that is matched. *)
Record chain_end (k b : nat) : Prop := {
  ce_range : (k ≤ b ≤ n)%nat;
  ce_star j : (k ≤ j)%nat → (S j < b)%nat → Expression !! j = Some Star;
  ce_states j : (k ≤ j < b)%nat → Expression !! j = Some Star →
    4 * Z.of_nat j ∈ chain_from k ∧ 4 * Z.of_nat j + 3 ∈ chain_from k;
  ce_take j : (k ≤ j < b)%nat → Expression !! j ≠ Some Star → 4 * Z.of_nat (S j) ∈ chain_from k;
  ce_length : Z.of_nat (length (chain_from k)) ≤ 2 * (Z.of_nat b - Z.of_nat k) + (if decide (b = n) then 1 else 0);
  ce_last s : s ∈ chain_from k → s ≤ 4 * Z.of_nat b ∧ (s = 4 * Z.of_nat b → (b < n)%nat → ¬ is_star Expression (Nat.pred b) ∧ (k < b)%nat)
}.

Lemma chain_end_exists k : (k ≤ n)%nat → ∃ b, chain_end k b.
Proof using Hplain.
  revert k. apply index_ind.
  - exists n. split; try lia.
    + rewrite chain_from_end. simpl. rewrite decide_True by done. lia.
    + intros s. rewrite chain_from_end, list_elem_of_singleton. intros ->. split; [lia|lia].
  - intros k Hk (b & [B1 B2 B3 B4 B5 B6]). destruct (lookup_lt_is_Some_2 Expression k Hk) as [x Hx].
    pose proof (plain_passes k x Hx) as Hp. pose proof (chain_from_step up Expression c w k x Hx) as Hstep.
    unfold here in Hstep. destruct (decide (x = Star)) as [->|HS].
    + change (Star =? Star) with true in Hstep. rewrite (proj2 Hp eq_refl) in Hstep. cbv iota in Hstep. exists b.
      split; rewrite ?Hstep; [lia|..].
      * intros j Hj Hb. destruct (decide (j = k)) as [->|]; [done|]. apply B2; lia.
      * intros j Hj Hs. rewrite !elem_of_app. destruct (decide (j = k)) as [->|].
        { split; left; [by left|by right; left]. }
        destruct (B3 j) as [? ?]; [lia|done|]. auto.
      * intros j Hj Hs. rewrite elem_of_app. destruct (decide (j = k)) as [->|]; [done|]. right. apply B4; [lia|done].
      * rewrite length_app. simpl. destruct (decide (b = n)); lia.
      * intros s [Hs|Hs]%elem_of_app.
        { rewrite !elem_of_cons, elem_of_nil in Hs. destruct Hs as [->|[->|[]]]; (split; [lia|intros; exfalso; lia]). }
        destruct (B6 s Hs) as [Hle Heq]. split; [done|]. intros Hs' Hb. destruct (Heq Hs' Hb). split; [done|lia].
    + assert (Hpf : passes c x = false) by (destruct (passes c x); [by destruct HS; apply Hp|done]).
      rewrite Hpf, (proj2 (Z.eqb_neq _ _) HS), app_nil_r in Hstep.
      destruct (Forall_lookup_1 _ _ _ _ Hplain Hx) as (H1 & _). rewrite (proj2 (Z.eqb_neq _ _) H1) in Hstep.
      destruct (takes up c x); cbv iota in Hstep.
      * exists (S k). split; rewrite ?Hstep; [lia|lia|..].
        { intros j Hj Hs. assert (j = k) as -> by lia. congruence. }
        { intros j Hj Hs. assert (j = k) as -> by lia. rewrite Nat2Z.inj_succ. by left. }
        { cbn [length]. destruct (decide (S k = n)); lia. }
        intros s ->%list_elem_of_singleton. split; [lia|]. intros _ _. split; [|lia]. simpl. intros (y & Hy & Hs).
        rewrite Hx in Hy. injection Hy as <-. by destruct Hs.
      * exists k. split; rewrite ?Hstep; try lia; [cbn [length]; destruct (decide (k = n)); lia|]. by intros s ?%elem_of_nil.
Qed.

(** A chain that has states ends above its beginning. *)
Lemma chain_from_last k s l : (k < n)%nat → chain_from k = l ++ [s] → 4 * Z.of_nat k < s.
Proof using Hplain.
  intros Hk Heq. destruct (lookup_lt_is_Some_2 Expression k Hk) as [x Hx].
  pose proof (chain_from_step up Expression c w k x Hx) as Hstep.
  assert (Hin : s ∈ chain_from k) by (rewrite Heq; apply elem_of_app; right; by left).
  pose proof (chain_from_sorted up Expression c w k ltac:(lia)) as Hsort.
  destruct (decide (x = Star)) as [->|HS].
  - assert (H3 : 4 * Z.of_nat k + 3 ∈ chain_from k) by (rewrite Hstep; apply elem_of_app; left; by right; left).
    rewrite Heq in H3, Hsort. apply elem_of_app in H3 as [H3|H3%list_elem_of_singleton]; [|lia].
    apply StronglySorted_app in Hsort as (H1 & _ & _). specialize (H1 _ s H3). rewrite list_elem_of_singleton in H1.
    specialize (H1 eq_refl). lia.
  - destruct (passes c x) eqn:Hp; [by destruct HS; apply (plain_passes k x Hx)|]. rewrite Hstep, app_nil_r in Hin. unfold here in Hin.
    destruct (Forall_lookup_1 _ _ _ _ Hplain Hx) as (H1 & _).
    rewrite Hp, (proj2 (Z.eqb_neq _ _) HS), (proj2 (Z.eqb_neq _ _) H1) in Hin.
    destruct (takes up c x); [apply list_elem_of_singleton in Hin; lia|by apply elem_of_nil in Hin].
Qed.

(** Only a star adds the state it is at. *)
Lemma chain_from_first k l : (k < n)%nat → chain_from k = 4 * Z.of_nat k :: l → is_star Expression k ∧ l ≠ [].
Proof using Hplain.
  intros Hk Heq. destruct (lookup_lt_is_Some_2 Expression k Hk) as [x Hx].
  assert (Hlt : l ≠ []) by (intros ->; pose proof (chain_from_last k (4 * Z.of_nat k) [] Hk Heq); lia).
  split; [|done]. exists x. split; [done|]. left. destruct (decide (x = Star)) as [|HS]; [done|]. exfalso.
  pose proof (chain_from_step up Expression c w k x Hx) as Hstep. destruct (passes c x) eqn:Hp; [by destruct HS; apply (plain_passes k x Hx)|].
  rewrite app_nil_r in Hstep. unfold here in Hstep.
  destruct (Forall_lookup_1 _ _ _ _ Hplain Hx) as (H1 & _).
  rewrite Hp, (proj2 (Z.eqb_neq _ _) HS), (proj2 (Z.eqb_neq _ _) H1) in Hstep.
  destruct (takes up c x); rewrite Hstep in Heq; [|done]. injection Heq as Heq _. lia.
Qed.

(** A state between a star and another character is not a match of its own. *)
Definition entered (s : Z) : Prop :=
  valid Expression s ∧
  ∀ k, s = 4 * Z.of_nat (S k) → (S k < n)%nat → is_star Expression k → is_star Expression (S k).

Lemma chain_from_entered k s : (k ≤ n)%nat → s ∈ chain_from k → entered s.
Proof using Hplain.
  intros Hk Hs. split; [by apply (chain_from_valid up Expression c w k)|]. revert k Hk Hs.
  apply (index_ind Expression (λ k, s ∈ chain_from k → ∀ j, s = 4 * Z.of_nat (S j) → (S j < n)%nat →
    is_star Expression j → is_star Expression (S j))).
  - rewrite chain_from_end, list_elem_of_singleton. intros -> j Hj. lia.
  - intros k Hk IH Hs j Hj Hn Hstar. destruct (lookup_lt_is_Some_2 Expression k Hk) as [x Hx].
    rewrite (chain_from_step up Expression c w k x Hx), elem_of_app in Hs.
    destruct Hs as [Hs|Hs]; [|destruct (passes c x); [by apply (IH Hs j)|by apply elem_of_nil in Hs]].
    destruct (decide (x = Star)) as [->|HS].
    + unfold here in Hs. change (Star =? Star) with true in Hs. cbv iota in Hs. rewrite !elem_of_cons, elem_of_nil in Hs.
      assert (S j = k) as -> by lia. exists Star. auto.
    + destruct (here_range _ _ _ _ _ _ Hs) as [Hr _]. destruct (decide (S j = k)) as [Hjk|].
      * exfalso. unfold here in Hs. destruct (Forall_lookup_1 _ _ _ _ Hplain Hx) as (H1 & _).
        rewrite (proj2 (Z.eqb_neq _ _) HS), (proj2 (Z.eqb_neq _ _) H1) in Hs.
        destruct (passes c x), (takes up c x); rewrite ?elem_of_cons, elem_of_nil in Hs; lia.
      * assert (j = k) as -> by lia. destruct Hstar as (y & Hy & Hyx). rewrite Hx in Hy. injection Hy as <-.
        destruct (Forall_lookup_1 _ _ _ _ Hplain Hx) as (H1 & _). by destruct Hyx.
Qed.
End space.

(** ** Spaced lists *)

Section spaced.
Context (J : Z → Prop).

(** Entries grow, or are a pair of equal ones that satisfy [J]. *)
Definition spaced (L : list Z) : Prop :=
  ∀ A x y B, L = A ++ x :: y :: B → x < y ∨ x = y ∧ J x ∧ ∀ z B', B = z :: B' → y < z.

Lemma spaced_suffix A L : spaced (A ++ L) → spaced L.
Proof. intros H A' x y B ->. apply (H (A ++ A')). by rewrite app_assoc. Qed.

Lemma spaced_le x L : spaced (x :: L) → ∀ y, y ∈ L → x ≤ y.
Proof.
  revert x. induction L as [|z L IH]; intros x H y; [by intros ?%elem_of_nil|].
  assert (Hxz : x ≤ z) by (destruct (H [] x z L eq_refl); lia).
  intros [->|Hy]%elem_of_cons; [done|]. assert (z ≤ y); [|lia]. apply IH; [|done]. by apply (spaced_suffix [x]).
Qed.

Lemma spaced_sorted L : spaced L → StronglySorted Z.le L.
Proof.
  induction L as [|x L IH]; intros H; constructor.
  - apply IH. by apply (spaced_suffix [x]).
  - apply Forall_forall. by apply spaced_le.
Qed.

(** A value occurs at the beginning at most twice. *)
Lemma spaced_again x L : spaced (x :: L) → x ∈ L → ∃ L', L = x :: L' ∧ J x ∧ ∀ y, y ∈ L' → x < y.
Proof.
  intros H Hin. destruct L as [|z L]; [by apply elem_of_nil in Hin|].
  assert (x = z) as <-.
  { pose proof (spaced_le x (z :: L) H z ltac:(by left)). apply elem_of_cons in Hin as [|Hin]; [done|].
    pose proof (spaced_le z L (spaced_suffix [x] _ H) x Hin). lia. }
  exists L. split; [done|]. destruct (H [] x x L eq_refl) as [|(_ & HJ & Hnext)]; [lia|]. split; [done|].
  intros y Hy. destruct L as [|z L]; [by apply elem_of_nil in Hy|]. specialize (Hnext z L eq_refl).
  apply elem_of_cons in Hy as [->|Hy]; [done|]. assert (z ≤ y); [|lia].
  apply (spaced_le z L); [|done]. by apply (spaced_suffix [x; x]).
Qed.

Lemma spaced_app D New :
  spaced D → StronglySorted Z.lt New → (∀ l x y, D = l ++ [x; y] → x < y) →
  (∀ l x y l', D = l ++ [x] → New = y :: l' → x < y ∨ x = y ∧ J x ∧ l' ≠ []) →
  spaced (D ++ New) ∧ (New ≠ [] → ∀ l x y, D ++ New = l ++ [x; y] → x < y).
Proof.
  intros HD HN Hlast Hj. assert (Hnew : ∀ A x y B, New = A ++ x :: y :: B → x < y).
  { intros A x y B ->. apply StronglySorted_app in HN as (_ & _ & H). apply StronglySorted_inv in H as [_ H].
    rewrite Forall_forall in H. apply H. by left. }
  split.
  - intros A x y B Heq. apply app_eq_inv in Heq as [(k & -> & Hk)|(k & -> & Hk)]; [|left; by apply (Hnew k x y B)].
    destruct k as [|x' k]; simpl in Hk; [left; by apply (Hnew [] x y B)|]. injection Hk as <- Hk.
    destruct k as [|y' k]; simpl in Hk.
    + destruct (Hj A x y B eq_refl (eq_sym Hk)) as [|(-> & HJ & Hne)]; [by left|]. right. split; [done|]. split; [done|].
      intros z B' ->. by apply (Hnew [] y z B').
    + injection Hk as <- ->. destruct (HD A x y k eq_refl) as [|(-> & HJ & Hz)]; [by left|]. right.
      split; [done|]. split; [done|]. intros z B' HB. destruct k as [|z' k]; simpl in HB; [|by injection HB as <- _; apply (Hz z' k)].
      pose proof (Hlast A y y eq_refl). lia.
  - intros Hne l x y Heq. destruct New as [|z New _] using rev_ind; [done|].
    rewrite app_assoc in Heq. change [x; y] with ([x] ++ [y]) in Heq. rewrite app_assoc in Heq.
    apply app_inj_tail in Heq as [Heq ->]. destruct New as [|u New _] using rev_ind.
    + rewrite app_nil_r in Heq. destruct (Hj l x y [] Heq eq_refl) as [|(_ & _ & ?)]; done.
    + rewrite app_assoc in Heq. apply app_inj_tail in Heq as [_ ->]. apply (Hnew New x y []). by rewrite <- app_assoc.
Qed.

(** Matches that the new list has are skipped while it has a larger state. *)
Lemma skip_all New : ∀ R1 R2,
  StronglySorted Z.lt New → StronglySorted Z.lt R1 → (∀ r, r ∈ tail R1 → r ∈ New) →
  (∀ r, r ∈ R1 → ∃ d, d ∈ New ∧ r < d) → ∀ r, r ∈ skip_matches New (R1 ++ R2) → r ∈ R2.
Proof.
  induction New as [|d New IH]; intros R1 R2 HN HR Hin Hsucc r.
  - destruct R1 as [|r1 R1]; [done|]. destruct (Hsucc r1) as (d & Hd & _); [by left|by apply elem_of_nil in Hd].
  - apply StronglySorted_inv in HN as [HN Hd]. rewrite Forall_forall in Hd. destruct R1 as [|r1 R1].
    + simpl. destruct R2 as [|s R2]; [done|]. destruct (skip_matches_ok New (if s <? d then R2 else s :: R2)) as (B & HB & _).
      intros Hr. assert (Hr' : r ∈ (if s <? d then R2 else s :: R2)) by (rewrite HB; apply elem_of_app; by right).
      destruct (s <? d); [by right|done].
    + apply StronglySorted_inv in HR as [HR Hr1]. rewrite Forall_forall in Hr1. cbn [skip_matches app]. simpl in Hin.
      assert (Hge : ∀ r', r' ∈ R1 → d ≤ r').
      { intros r' Hr'. pose proof (Hin r' Hr') as [|H]%elem_of_cons; [lia|]. specialize (Hd r' H). lia. }
      assert (Hs' : ∀ r', r' ∈ r1 :: R1 → d ≤ r' → ∃ d', d' ∈ New ∧ r' < d').
      { intros r' Hr' Hle. destruct (Hsucc r' Hr') as (d' & Hd' & Hlt). apply elem_of_cons in Hd' as [->|Hd']; [lia|]. eauto. }
      assert (Hnext : ∀ r', r' ∈ R1 → d < r' → r' ∈ New).
      { intros r' Hr' Hlt. pose proof (Hin r' Hr') as [|]%elem_of_cons; [lia|done]. }
      destruct (Z.ltb_spec r1 d) as [Hlt|Hle].
      * apply IH; [done|done|..].
        -- intros r' Hr'. destruct R1 as [|r2 R1]; simpl in Hr'; [by apply elem_of_nil in Hr'|].
           apply Hnext; [by right|]. apply StronglySorted_inv in HR as [_ HR]. rewrite Forall_forall in HR.
           specialize (HR r' Hr'). specialize (Hge r2 ltac:(by left)). lia.
        -- intros r' Hr'. apply Hs'; [by right|auto].
      * apply (IH (r1 :: R1)); [done|constructor; [done|by apply Forall_forall]|..].
        -- simpl. intros r' Hr'. apply Hnext; [done|]. specialize (Hr1 r' Hr'). lia.
        -- intros r' Hr'. apply Hs'; [done|]. apply elem_of_cons in Hr' as [->|Hr']; [done|auto].
Qed.
End spaced.

Lemma spaced_strict J L :
  spaced J L → (∀ A x B, L ≠ A ++ x :: x :: B) → StronglySorted Z.lt L.
Proof.
  induction L as [|x L IH]; intros H Hno; constructor.
  - apply IH; [by apply (spaced_suffix J [x])|]. intros A y B ->. by apply (Hno (x :: A) y B).
  - apply Forall_forall. intros y Hy. pose proof (spaced_le J x L H y Hy). destruct (decide (x = y)) as [<-|]; [|lia].
    destruct (spaced_again J x L H Hy) as (L' & -> & _). by destruct (Hno [] x L').
Qed.

(** ** The loop over the previous matches *)

Section loop.
Context (up : Z → Z) (Expression : list Z) (c : option Z) (w : list Z).
Hypothesis Hplain : Forall plain Expression.

Abbreviation n := (length Expression).
Abbreviation chain := (chain up Expression c w).
Abbreviation chain_from := (chain_from up Expression c w).

(** A state that is added twice: after a character and at the star behind it. *)
Definition twice (s : Z) : Prop :=
  ∃ k, s = 4 * Z.of_nat (S k) ∧ ¬ is_star Expression k ∧ is_star Expression (S k).

Lemma plain_star k : is_star Expression k → Expression !! k = Some Star.
Proof using Hplain.
  intros (x & Hx & [->| ->]); [done|]. destruct (Forall_lookup_1 _ _ _ _ Hplain Hx) as [H _]. by destruct H.
Qed.

Lemma star_is k : Expression !! k = Some Star → is_star Expression k.
Proof. intros H. exists Star. auto. Qed.

Section skip.
Context (s : Z) (b : nat).
Hypothesis Hs : valid Expression s.
Hypothesis Hend : chain_end up Expression c w (off s) b.

Lemma even_odd r : valid Expression r →
  (r = 4 * Z.of_nat (off r)) ∨ (∃ i, off r = S i ∧ is_star Expression i ∧ r = 4 * Z.of_nat i + 3).
Proof.
  intros [(j & Hj & ->)|(j & Hj & ->)]; [left|right].
  - by rewrite off_even.
  - exists j. by rewrite off_odd.
Qed.

(** Before the chain's beginning is the match itself, when a star is there. *)
Lemma star_before j : off s = S j → ¬ is_star Expression j → s = 4 * Z.of_nat (off s).
Proof using Hs.
  intros Hj Hno. destruct (even_odd s Hs) as [|(i & Hi & Hstar & _)]; [done|].
  rewrite Hj in Hi. injection Hi as ->. done.
Qed.

(** A match that is there twice is not passed by the chain of another one. *)
Lemma twice_first r : (off s ≤ off r < b)%nat → twice r → r = s.
Proof using Hs Hend.
  intros Hr (k & -> & Hno & Hstar). rewrite off_even in Hr. destruct (decide (off s = S k)) as [Heq|Hne].
  - rewrite (star_before k Heq Hno). by rewrite Heq.
  - destruct Hno. apply star_is, (ce_star _ _ _ _ _ _ Hend); lia.
Qed.

(** The matches on the chain's way are states of the chain. *)
Lemma on_chain L r :
  spaced twice (s :: L) → r ∈ L → entered Expression r → (off s ≤ off r < b)%nat → r ∈ chain_from (off s).
Proof using Hplain Hs Hend.
  intros HL HrL [Hv Hent] Hr. pose proof (ce_range _ _ _ _ _ _ Hend) as Hb.
  destruct (even_odd r Hv) as [Heq|(i & Hi & Hstar & ->)].
  - destruct (decide (Expression !! off r = Some Star)) as [Hst|Hst].
    { destruct (ce_states _ _ _ _ _ _ Hend (off r) Hr Hst) as [H _]. by rewrite <- Heq in H. }
    exfalso. destruct (decide (off s = off r)) as [Hsr|Hne].
    + destruct (even_odd s Hs) as [Hse|(i & Hi & Hstar & _)].
      * assert (s = r) as <- by (rewrite Hse, Hsr; done).
        destruct (spaced_again _ _ _ HL HrL) as (_ & _ & (k & Hk & _ & Hstar) & _).
        apply Hst. rewrite Hk, off_even. by apply plain_star.
      * apply Hst. rewrite <- Hsr, Hi. apply plain_star, Hent; [by rewrite <- Hi, Hsr|lia|done].
    + destruct (off r) as [|j] eqn:Hj; [lia|]. apply Hst. apply plain_star, Hent; [done|lia|].
      apply star_is, (ce_star _ _ _ _ _ _ Hend); lia.
  - rewrite Hi in Hr. destruct (decide (off s ≤ i)%nat) as [Hle|Hgt].
    + destruct (ce_states _ _ _ _ _ _ Hend i) as [_ H]; [lia|by apply plain_star|done].
    + exfalso. pose proof (spaced_le _ _ _ HL _ HrL) as Hle. destruct (valid_off _ _ Hs) as [_ Hse].
      assert (Hsi : s = 4 * Z.of_nat i + 3) by lia. rewrite <- Hsi in HrL.
      destruct (spaced_again _ _ _ HL HrL) as (_ & _ & (k & Hk & _) & _). lia.
Qed.

Lemma chain_above r : (off s ≤ off r < b)%nat → valid Expression r → ∃ d, d ∈ chain_from (off s) ∧ r < d.
Proof using Hend.
  intros Hr Hv. destruct (valid_off _ _ Hv) as [_ Ho].
  destruct (decide (Expression !! off r = Some Star)) as [Hst|Hst].
  - exists (4 * Z.of_nat (off r) + 3). split; [by apply (ce_states _ _ _ _ _ _ Hend)|lia].
  - exists (4 * Z.of_nat (S (off r))). split; [by apply (ce_take _ _ _ _ _ _ Hend)|lia].
Qed.

Lemma off_mono r r' : valid Expression r → valid Expression r' → r ≤ r' → (off r ≤ off r')%nat.
Proof. intros [_ H]%valid_off [_ H']%valid_off ?. lia. Qed.

Lemma split_at L :
  spaced twice L → Forall (valid Expression) L →
  ∃ R1 R2, L = R1 ++ R2 ∧ Forall (λ r, off r < b)%nat R1 ∧ Forall (λ r, b ≤ off r)%nat R2.
Proof.
  induction L as [|x L IH]; intros HL Hv; [by exists [], []|]. pose proof Hv as [Hx Hv']%Forall_cons_iff.
  destruct (decide (off x < b)%nat) as [Hlt|Hge].
  - destruct IH as (R1 & R2 & -> & H1 & H2); [by apply (spaced_suffix _ [x])|done|].
    exists (x :: R1), R2. split_and!; [done|by constructor|done].
  - exists [], (x :: L). split_and!; [done|constructor|]. constructor; [lia|]. apply Forall_forall. intros y Hy.
    pose proof (spaced_le _ _ _ HL y Hy). rewrite Forall_forall in Hv'.
    pose proof (off_mono x y Hx (Hv' y Hy) ltac:(lia)). lia.
Qed.

(** What is left of the matches comes from characters after the chain. *)
Lemma skip_above L :
  spaced twice (s :: L) → Forall (entered Expression) L → ∀ r, r ∈ skip_matches (chain_from (off s)) L → (b ≤ off r)%nat.
Proof using Hplain Hs Hend.
  intros HL Hent. assert (Hv : Forall (valid Expression) L) by (eapply Forall_impl; [done|]; by intros r [? _]).
  destruct (split_at L (spaced_suffix _ [s] _ HL) Hv) as (R1 & R2 & -> & H1 & H2).
  rewrite Forall_forall in H1, H2, Hent, Hv. intros r Hr. apply H2. revert r Hr.
  assert (Hoff : ∀ r, r ∈ R1 → (off s ≤ off r < b)%nat).
  { intros r Hr. split; [|by apply H1]. apply off_mono; [done|apply Hv, elem_of_app; by left|].
    apply (spaced_le _ _ _ HL). apply elem_of_app. by left. }
  pose proof (ce_range _ _ _ _ _ _ Hend) as Hb. apply skip_all.
  - apply chain_from_sorted. lia.
  - apply (spaced_strict twice).
    { intros A x y B ->. destruct (HL (s :: A) x y (B ++ R2)) as [|(-> & HJ & Hz)]; [simpl; by rewrite <- app_assoc|by left|].
      right. split_and!; [done|done|]. intros z B' ->. by apply (Hz z (B' ++ R2)). }
    intros A x B ->. destruct (HL (s :: A) x x (B ++ R2)) as [|(_ & HJ & _)]; [simpl; by rewrite <- app_assoc|lia|].
    assert (x = s) as -> by (apply twice_first; [apply Hoff, elem_of_app; right; by left|done]).
    rewrite <- app_assoc in HL. destruct (spaced_again _ _ _ HL) as (L' & HL' & _ & Hlt); [apply elem_of_app; right; by left|].
    assert (Hin : s ∈ L'); [|specialize (Hlt s Hin); lia]. destruct A as [|a A]; simpl in HL'; apply (f_equal tail) in HL'; simpl in HL'; subst L'; [by left|].
    apply elem_of_app. right. by left.
  - intros r Hr. assert (r ∈ R1) by (destruct R1; [by apply elem_of_nil in Hr|by right]).
    apply (on_chain (R1 ++ R2)); [done|apply elem_of_app; by left|apply Hent, elem_of_app; by left|by apply Hoff].
  - intros r Hr. apply chain_above; [by apply Hoff|]. apply Hv, elem_of_app. by left.
Qed.
End skip.
End loop.
