(* ===== verification/NameFits.v ===== *)
(** * The arrays have room

    One previous match after the other: the new matches come from characters that no
    earlier match went through, so there are at most two for each character of the
    expression and one for its end. The matcher then never leaves its arrays. *)

From stdpp Require Import base list list_tactics numbers option sorting.
From S2P Require Import Prelude Name NameWalk NameLang NameSpace.

Section loop.
Context (up : Z → Z) (Expression : list Z) (c : option Z) (w : list Z).
Hypothesis Hplain : Forall plain Expression.

Abbreviation n := (length Expression).
Abbreviation chain := (chain up Expression c w).
Abbreviation chain_from := (chain_from up Expression c w).
Abbreviation twice := (twice Expression).

(** The matches [P] are left, the matches [D] come from the characters before [B]. *)
Record room (B : nat) (P D : list Z) : Prop := {
  rm_bound : (B ≤ n)%nat;
  rm_spaced : spaced twice P;
  rm_entered : Forall (entered Expression) P;
  rm_above : Forall (λ r, B ≤ off r)%nat P;
  rm_new : spaced twice D;
  rm_pair l x y : D = l ++ [x; y] → x < y;
  rm_last d : d ∈ D → d ≤ 4 * Z.of_nat B ∧
    (d = 4 * Z.of_nat B → (B < n)%nat → ¬ is_star Expression (Nat.pred B) ∧ (0 < B)%nat);
  rm_length : Z.of_nat (length D) ≤ 2 * Z.of_nat B + (if decide (B = n) then 1 else 0)
}.

(** The new chain goes on where the last one ended, or begins with a state added twice. *)
Lemma room_join B P D k l x y l' :
  room B P D → (B ≤ k < n)%nat → D = l ++ [x] → chain_from k = y :: l' →
  x < y ∨ x = y ∧ twice x ∧ l' ≠ [].
Proof using Hplain.
  intros HR Hk -> Hy. destruct (rm_last _ _ _ HR x) as [Hle Heq]; [apply elem_of_app; right; by left|].
  assert (Hge : 4 * Z.of_nat k ≤ y) by (apply (chain_from_range up Expression c w k); [lia|]; rewrite Hy; by left).
  destruct (decide (x < y)) as [|Hxy]; [by left|right]. assert (k = B ∧ x = y ∧ y = 4 * Z.of_nat B) as (-> & -> & ->) by lia.
  destruct (chain_from_first up Expression c w Hplain B l' ltac:(lia) Hy) as [Hstar Hne].
  destruct (Heq eq_refl ltac:(lia)) as [Hno Hpos]. split_and!; [done| |done].
  exists (Nat.pred B). destruct B as [|B]; [lia|]. done.
Qed.

Lemma skip_matches_suffix New P : ∃ B, P = B ++ skip_matches New P.
Proof. destruct (skip_matches_ok New P) as (B & HB & _). by exists B. Qed.

Lemma room_step B s rest D :
  room B (s :: rest) D → ∃ B', room B' (skip_matches (chain (off s)) rest) (D ++ chain (off s)).
Proof using Hplain.
  intros HR. pose proof (rm_above _ _ _ HR) as [Hk Habove]%Forall_cons_iff.
  pose proof (rm_entered _ _ _ HR) as [[Hs _] Hent]%Forall_cons_iff. pose proof (rm_spaced _ _ _ HR) as Hsp.
  set (k := off s) in *. destruct (skip_matches_suffix (chain k) rest) as [R HRest].
  assert (Hsuf : ∀ P, spaced twice (R ++ P) ∧ Forall (entered Expression) (R ++ P) → spaced twice P ∧ Forall (entered Expression) P).
  { intros P [H1 H2]. apply Forall_app in H2 as [_ H2]. split; [by apply (spaced_suffix _ R)|done]. }
  destruct (Hsuf (skip_matches (chain k) rest)) as [Hsp' Hent'].
  { rewrite <- HRest. split; [by apply (spaced_suffix _ [s])|done]. }
  destruct (decide (chain k = [])) as [Hnil|Hne].
  { exists B. rewrite Hnil, app_nil_r in *. destruct rest; destruct HR; split; try done; by apply (spaced_suffix _ [s]). }
  assert (Hkn : (k < n)%nat) by (unfold NameWalk.chain in Hne; by destruct (decide (k < n)%nat)).
  assert (Hc : chain k = chain_from k) by (unfold NameWalk.chain; by rewrite decide_True).
  destruct (chain_end_exists up Expression c w Hplain k ltac:(lia)) as [b Hend].
  pose proof (skip_above up Expression c w Hplain s b Hs Hend rest Hsp Hent) as Hskip.
  rewrite Hc in *. pose proof (ce_range _ _ _ _ _ _ Hend) as Hb.
  destruct (spaced_app twice D (chain_from k)) as [Hnew Hpair].
  - apply HR.
  - apply chain_from_sorted. lia.
  - apply HR.
  - intros l x y l'. apply (room_join B (s :: rest)); [done|lia].
  - exists b. split; [lia|done|done|by apply Forall_forall|done|by apply Hpair|..].
    + intros d [Hd|Hd]%elem_of_app.
      * destruct (rm_last _ _ _ HR d Hd) as [Hle Heq]. split; [lia|]. intros Hdb Hbn. assert (b = B) as -> by lia. auto.
      * destruct (ce_last _ _ _ _ _ _ Hend d Hd) as [Hle Heq]. split; [done|]. intros Hdb Hbn.
        destruct (Heq Hdb Hbn). split; [done|lia].
    + pose proof (rm_length _ _ _ HR). pose proof (ce_length _ _ _ _ _ _ Hend). rewrite length_app, Nat2Z.inj_add.
      destruct (decide (B = n)) as [|HB], (decide (b = n)) as [|Hb']; lia.
Qed.

(** All sources keep the room, and every intermediate array fits too. *)
Lemma sources_room fuel : ∀ B P D, room B P D → (length P ≤ fuel)%nat → ∃ B', room B' [] (sources up Expression c w fuel P D).
Proof using Hplain.
  induction fuel as [|fuel IH]; intros B P D HR Hf.
  - destruct P; [|simpl in Hf; lia]. by exists B.
  - destruct P as [|s rest]; [by exists B|]. cbn [sources]. cbv zeta. destruct (room_step B s rest D HR) as [B' HB'].
    apply (IH B'); [done|]. destruct (skip_matches_suffix (chain (off s)) rest) as [R HRest].
    apply (f_equal length) in HRest. rewrite length_app in HRest. simpl in Hf. lia.
Qed.

Lemma room_size B P D : room B P D → Z.of_nat (length D) ≤ 2 * Z.of_nat n + 1.
Proof. intros HR. pose proof (rm_length _ _ _ HR). pose proof (rm_bound _ _ _ HR). destruct (decide (B = n)) as [|HB]; lia. Qed.
End loop.

(** ** The arrays *)

Section arrays.
Context (Expression : list Z) (IgnoreCase : bool) (UpcaseTable : Z → Z).
Hypothesis Hshort : zlen Expression < 2 ^ 14.

Abbreviation up := (upcase IgnoreCase UpcaseTable).
Abbreviation n := (zlen Expression).

(** At most [m] matches, or the arrays are in the pool block. *)
Definition local (m : Z) (M : MATCHES) : Prop := AuxBuffer M = false → zlen (CurrentMatches M) ≤ m.

Lemma zlen_nonneg {A} (l : list A) : 0 ≤ zlen l.
Proof. unfold zlen. lia. Qed.

Lemma zlen_app {A} (l l' : list A) : zlen (l ++ l') = zlen l + zlen l'.
Proof. unfold zlen. rewrite length_app. lia. Qed.

Lemma add_match_fits State m M :
  zlen (CurrentMatches M) ≤ 2 * n + 1 → local m M → m < MATCHES_ARRAY_SIZE →
  ∃ M', add_match Expression State M = Some M' ∧ CurrentMatches M' = CurrentMatches M ++ [State] ∧ local (m + 1) M'.
Proof.
  intros Hn Hm Hlt. unfold add_match, array_size, local in *. destruct M as [D [|]]; simpl in *.
  - rewrite (proj2 (Z.ltb_lt _ _)) by lia. eexists. split_and!; [done|done|done].
  - specialize (Hm eq_refl). rewrite (proj2 (Z.ltb_lt _ _)) by lia. eexists. split_and!; [done|done|]. intros _. simpl.
    rewrite zlen_app. change (zlen [State]) with 1. lia.
Qed.

(** The arrays of the pool block have room for [cap] matches, and 14 matches are that
    many only if the block has room for the local arrays as well. *)
Section capacity.
Context (cap : Z).
Hypothesis Hcap : cap ≤ 2 * n + 2 ∧ (cap ≤ 2 * n + 1 ∨ 7 ≤ n).

Lemma check_space_fits M :
  zlen (CurrentMatches M) ≤ cap →
  ∃ M', check_space Expression M = Some M' ∧ CurrentMatches M' = CurrentMatches M ∧ local 13 M'.
Proof.
  intros Hn. unfold check_space, local. change (MATCHES_ARRAY_SIZE - 2) with 14. change MATCHES_ARRAY_SIZE with 16.
  destruct (Z.leb_spec 14 (zlen (CurrentMatches M))) as [Hle|Hgt]; simpl.
  - destruct (AuxBuffer M) eqn:Haux; simpl.
    + exists M. by rewrite Haux.
    + rewrite (proj2 (Z.leb_le _ _)) by lia. by eexists.
  - exists M. split_and!; [done|done|lia].
Qed.

Lemma expression_loop_fits c w E : ∀ k M,
  0 ≤ k → k + zlen E = n → zlen (CurrentMatches M) + zlen (adds up c w E k) ≤ cap →
  (E = [] → local 15 M) →
  ∃ M', expression_loop Expression IgnoreCase UpcaseTable c w E (2 * k) M = Some M' ∧ local 16 M'.
Proof using Hshort Hcap.
  induction E as [|x E IH]; intros k M Hk Hn Hsize Hlocal.
  - simpl in *. destruct (add_match_fits (u16 (2 * n * 2)) 15 M) as (M' & HM' & _ & HL); [|auto|done|by exists M'].
    change (zlen [4 * k]) with 1 in Hsize. lia.
  - rewrite zlen_cons in Hn. pose proof (zlen_nonneg E) as Hz. cbn [adds] in Hsize. rewrite zlen_app in Hsize.
    pose proof (zlen_nonneg (here up c w x k)) as Hh.
    assert (Hrest : 0 ≤ zlen (if passes c x then adds up c w E (k + 1) else [])) by apply zlen_nonneg.
    cbn [expression_loop]. cbv zeta. rewrite (u16_small (2 * k + 2)) by lia.
    replace (2 * k + 2) with (2 * (k + 1)) by lia.
    destruct (check_space_fits M) as (M1 & HM1 & HD1 & HL1); [lia|]. rewrite HM1. cbn [mbind option_bind].
    assert (IH' : ∀ M' m, zlen (CurrentMatches M') + zlen (adds up c w E (k + 1)) ≤ cap → local m M' → m ≤ 15 →
      ∃ M'', expression_loop Expression IgnoreCase UpcaseTable c w E (2 * (k + 1)) M' = Some M'' ∧ local 16 M'').
    { intros M' m Hs Hl Hm. apply IH; [lia|lia|done|]. intros _ Ha. specialize (Hl Ha). lia. }
    assert (Hadd : ∀ State, zlen (CurrentMatches M1) + 1 ≤ cap →
      ∃ M'', add_match Expression State M1 = Some M'' ∧ local 16 M'').
    { intros State Hs. destruct (add_match_fits State 13 M1) as (M' & HM' & _ & HL); [lia|done|done|].
      exists M'. split; [done|]. intros Ha. specialize (HL Ha). lia. }
    rewrite <- HD1 in Hsize.
    assert (Hnext : passes c x = true → here up c w x k = [] →
      ∃ M'', expression_loop Expression IgnoreCase UpcaseTable c w E (2 * (k + 1)) M1 = Some M'' ∧ local 16 M'').
    { intros Hp Hnil. rewrite Hp, Hnil in Hsize. change (zlen []) with 0 in Hsize. by apply (IH' M1 13); [lia|..]. }
    assert (Htake : ∀ State, zlen (here up c w x k) = 1 → ∃ M'', add_match Expression State M1 = Some M'' ∧ local 16 M'').
    { intros State H1. apply Hadd. lia. }
    assert (Hstop : ∃ M'', Some M1 = Some M'' ∧ local 16 M'').
    { exists M1. split; [done|]. intros Ha. specialize (HL1 Ha). lia. }
    assert (Hone : passes c x = true → zlen (here up c w x k) = 1 → ∀ State, ∃ M'', 
      (M ← add_match Expression State M1; expression_loop Expression IgnoreCase UpcaseTable c w E (2 * (k + 1)) M) = Some M'' ∧ local 16 M'').
    { intros Hp H1 State. rewrite Hp in Hsize, Hrest. destruct (add_match_fits State 13 M1) as (M2 & -> & HD2 & HL2); [lia|done|done|].
      apply (IH' _ 14); [|done|done]. rewrite HD2, zlen_app. change (zlen [_]) with 1. lia. }
    assert (Htwo : passes c x = true → zlen (here up c w x k) = 2 → ∀ State State', ∃ M'', 
      (M ← add_match Expression State M1; M ← add_match Expression State' M;
       expression_loop Expression IgnoreCase UpcaseTable c w E (2 * (k + 1)) M) = Some M'' ∧ local 16 M'').
    { intros Hp H2 State State'. rewrite Hp in Hsize, Hrest. destruct (add_match_fits State 13 M1) as (M2 & -> & HD2 & HL2); [lia|done|done|].
      cbn [mbind option_bind]. assert (zlen (CurrentMatches M2) = zlen (CurrentMatches M1) + 1) by (by rewrite HD2, zlen_app).
      destruct (add_match_fits State' 14 M2) as (M3 & -> & HD3 & HL3); [lia|done|done|].
      apply (IH' _ 15); [|done|done]. rewrite HD3, zlen_app. change (zlen [_]) with 1. lia. }
    clear Hsize Hrest Hh Hadd IH' IH. unfold here, passes, takes in Hnext, Htake, Hone, Htwo.
    destruct (Z.eqb_spec x Star) as [->|HS]; [by apply Htwo|].
    destruct (Z.eqb_spec x DOS_STAR) as [->|HD].
    { destruct (NameFinished c || _ || _) in *; [by apply Htwo|by apply Hone]. }
    destruct (Z.eqb_spec x DOS_QM) as [->|HQ]; simpl.
    { destruct (NameFinished c || at_dot c) eqn:Hf in *; simpl in *; [by apply Hnext|].
      apply Htake. destruct c; [done|]. by apply orb_false_iff in Hf as [? _]. }
    destruct (Z.eqb_spec x DOS_DOT) as [->|HDD]; simpl in *.
    { destruct (NameFinished c) eqn:Hf in *; simpl in *; [by apply Hnext|].
      destruct c as [c|]; [|done]. destruct (at_dot (Some c)) in *; simpl in *; [by apply Htake|].
      by case_match; [apply Htake|]. }
    destruct c as [c|]; simpl in *; [|done].
    destruct (x =? QuestionMark) in *; simpl in *; [by apply Htake|].
    destruct (x =? up c) in *; [by apply Htake|done].
Qed.
End capacity.

Section plain.
Hypothesis Hplain : Forall plain Expression.

Lemma source_loop_fits c w fuel : ∀ B P M,
  room Expression B P (CurrentMatches M) → (length P ≤ fuel)%nat → local 16 M →
  ∃ M', source_loop Expression IgnoreCase UpcaseTable c w fuel P M = Some M' ∧ local 16 M'.
Proof using Hshort Hplain.
  induction fuel as [|fuel IH]; intros B P M HR Hf HL.
  { destruct P; [|simpl in Hf; lia]. by exists M. }
  destruct P as [|s rest]; [by exists M|]. destruct (room_step up Expression c w Hplain B s rest _ HR) as [B' HB'].
  pose proof (rm_entered _ _ _ _ HR) as [[Hs _] _]%Forall_cons_iff. destruct (expr_offset Expression Hshort s Hs) as [Hoff Hn].
  pose proof (room_size _ _ _ _ HB') as Hsize. rewrite length_app in Hsize. unfold zlen in *.
  cbn [source_loop]. cbv zeta.
  assert (∃ M1, (if u16 ((s + 1) / 2) =? 2 * zlen Expression then Some M
    else expression_loop Expression IgnoreCase UpcaseTable c w
      (drop (Z.to_nat (u16 ((s + 1) / 2) / 2)) Expression) (u16 ((s + 1) / 2)) M) = Some M1 ∧ local 16 M1) as (M1 & HM1 & HL1).
  { rewrite Hoff. unfold zlen. destruct (Z.eqb_spec (2 * Z.of_nat (off s)) (2 * Z.of_nat (length Expression))) as [Heq|Hne]; [by exists M|].
    rewrite (Z.mul_comm 2 (Z.of_nat (off s))), Z.div_mul, Nat2Z.id, Z.mul_comm by lia. unfold chain in Hsize. rewrite decide_True in Hsize by lia.
    apply (expression_loop_fits (2 * n + 1)); [lia|lia|unfold zlen; rewrite length_drop; lia|unfold zlen; unfold chain_from in Hsize; lia|].
    intros Hnil%(f_equal length). rewrite length_drop in Hnil. simpl in Hnil. lia. }
  rewrite HM1. cbn [mbind option_bind]. apply (source_chain Expression IgnoreCase UpcaseTable Hshort c w s M M1 Hs) in HM1.
  apply (IH B'); [|rewrite HM1, drop_app_length|done]; [by rewrite HM1, drop_app_length|].
  destruct (skip_matches_suffix (chain up Expression c w (off s)) rest) as [R HRest].
  apply (f_equal length) in HRest. rewrite length_app in HRest. simpl in Hf. lia.
Qed.

(** What the matches satisfy between two characters. *)
Record matches_fit (L : list Z) : Prop := {
  mf_ok : matches_ok Expression L;
  mf_spaced : spaced (twice Expression) L;
  mf_entered : Forall (entered Expression) L
}.

Lemma fit_room L : matches_fit L → room Expression 0 L [].
Proof.
  intros [Hok Hsp Hent]. split; [lia|done|done|apply Forall_true; intros; lia|..].
  - intros A x y B Heq. by destruct A.
  - intros l x y Heq. by destruct l.
  - by intros d ?%elem_of_nil.
  - simpl. case_decide; lia.
Qed.

Lemma step_fit c w L :
  matches_fit L → matches_fit (sources up Expression c w (length L) L []).
Proof using Hplain.
  intros HL. destruct (step_matches Expression IgnoreCase UpcaseTable c w L (mf_ok _ HL)) as [Hok Hiff].
  destruct (sources_room up Expression c w Hplain (length L) 0 L [] (fit_room L HL) ltac:(lia)) as [B HB].
  split; [done|by apply HB|]. apply Forall_forall. intros s (q & Hq & Hs)%Hiff.
  destruct (chain_cases _ _ _ _ _ _ Hs) as [Hlt Heq]. rewrite Heq in Hs.
  by apply (chain_from_entered up Expression c w Hplain (off q)); [lia|].
Qed.

Lemma name_loop_fits w : ∀ L Aux,
  matches_fit L → ∃ b, name_loop Expression IgnoreCase UpcaseTable w L Aux = Some b.
Proof using Hshort Hplain.
  induction w as [|c w IH]; intros L Aux HL.
  - cbn [name_loop]. case_match; [by exists true|].
    destruct (source_loop_fits None [] (length L) 0 L (mkMatches [] Aux)) as (M & -> & _);
      [by apply fit_room|lia|by intros _|]. by eexists.
  - cbn [name_loop]. destruct (source_loop_fits (Some c) w (length L) 0 L (mkMatches [] Aux)) as (M & HM & _);
      [by apply fit_room|lia|by intros _|]. rewrite HM. cbn [mbind option_bind]. case_match; [by exists false|]. apply IH.
    apply source_loop_sources in HM; [|done|apply Forall_forall; apply HL]. rewrite HM. by apply step_fit.
Qed.
End plain.
End arrays.
