(* ===== verification/NameOverflow.v ===== *)
(** * When the arrays of matches overflow

    For any wild cards: the matcher leaves its arrays exactly when the matches that it
    stores for one character of the name are more than an array holds. The number of
    matches is that of [stored], which goes over the name without arrays. *)

From stdpp Require Import base list list_tactics numbers option sorting.
From S2P Require Import Prelude Name NameWalk NameLang NameSpace NameFits.

Section overflow.
Context (Expression : list Z) (IgnoreCase : bool) (UpcaseTable : Z → Z).
Hypothesis Hshort : zlen Expression < 2 ^ 14.

Abbreviation up := (upcase IgnoreCase UpcaseTable).
Abbreviation n := (zlen Expression).

(** The matches that the matcher stores, for each character of the name and then for
    its end, from the previous matches [L] on. *)
Fixpoint stored (Name L : list Z) : list (list Z) :=
  match Name with
  | [] => if bool_decide (list.last L = Some (4 * n)) then []
          else [sources up Expression None [] (length L) L []]
  | c :: Name =>
      let D := sources up Expression (Some c) Name (length L) L [] in
      D :: (if bool_decide (D = []) then [] else stored Name D)
  end.

(** ** What stays inside of the arrays *)

Definition holds_matches (M : MATCHES) : Prop :=
  zlen (CurrentMatches M) ≤ array_size Expression M ∧ (AuxBuffer M = true → 7 ≤ n).

Lemma add_match_holds State M M' :
  add_match Expression State M = Some M' → holds_matches M → holds_matches M'.
Proof.
  unfold add_match, holds_matches. destruct (Z.ltb_spec (zlen (CurrentMatches M)) (array_size Expression M)) as [Hlt|];
    [|done]. intros [= <-] [_ Haux]. split; [|done]. simpl. rewrite zlen_app. change (zlen [State]) with 1.
  unfold array_size in *. simpl. lia.
Qed.

Lemma check_space_holds M M' :
  check_space Expression M = Some M' → holds_matches M → holds_matches M'.
Proof.
  unfold check_space, holds_matches, array_size, MATCHES_ARRAY_SIZE.
  destruct (AuxBuffer M) eqn:Haux; rewrite ?andb_false_r, ?andb_true_r.
  - intros [= <-]. by rewrite Haux.
  - destruct (_ <=? zlen _); [|intros [= <-]; by rewrite Haux].
    destruct (Z.leb_spec ((n + 1) * 2 + 16) ((n + 1) * 2 * 2)); [|done]. intros [= <-] [Hl _]. simpl. split; lia.
Qed.

(** The copy of the local arrays into the block. *)
Lemma check_space_none M :
  check_space Expression M = None ↔ 14 ≤ zlen (CurrentMatches M) ∧ AuxBuffer M = false ∧ n < 7.
Proof.
  unfold check_space, MATCHES_ARRAY_SIZE. destruct (Z.leb_spec (16 - 2) (zlen (CurrentMatches M))) as [|]; simpl.
  - destruct (AuxBuffer M); simpl; [split; [done|by intros (_ & ? & _)]|].
    destruct (Z.leb_spec ((n + 1) * 2 + 16) ((n + 1) * 2 * 2)); (split; [try done; lia|lia||done]).
  - split; [done|lia].
Qed.

Lemma expression_loop_holds c w E : ∀ ExprOffset M M',
  expression_loop Expression IgnoreCase UpcaseTable c w E ExprOffset M = Some M' →
  holds_matches M → holds_matches M'.
Proof.
  induction E as [|x E IH]; intros k M M'; cbn [expression_loop]; cbv zeta; [apply add_match_holds|].
  intros (M1 & HM1 & HM)%bind_Some Hh. pose proof (check_space_holds _ _ HM1 Hh) as Hh1. clear HM1 Hh.
  repeat case_match; simplify_eq; eauto using add_match_holds;
    repeat match goal with
    | H : (_ ≫= _) = Some _ |- _ => apply bind_Some in H as (? & ?%add_match_holds & H); [|done]
    end; eauto.
Qed.

Lemma source_loop_holds c w fuel : ∀ P M M',
  source_loop Expression IgnoreCase UpcaseTable c w fuel P M = Some M' →
  holds_matches M → holds_matches M'.
Proof.
  induction fuel as [|fuel IH]; intros P M M'; (destruct P as [|s P]; [by intros [= <-]|]); [done|].
  cbn [source_loop]. cbv zeta. intros (M1 & HM1 & HM)%bind_Some Hh. apply (IH _ _ _ HM). revert HM1.
  case_match; [by intros [= <-]|]. intros HM1. by apply (expression_loop_holds _ _ _ _ _ _ HM1).
Qed.

(** ** What fits *)

Lemma sources_length c w fuel : ∀ P D, zlen D ≤ zlen (sources up Expression c w fuel P D).
Proof.
  induction fuel as [|fuel IH]; intros P D; (destruct P as [|s P]; [done|]); [done|].
  cbn [sources]. cbv zeta. etrans; [|apply IH]. rewrite zlen_app. pose proof (zlen_nonneg (chain up Expression c w (off s))). lia.
Qed.

Lemma source_loop_room c w fuel : ∀ P M,
  7 ≤ n → Forall (valid Expression) P → (length P ≤ fuel)%nat → local 16 M →
  zlen (sources up Expression c w fuel P (CurrentMatches M)) ≤ 2 * n + 2 →
  ∃ M', source_loop Expression IgnoreCase UpcaseTable c w fuel P M = Some M' ∧ local 16 M'.
Proof using Hshort.
  induction fuel as [|fuel IH]; intros P M Hn HP Hf HL Hsize.
  { destruct P; [|simpl in Hf; lia]. by exists M. }
  destruct P as [|s rest]; [by exists M|]. apply Forall_cons_iff in HP as [Hs HP].
  destruct (expr_offset Expression Hshort s Hs) as [Hoff Hle]. cbn [source_loop sources] in *. cbv zeta in *.
  pose proof (sources_length c w fuel (skip_matches (chain up Expression c w (off s)) rest)
    (CurrentMatches M ++ chain up Expression c w (off s))) as Hlen.
  apply (λ H, Z.le_trans _ _ _ H Hsize) in Hlen. rewrite zlen_app in Hlen.
  assert (∃ M1, (if u16 ((s + 1) / 2) =? 2 * zlen Expression then Some M
    else expression_loop Expression IgnoreCase UpcaseTable c w
      (drop (Z.to_nat (u16 ((s + 1) / 2) / 2)) Expression) (u16 ((s + 1) / 2)) M) = Some M1 ∧ local 16 M1) as (M1 & HM1 & HL1).
  { rewrite Hoff. unfold zlen at 1. destruct (Z.eqb_spec (2 * Z.of_nat (off s)) (2 * Z.of_nat (length Expression))) as [Heq|Hne];
      [by exists M|].
    rewrite (Z.mul_comm 2 (Z.of_nat (off s))), Z.div_mul, Nat2Z.id, Z.mul_comm by lia.
    unfold chain in Hlen. rewrite decide_True in Hlen by lia.
    apply (expression_loop_fits Expression IgnoreCase UpcaseTable Hshort (2 * n + 2));
      [lia|lia|unfold zlen; rewrite length_drop; lia|unfold chain_from in Hlen; lia|].
    intros Hnil%(f_equal length). rewrite length_drop in Hnil. simpl in Hnil. lia. }
  rewrite HM1. cbn [mbind option_bind]. apply (source_chain Expression IgnoreCase UpcaseTable Hshort c w s M M1 Hs) in HM1.
  rewrite HM1, drop_app_length. apply IH; [done|by apply skip_matches_valid| |done|by rewrite HM1].
  destruct (skip_matches_suffix (chain up Expression c w (off s)) rest) as [R HRest].
  apply (f_equal length) in HRest. rewrite length_app in HRest. simpl in Hf. lia.
Qed.

(** One character: the loop over the previous matches ends, with the matches of
    [sources], or it leaves the array. *)
Lemma source_loop_cases c w P Aux :
  Forall (valid Expression) P → (Aux = true → 7 ≤ n) →
  let D := sources up Expression c w (length P) P [] in
  (zlen D ≤ 2 * n + 2 → 7 ≤ n → ∃ M, source_loop Expression IgnoreCase UpcaseTable c w (length P) P (mkMatches [] Aux) = Some M) ∧
  (∀ M, source_loop Expression IgnoreCase UpcaseTable c w (length P) P (mkMatches [] Aux) = Some M →
    CurrentMatches M = D ∧ (AuxBuffer M = true → 7 ≤ n) ∧ zlen D ≤ if decide (7 ≤ n) then 2 * n + 2 else 16).
Proof using Hshort.
  intros HP Haux D. split.
  - intros HD Hn. destruct (source_loop_room c w (length P) P (mkMatches [] Aux)) as (M & HM & _); try done.
    by exists M.
  - intros M HM. pose proof (source_loop_sources Expression IgnoreCase UpcaseTable Hshort c w _ _ _ _ HP HM) as HD.
    simpl in HD. fold D in HD. destruct (source_loop_holds _ _ _ _ _ _ HM) as [Hsize Ha].
    { split; [|done]. unfold array_size, MATCHES_ARRAY_SIZE. simpl. change (zlen []) with 0. unfold zlen. case_match; lia. }
    split; [done|]. split; [done|]. rewrite HD in Hsize. unfold array_size, MATCHES_ARRAY_SIZE in Hsize.
    destruct (AuxBuffer M); [specialize (Ha eq_refl)|]; case_decide; lia.
Qed.

(** ** The whole name *)

Lemma sources_valid c w L :
  matches_ok Expression L → matches_ok Expression (sources up Expression c w (length L) L []).
Proof. intros HL. by apply (step_matches Expression IgnoreCase UpcaseTable c w L). Qed.

(** With seven characters or more. *)
Lemma name_loop_overflow w : ∀ L Aux,
  7 ≤ n → matches_ok Expression L →
  name_loop Expression IgnoreCase UpcaseTable w L Aux = None ↔ Exists (λ D, 2 * (n + 1) < zlen D) (stored w L).
Proof using Hshort.
  induction w as [|c w IH]; intros L Aux Hn HL;
    assert (HP : Forall (valid Expression) L) by (apply Forall_forall; intros; by apply (mo_valid _ _ HL)).
  - cbn [name_loop stored]. rewrite max_state by done. case_bool_decide; [by rewrite Exists_nil|].
    rewrite Exists_cons, Exists_nil. destruct (source_loop_cases None [] L Aux HP (λ _, Hn)) as [Hsome Hcut].
    destruct (source_loop _ _ _ _ _ _ _ _) as [M|]; cbn [mbind option_bind].
    + destruct (Hcut M eq_refl) as (_ & _ & Hle). rewrite decide_True in Hle by done. split; [done|]. intros [?|[]]. lia.
    + split; [intros _; left|done].
      destruct (decide (2 * (n + 1) < zlen (sources up Expression None [] (length L) L []))) as [|Hge]; [done|].
      destruct Hsome as [M HM]; [lia|done|done].
  - cbn [name_loop stored]. cbv zeta. rewrite Exists_cons.
    destruct (source_loop_cases (Some c) w L Aux HP (λ _, Hn)) as [Hsome Hcut].
    destruct (source_loop _ _ _ _ _ _ _ _) as [M|]; cbn [mbind option_bind].
    + destruct (Hcut M eq_refl) as (HD & _ & Hle). rewrite decide_True in Hle by done. rewrite <- HD in *.
      case_bool_decide as Hnil; [rewrite Exists_nil; split; [done|intros [?|[]]; lia]|].
      rewrite (IH (CurrentMatches M)); [|done|rewrite HD; by apply sources_valid]. split; [auto|]. intros [?|?]; [lia|done].
    + split; [intros _; left|done].
      destruct (decide (2 * (n + 1) < zlen (sources up Expression (Some c) w (length L) L []))) as [|Hge]; [done|].
      destruct Hsome as [M HM]; [lia|done|done].
Qed.

(** With less than seven the local arrays are all there is. *)
Lemma name_loop_short w : ∀ L Aux,
  n < 7 → Aux = false → matches_ok Expression L → Exists (λ D, MATCHES_ARRAY_SIZE < zlen D) (stored w L) →
  name_loop Expression IgnoreCase UpcaseTable w L Aux = None.
Proof using Hshort.
  unfold MATCHES_ARRAY_SIZE. induction w as [|c w IH]; intros L Aux Hn -> HL;
    assert (HP : Forall (valid Expression) L) by (apply Forall_forall; intros; by apply (mo_valid _ _ HL)).
  - cbn [name_loop stored]. rewrite max_state by done. case_bool_decide; [by rewrite Exists_nil|].
    rewrite Exists_cons, Exists_nil. destruct (source_loop_cases None [] L false HP ltac:(done)) as [_ Hcut].
    destruct (source_loop _ _ _ _ _ _ _ _) as [M|]; cbn [mbind option_bind]; [|done].
    destruct (Hcut M eq_refl) as (_ & _ & Hle). rewrite decide_False in Hle by lia. intros [?|[]]. lia.
  - cbn [name_loop stored]. cbv zeta. rewrite Exists_cons.
    destruct (source_loop_cases (Some c) w L false HP ltac:(done)) as [_ Hcut].
    destruct (source_loop _ _ _ _ _ _ _ _) as [M|]; cbn [mbind option_bind]; [|done].
    destruct (Hcut M eq_refl) as (HD & Ha & Hle). rewrite decide_False in Hle by lia. rewrite <- HD in *.
    intros [?|Hex]; [lia|]. revert Hex. case_bool_decide; [by rewrite Exists_nil|]. apply IH; [done| |].
    + destruct (AuxBuffer M); [|done]. specialize (Ha eq_refl). lia.
    + rewrite HD. by apply sources_valid.
Qed.
End overflow.
