(* ===== verification/NameTheorems.v ===== *)
(** * Theorems on file names

    The matcher against the language of the expression, comparison and dissection. *)

From stdpp Require Import base list list_tactics numbers option sorting.
From S2P Require Import Prelude Name NameWalk NameLang NameSpace NameFits NameOverflow.

(** ** Expressions without wild cards *)

Lemma not_wild x :
  FsRtlIsUnicodeCharacterWild x = false →
  x ≠ Star ∧ x ≠ DOS_STAR ∧ x ≠ DOS_QM ∧ x ≠ QuestionMark ∧ x ≠ DOS_DOT.
Proof. intros Hx. repeat split; intros ->; vm_compute in Hx; done. Qed.

Section language.
Context (up : Z → Z).

(** Such an expression is a name. *)
Lemma in_literal E : ∀ w,
  FsRtlDoesNameContainWildCards E = false → in_expression up E w ↔ up <$> w = E.
Proof.
  induction E as [|x E IH]; intros w; simpl.
  - intros _. split; [intros H; by inversion H|]. destruct w; [|done]. constructor.
  - destruct (FsRtlIsUnicodeCharacterWild x) eqn:Hx; [done|]. intros HE.
    destruct (not_wild x Hx) as (H1 & H2 & H3 & H4 & H5).
    split.
    + intros H. inversion H; subst; try done. simpl. f_equal. by apply IH.
    + destruct w as [|c w]; [done|]. simpl. intros [= <- Hw]. apply in_character; try done. by apply IH.
Qed.

(** A star takes a prefix of the name. *)
Lemma in_star_prefix E w :
  in_expression up (Star :: E) w ↔ ∃ u v, w = u ++ v ∧ in_expression up E v.
Proof.
  split.
  - remember (Star :: E) as F eqn:HF. intros H. revert HF.
    induction H; intros HF; simplify_eq; try done; [by exists [], w|].
    destruct (IHin_expression eq_refl) as (u & v & -> & Hv). by exists (c :: u), v.
  - intros (u & v & -> & Hv). induction u as [|c u IH]; simpl; [by apply in_star_none|by apply in_star_one].
Qed.
End language.

Lemma match_end_ok IgnoreCase UpcaseTable E w :
  FsRtlDoesNameContainWildCards E = false →
  match_end IgnoreCase UpcaseTable E w = true ↔ in_expression (upcase IgnoreCase UpcaseTable) (Star :: E) w.
Proof.
  intros HE. rewrite in_star_prefix. unfold match_end, zlen.
  destruct (Z.ltb_spec (Z.of_nat (length w)) (Z.of_nat (length E))) as [Hlt|Hge].
  - split; [done|]. intros (u & v & -> & Hv). rewrite in_literal in Hv by done. subst E.
    rewrite length_app, length_fmap in Hlt. lia.
  - rewrite bool_decide_eq_true. split.
    + intros Heq. exists (take (length w - length E) w), (drop (length w - length E) w).
      split; [by rewrite take_drop|]. by apply in_literal.
    + intros (u & v & -> & Hv). rewrite in_literal in Hv by done. subst E.
      rewrite length_app, length_fmap, drop_app_length' by lia. done.
Qed.

(** ** The matcher *)

Lemma initial_fit Expression : matches_fit Expression [0].
Proof.
  assert (Hv : valid Expression 0) by (left; exists 0%nat; split; lia). split; [split; [split|..]|..].
  - intros l1 x y l2 v Heq. by destruct l1 as [|? [|? ?]].
  - intros x l v [= <- <-] ->%list_elem_of_singleton. lia.
  - intros x l v Heq ->%list_elem_of_singleton. destruct l as [|? [|? ?]]; simplify_eq/=. lia.
  - by intros q ->%list_elem_of_singleton.
  - intros q ->%list_elem_of_singleton Hn. change (off 0) with 0%nat in Hn. rewrite <- Hn. by left.
  - intros A x y B Heq. by destruct A as [|? [|? ?]].
  - constructor; [|done]. split; [done|]. intros k Hk. lia.
Qed.

Lemma private_ok Expression IgnoreCase UpcaseTable Name b :
  zlen Expression < 2 ^ 14 → Name ≠ [] →
  FsRtlIsNameInExpressionPrivate Expression IgnoreCase UpcaseTable Name = Some b →
  b = true ↔ in_expression (upcase IgnoreCase UpcaseTable) Expression Name.
Proof.
  intros Hshort Hname. unfold FsRtlIsNameInExpressionPrivate.
  destruct Expression as [|x E] eqn:HE; [destruct Name; [done|]; intros [= <-]; split; [done|]; intros H; by inversion H|].
  destruct Name as [|c w] eqn:Hw; [done|]. rewrite <- HE, <- Hw in *.
  destruct ((x =? Star) && bool_decide (E = [])) eqn:Hall.
  { apply andb_true_iff in Hall as [->%Z.eqb_eq ->%bool_decide_eq_true]. intros [= <-]. split; [|done]. intros _.
    rewrite HE, in_star_prefix. exists Name, []. split; [by rewrite app_nil_r|constructor]. }
  destruct ((x =? Star) && negb (FsRtlDoesNameContainWildCards E)) eqn:Hend.
  { apply andb_true_iff in Hend as [->%Z.eqb_eq Hno%negb_true_iff]. intros [= <-]. rewrite HE. by apply match_end_ok. }
  intros Hb. apply name_loop_ok in Hb; [|done|apply initial_fit]. rewrite Hb. unfold accept. rewrite Exists_cons, Exists_nil.
  unfold rest. change (off 0) with 0%nat. rewrite drop_0. tauto.
Qed.

Lemma private_defined Expression IgnoreCase UpcaseTable Name :
  zlen Expression < 2 ^ 14 → Forall plain Expression →
  ∃ b, FsRtlIsNameInExpressionPrivate Expression IgnoreCase UpcaseTable Name = Some b.
Proof.
  intros Hshort Hplain. unfold FsRtlIsNameInExpressionPrivate.
  destruct Expression as [|x E] eqn:HE; [destruct Name; by eexists|].
  destruct Name as [|c w]; [by eexists|]. rewrite <- HE in *.
  repeat (case_match; [by eexists|]). apply name_loop_fits; [done|done|apply initial_fit].
Qed.

(** The name that the matcher sees and the case map it applies to its characters. *)
Definition case_view (Upcase844 : Z → Z) (Name : list Z) (IgnoreCase : bool) (UpcaseTable : option (Z → Z)) :
    (Z → Z) * list Z :=
  match IgnoreCase, UpcaseTable with
  | true, Some table => (table, Name)
  | true, None => (id, NLS_UPCASE Upcase844 <$> Name)
  | false, _ => (id, Name)
  end.

Lemma wrapper_private Upcase844 Expression Name IgnoreCase UpcaseTable :
  ∃ ic table, upcase ic table = (case_view Upcase844 Name IgnoreCase UpcaseTable).1 ∧
    FsRtlIsNameInExpression Upcase844 true Expression Name IgnoreCase UpcaseTable =
      inr <$> FsRtlIsNameInExpressionPrivate Expression ic table (case_view Upcase844 Name IgnoreCase UpcaseTable).2.
Proof.
  unfold FsRtlIsNameInExpression, case_view. destruct IgnoreCase, UpcaseTable as [table|]; simpl.
  - by exists true, table.
  - by exists false, id.
  - by exists false, table.
  - by exists false, id.
Qed.

(** C26: For a name that is not empty and an expression of less than 2^14 characters, the answer of
    FsRtlIsNameInExpression is whether the name is in the language of the expression, for all wild
    cards, unless a write leaves the arrays of matches; with no DOS wild card in the expression
    none does, and there is an answer for every name. *)
Theorem name_in_expression_correct Upcase844 Expression Name IgnoreCase UpcaseTable :
  zlen Expression < 2 ^ 14 → Name ≠ [] →
  let view := case_view Upcase844 Name IgnoreCase UpcaseTable in
  let answer := FsRtlIsNameInExpression Upcase844 true Expression Name IgnoreCase UpcaseTable in
  (∀ reply, answer = Some reply →
    ∃ b, reply = inr b ∧ (b = true ↔ in_expression view.1 Expression view.2)) ∧
  (Forall plain Expression → is_Some answer).
Proof.
  intros Hshort Hname view answer.
  destruct (wrapper_private Upcase844 Expression Name IgnoreCase UpcaseTable) as (ic & table & Hup & Heq).
  fold view answer in Hup, Heq. rewrite Heq, <- Hup. split.
  - intros reply (b & Hb & ->)%fmap_Some. exists b. split; [done|]. apply private_ok; [done| |done].
    unfold view, case_view. destruct IgnoreCase, UpcaseTable; simpl; [done| |done|done]. by destruct Name.
  - intros Hplain. destruct (private_defined Expression ic table view.2 Hshort Hplain) as [b ->]. by eexists.
Qed.

(** "*a*b" and a name that ends with b. *)
Lemma name_in_expression_correct_witness :
  (∀ reply, FsRtlIsNameInExpression (λ _, 0) true [Star; 0x41; Star; 0x42] [0x63; 0x61; 0x62] true None = Some reply →
    ∃ b, reply = inr b ∧ (b = true ↔ in_expression id [Star; 0x41; Star; 0x42] [0x43; 0x41; 0x42])) ∧
  FsRtlIsNameInExpression (λ _, 0) true [Star; 0x41; Star; 0x42] [0x63; 0x61; 0x62] true None = Some (inr true) ∧
  is_Some (FsRtlIsNameInExpression (λ _, 0) true [Star; 0x41; Star; 0x42] [0x63; 0x61; 0x62] true None).
Proof.
  pose proof (name_in_expression_correct (λ _, 0) [Star; 0x41; Star; 0x42] [0x63; 0x61; 0x62] true None) as H.
  destruct H as [H1 H2]; [by vm_compute|done|]. split; [exact H1|]. split; [by vm_compute|].
  apply H2. repeat constructor; by vm_compute.
Defined.

(** C27: When the matcher writes outside its arrays. For an expression of 7 to 2^14 - 1 characters,
    any wild cards and any name, it does so exactly when for one character of the name (or its end)
    it stores more than the 2 (n + 1) matches that one half of the pool block holds; the matches it
    stores are counted by going over the name without arrays. For an expression of less than 7
    characters the pool block is too small for the 16 local entries that are copied behind its first
    half, so the copy at 14 matches leaves the block, and a name for which it stores more than
    16 matches has no answer. Both happen: 30 DOS stars and ".B.AA" give 100 matches, where one half
    holds 62, and "**>*>*" and ".a.a.a" give 17. *)
Theorem dos_wild_cards_overflow :
  (∀ Expression IgnoreCase UpcaseTable Name,
    let n := zlen Expression in
    let overflow := name_loop Expression IgnoreCase UpcaseTable Name [0] false = None in
    let counts := (λ D, zlen D) <$> stored Expression IgnoreCase UpcaseTable Name [0] in
    n < 2 ^ 14 →
    (7 ≤ n → overflow ↔ Exists (λ k, 2 * (n + 1) < k) counts) ∧
    (n < 7 →
      (∀ M, check_space Expression M = None ↔ 14 ≤ zlen (CurrentMatches M) ∧ AuxBuffer M = false) ∧
      (Exists (λ k, MATCHES_ARRAY_SIZE < k) counts → overflow))) ∧
  (let E := replicate 30 DOS_STAR in let Name := [Dot; 0x42; Dot; 0x41; 0x41] in
   ((λ D, zlen D) <$> stored E false id Name [0]) = [61; 61; 56; 100; 100] ∧
   ∀ Upcase844, FsRtlIsNameInExpression Upcase844 true E Name false None = None) ∧
  (let E := [Star; Star; DOS_QM; Star; DOS_QM; Star] in let Name := [Dot; 0x41; Dot; 0x41; Dot; 0x41] in
   ((λ D, zlen D) <$> stored E false id Name [0]) = [9; 11; 12; 14; 15; 17] ∧
   ∀ Upcase844, FsRtlIsNameInExpression Upcase844 true E Name false None = None).
Proof.
  split; [|split; (split; [|intros U]); vm_compute; reflexivity].
  intros E ic table Name n overflow counts Hn. unfold counts, overflow. pose proof (mf_ok _ _ (initial_fit E)) as H0.
  split; intros H7.
  - rewrite Exists_fmap. by apply name_loop_overflow.
  - split; [intros M; rewrite check_space_none; tauto|]. rewrite Exists_fmap. by apply name_loop_short.
Qed.

(** Ten DOS stars store 26 matches where one half of the block holds 22. *)
Lemma dos_wild_cards_overflow_witness :
  name_loop (replicate 10 DOS_STAR) false id [Dot; 0x42; Dot; 0x41; 0x41] [0] false = None.
Proof.
  destruct dos_wild_cards_overflow as [H _].
  destruct (H (replicate 10 DOS_STAR) false id [Dot; 0x42; Dot; 0x41; 0x41]) as [H1 _]; [by vm_compute|].
  apply H1; [by vm_compute|]. apply Exists_exists. exists 26. split; [|by vm_compute].
  assert ((26 ∈ [21; 21; 18; 26; 26])) as Hin by (do 3 right; left). exact Hin.
Defined.

(** ** Comparison *)

(** The case map of a comparison. *)
Definition case_map (Upcase844 : Z → Z) (IgnoreCase : bool) (UpcaseTable : option (Z → Z)) : Z → Z :=
  if IgnoreCase then default (NLS_UPCASE Upcase844) UpcaseTable else id.

(** FsRtlAreNamesEqual with memory tells whether the names are equal character by character
    under the case map: none, the table of the caller, or the map of the system. Without memory a
    comparison that upcases both names raises STATUS_NO_MEMORY, but only for names of one length. *)
Theorem names_equal_correct Upcase844 A B IgnoreCase UpcaseTable :
  let up := case_map Upcase844 IgnoreCase UpcaseTable in
  FsRtlAreNamesEqual Upcase844 true true A B IgnoreCase UpcaseTable = inr (bool_decide (up <$> A = up <$> B)) ∧
  ∀ allocated1 allocated2, allocated1 && allocated2 = false →
    FsRtlAreNamesEqual Upcase844 allocated1 allocated2 A B IgnoreCase UpcaseTable =
      if IgnoreCase && bool_decide (UpcaseTable = None) && bool_decide (length A = length B)
      then inl STATUS_NO_MEMORY
      else FsRtlAreNamesEqual Upcase844 true true A B IgnoreCase UpcaseTable.
Proof.
  intros up. unfold FsRtlAreNamesEqual, zlen.
  destruct (Z.eqb_spec (Z.of_nat (length A)) (Z.of_nat (length B))) as [Hlen|Hlen]; simpl.
  - split.
    + unfold up, case_map. destruct IgnoreCase, UpcaseTable as [table|]; simpl; [done|done|..];
        f_equal; by rewrite !list_fmap_id.
    + intros a1 a2 Ha. rewrite (bool_decide_eq_true_2 (length A = length B)) by lia.
      destruct IgnoreCase, UpcaseTable as [table|]; simpl; [done| |done|done]. by destruct a1, a2.
  - assert (up <$> A ≠ up <$> B) by (intros H%(f_equal length); rewrite !length_fmap in H; lia).
    rewrite bool_decide_eq_false_2 by done. split; [done|]. intros a1 a2 _.
    rewrite (bool_decide_eq_false_2 (length A = length B)) by lia. by rewrite andb_false_r.
Qed.

(** "ab" and "AB" without memory. *)
Lemma names_equal_correct_witness :
  FsRtlAreNamesEqual (λ _, 0) true false [0x61; 0x62] [0x41; 0x42] true None = inl STATUS_NO_MEMORY ∧
  FsRtlAreNamesEqual (λ _, 0) true true [0x61; 0x62] [0x41; 0x42] true None = inr true.
Proof.
  destruct (names_equal_correct (λ _, 0) [0x61; 0x62] [0x41; 0x42] true None) as [H1 H2].
  split; [rewrite (H2 true false) by reflexivity; reflexivity|rewrite H1; reflexivity].
Defined.

(** ** Dissection *)

Lemma first_name_parts Path :
  let '(FirstName, rest) := first_name Path in
  Path = FirstName ++ rest ∧ (Backslash ∉ FirstName) ∧ (rest = [] ∨ ∃ r, rest = Backslash :: r).
Proof.
  induction Path as [|c Path IH]; simpl; [repeat split; [apply not_elem_of_nil|by left]|].
  destruct (Z.eqb_spec c Backslash) as [->|Hne]; [repeat split; [apply not_elem_of_nil|right; by eexists]|].
  destruct (first_name Path) as [f r]. destruct IH as (-> & Hf & Hr). repeat split; [|done].
  by apply not_elem_of_cons.
Qed.

Lemma first_name_app name r :
  Backslash ∉ name → r = [] ∨ (∃ r', r = Backslash :: r') → first_name (name ++ r) = (name, r).
Proof.
  induction name as [|c name IH]; simpl; intros Hn Hr.
  - by destruct Hr as [->|[r' ->]].
  - apply not_elem_of_cons in Hn as [Hc Hn]. rewrite (proj2 (Z.eqb_neq c Backslash)) by congruence. by rewrite IH.
Qed.

(** All names of a path, one after the other. *)
Fixpoint dissect (fuel : nat) (Path : list Z) : list (list Z) :=
  match fuel, Path with
  | _, [] | O, _ => []
  | S fuel, _ => let '(FirstName, RemainingName) := FsRtlDissectName Path in FirstName :: dissect fuel RemainingName
  end.

(** The path of names, each after a backslash. *)
Definition rooted (names : list (list Z)) : list Z := names ≫= (λ name, Backslash :: name).

Definition file_name (name : list Z) : Prop := name ≠ [] ∧ Backslash ∉ name.

Lemma dissect_rooted names : ∀ fuel,
  Forall file_name names → (length names ≤ fuel)%nat →
  dissect fuel (rooted names) = names ∧ dissect fuel (tail (rooted names)) = names.
Proof.
  induction names as [|name names IH]; intros fuel Hn Hf; [by destruct fuel|].
  apply Forall_cons_iff in Hn as [[Hne Hb] Hn]. destruct fuel as [|fuel]; [simpl in Hf; lia|].
  destruct (IH fuel Hn) as [_ IH']; [simpl in Hf; lia|].
  assert (Hr : rooted names = [] ∨ ∃ r, rooted names = Backslash :: r)
    by (destruct names; [by left|right; by eexists]).
  assert (Hstep : (let '(f, rest) := first_name (name ++ rooted names) in
    f :: dissect fuel match rest with [] => [] | _ :: r => r end) = name :: names).
  { rewrite first_name_app by done. f_equal. by destruct (rooted names). }
  destruct name as [|c name]; [done|]. apply not_elem_of_cons in Hb as [Hc _].
  change (rooted ((c :: name) :: names)) with (Backslash :: c :: name ++ rooted names).
  cbn [dissect tail]. unfold FsRtlDissectName. change (Backslash =? Backslash) with true.
  rewrite (proj2 (Z.eqb_neq c Backslash)) by congruence. cbv iota.
  change (c :: name ++ rooted names) with ((c :: name) ++ rooted names).
  destruct (first_name ((c :: name) ++ rooted names)) as [f r]. by split.
Qed.

(** C28: FsRtlDissectName splits any path at its first backslash after an optional leading one, and
    the rest of a path that is not empty is shorter than the path; calling it again on the rest gives
    back the names that a path was put together from, with or without a leading backslash. *)
Theorem dissect_name_roundtrip :
  (∀ Path FirstName RemainingName, FsRtlDissectName Path = (FirstName, RemainingName) →
    (Backslash ∉ FirstName) ∧ (Path ≠ [] → (length RemainingName < length Path)%nat) ∧
    ∃ lead trail, Path = lead ++ FirstName ++ trail ∧
      lead = (if bool_decide (head Path = Some Backslash) then [Backslash] else []) ∧
      (trail = [] ∧ RemainingName = [] ∨ trail = Backslash :: RemainingName)) ∧
  (∀ names, Forall file_name names →
    dissect (length names) (rooted names) = names ∧ dissect (length names) (tail (rooted names)) = names).
Proof.
  split; [|by intros names Hn; apply dissect_rooted].
  intros Path f r. unfold FsRtlDissectName. destruct Path as [|c Path].
  - intros [= <- <-]. split; [apply not_elem_of_nil|]. split; [done|]. exists [], []. auto.
  - pose proof (first_name_parts (if c =? Backslash then Path else c :: Path)) as Hp.
    destruct (first_name _) as [f' rest]. destruct Hp as (Heq & Hf & Hr). intros [= -> <-]. split; [done|].
    set (lead := if c =? Backslash then [Backslash] else []).
    assert (Hpath : c :: Path = lead ++ f ++ rest).
    { unfold lead. destruct (Z.eqb_spec c Backslash) as [->|]; [by rewrite <- Heq|done]. }
    split.
    + intros _. apply (f_equal length) in Hpath. rewrite !length_app in Hpath. simpl in *.
      destruct rest; simpl in *; lia.
    + exists lead, rest. split; [done|]. split.
      * unfold lead. simpl. destruct (Z.eqb_spec c Backslash) as [->|]; [done|]. by rewrite bool_decide_eq_false_2 by congruence.
      * destruct Hr as [->|[r' ->]]; auto.
Qed.

(** The path \ab\c. *)
Lemma dissect_name_roundtrip_witness :
  dissect 2 [Backslash; 0x61; 0x62; Backslash; 0x63] = [[0x61; 0x62]; [0x63]] ∧
  FsRtlDissectName [Backslash; 0x61; 0x62; Backslash; 0x63] = ([0x61; 0x62], [0x63]) ∧ Backslash ∉ [0x61; 0x62].
Proof.
  destruct dissect_name_roundtrip as [H1 H2]. split_and!.
  - destruct (H2 [[0x61; 0x62]; [0x63]]) as [H _]; [|exact H].
    repeat constructor; try discriminate; rewrite !elem_of_cons, elem_of_nil; unfold Backslash; lia.
  - reflexivity.
  - by destruct (H1 [Backslash; 0x61; 0x62; Backslash; 0x63] [0x61; 0x62] [0x63] eq_refl) as [H _].
Defined.
