(* ===== verification/Mcb.v ===== *)
(** * Mapping control blocks ([FSRTL/LARGEMCB.C])

    An MCB maps the virtual block numbers of a file to logical block numbers of the
    disk. Its runs are kept in an array of pairs: where the next run begins, and the
    logical block of the first sector, or [UNUSED_LBN] for a hole. The operations are
    written in a monad over the block: an access outside the array is [Wild], a failed
    allocation raises a status and leaves the block as it is then. *)

From stdpp Require Import base list numbers option.
From S2P Require Import Prelude.

Definition UNUSED_LBN : Z := 0xffffffff.
Definition INITIAL_MAXIMUM_PAIR_COUNT : Z := 15.

Record MAPPING := mkMapping { NextVbn : Z; Lbn : Z }.

(** The array is [Mapping]; the pairs from 0 to [PairCount] - 1 are valid. *)
Record NONOPAQUE_MCB := mkMcb { MaximumPairCount : Z; PairCount : Z; Mapping : list MAPPING }.

#[export] Instance MAPPING_eta : Eta MAPPING := λ r, mkMapping (NextVbn r) (Lbn r).
#[export] Instance NONOPAQUE_MCB_eta : Eta NONOPAQUE_MCB :=
  λ M, mkMcb (MaximumPairCount M) (PairCount M) (Mapping M).

(** ** The monad *)

Inductive result (A : Type) :=
  | Wild
  | Raise (M : NONOPAQUE_MCB)
  | Ret (M : NONOPAQUE_MCB) (a : A).
Arguments Wild {A}.
Arguments Raise {A} M.
Arguments Ret {A} M a.

Definition mcb (A : Type) : Type := NONOPAQUE_MCB → result A.

Definition ret {A} (a : A) : mcb A := λ M, Ret M a.
Definition bind {A B} (m : mcb A) (k : A → mcb B) : mcb B := λ M,
  match m M with Wild => Wild | Raise M => Raise M | Ret M a => k a M end.

Notation "'let*' p ':=' m 'in' k" := (bind m (λ p, k))
  (at level 10, p as pattern, k at level 200) : nt_scope.
Notation "m ;; k" := (bind m (λ _, k)) (at level 100, k at level 200, right associativity) : nt_scope.

Definition wild {A} : mcb A := λ _, Wild.
Definition get_PairCount : mcb Z := λ M, Ret M (PairCount M).
Definition set_PairCount (n : Z) : mcb unit := λ M, Ret (M <| PairCount := n |>) tt.

(** [(Mcb->Mapping)[i]] *)
Definition entry (i : Z) : mcb MAPPING := λ M,
  match array_get (Mapping M) i with Some r => Ret M r | None => Wild end.

Definition update (i : Z) (f : MAPPING → MAPPING) : mcb unit := λ M,
  match array_get (Mapping M) i with
  | Some r => Ret (M <| Mapping := <[Z.to_nat i := f r]> (Mapping M) |>) tt
  | None => Wild
  end.

Definition set_NextVbn (i v : Z) : mcb unit := update i (λ r, r <| NextVbn := v |>).
Definition set_Lbn (i l : Z) : mcb unit := update i (λ r, r <| Lbn := l |>).

(** Conditions that C evaluates from left to right. *)
Definition andM (a b : mcb bool) : mcb bool := let* x := a in if x then b else ret false.
Definition orM (a b : mcb bool) : mcb bool := let* x := a in if x then ret true else b.

(** ** The parts of a run *)

Definition StartingVbn (i : Z) : mcb Z := if i =? 0 then ret 0 else let* r := entry (i -u 1) in ret (NextVbn r).
Definition EndingVbn (i : Z) : mcb Z := let* r := entry i in ret (NextVbn r -u 1).
Definition PreviousEndingVbn (i : Z) : mcb Z := if i =? 0 then ret 0xffffffff else EndingVbn (i -u 1).
Definition NextStartingVbn (i : Z) : mcb Z :=
  let* n := get_PairCount in if n <=? i then ret 0 else StartingVbn (i +u 1).

Definition StartingLbn (i : Z) : mcb Z := let* r := entry i in ret (Lbn r).
Definition EndingLbn (i : Z) : mcb Z :=
  let* l := StartingLbn i in
  if l =? UNUSED_LBN then ret UNUSED_LBN
  else let* r := entry i in let* s := StartingVbn i in ret (Lbn r + NextVbn r - s -u 1).
Definition PreviousEndingLbn (i : Z) : mcb Z := if i =? 0 then ret UNUSED_LBN else EndingLbn (i -u 1).
Definition NextStartingLbn (i : Z) : mcb Z :=
  let* n := get_PairCount in if (n -u 1) <=? i then ret UNUSED_LBN else StartingLbn (i +u 1).

Definition SectorsWithinRun (i : Z) : mcb Z := let* e := EndingVbn i in let* s := StartingVbn i in ret (e - s +u 1).

(** ** Search *)

(** The binary search; both bounds are [LONG]s. *)
Fixpoint find_loop (fuel : nat) (Vbn MinIndex MaxIndex : Z) : mcb (option Z) :=
  if MinIndex <=? MaxIndex then
    match fuel with
    | O => wild
    | S fuel =>
        let MidIndex := Z.quot (s32 (MaxIndex + MinIndex)) 2 in
        let* s := StartingVbn MidIndex in
        if Vbn <? s then find_loop fuel Vbn MinIndex (s32 (MidIndex - 1))
        else
          let* e := EndingVbn MidIndex in
          if e <? Vbn then find_loop fuel Vbn (s32 (MidIndex + 1)) MaxIndex
          else ret (Some MidIndex)
    end
  else ret None.

(** Whether a run has the block, and its index or [PairCount]. *)
Definition FsRtlFindLargeIndex (Vbn : Z) : mcb (bool * Z) :=
  let* n := get_PairCount in
  let* found := find_loop (S (Z.to_nat n)) Vbn 0 (s32 (n - 1)) in
  ret (match found with Some Index => (true, Index) | None => (false, n) end).

(** ** Space *)

Section pool.
(** What an allocation of a number of bytes finds in the new block, or none when it
    fails. A block never has half of the address space. *)
Context (pool : NONOPAQUE_MCB → Z → option (Z → MAPPING)).

Definition FsRtlAllocatePool (bytes : Z) : mcb (list MAPPING) := λ M,
  match pool M bytes with
  | Some contents => if bytes <? 2 ^ 31 then Ret M (contents <$> seqZ 0 (bytes / 8)) else Raise M
  | None => Raise M
  end.

(** [RtlCopyMemory] of the first [n] pairs of the old array. *)
Definition copy_pairs (n : Z) (New : list MAPPING) : mcb (list MAPPING) := λ M,
  if (n <=? zlen New) && (n <=? zlen (Mapping M))
  then Ret M (take (Z.to_nat n) (Mapping M) ++ drop (Z.to_nat n) New) else Wild.

Definition set_Mapping (New : list MAPPING) (NewMax : Z) : mcb unit := λ M,
  Ret (M <| Mapping := New |> <| MaximumPairCount := NewMax |>) tt.

(** [RtlMoveMemory] of [n] pairs inside the array. *)
Definition move_pairs (to from n : Z) : mcb unit := λ M,
  let t := Z.to_nat to in let f := Z.to_nat from in let m := Z.to_nat n in
  if (0 <=? to) && (0 <=? from) && (to + n <=? zlen (Mapping M)) && (from + n <=? zlen (Mapping M))
  then Ret (M <| Mapping := take t (Mapping M) ++ take m (drop f (Mapping M)) ++ drop (t + m) (Mapping M) |>) tt
  else Wild.

Definition get_MaximumPairCount : mcb Z := λ M, Ret M (MaximumPairCount M).

Definition FsRtlAddLargeEntry (WhereToAddIndex AmountToAdd : Z) : mcb unit :=
  let* n := get_PairCount in let* Max := get_MaximumPairCount in
  (if Max <? n +u AmountToAdd then
         let NewMax := if Max <? 2048 then Max *u 2 else Max +u 2048 in
         let* New := FsRtlAllocatePool (8 *u NewMax) in
         let* New := copy_pairs n New in
         set_Mapping New NewMax
       else ret tt);;
  (if WhereToAddIndex <? n
       then move_pairs (WhereToAddIndex +u AmountToAdd) WhereToAddIndex (n -u WhereToAddIndex)
       else ret tt);;
  set_PairCount (n +u AmountToAdd).

Definition FsRtlRemoveLargeEntry (WhereToRemoveIndex AmountToRemove : Z) : mcb unit :=
  let* n := get_PairCount in
  let from := WhereToRemoveIndex +u AmountToRemove in
  let* _ := (if from <? n then move_pairs WhereToRemoveIndex from (n -u from) else ret tt) in
  set_PairCount (n -u AmountToRemove).

(** ** Adding a run *)

(** After the last run. *)
Definition add_at_end (Index Vbn Lbn SectorCount : Z) : mcb bool :=
  let* grow := andM (ret (negb (Index =? 0)))
    (andM (let* e := PreviousEndingVbn Index in ret (e +u 1 =? Vbn))
          (let* l := PreviousEndingLbn Index in ret (l +u 1 =? Lbn))) in
  if grow then
    let* n := get_PairCount in
    let* r := entry (n -u 1) in
    set_NextVbn (n -u 1) (NextVbn r +u SectorCount);;
    ret true
  else
    let* next := orM (ret (Vbn =? 0)) (let* e := PreviousEndingVbn Index in ret (e +u 1 =? Vbn)) in
    if next then
      FsRtlAddLargeEntry Index 1;;
      set_Lbn Index Lbn;; set_NextVbn Index (Vbn +u SectorCount);;
      ret true
    else
      FsRtlAddLargeEntry Index 2;;
      set_Lbn Index UNUSED_LBN;; set_NextVbn Index Vbn;;
      set_Lbn (Index +u 1) Lbn;; set_NextVbn (Index +u 1) (Vbn +u SectorCount);;
      ret true.

(** Into the hole at [Index], from [StartVbn] to [EndVbn], that has room for it. *)
Definition fill_hole (Index StartVbn EndVbn Vbn Lbn SectorCount : Z) : mcb bool :=
  let LastVbn := Vbn + SectorCount -u 1 in
  if (StartVbn <? Vbn) && (LastVbn <? EndVbn) then
    FsRtlAddLargeEntry Index 2;;
    set_Lbn Index UNUSED_LBN;; set_NextVbn Index Vbn;;
    set_Lbn (Index +u 1) Lbn;; set_NextVbn (Index +u 1) (Vbn +u SectorCount);;
    ret true
  else if (StartVbn =? Vbn) && (LastVbn <? EndVbn) then
    let* l := PreviousEndingLbn Index in
    if l +u 1 =? Lbn then
      let* r := entry (Index -u 1) in
      set_NextVbn (Index -u 1) (NextVbn r +u SectorCount);;
      ret true
    else
      FsRtlAddLargeEntry Index 1;;
      set_Lbn Index Lbn;; set_NextVbn Index (Vbn +u SectorCount);;
      ret true
  else if (StartVbn <? Vbn) && (LastVbn =? EndVbn) then
    let* l := NextStartingLbn Index in
    if l =? Lbn +u SectorCount then
      set_NextVbn Index Vbn;; set_Lbn (Index +u 1) Lbn;;
      ret true
    else
      FsRtlAddLargeEntry Index 1;;
      set_Lbn Index UNUSED_LBN;; set_NextVbn Index Vbn;;
      set_Lbn (Index +u 1) Lbn;;
      ret true
  else
    let* p := PreviousEndingLbn Index in
    let* l := NextStartingLbn Index in
    if (p +u 1 =? Lbn) && (l =? Lbn +u SectorCount) then
      let* r := entry (Index +u 1) in
      set_NextVbn (Index -u 1) (NextVbn r);;
      FsRtlRemoveLargeEntry Index 2;;
      ret true
    else if l =? Lbn +u SectorCount then
      set_Lbn (Index +u 1) Lbn;;
      FsRtlRemoveLargeEntry Index 1;;
      ret true
    else if p +u 1 =? Lbn then
      let* r := entry Index in
      set_NextVbn (Index -u 1) (NextVbn r);;
      FsRtlRemoveLargeEntry Index 1;;
      ret true
    else
      set_Lbn Index Lbn;;
      ret true.

(** After a new run has been trimmed to the hole or the end it begins in. *)
Definition add_run (Vbn Lbn SectorCount : Z) : mcb bool :=
  let* n := get_PairCount in
  let* at_end := orM (ret (n =? 0)) (let* e := PreviousEndingVbn n in ret (e +u 1 <=? Vbn)) in
  if at_end then add_at_end n Vbn Lbn SectorCount
  else
    let* (found, Index) := FsRtlFindLargeIndex Vbn in
    if negb found then add_at_end Index Vbn Lbn SectorCount
    else
      let* l := StartingLbn Index in
      let* StartVbn := StartingVbn Index in
      let* EndVbn := EndingVbn Index in
      if (l =? UNUSED_LBN) && (StartVbn <=? Vbn) && (Vbn + SectorCount -u 1 <=? EndVbn)
      then fill_hole Index StartVbn EndVbn Vbn Lbn SectorCount
      else ret false.

Definition FsRtlAddLargeMcbEntry (LargeVbn LargeLbn LargeSectorCount : Z) : mcb bool :=
  let Vbn := u32 LargeVbn in let Lbn := u32 LargeLbn in let SectorCount := u32 LargeSectorCount in
  let* (found, Index) := FsRtlFindLargeIndex Vbn in
  if found then
    let EndVbn := Vbn + SectorCount -u 1 in
    let* l := StartingLbn Index in
    if negb (l =? UNUSED_LBN) then
      let* e := EndingVbn Index in
      if EndVbn <=? e then ret true
      else
        let* Vbn := NextStartingVbn Index in
        let* l := EndingLbn Index in
        add_run Vbn (l +u 1) (EndVbn - Vbn +u 1)
    else
      let* (found, EndIndex) := FsRtlFindLargeIndex EndVbn in
      if found && (Index =? EndIndex -u 1) then
        let* s := StartingVbn EndIndex in
        add_run Vbn Lbn (s -u Vbn)
      else add_run Vbn Lbn SectorCount
  else add_run Vbn Lbn SectorCount.

(** ** Removing runs *)

(** The whole run at [Index]. *)
Definition remove_entire (Index : Z) : mcb unit :=
  let* l := StartingLbn Index in
  if l =? UNUSED_LBN then ret tt
  else
    let* n := get_PairCount in
    let* p := PreviousEndingLbn Index in
    if Index =? n -u 1 then
      if negb (p =? UNUSED_LBN) || (Index =? 0) then FsRtlRemoveLargeEntry Index 1
      else FsRtlRemoveLargeEntry (Index -u 1) 2
    else
      let* f := NextStartingLbn Index in
      if (negb (p =? UNUSED_LBN) || (Index =? 0)) && negb (f =? UNUSED_LBN) then set_Lbn Index UNUSED_LBN
      else if (negb (p =? UNUSED_LBN) || (Index =? 0)) && (f =? UNUSED_LBN) then FsRtlRemoveLargeEntry Index 1
      else if (p =? UNUSED_LBN) && negb (f =? UNUSED_LBN) then
        set_Lbn Index UNUSED_LBN;; FsRtlRemoveLargeEntry (Index -u 1) 1
      else FsRtlRemoveLargeEntry (Index -u 1) 2.

(** The first [SectorCount] sectors of the run. *)
Definition remove_first (Index Vbn SectorCount : Z) : mcb unit :=
  let* l := StartingLbn Index in
  if l =? UNUSED_LBN then ret tt
  else
    let* p := PreviousEndingLbn Index in
    if negb (p =? UNUSED_LBN) || (Index =? 0) then
      FsRtlAddLargeEntry Index 1;;
      set_Lbn Index UNUSED_LBN;; set_NextVbn Index (Vbn +u SectorCount);;
      let* r := entry (Index +u 1) in
      set_Lbn (Index +u 1) (Lbn r +u SectorCount)
    else
      let* h := entry (Index -u 1) in
      set_NextVbn (Index -u 1) (NextVbn h +u SectorCount);;
      let* r := entry Index in
      set_Lbn Index (Lbn r +u SectorCount).

(** The last [AmountToRemove] sectors of the run. *)
Definition remove_last (Index AmountToRemove : Z) : mcb unit :=
  let* l := StartingLbn Index in
  if l =? UNUSED_LBN then ret tt
  else
    let* n := get_PairCount in
    let* last := orM (ret (Index =? n -u 1)) (let* f := NextStartingLbn Index in ret (f =? UNUSED_LBN)) in
    if last then
      let* r := entry Index in set_NextVbn Index (NextVbn r -u AmountToRemove)
    else
      FsRtlAddLargeEntry (Index +u 1) 1;;
      set_Lbn (Index +u 1) UNUSED_LBN;;
      let* r := entry Index in
      set_NextVbn (Index +u 1) (NextVbn r);;
      set_NextVbn Index (NextVbn r -u AmountToRemove).

(** Sectors inside the run. *)
Definition remove_middle (Index Vbn SectorCount : Z) : mcb unit :=
  let* l := StartingLbn Index in
  if l =? UNUSED_LBN then ret tt
  else
    FsRtlAddLargeEntry Index 2;;
    let* r := entry (Index +u 2) in
    set_Lbn Index (Lbn r);; set_NextVbn Index Vbn;;
    set_Lbn (Index +u 1) UNUSED_LBN;; set_NextVbn (Index +u 1) (Vbn +u SectorCount);;
    let* a := SectorsWithinRun Index in
    let* b := SectorsWithinRun (Index +u 1) in
    set_Lbn (Index +u 2) (Lbn r + a +u b).

Fixpoint remove_loop (fuel : nat) (Vbn SectorCount : Z) : mcb unit :=
  if 0 <? SectorCount then
    match fuel with
    | O => wild
    | S fuel =>
        let* (found, Index) := FsRtlFindLargeIndex Vbn in
        if negb found then ret tt
        else
          let* s := StartingVbn Index in
          let* e := EndingVbn Index in
          if (s =? Vbn) && (e <? Vbn +u SectorCount) then
            let* i := SectorsWithinRun Index in
            remove_entire Index;;
            remove_loop fuel (Vbn +u i) (SectorCount -u i)
          else if s =? Vbn then
            remove_first Index Vbn SectorCount;;
            remove_loop fuel (Vbn +u SectorCount) 0
          else if e <? Vbn +u SectorCount then
            let AmountToRemove := e - Vbn +u 1 in
            remove_last Index AmountToRemove;;
            remove_loop fuel (Vbn +u AmountToRemove) (SectorCount -u AmountToRemove)
          else
            remove_middle Index Vbn SectorCount;;
            remove_loop fuel (Vbn +u SectorCount) 0
    end
  else ret tt.

(** Every turn of the loop but the last goes on to a later run. *)
Definition FsRtlRemoveMcbEntryPrivate (Vbn SectorCount : Z) : mcb unit :=
  let* n := get_PairCount in
  let* whole := andM (ret ((Vbn =? 0) && (0 <? n)))
    (let* r := entry (n -u 1) in ret (NextVbn r <=? SectorCount)) in
  if whole then set_PairCount 0 else remove_loop (S (Z.to_nat n)) Vbn SectorCount.

Definition FsRtlRemoveLargeMcbEntry (LargeVbn LargeSectorCount : Z) : mcb unit :=
  FsRtlRemoveMcbEntryPrivate (u32 LargeVbn) (u32 LargeSectorCount).

Definition FsRtlTruncateLargeMcb (LargeVbn : Z) : mcb unit :=
  let Vbn := u32 LargeVbn in
  let* n := get_PairCount in
  (if Vbn =? 0 then set_PairCount 0
   else if 0 <? n then FsRtlRemoveMcbEntryPrivate Vbn (0xffffffff -u Vbn)
   else ret tt);;
  let* n := get_PairCount in
  let* Max := get_MaximumPairCount in
  if (n <? Max / 4) && (INITIAL_MAXIMUM_PAIR_COUNT <? Max) then
    let NewMax := n *u 2 in
    let NewMax := if NewMax <? INITIAL_MAXIMUM_PAIR_COUNT then INITIAL_MAXIMUM_PAIR_COUNT else NewMax in
    let* New := FsRtlAllocatePool (8 *u NewMax) in
    let* New := copy_pairs n New in
    set_Mapping New NewMax
  else ret tt.

(** ** Splitting *)

Fixpoint shift_loop (fuel : nat) (i Amount : Z) : mcb unit :=
  let* n := get_PairCount in
  if i <? n then
    match fuel with
    | O => wild
    | S fuel =>
        let* r := entry i in
        set_NextVbn i (NextVbn r +u Amount);;
        shift_loop fuel (i +u 1) Amount
    end
  else ret tt.

(** The index from which the runs are shifted, once there is an entry for the hole. *)
Definition make_hole (Index Vbn Amount : Z) : mcb Z :=
  let* l := StartingLbn Index in
  if l =? UNUSED_LBN then ret Index
  else
    let* s := StartingVbn Index in
    let* after_hole := andM (ret ((s =? Vbn) && negb (Index =? 0)))
      (let* p := PreviousEndingLbn Index in ret (p =? UNUSED_LBN)) in
    if after_hole then ret (Index -u 1)
    else if s =? Vbn then
      FsRtlAddLargeEntry Index 1;;
      set_Lbn Index UNUSED_LBN;; set_NextVbn Index (Vbn +u Amount);;
      ret (Index +u 1)
    else
      FsRtlAddLargeEntry Index 2;;
      let* r := entry (Index +u 2) in
      set_Lbn Index (Lbn r);; set_NextVbn Index Vbn;;
      set_Lbn (Index +u 1) UNUSED_LBN;; set_NextVbn (Index +u 1) (Vbn +u Amount);;
      let* a := StartingVbn (Index +u 1) in
      let* b := StartingVbn Index in
      set_Lbn (Index +u 2) (Lbn r + a -u b);;
      ret (Index +u 2).

Definition FsRtlSplitLargeMcb (LargeVbn LargeAmount : Z) : mcb bool :=
  let Vbn := u32 LargeVbn in let Amount := u32 LargeAmount in
  let* (found, Index) := FsRtlFindLargeIndex Vbn in
  if negb found then ret false
  else
    let* Index := make_hole Index Vbn Amount in
    let* n := get_PairCount in
    shift_loop (S (Z.to_nat n)) Index Amount;;
    ret true.
End pool.

(** ** Queries

    An output is a [LONGLONG] whose low word is written, unless the query fails, and
    whose high word is always set; the argument has the low words that were there. *)

Definition large (LowPart : Z) : Z := if LowPart =? UNUSED_LBN then -1 else LowPart.

Record LOOKUP := mkLookup {
  LookupLbn : Z;
  LookupSectorCount : Z;
  LookupStartingLbn : Z;
  LookupCountFromStartingLbn : Z;
  LookupIndex : Z
}.

Definition FsRtlLookupLargeMcbEntry (LargeVbn : Z) (Out : LOOKUP) : mcb (bool * LOOKUP) :=
  let Vbn := u32 LargeVbn in
  let* (found, LocalIndex) := FsRtlFindLargeIndex Vbn in
  let* Out :=
    (if negb found then ret Out
     else
       let* l := StartingLbn LocalIndex in
       let* s := StartingVbn LocalIndex in
       let* e := EndingVbn LocalIndex in
       ret (mkLookup (if l =? UNUSED_LBN then UNUSED_LBN else l +u (Vbn -u s)) (e - Vbn +u 1)
         l (e - s +u 1) LocalIndex)) in
  ret (found, mkLookup (large (LookupLbn Out)) (LookupSectorCount Out)
    (large (LookupStartingLbn Out)) (LookupCountFromStartingLbn Out) (LookupIndex Out)).

(** The last block and where it is. *)
Definition FsRtlLookupLastLargeMcbEntry (Out : Z * Z) : mcb (bool * (Z * Z)) :=
  let* n := get_PairCount in
  let* (Result, (Vbn, Lbn)) :=
    (if n <=? 0 then ret (false, Out)
     else
       let* l := EndingLbn (n -u 1) in
       let* v := EndingVbn (n -u 1) in
       ret (true, (v, l))) in
  ret (Result, (large Vbn, large Lbn)).

Definition FsRtlNumberOfRunsInLargeMcb : mcb Z := get_PairCount.

(** The block, the logical block and the number of sectors of a run. *)
Definition FsRtlGetNextLargeMcbEntry (RunIndex : Z) (Out : Z * Z * Z) : mcb (bool * (Z * Z * Z)) :=
  let* n := get_PairCount in
  let* (Result, (Vbn, Lbn, SectorCount)) :=
    (if n <=? RunIndex then ret (false, Out)
     else
       let* v := StartingVbn RunIndex in
       let* l := StartingLbn RunIndex in
       let* c := SectorsWithinRun RunIndex in
       ret (true, (v, l, c))) in
  ret (Result, (large Vbn, large Lbn, SectorCount)).

(** ** Initialization *)

(** A status is raised when there is no memory for the mutex or for the first array,
    which begins with whatever its memory holds. *)
Definition FsRtlInitializeLargeMcb (FastMutex : bool) (Block : option (Z → MAPPING)) : option NONOPAQUE_MCB :=
  if FastMutex then
    match Block with
    | Some contents => Some (mkMcb INITIAL_MAXIMUM_PAIR_COUNT 0 (contents <$> seqZ 0 INITIAL_MAXIMUM_PAIR_COUNT))
    | None => None
    end
  else None.

(** ** Small blocks: unused logical blocks are 0 and not -1 *)

Definition FsRtlInitializeMcb := FsRtlInitializeLargeMcb.
Definition FsRtlTruncateMcb := FsRtlTruncateLargeMcb.
Definition FsRtlAddMcbEntry := FsRtlAddLargeMcbEntry.
Definition FsRtlRemoveMcbEntry := FsRtlRemoveMcbEntryPrivate.
Definition FsRtlNumberOfRunsInMcb := FsRtlNumberOfRunsInLargeMcb.

Definition small (LiLbn : Z) : Z := if u32 LiLbn =? UNUSED_LBN then 0 else u32 LiLbn.

Definition FsRtlLookupMcbEntry (Vbn : Z) (Out : LOOKUP) : mcb (bool * (Z * Z * Z)) :=
  let* (Results, Li) := FsRtlLookupLargeMcbEntry Vbn Out in
  ret (Results, (small (LookupLbn Li), u32 (LookupSectorCount Li), LookupIndex Li)).

Definition FsRtlLookupLastMcbEntry (Out : Z * Z) : mcb (bool * (Z * Z)) :=
  let* (Results, (LiVbn, LiLbn)) := FsRtlLookupLastLargeMcbEntry Out in
  ret (Results, (u32 LiVbn, small LiLbn)).

Definition FsRtlGetNextMcbEntry (RunIndex : Z) (Out : Z * Z * Z) : mcb (bool * (Z * Z * Z)) :=
  let* (Results, (LiVbn, LiLbn, LiSectorCount)) := FsRtlGetNextLargeMcbEntry RunIndex Out in
  ret (Results, (u32 LiVbn, small LiLbn, u32 LiSectorCount)).
