(* ===== verification/McbRuns.v ===== *)
(** * Runs of sectors

    A list of pairs as a mapping of virtual blocks to logical blocks: which lists are
    well formed, what they map, and that no two of them map the same. *)

From stdpp Require Import base list list_tactics numbers option.
From S2P Require Import Prelude Mcb.

Definition hole (r : MAPPING) : Prop := Lbn r = UNUSED_LBN.
#[export] Instance hole_dec r : Decision (hole r).
Proof. unfold hole. apply _. Defined.

(** ** Well-formed lists *)

(** What is on one side of the border between two runs. *)
Inductive edge := Outside | Hole | At (Lbn : Z).
#[export] Instance edge_eq_dec : EqDecision edge.
Proof. solve_decision. Defined.

Definition enter (r : MAPPING) : edge := if decide (hole r) then Hole else At (Lbn r).
Definition leave (s : Z) (r : MAPPING) : edge := if decide (hole r) then Hole else At (Lbn r + (NextVbn r - s)).

(** Two runs are one when both are holes or the logical blocks continue; no hole is
    the last run. *)
Definition apart (e e' : edge) : Prop :=
  match e, e' with
  | Hole, (Hole | Outside) => False
  | At l, At l' => l ≠ l'
  | _, _ => True
  end.

(** A run that begins at [s]. Logical blocks are not 0 and before [UNUSED_LBN]. *)
Definition good (s : Z) (r : MAPPING) : Prop :=
  s < NextVbn r < 2 ^ 32 ∧ (hole r ∨ 0 < Lbn r ∧ Lbn r + (NextVbn r - s) ≤ UNUSED_LBN).

Fixpoint seg (s : Z) (e : edge) (L : list MAPPING) : Prop :=
  match L with
  | [] => True
  | r :: L => good s r ∧ apart e (enter r) ∧ seg (NextVbn r) (leave s r) L
  end.

(** Where a list that begins at [s] ends, and with what. *)
Fixpoint fin (s : Z) (L : list MAPPING) : Z :=
  match L with [] => s | r :: L => fin (NextVbn r) L end.

Fixpoint out (s : Z) (e : edge) (L : list MAPPING) : edge :=
  match L with [] => e | r :: L => out (NextVbn r) (leave s r) L end.

Definition runs (L : list MAPPING) : Prop := seg 0 Outside L ∧ apart (out 0 Outside L) Outside.

(** The border after which a list begins. *)
Definition first_edge (L : list MAPPING) : edge := match L with [] => Outside | r :: _ => enter r end.

(** ** The mapping *)

Fixpoint vlbn (s : Z) (L : list MAPPING) (v : Z) : option Z :=
  match L with
  | [] => None
  | r :: L =>
      if v <? NextVbn r then if decide (hole r) then None else Some (Lbn r + (v - s))
      else vlbn (NextVbn r) L v
  end.

(** The logical block of a block of the file. *)
Definition lbn_of (L : list MAPPING) (v : Z) : option Z := vlbn 0 L v.

(** ** Appending *)

Lemma fin_app s A B : fin s (A ++ B) = fin (fin s A) B.
Proof. revert s. induction A as [|r A IH]; intros s; [done|]. apply IH. Qed.

Lemma out_app s e A B : out s e (A ++ B) = out (fin s A) (out s e A) B.
Proof. revert s e. induction A as [|r A IH]; intros s e; [done|]. apply IH. Qed.

Lemma seg_app s e A B : seg s e (A ++ B) ↔ seg s e A ∧ seg (fin s A) (out s e A) B.
Proof.
  revert s e. induction A as [|r A IH]; intros s e; simpl; [tauto|]. rewrite IH. tauto.
Qed.

Lemma seg_fin s e A : seg s e A → s + zlen A ≤ fin s A.
Proof.
  revert s e. induction A as [|r A IH]; intros s e; simpl; [unfold zlen; simpl; lia|].
  intros ([Hr _] & _ & HA). specialize (IH _ _ HA). unfold zlen in *. simpl. lia.
Qed.

Lemma zlen_nonneg' {A} (l : list A) : 0 ≤ zlen l.
Proof. unfold zlen. lia. Qed.

Lemma seg_le s e A : seg s e A → s ≤ fin s A.
Proof. intros H%seg_fin. pose proof (zlen_nonneg' A). lia. Qed.

Lemma seg_max s e A : s < 2 ^ 32 → seg s e A → fin s A < 2 ^ 32.
Proof. revert s e. induction A as [|r A IH]; intros s e Hs; simpl; [done|]. intros ([Hr _] & _ & HA). apply IH in HA; lia. Qed.

Lemma vlbn_app s e A B v :
  seg s e A → s ≤ v → vlbn s (A ++ B) v = if v <? fin s A then vlbn s A v else vlbn (fin s A) B v.
Proof.
  revert s e. induction A as [|r A IH]; intros s e; simpl.
  - intros _ Hv. by rewrite (proj2 (Z.ltb_ge _ _)).
  - intros ([Hr _] & _ & HA) Hv. pose proof (seg_le _ _ _ HA). destruct (Z.ltb_spec v (NextVbn r)).
    + by rewrite (proj2 (Z.ltb_lt _ _)) by lia.
    + by rewrite (IH _ _ HA).
Qed.

Lemma vlbn_end s e A v : seg s e A → fin s A ≤ v → vlbn s A v = None.
Proof.
  revert s e. induction A as [|r A IH]; intros s e; simpl; [done|]. intros ([Hr _] & _ & HA) Hv.
  pose proof (seg_le _ _ _ HA). rewrite (proj2 (Z.ltb_ge _ _)) by lia. by apply (IH _ _ HA).
Qed.

(** The border only matters to the first run. *)
Lemma seg_edge s e e' L : seg s e L → apart e' (first_edge L) ∨ L = [] → seg s e' L.
Proof. destruct L as [|r L]; simpl; [done|]. intros (H1 & _ & H3) [H|?]; done. Qed.

(** A list between two others. *)
Lemma seg_mid s e A B C :
  seg s e (A ++ B ++ C) ↔ seg s e A ∧ seg (fin s A) (out s e A) B ∧ seg (fin (fin s A) B) (out (fin s A) (out s e A) B) C.
Proof. rewrite !seg_app. tauto. Qed.

(** ** One list for one mapping *)

(** A run that is not a hole maps its first block. *)
Lemma vlbn_first s e r L : seg s e (r :: L) → vlbn s (r :: L) s = if decide (hole r) then None else Some (Lbn r).
Proof.
  intros ([Hr _] & _). simpl. rewrite (proj2 (Z.ltb_lt _ _)) by lia. case_decide; [done|]. f_equal. lia.
Qed.

(** The first block after a run does not continue it. *)
Lemma vlbn_after s e r L :
  seg s e (r :: L) → apart (out s e (r :: L)) Outside →
  vlbn (NextVbn r) L (NextVbn r) ≠ if decide (hole r) then None else Some (Lbn r + (NextVbn r - s)).
Proof.
  intros (Hr & _ & HL) Hend. simpl in Hend. destruct L as [|r' L].
  - simpl in *. unfold leave in Hend. by case_decide.
  - rewrite (vlbn_first _ _ _ _ HL). destruct HL as (_ & Hap & _). unfold leave, enter in Hap.
    repeat case_decide; simpl in *; [done|done|done|congruence].
Qed.

Lemma vlbn_in s r L v :
  s ≤ v < NextVbn r → vlbn s (r :: L) v = if decide (hole r) then None else Some (Lbn r + (v - s)).
Proof. intros Hv. simpl. by rewrite (proj2 (Z.ltb_lt _ _)) by lia. Qed.

Lemma same_head s e r L e' r' L' :
  seg s e (r :: L) → apart (out s e (r :: L)) Outside → seg s e' (r' :: L') →
  (∀ v, s ≤ v → vlbn s (r :: L) v = vlbn s (r' :: L') v) → Lbn r = Lbn r' ∧ NextVbn r' ≤ NextVbn r.
Proof.
  intros HL Hend HL' Heq. pose proof (Heq s ltac:(lia)) as Hs. rewrite (vlbn_first s e r L HL), (vlbn_first s e' r' L' HL') in Hs.
  assert (Hlbn : Lbn r = Lbn r') by (unfold hole in Hs; repeat case_decide; congruence). split; [done|].
  destruct (decide (NextVbn r < NextVbn r')) as [Hlt|]; [exfalso|lia].
  assert (Hpos : s < NextVbn r) by apply HL. pose proof (Heq (NextVbn r) ltac:(lia)) as Hv.
  rewrite (vlbn_in s r' L') in Hv by lia.
  apply (vlbn_after s e r L); [done|done|]. change (vlbn s (r :: L) (NextVbn r)) with
    (if NextVbn r <? NextVbn r then if decide (hole r) then None else Some (Lbn r + (NextVbn r - s)) else vlbn (NextVbn r) L (NextVbn r)) in Hv.
  rewrite Z.ltb_irrefl in Hv. rewrite Hv. repeat case_decide; unfold hole in *; congruence.
Qed.

Lemma seg_mapped s e r L :
  seg s e (r :: L) → apart (out s e (r :: L)) Outside → ¬ ∀ v, s ≤ v → vlbn s (r :: L) v = None.
Proof.
  intros HL Hend Hn. pose proof (Hn s ltac:(lia)) as Hs. rewrite (vlbn_first _ _ _ _ HL) in Hs.
  assert (Hr : s < NextVbn r) by apply HL. specialize (Hn (NextVbn r) ltac:(lia)).
  apply (vlbn_after _ _ _ _ HL Hend). simpl in Hn. rewrite Z.ltb_irrefl in Hn. rewrite Hn. by case_decide.
Qed.

Lemma seg_unique L : ∀ s e e' L',
  seg s e L → apart (out s e L) Outside → seg s e' L' → apart (out s e' L') Outside →
  (∀ v, s ≤ v → vlbn s L v = vlbn s L' v) → L = L'.
Proof.
  induction L as [|r L IH]; intros s e e' L' HL Hend HL' Hend' Heq.
  - destruct L' as [|r' L']; [done|]. destruct (seg_mapped s e' r' L' HL' Hend'). intros v Hv. by rewrite <- Heq.
  - destruct L' as [|r' L']; [by destruct (seg_mapped s e r L HL Hend)|].
    destruct (same_head _ _ _ _ _ _ _ HL Hend HL' Heq) as [Hlbn Hle].
    destruct (same_head s e' r' L' e r L HL' Hend' HL) as [_ Hge]; [intros v Hv; by rewrite Heq|].
    assert (r = r') as <- by (destruct r, r'; simpl in *; f_equal; lia). f_equal.
    destruct HL as ([Hr _] & _ & HL), HL' as (_ & _ & HL'). apply (IH (NextVbn r) (leave s r) (leave s r)); try done.
    intros v Hv. specialize (Heq v ltac:(lia)). simpl in Heq. by rewrite (proj2 (Z.ltb_ge _ _)) in Heq by lia.
Qed.

(** Well-formed lists with the same mapping are equal. *)
Lemma runs_unique L L' :
  runs L → runs L' → (∀ v, 0 ≤ v → lbn_of L v = lbn_of L' v) → L = L'.
Proof. intros [H1 H2] [H1' H2']. by apply (seg_unique L 0 Outside Outside). Qed.
