(* ===== verification/McbLogic.v ===== *)
(** * Reasoning about the operations

    A block [M] holds the list [L] of its valid pairs. [triple L m R Q]: from a block
    that holds [L], [m] accesses the array inside its bounds only; when it returns [a]
    the block holds a list with [Q a], when it raises a list with [R]. Then the macros and the
    binary search. *)

From stdpp Require Import base list list_tactics numbers option.
From S2P Require Import Prelude Mcb McbRuns.

Record rep (M : NONOPAQUE_MCB) (L : list MAPPING) : Prop := {
  rep_max : MaximumPairCount M = zlen (Mapping M);
  rep_min : INITIAL_MAXIMUM_PAIR_COUNT ≤ MaximumPairCount M;
  rep_bytes : 8 * MaximumPairCount M < 2 ^ 31;
  rep_count : PairCount M = zlen L;
  rep_pairs : ∃ T, Mapping M = L ++ T
}.

Definition triple {A} (L : list MAPPING) (m : mcb A) (R : list MAPPING → Prop) (Q : A → list MAPPING → Prop) : Prop :=
  ∀ M, rep M L →
    match m M with
    | Wild => False
    | Raise M' => ∃ L', rep M' L' ∧ R L'
    | Ret M' a => ∃ L', rep M' L' ∧ Q a L'
    end.

Lemma zlen_app' {A} (l l' : list A) : zlen (l ++ l') = zlen l + zlen l'.
Proof. unfold zlen. rewrite length_app. lia. Qed.

Lemma zlen_cons' {A} (x : A) l : zlen (x :: l) = zlen l + 1.
Proof. unfold zlen. simpl. lia. Qed.

Lemma zlen_nil' {A} : zlen (@nil A) = 0.
Proof. done. Qed.

Lemma array_get_middle {A} (l : list A) x l' : array_get (l ++ x :: l') (zlen l) = Some x.
Proof.
  unfold array_get, zlen. rewrite (proj2 (Z.leb_le _ _)) by lia. rewrite Nat2Z.id. by apply list_lookup_middle.
Qed.

Lemma insert_middle {A} (l : list A) x y l' : <[length l := y]> (l ++ x :: l') = l ++ y :: l'.
Proof. rewrite <- (Nat.add_0_r (length l)) at 1. by rewrite insert_app_r. Qed.

(** ** Rules *)

Section rules.
Context {A B : Type}.

Lemma triple_ret L (a : A) (R : list MAPPING → Prop) (Q : A → list MAPPING → Prop) :
  Q a L → triple L (ret a) R Q.
Proof. intros H M HM. by exists L. Qed.

Lemma triple_bind L (m : mcb A) (k : A → mcb B) (R : list MAPPING → Prop) Q :
  triple L m R (λ a L', triple L' (k a) R Q) → triple L (bind m k) R Q.
Proof.
  intros H M HM. specialize (H M HM). unfold bind. destruct (m M) as [|M'|M' a]; [done|done|].
  destruct H as (L' & HM' & H). by apply H.
Qed.

Lemma triple_weaken L (m : mcb A) (R R' : list MAPPING → Prop) (Q Q' : A → list MAPPING → Prop) :
  triple L m R Q → (∀ L, R L → R' L) → (∀ a L, Q a L → Q' a L) → triple L m R' Q'.
Proof. intros H HR HQ M HM. specialize (H M HM). destruct (m M); naive_solver. Qed.

Lemma triple_bound L (m : mcb A) (R : list MAPPING → Prop) Q :
  (zlen L < 2 ^ 28 → triple L m R Q) → triple L m R Q.
Proof.
  intros H M HM. apply H; [|done]. destruct HM as [H1 H2 H3 H4 [T HT]]. rewrite H1, HT, zlen_app' in H3.
  pose proof (zlen_nonneg' T). lia.
Qed.
End rules.

Section basic.
Context (R : list MAPPING → Prop).

Lemma triple_PairCount L Q : Q (zlen L) L → triple L get_PairCount R Q.
Proof. intros H M HM. simpl. exists L. by rewrite (rep_count _ _ HM). Qed.

Lemma triple_clear L Q : Q tt [] → triple L (set_PairCount 0) R Q.
Proof.
  intros H M [H1 H2 H3 H4 [T HT]]. exists []. split; [|done]. split; simpl; [done..|]. by eexists.
Qed.

Lemma triple_entry l x l' i Q : i = zlen l → Q x (l ++ x :: l') → triple (l ++ x :: l') (entry i) R Q.
Proof.
  intros -> H M HM. unfold entry. destruct (rep_pairs _ _ HM) as [T HT]. rewrite HT, <- app_assoc. simpl.
  rewrite array_get_middle. eauto.
Qed.

Lemma triple_update l x l' i f Q :
  i = zlen l → Q tt (l ++ f x :: l') → triple (l ++ x :: l') (update i f) R Q.
Proof.
  intros -> H M [H1 H2 H3 H4 [T HT]]. unfold update. rewrite HT, <- app_assoc. simpl. rewrite array_get_middle.
  unfold zlen at 1. rewrite Nat2Z.id, insert_middle. exists (l ++ f x :: l'). split; [|done].
  split; simpl; [|done|done|..].
  - rewrite H1, HT, !zlen_app', !zlen_cons'. rewrite !zlen_app'. lia.
  - rewrite H4, !zlen_app', !zlen_cons'. done.
  - exists T. by rewrite <- app_assoc.
Qed.
End basic.

(** ** Entries *)

Section space.
Context (pool : NONOPAQUE_MCB → Z → option (Z → MAPPING)).

(** An allocation fails, or the pairs need a block of nearly half of the address space. *)
Definition starved (L : list MAPPING) : Prop := (∃ M bytes, pool M bytes = None) ∨ 2 ^ 26 < zlen L.

(** A new array for the pairs. *)
Lemma realloc_ok M L NewMax :
  rep M L → zlen L ≤ NewMax → INITIAL_MAXIMUM_PAIR_COUNT ≤ NewMax → 8 * NewMax < 2 ^ 32 →
  match (let* New := FsRtlAllocatePool pool (8 *u NewMax) in let* New := copy_pairs (zlen L) New in set_Mapping New NewMax) M with
  | Wild => False
  | Raise M' => M' = M ∧ ((∃ M bytes, pool M bytes = None) ∨ 2 ^ 28 ≤ NewMax)
  | Ret M' _ => rep M' L ∧ MaximumPairCount M' = NewMax
  end.
Proof.
  intros HM Hn Hmin Hmax. pose proof HM as [H1 H2 H3 H4 [T HT]]. unfold INITIAL_MAXIMUM_PAIR_COUNT in *.
  rewrite u32_small by lia. unfold bind, FsRtlAllocatePool. destruct (pool M (8 * NewMax)) as [contents|] eqn:Hpool; [|split; [done|left; eauto]].
  destruct (Z.ltb_spec (8 * NewMax) (2 ^ 31)) as [Hlt|]; [|split; [done|right; lia]].
  replace (8 * NewMax / 8) with NewMax by (rewrite Z.mul_comm, Z.div_mul; lia).
  assert (Hlen : zlen (contents <$> seqZ 0 NewMax) = NewMax) by (unfold zlen; rewrite length_fmap, length_seqZ; lia).
  unfold copy_pairs. rewrite Hlen, (proj2 (Z.leb_le _ _)) by lia. rewrite (proj2 (Z.leb_le _ _)) by (rewrite HT, zlen_app'; pose proof (zlen_nonneg' T); lia).
  simpl. split; [|done]. rewrite HT. replace (Z.to_nat (zlen L)) with (length L) by (unfold zlen; lia). rewrite take_app_length.
  split; simpl; [|done|done|done|by eexists].
  rewrite zlen_app'. unfold zlen in *. rewrite length_drop. lia.
Qed.

Lemma move_up_ok M L A C a :
  rep M L → L = A ++ C → 0 ≤ a → zlen L + a ≤ MaximumPairCount M →
  ∃ M' J T, (if zlen A <? zlen L then move_pairs (zlen A + a) (zlen A) (zlen C) else ret tt) M = Ret M' tt ∧
    length J = Z.to_nat a ∧ Mapping M' = A ++ J ++ C ++ T ∧ MaximumPairCount M' = MaximumPairCount M ∧ zlen (Mapping M') = zlen (Mapping M).
Proof.
  intros [H1 H2 H3 H4 [T HT]] -> Ha Hmax. rewrite H1, HT, !zlen_app' in Hmax.
  assert (HTa : (Z.to_nat a ≤ length T)%nat) by (unfold zlen in *; lia). rewrite zlen_app'.
  destruct (Z.ltb_spec (zlen A) (zlen A + zlen C)) as [Hlt|Hge].
  - unfold move_pairs. rewrite HT, !zlen_app'. pose proof (zlen_nonneg' A). pose proof (zlen_nonneg' C).
    assert (Hc : (0 <=? zlen A + a) && (0 <=? zlen A) && (zlen A + a + zlen C <=? zlen A + zlen C + zlen T) &&
      (zlen A + zlen C <=? zlen A + zlen C + zlen T) = true).
    { rewrite !andb_true_iff, !Z.leb_le. pose proof (zlen_nonneg' T). lia. }
    rewrite Hc. eexists _, (take (Z.to_nat a) (C ++ T)), (drop (Z.to_nat a) T). split; [done|].
    assert (HJ : length (take (Z.to_nat a) (C ++ T)) = Z.to_nat a) by (rewrite length_take, length_app; lia).
    split; [done|]. simpl.
    assert (Heq : take (Z.to_nat (zlen A + a)) ((A ++ C) ++ T) ++ take (Z.to_nat (zlen C)) (drop (Z.to_nat (zlen A)) ((A ++ C) ++ T)) ++
      drop (Z.to_nat (zlen A + a) + Z.to_nat (zlen C)) ((A ++ C) ++ T) = A ++ take (Z.to_nat a) (C ++ T) ++ C ++ drop (Z.to_nat a) T).
    { unfold zlen. rewrite !Z2Nat.inj_add, !Nat2Z.id by lia. rewrite <- app_assoc, take_app_add, drop_app_length, take_app_length.
      rewrite <- Nat.add_assoc, drop_app_add. rewrite (Nat.add_comm (Z.to_nat a)), drop_app_add. by rewrite <- app_assoc. }
    rewrite Heq. split; [done|]. split; [done|]. rewrite !zlen_app'. unfold zlen in *. rewrite HJ, length_drop. lia.
  - assert (C = []) as -> by (unfold zlen in Hge; destruct C; [done|simpl in Hge; lia]).
    exists M, (take (Z.to_nat a) T), (drop (Z.to_nat a) T). split; [done|]. rewrite length_take. split; [lia|].
    split; [|done]. rewrite HT, app_nil_r. simpl. by rewrite take_drop.
Qed.

Lemma triple_add A C a R Q :
  0 ≤ a ≤ 2 → (∀ J, length J = Z.to_nat a → Q tt (A ++ J ++ C)) → (starved (A ++ C) → R (A ++ C)) →
  triple (A ++ C) (FsRtlAddLargeEntry pool (zlen A) a) R Q.
Proof.
  intros Ha HQ HR. apply triple_bound. intros Hb M HM. pose proof HM as [H1 H2 H3 H4 _]. unfold INITIAL_MAXIMUM_PAIR_COUNT in H2.
  rewrite zlen_app' in *. pose proof (zlen_nonneg' A). pose proof (zlen_nonneg' C).
  unfold FsRtlAddLargeEntry. unfold bind at 1 2. simpl. rewrite H4. rewrite (u32_small (zlen A + zlen C + a)) by lia.
  set (NewMax := if MaximumPairCount M <? 2048 then MaximumPairCount M *u 2 else MaximumPairCount M +u 2048).
  assert (Hgrow : ∀ k : mcb unit,
    (∀ M', rep M' (A ++ C) → zlen (A ++ C) + a ≤ MaximumPairCount M' →
      match k M' with Wild => False | Raise M'' => ∃ L', rep M'' L' ∧ R L' | Ret M'' u => ∃ L', rep M'' L' ∧ Q u L' end) →
    match ((if MaximumPairCount M <? zlen A + zlen C + a then
      let* New := FsRtlAllocatePool pool (8 *u NewMax) in let* New := copy_pairs (zlen A + zlen C) New in set_Mapping New NewMax
      else ret tt);; k) M with
    | Wild => False | Raise M'' => ∃ L', rep M'' L' ∧ R L' | Ret M'' u => ∃ L', rep M'' L' ∧ Q u L' end).
  { intros k Hk. destruct (Z.ltb_spec (MaximumPairCount M) (zlen A + zlen C + a)) as [Hlt|Hge].
    - assert (HN : MaximumPairCount M + 15 ≤ NewMax ∧ 8 * NewMax < 2 ^ 32).
      { unfold NewMax. destruct (Z.ltb_spec (MaximumPairCount M) 2048); rewrite u32_small; lia. }
      assert (HnM : zlen A + zlen C ≤ MaximumPairCount M).
      { rewrite H1. destruct (rep_pairs _ _ HM) as [T ->]. rewrite !zlen_app'. pose proof (zlen_nonneg' T). lia. }
      pose proof (realloc_ok M (A ++ C) NewMax HM) as Hr. rewrite zlen_app' in Hr.
      specialize (Hr ltac:(lia) ltac:(unfold INITIAL_MAXIMUM_PAIR_COUNT; lia) ltac:(lia)).
      set (m := bind (FsRtlAllocatePool pool (8 *u NewMax)) _) in *. unfold bind. destruct (m M) as [|M'|M' u]; [done|destruct Hr as [-> Hst]; exists (A ++ C); split; [done|]; apply HR; destruct Hst as [?|Hbig]; [by left|right];
        unfold NewMax in Hbig; rewrite zlen_app'; destruct (Z.ltb_spec (MaximumPairCount M) 2048); rewrite u32_small in Hbig; lia|]. destruct Hr as [Hr Hm].
      apply Hk; [done|]. rewrite zlen_app'. lia.
    - change (ret tt;; k) with (λ M, k M). simpl. apply Hk; [done|]. rewrite zlen_app'. lia. }
  apply Hgrow. clear Hgrow. intros M' HM' Hmax. rewrite !u32_small by (rewrite ?zlen_app' in *; lia).
  replace (zlen A + zlen C - zlen A) with (zlen C) by lia. pose proof HM' as [H1' H2' H3' H4' _].
  destruct (move_up_ok M' (A ++ C) A C a HM' eq_refl ltac:(lia) Hmax) as (M'' & J & T & Hmove & HJ & HT & Hm & Hlen).
  rewrite zlen_app' in Hmove. unfold bind. rewrite Hmove. simpl. exists (A ++ J ++ C). split; [|by apply HQ].
  split; simpl; [by rewrite Hm, H1', Hlen|by rewrite Hm|by rewrite Hm|..].
  - rewrite !zlen_app'. unfold zlen in *. rewrite HJ. lia.
  - exists T. by rewrite HT, <- !app_assoc.
Qed.

Lemma triple_remove A B C a R Q :
  zlen B = a → Q tt (A ++ C) → triple (A ++ B ++ C) (FsRtlRemoveLargeEntry (zlen A) a) R Q.
Proof.
  intros Ha HQ. apply triple_bound. intros Hb M HM. pose proof HM as [H1 H2 H3 H4 [T HT]].
  rewrite !zlen_app' in Hb. pose proof (zlen_nonneg' A). pose proof (zlen_nonneg' B). pose proof (zlen_nonneg' C). pose proof (zlen_nonneg' T).
  unfold FsRtlRemoveLargeEntry. unfold bind at 1. simpl. rewrite H4, !zlen_app'. rewrite !u32_small by (rewrite ?u32_small; lia).
  replace (zlen A + (zlen B + zlen C) - (zlen A + a)) with (zlen C) by lia.
  assert (∃ M' T', (if zlen A + a <? zlen A + (zlen B + zlen C) then move_pairs (zlen A) (zlen A + a) (zlen C) else ret tt) M = Ret M' tt ∧
    Mapping M' = A ++ C ++ T' ∧ MaximumPairCount M' = MaximumPairCount M ∧ zlen (Mapping M') = zlen (Mapping M)) as (M' & T' & Hmove & HT' & Hm & Hlen).
  { destruct (Z.ltb_spec (zlen A + a) (zlen A + (zlen B + zlen C))) as [Hlt|Hge].
    - unfold move_pairs. rewrite HT, !zlen_app'.
      assert (Hc : (0 <=? zlen A) && (0 <=? zlen A + a) && (zlen A + zlen C <=? zlen A + (zlen B + zlen C) + zlen T) &&
        (zlen A + a + zlen C <=? zlen A + (zlen B + zlen C) + zlen T) = true).
      { rewrite !andb_true_iff, !Z.leb_le. lia. }
      rewrite Hc. eexists _, (drop (length A + length C) ((A ++ B ++ C) ++ T)). split; [done|]. simpl.
      assert (Heq : take (Z.to_nat (zlen A)) ((A ++ B ++ C) ++ T) ++ take (Z.to_nat (zlen C)) (drop (Z.to_nat (zlen A + a)) ((A ++ B ++ C) ++ T)) ++
        drop (Z.to_nat (zlen A) + Z.to_nat (zlen C)) ((A ++ B ++ C) ++ T) = A ++ C ++ drop (length A + length C) ((A ++ B ++ C) ++ T)).
      { rewrite <- Ha. unfold zlen. rewrite !Z2Nat.inj_add, !Nat2Z.id by lia. rewrite <- !app_assoc, take_app_length.
        rewrite drop_app_add, drop_app_length, take_app_length. done. }
      rewrite Heq. split; [done|]. split; [done|]. rewrite !zlen_app'. unfold zlen in *. rewrite length_drop, !length_app. lia.
    - assert (C = []) as -> by (unfold zlen in *; destruct C; [done|simpl in *; lia]).
      exists M, (B ++ T). rewrite HT, app_nil_r, <- app_assoc. done. }
  unfold bind. rewrite Hmove. simpl. exists (A ++ C). split; [|done].
  split; simpl; [by rewrite Hm, H1, Hlen|by rewrite Hm|by rewrite Hm|..].
  - rewrite zlen_app'. lia.
  - exists T'. by rewrite HT', <- app_assoc.
Qed.
End space.

(** ** Reading the parts of a run, and the binary search *)

(** The logical blocks that the macros give for a border. *)
Definition last_lbn (e : edge) : Z := match e with At l => l - 1 | _ => UNUSED_LBN end.
Definition first_lbn (e : edge) : Z := match e with At l => l | _ => UNUSED_LBN end.

Section reads.
Context (R : list MAPPING → Prop).

Lemma triple_entry' L A r C i Q : L = A ++ r :: C → i = zlen A → Q r L → triple L (entry i) R Q.
Proof. intros -> -> H. by apply triple_entry. Qed.

Lemma index_pred {X} (A : list X) x : zlen (A ++ [x]) < 2 ^ 28 → zlen (A ++ [x]) -u 1 = zlen A.
Proof. rewrite zlen_app'. change (zlen [x]) with 1. pose proof (zlen_nonneg' A). intros. rewrite u32_small; lia. Qed.

Lemma index_succ {X} (A : list X) : zlen A < 2 ^ 28 → zlen A +u 1 = zlen A + 1.
Proof. pose proof (zlen_nonneg' A). intros. rewrite u32_small; lia. Qed.

Lemma index_nonzero {X} (A : list X) x : (zlen (A ++ [x]) =? 0) = false.
Proof. apply Z.eqb_neq. rewrite zlen_app'. change (zlen [x]) with 1. pose proof (zlen_nonneg' A). lia. Qed.

Lemma triple_StartingVbn L A C i Q :
  L = A ++ C → i = zlen A → Q (fin 0 A) L → triple L (StartingVbn i) R Q.
Proof.
  intros HL -> H. apply triple_bound. intros Hb. unfold StartingVbn. subst L.
  destruct A as [|p A _] using rev_ind; [by apply triple_ret|]. rewrite index_nonzero.
  rewrite zlen_app' in Hb. pose proof (zlen_nonneg' C). rewrite index_pred by lia.
  apply triple_bind, (triple_entry' _ A p C); [by rewrite <- app_assoc|done|]. apply triple_ret.
  by rewrite fin_app in H.
Qed.

Lemma triple_EndingVbn L A r C i Q :
  L = A ++ r :: C → i = zlen A → Q (NextVbn r -u 1) L → triple L (EndingVbn i) R Q.
Proof.
  intros HL Hi H. unfold EndingVbn. apply triple_bind, (triple_entry' _ A r C); [done|done|]. by apply triple_ret.
Qed.

Lemma triple_PreviousEndingVbn L A C i Q :
  L = A ++ C → i = zlen A → Q (fin 0 A -u 1) L → triple L (PreviousEndingVbn i) R Q.
Proof.
  intros HL -> H. apply triple_bound. intros Hb. unfold PreviousEndingVbn. subst L.
  destruct A as [|p A _] using rev_ind; [by apply triple_ret|]. rewrite index_nonzero.
  rewrite zlen_app' in Hb. pose proof (zlen_nonneg' C). rewrite index_pred by lia.
  apply (triple_EndingVbn _ A p C); [by rewrite <- app_assoc|done|]. by rewrite fin_app in H.
Qed.

Lemma triple_StartingLbn L A r C i Q :
  L = A ++ r :: C → i = zlen A → Q (Lbn r) L → triple L (StartingLbn i) R Q.
Proof.
  intros HL Hi H. unfold StartingLbn. apply triple_bind, (triple_entry' _ A r C); [done|done|]. by apply triple_ret.
Qed.

Lemma triple_EndingLbn L A r C i Q :
  L = A ++ r :: C → i = zlen A → good (fin 0 A) r → 0 ≤ fin 0 A →
  Q (last_lbn (leave (fin 0 A) r)) L → triple L (EndingLbn i) R Q.
Proof.
  intros HL Hi [Hr Hl] Hs H. unfold EndingLbn. apply triple_bind, (triple_StartingLbn _ A r C); [done|done|].
  unfold leave in H. destruct (Z.eqb_spec (Lbn r) UNUSED_LBN) as [Heq|Hne].
  - apply triple_ret. by rewrite decide_True in H.
  - rewrite decide_False in H by done. destruct Hl as [?|Hl]; [done|]. unfold UNUSED_LBN in Hl.
    apply triple_bind, (triple_entry' _ A r C); [done|done|].
    apply triple_bind, (triple_StartingVbn _ A (r :: C)); [done|done|]. apply triple_ret. simpl in H.
    rewrite u32_small by lia. by replace (Lbn r + NextVbn r - fin 0 A - 1) with (Lbn r + (NextVbn r - fin 0 A) - 1) by lia.
Qed.

Lemma triple_PreviousEndingLbn L A C i Q :
  L = A ++ C → i = zlen A → seg 0 Outside A → Q (last_lbn (out 0 Outside A)) L → triple L (PreviousEndingLbn i) R Q.
Proof.
  intros HL -> HA H. apply triple_bound. intros Hb. unfold PreviousEndingLbn. subst L.
  destruct A as [|p A _] using rev_ind; [by apply triple_ret|]. rewrite index_nonzero.
  rewrite zlen_app' in Hb. pose proof (zlen_nonneg' C). rewrite index_pred by lia.
  apply seg_app in HA as [HA Hp]. apply (triple_EndingLbn _ A p C); [by rewrite <- app_assoc|done|apply Hp|by eapply seg_le|].
  by rewrite out_app in H.
Qed.

Lemma triple_NextStartingLbn L A r C i Q :
  L = A ++ r :: C → i = zlen A → Q (first_lbn (first_edge C)) L → triple L (NextStartingLbn i) R Q.
Proof.
  intros HL -> H. apply triple_bound. intros Hb. unfold NextStartingLbn. apply triple_bind, triple_PairCount.
  assert (Hn : zlen L = zlen A + 1 + zlen C) by (subst L; rewrite zlen_app', zlen_cons'; lia).
  pose proof (zlen_nonneg' A). pose proof (zlen_nonneg' C). rewrite Hn, !u32_small by lia.
  destruct C as [|r' C].
  - rewrite zlen_nil'. rewrite (proj2 (Z.leb_le _ _)) by lia. by apply triple_ret.
  - rewrite zlen_cons' in *. pose proof (zlen_nonneg' C). rewrite (proj2 (Z.leb_gt _ _)) by lia.
    apply (triple_StartingLbn _ (A ++ [r]) r' C); [by rewrite HL, <- app_assoc|rewrite zlen_app'; done|].
    simpl in H. unfold enter, hole in H. case_decide as Hh; simpl in H; [|done]. by rewrite Hh.
Qed.

Lemma triple_NextStartingVbn L A r C i Q :
  L = A ++ r :: C → i = zlen A → Q (NextVbn r) L → triple L (NextStartingVbn i) R Q.
Proof.
  intros HL -> H. apply triple_bound. intros Hb. unfold NextStartingVbn. apply triple_bind, triple_PairCount.
  assert (Hn : zlen L = zlen A + 1 + zlen C) by (subst L; rewrite zlen_app', zlen_cons'; lia).
  pose proof (zlen_nonneg' A). pose proof (zlen_nonneg' C). rewrite (proj2 (Z.leb_gt _ _)), u32_small by lia.
  apply (triple_StartingVbn _ (A ++ [r]) C); [by rewrite HL, <- app_assoc|rewrite zlen_app'; done|]. by rewrite fin_app.
Qed.

Lemma triple_SectorsWithinRun L A r C i Q :
  L = A ++ r :: C → i = zlen A → 0 ≤ fin 0 A < NextVbn r → NextVbn r < 2 ^ 32 →
  Q (NextVbn r - fin 0 A) L → triple L (SectorsWithinRun i) R Q.
Proof.
  intros HL Hi Hs Hr H. unfold SectorsWithinRun. apply triple_bind, (triple_EndingVbn _ A r C); [done|done|].
  apply triple_bind, (triple_StartingVbn _ A (r :: C)); [done|done|]. apply triple_ret.
  rewrite (u32_small (NextVbn r - 1)), u32_small by lia. by replace (NextVbn r - 1 - fin 0 A + 1) with (NextVbn r - fin 0 A) by lia.
Qed.

(** ** The search *)

Definition found_at (L : list MAPPING) (v i : Z) : Prop :=
  ∃ A r C, L = A ++ r :: C ∧ i = zlen A ∧ fin 0 A ≤ v < NextVbn r.

Lemma search_loop_ok L v fuel : ∀ a b : nat,
  seg 0 Outside L → (a ≤ b ≤ length L)%nat → fin 0 (take a L) ≤ v → b = length L ∨ v < fin 0 (take b L) →
  (b - a ≤ fuel)%nat →
  triple L (find_loop fuel v (Z.of_nat a) (Z.of_nat b - 1)) R
    (λ o L', L' = L ∧ match o with Some i => found_at L v i | None => fin 0 L ≤ v end).
Proof.
  induction fuel as [|fuel IH]; intros a b HL Hab Ha Hb Hf; apply triple_bound; intros Hlen; unfold zlen in Hlen; cbn [find_loop];
    (destruct (Z.leb_spec (Z.of_nat a) (Z.of_nat b - 1)) as [Hle|Hgt];
     [|apply triple_ret; split; [done|]; assert (a = b) as -> by lia; destruct Hb as [->|Hb]; [by rewrite take_ge in Ha by lia|lia]]).
  - lia.
  - set (mid := ((a + b - 1) / 2)%nat).
    assert (Hm : (a ≤ mid < b)%nat).
    { pose proof (Nat.div_mod_eq (a + b - 1) 2). pose proof (Nat.mod_upper_bound (a + b - 1) 2). unfold mid. lia. }
    assert (HM : Z.quot (s32 (Z.of_nat b - 1 + Z.of_nat a)) 2 = Z.of_nat mid).
    { rewrite s32_small by lia. rewrite Z.quot_div_nonneg by lia. unfold mid. rewrite Nat2Z.inj_div. f_equal. lia. }
    rewrite HM. cbv zeta. destruct (lookup_lt_is_Some_2 L mid) as [r Hr]; [lia|].
    assert (HLm : L = take mid L ++ r :: drop (S mid) L) by (by rewrite take_drop_middle).
    assert (Hzm : Z.of_nat mid = zlen (take mid L)) by (unfold zlen; rewrite length_take; lia).
    pose proof HL as HL'. rewrite HLm in HL'. apply seg_app in HL' as (HA & Hgood & _ & _). pose proof (seg_le _ _ _ HA) as Hs0.
    destruct Hgood as [Hr1 _].
    apply triple_bind, (triple_StartingVbn _ (take mid L) (r :: drop (S mid) L)); [done|done|].
    destruct (Z.ltb_spec v (fin 0 (take mid L))) as [Hlt|Hge].
    + rewrite s32_small by lia. apply (IH a mid); [done|lia|done|by right|lia].
    + apply triple_bind, (triple_EndingVbn _ (take mid L) r (drop (S mid) L)); [done|done|]. rewrite u32_small by lia.
      destruct (Z.ltb_spec (NextVbn r - 1) v) as [Hlt|Hge'].
      * rewrite s32_small by lia. replace (Z.of_nat mid + 1) with (Z.of_nat (S mid)) by lia. apply (IH (S mid) b); [done|lia| |done|lia].
        rewrite (take_S_r _ _ r) by done. rewrite fin_app. simpl. lia.
      * apply triple_ret. split; [done|]. exists (take mid L), r, (drop (S mid) L). split_and!; [done|done|lia|lia].
Qed.

Lemma triple_find L v Q :
  seg 0 Outside L → 0 ≤ v →
  (∀ A r C, L = A ++ r :: C → fin 0 A ≤ v < NextVbn r → Q (true, zlen A) L) →
  (fin 0 L ≤ v → Q (false, zlen L) L) → triple L (FsRtlFindLargeIndex v) R Q.
Proof.
  intros HL Hv Hin Hout. apply triple_bound. intros Hb. unfold FsRtlFindLargeIndex. apply triple_bind, triple_PairCount.
  assert (HbZ : Z.of_nat (length L) < 2 ^ 28) by (unfold zlen in Hb; done).
  replace (s32 (zlen L - 1)) with (Z.of_nat (length L) - 1) by (unfold zlen; rewrite s32_small; lia).
  apply triple_bind. eapply triple_weaken; [apply (search_loop_ok L v _ 0 (length L)); [done|lia|done|by left|unfold zlen; lia]|done|].
  intros o L' [-> Ho]. apply triple_ret. destruct o as [i|]; [|by apply Hout]. destruct Ho as (A & r & C & HLA & -> & Hv'). by apply (Hin A r C).
Qed.
End reads.
