(* ===== verification/McbAdd.v ===== *)
(** * Adding runs

    Replacing runs inside a list, adding one after the last or into a hole, and
    [FsRtlAddLargeMcbEntry]. *)

From stdpp Require Import base list list_tactics numbers option.
From S2P Require Import Prelude Mcb McbRuns McbLogic.

(** The new list maps the [c] blocks from [v] on as [g] does, the others as before. *)
Definition changes (L L' : list MAPPING) (v c : Z) (g : Z → option Z) : Prop :=
  ∀ x, 0 ≤ x → lbn_of L' x = if (v <=? x) && (x <? v + c) then g x else lbn_of L x.

Lemma out_cons s e e' r L : out s e (r :: L) = out s e' (r :: L).
Proof. done. Qed.

(** [X] becomes [X'] between [A] and [C]. *)
Lemma replace_runs A X X' C :
  runs (A ++ X ++ C) →
  (let s := fin 0 A in let e := out 0 Outside A in
   seg s e X' ∧ (C = [] ∨ fin s X' = fin s X) ∧ apart (out s e X') (first_edge C)) →
  runs (A ++ X' ++ C).
Proof.
  intros [HL Hend] (HX & Hfin & Hap). rewrite seg_mid in HL. destruct HL as (HA & _ & HC).
  rewrite !out_app in Hend. split.
  - rewrite seg_mid. split_and!; [done|done|]. destruct C as [|r C]; [done|]. destruct Hfin as [?|Hfin]; [done|].
    rewrite Hfin. eapply seg_edge; [done|]. by left.
  - rewrite !out_app. destruct C as [|r C]; [done|]. destruct Hfin as [?|Hfin]; [done|].
    rewrite Hfin. erewrite out_cons. apply Hend.
Qed.

Lemma replace_changes A X X' C v c g :
  runs (A ++ X ++ C) → runs (A ++ X' ++ C) →
  (let s := fin 0 A in
   s ≤ v ∧ (C = [] ∨ fin s X' = fin s X ∧ v + c ≤ fin s X) ∧
   ∀ x, s ≤ x → (C = [] ∨ x < fin s X) → vlbn s X' x = if (v <=? x) && (x <? v + c) then g x else vlbn s X x) →
  changes (A ++ X ++ C) (A ++ X' ++ C) v c g.
Proof.
  intros [HL _] [HL' _] (Hv & Hc & Heq) x Hx. unfold lbn_of.
  rewrite seg_mid in HL, HL'. destruct HL as (HA & HX & HC), HL' as (_ & HX' & HC').
  rewrite !(vlbn_app 0 Outside A) by done. destruct (Z.ltb_spec x (fin 0 A)) as [Hlt|Hge].
  { rewrite (proj2 (Z.leb_gt v x)) by lia. done. }
  destruct Hc as [->|[Hfin Hc]].
  { rewrite !app_nil_r. apply Heq; [done|by left]. }
  rewrite (vlbn_app _ _ _ C x HX), (vlbn_app _ _ _ C x HX') by done. rewrite Hfin.
  destruct (Z.ltb_spec x (fin (fin 0 A) X)) as [Hlt|Hge']; [apply Heq; [done|by right]|].
  rewrite (proj2 (Z.ltb_ge x (v + c))), andb_false_r by lia. done.
Qed.

Definition edited (L L' : list MAPPING) (v c : Z) (g : Z → option Z) : Prop := runs L' ∧ changes L L' v c g.

Lemma edited_intro A X X' C v c g :
  runs (A ++ X ++ C) →
  (let s := fin 0 A in let e := out 0 Outside A in
   seg s e X' ∧ apart (out s e X') (first_edge C) ∧ s ≤ v ∧ (C = [] ∨ fin s X' = fin s X ∧ v + c ≤ fin s X) ∧
   ∀ x, s ≤ x → (C = [] ∨ x < fin s X) →
     vlbn s X' x = if (v <=? x) && (x <? v + c) then g x else vlbn s X x) →
  edited (A ++ X ++ C) (A ++ X' ++ C) v c g.
Proof.
  intros HL (HX & Hap & Hv & Hc & Heq). assert (HL' : runs (A ++ X' ++ C)).
  { apply (replace_runs A X); [done|]. split_and!; [done| |done]. tauto. }
  split; [done|]. by apply replace_changes.
Qed.

(** The run before a border at which a logical block is continued. *)
Lemma out_At A l :
  seg 0 Outside A → out 0 Outside A = At l →
  ∃ A0 p, A = A0 ++ [p] ∧ ¬ hole p ∧ l = Lbn p + (NextVbn p - fin 0 A0).
Proof.
  intros HA Hout. destruct A as [|p A _] using rev_ind; [done|]. rewrite out_app in Hout. simpl in Hout. unfold leave in Hout.
  case_decide; [done|]. injection Hout as <-. by exists A, p.
Qed.

(** A hole is not at the end, and a run follows it. *)
Lemma after_hole A h C :
  runs (A ++ h :: C) → hole h → ∃ r C', C = r :: C' ∧ ¬ hole r.
Proof.
  intros [HL Hend] Hh. rewrite out_app in Hend. rewrite seg_app in HL. destruct HL as (_ & _ & _ & HC).
  simpl in Hend. unfold leave in *. rewrite decide_True in * by done. destruct C as [|r C]; [done|]. exists r, C. split; [done|].
  intros Hr. destruct HC as (_ & Hap & _). unfold enter in Hap. by rewrite decide_True in Hap.
Qed.

Lemma runs_apart A C : runs (A ++ C) → apart (out 0 Outside A) (first_edge C).
Proof.
  intros [HL Hend]. rewrite seg_app in HL. rewrite out_app in Hend. destruct C as [|r C]; [done|]. by destruct HL as (_ & _ & ? & _).
Qed.

(** [solve_hole] decides whether a run whose parts are known is a hole, [holes] uses it
    in the goal, and [solve_runs] proves what is left about a few runs. *)
Ltac solve_hole := unfold hole in *; simpl in *; unfold UNUSED_LBN in *; lia.

Ltac holes :=
  repeat match goal with
  | |- context [decide (hole ?r)] =>
      first [rewrite (decide_True (P := hole r)) by solve_hole | rewrite (decide_False (P := hole r)) by solve_hole]
  end.

Ltac solve_good := split; simpl; [lia|first [left; solve_hole|right; lia]].

Ltac solve_runs :=
  cbv zeta; cbn [app seg fin out vlbn first_edge NextVbn Lbn modify_field]; unfold enter, leave; simpl; holes;
  repeat match goal with |- _ ∧ _ => split end; simpl;
  try done; try lia; try solve_good; try (left; done);
  try (right; lia);
  try (intros x Hx; intros; holes; split_tests; simpl; (done || lia || (f_equal; lia))).

(** *** Tests on borders *)

Lemma continues_last e l c : 0 < l → l + c ≤ UNUSED_LBN → 0 < c →
  (∀ l', e = At l' → 0 < l' ≤ UNUSED_LBN) → (last_lbn e +u 1 =? l) = true ↔ e = At l.
Proof.
  intros Hl Hc Hpos He. unfold UNUSED_LBN in *. rewrite Z.eqb_eq. destruct e as [| |l']; simpl.
  - change (UNUSED_LBN +u 1) with 0. split; [lia|done].
  - change (UNUSED_LBN +u 1) with 0. split; [lia|done].
  - specialize (He l' eq_refl). rewrite u32_small by lia. split; [intros; f_equal; lia|intros [= ->]; lia].
Qed.

Lemma continues_first e l : 0 ≤ l < UNUSED_LBN → (first_lbn e =? l) = true ↔ e = At l.
Proof.
  intros Hl. rewrite Z.eqb_eq. destruct e as [| |l']; simpl; [split; [lia|done]..|].
  split; [by intros ->|by intros [= ->]].
Qed.

Lemma out_range A l' : seg 0 Outside A → out 0 Outside A = At l' → 0 < l' ≤ UNUSED_LBN.
Proof.
  intros HA Hout. destruct (out_At A l' HA Hout) as (A0 & p & -> & Hp & ->). apply seg_app in HA as (HA0 & [Hr Hl] & _).
  destruct Hl as [?|Hl]; [done|]. pose proof (seg_le _ _ _ HA0). lia.
Qed.

(** ** Adding a run *)

(** The new run: [c] sectors from the block [v] on, at the logical block [l]. *)
Definition new_run (v l c : Z) : Prop := 0 ≤ v ∧ 0 < c ∧ v + c < 2 ^ 32 ∧ 0 < l ∧ l + c ≤ UNUSED_LBN.

Definition added (L L' : list MAPPING) (v l c : Z) : Prop :=
  edited L L' v c (λ x, Some (l + (x - v))).

Lemma added_intro A X X' C v l c :
  runs (A ++ X ++ C) →
  (let s := fin 0 A in let e := out 0 Outside A in
   seg s e X' ∧ apart (out s e X') (first_edge C) ∧ s ≤ v ∧ (C = [] ∨ fin s X' = fin s X ∧ v + c ≤ fin s X) ∧
   ∀ x, s ≤ x → (C = [] ∨ x < fin s X) →
     vlbn s X' x = if (v <=? x) && (x <? v + c) then Some (l + (x - v)) else vlbn s X x) →
  added (A ++ X ++ C) (A ++ X' ++ C) v l c.
Proof. apply edited_intro. Qed.

Section add.
Context (pool : NONOPAQUE_MCB → Z → option (Z → MAPPING)).

Abbreviation same L := (λ L', L' = L ∧ starved pool L').
Abbreviation adds L v l c := (λ b L', b = true ∧ added L L' v l c).

Lemma add_grow A p v l c :
  new_run v l c → runs (A ++ [p]) → NextVbn p = v → ¬ hole p → l = Lbn p + (NextVbn p - fin 0 A) →
  added (A ++ [p]) (A ++ [p <| NextVbn := v + c |>]) v l c.
Proof.
  intros (Hv & Hc & Hvc & Hl & Hlc) HL Hp Hh ->.
  pose proof HL as [HL' _]. apply seg_app in HL' as (HA & [Hr Hlb] & Hap & _). destruct Hlb as [?|Hlb]; [done|].
  apply (added_intro A [p] [p <| NextVbn := v + c |>] [] v); [done|]. cbv zeta. split_and!.
  - split_and!; [|done|done]. split; simpl; [lia|]. right. lia.
  - simpl. unfold leave. simpl. by rewrite decide_False.
  - lia.
  - by left.
  - intros x Hx _. simpl. holes. split_tests; simpl; try lia; try done; f_equal; lia.
Qed.

Lemma add_next L v l c :
  new_run v l c → runs L → fin 0 L = v → out 0 Outside L ≠ At l →
  added L (L ++ [mkMapping (v + c) l]) v l c.
Proof.
  intros (Hv & Hc & Hvc & Hl & Hlc) HL Hfin Hout. pose proof HL as [HL' Hend].
  pose proof (added_intro L [] [mkMapping (v + c) l] [] v l c) as H. simpl in H. rewrite app_nil_r in H. apply H; [done|]. clear H.
  assert (Hnh : ¬ hole (mkMapping (v + c) l)) by (unfold hole; simpl; unfold UNUSED_LBN in *; lia). split_and!.
  - split; simpl; [lia|]. right. lia.
  - unfold enter. rewrite decide_False by done. simpl. destruct (out 0 Outside L); simpl; [done|done|congruence].
  - done.
  - unfold leave. by rewrite decide_False.
  - lia.
  - by left.
  - intros x Hx _. rewrite decide_False by done. subst v. split_tests; simpl; try lia; done.
Qed.

Lemma add_behind_hole L v l c :
  new_run v l c → runs L → fin 0 L < v →
  added L (L ++ [mkMapping v UNUSED_LBN; mkMapping (v + c) l]) v l c.
Proof.
  intros (Hv & Hc & Hvc & Hl & Hlc) HL Hfin. pose proof HL as [HL' Hend]. pose proof (seg_le _ _ _ HL').
  pose proof (added_intro L [] [mkMapping v UNUSED_LBN; mkMapping (v + c) l] [] v l c) as H1. simpl in H1. rewrite app_nil_r in H1.
  apply H1; [done|]. clear H1. assert (Hh : hole (mkMapping v UNUSED_LBN)) by done.
  assert (Hnh : ¬ hole (mkMapping (v + c) l)) by (unfold hole; simpl; unfold UNUSED_LBN in *; lia).
  unfold enter, leave. rewrite !(decide_True (P := hole (mkMapping v UNUSED_LBN))), !(decide_False (P := hole (mkMapping (v + c) l))) by done. simpl.
  split_and!; try done; try lia.
  - split; simpl; [lia|by left].
  - split; simpl; [lia|]. right. lia.
  - by left.
  - intros x Hx _. rewrite decide_False by done. split_tests; simpl; try lia; done.
Qed.

Lemma fin_pos A r : seg 0 Outside (A ++ [r]) → 0 < fin 0 (A ++ [r]).
Proof. intros H. pose proof (seg_fin _ _ _ H) as Hf. rewrite zlen_app' in Hf. change (zlen [r]) with 1 in Hf. pose proof (zlen_nonneg' A). lia. Qed.

Lemma previous_vbn L : seg 0 Outside L → (fin 0 L -u 1) +u 1 = fin 0 L.
Proof.
  intros HL. pose proof (seg_le _ _ _ HL). pose proof (seg_max 0 _ _ ltac:(lia) HL). unfold u32.
  rewrite Zplus_mod_idemp_l. rewrite Z.mod_small; lia.
Qed.

Lemma index_one {X} (x y : X) A : zlen (A ++ [x; y]) < 2 ^ 28 → zlen A +u 1 = zlen (A ++ [x]).
Proof.
  rewrite !zlen_app', !zlen_cons', zlen_nil'. pose proof (zlen_nonneg' A). intros. rewrite u32_small; lia.
Qed.

(** *** Writing the new entries *)

Lemma write_one L A j C v l R Q :
  L = A ++ j :: C → Q true (A ++ mkMapping v l :: C) →
  triple L (set_Lbn (zlen A) l;; set_NextVbn (zlen A) v;; ret true) R Q.
Proof.
  intros -> H. apply triple_bind, triple_update; [done|]. apply triple_bind, triple_update; [done|]. by apply triple_ret.
Qed.

Lemma write_two L A j k C v l v' l' i R Q :
  L = A ++ j :: k :: C → i = zlen A + 1 → Q true (A ++ mkMapping v l :: mkMapping v' l' :: C) →
  triple L (set_Lbn (zlen A) l;; set_NextVbn (zlen A) v;; set_Lbn i l';; set_NextVbn i v';; ret true) R Q.
Proof.
  intros -> -> H. apply triple_bind, triple_update; [done|]. apply triple_bind, triple_update; [done|]. simpl.
  change (mkMapping v l :: k :: C) with ([mkMapping v l] ++ k :: C). rewrite app_assoc.
  replace (zlen A + 1) with (zlen (A ++ [mkMapping v l])) by (by rewrite zlen_app').
  eapply write_one; [done|]. by rewrite <- app_assoc.
Qed.

Lemma add_at_end_ok L v l c :
  new_run v l c → runs L → fin 0 L ≤ v →
  triple L (add_at_end pool (zlen L) v l c) (same L) (adds L v l c).
Proof.
  intros Hn HL Hfin. pose proof HL as [HL' Hend]. apply triple_bound. intros Hb. unfold add_at_end.
  pose proof Hn as (Hv & Hc & Hvc & Hl & Hlc).
  assert (Hgrow : triple L (andM (ret (negb (zlen L =? 0)))
    (andM (let* e := PreviousEndingVbn (zlen L) in ret (e +u 1 =? v))
          (let* p := PreviousEndingLbn (zlen L) in ret (p +u 1 =? l)))) (same L)
    (λ b L', L' = L ∧ (b = true ↔ fin 0 L = v ∧ out 0 Outside L = At l))).
  { unfold andM. apply triple_bind, triple_ret. destruct L as [|p A _] using rev_ind.
    { simpl. apply triple_ret. split; [done|]. split; [done|]. by intros [_ ?]. }
    rewrite index_nonzero. simpl. apply triple_bind, triple_bind, (triple_PreviousEndingVbn _ _ (A ++ [p]) []); [by rewrite app_nil_r|done|].
    apply triple_ret. rewrite previous_vbn by done. destruct (Z.eqb_spec (fin 0 (A ++ [p])) v) as [Heq|Hne].
    - apply triple_bind, (triple_PreviousEndingLbn _ _ (A ++ [p]) []); [by rewrite app_nil_r|done|done|]. apply triple_ret.
      split; [done|]. rewrite (continues_last _ l c) by (done || (intros; by eapply out_range)). tauto.
    - apply triple_ret. split; [done|]. split; [done|]. by intros [? _]. }
  apply triple_bind. eapply triple_weaken; [exact Hgrow|done|]. intros b L' [-> Hb'].
  destruct b.
  - destruct Hb' as [[Hf Ho] _]; [done|]. destruct (out_At L l HL' Ho) as (A & p & -> & Hp & Hlp).
    apply triple_bind, triple_PairCount. rewrite index_pred by done.
    assert (Hpv : NextVbn p = v) by (by rewrite fin_app in Hf).
    apply triple_bind, triple_entry; [done|]. apply triple_bind, triple_update; [done|]. apply triple_ret. split; [done|].
    rewrite Hpv, u32_small by lia. by apply add_grow.
  - assert (Hno : ¬ (fin 0 L = v ∧ out 0 Outside L = At l)) by (intros H; by apply Hb' in H).
    apply triple_bind. eapply triple_weaken with (R := same L) (Q := λ b L', L' = L ∧ (b = true ↔ fin 0 L = v)); [|done|].
    + unfold orM. apply triple_bind, triple_ret. destruct (Z.eqb_spec v 0) as [->|Hv0].
      { apply triple_ret. split; [done|]. pose proof (seg_le _ _ _ HL'). split; [lia|done]. }
      apply triple_bind, (triple_PreviousEndingVbn _ _ L []); [by rewrite app_nil_r|done|]. apply triple_ret. split; [done|].
      by rewrite previous_vbn, Z.eqb_eq by done.
    + intros b L' [-> Hbv]. rewrite !(u32_small (v + c)) by lia. destruct b.
      * assert (fin 0 L = v) by (by apply Hbv).
        rewrite <- (app_nil_r L) at 1. apply triple_bind, triple_add; [lia| |by rewrite app_nil_r]. intros J HJ.
        destruct J as [|j [|? ?]]; [done| |done]. rewrite app_nil_r. eapply write_one; [done|]. split; [done|]. apply add_next; tauto.
      * assert (fin 0 L ≠ v) by (intros H; by apply Hbv in H).
        rewrite <- (app_nil_r L) at 1. apply triple_bind, triple_add; [lia| |by rewrite app_nil_r]. intros J HJ.
        destruct J as [|j [|k [|? ?]]]; [done|done| |done]. rewrite app_nil_r.
        eapply write_two; [done|by apply index_succ|]. split; [done|]. apply add_behind_hole; [done|done|lia].
Qed.
End add.

(** ** Filling a hole *)

(** ** Lists *)

Section lists.
Context (A : list MAPPING) (h r : MAPPING) (C : list MAPPING) (v l c : Z).
Hypothesis HL : runs (A ++ h :: r :: C).
Hypothesis Hh : hole h.
Hypothesis Hn : new_run v l c.
Hypothesis Hs : fin 0 A ≤ v.
Hypothesis Hv : v + c ≤ NextVbn h.

Lemma hole_parts :
  ¬ hole r ∧ fin 0 A < NextVbn h < NextVbn r ∧ NextVbn r < 2 ^ 32 ∧ 0 ≤ fin 0 A ∧ 0 < Lbn r ∧
  Lbn r + (NextVbn r - NextVbn h) ≤ UNUSED_LBN ∧ out 0 Outside A ≠ Hole.
Proof using HL Hh.
  destruct (after_hole A h (r :: C) HL Hh) as (r' & C' & [= <- <-] & Hr). destruct HL as [HL' _].
  apply seg_app in HL' as (HA & [Hh1 _] & Hap & [Hr1 Hr2] & _). pose proof (seg_le _ _ _ HA). destruct Hr2 as [?|Hr2]; [done|].
  unfold enter in Hap. rewrite decide_True in Hap by done. split_and!; try done; try lia. intros Heq. by rewrite Heq in Hap.
Qed.

Ltac parts := destruct hole_parts as (Hr & HN & HM & H0 & Hl0 & Hl1 & He); destruct Hn as (Hv0 & Hc & Hvc & Hl & Hlc).

Lemma fill_both :
  fin 0 A < v → v + c < NextVbn h →
  added (A ++ h :: r :: C) (A ++ mkMapping v UNUSED_LBN :: mkMapping (v + c) l :: h :: r :: C) v l c.
Proof using HL Hh Hn Hs Hv.
  intros H1 H2. parts. apply (added_intro A [h] [mkMapping v UNUSED_LBN; mkMapping (v + c) l; h] (r :: C)); [done|].
  solve_runs; by destruct (out 0 Outside A).
Qed.

Lemma fill_front :
  fin 0 A = v → v + c < NextVbn h → out 0 Outside A ≠ At l →
  added (A ++ h :: r :: C) (A ++ mkMapping (v + c) l :: h :: r :: C) v l c.
Proof using HL Hh Hn Hs Hv.
  intros H1 H2 H3. parts. apply (added_intro A [h] [mkMapping (v + c) l; h] (r :: C)); [done|].
  solve_runs. destruct (out 0 Outside A); simpl; [done|done|congruence].
Qed.

Lemma fill_rear :
  fin 0 A < v → v + c = NextVbn h → Lbn r ≠ l + c →
  added (A ++ h :: r :: C) (A ++ mkMapping v UNUSED_LBN :: h <| Lbn := l |> :: r :: C) v l c.
Proof using HL Hh Hn Hs Hv.
  intros H1 H2 H3. parts. apply (added_intro A [h] [mkMapping v UNUSED_LBN; h <| Lbn := l |>] (r :: C)); [done|].
  solve_runs; by destruct (out 0 Outside A).
Qed.

Lemma fill_rear_grow :
  fin 0 A < v → v + c = NextVbn h → Lbn r = l + c →
  added (A ++ h :: r :: C) (A ++ h <| NextVbn := v |> :: r <| Lbn := l |> :: C) v l c.
Proof using HL Hh Hn Hs Hv.
  intros H1 H2 H3. parts. pose proof (runs_apart (A ++ [h; r]) C) as Hap. rewrite <- app_assoc in Hap. specialize (Hap HL).
  rewrite out_app in Hap. cbn [out] in Hap. unfold leave in Hap. rewrite decide_False in Hap by done.
  apply (added_intro A [h; r] [h <| NextVbn := v |>; r <| Lbn := l |>] C); [done|].
  solve_runs; [by destruct (out 0 Outside A)|]. replace (l + (NextVbn r - v)) with (Lbn r + (NextVbn r - NextVbn h)) by lia. done.
Qed.

Lemma fill_all :
  fin 0 A = v → v + c = NextVbn h → Lbn r ≠ l + c → out 0 Outside A ≠ At l →
  added (A ++ h :: r :: C) (A ++ h <| Lbn := l |> :: r :: C) v l c.
Proof using HL Hh Hn Hs Hv.
  intros H1 H2 H3 H4. parts. apply (added_intro A [h] [h <| Lbn := l |>] (r :: C)); [done|].
  solve_runs. destruct (out 0 Outside A); simpl; [done|done|congruence].
Qed.

Lemma fill_all_next :
  fin 0 A = v → v + c = NextVbn h → Lbn r = l + c → out 0 Outside A ≠ At l →
  added (A ++ h :: r :: C) (A ++ r <| Lbn := l |> :: C) v l c.
Proof using HL Hh Hn Hs Hv.
  intros H1 H2 H3 H4. parts. pose proof (runs_apart (A ++ [h; r]) C) as Hap. rewrite <- app_assoc in Hap. specialize (Hap HL).
  rewrite out_app in Hap. cbn [out] in Hap. unfold leave in Hap. rewrite decide_False in Hap by done.
  apply (added_intro A [h; r] [r <| Lbn := l |>] C); [done|].
  solve_runs; [destruct (out 0 Outside A); simpl; [done|done|congruence]|].
  replace (l + (NextVbn r - fin 0 A)) with (Lbn r + (NextVbn r - NextVbn h)) by lia. done.
Qed.
End lists.

Section continued.
Context (A : list MAPPING) (p h r : MAPPING) (C : list MAPPING) (v l c : Z).
Hypothesis HL : runs ((A ++ [p]) ++ h :: r :: C).
Hypothesis Hh : hole h.
Hypothesis Hn : new_run v l c.
Hypothesis Hp : ¬ hole p.
Hypothesis Hl : l = Lbn p + (NextVbn p - fin 0 A).
Hypothesis Hs : NextVbn p = v.
Hypothesis Hv : v + c ≤ NextVbn h.

Lemma continued_parts : good (fin 0 A) p ∧ 0 ≤ fin 0 A ∧ apart (out 0 Outside A) (At (Lbn p)).
Proof using HL Hp.
  destruct HL as [HL' _]. rewrite <- app_assoc in HL'. apply seg_app in HL' as (HA & Hg & Hap & _).
  pose proof (seg_le _ _ _ HA). unfold enter in Hap. by rewrite decide_False in Hap.
Qed.

Ltac parts :=
  destruct (hole_parts (A ++ [p]) h r C HL Hh) as (Hr & HN & HM & H0 & Hl0 & Hl1 & He); rewrite fin_app in *;
  destruct continued_parts as ([Hp1 Hp2] & Hp0 & Hap0);
  destruct Hp2 as [?|Hp2]; [done|]; destruct Hn as (Hv0 & Hc & Hvc & Hlp & Hlc); cbn [fin] in *.

Lemma fill_front_grow :
  v + c < NextVbn h →
  added ((A ++ [p]) ++ h :: r :: C) (A ++ p <| NextVbn := v + c |> :: h :: r :: C) v l c.
Proof using HL Hh Hn Hp Hl Hs Hv.
  intros H2. parts. rewrite <- app_assoc in *. apply (added_intro A [p; h] [p <| NextVbn := v + c |>; h] (r :: C)); [done|].
  solve_runs.
Qed.

Lemma fill_all_prev :
  v + c = NextVbn h → Lbn r ≠ l + c →
  added ((A ++ [p]) ++ h :: r :: C) (A ++ p <| NextVbn := NextVbn h |> :: r :: C) v l c.
Proof using HL Hh Hn Hp Hl Hs Hv.
  intros H2 H3. parts. rewrite <- app_assoc in *. apply (added_intro A [p; h] [p <| NextVbn := NextVbn h |>] (r :: C)); [done|].
  solve_runs.
Qed.

Lemma fill_all_both :
  v + c = NextVbn h → Lbn r = l + c →
  added ((A ++ [p]) ++ h :: r :: C) (A ++ p <| NextVbn := NextVbn r |> :: C) v l c.
Proof using HL Hh Hn Hp Hl Hs Hv.
  intros H2 H3. parts. rewrite <- app_assoc in *. pose proof (runs_apart (A ++ [p; h; r]) C) as Hap. rewrite <- app_assoc in Hap. specialize (Hap HL).
  rewrite out_app in Hap. cbn [out] in Hap. unfold leave in Hap. rewrite (decide_False (P := hole r)) in Hap by done.
  apply (added_intro A [p; h; r] [p <| NextVbn := NextVbn r |>] C); [done|].
  solve_runs. replace (Lbn p + (NextVbn r - fin 0 A)) with (Lbn r + (NextVbn r - NextVbn h)) by lia. done.
Qed.
End continued.

(** ** The operation *)

Section fill.
Context (pool : NONOPAQUE_MCB → Z → option (Z → MAPPING)).

Abbreviation same L := (λ L', L' = L ∧ starved pool L').
Abbreviation adds L v l c := (λ b L', b = true ∧ added L L' v l c).

Lemma index_next {X} (A : list X) x : zlen A < 2 ^ 28 → zlen A +u 1 = zlen (A ++ [x]).
Proof. intros H. rewrite index_succ by done. by rewrite zlen_app'. Qed.

Lemma triple_update' L A x C i f R Q :
  L = A ++ x :: C → i = zlen A → Q tt (A ++ f x :: C) → triple L (update i f) R Q.
Proof. intros -> Hi H. by apply triple_update. Qed.

Lemma triple_add' L A C a R Q :
  L = A ++ C → 0 ≤ a ≤ 2 → (∀ J, length J = Z.to_nat a → Q tt (A ++ J ++ C)) → (starved pool L → R L) →
  triple L (FsRtlAddLargeEntry pool (zlen A) a) R Q.
Proof. intros -> Ha HJ HR. by apply triple_add. Qed.

Lemma triple_remove' L A B C i a R Q :
  L = A ++ B ++ C → i = zlen A → a = zlen B → Q tt (A ++ C) → triple L (FsRtlRemoveLargeEntry i a) R Q.
Proof. intros -> -> -> H. by apply triple_remove. Qed.

(** No holes are left. *)
Lemma fill_entire_ok A h r C v l c (grow_prev := bool_decide (out 0 Outside A = At l)) (grow_next := bool_decide (Lbn r = l + c)) :
  runs (A ++ h :: r :: C) → hole h → new_run v l c → fin 0 A = v → v + c = NextVbn h → zlen (A ++ h :: r :: C) < 2 ^ 28 →
  triple (A ++ h :: r :: C)
    (if grow_prev && grow_next then
       let* e := entry (zlen A +u 1) in set_NextVbn (zlen A -u 1) (NextVbn e);; FsRtlRemoveLargeEntry (zlen A) 2;; ret true
     else if grow_next then set_Lbn (zlen A +u 1) l;; FsRtlRemoveLargeEntry (zlen A) 1;; ret true
     else if grow_prev then
       let* e := entry (zlen A) in set_NextVbn (zlen A -u 1) (NextVbn e);; FsRtlRemoveLargeEntry (zlen A) 1;; ret true
     else set_Lbn (zlen A) l;; ret true) (same (A ++ h :: r :: C)) (adds (A ++ h :: r :: C) v l c).
Proof.
  intros HL Hh Hn Hs Hv Hb. pose proof HL as [HL' _]. apply seg_app in HL' as (HA & _).
  assert (HbA : zlen A < 2 ^ 28) by (rewrite zlen_app' in Hb; pose proof (zlen_nonneg' (h :: r :: C)); lia).
  unfold grow_prev, grow_next. rewrite (index_next A h) by done.
  destruct (bool_decide_reflect (out 0 Outside A = At l)) as [Ho|Ho], (bool_decide_reflect (Lbn r = l + c)) as [Hr|Hr]; simpl.
  - destruct (out_At A l HA Ho) as (A0 & p & -> & Hp & Hlp). rewrite fin_app in Hs. rewrite index_pred by done.
    apply triple_bind, (triple_entry' _ _ ((A0 ++ [p]) ++ [h]) r C); [by rewrite <- !app_assoc|done|].
    apply triple_bind, (triple_update' _ A0 p (h :: r :: C)); [by rewrite <- !app_assoc|done|].
    apply triple_bind, (triple_remove' _ (A0 ++ [p <| NextVbn := NextVbn r |>]) [h; r] C); [by rewrite <- !app_assoc|by rewrite !zlen_app'|done|].
    apply triple_ret. split; [done|]. rewrite <- (app_assoc A0 [_] C). by apply fill_all_both; try done; lia.
  - destruct (out_At A l HA Ho) as (A0 & p & -> & Hp & Hlp). rewrite fin_app in Hs. rewrite index_pred by done.
    apply triple_bind, (triple_entry' _ _ (A0 ++ [p]) h (r :: C)); [done|done|].
    apply triple_bind, (triple_update' _ A0 p (h :: r :: C)); [by rewrite <- !app_assoc|done|].
    apply triple_bind, (triple_remove' _ (A0 ++ [p <| NextVbn := NextVbn h |>]) [h] (r :: C)); [by rewrite <- !app_assoc|by rewrite !zlen_app'|done|].
    apply triple_ret. split; [done|]. rewrite <- (app_assoc A0 [p <| NextVbn := NextVbn h |>]). by apply fill_all_prev; try done; lia.
  - apply triple_bind, (triple_update' _ (A ++ [h]) r C); [by rewrite <- !app_assoc|done|].
    apply triple_bind, (triple_remove' _ A [h] (r <| Lbn := l |> :: C)); [by rewrite <- !app_assoc|done|done|].
    apply triple_ret. split; [done|]. by apply fill_all_next; try done; lia.
  - apply triple_bind, (triple_update' _ A h (r :: C)); [done|done|]. apply triple_ret. split; [done|]. by apply fill_all; try done; lia.
Qed.

Lemma fill_hole_ok A h C v l c :
  runs (A ++ h :: C) → hole h → new_run v l c → fin 0 A ≤ v → v + c ≤ NextVbn h →
  triple (A ++ h :: C) (fill_hole pool (zlen A) (fin 0 A) (NextVbn h - 1) v l c)
    (same (A ++ h :: C)) (adds (A ++ h :: C) v l c).
Proof.
  intros HL Hh Hn Hs Hv. destruct (after_hole A h C HL Hh) as (r & C' & -> & Hr). rename C' into C.
  destruct (hole_parts A h r C HL Hh) as (_ & HN & HM & H0 & Hl0 & Hl1 & He). pose proof Hn as (Hv0 & Hc & Hvc & Hl & Hlc).
  pose proof HL as [HL' _]. apply seg_app in HL' as (HA & _).
  apply triple_bound. intros Hb. assert (HbA : zlen A < 2 ^ 28) by (rewrite zlen_app' in Hb; pose proof (zlen_nonneg' (h :: r :: C)); lia).
  assert (Hprev : (last_lbn (out 0 Outside A) +u 1 =? l) = bool_decide (out 0 Outside A = At l)).
  { apply bool_eq_true. rewrite (continues_last _ l c) by (done || (intros; by eapply out_range)). by rewrite bool_decide_eq_true. }
  assert (Hedge : first_lbn (first_edge (r :: C)) = Lbn r) by (simpl; unfold enter; by rewrite decide_False).
  unfold fill_hole. cbv zeta. rewrite (u32_small (v + c - 1)), (u32_small (v + c)), (u32_small (l + c)) by (unfold UNUSED_LBN in *; lia).
  destruct (Z.ltb_spec (fin 0 A) v) as [Hlt|Hge], (Z.ltb_spec (v + c - 1) (NextVbn h - 1)) as [Hlt'|Hge'].
  - rewrite (proj2 (Z.eqb_neq _ _)) by lia. simpl. apply triple_bind, (triple_add' _ A (h :: r :: C)); [done|lia| |done]. intros J HJ.
    destruct J as [|j [|k [|? ?]]]; [done|done| |done]. eapply write_two; [done|by apply index_succ|]. split; [done|].
    by apply fill_both; try done; lia.
  - rewrite (proj2 (Z.eqb_neq _ _)) by lia. rewrite (proj2 (Z.eqb_eq _ _)) by lia. simpl.
    apply triple_bind, (triple_NextStartingLbn _ _ A h (r :: C)); [done|done|]. rewrite Hedge.
    destruct (Z.eqb_spec (Lbn r) (l + c)) as [Heq|Hne].
    + apply triple_bind, (triple_update' _ A h (r :: C)); [done|done|]. rewrite (index_next A h) by done.
      apply triple_bind, (triple_update' _ (A ++ [h <| NextVbn := v |>]) r C); [by rewrite <- !app_assoc|by rewrite !zlen_app'|].
      apply triple_ret. split; [done|]. rewrite <- (app_assoc A [_]). by apply fill_rear_grow; try done; lia.
    + apply triple_bind, (triple_add' _ A (h :: r :: C)); [done|lia| |done]. intros J HJ.
      destruct J as [|j [|? ?]]; [done| |done]. simpl.
      apply triple_bind, (triple_update' _ A j (h :: r :: C)); [done|done|].
      apply triple_bind, triple_update; [done|]. rewrite (index_next A j) by done.
      apply triple_bind, (triple_update' _ (A ++ [mkMapping v UNUSED_LBN]) h (r :: C)); [by rewrite <- !app_assoc|by rewrite !zlen_app'|].
      apply triple_ret. split; [done|]. rewrite <- (app_assoc A [_]). by apply fill_rear; try done; lia.
  - rewrite (proj2 (Z.eqb_eq _ _)) by lia. simpl. apply triple_bind, (triple_PreviousEndingLbn _ _ A (h :: r :: C)); [done|done|done|].
    rewrite Hprev. destruct (bool_decide_reflect (out 0 Outside A = At l)) as [Ho|Ho].
    + destruct (out_At A l HA Ho) as (A0 & p & -> & Hp & Hlp). rewrite index_pred by done. rewrite fin_app in *. cbn [fin] in *.
      apply triple_bind, (triple_entry' _ _ A0 p (h :: r :: C)); [by rewrite <- !app_assoc|done|].
      apply triple_bind, (triple_update' _ A0 p (h :: r :: C)); [by rewrite <- !app_assoc|done|].
      apply triple_ret. split; [done|]. rewrite u32_small by lia. replace (NextVbn p + c) with (v + c) by lia.
      by apply fill_front_grow; try done; lia.
    + apply triple_bind, (triple_add' _ A (h :: r :: C)); [done|lia| |done]. intros J HJ. destruct J as [|j [|? ?]]; [done| |done].
      eapply write_one; [done|]. split; [done|]. by apply fill_front; try done; lia.
  - rewrite (proj2 (Z.eqb_eq _ _)) by lia. simpl.
    apply triple_bind, (triple_PreviousEndingLbn _ _ A (h :: r :: C)); [done|done|done|].
    apply triple_bind, (triple_NextStartingLbn _ _ A h (r :: C)); [done|done|]. rewrite Hprev, Hedge.
    replace (Lbn r =? l + c) with (bool_decide (Lbn r = l + c)) by (apply bool_eq_true; by rewrite Z.eqb_eq, bool_decide_eq_true).
    apply fill_entire_ok; try done; lia.
Qed.
End fill.

(** ** [FsRtlAddLargeMcbEntry] *)

(** No block of the range is mapped. *)
Definition free (L : list MAPPING) (v c : Z) : Prop := ∀ x, v ≤ x < v + c → lbn_of L x = None.

(** The blocks of the range that are mapped are mapped as in the new run. *)
Definition agrees (L : list MAPPING) (v l c : Z) : Prop :=
  ∀ x y, v ≤ x < v + c → lbn_of L x = Some y → y = l + (x - v).

Lemma lbn_at A r C x :
  seg 0 Outside (A ++ r :: C) → fin 0 A ≤ x < NextVbn r →
  lbn_of (A ++ r :: C) x = if decide (hole r) then None else Some (Lbn r + (x - fin 0 A)).
Proof.
  intros HL Hx. apply seg_app in HL as (HA & _). pose proof (seg_le _ _ _ HA). unfold lbn_of.
  rewrite (vlbn_app 0 Outside) by (done || lia). rewrite (proj2 (Z.ltb_ge _ _)) by lia. by apply vlbn_in.
Qed.

Lemma lbn_end L x : seg 0 Outside L → fin 0 L ≤ x → lbn_of L x = None.
Proof. apply vlbn_end. Qed.

(** The range begins in a hole but does not end there. *)
Lemma not_free A r C v c :
  runs (A ++ r :: C) → fin 0 A ≤ v < NextVbn r → 0 < c → ¬ hole r ∨ NextVbn r < v + c → ¬ free (A ++ r :: C) v c.
Proof.
  intros HL Hv Hc Hor Hfree. pose proof HL as [HL' _]. destruct (decide (hole r)) as [Hh|Hh].
  - destruct Hor as [?|Hlt]; [done|]. destruct (after_hole A r C HL Hh) as (r' & C' & -> & Hr').
    specialize (Hfree (NextVbn r) ltac:(lia)). change (r :: r' :: C') with ([r] ++ r' :: C') in *. rewrite app_assoc in *.
    rewrite lbn_at in Hfree; [by rewrite decide_False in Hfree|done|]. rewrite fin_app. simpl.
    apply seg_app in HL' as (_ & [Hr _] & _). rewrite fin_app in Hr. simpl in Hr. lia.
  - specialize (Hfree v ltac:(lia)). rewrite lbn_at in Hfree by done. by rewrite decide_False in Hfree.
Qed.

(** [TRUE]: the whole range is mapped; [FALSE]: a part of it already was, and the list
    is as before. *)
Definition outcome (L : list MAPPING) (v l c : Z) (b : bool) (L' : list MAPPING) : Prop :=
  if b then added L L' v l c else ¬ free L v c ∧ L' = L.

Section entry.
Context (pool : NONOPAQUE_MCB → Z → option (Z → MAPPING)).

Abbreviation same L := (λ L', L' = L ∧ starved pool L').

Lemma add_run_ok L v l c :
  runs L → new_run v l c →
  triple L (add_run pool v l c) (same L) (outcome L v l c).
Proof.
  intros HL Hn. pose proof HL as [HL' _]. pose proof Hn as (Hv & Hc & Hvc & Hl & Hlc). unfold add_run.
  assert (Hend : fin 0 L ≤ v → triple L (add_at_end pool (zlen L) v l c) (same L) (outcome L v l c)).
  { intros Hf. eapply triple_weaken; [by apply add_at_end_ok|done|]. by intros b L' [-> ?]. }
  apply triple_bind, triple_PairCount.
  apply triple_bind. eapply triple_weaken with (R := same L) (Q := λ b L', L' = L ∧ (b = true ↔ fin 0 L ≤ v)); [|done|].
  { unfold orM. apply triple_bind, triple_ret. destruct (Z.eqb_spec (zlen L) 0) as [H0|H0].
    - apply triple_ret. split; [done|]. destruct L; [simpl; split; [lia|done]|]. unfold zlen in H0. simpl in H0. lia.
    - apply triple_bind, (triple_PreviousEndingVbn _ _ L []); [by rewrite app_nil_r|done|]. apply triple_ret. split; [done|].
      rewrite previous_vbn by done. apply Z.leb_le. }
  intros b L' [-> Hb]. destruct b; [by apply Hend, Hb|].
  apply triple_bind, triple_find; [done|lia| |by intros Hf; apply Hend]. intros A r C -> Hin. simpl.
  apply triple_bind, (triple_StartingLbn _ _ A r C); [done|done|].
  apply triple_bind, (triple_StartingVbn _ _ A (r :: C)); [done|done|].
  apply triple_bind, (triple_EndingVbn _ _ A r C); [done|done|].
  pose proof HL' as (HA & [Hr _] & _)%seg_app. pose proof (seg_le _ _ _ HA).
  rewrite (u32_small (NextVbn r - 1)), (u32_small (v + c - 1)) by lia. rewrite (proj2 (Z.leb_le (fin 0 A) v)) by lia.
  destruct (Z.eqb_spec (Lbn r) UNUSED_LBN) as [Hh|Hh], (Z.leb_spec (v + c - 1) (NextVbn r - 1)) as [Hle|Hgt]; simpl;
    try (apply triple_ret; split; [|done]; apply not_free; [done|done|done|first [by left|right; lia]]).
  eapply triple_weaken; [by apply fill_hole_ok; try done; lia|done|]. by intros b L' [-> ?].
Qed.

Lemma added_more L L' v l c w d :
  added L L' w (l + (w - v)) d → v ≤ w → 0 ≤ v → w + d ≤ v + c →
  (∀ x, v ≤ x < v + c → ¬ (w ≤ x < w + d) → lbn_of L x = Some (l + (x - v))) → added L L' v l c.
Proof.
  intros [HL' Hch] Hvw Hv Hwd Hin. split; [done|]. intros x Hx. rewrite (Hch x Hx).
  destruct (Z.leb_spec w x), (Z.ltb_spec x (w + d)), (Z.leb_spec v x), (Z.ltb_spec x (v + c)); simpl; try lia; try done;
    try (f_equal; lia); apply Hin; lia.
Qed.

Lemma added_refl L v l c :
  runs L → 0 ≤ v → 0 < c → (∀ x, v ≤ x < v + c → lbn_of L x = Some (l + (x - v))) → added L L v l c.
Proof.
  intros HL Hv Hc Hin. split; [done|]. intros x Hx. destruct (Z.leb_spec v x), (Z.ltb_spec x (v + c)); simpl; try done. apply Hin. lia.
Qed.

(** The new run begins inside a run. *)
Lemma add_after A r C v l c :
  runs (A ++ r :: C) → new_run v l c → agrees (A ++ r :: C) v l c → fin 0 A ≤ v < NextVbn r → ¬ hole r → zlen (A ++ r :: C) < 2 ^ 28 →
  triple (A ++ r :: C)
    (let* e := EndingVbn (zlen A) in
     if v + c -u 1 <=? e then ret true
     else
       let* Vbn := NextStartingVbn (zlen A) in
       let* l := EndingLbn (zlen A) in
       add_run pool Vbn (l +u 1) ((v + c -u 1) - Vbn +u 1)) (same (A ++ r :: C)) (outcome (A ++ r :: C) v l c).
Proof.
  intros HL Hn Hag Hin Hh Hb. pose proof HL as [HL' _]. pose proof Hn as (Hv & Hc & Hvc & Hl & Hlc).
  pose proof HL' as (HA & Hgood & _)%seg_app. pose proof (seg_le _ _ _ HA).
  assert (Hlbn : ∀ x, fin 0 A ≤ x < NextVbn r → lbn_of (A ++ r :: C) x = Some (Lbn r + (x - fin 0 A))).
  { intros x Hx. rewrite lbn_at by done. by rewrite decide_False. }
  assert (Hlv : Lbn r + (v - fin 0 A) = l) by (specialize (Hag v _ ltac:(lia) (Hlbn v Hin)); lia).
  assert (Hlbn' : ∀ x, v ≤ x < NextVbn r → lbn_of (A ++ r :: C) x = Some (l + (x - v))).
  { intros x Hx. rewrite Hlbn by lia. f_equal. lia. }
  apply triple_bind, (triple_EndingVbn _ _ A r C); [done|done|]. pose proof Hgood as [Hr Hg]. destruct Hg as [?|Hg]; [done|].
  rewrite (u32_small (NextVbn r - 1)), !(u32_small (v + c - 1)) by lia.
  destruct (Z.leb_spec (v + c - 1) (NextVbn r - 1)) as [Hle|Hgt].
  { apply triple_ret. apply added_refl; try done. intros x Hx. apply Hlbn'. lia. }
  apply triple_bind, (triple_NextStartingVbn _ _ A r C); [done|done|].
  apply triple_bind, (triple_EndingLbn _ _ A r C); [done|done|done|done|].
  unfold leave. rewrite decide_False by done. simpl. unfold UNUSED_LBN in *. rewrite !u32_small by lia.
  eapply triple_weaken; [apply add_run_ok; [done|unfold new_run, UNUSED_LBN; lia]|done|].
  intros b L' Hout. destruct b; [|destruct Hout as [Hnf ->]; split; [|done]; intros Hf; apply Hnf; intros x Hx; apply Hf; lia].
  apply (added_more _ _ _ _ _ (NextVbn r) (v + c - NextVbn r)); [|lia|lia|lia|].
  - replace (l + (NextVbn r - v)) with (Lbn r + (NextVbn r - fin 0 A) - 1 + 1) by lia.
    by replace (v + c - NextVbn r) with (v + c - 1 - NextVbn r + 1) by lia.
  - intros x Hx Hnot. apply Hlbn'. lia.
Qed.

Lemma add_entry_ok L v l c :
  runs L → new_run v l c → agrees L v l c →
  triple L (FsRtlAddLargeMcbEntry pool v l c) (same L) (outcome L v l c).
Proof.
  intros HL Hn Hag. pose proof HL as [HL' _]. pose proof Hn as (Hv & Hc & Hvc & Hl & Hlc). apply triple_bound. intros Hb.
  unfold FsRtlAddLargeMcbEntry. cbv zeta. rewrite (u32_small v), (u32_small l), (u32_small c) by (unfold UNUSED_LBN in *; lia).
  apply triple_bind, triple_find; [done|done| |by intros _; apply add_run_ok]. intros A r C -> Hin.
  apply triple_bind, (triple_StartingLbn _ _ A r C); [done|done|].
  destruct (Z.eqb_spec (Lbn r) UNUSED_LBN) as [Hh|Hh]; simpl; [|by apply add_after].
  rewrite (u32_small (v + c - 1)) by lia. apply triple_bind, triple_find; [done|lia| |by intros _; apply add_run_ok].
  intros A' r' C' HLA Hin'. pose proof (zlen_nonneg' A). pose proof (zlen_nonneg' A').
  destruct (Z.eqb_spec (zlen A) (zlen A' -u 1)) as [Hi|]; simpl; [|by apply add_run_ok].
  assert (HzA : zlen A' = zlen A + 1).
  { assert (zlen A' < 2 ^ 28) by (rewrite HLA, zlen_app' in Hb; pose proof (zlen_nonneg' (r' :: C')); lia).
    rewrite zlen_app', zlen_cons' in Hb. pose proof (zlen_nonneg' C). unfold u32 in Hi. destruct (decide (zlen A' = 0)) as [Hz|Hz].
    - rewrite Hz in Hi. change ((0 - 1) mod 2 ^ 32) with (2 ^ 32 - 1) in Hi. lia.
    - rewrite Z.mod_small in Hi; lia. }
  assert (A' = A ++ [r] ∧ C = r' :: C') as [-> ->].
  { change (r :: C) with ([r] ++ C) in HLA. rewrite app_assoc in HLA. apply app_inj_1 in HLA as [<- ->]; [done|].
    rewrite length_app. unfold zlen in HzA. simpl. lia. }
  apply triple_bind, (triple_StartingVbn _ _ (A ++ [r]) (r' :: C')); [done|done|]. rewrite fin_app in *. cbn [fin] in *.
  pose proof HL' as (HA & [Hr _] & _ & [Hr' _] & _)%seg_app. pose proof (seg_le _ _ _ HA). rewrite u32_small by lia.
  assert (Hr'h : ¬ hole r') by (destruct (after_hole _ _ _ HL Hh) as (? & ? & [= <- <-] & ?); done).
  assert (Hlbn : ∀ x, NextVbn r ≤ x < NextVbn r' → ∃ y, lbn_of (A ++ r :: r' :: C') x = Some y).
  { intros x Hx. change (r :: r' :: C') with ([r] ++ r' :: C'). rewrite app_assoc, lbn_at; [|by rewrite <- app_assoc|by rewrite fin_app].
    rewrite decide_False by done. by eexists. }
  eapply triple_weaken; [apply add_run_ok; [done|unfold new_run in *; lia]|done|].
  intros b L' Hout. destruct b.
  - apply (added_more _ _ _ _ _ v (NextVbn r - v)); [by replace (l + (v - v)) with l by lia|lia|lia|lia|].
    intros x Hx Hnot. destruct (Hlbn x ltac:(lia)) as [y Hy]. rewrite Hy. f_equal. by apply (Hag x).
  - destruct Hout as [[] _]. intros x Hx. rewrite lbn_at by (done || lia). by rewrite decide_True.
Qed.
End entry.
