(* ===== verification/McbCut.v ===== *)
(** * Removing runs

    The loop of the removal, removal of a range, and truncation. *)

From stdpp Require Import base list list_tactics numbers option.
From S2P Require Import Prelude Mcb McbRuns McbLogic McbAdd.

Definition removed (L L' : list MAPPING) (v c : Z) : Prop := edited L L' v c (λ _, None).

(** ** Lists *)

Section lists.
Context (A : list MAPPING) (r : MAPPING) (C : list MAPPING).
Hypothesis HL : runs (A ++ r :: C).

Abbreviation s := (fin 0 A).

Lemma run_parts :
  0 ≤ s < NextVbn r ∧ NextVbn r < 2 ^ 32 ∧ (hole r ∨ 0 < Lbn r ∧ Lbn r + (NextVbn r - s) ≤ UNUSED_LBN) ∧
  apart (out 0 Outside A) (enter r) ∧ apart (leave s r) (first_edge C).
Proof using HL.
  pose proof HL as [HL' _]. apply seg_app in HL' as (HA & [Hr Hl] & Hap & _). pose proof (seg_le _ _ _ HA).
  pose proof (runs_apart (A ++ [r]) C) as Hap'. rewrite <- app_assoc in Hap'. specialize (Hap' HL). rewrite out_app in Hap'.
  split_and!; done || lia.
Qed.

Lemma remove_hole v c : hole r → s ≤ v → v + c ≤ NextVbn r → removed (A ++ r :: C) (A ++ r :: C) v c.
Proof using HL.
  intros Hh Hv Hc. split; [done|]. intros x Hx. destruct (Z.leb_spec v x), (Z.ltb_spec x (v + c)); simpl; try done.
  destruct HL as [HL' _]. rewrite lbn_at by (done || lia). by rewrite decide_True.
Qed.

Ltac parts := destruct run_parts as (Hs & HN & Hl & Hap & Hap'); destruct Hl as [?|Hl]; [done|];
  unfold enter in Hap; unfold leave in Hap'; rewrite decide_False in Hap, Hap' by done.

(** The whole run, between runs. *)
Lemma remove_whole :
  ¬ hole r → out 0 Outside A ≠ Hole → first_edge C ≠ Hole → first_edge C ≠ Outside →
  removed (A ++ r :: C) (A ++ r <| Lbn := UNUSED_LBN |> :: C) s (NextVbn r - s).
Proof using HL.
  intros Hh Ho Hf Hf'. parts. apply (edited_intro A [r] [r <| Lbn := UNUSED_LBN |>] C); [done|].
  solve_runs; [by destruct (out 0 Outside A)|by destruct (first_edge C)].
Qed.

(** The last run, after a run. *)
Lemma remove_whole_end :
  ¬ hole r → C = [] → out 0 Outside A ≠ Hole → removed (A ++ r :: C) (A ++ C) s (NextVbn r - s).
Proof using HL.
  intros Hh HC Ho. parts. pose proof HL as HL'. rewrite HC in *. clear HC. apply (edited_intro A [r] [] []); [done|]. solve_runs. by destruct (out 0 Outside A).
Qed.

(** Before a hole. *)
Lemma remove_whole_hole :
  ¬ hole r → out 0 Outside A ≠ Hole → first_edge C = Hole → removed (A ++ r :: C) (A ++ C) s (NextVbn r - s).
Proof using HL.
  intros Hh Ho Hf. parts. pose proof HL as HL'. destruct C as [|h C']; [done|]. simpl in Hf. unfold enter in Hf. case_decide as Hhh; [|done]. clear Hf.
  assert (HL2 : runs ((A ++ [r]) ++ h :: C')) by (by rewrite <- app_assoc).
  destruct (after_hole _ _ _ HL2 Hhh) as (q & C'' & -> & Hq). destruct (hole_parts _ _ _ _ HL2 Hhh) as (_ & H1 & H1' & _). rewrite fin_app in H1.
  cbn [fin] in H1. apply (edited_intro A [r; h] [h] (q :: C'')); [done|].
  solve_runs; by destruct (out 0 Outside A).
Qed.

(** The first sectors. *)
Lemma remove_front c :
  ¬ hole r → out 0 Outside A ≠ Hole → 0 < c → s + c < NextVbn r →
  removed (A ++ r :: C) (A ++ mkMapping (s + c) UNUSED_LBN :: r <| Lbn := Lbn r + c |> :: C) s c.
Proof using HL.
  intros Hh Ho Hc Hlt. parts. apply (edited_intro A [r] [mkMapping (s + c) UNUSED_LBN; r <| Lbn := Lbn r + c |>] C); [done|].
  solve_runs; [by destruct (out 0 Outside A)|].
  by replace (Lbn r + c + (NextVbn r - (s + c))) with (Lbn r + (NextVbn r - s)) by lia.
Qed.

(** The last sectors, at the end or before a hole. *)
Lemma remove_back v :
  ¬ hole r → s < v < NextVbn r → C = [] →
  removed (A ++ r :: C) (A ++ r <| NextVbn := v |> :: C) v (NextVbn r - v).
Proof using HL.
  intros Hh Hv HC. parts. pose proof HL as HL'. rewrite HC in *. clear HC. apply (edited_intro A [r] [r <| NextVbn := v |>] []); [done|]. solve_runs.
Qed.

Lemma remove_back_hole v :
  ¬ hole r → s < v < NextVbn r → first_edge C = Hole →
  removed (A ++ r :: C) (A ++ r <| NextVbn := v |> :: C) v (NextVbn r - v).
Proof using HL.
  intros Hh Hv Hf. parts. pose proof HL as HL'. destruct C as [|h C']; [done|]. simpl in Hf. unfold enter in Hf. case_decide as Hhh; [|done]. clear Hf.
  assert (HL2 : runs ((A ++ [r]) ++ h :: C')) by (by rewrite <- app_assoc).
  destruct (after_hole _ _ _ HL2 Hhh) as (q & C'' & -> & Hq). destruct (hole_parts _ _ _ _ HL2 Hhh) as (_ & H1 & H1' & _). rewrite fin_app in H1.
  cbn [fin] in H1. apply (edited_intro A [r; h] [r <| NextVbn := v |>; h] (q :: C'')); [done|]. solve_runs.
Qed.

(** The last sectors, before a run. *)
Lemma remove_back_run v :
  ¬ hole r → s < v < NextVbn r → first_edge C ≠ Hole → first_edge C ≠ Outside →
  removed (A ++ r :: C) (A ++ r <| NextVbn := v |> :: mkMapping (NextVbn r) UNUSED_LBN :: C) v (NextVbn r - v).
Proof using HL.
  intros Hh Hv Hf Hf'. parts. apply (edited_intro A [r] [r <| NextVbn := v |>; mkMapping (NextVbn r) UNUSED_LBN] C); [done|].
  solve_runs. by destruct (first_edge C).
Qed.

(** Sectors in the middle. *)
Lemma remove_inside v c :
  ¬ hole r → s < v → 0 < c → v + c < NextVbn r →
  removed (A ++ r :: C)
    (A ++ mkMapping v (Lbn r) :: mkMapping (v + c) UNUSED_LBN :: r <| Lbn := Lbn r + (v - s) + c |> :: C) v c.
Proof using HL.
  intros Hh Hv Hc Hlt. parts.
  apply (edited_intro A [r] [mkMapping v (Lbn r); mkMapping (v + c) UNUSED_LBN; r <| Lbn := Lbn r + (v - s) + c |>] C); [done|].
  solve_runs. by replace (Lbn r + (v - s) + c + (NextVbn r - (v + c))) with (Lbn r + (NextVbn r - s)) by lia.
Qed.
End lists.

(** After a hole, which grows or goes away. *)
Section after_hole.
Context (A : list MAPPING) (h r : MAPPING) (C : list MAPPING).
Hypothesis HL : runs ((A ++ [h]) ++ r :: C).
Hypothesis Hh : hole h.

Lemma hole_before_parts :
  ¬ hole r ∧ 0 ≤ fin 0 A < NextVbn h ∧ NextVbn h < NextVbn r < 2 ^ 32 ∧ 0 < Lbn r ∧
  Lbn r + (NextVbn r - NextVbn h) ≤ UNUSED_LBN ∧ out 0 Outside A ≠ Hole ∧
  apart (At (Lbn r + (NextVbn r - NextVbn h))) (first_edge C).
Proof using HL Hh.
  pose proof HL as HL'. rewrite <- app_assoc in HL'. destruct (hole_parts A h r C HL' Hh) as (H1 & H2 & H3 & H4 & H5 & H6 & H7).
  destruct (run_parts _ _ _ HL) as (_ & _ & _ & _ & H8). unfold leave in H8. rewrite decide_False, fin_app in H8 by done. cbn [fin] in H8.
  split_and!; done || lia.
Qed.

Ltac parts := destruct hole_before_parts as (Hr & H1 & H2 & H3 & H4 & H5 & H6); rewrite ?fin_app; cbn [fin]; rewrite <- (app_assoc A [h] (r :: C)).

Lemma remove_grow_hole :
  first_edge C ≠ Hole → first_edge C ≠ Outside →
  removed ((A ++ [h]) ++ r :: C) (A ++ r <| Lbn := UNUSED_LBN |> :: C) (fin 0 (A ++ [h])) (NextVbn r - fin 0 (A ++ [h])).
Proof using HL Hh.
  intros Hf Hf'. pose proof HL as HL'. rewrite <- app_assoc in HL'. parts.
  apply (edited_intro A [h; r] [r <| Lbn := UNUSED_LBN |>] C); [done|]. solve_runs; [by destruct (out 0 Outside A)|by destruct (first_edge C)].
Qed.

Lemma remove_both_end :
  C = [] → removed ((A ++ [h]) ++ r :: C) (A ++ C) (fin 0 (A ++ [h])) (NextVbn r - fin 0 (A ++ [h])).
Proof using HL Hh.
  intros HC. pose proof HL as HL'. rewrite <- app_assoc in HL'. parts. rewrite HC in *. clear HC.
  apply (edited_intro A [h; r] [] []); [done|]. solve_runs. by destruct (out 0 Outside A).
Qed.

Lemma remove_both_hole :
  first_edge C = Hole → removed ((A ++ [h]) ++ r :: C) (A ++ C) (fin 0 (A ++ [h])) (NextVbn r - fin 0 (A ++ [h])).
Proof using HL Hh.
  intros Hf. pose proof HL as HL'. rewrite <- app_assoc in HL'. parts.
  destruct C as [|h' C']; [done|]. simpl in Hf. unfold enter in Hf. case_decide as Hhh; [|done]. clear Hf.
  assert (HL2 : runs ((A ++ [h; r]) ++ h' :: C')) by (by rewrite <- app_assoc).
  destruct (after_hole _ _ _ HL2 Hhh) as (q & C'' & -> & Hq). destruct (hole_parts _ _ _ _ HL2 Hhh) as (_ & H7 & H7' & _). rewrite fin_app in H7.
  cbn [fin] in H7. apply (edited_intro A [h; r; h'] [h'] (q :: C'')); [done|]. solve_runs; by destruct (out 0 Outside A).
Qed.

Lemma remove_front_hole c :
  0 < c → NextVbn h + c < NextVbn r →
  removed ((A ++ [h]) ++ r :: C) (A ++ h <| NextVbn := NextVbn h + c |> :: r <| Lbn := Lbn r + c |> :: C) (NextVbn h) c.
Proof using HL Hh.
  intros Hc Hlt. pose proof HL as HL'. rewrite <- app_assoc in HL'. parts.
  apply (edited_intro A [h; r] [h <| NextVbn := NextVbn h + c |>; r <| Lbn := Lbn r + c |>] C); [done|].
  solve_runs; [by destruct (out 0 Outside A)|].
  by replace (Lbn r + c + (NextVbn r - (NextVbn h + c))) with (Lbn r + (NextVbn r - NextVbn h)) by lia.
Qed.
End after_hole.

(** ** The loop that removes runs *)

(** *** Tests on borders *)

Lemma out_Hole A : out 0 Outside A = Hole → ∃ A0 h, A = A0 ++ [h] ∧ hole h.
Proof.
  intros Hout. destruct A as [|h A _] using rev_ind; [done|]. rewrite out_app in Hout. simpl in Hout. unfold leave in Hout.
  case_decide; [|done]. by exists A, h.
Qed.

Lemma previous_not_hole A :
  seg 0 Outside A →
  negb (last_lbn (out 0 Outside A) =? UNUSED_LBN) || (zlen A =? 0) = bool_decide (out 0 Outside A ≠ Hole).
Proof.
  intros HA. destruct A as [|p A _] using rev_ind; [done|]. rewrite index_nonzero, orb_false_r.
  destruct (out 0 Outside (A ++ [p])) as [| |l] eqn:Ho.
  - rewrite out_app in Ho. simpl in Ho. unfold leave in Ho. by case_decide.
  - done.
  - rewrite bool_decide_eq_true_2 by done. pose proof (out_range _ _ HA Ho). simpl. apply negb_true_iff, Z.eqb_neq. lia.
Qed.

Lemma next_hole A r C :
  runs (A ++ r :: C) → C ≠ [] →
  (first_lbn (first_edge C) =? UNUSED_LBN) = bool_decide (first_edge C = Hole) ∧ first_edge C ≠ Outside.
Proof.
  intros [HL _] HC. destruct C as [|q C]; [done|]. apply seg_app in HL as (_ & _ & _ & [Hq Hl] & _). simpl. unfold enter.
  case_decide as Hh; simpl; [done|]. destruct Hl as [?|Hl]; [done|]. split; [|done]. apply Z.eqb_neq. lia.
Qed.

Lemma last_index (A : list MAPPING) r C :
  zlen (A ++ r :: C) < 2 ^ 28 → (zlen A =? zlen (A ++ r :: C) -u 1) = bool_decide (C = []).
Proof.
  rewrite zlen_app', zlen_cons'. pose proof (zlen_nonneg' A). pose proof (zlen_nonneg' C). intros Hb. rewrite u32_small by lia.
  destruct C as [|q C]; [rewrite zlen_nil'; apply Z.eqb_eq; lia|]. rewrite zlen_cons' in *. pose proof (zlen_nonneg' C).
  rewrite bool_decide_eq_false_2 by done. apply Z.eqb_neq. lia.
Qed.

Section cut.
Context (pool : NONOPAQUE_MCB → Z → option (Z → MAPPING)).
Context (A : list MAPPING) (r : MAPPING) (C : list MAPPING).
Hypothesis HL : runs (A ++ r :: C).

Abbreviation L := (A ++ r :: C).
Abbreviation s := (fin 0 A).
Abbreviation same := (λ L', L' = L ∧ starved pool L').

(** The list goes on with [C] after the block [e]. *)
Definition goes_on (L' : list MAPPING) (e : Z) : Prop := ∃ A', L' = A' ++ C ∧ fin 0 A' ≤ e.

Lemma goes_on_same e : NextVbn r ≤ e → goes_on L e.
Proof. intros H. exists (A ++ [r]). rewrite <- app_assoc, fin_app. done. Qed.

Lemma goes_on_one A' q e : NextVbn q ≤ e → goes_on (A' ++ q :: C) e.
Proof. intros H. exists (A' ++ [q]). rewrite <- app_assoc, fin_app. done. Qed.

Lemma remove_entire_ok R :
  triple L (remove_entire (zlen A)) R (λ _ L', removed L L' s (NextVbn r - s) ∧ goes_on L' (NextVbn r)).
Proof using HL.
  destruct (run_parts A r C HL) as (Hs & HN & Hl & Hap & Hap'). pose proof HL as [HL' _]. apply seg_app in HL' as (HA & _).
  apply triple_bound. intros Hb. unfold remove_entire. apply triple_bind, (triple_StartingLbn _ _ A r C); [done|done|].
  destruct (Z.eqb_spec (Lbn r) UNUSED_LBN) as [Hh|Hh].
  { apply triple_ret. split; [apply remove_hole; done || lia|by apply goes_on_same]. }
  assert (Hfin : ∀ A0 h, A = A0 ++ [h] → fin 0 A0 ≤ NextVbn r).
  { intros A0 h ->. rewrite fin_app in Hs. apply seg_app in HA as (HA0 & [Hg _] & _). simpl in Hs. lia. }
  apply triple_bind, triple_PairCount. apply triple_bind, (triple_PreviousEndingLbn _ _ A (r :: C)); [done|done|done|].
  rewrite last_index by done. destruct (bool_decide_reflect (C = [])) as [HC|HC].
  - rewrite previous_not_hole by done. destruct (bool_decide_reflect (out 0 Outside A ≠ Hole)) as [Ho|Ho].
    + apply (triple_remove' _ A [r] C); [done|done|done|]. split; [by apply remove_whole_end|]. exists A. split; [done|lia].
    + destruct (decide (out 0 Outside A = Hole)) as [Ho'|]; [|done]. destruct (out_Hole A Ho') as (A0 & h & HA0 & Hhh).
      pose proof (Hfin A0 h HA0). pose proof HL as HL2. rewrite HA0 in HL2 |- *. rewrite index_pred by (rewrite <- HA0; rewrite zlen_app' in Hb; pose proof (zlen_nonneg' (r :: C)); lia).
      apply (triple_remove' _ A0 [h; r] C); [by rewrite <- app_assoc|done|done|]. split; [by apply remove_both_end|]. by exists A0.
  - destruct (next_hole A r C HL HC) as [Hnext Hno]. apply triple_bind, (triple_NextStartingLbn _ _ A r C); [done|done|].
    rewrite Hnext, previous_not_hole by done.
    destruct (bool_decide_reflect (out 0 Outside A ≠ Hole)) as [Ho|Ho], (bool_decide_reflect (first_edge C = Hole)) as [Hf|Hf]; simpl.
    + apply (triple_remove' _ A [r] C); [done|done|done|]. split; [by apply remove_whole_hole|]. exists A. split; [done|lia].
    + apply (triple_update' _ A r C); [done|done|]. split; [by apply remove_whole|by apply goes_on_one].
    + destruct (decide (out 0 Outside A = Hole)) as [Ho'|]; [|done]. destruct (out_Hole A Ho') as (A0 & h & HA0 & Hhh).
      pose proof (Hfin A0 h HA0). rewrite andb_false_r. pose proof HL as HL2. rewrite HA0 in HL2 |- *.
      rewrite index_pred by (rewrite <- HA0; rewrite zlen_app' in Hb; pose proof (zlen_nonneg' (r :: C)); lia).
      apply (triple_remove' _ A0 [h; r] C); [by rewrite <- app_assoc|done|done|]. split; [by apply remove_both_hole|]. by exists A0.
    + destruct (decide (out 0 Outside A = Hole)) as [Ho'|]; [|done]. rewrite Ho'. simpl. destruct (out_Hole A Ho') as (A0 & h & HA0 & Hhh).
      pose proof (Hfin A0 h HA0). pose proof HL as HL2. rewrite HA0 in HL2 |- *.
      apply triple_bind, (triple_update' _ (A0 ++ [h]) r C); [done|done|].
      rewrite index_pred by (rewrite <- HA0; rewrite zlen_app' in Hb; pose proof (zlen_nonneg' (r :: C)); lia).
      apply (triple_remove' _ A0 [h] (r <| Lbn := UNUSED_LBN |> :: C)); [by rewrite <- app_assoc|done|done|].
      split; [by apply remove_grow_hole|by apply goes_on_one].
Qed.

Lemma remove_first_ok c :
  0 < c → s + c < NextVbn r →
  triple L (remove_first pool (zlen A) s c) same (λ _ L', removed L L' s c).
Proof using HL.
  intros Hc Hlt. destruct (run_parts A r C HL) as (Hs & HN & Hl & Hap & Hap'). pose proof HL as [HL' _]. apply seg_app in HL' as (HA & _).
  apply triple_bound. intros Hb. unfold remove_first. apply triple_bind, (triple_StartingLbn _ _ A r C); [done|done|].
  destruct (Z.eqb_spec (Lbn r) UNUSED_LBN) as [Hh|Hh]; [apply triple_ret, remove_hole; done || lia|].
  destruct Hl as [?|Hl]; [done|]. unfold UNUSED_LBN in Hl.
  assert (HbA : zlen A < 2 ^ 28) by (rewrite zlen_app' in Hb; pose proof (zlen_nonneg' (r :: C)); lia).
  apply triple_bind, (triple_PreviousEndingLbn _ _ A (r :: C)); [done|done|done|]. rewrite previous_not_hole by done.
  destruct (bool_decide_reflect (out 0 Outside A ≠ Hole)) as [Ho|Ho].
  - apply triple_bind, (triple_add' _ _ A (r :: C)); [done|lia| |done]. intros J HJ. destruct J as [|j [|? ?]]; [done| |done]. simpl.
    apply triple_bind, (triple_update' _ A j (r :: C)); [done|done|]. apply triple_bind, triple_update; [done|].
    rewrite (index_next A j) by done.
    apply triple_bind, (triple_entry' _ _ (A ++ [mkMapping (s +u c) UNUSED_LBN]) r C); [by rewrite <- app_assoc|by rewrite !zlen_app'|].
    apply (triple_update' _ (A ++ [mkMapping (s +u c) UNUSED_LBN]) r C); [by rewrite <- app_assoc|by rewrite !zlen_app'|].
    rewrite <- app_assoc, !u32_small by lia. by apply remove_front.
  - destruct (decide (out 0 Outside A = Hole)) as [Ho'|]; [|done]. destruct (out_Hole A Ho') as (A0 & h & HA0 & Hhh).
    pose proof HL as HL2. rewrite HA0 in HL2, HbA, Hs, Hlt, Hl |- *. rewrite index_pred by done. rewrite fin_app in *. cbn [fin] in *.
    apply triple_bind, (triple_entry' _ _ A0 h (r :: C)); [by rewrite <- app_assoc|done|].
    apply triple_bind, (triple_update' _ A0 h (r :: C)); [by rewrite <- app_assoc|done|].
    apply triple_bind, (triple_entry' _ _ (A0 ++ [h <| NextVbn := NextVbn h +u c |>]) r C); [by rewrite <- app_assoc|by rewrite !zlen_app'|].
    apply (triple_update' _ (A0 ++ [h <| NextVbn := NextVbn h +u c |>]) r C); [by rewrite <- app_assoc|by rewrite !zlen_app'|].
    rewrite !u32_small by lia. rewrite <- (app_assoc A0 [h <| NextVbn := NextVbn h + c |>]). by apply remove_front_hole.
Qed.

Lemma remove_last_ok v :
  s < v < NextVbn r →
  triple L (remove_last pool (zlen A) (NextVbn r - v)) same
    (λ _ L', removed L L' v (NextVbn r - v) ∧ goes_on L' (NextVbn r)).
Proof using HL.
  intros Hv. destruct (run_parts A r C HL) as (Hs & HN & Hl & Hap & Hap'). pose proof HL as [HL' _]. apply seg_app in HL' as (HA & _).
  apply triple_bound. intros Hb. unfold remove_last. apply triple_bind, (triple_StartingLbn _ _ A r C); [done|done|].
  destruct (Z.eqb_spec (Lbn r) UNUSED_LBN) as [Hh|Hh]; [apply triple_ret; split; [apply remove_hole; done || lia|by apply goes_on_same]|].
  assert (HbA : zlen A < 2 ^ 28) by (rewrite zlen_app' in Hb; pose proof (zlen_nonneg' (r :: C)); lia).
  apply triple_bind, triple_PairCount. apply triple_bind.
  eapply triple_weaken with (R := λ _, False) (Q := λ b L', L' = L ∧ b = bool_decide (C = [] ∨ first_edge C = Hole)); [|done|].
  { unfold orM. apply triple_bind, triple_ret. rewrite last_index by done. destruct (bool_decide_reflect (C = [])) as [HC|HC].
    - apply triple_ret. rewrite bool_decide_eq_true_2 by auto. done.
    - apply triple_bind, (triple_NextStartingLbn _ _ A r C); [done|done|]. apply triple_ret. split; [done|].
      destruct (next_hole A r C HL HC) as [-> _]. apply bool_decide_ext. tauto. }
  intros b L' [-> ->]. destruct (bool_decide_reflect (C = [] ∨ first_edge C = Hole)) as [Hor|Hno].
  - apply triple_bind, (triple_entry' _ _ A r C); [done|done|]. apply (triple_update' _ A r C); [done|done|].
    rewrite u32_small by lia. replace (NextVbn r - (NextVbn r - v)) with v by lia. split; [|apply goes_on_one; simpl; lia].
    destruct Hor as [HC|Hf]; [by apply remove_back|by apply remove_back_hole].
  - assert (HC : C ≠ []) by tauto. destruct (next_hole A r C HL HC) as [_ Hout].
    rewrite (index_next A r) by done. apply triple_bind, (triple_add' _ _ (A ++ [r]) C); [by rewrite <- app_assoc|lia| |done].
    intros J HJ. destruct J as [|j [|? ?]]; [done| |done]. simpl.
    apply triple_bind, (triple_update' _ (A ++ [r]) j C); [done|done|].
    apply triple_bind, (triple_entry' _ _ A r (j <| Lbn := UNUSED_LBN |> :: C)); [by rewrite <- app_assoc|done|].
    apply triple_bind, triple_update; [done|].
    apply (triple_update' _ A r (mkMapping (NextVbn r) UNUSED_LBN :: C)); [by rewrite <- app_assoc|done|].
    rewrite u32_small by lia. replace (NextVbn r - (NextVbn r - v)) with v by lia. split; [apply remove_back_run; tauto|].
    exists (A ++ [r <| NextVbn := v |>; mkMapping (NextVbn r) UNUSED_LBN]). rewrite <- app_assoc, fin_app. done.
Qed.

Lemma remove_middle_ok v c :
  s < v → 0 < c → v + c < NextVbn r →
  triple L (remove_middle pool (zlen A) v c) same (λ _ L', removed L L' v c).
Proof using HL.
  intros Hv Hc Hlt. destruct (run_parts A r C HL) as (Hs & HN & Hl & Hap & Hap'). pose proof HL as [HL' _]. apply seg_app in HL' as (HA & _).
  apply triple_bound. intros Hb. unfold remove_middle. apply triple_bind, (triple_StartingLbn _ _ A r C); [done|done|].
  destruct (Z.eqb_spec (Lbn r) UNUSED_LBN) as [Hh|Hh]; [apply triple_ret, remove_hole; done || lia|].
  destruct Hl as [?|Hl]; [done|]. unfold UNUSED_LBN in Hl.
  assert (HbA : zlen A < 2 ^ 28) by (rewrite zlen_app' in Hb; pose proof (zlen_nonneg' (r :: C)); lia). pose proof (zlen_nonneg' A).
  apply triple_bind, (triple_add' _ _ A (r :: C)); [done|lia| |done]. intros J HJ. destruct J as [|j [|k [|? ?]]]; [done|done| |done]. simpl.
  rewrite (u32_small (zlen A + 2)), (u32_small (zlen A + 1)), (u32_small (v + c)) by lia.
  apply triple_bind, (triple_entry' _ _ (A ++ [j; k]) r C); [by rewrite <- app_assoc|by rewrite zlen_app'|].
  apply triple_bind, (triple_update' _ A j (k :: r :: C)); [done|done|]. apply triple_bind, triple_update; [done|]. simpl.
  apply triple_bind, (triple_update' _ (A ++ [mkMapping v (Lbn r)]) k (r :: C)); [by rewrite <- app_assoc|by rewrite zlen_app'|].
  apply triple_bind, triple_update; [by rewrite zlen_app'|]. simpl. rewrite <- app_assoc.
  apply triple_bind, (triple_SectorsWithinRun _ _ A (mkMapping v (Lbn r)) (mkMapping (v + c) UNUSED_LBN :: r :: C)); [done|done|simpl; lia|simpl; lia|].
  apply triple_bind, (triple_SectorsWithinRun _ _ (A ++ [mkMapping v (Lbn r)]) (mkMapping (v + c) UNUSED_LBN) (r :: C));
    [by rewrite <- app_assoc|by rewrite zlen_app'|rewrite fin_app; simpl; lia|simpl; lia|].
  apply (triple_update' _ (A ++ [mkMapping v (Lbn r); mkMapping (v + c) UNUSED_LBN]) r C); [by rewrite <- app_assoc|by rewrite zlen_app'|].
  rewrite <- app_assoc, fin_app. cbn [fin NextVbn]. rewrite u32_small by lia.
  replace (Lbn r + (v - s) + (v + c - v)) with (Lbn r + (v - s) + c) by lia. by apply remove_inside.
Qed.
End cut.

(** ** The loop *)

Lemma removed_none L v : runs L → removed L L v 0.
Proof. intros HL. split; [done|]. intros x Hx. destruct (Z.leb_spec v x), (Z.ltb_spec x (v + 0)); simpl; done || lia. Qed.

Lemma removed_end L v c : runs L → fin 0 L ≤ v → removed L L v c.
Proof.
  intros HL Hf. split; [done|]. intros x Hx. destruct (Z.leb_spec v x), (Z.ltb_spec x (v + c)); simpl; try done.
  destruct HL as [HL _]. apply lbn_end; [done|lia].
Qed.

Lemma removed_trans L L1 L2 v i c :
  removed L L1 v i → removed L1 L2 (v + i) (c - i) → 0 ≤ i ≤ c → removed L L2 v c.
Proof.
  intros [_ H1] [HL2 H2] Hi. split; [done|]. intros x Hx. rewrite (H2 x Hx), (H1 x Hx).
  destruct (Z.leb_spec (v + i) x), (Z.ltb_spec x (v + i + (c - i))), (Z.leb_spec v x), (Z.ltb_spec x (v + i)), (Z.ltb_spec x (v + c)); simpl; done || lia.
Qed.

(** The pairs after the block [v] are fewer than [n]. *)
Definition left_over (L : list MAPPING) (v : Z) (n : nat) : Prop := ∃ A C, L = A ++ C ∧ fin 0 A ≤ v ∧ (length C < n)%nat.

Lemma left_over_found A r C v n :
  seg 0 Outside (A ++ r :: C) → left_over (A ++ r :: C) v n → v < NextVbn r → (S (length C) < n)%nat.
Proof.
  intros HL (A' & C' & Heq & Hf & Hn) Hv. symmetry in Heq. apply app_eq_inv in Heq as [(k & -> & Hk)|(k & -> & Hk)].
  - destruct k as [|q k]; simpl in Hk; [rewrite <- Hk in Hn; simpl in Hn; lia|]. injection Hk as <- ->. exfalso.
    rewrite fin_app in Hf. cbn [fin] in Hf. change (r :: k ++ C') with ([r] ++ k ++ C') in HL. rewrite !seg_app in HL.
    destruct HL as (_ & _ & Hk & _). apply seg_le in Hk. simpl in Hk. lia.
  - rewrite Hk, length_app in Hn. simpl in Hn. lia.
Qed.

Section loop.
Context (pool : NONOPAQUE_MCB → Z → option (Z → MAPPING)).

(** When an allocation fails a beginning of the range has been removed. *)
Definition partly (L : list MAPPING) (v c : Z) (L' : list MAPPING) : Prop := ∃ i, 0 ≤ i ≤ c ∧ removed L L' v i ∧ starved pool L'.

Lemma partly_none L v c L' : runs L → 0 ≤ c → L' = L ∧ starved pool L' → partly L v c L'.
Proof. intros HL Hc [-> Hs]. exists 0. split_and!; [lia|lia|by apply removed_none|done]. Qed.

Lemma remove_loop_ok fuel : ∀ L v c,
  runs L → 0 ≤ v → 0 ≤ c → v + c < 2 ^ 32 → left_over L v fuel →
  triple L (remove_loop pool fuel v c) (partly L v c) (λ _ L', removed L L' v c).
Proof.
  induction fuel as [|fuel IH]; intros L v c HL Hv Hc Hvc Hleft; cbn [remove_loop];
    (destruct (Z.ltb_spec 0 c) as [Hpos|]; [|apply triple_ret; assert (c = 0) as -> by lia; by apply removed_none]).
  { destruct Hleft as (? & ? & _ & _ & ?). lia. }
  assert (Hzero : ∀ n L' w, triple L' (remove_loop pool n w 0) (partly L v c) (λ _ L'', L'' = L')).
  { intros n L' w. destruct n; by apply triple_ret. }
  pose proof HL as [HL' _]. apply triple_bind, triple_find; [done|done| |intros Hf; by apply triple_ret, removed_end].
  intros A r C -> Hin. simpl. pose proof (left_over_found _ _ _ _ _ HL' Hleft ltac:(lia)) as Hlen.
  destruct (run_parts A r C HL) as (Hs & HN & _).
  assert (Hgo : ∀ L1 w, removed (A ++ r :: C) L1 v (NextVbn r - v) → goes_on C L1 (NextVbn r) → w = NextVbn r → NextVbn r ≤ v + c →
    triple L1 (remove_loop pool fuel w (c - (NextVbn r - v))) (partly (A ++ r :: C) v c) (λ _ L'', removed (A ++ r :: C) L'' v c)).
  { intros L1 w HL1 (A1 & -> & HA1) -> Hle. eapply triple_weaken; [apply IH; [apply HL1|lia|lia|lia|]|..].
    - exists A1, C. split_and!; [done|done|lia].
    - intros L2 (i & Hi & Hrem & Hst). exists (NextVbn r - v + i). split; [lia|]. split; [|done].
      eapply removed_trans; [done| |lia]. replace (v + (NextVbn r - v)) with (NextVbn r) by lia.
      by replace (NextVbn r - v + i - (NextVbn r - v)) with i by lia.
    - intros [] L2 Hrem. eapply removed_trans; [done| |lia]. by replace (v + (NextVbn r - v)) with (NextVbn r) by lia. }
  apply triple_bind, (triple_StartingVbn _ _ A (r :: C)); [done|done|].
  apply triple_bind, (triple_EndingVbn _ _ A r C); [done|done|].
  rewrite (u32_small (NextVbn r - 1)), (u32_small (v + c)) by lia.
  destruct (Z.eqb_spec (fin 0 A) v) as [Heq|Hne], (Z.ltb_spec (NextVbn r - 1) (v + c)) as [Hlt|Hge]; simpl.
  - apply triple_bind, (triple_SectorsWithinRun _ _ A r C); [done|done|lia|lia|].
    apply triple_bind. eapply triple_weaken; [by apply (remove_entire_ok A r C HL (λ _, False))|done|]. intros [] L1 [HL1 Hon]. rewrite Heq in *.
    rewrite !u32_small by lia. apply Hgo; [done|done|lia|lia].
  - apply triple_bind. rewrite <- Heq at 1. eapply triple_weaken; [apply remove_first_ok; [done|done|lia]|intros ?; by apply partly_none|].
    intros [] L1 HL1. eapply triple_weaken; [apply Hzero|done|]. intros [] ? ->. by rewrite <- Heq.
  - apply triple_bind. rewrite (u32_small (NextVbn r - 1 - v + 1)) by lia. replace (NextVbn r - 1 - v + 1) with (NextVbn r - v) by lia.
    eapply triple_weaken; [apply remove_last_ok; [done|lia]|intros ?; by apply partly_none|]. intros [] L1 [HL1 Hon].
    rewrite !u32_small by lia. apply Hgo; [done|done|lia|lia].
  - apply triple_bind. eapply triple_weaken; [apply (remove_middle_ok pool A r C HL v c); lia|intros ?; by apply partly_none|].
    intros [] L1 HL1. eapply triple_weaken; [apply Hzero|done|]. by intros [] ? ->.
Qed.

Lemma remove_private_ok L v c :
  runs L → 0 ≤ v → 0 ≤ c → v + c < 2 ^ 32 →
  triple L (FsRtlRemoveMcbEntryPrivate pool v c) (partly L v c) (λ _ L', removed L L' v c).
Proof.
  intros HL Hv Hc Hvc. pose proof HL as [HL' _]. apply triple_bound. intros Hb. unfold FsRtlRemoveMcbEntryPrivate. apply triple_bind, triple_PairCount.
  apply triple_bind. eapply triple_weaken with (R := λ _, False) (Q := λ b L', L' = L ∧ (b = true → v = 0 ∧ fin 0 L ≤ c)); [|done|].
  { unfold andM. apply triple_bind, triple_ret. destruct (Z.eqb_spec v 0) as [->|]; simpl; [|by apply triple_ret].
    destruct L as [|p L _] using rev_ind; [by apply triple_ret|]. rewrite (proj2 (Z.ltb_lt _ _)) by (rewrite zlen_app'; change (zlen [p]) with 1; pose proof (zlen_nonneg' L); lia).
    rewrite index_pred by done. apply triple_bind, triple_entry; [done|]. apply triple_ret. split; [done|]. rewrite Z.leb_le, fin_app. done. }
  intros b L' [-> Hwhole]. destruct b.
  - destruct Hwhole as [-> Hf]; [done|]. apply triple_clear. split; [done|]. intros x Hx.
    destruct (Z.leb_spec 0 x), (Z.ltb_spec x (0 + c)); simpl; try done; try lia. symmetry. apply lbn_end; [done|lia].
  - apply remove_loop_ok; try done. exists [], L. split_and!; [done|done|]. unfold zlen. lia.
Qed.

(** All blocks from [v] on are unmapped. *)
Definition truncated (L L' : list MAPPING) (v : Z) : Prop :=
  runs L' ∧ ∀ x, 0 ≤ x → lbn_of L' x = if x <? v then lbn_of L x else None.

Lemma removed_truncated L L' v :
  runs L → 0 ≤ v < 2 ^ 32 → removed L L' v (2 ^ 32 - 1 - v) → truncated L L' v.
Proof.
  intros [HL _] Hv [HL' H]. split; [done|]. intros x Hx. rewrite (H x Hx).
  destruct (Z.leb_spec v x), (Z.ltb_spec x (v + (2 ^ 32 - 1 - v))), (Z.ltb_spec x v); simpl; try done; try lia.
  apply lbn_end; [done|]. pose proof (seg_max 0 _ _ ltac:(lia) HL). lia.
Qed.

Lemma triple_realloc L NewMax R Q :
  zlen L ≤ NewMax → INITIAL_MAXIMUM_PAIR_COUNT ≤ NewMax → 8 * NewMax < 2 ^ 32 → (2 ^ 28 ≤ NewMax → 2 ^ 26 < zlen L) → (starved pool L → R L) → Q tt L →
  triple L (let* New := FsRtlAllocatePool pool (8 *u NewMax) in let* New := copy_pairs (zlen L) New in set_Mapping New NewMax) R Q.
Proof.
  intros H1 H2 H3 H4 HR HQ M HM. pose proof (realloc_ok pool M L NewMax HM H1 H2 H3) as H.
  set (m := bind (FsRtlAllocatePool pool (8 *u NewMax)) _) in *. destruct (m M) as [|M'|M' []]; [done| |exists L; tauto].
  destruct H as [-> Hst]. exists L. split; [done|]. apply HR. destruct Hst; [by left|right; auto].
Qed.

Lemma triple_Max L R Q :
  (∀ Max, Q Max L) → triple L get_MaximumPairCount R Q.
Proof. intros H M HM. simpl. eauto. Qed.

Lemma truncate_ok L v :
  runs L → 0 ≤ v < 2 ^ 32 →
  triple L (FsRtlTruncateLargeMcb pool v)
    (λ L', (truncated L L' v ∧ starved pool L') ∨ partly L v (2 ^ 32 - 1 - v) L') (λ _ L', truncated L L' v).
Proof.
  intros HL Hv. unfold FsRtlTruncateLargeMcb. cbv zeta. rewrite (u32_small v) by lia. apply triple_bind, triple_PairCount.
  assert (Hcut : triple L (if v =? 0 then set_PairCount 0 else if 0 <? zlen L then FsRtlRemoveMcbEntryPrivate pool v (0xffffffff -u v) else ret tt)
    (λ L', (truncated L L' v ∧ starved pool L') ∨ partly L v (2 ^ 32 - 1 - v) L') (λ _ L', truncated L L' v)).
  { destruct (Z.eqb_spec v 0) as [->|Hv0].
    - apply triple_clear. split; [done|]. intros x Hx. by rewrite (proj2 (Z.ltb_ge x 0)) by lia.
    - destruct (Z.ltb_spec 0 (zlen L)) as [Hpos|Hzero].
      + rewrite (u32_small (0xffffffff - v)) by lia. eapply triple_weaken; [apply remove_private_ok; [done|lia|lia|lia]|intros ? ?; by right|].
        intros [] L' H. apply removed_truncated; [done|done|]. by change (2 ^ 32 - 1) with 0xffffffff.
      + apply triple_ret. destruct L; [|unfold zlen in Hzero; simpl in Hzero; lia]. split; [done|]. intros x Hx. simpl. by case_match. }
  apply triple_bind. eapply triple_weaken; [exact Hcut|done|]. intros [] L' Ht. simpl.
  apply triple_bound. intros Hb. pose proof (zlen_nonneg' L'). apply triple_bind, triple_PairCount, triple_bind, triple_Max. intros Max.
  destruct ((zlen L' <? Max / 4) && (INITIAL_MAXIMUM_PAIR_COUNT <? Max)); [|by apply triple_ret].
  rewrite (u32_small (zlen L' * 2)) by lia. unfold INITIAL_MAXIMUM_PAIR_COUNT in *.
  apply triple_realloc; [..|by left|done]; unfold INITIAL_MAXIMUM_PAIR_COUNT; destruct (Z.ltb_spec (zlen L' * 2) 15); lia.
Qed.
End loop.
