(* ===== verification/McbSplit.v ===== *)
(** * Splitting a block *)

From stdpp Require Import base list list_tactics numbers option.
From S2P Require Import Prelude Mcb McbRuns McbLogic McbAdd McbCut.

(** ** Shifted runs *)

Definition shift (a : Z) (C : list MAPPING) : list MAPPING := (λ r, r <| NextVbn := NextVbn r + a |>) <$> C.

Lemma leave_shift s a r : leave (s + a) (r <| NextVbn := NextVbn r + a |>) = leave s r.
Proof.
  unfold leave, hole. simpl. repeat case_decide; try done. f_equal. lia.
Qed.

Lemma fin_shift s a C : fin (s + a) (shift a C) = fin s C + a.
Proof. revert s. induction C as [|r C IH]; intros s; [done|]. apply (IH (NextVbn r)). Qed.

Lemma out_shift s e a C : out (s + a) e (shift a C) = out s e C.
Proof.
  revert s e. induction C as [|r C IH]; intros s e; [done|].
  change (out (NextVbn r + a) (leave (s + a) (r <| NextVbn := NextVbn r + a |>)) (shift a C) = out (NextVbn r) (leave s r) C).
  rewrite leave_shift. apply IH.
Qed.

Lemma first_edge_shift a C : first_edge (shift a C) = first_edge C.
Proof. by destruct C. Qed.

Lemma seg_shift s e a C : 0 ≤ a → fin s C + a < 2 ^ 32 → seg s e C → seg (s + a) e (shift a C).
Proof.
  intros Ha. revert s e. induction C as [|r C IH]; intros s e Hf; [done|]. intros ([Hr Hl] & Hap & HC).
  change (good (s + a) (r <| NextVbn := NextVbn r + a |>) ∧ apart e (enter r) ∧
    seg (NextVbn r + a) (leave (s + a) (r <| NextVbn := NextVbn r + a |>)) (shift a C)). split_and!.
  - pose proof (seg_le _ _ _ HC). simpl in Hf. split; simpl; [lia|]. destruct Hl as [Hl|Hl]; [by left|right; lia].
  - done.
  - rewrite leave_shift. by apply IH.
Qed.

Lemma vlbn_shift s a C x : vlbn (s + a) (shift a C) x = vlbn s C (x - a).
Proof.
  revert s. induction C as [|r C IH]; intros s; [done|]. simpl. rewrite IH.
  replace (x <? NextVbn r + a) with (x - a <? NextVbn r) by (apply bool_eq_true; rewrite !Z.ltb_lt; lia).
  destruct (x - a <? NextVbn r); [|done]. unfold hole. simpl. repeat case_decide; try done. f_equal. lia.
Qed.

Definition shifted (L L' : list MAPPING) (v a : Z) : Prop :=
  runs L' ∧ ∀ x, 0 ≤ x → lbn_of L' x = if x <? v then lbn_of L x else if x <? v + a then None else lbn_of L (x - a).

Lemma shifted_intro A X X' C v a :
  runs (A ++ X ++ C) → 0 < a → fin 0 (A ++ X ++ C) + a < 2 ^ 32 →
  (let s := fin 0 A in let e := out 0 Outside A in
   seg s e X' ∧ fin s X' = fin s X + a ∧ apart (out s e X') (first_edge C) ∧ s ≤ v ≤ fin s X ∧
   ∀ x, s ≤ x < fin s X' → vlbn s X' x = if x <? v then vlbn s X x else if x <? v + a then None else vlbn s X (x - a)) →
  shifted (A ++ X ++ C) (A ++ X' ++ shift a C) v a.
Proof.
  intros [HL Hend] Ha Hmax (HX' & Hfin & Hap & Hv & Heq). rewrite seg_mid in HL. destruct HL as (HA & HX & HC).
  rewrite !fin_app in Hmax. rewrite !out_app in Hend.
  assert (HC' : seg (fin (fin 0 A) X') (out (fin 0 A) (out 0 Outside A) X') (shift a C)).
  { rewrite Hfin. apply seg_shift; [lia|done|]. destruct C as [|r C]; [done|]. eapply seg_edge; [done|]. by left. }
  split; [split|].
  - by rewrite seg_mid.
  - rewrite !out_app, Hfin, out_shift. destruct C as [|r C]; [done|]. erewrite out_cons. apply Hend.
  - intros x Hx. pose proof (seg_le _ _ _ HA). unfold lbn_of. rewrite !(vlbn_app 0 Outside A) by (done || lia).
    destruct (Z.ltb_spec x (fin 0 A)) as [H1|H1].
    { rewrite (proj2 (Z.ltb_lt x v)) by lia. done. }
    rewrite (vlbn_app _ _ _ _ _ HX') by done. rewrite (vlbn_app _ _ X C x HX) by done.
    destruct (Z.ltb_spec x (fin (fin 0 A) X')) as [H2|H2].
    + rewrite (Heq x) by lia. destruct (Z.ltb_spec x v); [rewrite (proj2 (Z.ltb_lt x (fin (fin 0 A) X))) by lia; done|].
      destruct (Z.ltb_spec x (v + a)); [done|]. rewrite (vlbn_app 0 Outside A), (proj2 (Z.ltb_ge (x - a) (fin 0 A))) by (done || lia).
      rewrite (vlbn_app _ _ X C _ HX) by lia. by rewrite (proj2 (Z.ltb_lt (x - a) (fin (fin 0 A) X))) by lia.
    + rewrite (proj2 (Z.ltb_ge x v)), (proj2 (Z.ltb_ge x (v + a))) by lia.
      rewrite (vlbn_app 0 Outside A), (proj2 (Z.ltb_ge (x - a) (fin 0 A))) by (done || lia).
      rewrite (vlbn_app _ _ X C _ HX) by lia. rewrite (proj2 (Z.ltb_ge (x - a) (fin (fin 0 A) X))) by lia.
      by rewrite Hfin, vlbn_shift.
Qed.

(** ** The operation *)

Section split.
Context (pool : NONOPAQUE_MCB → Z → option (Z → MAPPING)) (v a : Z).

Lemma shift_loop_ok C : ∀ fuel A R,
  Forall (λ r, 0 ≤ NextVbn r + a < 2 ^ 32) C → (length C ≤ fuel)%nat →
  triple (A ++ C) (shift_loop fuel (zlen A) a) R (λ _ L', L' = A ++ shift a C).
Proof.
  induction C as [|r C IH]; intros fuel A R HC Hf; apply triple_bound; intros Hb.
  - destruct fuel; cbn [shift_loop]; apply triple_bind, triple_PairCount; rewrite app_nil_r, Z.ltb_irrefl; apply triple_ret; simpl; by rewrite ?app_nil_r.
  - simpl in Hf. destruct fuel as [|fuel]; [lia|]. cbn [shift_loop]. apply triple_bind, triple_PairCount. apply Forall_cons_iff in HC as [Hr HC].
    rewrite (proj2 (Z.ltb_lt _ _)) by (rewrite zlen_app', zlen_cons'; pose proof (zlen_nonneg' C); lia).
    apply triple_bind, triple_entry; [done|]. apply triple_bind, triple_update; [done|]. rewrite u32_small by lia.
    rewrite (index_next A (r <| NextVbn := NextVbn r + a |>)) by (rewrite zlen_app' in Hb; pose proof (zlen_nonneg' (r :: C)); lia).
    change (r <| NextVbn := NextVbn r + a |> :: C) with ([r <| NextVbn := NextVbn r + a |>] ++ C). rewrite app_assoc.
    eapply triple_weaken; [apply (IH fuel _ R); [done|lia]|done|]. intros _ L' ->. by rewrite <- app_assoc.
Qed.

Section at_run.
Context (A : list MAPPING) (r : MAPPING) (C : list MAPPING).
Hypothesis HL : runs (A ++ r :: C).
Hypothesis Hv : fin 0 A ≤ v < NextVbn r.
Hypothesis Ha : 0 < a.
Hypothesis Hmax : fin 0 (A ++ r :: C) + a < 2 ^ 32.

Abbreviation L := (A ++ r :: C).

Lemma split_in_hole : hole r → shifted L (A ++ shift a (r :: C)) v a.
Proof using HL Hv Ha Hmax.
  intros Hh. destruct (run_parts A r C HL) as (Hs & HN & _ & Hap & Hap').
  assert (Hf : NextVbn r + a < 2 ^ 32).
  { rewrite fin_app in Hmax. simpl in Hmax. destruct HL as [HL' _]. apply seg_app in HL' as (_ & _ & _ & HC). apply seg_le in HC. lia. }
  apply (shifted_intro A [r] [r <| NextVbn := NextVbn r + a |>] C); [done|done|done|].
  unfold enter in Hap. unfold leave in Hap'. rewrite decide_True in Hap, Hap' by done. solve_runs.
Qed.

Lemma split_at_start : ¬ hole r → fin 0 A = v → out 0 Outside A ≠ Hole →
  shifted L (A ++ mkMapping (v + a) UNUSED_LBN :: shift a (r :: C)) v a.
Proof using HL Hv Ha Hmax.
  intros Hh Hf Ho. destruct (run_parts A r C HL) as (Hs & HN & _ & Hap & Hap').
  assert (Hf' : NextVbn r + a < 2 ^ 32).
  { rewrite fin_app in Hmax. simpl in Hmax. destruct HL as [HL' _]. apply seg_app in HL' as (_ & _ & _ & HC). apply seg_le in HC. lia. }
  apply (shifted_intro A [] [mkMapping (v + a) UNUSED_LBN] (r :: C)); [done|done|done|].
  solve_runs. by destruct (out 0 Outside A).
Qed.

Lemma split_inside : ¬ hole r → fin 0 A < v →
  shifted L (A ++ mkMapping v (Lbn r) :: mkMapping (v + a) UNUSED_LBN :: shift a (r <| Lbn := Lbn r + (v - fin 0 A) |> :: C)) v a.
Proof using HL Hv Ha Hmax.
  intros Hh Hf. destruct (run_parts A r C HL) as (Hs & HN & Hl & Hap & Hap'). destruct Hl as [?|Hl]; [done|].
  assert (Hf' : NextVbn r + a < 2 ^ 32).
  { rewrite fin_app in Hmax. simpl in Hmax. destruct HL as [HL' _]. apply seg_app in HL' as (_ & _ & _ & HC). apply seg_le in HC. lia. }
  unfold enter in Hap. unfold leave in Hap'. rewrite decide_False in Hap, Hap' by done.
  apply (shifted_intro A [r] [mkMapping v (Lbn r); mkMapping (v + a) UNUSED_LBN;
    mkMapping (NextVbn r + a) (Lbn r + (v - fin 0 A))] C); [done|done|done|].
  solve_runs. by replace (Lbn r + (v - fin 0 A) + (NextVbn r + a - (v + a))) with (Lbn r + (NextVbn r - fin 0 A)) by lia.
Qed.

Lemma pairs_small A' C' : seg 0 Outside (A' ++ C') → fin 0 (A' ++ C') + a < 2 ^ 32 → Forall (λ q, 0 ≤ NextVbn q + a < 2 ^ 32) C'.
Proof using Ha.
  clear - Ha. intros HL Hm. apply Forall_forall. intros q Hq. apply list_elem_of_In in Hq. apply list_elem_of_split in Hq as (C1 & C2 & ->). rewrite app_assoc in *.
  rewrite fin_app in Hm. apply seg_app in HL as (HA & [Hq _] & _ & HC). apply seg_le in HA, HC. simpl in *. lia.
Qed.

Lemma make_hole_ok :
  triple L (make_hole pool (zlen A) v a) (λ L', L' = L ∧ starved pool L')
    (λ i L', ∃ P S, L' = P ++ S ∧ i = zlen P ∧ Forall (λ q, 0 ≤ NextVbn q + a < 2 ^ 32) S ∧ shifted L (P ++ shift a S) v a).
Proof using HL Hv Ha Hmax.
  destruct (run_parts A r C HL) as (Hs & HN & Hl & _). pose proof HL as [HL' _].
  pose proof (pairs_small A (r :: C) HL' Hmax) as Hsmall. pose proof (proj1 (proj1 (seg_app _ _ _ _) HL')) as HA.
  apply triple_bound. intros Hb. assert (HbA : zlen A < 2 ^ 28) by (rewrite zlen_app' in Hb; pose proof (zlen_nonneg' (r :: C)); lia).
  pose proof (zlen_nonneg' A). assert (Hva : v + a < 2 ^ 32) by (apply Forall_cons_iff in Hsmall as [? _]; lia).
  unfold make_hole. apply triple_bind, (triple_StartingLbn _ _ A r C); [done|done|].
  destruct (Z.eqb_spec (Lbn r) UNUSED_LBN) as [Hh|Hh].
  { apply triple_ret. exists A, (r :: C). split_and!; [done|done|done|by apply split_in_hole]. }
  destruct Hl as [?|Hl]; [done|]. unfold UNUSED_LBN in Hl. apply triple_bind, (triple_StartingVbn _ _ A (r :: C)); [done|done|].
  apply triple_bind. eapply triple_weaken with (R := λ _, False) (Q := λ b L', L' = L ∧ (b = true ↔ fin 0 A = v ∧ out 0 Outside A = Hole)); [|done|].
  { unfold andM. apply triple_bind, triple_ret. destruct (Z.eqb_spec (fin 0 A) v) as [Heq|Hne]; simpl.
    2: { apply triple_ret. split; [done|]. split; [done|]. by intros [? _]. }
    destruct (Z.eqb_spec (zlen A) 0) as [H0|H0]; simpl.
    { apply triple_ret. split; [done|]. destruct A; [by split; [|intros [_ ?]]|]. unfold zlen in H0. simpl in H0. lia. }
    apply triple_bind, (triple_PreviousEndingLbn _ _ A (r :: C)); [done|done|done|]. apply triple_ret. split; [done|].
    pose proof (previous_not_hole A HA) as Hp. rewrite (proj2 (Z.eqb_neq (zlen A) 0) H0), orb_false_r in Hp.
    destruct (last_lbn (out 0 Outside A) =? UNUSED_LBN); simpl in Hp; symmetry in Hp.
    - apply bool_decide_eq_false in Hp. split; [|done]. intros _. split; [done|]. by destruct (decide (out 0 Outside A = Hole)).
    - apply bool_decide_eq_true in Hp. split; [done|]. by intros [_ ?]. }
  intros b L' [-> Hb']. destruct b.
  - destruct Hb' as [[Hf Ho] _]; [done|]. destruct (out_Hole A Ho) as (A0 & h & HA0 & Hhh). apply triple_ret.
    exists A0, (h :: r :: C). assert (HL2 : A ++ r :: C = A0 ++ h :: r :: C) by (by rewrite HA0, <- app_assoc).
    rewrite HL2 in HL', Hmax |- *. rewrite HA0, index_pred by (by rewrite <- HA0). split_and!; [done|done|by apply (pairs_small A0)|].
    pose proof HL as HL3. rewrite HL2 in HL3. rewrite HA0, fin_app in Hf. simpl in Hf.
    destruct (hole_before_parts A0 h r C) as (Hr & H1 & H2 & H3 & H4 & H5 & H6); [by rewrite <- app_assoc|done|].
    apply (shifted_intro A0 [h] [h <| NextVbn := NextVbn h + a |>] (r :: C)); [done|done|done|].
    solve_runs. by destruct (out 0 Outside A0).
  - assert (Hno : ¬ (fin 0 A = v ∧ out 0 Outside A = Hole)) by (intros H'; by apply Hb' in H').
    destruct (Z.eqb_spec (fin 0 A) v) as [Heq|Hne].
    + apply triple_bind, (triple_add' _ _ A (r :: C)); [done|lia| |done]. intros J HJ. destruct J as [|j [|? ?]]; [done| |done]. simpl.
      apply triple_bind, (triple_update' _ A j (r :: C)); [done|done|]. apply triple_bind, triple_update; [done|]. apply triple_ret.
      rewrite (u32_small (v + a)) by lia. exists (A ++ [mkMapping (v + a) UNUSED_LBN]), (r :: C).
      split_and!; [by rewrite <- app_assoc|rewrite index_succ by done; by rewrite zlen_app'|done|]. rewrite <- app_assoc.
      apply split_at_start; [done|done|tauto].
    + apply triple_bind, (triple_add' _ _ A (r :: C)); [done|lia| |done]. intros J HJ. destruct J as [|j [|k [|? ?]]]; [done|done| |done]. simpl.
      rewrite (u32_small (zlen A + 2)), (u32_small (zlen A + 1)), (u32_small (v + a)) by lia.
      apply triple_bind, (triple_entry' _ _ (A ++ [j; k]) r C); [by rewrite <- app_assoc|by rewrite zlen_app'|].
      apply triple_bind, (triple_update' _ A j (k :: r :: C)); [done|done|]. apply triple_bind, triple_update; [done|]. simpl.
      apply triple_bind, (triple_update' _ (A ++ [mkMapping v (Lbn r)]) k (r :: C)); [by rewrite <- app_assoc|by rewrite zlen_app'|].
      apply triple_bind, triple_update; [by rewrite zlen_app'|]. simpl. rewrite <- app_assoc.
      apply triple_bind, (triple_StartingVbn _ _ (A ++ [mkMapping v (Lbn r)]) (mkMapping (v + a) UNUSED_LBN :: r :: C)); [by rewrite <- app_assoc|by rewrite zlen_app'|].
      apply triple_bind, (triple_StartingVbn _ _ A (mkMapping v (Lbn r) :: mkMapping (v + a) UNUSED_LBN :: r :: C)); [done|done|].
      apply triple_bind, (triple_update' _ (A ++ [mkMapping v (Lbn r); mkMapping (v + a) UNUSED_LBN]) r C); [by rewrite <- app_assoc|by rewrite zlen_app'|].
      apply triple_ret. rewrite fin_app. cbn [fin NextVbn]. rewrite u32_small by lia.
      replace (Lbn r + v - fin 0 A) with (Lbn r + (v - fin 0 A)) by lia.
      exists (A ++ [mkMapping v (Lbn r); mkMapping (v + a) UNUSED_LBN]), (r <| Lbn := Lbn r + (v - fin 0 A) |> :: C).
      split_and!; [done|by rewrite zlen_app'|by apply Forall_cons_iff in Hsmall as [? ?]; constructor|]. rewrite <- app_assoc.
      apply split_inside; [done|lia].
Qed.
End at_run.

Lemma split_ok L :
  runs L → 0 ≤ v < 2 ^ 32 → 0 < a → fin 0 L + a < 2 ^ 32 →
  triple L (FsRtlSplitLargeMcb pool v a) (λ L', L' = L ∧ starved pool L')
    (λ b L', b = bool_decide (v < fin 0 L) ∧ if b then shifted L L' v a else L' = L).
Proof.
  intros HL Hv Ha Hmax. pose proof HL as [HL' _]. unfold FsRtlSplitLargeMcb. cbv zeta. pose proof (seg_le _ _ _ HL').
  rewrite (u32_small v), (u32_small a) by lia. apply triple_bind, triple_find; [done|lia| |].
  - intros A r C -> Hin. cbn [negb]. apply triple_bind. eapply triple_weaken; [by apply make_hole_ok|done|].
    intros i L' (P & T & -> & -> & HT & Hsh). apply triple_bind, triple_PairCount. apply triple_bind.
    eapply triple_weaken; [apply (shift_loop_ok T _ P (λ _, False)); [done|rewrite zlen_app'; unfold zlen; lia]|done|].
    intros [] L' ->. apply triple_ret. split; [|done]. symmetry. apply bool_decide_eq_true.
    rewrite fin_app. simpl. apply seg_app in HL' as (_ & _ & _ & HC). apply seg_le in HC. lia.
  - intros Hf. simpl. apply triple_ret. rewrite bool_decide_eq_false_2 by lia. done.
Qed.
End split.
