(* ===== verification/McbSpec.v ===== *)
(** * What a mapping control block promises

    The mapping of blocks to logical blocks as a partial function, the calls that
    change it, and the states that calls reach. *)

From stdpp Require Import base list list_tactics numbers option.
From S2P Require Import Prelude Mcb McbRuns McbLogic McbAdd McbCut McbSplit.

Abbreviation mapping := (Z → option Z) (only parsing).

Inductive call :=
  | Add (Vbn Lbn SectorCount : Z)
  | Remove (Vbn SectorCount : Z)
  | Truncate (Vbn : Z)
  | Split (Vbn Amount : Z).

(** What is asked of the arguments. A new run does not contradict the mapping, has a
    logical block that is not 0, and blocks and logical blocks before 2^32 - 1. *)
Definition valid_call (f : mapping) (k : call) : Prop :=
  match k with
  | Add v l c => new_run v l c ∧ ∀ x y, v ≤ x < v + c → f x = Some y → y = l + (x - v)
  | Remove v c => 0 ≤ v ∧ 0 ≤ c ∧ v + c < 2 ^ 32
  | Truncate v => 0 ≤ v < 2 ^ 32
  | Split v a => 0 ≤ v < 2 ^ 32 ∧ 0 < a < 2 ^ 32 ∧ ∀ x y, 0 ≤ x → f x = Some y → x + 1 + a < 2 ^ 32
  end.

(** The reply and the mapping after the call; no reply when a status is raised. *)
Inductive spec (f : mapping) : call → option bool → mapping → Prop :=
  | spec_add v l c f' :
      (∀ x, 0 ≤ x → f' x = if (v <=? x) && (x <? v + c) then Some (l + (x - v)) else f x) →
      spec f (Add v l c) (Some true) f'
  | spec_add_refused v l c f' :
      (∃ x, v ≤ x < v + c ∧ f x ≠ None) → (∀ x, 0 ≤ x → f' x = f x) → spec f (Add v l c) (Some false) f'
  | spec_add_raised v l c f' : (∀ x, 0 ≤ x → f' x = f x) → spec f (Add v l c) None f'
  | spec_remove v c f' :
      (∀ x, 0 ≤ x → f' x = if (v <=? x) && (x <? v + c) then None else f x) → spec f (Remove v c) (Some true) f'
  | spec_remove_raised v c i f' :
      0 ≤ i ≤ c → (∀ x, 0 ≤ x → f' x = if (v <=? x) && (x <? v + i) then None else f x) →
      spec f (Remove v c) None f'
  | spec_truncate v f' : (∀ x, 0 ≤ x → f' x = if x <? v then f x else None) → spec f (Truncate v) (Some true) f'
  | spec_truncate_raised v i f' :
      0 ≤ i → (∀ x, 0 ≤ x → f' x = if (v <=? x) && (x <? v + i) then None else f x) → spec f (Truncate v) None f'
  | spec_split v a f' :
      (∃ x, v ≤ x ∧ f x ≠ None) →
      (∀ x, 0 ≤ x → f' x = if x <? v then f x else if x <? v + a then None else f (x - a)) →
      spec f (Split v a) (Some true) f'
  | spec_split_none v a f' :
      (∀ x, v ≤ x → f x = None) → (∀ x, 0 ≤ x → f' x = f x) → spec f (Split v a) (Some false) f'
  | spec_split_raised v a f' : (∀ x, 0 ≤ x → f' x = f x) → spec f (Split v a) None f'.

(** ** Executions *)

Definition execute (pool : NONOPAQUE_MCB → Z → option (Z → MAPPING)) (k : call) : mcb bool :=
  match k with
  | Add v l c => FsRtlAddLargeMcbEntry pool v l c
  | Remove v c => FsRtlRemoveLargeMcbEntry pool v c;; ret true
  | Truncate v => FsRtlTruncateLargeMcb pool v;; ret true
  | Split v a => FsRtlSplitLargeMcb pool v a
  end.

(** The reply and the new state; none when an access is outside the array. *)
Definition perform pool (k : call) (M : NONOPAQUE_MCB) : option (option bool * NONOPAQUE_MCB) :=
  match execute pool k M with Wild => None | Raise M' => Some (None, M') | Ret M' b => Some (Some b, M') end.

(** The valid pairs and what they map. *)
Definition pairs (M : NONOPAQUE_MCB) : list MAPPING := take (Z.to_nat (PairCount M)) (Mapping M).
Definition blocks (M : NONOPAQUE_MCB) : mapping := lbn_of (pairs M).

(** The states that calls reach, with any contents of new memory and any allocations
    that fail. *)
Inductive reached : NONOPAQUE_MCB → Prop :=
  | reached_init contents M : FsRtlInitializeLargeMcb true (Some contents) = Some M → reached M
  | reached_call pool k reply M M' :
      reached M → valid_call (blocks M) k → perform pool k M = Some (reply, M') → reached M'.

(** ** Correctness *)

Definition well_formed (M : NONOPAQUE_MCB) : Prop := rep M (pairs M) ∧ runs (pairs M).

Lemma rep_pairs_eq M L : rep M L → pairs M = L.
Proof.
  intros [H1 H2 H3 H4 [T HT]]. unfold pairs. rewrite H4, HT. unfold zlen. by rewrite Nat2Z.id, take_app_length.
Qed.

Lemma well_formed_intro M L : rep M L → runs L → well_formed M ∧ blocks M = lbn_of L.
Proof. intros HM HL. unfold well_formed, blocks. by rewrite (rep_pairs_eq M L HM). Qed.

(** The last block that is mapped. *)
Lemma last_mapped L : runs L → L ≠ [] → ∃ y, lbn_of L (fin 0 L - 1) = Some y.
Proof.
  intros [HL Hend] HL0. destruct L as [|r A _] using rev_ind; [done|]. pose proof HL as HL'. apply seg_app in HL as (HA & [Hr _] & _).
  pose proof (seg_le _ _ _ HA). rewrite fin_app. cbn [fin]. rewrite lbn_at by (done || lia).
  rewrite out_app in Hend. cbn [out] in Hend. unfold leave in Hend. case_decide; [done|]. by eexists.
Qed.

Lemma mapped_below L x y : runs L → 0 ≤ x → lbn_of L x = Some y → x < fin 0 L.
Proof.
  intros [HL _] Hx Hy. destruct (Z.lt_ge_cases x (fin 0 L)) as [|Hge]; [done|]. by rewrite lbn_end in Hy.
Qed.

(** A triple gives what [perform] returns. *)
Lemma perform_triple pool k M R Q :
  rep M (pairs M) → triple (pairs M) (execute pool k) R Q →
  (∀ L, R L → runs L ∧ spec (blocks M) k None (lbn_of L) ∧ starved pool L) →
  (∀ b L, Q b L → runs L ∧ spec (blocks M) k (Some b) (lbn_of L)) →
  ∃ reply M', perform pool k M = Some (reply, M') ∧ spec (blocks M) k reply (blocks M') ∧ well_formed M' ∧
    (reply = None → starved pool (pairs M')).
Proof.
  intros HM Ht HR HQ. specialize (Ht M HM). unfold perform. destruct (execute pool k M) as [|M'|M' b]; [done|..].
  - destruct Ht as (L & HL & Hr). destruct (HR L Hr) as (Hruns & Hs & Hst). destruct (well_formed_intro M' L HL Hruns) as [Hwf Hb].
    exists None, M'. by rewrite Hb, (rep_pairs_eq M' L HL).
  - destruct Ht as (L & HL & Hr). destruct (HQ b L Hr) as [Hruns Hs]. destruct (well_formed_intro M' L HL Hruns) as [Hwf Hb].
    exists (Some b), M'. by rewrite Hb.
Qed.

Lemma not_free_mapped L v c : ¬ free L v c → ∃ x, v ≤ x < v + c ∧ lbn_of L x ≠ None.
Proof.
  intros Hnf. destruct (decide (Exists (λ x, lbn_of L x ≠ None) (seqZ v c))) as [He|He].
  - apply Exists_exists in He as (x & Hx & Hl). exists x. split; [|done]. apply list_elem_of_In, elem_of_seqZ in Hx. lia.
  - destruct Hnf. intros x Hx. destruct (lbn_of L x) as [y|] eqn:Hy; [|done]. destruct He. apply Exists_exists. exists x.
    split; [apply list_elem_of_In, elem_of_seqZ; lia|]. by rewrite Hy.
Qed.

Lemma perform_ok pool k M :
  well_formed M → valid_call (blocks M) k →
  ∃ reply M', perform pool k M = Some (reply, M') ∧ spec (blocks M) k reply (blocks M') ∧ well_formed M' ∧
    (reply = None → starved pool (pairs M')).
Proof.
  intros [HM HL] Hv. pose proof HL as [HL' _]. unfold blocks in Hv. destruct k as [v l c|v c|v|v a]; simpl in Hv.
  - destruct Hv as [Hn Hag]. eapply perform_triple; [done|by apply add_entry_ok|..].
    + intros L [-> Hst]. split_and!; [done|by apply spec_add_raised|done].
    + intros [|] L H; [destruct H as [Hr Hc]; split; [done|by apply spec_add]|]. destruct H as [Hnf ->]. split; [done|].
      apply spec_add_refused; [by apply not_free_mapped|done].
  - destruct Hv as (Hv & Hc & Hvc). eapply perform_triple with (Q := λ b L, b = true ∧ removed (pairs M) L v c) (R := partly pool (pairs M) v c); [done|..].
    + simpl. unfold FsRtlRemoveLargeMcbEntry. rewrite !u32_small by lia. apply triple_bind.
      eapply triple_weaken; [by apply remove_private_ok|done|]. intros [] L H. by apply triple_ret.
    + intros L (i & Hi & (Hr & Hch) & Hst). split_and!; [done|by apply (spec_remove_raised _ _ _ i)|done].
    + intros b L (-> & Hr & Hch). split; [done|]. by apply spec_remove.
  - eapply perform_triple with (Q := λ b L, b = true ∧ truncated (pairs M) L v)
      (R := λ L, (truncated (pairs M) L v ∧ starved pool L) ∨ partly pool (pairs M) v (2 ^ 32 - 1 - v) L); [done|..].
    + simpl. apply triple_bind. eapply triple_weaken; [by apply truncate_ok|done|]. intros [] L H. by apply triple_ret.
    + intros L [[[Hr Ht] Hst]|(i & Hi & (Hr & Hch) & Hst)]; (split; [done|split; [|done]]).
      * apply (spec_truncate_raised _ _ (2 ^ 32)); [lia|]. intros x Hx. rewrite (Ht x Hx). unfold blocks.
        destruct (Z.ltb_spec x v), (Z.leb_spec v x), (Z.ltb_spec x (v + 2 ^ 32)); simpl; try done; try lia.
        symmetry. apply lbn_end; [done|]. pose proof (seg_max 0 _ _ ltac:(lia) HL'). lia.
      * apply (spec_truncate_raised _ _ i); [lia|done].
    + intros b L (-> & Hr & Ht). split; [done|]. by apply spec_truncate.
  - destruct Hv as (Hv & Ha & Hm). assert (Hmax : fin 0 (pairs M) + a < 2 ^ 32).
    { destruct (decide (pairs M = [])) as [->|Hne]; [simpl; lia|]. destruct (last_mapped _ HL Hne) as [y Hy].
      pose proof (seg_fin _ _ _ HL') as Hf. assert (1 ≤ zlen (pairs M)) by (unfold zlen; destruct (pairs M); [done|simpl; lia]).
      specialize (Hm (fin 0 (pairs M) - 1) y ltac:(lia) Hy). lia. }
    eapply perform_triple; [done|apply split_ok; [done|done|lia|done]|..].
    + intros L [-> Hst]. split_and!; [done|by apply spec_split_raised|done].
    + intros b L [-> H]. destruct (bool_decide_reflect (v < fin 0 (pairs M))) as [Hlt|Hge].
      * destruct H as [Hr Hsh]. split; [done|]. apply spec_split; [|done].
        assert (Hne : pairs M ≠ []) by (intros Hnil; rewrite Hnil in Hlt; simpl in Hlt; lia).
        destruct (last_mapped _ HL Hne) as [y Hy]. exists (fin 0 (pairs M) - 1). split; [lia|]. unfold blocks. by rewrite Hy.
      * subst L. split; [done|]. apply spec_split_none; [|done]. intros x Hx. apply lbn_end; [done|lia].
Qed.

Lemma reached_well_formed M : reached M → well_formed M.
Proof.
  induction 1 as [contents M HM|pool k reply M M' _ IH Hv Hp].
  - injection HM as <-. apply (well_formed_intro _ []); [|by split]. by split; [..|eexists].
  - destruct (perform_ok pool k M IH Hv) as (reply' & M'' & Hp' & _ & Hwf & _). rewrite Hp in Hp'. by injection Hp' as _ <-.
Qed.
