(* ===== verification/McbQueries.v ===== *)
(** * Queries *)

From stdpp Require Import base list list_tactics numbers option.
From S2P Require Import Prelude Mcb McbRuns McbLogic McbAdd McbCut McbSpec.

(** ** Operations that only read *)

Definition reads {A} (m : mcb A) : Prop := ∀ M, match m M with Wild => True | Raise _ => False | Ret M' _ => M' = M end.

Lemma reads_ret {A} (a : A) : reads (ret a).
Proof. by intros M. Qed.
Lemma reads_bind {A B} (m : mcb A) (k : A → mcb B) : reads m → (∀ a, reads (k a)) → reads (bind m k).
Proof. intros Hm Hk M. unfold bind. specialize (Hm M). destruct (m M) as [|M'|M' a]; [done|done|]. subst M'. apply Hk. Qed.
Lemma reads_if {A} (b : bool) (m m' : mcb A) : reads m → reads m' → reads (if b then m else m').
Proof. by destruct b. Qed.
Lemma reads_entry i : reads (entry i).
Proof. intros M. unfold entry. by destruct (array_get _ _). Qed.
Lemma reads_PairCount : reads get_PairCount.
Proof. by intros M. Qed.

Create HintDb mcb discriminated.
#[export] Hint Resolve reads_ret reads_entry reads_PairCount : mcb.

Ltac solve_reads := repeat first [solve [auto with mcb]|apply reads_bind|apply reads_if|intros [? ?]|intros ?].

Lemma reads_StartingVbn i : reads (StartingVbn i).
Proof. unfold StartingVbn. solve_reads. Qed.
Lemma reads_EndingVbn i : reads (EndingVbn i).
Proof. unfold EndingVbn. solve_reads. Qed.
Lemma reads_StartingLbn i : reads (StartingLbn i).
Proof. unfold StartingLbn. solve_reads. Qed.
Lemma reads_EndingLbn i : reads (EndingLbn i).
Proof. unfold EndingLbn, StartingVbn, StartingLbn. solve_reads. Qed.
Lemma reads_Sectors i : reads (SectorsWithinRun i).
Proof. unfold SectorsWithinRun, StartingVbn, EndingVbn. solve_reads. Qed.

Lemma reads_find v : reads (FsRtlFindLargeIndex v).
Proof.
  unfold FsRtlFindLargeIndex. apply reads_bind; [apply reads_PairCount|]. intros n. apply reads_bind; [|intros; apply reads_ret].
  generalize (S (Z.to_nat n)), 0, (s32 (n - 1)). induction n0 as [|fuel IH]; intros a b; simpl; (apply reads_if; [|apply reads_ret]).
  - by intros M.
  - apply reads_bind; [apply reads_StartingVbn|]. intros s. apply reads_if; [apply IH|].
    apply reads_bind; [apply reads_EndingVbn|]. intros e. apply reads_if; [apply IH|apply reads_ret].
Qed.

#[export] Hint Resolve reads_StartingVbn reads_EndingVbn reads_StartingLbn reads_EndingLbn reads_Sectors reads_find : mcb.

(** What a reading operation returns. *)
Lemma reads_result {A} (m : mcb A) M L Q :
  rep M L → reads m → triple L m (λ _, False) Q → ∃ a, m M = Ret M a ∧ Q a L.
Proof.
  intros HM Hr Ht. specialize (Hr M). specialize (Ht M HM). destruct (m M) as [|M'|M' a]; [done|by destruct Ht as (? & _ & ?)|]. subst M'.
  destruct Ht as (L' & HM' & H). exists a. split; [done|]. rewrite <- (rep_pairs_eq M L HM). by rewrite (rep_pairs_eq M L' HM').
Qed.

(** ** Maximal runs *)

(** The [n] blocks from [s] on are mapped one after the other, or none of them is, and
    the blocks before and after are not part of this run. *)
Definition maximal_run (f : Z → option Z) (s n : Z) : Prop :=
  0 < n ∧ (∀ i, 0 ≤ i < n → f (s + i) = (λ l, l + i) <$> f s) ∧
  f (s + n) ≠ (λ l, l + n) <$> f s ∧ (0 < s → f s ≠ (λ l, l + 1) <$> f (s - 1)).

(** The logical block of a query, -1 in a hole. *)
Definition lbn_or_unused (o : option Z) : Z := default (-1) o.

Section run.
Context (A : list MAPPING) (r : MAPPING) (C : list MAPPING).
Hypothesis HL : runs (A ++ r :: C).

Abbreviation L := (A ++ r :: C).
Abbreviation s := (fin 0 A).

Lemma run_lbn x : s ≤ x < NextVbn r → lbn_of L x = (λ l, l + (x - s)) <$> lbn_of L s.
Proof using HL.
  intros Hx. destruct HL as [HL' _]. rewrite !lbn_at by (done || lia). case_decide; [done|]. simpl. f_equal. lia.
Qed.

Lemma run_after : lbn_of L (NextVbn r) ≠ (λ l, l + (NextVbn r - s)) <$> lbn_of L s.
Proof using HL.
  pose proof HL as [HL' Hend]. pose proof HL' as HL2. apply seg_app in HL2 as (HA & HrC). rewrite out_app in Hend.
  destruct HrC as ([Hr _] & HrC). pose proof (seg_le _ _ _ HA). rewrite (lbn_at A r C s) by (done || lia). unfold lbn_of. rewrite (vlbn_app 0 Outside A) by (done || lia).
  rewrite (proj2 (Z.ltb_ge _ _)) by lia.
  pose proof (vlbn_after s (out 0 Outside A) r C ltac:(apply seg_app in HL' as (_ & ?); done) Hend) as Hafter.
  simpl. rewrite Z.ltb_irrefl. case_decide; [done|]. simpl. intros Heq. apply Hafter. rewrite Heq. f_equal. lia.
Qed.

Lemma run_before : 0 < s → lbn_of L s ≠ (λ l, l + 1) <$> lbn_of L (s - 1).
Proof using HL.
  intros Hs. destruct A as [|p A0 _] using rev_ind; [done|]. clear A. rename A0 into A.
  destruct HL as [HL' _]. pose proof HL' as HL2. rewrite <- app_assoc in HL2. apply seg_app in HL2 as (HA & [Hp _] & _ & [Hr _] & Hap & _).
  pose proof (seg_le _ _ _ HA). rewrite fin_app in *. cbn [fin] in *. rewrite (lbn_at (A ++ [p]) r C) by (done || (rewrite fin_app; simpl; lia)).
  rewrite <- app_assoc in *. simpl in HL' |- *. rewrite (lbn_at A p (r :: C)) by (done || lia). rewrite fin_app. simpl.
  unfold leave, enter in Hap. repeat case_decide; simpl in *; try done. intros [= Heq]. apply Hap. lia.
Qed.

Lemma run_maximal : maximal_run (lbn_of L) s (NextVbn r - s).
Proof using HL.
  pose proof HL as [HL' _]. apply seg_app in HL' as (HA & [Hr _] & _). split_and!; [lia|..].
  - intros i Hi. rewrite run_lbn by lia. by replace (s + i - s) with i by lia.
  - replace (s + (NextVbn r - s)) with (NextVbn r) by lia. apply run_after.
  - apply run_before.
Qed.

(** The low word of a logical block. *)
Lemma large_lbn x :
  s ≤ x < NextVbn r → large (if decide (hole r) then UNUSED_LBN else Lbn r + (x - s)) = lbn_or_unused (lbn_of L x).
Proof using HL.
  intros Hx. pose proof HL as [HL' _]. pose proof HL' as HL2. apply seg_app in HL2 as (HA & [Hr Hl] & _). rewrite lbn_at by done.
  unfold large. case_decide; [done|]. destruct Hl as [?|Hl]; [done|]. rewrite (proj2 (Z.eqb_neq _ _)) by lia. done.
Qed.
End run.
