(* ===== verification/McbTheorems.v ===== *)
(** * Theorems on mapping control blocks *)

From stdpp Require Import base list list_tactics numbers option.
From S2P Require Import Prelude Mcb McbRuns McbLogic McbAdd McbCut McbSpec McbQueries.

(** ** Calls *)

(** C29: In every state that calls reach from initialization, with any contents of new memory and any
    allocations that fail, a call with valid arguments accesses the array inside its bounds only, and
    its reply and the new mapping are those of the specification: a run is added, removed, cut off or
    shifted on exactly its blocks. A run is refused only if a block of it is mapped, and then the mapping
    stays. A status is raised only if an allocation fails or there are more than 2^26 pairs, and then
    the mapping stays or has lost a beginning of the range. *)
Theorem mcb_refines_mapping M pool k :
  reached M → valid_call (blocks M) k →
  ∃ reply M', perform pool k M = Some (reply, M') ∧ spec (blocks M) k reply (blocks M') ∧ reached M' ∧
    (reply = None → (∃ M bytes, pool M bytes = None) ∨ 2 ^ 26 < PairCount M').
Proof.
  intros HM Hv. destruct (perform_ok pool k M (reached_well_formed M HM) Hv) as (reply & M' & Hp & Hs & [Hr _] & Hst).
  exists reply, M'. split_and!; [done|done|by eapply reached_call|]. by rewrite (rep_count _ _ Hr).
Qed.

Definition fresh : NONOPAQUE_MCB :=
  mkMcb INITIAL_MAXIMUM_PAIR_COUNT 0 ((λ _, mkMapping 0 0) <$> seqZ 0 INITIAL_MAXIMUM_PAIR_COUNT).

Lemma fresh_reached : reached fresh.
Proof. by apply (reached_init (λ _, mkMapping 0 0)). Qed.

Definition give : NONOPAQUE_MCB → Z → option (Z → MAPPING) := λ _ _, Some (λ _, mkMapping 0 0).

Lemma mcb_refines_mapping_witness :
  (∃ reply M', perform give (Add 5 100 10) fresh = Some (reply, M') ∧
    spec (blocks fresh) (Add 5 100 10) reply (blocks M') ∧ reached M' ∧
    (reply = None → (∃ M bytes, give M bytes = None) ∨ 2 ^ 26 < PairCount M')) ∧
  perform give (Add 5 100 10) fresh =
    Some (Some true, fresh <| PairCount := 2 |> <| Mapping :=
      mkMapping 5 UNUSED_LBN :: mkMapping 15 100 :: drop 2 (Mapping fresh) |>).
Proof.
  split; [apply (mcb_refines_mapping fresh give (Add 5 100 10))|reflexivity].
  - apply fresh_reached.
  - split; [unfold new_run, UNUSED_LBN; lia|]. intros x y Hx Hy. discriminate Hy.
Defined.

(** C30: The mapping determines the pairs: two reachable blocks that map the same have the same pairs,
    whatever the order of the calls, the old contents of memory and the sizes of the arrays. So the runs
    are as long as they can be, and every query but the search has the same answer. *)
Theorem mcb_runs_canonical M M' :
  reached M → reached M' → (∀ x, 0 ≤ x → blocks M x = blocks M' x) → PairCount M = PairCount M' ∧ pairs M = pairs M'.
Proof.
  intros HM HM' Heq. destruct (reached_well_formed M HM) as [Hr HL], (reached_well_formed M' HM') as [Hr' HL'].
  assert (Hp : pairs M = pairs M') by (by apply runs_unique). split; [|done]. by rewrite (rep_count _ _ Hr), (rep_count _ _ Hr'), Hp.
Qed.

(** Blocks 0 to 2 of a file, added in two orders. *)
Definition after (k : call) (M : NONOPAQUE_MCB) : NONOPAQUE_MCB :=
  match perform give k M with Some (_, M') => M' | None => M end.

Definition forward : NONOPAQUE_MCB := after (Add 1 108 2) (after (Add 0 107 1) fresh).
Definition backward : NONOPAQUE_MCB := after (Add 1 108 1) (after (Add 0 107 1) (after (Add 2 109 1) fresh)).

Lemma after_reached k M : reached M → valid_call (blocks M) k → reached (after k M).
Proof.
  intros HM Hv. unfold after. destruct (perform give k M) as [[reply M']|] eqn:Hp; [|done]. by eapply reached_call.
Qed.

Lemma add_reached M L v l c :
  reached M → pairs M = L → new_run v l c → (∀ x, v ≤ x < v + c → lbn_of L x = None) → reached (after (Add v l c) M).
Proof.
  intros HM HL Hn Hfree. apply after_reached; [done|]. split; [done|]. intros x y Hx. unfold blocks. by rewrite HL, Hfree.
Qed.

Lemma orders_reached : reached forward ∧ reached backward.
Proof.
  assert (Hn : ∀ v l c, 0 ≤ v < 10 → 0 < l < 1000 → 0 < c < 10 → new_run v l c) by (unfold new_run, UNUSED_LBN; lia).
  assert (H1 : reached (after (Add 0 107 1) fresh)) by (by apply (add_reached _ []); [apply fresh_reached|reflexivity|apply Hn; lia|]).
  assert (H2 : reached (after (Add 2 109 1) fresh)) by (by apply (add_reached _ []); [apply fresh_reached|reflexivity|apply Hn; lia|]).
  split.
  - apply (add_reached _ [mkMapping 1 107]); [done|vm_compute; reflexivity|apply Hn; lia|]. intros x Hx. unfold lbn_of. simpl.
    by rewrite (proj2 (Z.ltb_ge x 1)) by lia.
  - apply (add_reached _ [mkMapping 1 107; mkMapping 2 UNUSED_LBN; mkMapping 3 109]); [|vm_compute; reflexivity|apply Hn; lia|].
    + apply (add_reached _ [mkMapping 2 UNUSED_LBN; mkMapping 3 109]); [done|vm_compute; reflexivity|apply Hn; lia|]. intros x Hx.
      assert (x = 0) as -> by lia. reflexivity.
    + intros x Hx. assert (x = 1) as -> by lia. reflexivity.
Qed.

Lemma mcb_runs_canonical_witness :
  forward ≠ backward ∧ PairCount forward = PairCount backward ∧ pairs forward = pairs backward.
Proof.
  split; [vm_compute; discriminate|]. apply (mcb_runs_canonical forward backward).
  - apply orders_reached.
  - apply orders_reached.
  - reflexivity.
Defined.

(** ** Queries *)

Lemma lookup_ok L v Out :
  runs L → 0 ≤ v < 2 ^ 32 →
  triple L (FsRtlLookupLargeMcbEntry v Out) (λ _, False) (λ '(b, o) _,
    b = bool_decide (v < fin 0 L) ∧
    (b = true → ∃ A r C, L = A ++ r :: C ∧ fin 0 A ≤ v < NextVbn r ∧
      o = mkLookup (lbn_or_unused (lbn_of L v)) (NextVbn r - v) (lbn_or_unused (lbn_of L (fin 0 A))) (NextVbn r - fin 0 A) (zlen A)) ∧
    (b = false → o = mkLookup (large (LookupLbn Out)) (LookupSectorCount Out) (large (LookupStartingLbn Out))
      (LookupCountFromStartingLbn Out) (LookupIndex Out))).
Proof.
  intros HL Hv. pose proof HL as [HL' _]. unfold FsRtlLookupLargeMcbEntry. cbv zeta. rewrite (u32_small v) by lia.
  apply triple_bind, triple_find; [done|lia| |].
  - intros A r C -> Hin. cbn [negb]. destruct (run_parts A r C HL) as (Hs & HN & Hl & _).
    apply triple_bind, triple_bind, (triple_StartingLbn _ _ A r C); [done|done|].
    apply triple_bind, (triple_StartingVbn _ _ A (r :: C)); [done|done|].
    apply triple_bind, (triple_EndingVbn _ _ A r C); [done|done|]. apply triple_ret. apply triple_ret. simpl.
    assert (Hfin : v < fin 0 (A ++ r :: C)).
    { rewrite fin_app. simpl. apply seg_app in HL' as (_ & _ & _ & HC). apply seg_le in HC. lia. }
    rewrite bool_decide_eq_true_2 by done. split_and!; [done| |done]. intros _. exists A, r, C. split_and!; [done|lia|lia|].
    rewrite (u32_small (NextVbn r - 1)) by lia. rewrite (u32_small (v - fin 0 A)), (u32_small (NextVbn r - 1 - v + 1)), (u32_small (NextVbn r - 1 - fin 0 A + 1)) by lia.
    rewrite <- (large_lbn A r C HL v) by lia. rewrite <- (large_lbn A r C HL (fin 0 A)) by lia.
    assert (Hu : Lbn r + (v - fin 0 A) = u32 (Lbn r + (v - fin 0 A)) ∨ hole r).
    { destruct Hl as [?|Hl]; [by right|left]. unfold UNUSED_LBN in Hl. rewrite u32_small; lia. }
    f_equal; [|lia| |lia].
    + destruct (Z.eqb_spec (Lbn r) UNUSED_LBN) as [Hh|Hh]; [by rewrite decide_True|]. rewrite decide_False by done. by destruct Hu as [<-|?].
    + case_decide as Hh; [by rewrite Hh|]. by replace (Lbn r + (fin 0 A - fin 0 A)) with (Lbn r) by lia.
  - intros Hf. cbn [negb]. apply triple_bind, triple_ret, triple_ret. rewrite bool_decide_eq_false_2 by lia. done.
Qed.

Lemma reads_lookup v Out : reads (FsRtlLookupLargeMcbEntry v Out).
Proof.
  unfold FsRtlLookupLargeMcbEntry. cbv zeta. apply reads_bind; [apply reads_find|]. intros [b i]. apply reads_bind; [|intros o; apply reads_ret].
  apply reads_if; [apply reads_ret|]. apply reads_bind; [apply reads_StartingLbn|]. intros l.
  apply reads_bind; [apply reads_StartingVbn|]. intros s. apply reads_bind; [apply reads_EndingVbn|]. intros e. apply reads_ret.
Qed.

Lemma below_end L v : runs L → 0 ≤ v → v < fin 0 L ↔ ∃ x, v ≤ x ∧ lbn_of L x ≠ None.
Proof.
  intros HL Hv. split.
  - intros Hlt. assert (HL0 : L ≠ []) by (intros ->; simpl in Hlt; lia). destruct (last_mapped L HL HL0) as [y Hy].
    exists (fin 0 L - 1). rewrite Hy. split; [lia|done].
  - intros (x & Hx & Hn). destruct (lbn_of L x) as [y|] eqn:Hy; [|done]. pose proof (mapped_below L x y HL ltac:(lia) Hy). lia.
Qed.

(** C31: FsRtlLookupLargeMcbEntry of a reachable block changes nothing and returns TRUE exactly if the
    block or a later one is mapped. Then it gives the logical block, or -1 in a hole (the description
    of its arguments says so; its example and two comments in the body say zero), where the longest
    run around the block begins, its size and what is left of it. Otherwise the outputs are what the
    caller's variables held, but for their high words. *)
Theorem mcb_lookup_correct M v Out :
  reached M → 0 ≤ v < 2 ^ 32 →
  ∃ b o, FsRtlLookupLargeMcbEntry v Out M = Ret M (b, o) ∧ (b = true ↔ ∃ x, v ≤ x ∧ blocks M x ≠ None) ∧
    (b = true → LookupLbn o = lbn_or_unused (blocks M v) ∧
      ∃ s, 0 ≤ s ≤ v ∧ v < s + LookupCountFromStartingLbn o ∧ maximal_run (blocks M) s (LookupCountFromStartingLbn o) ∧
        LookupStartingLbn o = lbn_or_unused (blocks M s) ∧ LookupSectorCount o = s + LookupCountFromStartingLbn o - v) ∧
    (b = false → LookupLbn o = large (LookupLbn Out) ∧ LookupSectorCount o = LookupSectorCount Out ∧ LookupIndex o = LookupIndex Out).
Proof.
  intros HM Hv. destruct (reached_well_formed M HM) as [Hr HL].
  destruct (reads_result _ M _ _ Hr (reads_lookup v Out) (lookup_ok _ v Out HL Hv)) as ([b o] & Heq & -> & Ht & Hf).
  exists (bool_decide (v < fin 0 (pairs M))), o. split_and!; [done| | |].
  - rewrite bool_decide_eq_true. by apply below_end; [|lia].
  - intros Hb. destruct (Ht Hb) as (A & r & C & HA & Hin & ->). simpl. split; [done|]. exists (fin 0 A). unfold blocks. rewrite HA in HL |- *.
    destruct (run_parts A r C HL) as (Hs & _). split; [lia|]. split; [lia|]. split; [by apply run_maximal|]. split; [done|lia].
  - intros Hb. by rewrite (Hf Hb).
Qed.

Lemma mcb_lookup_correct_witness :
  ∃ b o, FsRtlLookupLargeMcbEntry 1 (mkLookup 0 0 0 0 0) forward = Ret forward (b, o) ∧ b = true ∧ LookupLbn o = 108 ∧ LookupSectorCount o = 2.
Proof.
  destruct (mcb_lookup_correct forward 1 (mkLookup 0 0 0 0 0)) as (b & o & Heq & _ & _ & _); [apply orders_reached|lia|].
  exists b, o. split; [done|]. vm_compute in Heq. injection Heq as <- <-. done.
Defined.

Lemma large_small x : 0 ≤ x < UNUSED_LBN → large x = x.
Proof. intros Hx. unfold large. by rewrite (proj2 (Z.eqb_neq _ _)) by lia. Qed.

Lemma get_next_ok A r C Out :
  runs (A ++ r :: C) →
  triple (A ++ r :: C) (FsRtlGetNextLargeMcbEntry (zlen A) Out) (λ _, False) (λ a _,
    a = (true, (fin 0 A, lbn_or_unused (lbn_of (A ++ r :: C) (fin 0 A)), NextVbn r - fin 0 A))).
Proof.
  intros HL. destruct (run_parts A r C HL) as (Hs & HN & Hl & _). unfold FsRtlGetNextLargeMcbEntry. apply triple_bind, triple_PairCount.
  rewrite (proj2 (Z.leb_gt _ _)) by (rewrite zlen_app', zlen_cons'; pose proof (zlen_nonneg' C); lia).
  apply triple_bind, triple_bind, (triple_StartingVbn _ _ A (r :: C)); [done|done|].
  apply triple_bind, (triple_StartingLbn _ _ A r C); [done|done|].
  apply triple_bind, (triple_SectorsWithinRun _ _ A r C); [done|done|lia|lia|]. apply triple_ret, triple_ret.
  rewrite large_small by (unfold UNUSED_LBN; lia). rewrite <- (large_lbn A r C HL) by lia. do 3 f_equal.
  case_decide as Hh; [by rewrite Hh|]. by replace (Lbn r + (fin 0 A - fin 0 A)) with (Lbn r) by lia.
Qed.

Lemma last_ok A r Out :
  runs (A ++ [r]) →
  triple (A ++ [r]) (FsRtlLookupLastLargeMcbEntry Out) (λ _, False) (λ a _,
    a = (true, (NextVbn r - 1, lbn_or_unused (lbn_of (A ++ [r]) (NextVbn r - 1))))).
Proof.
  intros HL. destruct (run_parts A r [] HL) as (Hs & HN & Hl & _). pose proof HL as [HL' _]. apply seg_app in HL' as (HA & Hg & _).
  apply triple_bound. intros Hb. unfold FsRtlLookupLastLargeMcbEntry. apply triple_bind, triple_PairCount.
  rewrite (proj2 (Z.leb_gt _ _)) by (rewrite zlen_app'; change (zlen [r]) with 1; pose proof (zlen_nonneg' A); lia).
  rewrite index_pred by done. apply triple_bind, triple_bind, (triple_EndingLbn _ _ A r []); [done|done|done|lia|].
  apply triple_bind, (triple_EndingVbn _ _ A r []); [done|done|]. apply triple_ret, triple_ret.
  rewrite u32_small by lia. rewrite (large_small (NextVbn r - 1)) by (unfold UNUSED_LBN; lia). rewrite <- (large_lbn A r [] HL) by lia. do 3 f_equal.
  unfold leave. case_decide; [done|]. simpl. lia.
Qed.

Lemma reads_get_next i Out : reads (FsRtlGetNextLargeMcbEntry i Out).
Proof.
  unfold FsRtlGetNextLargeMcbEntry. apply reads_bind; [apply reads_PairCount|]. intros n. apply reads_bind; [|intros [b [[v l] c]]; apply reads_ret].
  apply reads_if; [apply reads_ret|]. apply reads_bind; [apply reads_StartingVbn|]. intros v.
  apply reads_bind; [apply reads_StartingLbn|]. intros l. apply reads_bind; [apply reads_Sectors|]. intros c. apply reads_ret.
Qed.

Lemma reads_last Out : reads (FsRtlLookupLastLargeMcbEntry Out).
Proof.
  unfold FsRtlLookupLastLargeMcbEntry. apply reads_bind; [apply reads_PairCount|]. intros n. apply reads_bind; [|intros [b [v l]]; apply reads_ret].
  apply reads_if; [apply reads_ret|]. apply reads_bind; [apply reads_EndingLbn|]. intros l.
  apply reads_bind; [apply reads_EndingVbn|]. intros v. apply reads_ret.
Qed.

(** C32: The runs that FsRtlGetNextLargeMcbEntry enumerates in a reachable block are the longest runs and
    holes of its mapping, one after the other from block 0 to the last mapped block, as many as
    FsRtlNumberOfRunsInLargeMcb says; FsRtlLookupLastLargeMcbEntry gives that last block. Past the last
    run the outputs keep their low words. *)
Theorem mcb_enumeration_correct M :
  reached M →
  ∃ start : nat → Z, let n := Z.to_nat (PairCount M) in
    FsRtlNumberOfRunsInLargeMcb M = Ret M (Z.of_nat n) ∧ start 0%nat = 0 ∧
    (∀ i Out, (i < n)%nat →
      FsRtlGetNextLargeMcbEntry (Z.of_nat i) Out M =
        Ret M (true, (start i, lbn_or_unused (blocks M (start i)), start (S i) - start i)) ∧
      maximal_run (blocks M) (start i) (start (S i) - start i)) ∧
    (∀ i v l c, Z.of_nat n ≤ i → FsRtlGetNextLargeMcbEntry i (v, l, c) M = Ret M (false, (large v, large l, c))) ∧
    (∀ x, start n ≤ x → blocks M x = None) ∧
    (∀ Out, (0 < n)%nat → FsRtlLookupLastLargeMcbEntry Out M =
      Ret M (true, (start n - 1, lbn_or_unused (blocks M (start n - 1)))) ∧ blocks M (start n - 1) ≠ None).
Proof.
  intros HM. destruct (reached_well_formed M HM) as [Hr HL]. exists (λ i, fin 0 (take i (pairs M))). cbv zeta.
  pose proof (rep_count _ _ Hr) as Hn. assert (Hlen : Z.to_nat (PairCount M) = length (pairs M)) by (rewrite Hn; unfold zlen; lia).
  rewrite Hlen. unfold blocks. split_and!.
  - change (Ret M (PairCount M) = Ret M (Z.of_nat (length (pairs M)))). by rewrite Hn.
  - done.
  - intros i Out Hi. destruct (lookup_lt_is_Some_2 _ _ Hi) as [r Hri]. pose proof (take_drop_middle _ _ _ Hri) as Hmid.
    assert (Hzi : Z.of_nat i = zlen (take i (pairs M))) by (unfold zlen; rewrite length_take; lia).
    assert (Hnext : fin 0 (take (S i) (pairs M)) = NextVbn r) by (rewrite (take_S_r _ _ r) by done; by rewrite fin_app).
    rewrite Hnext. rewrite <- Hmid in HL. pose proof (get_next_ok _ _ _ Out HL) as Ht. pose proof (run_maximal _ _ _ HL) as Hmax.
    rewrite Hmid in Ht, Hmax. split; [|done]. rewrite Hzi.
    destruct (reads_result _ M _ _ Hr (reads_get_next _ Out) Ht) as (a & -> & ->). done.
  - intros i v l c Hi. unfold FsRtlGetNextLargeMcbEntry, bind. simpl. rewrite Hn. unfold zlen. by rewrite (proj2 (Z.leb_le _ _)) by lia.
  - intros x. rewrite take_ge by lia. intros Hx. destruct HL as [HL _]. by apply lbn_end.
  - intros Out Hpos. rewrite take_ge by lia. assert (Hne : pairs M ≠ []) by (intros Hnil; rewrite Hnil in Hpos; simpl in Hpos; lia).
    destruct (last_mapped _ HL Hne) as [y Hy]. split; [|by rewrite Hy]. clear Hy.
    destruct (pairs M) as [|r A _] eqn:Hp using rev_ind; [done|].
    destruct (reads_result _ M _ _ Hr (reads_last Out) (last_ok A r Out HL)) as (a & -> & ->). by rewrite fin_app.
Qed.

Lemma mcb_enumeration_correct_witness :
  ∃ start : nat → Z, FsRtlGetNextLargeMcbEntry 0 (0, 0, 0) forward = Ret forward (true, (start 0%nat, 107, 3)) ∧ start 0%nat = 0.
Proof.
  destruct (mcb_enumeration_correct forward) as (start & _ & H0 & Hi & _); [apply orders_reached|].
  exists start. split; [|done]. destruct (Hi 0%nat (0, 0, 0)) as [Heq _]; [vm_compute; lia|]. rewrite H0. reflexivity.
Defined.

(** ** An argument that is ignored *)

(** A run that begins inside a mapped run is not compared with it: where blocks 10 to 19 are mapped
    to 100, adding blocks 12 to 14 at 900 returns TRUE and changes nothing, and adding blocks 12 to 24 at
    900 returns TRUE and maps blocks 20 to 24 to 110. *)
Theorem mcb_add_ignores_lbn :
  let M := after (Add 10 100 10) fresh in
  reached M ∧ perform give (Add 12 900 3) M = Some (Some true, M) ∧
  ∃ M', perform give (Add 12 900 13) M = Some (Some true, M') ∧ blocks M' 12 = Some 102 ∧ blocks M' 20 = Some 110.
Proof.
  cbv zeta. split_and!.
  - apply (add_reached _ []); [apply fresh_reached|reflexivity|unfold new_run, UNUSED_LBN; lia|done].
  - vm_compute. reflexivity.
  - eexists. split; [vm_compute; reflexivity|]. by vm_compute.
Qed.
