(* ===== verification/AclMem.v ===== *)
(** * Memory for security structures

    The mapped bytes of memory by address; a load or store outside them is [None].
    Values of two and four bytes have their low byte first. *)

From stdpp Require Import base list numbers option gmap.
From S2P Require Import Prelude.

Abbreviation Mem := (gmap Z Z).

Definition load8 (m : Mem) (a : Z) : option Z := m !! a.
Definition load16 (m : Mem) (a : Z) : option Z := x ← load8 m a; y ← load8 m (a + 1); Some (x + 2 ^ 8 * y).
Definition load32 (m : Mem) (a : Z) : option Z := x ← load16 m a; y ← load16 m (a + 2); Some (x + 2 ^ 16 * y).

Definition store8 (m : Mem) (a v : Z) : option Mem := _ ← m !! a; Some (<[a := u8 v]> m).
Definition store16 (m : Mem) (a v : Z) : option Mem := m ← store8 m a v; store8 m (a + 1) (v / 2 ^ 8).
Definition store32 (m : Mem) (a v : Z) : option Mem := m ← store16 m a v; store16 m (a + 2) (v / 2 ^ 16).

Fixpoint load_bytes (m : Mem) (a : Z) (n : nat) : option (list Z) :=
  match n with O => Some [] | S n => b ← load8 m a; l ← load_bytes m (a + 1) n; Some (b :: l) end.

Fixpoint store_bytes (m : Mem) (a : Z) (l : list Z) : option Mem :=
  match l with [] => Some m | b :: l => m ← store8 m a b; store_bytes m (a + 1) l end.

(** [RtlMoveMemory]: the source may overlap the destination. *)
Definition RtlMoveMemory (m : Mem) (to from n : Z) : option Mem :=
  l ← load_bytes m from (Z.to_nat n); store_bytes m to l.

(** How many bytes are equal before the first that differ. *)
Fixpoint equal_bytes (l l' : list Z) : Z :=
  match l, l' with b :: l, b' :: l' => if b =? b' then 1 + equal_bytes l l' else 0 | _, _ => 0 end.

Definition RtlCompareMemory (m : Mem) (a a' n : Z) : option Z :=
  l ← load_bytes m a (Z.to_nat n); l' ← load_bytes m a' (Z.to_nat n); Some (equal_bytes l l').

(** ** Little-endian lists *)

Definition le16 (v : Z) : list Z := [u8 v; u8 (v / 2 ^ 8)].
Definition le32 (v : Z) : list Z := le16 v ++ le16 (v / 2 ^ 16).

(** [l] is in memory at [a]. *)
Definition holds (m : Mem) (a : Z) (l : list Z) : Prop := ∀ i b, l !! i = Some b → m !! (a + Z.of_nat i) = Some b.

(** The memories agree outside the [n] bytes at [a]. *)
Definition agree_outside (a n : Z) (m m' : Mem) : Prop := ∀ x, x < a ∨ a + n ≤ x → m' !! x = m !! x.

Definition byte_list (l : list Z) : Prop := Forall (λ b, 0 ≤ b < 2 ^ 8) l.

(** ** Lemmas *)

Lemma holds_nil m a : holds m a [].
Proof. intros i b H. done. Qed.

Lemma holds_cons m a b l : holds m a (b :: l) ↔ m !! a = Some b ∧ holds m (a + 1) l.
Proof.
  split.
  - intros H. split; [specialize (H 0%nat b eq_refl); by rewrite Z.add_0_r in H|].
    intros i x Hi. specialize (H (S i) x Hi). by replace (a + Z.of_nat (S i)) with (a + 1 + Z.of_nat i) in H by lia.
  - intros [H1 H2] [|i] x Hi; simpl in Hi; [injection Hi as ->; by rewrite Z.add_0_r|].
    replace (a + Z.of_nat (S i)) with (a + 1 + Z.of_nat i) by lia. by apply H2.
Qed.

Lemma holds_app m a l l' : holds m a (l ++ l') ↔ holds m a l ∧ holds m (a + zlen l) l'.
Proof.
  revert a. induction l as [|b l IH]; intros a; simpl.
  - unfold zlen. simpl. rewrite Z.add_0_r. split; [split; [apply holds_nil|done]|by intros [_ ?]].
  - rewrite !holds_cons, IH. replace (a + 1 + zlen l) with (a + zlen (b :: l)) by (unfold zlen; simpl; lia). tauto.
Qed.

Lemma holds_agree m m' a l c n :
  holds m a l → agree_outside c n m m' → a + zlen l ≤ c ∨ c + n ≤ a → holds m' a l.
Proof.
  intros H Hag Hd i b Hi. rewrite Hag; [by apply H|]. apply lookup_lt_Some in Hi. unfold zlen in Hd. lia.
Qed.

Lemma agree_refl a n m : agree_outside a n m m.
Proof. by intros x _. Qed.

Lemma agree_trans a n m m' m'' : agree_outside a n m m' → agree_outside a n m' m'' → agree_outside a n m m''.
Proof. intros H H' x Hx. by rewrite H', H. Qed.

Lemma agree_wider a n b k m m' : agree_outside a n m m' → b ≤ a → a + n ≤ b + k → agree_outside b k m m'.
Proof. intros H H1 H2 x Hx. apply H. lia. Qed.

Lemma load_bytes_holds m a l : holds m a l → load_bytes m a (length l) = Some l.
Proof.
  revert a. induction l as [|b l IH]; intros a; [done|]. rewrite holds_cons. intros [H1 H2]. simpl. unfold load8. rewrite H1. simpl. by rewrite IH.
Qed.

Lemma load_bytes_inv m a n l : load_bytes m a n = Some l → holds m a l ∧ length l = n.
Proof.
  revert a l. induction n as [|n IH]; intros a l; simpl; [intros [= <-]; split; [apply holds_nil|done]|].
  unfold load8. destruct (m !! a) as [b|] eqn:Hb; [|done]. simpl. destruct (load_bytes m (a + 1) n) as [l'|] eqn:Hl; [|done].
  intros [= <-]. apply IH in Hl as [Hl Hn]. split; [by apply holds_cons|simpl; by rewrite Hn].
Qed.

Lemma store8_ok m a b : is_Some (m !! a) → 0 ≤ b < 2 ^ 8 → store8 m a b = Some (<[a := b]> m).
Proof. intros [x Hx] Hb. unfold store8. rewrite Hx. simpl. unfold u8. by rewrite Z.mod_small. Qed.

(** A store over [old]. *)
Lemma store_bytes_ok l : ∀ m a old,
  holds m a old → length old = length l → byte_list l →
  ∃ m', store_bytes m a l = Some m' ∧ holds m' a l ∧ agree_outside a (zlen l) m m'.
Proof.
  induction l as [|b l IH]; intros m a old Ho Hlen Hl; simpl.
  - exists m. split_and!; [done|apply holds_nil|apply agree_refl].
  - destruct old as [|o old]; [done|]. apply holds_cons in Ho as [Ho1 Ho2]. apply Forall_cons in Hl as [Hb Hl].
    rewrite store8_ok by (eauto || lia). simpl.
    destruct (IH (<[a := b]> m) (a + 1) old) as (m' & -> & Hm' & Hag); [|simpl in Hlen; lia|done|].
    { eapply (holds_agree m _ _ _ a 1); [done| |lia]. intros x Hx. rewrite lookup_insert_ne by lia. done. }
    exists m'. split_and!; [done| |].
    + apply holds_cons. split; [|done]. rewrite Hag by lia. apply lookup_insert_eq.
    + intros x Hx. replace (zlen (b :: l)) with (1 + zlen l) in Hx by (unfold zlen; simpl; lia).
      assert (0 ≤ zlen l) by (unfold zlen; lia). rewrite Hag by lia. by rewrite lookup_insert_ne by lia.
Qed.

Lemma u8_u8 x : u8 (u8 x) = u8 x.
Proof. unfold u8. apply Z.mod_mod. lia. Qed.

Lemma store_bytes_app m a l l' : store_bytes m a (l ++ l') = (m ← store_bytes m a l; store_bytes m (a + zlen l) l').
Proof.
  revert m a. induction l as [|b l IH]; intros m a; simpl; [unfold zlen; simpl; by rewrite Z.add_0_r|].
  destruct (store8 m a b) as [m1|]; [|done]. simpl. rewrite IH. by replace (a + 1 + zlen l) with (a + zlen (b :: l)) by (unfold zlen; simpl; lia).
Qed.

Lemma store8_u8 m a v : store8 m a (u8 v) = store8 m a v.
Proof. unfold store8. by rewrite u8_u8. Qed.

Lemma store16_bytes m a v : store16 m a v = store_bytes m a (le16 v).
Proof.
  unfold store16, le16. cbn [store_bytes]. rewrite store8_u8. destruct (store8 m a v) as [m1|]; [|done]. simpl. rewrite store8_u8.
  by destruct (store8 m1 (a + 1) (v / 2 ^ 8)).
Qed.

Lemma store32_bytes m a v : store32 m a v = store_bytes m a (le32 v).
Proof.
  unfold store32, le32. rewrite store_bytes_app, <- store16_bytes. change (zlen (le16 v)) with 2. destruct (store16 m a v) as [m1|]; [|done].
  cbn [mbind option_bind]. apply store16_bytes.
Qed.

(** A store of bytes, field by field. *)
Lemma store_seq8 m a v l : store_bytes m a ([v] ++ l) = (m ← store8 m a v; store_bytes m (a + 1) l).
Proof. done. Qed.

Lemma store_seq16 m a v l : store_bytes m a (le16 v ++ l) = (m ← store16 m a v; store_bytes m (a + 2) l).
Proof. by rewrite store_bytes_app, <- store16_bytes. Qed.

Lemma store_seq32 m a v l : store_bytes m a (le32 v ++ l) = (m ← store32 m a v; store_bytes m (a + 4) l).
Proof. by rewrite store_bytes_app, <- store32_bytes. Qed.

Lemma byte_le16 v : byte_list (le16 v).
Proof. repeat constructor; apply u8_range. Qed.

Lemma byte_le32 v : byte_list (le32 v).
Proof. apply Forall_app. split; apply byte_le16. Qed.

Lemma le16_value v : 0 ≤ v < 2 ^ 16 → u8 v + 2 ^ 8 * u8 (v / 2 ^ 8) = v.
Proof.
  intros Hv. unfold u8. rewrite (Z.mod_small (v / 2 ^ 8)); [|split; [apply Z.div_pos; lia|apply Z.div_lt_upper_bound; lia]].
  pose proof (Z.div_mod v (2 ^ 8)). lia.
Qed.

Lemma load8_holds m a b l : holds m a (b :: l) → load8 m a = Some b.
Proof. by intros [? _]%holds_cons. Qed.

Lemma load16_holds m a v l : 0 ≤ v < 2 ^ 16 → holds m a (le16 v ++ l) → load16 m a = Some v.
Proof.
  intros Hv. unfold le16. simpl. rewrite !holds_cons. intros (H1 & H2 & _). unfold load16, load8. rewrite H1. simpl. rewrite H2. simpl. by rewrite le16_value.
Qed.

Lemma load32_holds m a v l : 0 ≤ v < 2 ^ 32 → holds m a (le32 v ++ l) → load32 m a = Some v.
Proof.
  intros Hv. unfold le32, load32. rewrite <- app_assoc. intros H. pose proof (Z.div_mod v (2 ^ 16) ltac:(lia)) as Hd.
  assert (Hq : 0 ≤ v / 2 ^ 16 < 2 ^ 16) by (split; [apply Z.div_pos; lia|apply Z.div_lt_upper_bound; lia]).
  assert (Hl : load16 m a = Some (v mod 2 ^ 16)).
  { apply (load16_holds _ _ _ (le16 (v / 2 ^ 16) ++ l)); [apply Z.mod_pos_bound; lia|]. replace (le16 (v mod 2 ^ 16)) with (le16 v); [done|].
    unfold le16, u8. f_equal; [|f_equal]; Z.div_mod_to_equations; lia. }
  rewrite Hl. apply holds_app in H as [_ H]. change (zlen (le16 v)) with 2 in H. simpl. rewrite (load16_holds _ _ _ _ Hq H). simpl. f_equal. lia.
Qed.

Lemma byte_list_app l l' : byte_list (l ++ l') ↔ byte_list l ∧ byte_list l'.
Proof. apply Forall_app. Qed.

(** ** Comparisons *)

Lemma equal_bytes_all l l' : length l = length l' → equal_bytes l l' = zlen l ↔ l = l'.
Proof.
  revert l'. induction l as [|b l IH]; intros [|b' l'] Hlen; try done. simpl in Hlen. simpl.
  assert (Hle : ∀ k k', equal_bytes k k' ≤ zlen k).
  { induction k as [|x k IHk]; intros [|x' k']; unfold zlen; simpl; try lia. specialize (IHk k'). unfold zlen in IHk. destruct (x =? x'); lia. }
  change (zlen (b :: l)) with (Z.of_nat (S (length l))). specialize (IH l' ltac:(lia)). specialize (Hle l l'). unfold zlen in *.
  destruct (Z.eqb_spec b b') as [->|Hne].
  - split; [intros H; f_equal; apply IH; lia|intros [= ->]]. destruct IH as [_ IH]. rewrite IH by done. lia.
  - split; [lia|congruence].
Qed.

Lemma compare_holds m a a' l l' : holds m a l → holds m a' l' → length l' = length l →
  ∃ n, RtlCompareMemory m a a' (zlen l) = Some n ∧ (n = zlen l ↔ l = l').
Proof.
  intros H H' Hlen. unfold RtlCompareMemory. replace (Z.to_nat (zlen l)) with (length l) by (unfold zlen; lia).
  rewrite (load_bytes_holds _ _ _ H). simpl. rewrite <- Hlen, (load_bytes_holds _ _ _ H'). simpl. eexists. split; [done|]. by apply equal_bytes_all.
Qed.

Lemma move_holds m to from l old : holds m from l → holds m to old → length old = length l → byte_list l →
  ∃ m', RtlMoveMemory m to from (zlen l) = Some m' ∧ holds m' to l ∧ agree_outside to (zlen l) m m'.
Proof.
  intros H Ho Hlen Hl. unfold RtlMoveMemory. replace (Z.to_nat (zlen l)) with (length l) by (unfold zlen; lia).
  rewrite (load_bytes_holds _ _ _ H). simpl. by apply (store_bytes_ok _ _ _ old).
Qed.

(** Follows the next store of the code in [H], a store of all the bytes. *)
Ltac next_store H :=
  first [rewrite store_seq8 in H | rewrite store_seq16 in H | rewrite store_seq32 in H];
  match type of H with (mbind _ ?x) = _ => destruct x as [?|]; [|done] end; cbn [mbind option_bind] in *;
  rewrite <- ?Z.add_assoc in H;
  match type of H with store_bytes _ (?a + ?o) _ = _ => let k := eval vm_compute in o in change (a + o) with (a + k) in H end.
