(* ===== verification/Acl.v ===== *)
(** * Security identifiers and access control lists ([RTL/SERTL.C], [RTL/ACLEDIT.C], [SE/SEP.C])

    A [SID] is at an address: its revision, the number of its sub-authorities, six bytes
    of authority, and the sub-authorities. An [ACL] begins with its revision, its size and
    the number of its entries; an entry begins with its type, flags and size, and the
    known types have a mask and a [SID]. Structures do not wrap around the end of the
    address space. In the routines with an exception handler a fault gives [FALSE]. *)

From stdpp Require Import base list numbers option gmap.
From S2P Require Import Prelude AclMem.

Inductive NTSTATUS :=
  | STATUS_SUCCESS | STATUS_BUFFER_TOO_SMALL | STATUS_INVALID_PARAMETER | STATUS_INVALID_INFO_CLASS
  | STATUS_INVALID_SID | STATUS_REVISION_MISMATCH | STATUS_INVALID_ACL | STATUS_ALLOTTED_SPACE_EXCEEDED
  | STATUS_UNKNOWN_REVISION | STATUS_INVALID_SECURITY_DESCR | STATUS_ACCESS_DENIED
  | STATUS_PRIVILEGE_NOT_HELD | STATUS_BAD_IMPERSONATION_LEVEL | STATUS_INSUFFICIENT_RESOURCES.

#[export] Instance NTSTATUS_eq_dec : EqDecision NTSTATUS.
Proof. solve_decision. Defined.

Definition SID_REVISION : Z := 1.
Definition SID_MAX_SUB_AUTHORITIES : Z := 15.
Definition ACL_REVISION2 : Z := 2.
Definition ACCESS_ALLOWED_ACE_TYPE : Z := 0.
Definition ACCESS_DENIED_ACE_TYPE : Z := 1.
Definition SYSTEM_AUDIT_ACE_TYPE : Z := 2.
Definition SYSTEM_ALARM_ACE_TYPE : Z := 3.
Definition SUCCESSFUL_ACCESS_ACE_FLAG : Z := 0x40.
Definition FAILED_ACCESS_ACE_FLAG : Z := 0x80.

(** ** Fields *)

Definition Revision (m : Mem) (Sid : Z) : option Z := load8 m Sid.
Definition SubAuthorityCount (m : Mem) (Sid : Z) : option Z := load8 m (Sid + 1).

Definition AclRevision (m : Mem) (Acl : Z) : option Z := load8 m Acl.
Definition AclSize (m : Mem) (Acl : Z) : option Z := load16 m (Acl + 2).
Definition AceCount (m : Mem) (Acl : Z) : option Z := load16 m (Acl + 4).

Definition AceType (m : Mem) (Ace : Z) : option Z := load8 m Ace.
Definition AceFlags (m : Mem) (Ace : Z) : option Z := load8 m (Ace + 1).
Definition AceSize (m : Mem) (Ace : Z) : option Z := load16 m (Ace + 2).
Definition Mask (m : Mem) (Ace : Z) : option Z := load32 m (Ace + 4).
Definition SidStart (Ace : Z) : Z := Ace + 8.

Definition FirstAce (Acl : Z) : Z := Acl + 8.
Definition NextAce (m : Mem) (Ace : Z) : option Z := size ← AceSize m Ace; Some (Ace + size).

Definition IsKnownAceType (m : Mem) (Ace : Z) : option bool :=
  t ← AceType m Ace;
  Some ((t =? ACCESS_ALLOWED_ACE_TYPE) || (t =? ACCESS_DENIED_ACE_TYPE) || (t =? SYSTEM_AUDIT_ACE_TYPE) || (t =? SYSTEM_ALARM_ACE_TYPE)).

Definition SeLengthSid (m : Mem) (Sid : Z) : option Z := count ← SubAuthorityCount m Sid; Some (8 + 4 * count).

(** An exception handler that returns [FALSE]. *)
Definition handled (body : option bool) : bool := match body with Some b => b | None => false end.

(** ** Security identifiers *)

Definition RtlValidSid (m : Mem) (Sid : Z) : bool := handled (
  r ← Revision m Sid;
  if Z.land r 0x0f =? SID_REVISION then count ← SubAuthorityCount m Sid; Some (count <=? SID_MAX_SUB_AUTHORITIES)
  else Some false).

Definition RtlEqualSid (m : Mem) (Sid1 Sid2 : Z) : option bool :=
  r1 ← Revision m Sid1; r2 ← Revision m Sid2;
  if r1 =? r2 then
    c1 ← SubAuthorityCount m Sid1; c2 ← SubAuthorityCount m Sid2;
    if c1 =? c2 then
      SidLength ← SeLengthSid m Sid1;
      n ← RtlCompareMemory m Sid1 Sid2 SidLength; Some (n =? SidLength)
    else Some false
  else Some false.

Definition RtlLengthRequiredSid (Count : Z) : Z := 8 +u 4 * Count.

Definition RtlIdentifierAuthoritySid (Sid : Z) : Z := Sid + 2.
Definition RtlSubAuthoritySid (Sid SubAuthority : Z) : Z := Sid + 8 + 4 * SubAuthority.
Definition RtlSubAuthorityCountSid (Sid : Z) : Z := Sid + 1.
Definition RtlLengthSid (m : Mem) (Sid : Z) : option Z := SeLengthSid m Sid.

(** The prefix is all of the [SID] but its last sub-authority. *)
Fixpoint equal_authorities (n : nat) (m : Mem) (Sid1 Sid2 Index : Z) : option bool :=
  match n with
  | O => Some true
  | S n =>
      a1 ← load32 m (RtlSubAuthoritySid Sid1 Index); a2 ← load32 m (RtlSubAuthoritySid Sid2 Index);
      if a1 =? a2 then equal_authorities n m Sid1 Sid2 (Index + 1) else Some false
  end.

Fixpoint equal_authority (n : nat) (m : Mem) (p1 p2 : Z) : option bool :=
  match n with
  | O => Some true
  | S n =>
      b1 ← load8 m p1; b2 ← load8 m p2;
      if b1 =? b2 then equal_authority n m (p1 + 1) (p2 + 1) else Some false
  end.

Definition RtlEqualPrefixSid (m : Mem) (Sid1 Sid2 : Z) : option bool :=
  r1 ← Revision m Sid1; r2 ← Revision m Sid2;
  if r1 =? r2 then
    same ← equal_authority 6 m (RtlIdentifierAuthoritySid Sid1) (RtlIdentifierAuthoritySid Sid2);
    if (same : bool) then
      c1 ← SubAuthorityCount m Sid1; c2 ← SubAuthorityCount m Sid2;
      if c1 =? c2 then
        if c1 =? 0 then Some true else equal_authorities (Z.to_nat (c1 - 1)) m Sid1 Sid2 0
      else Some false
    else Some false
  else Some false.

(** The sub-authorities are set separately. *)
Definition RtlInitializeSid (m : Mem) (Sid IdentifierAuthority Count : Z) : option (Mem * NTSTATUS) :=
  if SID_MAX_SUB_AUTHORITIES <? Count then Some (m, STATUS_INVALID_PARAMETER)
  else
    m ← store8 m (Sid + 1) Count; m ← store8 m Sid 1;
    m ← RtlMoveMemory m (RtlIdentifierAuthoritySid Sid) IdentifierAuthority 6;
    Some (m, STATUS_SUCCESS).

Definition RtlCopySid (m : Mem) (DestinationSidLength DestinationSid SourceSid : Z) : option (Mem * NTSTATUS) :=
  SidLength ← SeLengthSid m SourceSid;
  if DestinationSidLength <? SidLength then Some (m, STATUS_BUFFER_TOO_SMALL)
  else m ← RtlMoveMemory m DestinationSid SourceSid SidLength; Some (m, STATUS_SUCCESS).

(** ** Access control lists *)

Definition RtlCreateAcl (m : Mem) (Acl AclLength Rev : Z) : option (Mem * NTSTATUS) :=
  if AclLength <? 8 then Some (m, STATUS_BUFFER_TOO_SMALL)
  else if negb (Rev =? ACL_REVISION2) then Some (m, STATUS_INVALID_PARAMETER)
  else if 0xffff <? AclLength then Some (m, STATUS_INVALID_PARAMETER)
  else
    m ← store8 m Acl ACL_REVISION2; m ← store8 m (Acl + 1) 0;
    m ← store16 m (Acl + 2) (u16 AclLength);
    m ← store16 m (Acl + 4) 0; m ← store16 m (Acl + 6) 0;
    Some (m, STATUS_SUCCESS).

(** The place after the last entry, or none when an entry is not inside the ACL. *)
Fixpoint free_loop (n : nat) (m : Mem) (End Ace : Z) : option (option Z) :=
  match n with
  | O => Some (Some Ace)
  | S n => if End <=? Ace then Some None else Ace ← NextAce m Ace; free_loop n m End Ace
  end.

(** The answer and [FirstFree], which is 0 for [NULL]. *)
Definition RtlFirstFreeAce (m : Mem) (Acl : Z) : option (bool * Z) :=
  count ← AceCount m Acl; size ← AclSize m Acl;
  r ← free_loop (Z.to_nat count) m (Acl + size) (FirstAce Acl);
  match r with
  | None => Some (false, 0)
  | Some Ace => Some (true, if Ace <=? Acl + size then Ace else 0)
  end.

Definition RtlValidAcl (m : Mem) (Acl : Z) : bool := handled (
  r ← AclRevision m Acl;
  if negb (r =? ACL_REVISION2) then Some false
  else '(ok, _) ← RtlFirstFreeAce m Acl; Some ok).

Inductive ACL_INFORMATION :=
  | REVISION_INFORMATION (Rev : Z)
  | SIZE_INFORMATION (Count BytesInUse BytesFree : Z).

Definition AclRevisionInformation : Z := 1.
Definition AclSizeInformation : Z := 2.

Definition RtlQueryInformationAcl (m : Mem) (Acl Length Class : Z) : option (NTSTATUS * option ACL_INFORMATION) :=
  r ← AclRevision m Acl;
  if negb (r =? ACL_REVISION2) then Some (STATUS_INVALID_PARAMETER, None)
  else if Class =? AclRevisionInformation then
    if Length <? 4 then Some (STATUS_BUFFER_TOO_SMALL, None)
    else Some (STATUS_SUCCESS, Some (REVISION_INFORMATION r))
  else if Class =? AclSizeInformation then
    if Length <? 12 then Some (STATUS_BUFFER_TOO_SMALL, None)
    else
      '(ok, FirstFree) ← RtlFirstFreeAce m Acl;
      if negb ok then Some (STATUS_INVALID_PARAMETER, None)
      else
        count ← AceCount m Acl; size ← AclSize m Acl;
        if FirstFree =? 0 then Some (STATUS_SUCCESS, Some (SIZE_INFORMATION count size 0))
        else
          let BytesInUse := FirstFree -u Acl in
          Some (STATUS_SUCCESS, Some (SIZE_INFORMATION count BytesInUse (size -u BytesInUse)))
  else Some (STATUS_INVALID_INFO_CLASS, None).

Definition RtlSetInformationAcl (m : Mem) (Acl NewRevision Length Class : Z) : option NTSTATUS :=
  r ← AclRevision m Acl;
  if negb (r =? ACL_REVISION2) then Some STATUS_INVALID_PARAMETER
  else if Class =? AclRevisionInformation then
    if Length <? 4 then Some STATUS_BUFFER_TOO_SMALL
    else if negb (NewRevision =? ACL_REVISION2) then Some STATUS_INVALID_PARAMETER
    else Some STATUS_SUCCESS
  else Some STATUS_INVALID_INFO_CLASS.

(** ** Moving bytes *)

Fixpoint shift_up (n : nat) (m : Mem) (To FromSize : Z) : option Mem :=
  match n with
  | O => Some m
  | S n => b ← load8 m (To + Z.of_nat n); m ← store8 m (To + Z.of_nat n + FromSize) b; shift_up n m To FromSize
  end.

Fixpoint copy_up (n : nat) (m : Mem) (From To : Z) : option Mem :=
  match n with
  | O => Some m
  | S n => b ← load8 m From; m ← store8 m To b; copy_up n m (From + 1) (To + 1)
  end.

(** The first counter is a [LONG] that goes down to 0. *)
Definition RtlpAddData (m : Mem) (From FromSize To ToSize : Z) : option Mem :=
  m ← shift_up (Z.to_nat (s32 (ToSize - 1) + 1)) m To FromSize;
  copy_up (Z.to_nat FromSize) m From To.

Fixpoint zero_loop (n : nat) (m : Mem) (To : Z) : option Mem :=
  match n with O => Some m | S n => m ← store8 m To 0; zero_loop n m (To + 1) end.

Definition RtlpDeleteData (m : Mem) (Data RemoveSize TotalSize : Z) : option Mem :=
  m ← copy_up (Z.to_nat (TotalSize - RemoveSize)) m (Data + RemoveSize) Data;
  zero_loop (Z.to_nat (TotalSize - (TotalSize -u RemoveSize))) m (Data + (TotalSize -u RemoveSize)).

(** ** Editing *)

(** The number of entries of a list, and where the walk ends. An entry of size 0 is
    walked forever; the others are at most as many as the bytes of the list. *)
Fixpoint count_loop (fuel : nat) (m : Mem) (End Ace NewAceCount : Z) : option (Z * Z) :=
  if Ace <? End then
    match fuel with
    | O => None
    | S fuel => Ace ← NextAce m Ace; count_loop fuel m End Ace (NewAceCount +u 1)
    end
  else Some (Ace, NewAceCount).

(** The entry with the index, or the end of the [n] entries. *)
Fixpoint position_loop (n : nat) (i StartingAceIndex : Z) (m : Mem) (AcePosition : Z) : option Z :=
  match n with
  | O => Some AcePosition
  | S n =>
      if i <? StartingAceIndex then
        AcePosition ← NextAce m AcePosition; position_loop n (i + 1) StartingAceIndex m AcePosition
      else Some AcePosition
  end.

Definition RtlAddAce (m : Mem) (Acl AceRevision StartingAceIndex AceList AceListLength : Z) : option (Mem * NTSTATUS) :=
  r ← AclRevision m Acl;
  if negb (r =? ACL_REVISION2) then Some (m, STATUS_INVALID_PARAMETER)
  else
    '(ok, FirstFree) ← RtlFirstFreeAce m Acl;
    if negb ok then Some (m, STATUS_INVALID_PARAMETER)
    else if negb (AceRevision =? ACL_REVISION2) then Some (m, STATUS_INVALID_PARAMETER)
    else
      '(Ace, NewAceCount) ← count_loop (Z.to_nat AceListLength) m (AceList + AceListLength) AceList 0;
      if AceList + AceListLength <? Ace then Some (m, STATUS_INVALID_PARAMETER)
      else
        size ← AclSize m Acl;
        if (FirstFree =? 0) || (Acl + size <? FirstFree + AceListLength) then Some (m, STATUS_BUFFER_TOO_SMALL)
        else
          count ← AceCount m Acl;
          AcePosition ← position_loop (Z.to_nat count) 0 StartingAceIndex m (FirstAce Acl);
          m ← RtlpAddData m AceList AceListLength AcePosition (FirstFree -u AcePosition);
          count ← AceCount m Acl;
          m ← store16 m (Acl + 4) (u16 (count + NewAceCount));
          Some (m, STATUS_SUCCESS).

Definition RtlDeleteAce (m : Mem) (Acl AceIndex : Z) : option (Mem * NTSTATUS) :=
  r ← AclRevision m Acl;
  if negb (r =? ACL_REVISION2) then Some (m, STATUS_INVALID_PARAMETER)
  else
    count ← AceCount m Acl;
    if count <=? AceIndex then Some (m, STATUS_INVALID_PARAMETER)
    else
      '(ok, FirstFree) ← RtlFirstFreeAce m Acl;
      if negb ok then Some (m, STATUS_INVALID_PARAMETER)
      else
        Ace ← position_loop (Z.to_nat AceIndex) 0 AceIndex m (FirstAce Acl);
        size ← AceSize m Ace;
        m ← RtlpDeleteData m Ace size (FirstFree -u Ace);
        count ← AceCount m Acl;
        m ← store16 m (Acl + 4) (u16 (count - 1));
        Some (m, STATUS_SUCCESS).

Fixpoint get_loop (n : nat) (m : Mem) (End Ace : Z) : option (NTSTATUS * Z) :=
  if End <=? Ace then Some (STATUS_INVALID_PARAMETER, Ace)
  else match n with
       | O => Some (STATUS_SUCCESS, Ace)
       | S n => Ace ← NextAce m Ace; get_loop n m End Ace
       end.

(** The status and the address that is stored, if any. *)
Definition RtlGetAce (m : Mem) (Acl AceIndex : Z) : option (NTSTATUS * option Z) :=
  r ← AclRevision m Acl;
  if negb (r =? ACL_REVISION2) then Some (STATUS_INVALID_PARAMETER, None)
  else
    count ← AceCount m Acl;
    if count <=? AceIndex then Some (STATUS_INVALID_PARAMETER, None)
    else
      size ← AclSize m Acl;
      '(Status, Ace) ← get_loop (Z.to_nat AceIndex) m (Acl + size) (FirstAce Acl);
      Some (Status, Some Ace).

(** The fields of a new entry. *)
Definition fill_ace (m : Mem) (Ace Type_ Flags Size AccessMask Sid : Z) : option (Mem * NTSTATUS) :=
  m ← store8 m (Ace + 1) Flags; m ← store8 m Ace Type_;
  m ← store16 m (Ace + 2) Size; m ← store32 m (Ace + 4) AccessMask;
  length ← RtlLengthSid m Sid; RtlCopySid m length (SidStart Ace) Sid.

(** What the three routines for known types share. *)
Definition add_known_ace (Type_ Flags : Z) (m : Mem) (Acl AceRevision AccessMask Sid : Z) : option (Mem * NTSTATUS) :=
  if negb (RtlValidSid m Sid) then Some (m, STATUS_INVALID_SID)
  else
    r ← AclRevision m Acl;
    if negb (r =? ACL_REVISION2) || negb (AceRevision =? ACL_REVISION2) then Some (m, STATUS_REVISION_MISMATCH)
    else
      '(ok, FirstFree) ← RtlFirstFreeAce m Acl;
      if negb ok then Some (m, STATUS_INVALID_ACL)
      else
        length ← RtlLengthSid m Sid;
        let Size := u16 (4 + 4 + length) in
        size ← AclSize m Acl;
        if (FirstFree =? 0) || (Acl + size <? FirstFree + Size) then Some (m, STATUS_ALLOTTED_SPACE_EXCEEDED)
        else
          '(m, _) ← fill_ace m FirstFree Type_ Flags Size AccessMask Sid;
          count ← AceCount m Acl;
          m ← store16 m (Acl + 4) (u16 (count + 1));
          Some (m, STATUS_SUCCESS).

Definition RtlAddAccessAllowedAce := add_known_ace ACCESS_ALLOWED_ACE_TYPE 0.
Definition RtlAddAccessDeniedAce := add_known_ace ACCESS_DENIED_ACE_TYPE 0.
Definition RtlAddAuditAccessAce (m : Mem) (Acl AceRevision AccessMask Sid : Z) (AuditSuccess AuditFailure : bool) :=
  let AuditFlags := if AuditSuccess then Z.lor 0 SUCCESSFUL_ACCESS_ACE_FLAG else 0 in
  let AuditFlags := if AuditFailure then Z.lor AuditFlags FAILED_ACCESS_ACE_FLAG else AuditFlags in
  add_known_ace SYSTEM_AUDIT_ACE_TYPE AuditFlags m Acl AceRevision AccessMask Sid.

(** ** Validation of a captured ACL ([SE/SEP.C]) *)

Fixpoint check_loop (n : nat) (m : Mem) (End Ace : Z) : option bool :=
  match n with
  | O => Some true
  | S n =>
      size ← AceSize m Ace;
      if size <? 4 then Some false
      else if End <? Ace + size then Some false
      else
        known ← IsKnownAceType m Ace;
        ok ← (if (known : bool) then
                if size <? 12 then Some false
                else if End <? SidStart Ace + 8 then Some false
                else length ← RtlLengthSid m (SidStart Ace); Some (SidStart Ace + length <=? End)
              else Some true);
        if (ok : bool) then Ace ← NextAce m Ace; check_loop n m End Ace else Some false
  end.

Definition SepCheckAcl (m : Mem) (Acl Length : Z) : option bool :=
  r ← AclRevision m Acl;
  if negb (r =? ACL_REVISION2) then Some false
  else
    size ← AclSize m Acl;
    if negb (size =? u16 Length) then Some false
    else count ← AceCount m Acl; check_loop (Z.to_nat count) m (Acl + Length) (FirstAce Acl).
