(* ===== verification/AclOk.v ===== *)
(** * Access control lists as lists of entries

    The bytes of an entry and of a list, the walks over them, the moves of bytes, and what each
    routine does. *)

From stdpp Require Import base list list_tactics numbers option gmap.
From S2P Require Import Prelude AclMem Acl.

Record ace := mkAce { a_type : Z; a_flags : Z; a_body : list Z }.

Definition ace_size (e : ace) : Z := 4 + zlen (a_body e).
Definition ace_bytes (e : ace) : list Z := [a_type e; a_flags e] ++ le16 (ace_size e) ++ a_body e.
Definition ace_ok (e : ace) : Prop :=
  0 ≤ a_type e < 2 ^ 8 ∧ 0 ≤ a_flags e < 2 ^ 8 ∧ byte_list (a_body e) ∧ ace_size e < 2 ^ 16.

Definition aces_bytes (es : list ace) : list Z := concat (ace_bytes <$> es).

(** An ACL of [size] bytes with the entries [es]; [rest] is free. *)
Definition header (size count : Z) (b1 b2 b3 : Z) : list Z := [ACL_REVISION2; b1] ++ le16 size ++ le16 count ++ [b2; b3].

Definition holds_acl (m : Mem) (Acl size : Z) (es : list ace) : Prop :=
  Forall ace_ok es ∧ size < 2 ^ 16 ∧
  ∃ b1 b2 b3 rest, holds m Acl (header size (zlen es) b1 b2 b3 ++ aces_bytes es ++ rest) ∧ 8 + zlen (aces_bytes es) + zlen rest = size.

(** ** Sizes *)

Lemma len_nonneg {A} (l : list A) : 0 ≤ zlen l.
Proof. unfold zlen. lia. Qed.

Lemma len_app {A} (l l' : list A) : zlen (l ++ l') = zlen l + zlen l'.
Proof. unfold zlen. rewrite length_app. lia. Qed.

Lemma len_cons {A} (x : A) l : zlen (x :: l) = 1 + zlen l.
Proof. unfold zlen. simpl. lia. Qed.

Lemma ace_bytes_size e : zlen (ace_bytes e) = ace_size e.
Proof.
  unfold ace_bytes, ace_size. rewrite !len_app. change (zlen (le16 _)) with 2. change (zlen [_; _]) with 2. lia.
Qed.

Lemma ace_size_min e : 4 ≤ ace_size e.
Proof. unfold ace_size. pose proof (len_nonneg (a_body e)). lia. Qed.

Lemma aces_bytes_app es es' : aces_bytes (es ++ es') = aces_bytes es ++ aces_bytes es'.
Proof. unfold aces_bytes. by rewrite fmap_app, concat_app. Qed.

Lemma aces_bytes_cons e es : aces_bytes (e :: es) = ace_bytes e ++ aces_bytes es.
Proof. done. Qed.

Lemma aces_bytes_min es : 4 * zlen es ≤ zlen (aces_bytes es).
Proof.
  induction es as [|e es IH]; [done|]. rewrite aces_bytes_cons, len_cons, len_app, ace_bytes_size. pose proof (ace_size_min e). lia.
Qed.

Lemma aces_bytes_ok es : Forall ace_ok es → byte_list (aces_bytes es).
Proof.
  induction 1 as [|e es (Ht & Hf & Hb & _) _ IH]; [constructor|]. rewrite aces_bytes_cons. apply byte_list_app. split; [|done].
  unfold ace_bytes. repeat (apply Forall_cons; split; [done|]). apply byte_list_app. split; [apply byte_le16|done].
Qed.

(** ** Walks *)

Lemma next_ace m Ace e l : ace_ok e → holds m Ace (ace_bytes e ++ l) →
  AceSize m Ace = Some (ace_size e) ∧ NextAce m Ace = Some (Ace + ace_size e) ∧ holds m (Ace + ace_size e) l.
Proof.
  intros (_ & _ & _ & Hs) H. rewrite holds_app, ace_bytes_size in H. destruct H as [He Hl].
  assert (Hsize : AceSize m Ace = Some (ace_size e)).
  { unfold ace_bytes in He. apply holds_app in He as [_ He]. change (zlen [a_type e; a_flags e]) with 2 in He.
    apply (load16_holds _ _ _ (a_body e)); [|done]. pose proof (ace_size_min e). lia. }
  unfold NextAce. by rewrite Hsize.
Qed.

Lemma free_loop_ok m End es : ∀ Ace l,
  Forall ace_ok es → holds m Ace (aces_bytes es ++ l) → Ace + zlen (aces_bytes es) ≤ End →
  free_loop (length es) m End Ace = Some (Some (Ace + zlen (aces_bytes es))).
Proof.
  induction es as [|e es IH]; intros Ace l Hes H Hle; [by rewrite Z.add_0_r|]. apply Forall_cons in Hes as [He Hes].
  rewrite aces_bytes_cons, len_app, ace_bytes_size in *. rewrite <- app_assoc in H. destruct (next_ace _ _ _ _ He H) as (_ & Hn & Hl).
  pose proof (ace_size_min e). pose proof (len_nonneg (aces_bytes es)). cbn [free_loop length]. rewrite (proj2 (Z.leb_gt End Ace)) by lia. rewrite Hn.
  cbn [mbind option_bind]. rewrite (IH _ _ Hes Hl) by lia. do 2 f_equal. lia.
Qed.

Lemma count_loop_ok m End es : ∀ Ace fuel n l,
  Forall ace_ok es → holds m Ace (aces_bytes es ++ l) → Ace + zlen (aces_bytes es) = End → (length es ≤ fuel)%nat → 0 ≤ n → n + zlen es < 2 ^ 32 →
  count_loop fuel m End Ace n = Some (End, n + zlen es).
Proof.
  induction es as [|e es IH]; intros Ace fuel n l Hes H <- Hf Hn Hmax.
  - rewrite Z.add_0_r. destruct fuel; simpl; rewrite Z.ltb_irrefl; unfold zlen; simpl; by rewrite Z.add_0_r.
  - apply Forall_cons in Hes as [He Hes]. rewrite aces_bytes_cons, len_app, ace_bytes_size, len_cons in *. rewrite <- app_assoc in H.
    destruct (next_ace _ _ _ _ He H) as (_ & Hnext & Hl). pose proof (ace_size_min e). pose proof (len_nonneg (aces_bytes es)). pose proof (len_nonneg es).
    simpl in Hf. destruct fuel as [|fuel]; [lia|]. cbn [count_loop]. rewrite (proj2 (Z.ltb_lt _ _)) by lia. rewrite Hnext. cbn [mbind option_bind].
    rewrite u32_small by lia. rewrite (IH _ _ _ _ Hes Hl) by lia. do 2 f_equal. lia.
Qed.

(** The walk to an index stops at the end of the list. *)
Lemma position_loop_ok m es : ∀ n i Start Ace l,
  Forall ace_ok es → holds m Ace (aces_bytes es ++ l) → (n = length es ∨ (n ≤ length es)%nat ∧ Start = i + Z.of_nat n) →
  position_loop n i Start m Ace = Some (Ace + zlen (aces_bytes (take (Z.to_nat (Start - i)) es))).
Proof.
  induction es as [|e es IH]; intros n i Start Ace l Hes H Hn.
  - assert (n = 0%nat) as -> by (simpl in Hn; lia). rewrite take_nil. simpl. by rewrite Z.add_0_r.
  - destruct n as [|n].
    { assert (Start = i) as -> by (simpl in Hn; lia). rewrite Z.sub_diag. simpl. by rewrite Z.add_0_r. }
    apply Forall_cons in Hes as [He Hes]. rewrite aces_bytes_cons, <- app_assoc in H. destruct (next_ace _ _ _ _ He H) as (_ & Hnext & Hl).
    cbn [position_loop]. destruct (Z.ltb_spec i Start) as [Hlt|Hge].
    + rewrite Hnext. cbn [mbind option_bind]. rewrite (IH n (i + 1) Start _ _ Hes Hl) by (simpl in Hn; lia).
      replace (Z.to_nat (Start - i)) with (S (Z.to_nat (Start - (i + 1)))) by lia. cbn [take].
      rewrite aces_bytes_cons, len_app, ace_bytes_size. f_equal. lia.
    + replace (Z.to_nat (Start - i)) with 0%nat by lia. simpl. by rewrite Z.add_0_r.
Qed.

Lemma get_loop_ok m End es : ∀ n Ace l,
  Forall ace_ok es → holds m Ace (aces_bytes es ++ l) → Ace + zlen (aces_bytes es) ≤ End → (n < length es)%nat →
  get_loop n m End Ace = Some (STATUS_SUCCESS, Ace + zlen (aces_bytes (take n es))).
Proof.
  induction es as [|e es IH]; intros n Ace l Hes H Hle Hn; [simpl in Hn; lia|]. apply Forall_cons in Hes as [He Hes].
  rewrite aces_bytes_cons, len_app, ace_bytes_size in *. rewrite <- app_assoc in H. destruct (next_ace _ _ _ _ He H) as (_ & Hnext & Hl).
  pose proof (ace_size_min e). pose proof (len_nonneg (aces_bytes es)).
  destruct n as [|n]; cbn [get_loop take]; rewrite (proj2 (Z.leb_gt End Ace)) by lia; [by rewrite Z.add_0_r|].
  rewrite Hnext. cbn [mbind option_bind]. simpl in Hn. rewrite (IH _ _ _ Hes Hl) by lia. rewrite aces_bytes_cons, len_app, ace_bytes_size. do 2 f_equal. lia.
Qed.

(** ** Moves *)

Lemma store_over m a b : is_Some (m !! a) → 0 ≤ b < 2 ^ 8 → ∃ m', store8 m a b = Some m' ∧ m' !! a = Some b ∧ ∀ x, x ≠ a → m' !! x = m !! x.
Proof.
  intros Ha Hb. rewrite store8_ok by done. eexists. split; [done|]. split; [apply lookup_insert_eq|]. intros x Hx. by apply lookup_insert_ne.
Qed.

(** Bytes moved up by [F], the last first. *)
Lemma shift_up_ok n : ∀ m To F,
  0 ≤ F → (∀ x, To ≤ x < To + Z.of_nat n → ∃ b, m !! x = Some b ∧ 0 ≤ b < 2 ^ 8) → (∀ x, To ≤ x < To + Z.of_nat n + F → is_Some (m !! x)) →
  ∃ m', shift_up n m To F = Some m' ∧ (∀ x, To + F ≤ x < To + F + Z.of_nat n → m' !! x = m !! (x - F)) ∧
    (∀ x, x < To + F ∨ To + F + Z.of_nat n ≤ x → m' !! x = m !! x).
Proof.
  induction n as [|n IH]; intros m To F HF Hb Hmap; cbn [shift_up].
  - exists m. split_and!; [done|intros; lia|done].
  - destruct (Hb (To + Z.of_nat n)) as (b & Hbn & Hbr); [lia|]. unfold load8. rewrite Hbn. cbn [mbind option_bind].
    destruct (store_over m (To + Z.of_nat n + F) b) as (m1 & -> & H1 & H1'); [apply Hmap; lia|done|]. cbn [mbind option_bind].
    destruct (Z.eq_dec F 0) as [->|HF0].
    + destruct (IH m1 To 0 HF) as (m' & -> & Hm & Hm').
      * intros x Hx. rewrite H1' by lia. apply Hb. lia.
      * intros x Hx. rewrite H1' by lia. apply Hmap. lia.
      * exists m'. split_and!; [done| |].
        -- intros x Hx. rewrite Z.sub_0_r. destruct (Z.eq_dec x (To + Z.of_nat n)) as [->|]; [|by rewrite Hm, Z.sub_0_r, H1' by lia].
           rewrite Hm' by lia. rewrite Z.add_0_r in H1. by rewrite H1, Hbn.
        -- intros x Hx. rewrite Hm', H1' by lia. done.
    + destruct (IH m1 To F HF) as (m' & -> & Hm & Hm').
      * intros x Hx. rewrite H1' by lia. apply Hb. lia.
      * intros x Hx. destruct (Z.eq_dec x (To + Z.of_nat n + F)) as [->|]; [by eexists|]. rewrite H1' by lia. apply Hmap. lia.
      * exists m'. split_and!; [done| |].
        -- intros x Hx. destruct (Z.eq_dec x (To + Z.of_nat n + F)) as [->|].
           ++ rewrite Hm' by lia. rewrite H1, <- Hbn. f_equal. lia.
           ++ rewrite Hm, H1' by lia. done.
        -- intros x Hx. rewrite Hm', H1' by lia. done.
Qed.

(** Bytes copied to lower addresses, or away, the first first. *)
Lemma copy_up_ok n : ∀ m From To,
  (To ≤ From ∨ From + Z.of_nat n ≤ To) → (∀ x, From ≤ x < From + Z.of_nat n → ∃ b, m !! x = Some b ∧ 0 ≤ b < 2 ^ 8) →
  (∀ x, To ≤ x < To + Z.of_nat n → is_Some (m !! x)) →
  ∃ m', copy_up n m From To = Some m' ∧ (∀ x, To ≤ x < To + Z.of_nat n → m' !! x = m !! (x - To + From)) ∧
    (∀ x, x < To ∨ To + Z.of_nat n ≤ x → m' !! x = m !! x).
Proof.
  induction n as [|n IH]; intros m From To Hdir Hb Hmap; cbn [copy_up].
  - exists m. split_and!; [done|intros; lia|done].
  - destruct (Hb From) as (b & Hbn & Hbr); [lia|]. unfold load8. rewrite Hbn. cbn [mbind option_bind].
    destruct (store_over m To b) as (m1 & -> & H1 & H1'); [apply Hmap; lia|done|]. cbn [mbind option_bind].
    destruct (IH m1 (From + 1) (To + 1)) as (m' & -> & Hm & Hm'); [lia| | |].
    + intros x Hx. rewrite H1' by lia. apply Hb. lia.
    + intros x Hx. rewrite H1' by lia. apply Hmap. lia.
    + exists m'. split_and!; [done| |].
      * intros x Hx. destruct (Z.eq_dec x To) as [->|]; [rewrite Hm', H1 by lia; rewrite <- Hbn; f_equal; lia|].
        rewrite Hm by lia. rewrite H1' by lia. f_equal. lia.
      * intros x Hx. rewrite Hm', H1' by lia. done.
Qed.

Lemma zero_loop_ok n : ∀ m To,
  (∀ x, To ≤ x < To + Z.of_nat n → is_Some (m !! x)) →
  ∃ m', zero_loop n m To = Some m' ∧ (∀ x, To ≤ x < To + Z.of_nat n → m' !! x = Some 0) ∧
    (∀ x, x < To ∨ To + Z.of_nat n ≤ x → m' !! x = m !! x).
Proof.
  induction n as [|n IH]; intros m To Hmap; cbn [zero_loop].
  - exists m. split_and!; [done|intros; lia|done].
  - destruct (store_over m To 0) as (m1 & -> & H1 & H1'); [apply Hmap; lia|lia|]. cbn [mbind option_bind].
    destruct (IH m1 (To + 1)) as (m' & -> & Hm & Hm'); [intros x Hx; rewrite H1' by lia; apply Hmap; lia|].
    exists m'. split_and!; [done| |].
    + intros x Hx. destruct (Z.eq_dec x To) as [->|]; [by rewrite Hm', H1 by lia|]. apply Hm. lia.
    + intros x Hx. rewrite Hm', H1' by lia. done.
Qed.

(** ** Editing access control lists *)

(** ** Moves on lists of bytes *)

Lemma holds_byte m a l x : holds m a l → a ≤ x < a + zlen l → ∃ b, l !! Z.to_nat (x - a) = Some b ∧ m !! x = Some b.
Proof.
  intros H Hx. unfold zlen in Hx. destruct (lookup_lt_is_Some_2 l (Z.to_nat (x - a))) as [b Hb]; [lia|]. exists b. split; [done|].
  specialize (H _ _ Hb). by replace (a + Z.of_nat (Z.to_nat (x - a))) with x in H by lia.
Qed.

Lemma holds_byte_ok m a l x : holds m a l → byte_list l → a ≤ x < a + zlen l → ∃ b, m !! x = Some b ∧ 0 ≤ b < 2 ^ 8.
Proof.
  intros H Hl Hx. destruct (holds_byte m a l x H Hx) as (b & Hb & Hm). exists b. split; [done|]. unfold byte_list in Hl. rewrite Forall_lookup in Hl. by eapply Hl.
Qed.

Lemma holds_mapped m a l x : holds m a l → a ≤ x < a + zlen l → is_Some (m !! x).
Proof. intros H Hx. destruct (holds_byte m a l x H Hx) as (b & _ & ->). by eexists. Qed.

(** The same bytes at another place of another memory. *)
Lemma holds_moved m m' a a' l : holds m a l → (∀ x, a' ≤ x < a' + zlen l → m' !! x = m !! (x - a' + a)) → holds m' a' l.
Proof.
  intros H Heq i b Hi. pose proof (lookup_lt_Some _ _ _ Hi). rewrite Heq by (unfold zlen; lia). replace (a' + Z.of_nat i - a' + a) with (a + Z.of_nat i) by lia. by apply H.
Qed.

Lemma add_data_ok m From To F T Free :
  holds m To (T ++ Free) → byte_list T → holds m From F → byte_list F → zlen F ≤ zlen Free → zlen T < 2 ^ 31 →
  (From + zlen F ≤ To ∨ To + zlen T + zlen F ≤ From) →
  ∃ m', RtlpAddData m From (zlen F) To (zlen T) = Some m' ∧ holds m' To (F ++ T ++ drop (length F) Free) ∧
    agree_outside To (zlen T + zlen F) m m'.
Proof.
  intros H HT HF HFb Hfree Hmax Hdis. pose proof H as [HTh HFree]%holds_app. pose proof (len_nonneg T) as HnT. pose proof (len_nonneg F) as HnF. pose proof (len_nonneg Free) as HnFree.
  unfold RtlpAddData. rewrite s32_small by lia. replace (Z.to_nat (zlen T - 1 + 1)) with (length T) by (unfold zlen; lia).
  replace (Z.to_nat (zlen F)) with (length F) by (unfold zlen; lia).
  destruct (shift_up_ok (length T) m To (zlen F)) as (m1 & -> & H1 & H1'); [lia| | |].
  { intros x Hx. by apply (holds_byte_ok m To T). }
  { intros x Hx. apply (holds_mapped m To (T ++ Free)); [done|]. rewrite len_app. unfold zlen in *. lia. }
  cbn [mbind option_bind]. fold (zlen T) in *.
  assert (HF1 : holds m1 From F).
  { apply (holds_moved m m1 From From F HF). intros x Hx. rewrite H1' by lia. f_equal. lia. }
  destruct (copy_up_ok (length F) m1 From To) as (m2 & -> & H2 & H2'); [unfold zlen in *; lia| | |].
  { intros x Hx. by apply (holds_byte_ok m1 From F). }
  { intros x Hx. destruct (Z.lt_ge_cases x (To + zlen F)) as [Hlt|Hge]; [|unfold zlen in *; lia]. rewrite H1' by lia.
    apply (holds_mapped m To (T ++ Free)); [done|]. rewrite len_app. unfold zlen in *. lia. }
  fold (zlen F) in *. exists m2. split; [done|]. split.
  - apply holds_app. split; [|apply holds_app; split].
    + apply (holds_moved m1 m2 From To F HF1). intros x Hx. apply H2. lia.
    + apply (holds_moved m m2 To (To + zlen F) T HTh). intros x Hx. rewrite H2', H1 by lia. f_equal. lia.
    + assert (Hd : holds m (To + zlen T + zlen F) (drop (length F) Free)).
      { rewrite <- (take_drop (length F) Free) in HFree. apply holds_app in HFree as [_ HFree].
        replace (zlen (take (length F) Free)) with (zlen F) in HFree; [done|]. unfold zlen in *. rewrite length_take. lia. }
      eapply holds_moved; [exact Hd|]. intros x Hx. pose proof (len_nonneg (drop (length F) Free)). rewrite H2', H1' by lia. f_equal. lia.
  - intros x Hx. rewrite H2', H1' by lia. done.
Qed.

Lemma delete_data_ok m Data D T :
  holds m Data (D ++ T) → byte_list T → zlen D + zlen T < 2 ^ 32 →
  ∃ m', RtlpDeleteData m Data (zlen D) (zlen D + zlen T) = Some m' ∧ holds m' Data (T ++ replicate (length D) 0) ∧
    agree_outside Data (zlen D + zlen T) m m'.
Proof.
  intros H HT Hmax. pose proof H as [HDh HTh]%holds_app. pose proof (len_nonneg T) as HnT. pose proof (len_nonneg D) as HnD.
  assert (Hmapped : ∀ x, Data ≤ x < Data + zlen D + zlen T → is_Some (m !! x)).
  { intros x Hx. apply (holds_mapped m Data (D ++ T)); [done|]. rewrite len_app. lia. }
  unfold RtlpDeleteData. rewrite u32_small by lia. replace (Z.to_nat (zlen D + zlen T - zlen D)) with (length T) by (unfold zlen; lia).
  destruct (copy_up_ok (length T) m (Data + zlen D) Data) as (m1 & -> & H1 & H1'); [lia| | |].
  { intros x Hx. by apply (holds_byte_ok m (Data + zlen D) T). }
  { intros x Hx. apply Hmapped. unfold zlen in *. lia. }
  cbn [mbind option_bind]. fold (zlen T) in *. replace (zlen D + zlen T - zlen D) with (zlen T) by lia.
  replace (Z.to_nat (zlen D + zlen T - zlen T)) with (length D) by (unfold zlen; lia).
  destruct (zero_loop_ok (length D) m1 (Data + zlen T)) as (m2 & -> & H2 & H2').
  { intros x Hx. rewrite H1' by lia. apply Hmapped. unfold zlen in *. lia. }
  fold (zlen D) in *. exists m2. split; [done|]. split.
  - apply holds_app. split.
    + apply (holds_moved m m2 (Data + zlen D) Data T HTh). intros x Hx. rewrite H2', H1 by lia. done.
    + intros i b Hi. pose proof (lookup_lt_Some _ _ _ Hi) as Hlt. rewrite length_replicate in Hlt. apply lookup_replicate in Hi as [-> _].
      apply H2. unfold zlen. lia.
  - intros x Hx. rewrite H2', H1' by lia. done.
Qed.

(** ** The header *)

Record acl_facts (m : Mem) (Acl size : Z) (es : list ace) (b1 b2 b3 : Z) (rest : list Z) : Prop := {
  f_header : holds m Acl (header size (zlen es) b1 b2 b3);
  f_revision : AclRevision m Acl = Some ACL_REVISION2;
  f_size : AclSize m Acl = Some size;
  f_count : AceCount m Acl = Some (zlen es);
  f_entries : holds m (FirstAce Acl) (aces_bytes es ++ rest);
  f_room : 8 + zlen (aces_bytes es) + zlen rest = size;
  f_few : 0 ≤ zlen es < 2 ^ 14
}.

Lemma header_count m Acl size n b1 b2 b3 : holds m Acl (header size n b1 b2 b3) → 0 ≤ n < 2 ^ 16 → AceCount m Acl = Some n.
Proof.
  unfold header. rewrite !holds_app. change (zlen (le16 _)) with 2. change (zlen [_; _]) with 2. replace (Acl + 2 + 2) with (Acl + 4) by lia.
  intros (_ & _ & H & _) Hn. apply (load16_holds _ _ _ []); [lia|]. by rewrite app_nil_r.
Qed.

Lemma acl_parts m Acl size es : holds_acl m Acl size es → ∃ b1 b2 b3 rest, acl_facts m Acl size es b1 b2 b3 rest.
Proof.
  intros (Hes & Hsize & b1 & b2 & b3 & rest & H & Hroom). exists b1, b2, b3, rest. pose proof H as [Hh He]%holds_app.
  pose proof (aces_bytes_min es). pose proof (len_nonneg es). pose proof (len_nonneg rest).
  change (zlen (header _ _ _ _ _)) with 8 in He. pose proof Hh as Hh'. unfold header in Hh'. rewrite !holds_app in Hh'.
  change (zlen (le16 _)) with 2 in Hh'. change (zlen [_; _]) with 2 in Hh'. destruct Hh' as (G1 & G2 & G3 & _). split; try done.
  - by apply load8_holds in G1.
  - apply (load16_holds _ _ _ []); [lia|by rewrite app_nil_r].
  - by eapply header_count; [exact Hh|lia].
  - lia.
Qed.

Lemma first_free_ok m Acl size es b1 b2 b3 rest :
  Forall ace_ok es → acl_facts m Acl size es b1 b2 b3 rest → RtlFirstFreeAce m Acl = Some (true, Acl + 8 + zlen (aces_bytes es)).
Proof.
  intros Hes [_ _ Hs Hc He Hroom _]. unfold RtlFirstFreeAce. rewrite Hc, Hs. cbn [mbind option_bind]. pose proof (len_nonneg rest).
  replace (Z.to_nat (zlen es)) with (length es) by (unfold zlen; lia).
  rewrite (free_loop_ok m (Acl + size) es (FirstAce Acl) rest); [|done|done|unfold FirstAce; lia]. cbn [mbind option_bind].
  unfold FirstAce. by rewrite (proj2 (Z.leb_le _ _)) by lia.
Qed.

(** A new number of entries, once the entries are there. *)
Lemma set_count m Acl size es es' b1 b2 b3 rest' k :
  holds m Acl (header size k b1 b2 b3) → holds m (FirstAce Acl) (aces_bytes es' ++ rest') → Forall ace_ok es' →
  size < 2 ^ 16 → 8 + zlen (aces_bytes es') + zlen rest' = size → es = zlen es' →
  ∃ m', store16 m (Acl + 4) (u16 es) = Some m' ∧ holds_acl m' Acl size es' ∧ agree_outside Acl size m m'.
Proof.
  intros Hh He Hok Hsize Hroom ->. pose proof (aces_bytes_min es'). pose proof (len_nonneg rest'). pose proof (len_nonneg es').
  rewrite u16_small by lia. rewrite store16_bytes. unfold header in Hh. rewrite !holds_app in Hh.
  change (zlen (le16 _)) with 2 in Hh. change (zlen [_; _]) with 2 in Hh. replace (Acl + 2 + 2) with (Acl + 4) in Hh by lia. destruct Hh as (H1' & H2' & H3' & H4').
  destruct (store_bytes_ok (le16 (zlen es')) m (Acl + 4) (le16 k) H3' eq_refl (byte_le16 _)) as (m' & Hst & Hm' & Hag). exists m'. split; [done|].
  change (zlen (le16 _)) with 2 in Hag. split; [|eapply agree_wider; [exact Hag|lia|lia]].
  split; [done|]. split; [done|]. exists b1, b2, b3, rest'. split; [|done]. unfold header. rewrite <- !app_assoc. apply holds_app. split.
  { eapply holds_agree; [exact H1'|exact Hag|]. change (zlen [_; _]) with 2. lia. }
  change (zlen [_; _]) with 2. apply holds_app. split.
  { eapply holds_agree; [exact H2'|exact Hag|]. change (zlen (le16 _)) with 2. lia. }
  change (zlen (le16 _)) with 2. replace (Acl + 2 + 2) with (Acl + 4) by lia. apply holds_app. split; [done|]. change (zlen (le16 _)) with 2.
  apply holds_app. split.
  { eapply holds_agree; [exact H4'|exact Hag|]. lia. }
  change (zlen [_; _]) with 2. eapply holds_agree; [|exact Hag|lia]. unfold FirstAce in He. by replace (Acl + 4 + 2 + 2) with (Acl + 8) by lia.
Qed.

(** ** Operations *)

Section edits.
Context (m : Mem) (Acl size : Z) (es : list ace).
Hypothesis HA : holds_acl m Acl size es.
Hypothesis HAcl : 0 ≤ Acl.
Hypothesis Hend : Acl + size < 2 ^ 32.

Definition room (n : Z) : Prop := 8 + zlen (aces_bytes es) + n ≤ size.

Lemma add_aces_ok Start AceList new :
  Forall ace_ok new → holds m AceList (aces_bytes new) → 0 ≤ Start → zlen (aces_bytes new) < 2 ^ 32 →
  (AceList + zlen (aces_bytes new) ≤ Acl ∨ Acl + size ≤ AceList) →
  let n := Z.to_nat Start in let length := zlen (aces_bytes new) in
  (room length → ∃ m', RtlAddAce m Acl ACL_REVISION2 Start AceList length = Some (m', STATUS_SUCCESS) ∧
      holds_acl m' Acl size (take n es ++ new ++ drop n es) ∧ agree_outside Acl size m m') ∧
  (¬ room length → RtlAddAce m Acl ACL_REVISION2 Start AceList length = Some (m, STATUS_BUFFER_TOO_SMALL)).
Proof using HA HAcl Hend.
  intros Hnew Hlist HStart Hlen Hdis. cbv zeta. pose proof HA as (Hes & Hsize & _). destruct (acl_parts _ _ _ _ HA) as (b1 & b2 & b3 & rest & HF).
  pose proof (first_free_ok _ _ _ _ _ _ _ _ Hes HF) as Hfree. destruct HF as [Hh Hr Hs Hc He Hroom Hfew].
  pose proof (len_nonneg rest). pose proof (len_nonneg (aces_bytes es)). pose proof (len_nonneg (aces_bytes new)). pose proof (aces_bytes_min new). pose proof (len_nonneg new).
  assert (Hcount : count_loop (Z.to_nat (zlen (aces_bytes new))) m (AceList + zlen (aces_bytes new)) AceList 0 = Some (AceList + zlen (aces_bytes new), zlen new)).
  { apply (count_loop_ok m _ new AceList _ 0 []); [done|by rewrite app_nil_r|done|unfold zlen in *; lia|lia|lia]. }
  unfold RtlAddAce. rewrite Hr. cbn [mbind option_bind]. rewrite Hfree. cbn [mbind option_bind]. cbn [negb Z.eqb Pos.eqb ACL_REVISION2]. rewrite Hcount. cbn [mbind option_bind].
  rewrite Z.ltb_irrefl, Hs. cbn [mbind option_bind]. rewrite (proj2 (Z.eqb_neq (Acl + 8 + _) 0)) by lia. cbn [orb]. unfold room. split.
  - intros Hle. rewrite (proj2 (Z.ltb_ge _ _)) by lia. rewrite Hc. cbn [mbind option_bind].
    rewrite (position_loop_ok m es _ 0 Start _ rest Hes He) by (left; unfold zlen; lia). cbn [mbind option_bind]. rewrite Z.sub_0_r. set (n := Z.to_nat Start).
    pose proof (take_drop n es) as Htd. rewrite <- Htd, aces_bytes_app, <- app_assoc, holds_app in He. destruct He as [Ht Hd].
    assert (Hsum : zlen (aces_bytes es) = zlen (aces_bytes (take n es)) + zlen (aces_bytes (drop n es))) by (rewrite <- len_app, <- aces_bytes_app, Htd; done).
    pose proof (len_nonneg (aces_bytes (take n es))). pose proof (len_nonneg (aces_bytes (drop n es))).
    assert (Htok : Forall ace_ok (take n es) ∧ Forall ace_ok (drop n es)) by (rewrite <- Forall_app, Htd; done). destruct Htok as [Htok Hdok].
    unfold FirstAce in *. rewrite u32_small by lia. replace (Acl + 8 + zlen (aces_bytes es) - (Acl + 8 + zlen (aces_bytes (take n es)))) with (zlen (aces_bytes (drop n es))) by lia.
    destruct (add_data_ok m AceList _ (aces_bytes new) (aces_bytes (drop n es)) rest Hd) as (m1 & -> & Hm1 & Hag1);
      [by apply aces_bytes_ok|done|by apply aces_bytes_ok|lia|lia|lia|]. cbn [mbind option_bind].
    assert (Hh1 : holds m1 Acl (header size (zlen es) b1 b2 b3)) by (eapply holds_agree; [exact Hh|exact Hag1|change (zlen (header _ _ _ _ _)) with 8; lia]).
    assert (Hc1 : AceCount m1 Acl = Some (zlen es)) by (eapply header_count; [exact Hh1|lia]).
    rewrite Hc1. cbn [mbind option_bind].
    destruct (set_count m1 Acl size (zlen es + zlen new) (take n es ++ new ++ drop n es) b1 b2 b3 (drop (length (aces_bytes new)) rest) (zlen es) Hh1) as (m2 & -> & Hm2 & Hag2).
    + unfold FirstAce. rewrite !aces_bytes_app, <- !app_assoc. apply holds_app. split; [|done]. eapply holds_agree; [exact Ht|exact Hag1|lia].
    + rewrite !Forall_app. done.
    + done.
    + rewrite !aces_bytes_app, !len_app. unfold zlen in *. rewrite length_drop. lia.
    + rewrite !len_app. rewrite <- Htd at 1. rewrite len_app. lia.
    + exists m2. split_and!; [done|done|]. eapply agree_trans; [|exact Hag2]. eapply agree_wider; [exact Hag1|lia|lia].
  - intros Hno. by rewrite (proj2 (Z.ltb_lt _ _)) by lia.
Qed.

Lemma delete_ace_ok i :
  0 ≤ i →
  (i < zlen es → ∃ m', RtlDeleteAce m Acl i = Some (m', STATUS_SUCCESS) ∧ holds_acl m' Acl size (delete (Z.to_nat i) es) ∧ agree_outside Acl size m m') ∧
  (zlen es ≤ i → RtlDeleteAce m Acl i = Some (m, STATUS_INVALID_PARAMETER)).
Proof using HA HAcl Hend.
  intros Hi0. pose proof HA as (Hes & Hsize & _). destruct (acl_parts _ _ _ _ HA) as (b1 & b2 & b3 & rest & HF).
  pose proof (first_free_ok _ _ _ _ _ _ _ _ Hes HF) as Hfree. destruct HF as [Hh Hr Hs Hc He Hroom Hfew]. pose proof (len_nonneg rest).
  unfold RtlDeleteAce. rewrite Hr, Hc. cbn [mbind option_bind negb Z.eqb Pos.eqb ACL_REVISION2]. split.
  - intros Hi. rewrite (proj2 (Z.leb_gt _ _)) by lia. rewrite Hfree. cbn [mbind option_bind negb]. set (n := Z.to_nat i).
    destruct (lookup_lt_is_Some_2 es n) as [e Hen]; [unfold zlen, n in *; lia|]. pose proof (take_drop_middle _ _ _ Hen) as Hmid.
    set (A := take n es) in *. set (C := drop (S n) es) in *.
    rewrite (position_loop_ok m es n 0 i _ rest Hes He) by (right; unfold zlen, n in *; lia). cbn [mbind option_bind]. rewrite Z.sub_0_r. fold n A.
    assert (HeC : Forall ace_ok A ∧ ace_ok e ∧ Forall ace_ok C) by (rewrite <- Hmid, Forall_app, Forall_cons in Hes; done). destruct HeC as (HAok & Heok & HCok).
    rewrite <- Hmid, aces_bytes_app, aces_bytes_cons, <- !app_assoc, holds_app in He. destruct He as [HeA HeC].
    assert (Hsum : zlen (aces_bytes es) = zlen (aces_bytes A) + ace_size e + zlen (aces_bytes C)).
    { rewrite <- Hmid, aces_bytes_app, aces_bytes_cons, !len_app, ace_bytes_size. lia. }
    pose proof (len_nonneg (aces_bytes A)). pose proof (len_nonneg (aces_bytes C)). pose proof (ace_size_min e). unfold FirstAce in *.
    destruct (next_ace _ _ _ _ Heok HeC) as (-> & _ & _). cbn [mbind option_bind]. rewrite u32_small by lia.
    replace (Acl + 8 + zlen (aces_bytes es) - (Acl + 8 + zlen (aces_bytes A))) with (ace_size e + zlen (aces_bytes C)) by lia.
    pose proof HeC as HeC'. rewrite app_assoc in HeC'. apply holds_app in HeC' as [HeC1 Hrest]. rewrite <- (ace_bytes_size e) in *.
    destruct (delete_data_ok m _ (ace_bytes e) (aces_bytes C) HeC1) as (m1 & -> & Hm1 & Hag1); [by apply aces_bytes_ok|lia|]. cbn [mbind option_bind].
    assert (Hh1 : holds m1 Acl (header size (zlen es) b1 b2 b3)) by (eapply holds_agree; [exact Hh|exact Hag1|change (zlen (header _ _ _ _ _)) with 8; lia]).
    assert (Hc1 : AceCount m1 Acl = Some (zlen es)) by (eapply header_count; [exact Hh1|lia]).
    rewrite Hc1. cbn [mbind option_bind]. rewrite (delete_take_drop es n). fold A C.
    assert (Hzr : zlen (replicate (length (ace_bytes e)) 0) = zlen (ace_bytes e)) by (unfold zlen; by rewrite length_replicate).
    destruct (set_count m1 Acl size (zlen es - 1) (A ++ C) b1 b2 b3 (replicate (length (ace_bytes e)) 0 ++ rest) (zlen es) Hh1) as (m2 & -> & Hm2 & Hag2).
    + unfold FirstAce. rewrite aces_bytes_app, <- app_assoc. apply holds_app. split; [eapply holds_agree; [exact HeA|exact Hag1|lia]|].
      rewrite app_assoc. apply holds_app. split; [done|]. rewrite !len_app in *. rewrite Hzr in *.
      replace (Acl + 8 + zlen (aces_bytes A) + (zlen (aces_bytes C) + zlen (ace_bytes e))) with (Acl + 8 + zlen (aces_bytes A) + (zlen (ace_bytes e) + zlen (aces_bytes C))) by lia.
      eapply holds_agree; [exact Hrest|exact Hag1|lia].
    + rewrite Forall_app. done.
    + done.
    + rewrite aces_bytes_app, !len_app, Hzr. lia.
    + rewrite len_app. rewrite <- Hmid at 1. rewrite len_app, len_cons. lia.
    + exists m2. split_and!; [done|done|]. eapply agree_trans; [|exact Hag2]. eapply agree_wider; [exact Hag1|lia|lia].
  - intros Hi. by rewrite (proj2 (Z.leb_le _ _)) by lia.
Qed.

Lemma get_ace_ok i :
  0 ≤ i →
  (i < zlen es → RtlGetAce m Acl i = Some (STATUS_SUCCESS, Some (Acl + 8 + zlen (aces_bytes (take (Z.to_nat i) es))))) ∧
  (zlen es ≤ i → RtlGetAce m Acl i = Some (STATUS_INVALID_PARAMETER, None)).
Proof using HA.
  intros Hi0. pose proof HA as (Hes & Hsize & _). destruct (acl_parts _ _ _ _ HA) as (b1 & b2 & b3 & rest & [Hh Hr Hs Hc He Hroom Hfew]).
  pose proof (len_nonneg rest). unfold RtlGetAce. rewrite Hr, Hc. cbn [mbind option_bind negb Z.eqb Pos.eqb ACL_REVISION2]. split.
  - intros Hi. rewrite (proj2 (Z.leb_gt _ _)) by lia. rewrite Hs. cbn [mbind option_bind].
    rewrite (get_loop_ok m (Acl + size) es (Z.to_nat i) (FirstAce Acl) rest); [done|done|done|unfold FirstAce; lia|unfold zlen in *; lia].
  - intros Hi. by rewrite (proj2 (Z.leb_le _ _)) by lia.
Qed.

(** A [SID] that may be added. *)
Definition valid_sid (Sid : Z) (s : list Z) : Prop :=
  RtlValidSid m Sid = true ∧ holds m Sid s ∧ byte_list s ∧ ∃ c, s !! 1%nat = Some c ∧ zlen s = 8 + 4 * c.

Lemma valid_sid_count Sid s : valid_sid Sid s → ∃ c, SeLengthSid m Sid = Some (zlen s) ∧ s !! 1%nat = Some c ∧ zlen s = 8 + 4 * c ∧ 0 ≤ c ≤ 15.
Proof using.
  intros (Hv & Hh & Hb & c & Hc & Hlen). exists c. pose proof (Hh _ _ Hc) as Hm. change (Z.of_nat 1) with 1 in Hm.
  unfold SeLengthSid, SubAuthorityCount, load8. rewrite Hm. cbn [mbind option_bind]. split_and!; [by rewrite Hlen|done|done| |].
  - unfold byte_list in Hb. rewrite Forall_lookup in Hb. by apply (Hb 1%nat).
  - unfold RtlValidSid, Revision, SubAuthorityCount, load8 in Hv. rewrite Hm in Hv. destruct (m !! Sid) as [r|]; [|done]. cbn [mbind option_bind] in Hv.
    destruct (Z.land r 15 =? SID_REVISION); [|done]. cbn [handled] in Hv. unfold SID_MAX_SUB_AUTHORITIES in Hv. lia.
Qed.

(** The bytes of a new entry, field by field. *)
Lemma write_ace Ace Type_ Flags AccessMask Sid s old :
  let e := mkAce Type_ Flags (le32 AccessMask ++ s) in
  valid_sid Sid s → 0 ≤ Type_ < 2 ^ 8 → 0 ≤ Flags < 2 ^ 8 → holds m Ace old → zlen old = ace_size e →
  (Sid + zlen s ≤ Ace ∨ Ace + ace_size e ≤ Sid) →
  ∃ m', fill_ace m Ace Type_ Flags (ace_size e) AccessMask Sid = Some (m', STATUS_SUCCESS) ∧
    holds m' Ace (ace_bytes e) ∧ agree_outside Ace (ace_size e) m m'.
Proof using.
  intros e Hs Ht Hf Hold Hlen Hdis. destruct (valid_sid_count _ _ Hs) as (c & _ & Hc & Hls & Hcr). destruct Hs as (_ & Hsid & Hsb & _).
  assert (He : ace_size e = 8 + zlen s) by (unfold e, ace_size; cbn [a_body]; rewrite len_app; change (zlen (le32 AccessMask)) with 4; lia).
  destruct old as [|o1 [|o2 [|o3 [|o4 [|o5 [|o6 [|o7 [|o8 so]]]]]]]]; try (unfold zlen in *; simpl in *; lia).
  assert (Hso : length so = length s) by (rewrite !len_cons in Hlen; unfold zlen in *; lia).
  change (o1 :: o2 :: o3 :: o4 :: o5 :: o6 :: o7 :: o8 :: so) with ([o1] ++ [o2] ++ [o3; o4] ++ [o5; o6; o7; o8] ++ so) in Hold.
  rewrite !holds_app in Hold. change (zlen [_]) with 1 in Hold. change (zlen [_; _]) with 2 in Hold. change (zlen [_; _; _; _]) with 4 in Hold.
  replace (Ace + 1 + 1) with (Ace + 2) in Hold by lia. replace (Ace + 2 + 2) with (Ace + 4) in Hold by lia. replace (Ace + 4 + 4) with (Ace + 8) in Hold by lia.
  destruct Hold as (O1 & O2 & O3 & O4 & O5).
  destruct (store_bytes_ok [Flags] m (Ace + 1) [o2] O2 eq_refl) as (m1 & S1 & V1 & A1); [by apply Forall_singleton|].
  destruct (store_bytes_ok [Type_] m1 Ace [o1]) as (m2 & S2 & V2 & A2);
    [eapply holds_agree; [exact O1|exact A1|change (zlen [_]) with 1; lia]|done|by apply Forall_singleton|].
  assert (A12 : agree_outside Ace 2 m m2).
  { eapply agree_trans; (eapply agree_wider; [eassumption|lia|change (zlen [_]) with 1; lia]). }
  destruct (store_bytes_ok (le16 (ace_size e)) m2 (Ace + 2) [o3; o4]) as (m3 & S3 & V3 & A3);
    [eapply holds_agree; [exact O3|exact A12|lia]|done|apply byte_le16|].
  assert (A13 : agree_outside Ace 4 m m3).
  { eapply agree_trans; (eapply agree_wider; [eassumption|lia|change (zlen (le16 _)) with 2; lia]). }
  destruct (store_bytes_ok (le32 AccessMask) m3 (Ace + 4) [o5; o6; o7; o8]) as (m4 & S4 & V4 & A4);
    [eapply holds_agree; [exact O4|exact A13|lia]|done|apply byte_le32|].
  assert (A14 : agree_outside Ace 8 m m4).
  { eapply agree_trans; (eapply agree_wider; [eassumption|lia|change (zlen (le32 _)) with 4; lia]). }
  assert (Hsid4 : holds m4 Sid s) by (eapply holds_agree; [exact Hsid|exact A14|lia]).
  destruct (move_holds m4 (Ace + 8) Sid s so Hsid4) as (m5 & S5 & V5 & A5); [eapply holds_agree; [exact O5|exact A14|lia]|done|done|].
  exists m5. unfold fill_ace. cbn [store_bytes] in S1, S2.
  destruct (store8 m (Ace + 1) Flags) as [?|] eqn:E1; [|done]. injection S1 as ->. cbn [mbind option_bind].
  destruct (store8 m1 Ace Type_) as [?|] eqn:E2; [|done]. injection S2 as ->. cbn [mbind option_bind].
  rewrite store16_bytes, S3. cbn [mbind option_bind]. rewrite store32_bytes, S4. cbn [mbind option_bind].
  assert (HL : SeLengthSid m4 Sid = Some (zlen s)).
  { unfold SeLengthSid, SubAuthorityCount, load8. pose proof (Hsid4 _ _ Hc) as Hm4. change (Z.of_nat 1) with 1 in Hm4. rewrite Hm4. cbn [mbind option_bind]. by rewrite Hls. }
  unfold RtlLengthSid, RtlCopySid. rewrite HL. cbn [mbind option_bind]. rewrite Z.ltb_irrefl. unfold SidStart. rewrite S5.
  split; [done|]. split.
  - unfold e, ace_bytes. cbn [a_type a_flags a_body]. fold e. change [Type_; Flags] with ([Type_] ++ [Flags]). rewrite <- !app_assoc, !holds_app.
    change (zlen [_]) with 1. change (zlen (le16 _)) with 2. change (zlen (le32 _)) with 4.
    replace (Ace + 1 + 1) with (Ace + 2) by lia. replace (Ace + 2 + 2) with (Ace + 4) by lia. replace (Ace + 4 + 4) with (Ace + 8) by lia.
    assert (Hkeep : ∀ a l, Ace ≤ a → a + zlen l ≤ Ace + 8 → holds m4 a l → holds m5 a l) by (intros a l H1 H2 H; eapply holds_agree; [exact H|exact A5|lia]).
    split_and!; [..|done]; apply Hkeep; try (change (zlen [_]) with 1; change (zlen (le16 _)) with 2; change (zlen (le32 _)) with 4; lia).
    + eapply holds_agree; [|exact A4|change (zlen [_]) with 1; lia]. eapply holds_agree; [exact V2|exact A3|change (zlen [_]) with 1; lia].
    + eapply holds_agree; [|exact A4|change (zlen [_]) with 1; lia]. eapply holds_agree; [|exact A3|change (zlen [_]) with 1; lia].
      eapply holds_agree; [exact V1|exact A2|change (zlen [_]) with 1; lia].
    + eapply holds_agree; [exact V3|exact A4|change (zlen (le16 _)) with 2; lia].
    + done.
  - rewrite He. eapply agree_trans; (eapply agree_wider; [eassumption|lia|lia]).
Qed.

Lemma add_known_ok Type_ Flags AccessMask Sid s :
  let e := mkAce Type_ Flags (le32 AccessMask ++ s) in
  valid_sid Sid s → 0 ≤ Type_ < 2 ^ 8 → 0 ≤ Flags < 2 ^ 8 → (Sid + zlen s ≤ Acl ∨ Acl + size ≤ Sid) →
  (room (ace_size e) → ∃ m', add_known_ace Type_ Flags m Acl ACL_REVISION2 AccessMask Sid = Some (m', STATUS_SUCCESS) ∧
      holds_acl m' Acl size (es ++ [e]) ∧ agree_outside Acl size m m') ∧
  (¬ room (ace_size e) → add_known_ace Type_ Flags m Acl ACL_REVISION2 AccessMask Sid = Some (m, STATUS_ALLOTTED_SPACE_EXCEEDED)).
Proof using HA HAcl Hend.
  intros e Hs Ht Hf Hdis. destruct (valid_sid_count _ _ Hs) as (c & HL & _ & Hls & Hcr). pose proof Hs as (Hv & Hsid & Hsb & _).
  pose proof HA as (Hes & Hsize & _). destruct (acl_parts _ _ _ _ HA) as (b1 & b2 & b3 & rest & HF).
  pose proof (first_free_ok _ _ _ _ _ _ _ _ Hes HF) as Hfree. destruct HF as [Hh Hr Hsz Hc He Hroom Hfew].
  pose proof (len_nonneg rest). pose proof (len_nonneg (aces_bytes es)).
  assert (Hesize : ace_size e = 8 + zlen s) by (unfold e, ace_size; cbn [a_body]; rewrite len_app; change (zlen (le32 AccessMask)) with 4; lia).
  unfold add_known_ace. rewrite Hv, Hr. cbn [negb mbind option_bind Z.eqb Pos.eqb ACL_REVISION2 orb]. rewrite Hfree. cbn [negb mbind option_bind].
  unfold RtlLengthSid. rewrite HL, Hsz. cbn [mbind option_bind]. rewrite (u16_small (4 + 4 + zlen s)) by lia.
  replace (4 + 4 + zlen s) with (ace_size e) by lia. rewrite (proj2 (Z.eqb_neq (Acl + 8 + _) 0)) by lia. cbn [orb]. unfold room. split.
  - intros Hle. rewrite (proj2 (Z.ltb_ge _ _)) by lia. pose proof He as [HeA Hrest]%holds_app. unfold FirstAce in *.
    set (n := Z.to_nat (ace_size e)). assert (Hn : zlen (take n rest) = ace_size e) by (unfold zlen, n in *; rewrite length_take; lia).
    rewrite <- (take_drop n rest), holds_app, Hn in Hrest. destruct Hrest as [Hold Hfree'].
    destruct (write_ace (Acl + 8 + zlen (aces_bytes es)) Type_ Flags AccessMask Sid s _ Hs Ht Hf Hold Hn) as (m1 & Hw & Hm1 & Hag1); [unfold e in *; lia|].
    fold e in Hw, Hm1, Hag1. rewrite Hw. cbn [mbind option_bind].
    assert (Hh1 : holds m1 Acl (header size (zlen es) b1 b2 b3)) by (eapply holds_agree; [exact Hh|exact Hag1|change (zlen (header _ _ _ _ _)) with 8; lia]).
    assert (Hc1 : AceCount m1 Acl = Some (zlen es)) by (eapply header_count; [exact Hh1|lia]).
    rewrite Hc1. cbn [mbind option_bind].
    assert (Hone : aces_bytes [e] = ace_bytes e) by (unfold aces_bytes; simpl; by rewrite app_nil_r).
    assert (Heok : ace_ok e).
    { split; [done|]. split; [done|]. split; [|lia]. unfold e. cbn [a_body]. apply byte_list_app. split; [apply byte_le32|done]. }
    destruct (set_count m1 Acl size (zlen es + 1) (es ++ [e]) b1 b2 b3 (drop n rest) (zlen es) Hh1) as (m2 & -> & Hm2 & Hag2).
    + unfold FirstAce. rewrite aces_bytes_app, Hone, <- app_assoc. apply holds_app. split; [eapply holds_agree; [exact HeA|exact Hag1|lia]|].
      apply holds_app. split; [done|]. rewrite ace_bytes_size. eapply holds_agree; [exact Hfree'|exact Hag1|lia].
    + rewrite Forall_app. auto.
    + done.
    + rewrite aces_bytes_app, Hone, len_app, ace_bytes_size. unfold zlen in *. rewrite length_drop. lia.
    + by rewrite len_app.
    + exists m2. split_and!; [done|done|]. eapply agree_trans; [|exact Hag2]. eapply agree_wider; [exact Hag1|lia|lia].
  - intros Hno. by rewrite (proj2 (Z.ltb_lt _ _)) by lia.
Qed.
End edits.

#[export] Instance room_dec size es n : Decision (room size es n).
Proof. unfold room. apply _. Defined.

(** ** A new list *)

Lemma create_acl_ok m Acl size old :
  holds m Acl old → zlen old = size → 8 ≤ size < 2 ^ 16 →
  ∃ m', RtlCreateAcl m Acl size ACL_REVISION2 = Some (m', STATUS_SUCCESS) ∧ holds_acl m' Acl size [] ∧ agree_outside Acl size m m'.
Proof.
  intros Hold Hlen Hsize. destruct old as [|o1 [|o2 [|o3 [|o4 [|o5 [|o6 [|o7 [|o8 rest]]]]]]]]; try (unfold zlen in *; simpl in *; lia).
  change (o1 :: o2 :: o3 :: o4 :: o5 :: o6 :: o7 :: o8 :: rest) with ([o1; o2; o3; o4; o5; o6; o7; o8] ++ rest) in Hold.
  apply holds_app in Hold as [Ho Hrest]. change (zlen [o1; o2; o3; o4; o5; o6; o7; o8]) with 8 in Hrest.
  destruct (store_bytes_ok (header size 0 0 0 0) m Acl _ Ho eq_refl) as (m' & Hst & Hm' & Hag).
  { assert (Hb : ∀ x y, 0 ≤ x < 2 ^ 8 → 0 ≤ y < 2 ^ 8 → byte_list [x; y]) by (intros x y Hx Hy; constructor; [done|constructor; [done|constructor]]).
    unfold header. apply byte_list_app. split; [apply Hb; unfold ACL_REVISION2; lia|]. apply byte_list_app. split; [apply byte_le16|]. apply byte_list_app. split; [apply byte_le16|apply Hb; lia]. }
  change (zlen (header size 0 0 0 0)) with 8 in Hag. exists m'. split; [|split].
  - unfold RtlCreateAcl. rewrite (proj2 (Z.ltb_ge size 8)), (proj2 (Z.ltb_ge 65535 size)) by lia. cbn [negb Z.eqb Pos.eqb ACL_REVISION2].
    rewrite u16_small by lia. change (header size 0 0 0 0) with ([2] ++ [0] ++ le16 size ++ le16 0 ++ le16 0) in Hst.
    change ACL_REVISION2 with 2. do 4 next_store Hst. rewrite store16_bytes. by rewrite Hst.
  - split; [constructor|]. split; [lia|]. exists 0, 0, 0, rest. split; [|unfold aces_bytes, zlen in *; simpl in *; lia].
    apply holds_app. split; [done|]. change (zlen (header size (zlen []) 0 0 0)) with 8. simpl. eapply holds_agree; [exact Hrest|exact Hag|lia].
  - eapply agree_wider; [exact Hag|lia|lia].
Qed.
