(* ===== verification/Access.v ===== *)
(** * Access checks ([SE/ACCESSCK.C], [SE/PRIVILEG.C], [SE/SEGLOBAL.C])

    A token has its user and groups, the user first, and its privileges; the [SID]s are
    at addresses. Locks on tokens and subject contexts have no effect here: nothing
    changes them during a check. What an output has before is an argument, as the
    routines do not write every output on every path. *)

From stdpp Require Import base list numbers option gmap.
From S2P Require Import Prelude AclMem Acl.

Definition READ_CONTROL : Z := 0x00020000.
Definition WRITE_DAC : Z := 0x00040000.
Definition WRITE_OWNER : Z := 0x00080000.
Definition ACCESS_SYSTEM_SECURITY : Z := 0x01000000.
Definition MAXIMUM_ALLOWED : Z := 0x02000000.
Definition INHERIT_ONLY_ACE : Z := 0x8.
Definition SE_GROUP_ENABLED : Z := 0x4.
Definition SE_PRIVILEGE_ENABLED : Z := 0x2.
Definition SE_DACL_PRESENT : Z := 0x4.
Definition SE_SELF_RELATIVE : Z := 0x8000.

(** [LUID]s of the two privileges. *)
Definition SeSecurityPrivilege : Z := 8.
Definition SeTakeOwnershipPrivilege : Z := 9.

(** [x & y] as a condition. *)
Definition any (x y : Z) : bool := negb (Z.land x y =? 0).

Inductive KPROCESSOR_MODE := KernelMode | UserMode.

Inductive SECURITY_IMPERSONATION_LEVEL :=
  | SecurityAnonymous | SecurityIdentification | SecurityImpersonation | SecurityDelegation.

Record SID_AND_ATTRIBUTES := mkSidAttr { Sid : Z; Attributes : Z }.
Record LUID_AND_ATTRIBUTES := mkLuidAttr { Luid : Z; LuidAttributes : Z }.
Record TOKEN := mkToken { UserAndGroups : list SID_AND_ATTRIBUTES; TokenPrivileges : list LUID_AND_ATTRIBUTES }.
Record SECURITY_SUBJECT_CONTEXT := mkSubject
  { ClientToken : option TOKEN; ImpersonationLevel : SECURITY_IMPERSONATION_LEVEL; PrimaryToken : TOKEN }.
Record GENERIC_MAPPING := mkMapping { GenericRead : Z; GenericWrite : Z; GenericExecute : Z; GenericAll : Z }.

Definition below_impersonation (l : SECURITY_IMPERSONATION_LEVEL) : bool :=
  match l with SecurityAnonymous | SecurityIdentification => true | _ => false end.

Definition EffectiveToken (s : SECURITY_SUBJECT_CONTEXT) : TOKEN := default (PrimaryToken s) (ClientToken s).

(** ** Security descriptors in memory; an address is 0 for [NULL] *)

Definition Control (m : Mem) (SD : Z) : option Z := load16 m (SD + 2).

(** The address in a field, or what its offset stands for in self-relative form. *)
Definition component (m : Mem) (SD Field : Z) : option Z :=
  p ← load32 m (SD + Field);
  if p =? 0 then Some 0 else c ← Control m SD; Some (if any c SE_SELF_RELATIVE then SD +u p else p).

Definition SepOwnerAddrSecurityDescriptor (m : Mem) (SD : Z) : option Z := component m SD 4.

Definition SepDaclAddrSecurityDescriptor (m : Mem) (SD : Z) : option Z :=
  c ← Control m SD; if any c SE_DACL_PRESENT then component m SD 16 else Some 0.

Definition SepAreControlBitsSet (m : Mem) (SD Bits : Z) : option bool :=
  c ← Control m SD; Some (Z.land c Bits =? Bits).

(** ** Privileges *)

(** One required privilege: whether an enabled one of the token matches. *)
Definition match_privilege (Token : TOKEN) (Required : Z) : bool :=
  existsb (λ p, any (LuidAttributes p) SE_PRIVILEGE_ENABLED && (Luid p =? Required)) (TokenPrivileges Token).

Definition SE_PRIVILEGE_USED_FOR_ACCESS : Z := 0x80000000.

(** The privileges with their new attributes, and how many match. *)
Fixpoint match_loop (Token : TOKEN) (Required : list LUID_AND_ATTRIBUTES) : list LUID_AND_ATTRIBUTES * Z :=
  match Required with
  | [] => ([], 0)
  | r :: Required =>
      let '(l, n) := match_loop Token Required in
      if match_privilege Token (Luid r)
      then (mkLuidAttr (Luid r) (Z.lor (LuidAttributes r) SE_PRIVILEGE_USED_FOR_ACCESS) :: l, 1 + n)
      else (r :: l, n)
  end.

Definition SepPrivilegeCheck (Token : TOKEN) (Required : list LUID_AND_ATTRIBUTES) (RequiredAll : bool)
    (PreviousMode : KPROCESSOR_MODE) : bool * list LUID_AND_ATTRIBUTES :=
  match PreviousMode with
  | KernelMode => (true, Required)
  | UserMode =>
      let '(Required', MatchCount) := match_loop Token Required in
      (if negb RequiredAll && (MatchCount =? 0) then false
       else if RequiredAll && negb (MatchCount =? zlen Required) then false
       else true, Required')
  end.

Definition SepSinglePrivilegeCheck (DesiredPrivilege : Z) (Token : TOKEN) (PreviousMode : KPROCESSOR_MODE) : bool :=
  fst (SepPrivilegeCheck Token [mkLuidAttr DesiredPrivilege 0] true PreviousMode).

(** The impersonation level, then the privileges of the effective token. *)
Definition SePrivilegeCheck (Required : list LUID_AND_ATTRIBUTES) (RequiredAll : bool)
    (Subject : SECURITY_SUBJECT_CONTEXT) (AccessMode : KPROCESSOR_MODE) : bool * list LUID_AND_ATTRIBUTES :=
  if bool_decide (ClientToken Subject ≠ None) && below_impersonation (ImpersonationLevel Subject) then (false, Required)
  else SepPrivilegeCheck (EffectiveToken Subject) Required RequiredAll AccessMode.

(** ** Outputs *)

(** A pointer to a privilege set is [None] for [NULL]; the set lists the privileges
    that are marked as used for access. *)
Record OUTPUT := mkOutput { GrantedAccess : Z; Privileges : option (list Z); AccessStatus : NTSTATUS }.

#[export] Instance OUTPUT_eta : Eta OUTPUT := λ r, mkOutput (GrantedAccess r) (Privileges r) (AccessStatus r).

(** [Pool] tells whether the allocation succeeds; [HasPrivileges] whether the caller
    passes a place for the set. *)
Definition SepAssemblePrivileges (HasPrivileges Pool : bool) (PrivilegeCount : Z) (SystemSecurity WriteOwner : bool)
    (Out : OUTPUT) : OUTPUT :=
  if negb HasPrivileges then Out
  else
    let PrivilegeSet :=
      if PrivilegeCount =? 1 then if SystemSecurity then [SeSecurityPrivilege] else [SeTakeOwnershipPrivilege]
      else [SeSecurityPrivilege; SeTakeOwnershipPrivilege] in
    Out <| Privileges := if Pool then Some PrivilegeSet else None |>.

(** ** Tokens *)

Fixpoint sid_loop (l : list SID_AND_ATTRIBUTES) (i : Z) (m : Mem) (Sid_ SidLength : Z) : option bool :=
  match l with
  | [] => Some false
  | TokenSid :: l =>
      let MatchSid := Sid TokenSid in
      r ← Revision m Sid_; r' ← Revision m MatchSid;
      same ← (if r =? r' then c ← SubAuthorityCount m MatchSid; Some (SidLength =? 8 + 4 * c) else Some false);
      equal ← (if (same : bool) then n ← RtlCompareMemory m Sid_ MatchSid SidLength; Some (n =? SidLength) else Some false);
      if (equal : bool) then Some ((i =? 0) || any (Attributes TokenSid) SE_GROUP_ENABLED)
      else sid_loop l (i + 1) m Sid_ SidLength
  end.

Definition SepSidInToken (m : Mem) (Token : TOKEN) (Sid_ : Z) : option bool :=
  c ← SubAuthorityCount m Sid_; sid_loop (UserAndGroups Token) 0 m Sid_ (8 + 4 * c).

Definition SepTokenIsOwner (m : Mem) (Token : TOKEN) (SD : Z) : option bool :=
  Owner ← SepOwnerAddrSecurityDescriptor m SD; SepSidInToken m Token Owner.

(** ** The walks over the list *)

(** All that is granted, and all that is denied. *)
Fixpoint maximum_loop (n : nat) (m : Mem) (Token : TOKEN) (Ace CurrentGranted CurrentDenied : Z) : option (Z * Z) :=
  match n with
  | O => Some (CurrentGranted, CurrentDenied)
  | S n =>
      flags ← AceFlags m Ace;
      '(CurrentGranted, CurrentDenied) ←
        (if any flags INHERIT_ONLY_ACE then Some (CurrentGranted, CurrentDenied)
         else
           type ← AceType m Ace;
           if type =? ACCESS_ALLOWED_ACE_TYPE then
             here ← SepSidInToken m Token (SidStart Ace);
             if (here : bool) then mask ← Mask m Ace; Some (Z.lor CurrentGranted (Z.ldiff mask CurrentDenied), CurrentDenied)
             else Some (CurrentGranted, CurrentDenied)
           else if type =? ACCESS_DENIED_ACE_TYPE then
             here ← SepSidInToken m Token (SidStart Ace);
             if (here : bool) then mask ← Mask m Ace; Some (CurrentGranted, Z.lor CurrentDenied (Z.ldiff mask CurrentGranted))
             else Some (CurrentGranted, CurrentDenied)
           else Some (CurrentGranted, CurrentDenied));
      Ace ← NextAce m Ace; maximum_loop n m Token Ace CurrentGranted CurrentDenied
  end.

(** What remains to be granted, at the end or at an entry that denies some of it. *)
Fixpoint remaining_loop (n : nat) (m : Mem) (Token : TOKEN) (Ace Remaining : Z) : option Z :=
  match n with
  | O => Some Remaining
  | S n =>
      if Remaining =? 0 then Some Remaining
      else
        flags ← AceFlags m Ace;
        '(stop, Remaining) ←
          (if any flags INHERIT_ONLY_ACE then Some (false, Remaining)
           else
             type ← AceType m Ace;
             if type =? ACCESS_ALLOWED_ACE_TYPE then
               here ← SepSidInToken m Token (SidStart Ace);
               if (here : bool) then mask ← Mask m Ace; Some (false, Z.ldiff Remaining mask) else Some (false, Remaining)
             else if type =? ACCESS_DENIED_ACE_TYPE then
               here ← SepSidInToken m Token (SidStart Ace);
               if (here : bool) then mask ← Mask m Ace; Some (any Remaining mask, Remaining) else Some (false, Remaining)
             else Some (false, Remaining));
        if (stop : bool) then Some Remaining else Ace ← NextAce m Ace; remaining_loop n m Token Ace Remaining
  end.

(** ** The check *)

Section check.
Context (m : Mem) (SD : Z) (Token : TOKEN) (DesiredAccess : Z) (Mapping : GENERIC_MAPPING)
  (PreviousMode : KPROCESSOR_MODE) (HasPrivileges Pool : bool) (Out : OUTPUT).

(** Success with an access mask; the set is assembled if a privilege was used. *)
Definition grant (PrivilegeCount : Z) (SystemSecurity WriteOwner : bool) (Granted : Z) : bool * OUTPUT :=
  let Out := Out <| GrantedAccess := Granted |> <| AccessStatus := STATUS_SUCCESS |> in
  (true, if 0 <? PrivilegeCount then SepAssemblePrivileges HasPrivileges Pool PrivilegeCount SystemSecurity WriteOwner Out else Out).

Definition deny : bool * OUTPUT := (false, Out <| GrantedAccess := 0 |> <| AccessStatus := STATUS_ACCESS_DENIED |>).

(** The entries of the list. *)
Definition check_entries (Dacl Remaining PreviouslyGrantedAccess PrivilegeCount : Z) (SystemSecurity WriteOwner : bool) :
    option (bool * OUTPUT) :=
  Count ← AceCount m Dacl;
  if Count =? 0 then
    if (Remaining =? MAXIMUM_ALLOWED) && negb (PreviouslyGrantedAccess =? 0)
    then Some (grant PrivilegeCount SystemSecurity WriteOwner PreviouslyGrantedAccess)
    else Some deny
  else if any DesiredAccess MAXIMUM_ALLOWED then
    '(CurrentGranted, _) ← maximum_loop (Z.to_nat Count) m Token (FirstAce Dacl) 0 0;
    let Remaining := Z.ldiff Remaining (Z.lor MAXIMUM_ALLOWED CurrentGranted) in
    if negb (Remaining =? 0) then Some deny
    else
      let Granted := Z.lor CurrentGranted PreviouslyGrantedAccess in
      if negb (Granted =? 0) then Some (grant PrivilegeCount SystemSecurity WriteOwner Granted) else Some deny
  else
    Remaining ← remaining_loop (Z.to_nat Count) m Token (FirstAce Dacl) Remaining;
    if negb (Remaining =? 0) then Some deny
    else
      let Granted := Z.lor DesiredAccess PreviouslyGrantedAccess in
      if Granted =? 0 then Some deny else Some (grant PrivilegeCount SystemSecurity WriteOwner Granted).

(** From the address of the list on. *)
Definition check_dacl (Remaining PreviouslyGrantedAccess PrivilegeCount : Z) (SystemSecurity : bool) : option (bool * OUTPUT) :=
  Dacl ← SepDaclAddrSecurityDescriptor m SD;
  present ← SepAreControlBitsSet m SD SE_DACL_PRESENT;
  if negb present || (Dacl =? 0) then
    Some (grant PrivilegeCount SystemSecurity false
      (if any DesiredAccess MAXIMUM_ALLOWED then Z.lor (GenericAll Mapping) (Z.ldiff DesiredAccess MAXIMUM_ALLOWED)
       else Z.lor DesiredAccess PreviouslyGrantedAccess))
  else if any Remaining WRITE_OWNER && HasPrivileges && SepSinglePrivilegeCheck SeTakeOwnershipPrivilege Token PreviousMode then
    let Remaining := Z.ldiff Remaining WRITE_OWNER in
    let PreviouslyGrantedAccess := Z.lor PreviouslyGrantedAccess WRITE_OWNER in
    if Remaining =? 0 then Some (grant (PrivilegeCount + 1) SystemSecurity true PreviouslyGrantedAccess)
    else check_entries Dacl Remaining PreviouslyGrantedAccess (PrivilegeCount + 1) SystemSecurity true
  else check_entries Dacl Remaining PreviouslyGrantedAccess PrivilegeCount SystemSecurity false.

Definition SepAccessCheck (PreviouslyGrantedAccess : Z) : option (bool * OUTPUT) :=
  if any DesiredAccess ACCESS_SYSTEM_SECURITY then
    if negb (SepSinglePrivilegeCheck SeSecurityPrivilege Token PreviousMode)
    then Some (false, Out <| AccessStatus := STATUS_PRIVILEGE_NOT_HELD |>)
    else
      let Remaining := Z.ldiff DesiredAccess ACCESS_SYSTEM_SECURITY in
      let PreviouslyGrantedAccess := Z.lor PreviouslyGrantedAccess ACCESS_SYSTEM_SECURITY in
      if Remaining =? 0 then Some (grant 1 true false PreviouslyGrantedAccess)
      else check_dacl Remaining PreviouslyGrantedAccess 1 true
  else check_dacl DesiredAccess PreviouslyGrantedAccess 0 false.
End check.

Definition SeAccessCheck (m : Mem) (SD : Z) (Subject : SECURITY_SUBJECT_CONTEXT) (DesiredAccess PreviouslyGrantedAccess : Z)
    (HasPrivileges : bool) (Mapping : GENERIC_MAPPING) (AccessMode : KPROCESSOR_MODE) (Pool : bool) (Out : OUTPUT) :
    option (bool * OUTPUT) :=
  let kernel := match AccessMode with KernelMode => true | UserMode => false end in
  if kernel && negb (any DesiredAccess MAXIMUM_ALLOWED) then
    Some (true, Out <| GrantedAccess := Z.lor DesiredAccess PreviouslyGrantedAccess |> <| AccessStatus := STATUS_SUCCESS |>)
  else
    let Out :=
      if kernel then
        Out <| GrantedAccess := Z.lor (Z.lor (GenericAll Mapping) (Z.ldiff DesiredAccess MAXIMUM_ALLOWED)) PreviouslyGrantedAccess |>
      else Out in
    if SD =? 0 then Some (false, Out <| AccessStatus := STATUS_ACCESS_DENIED |>)
    else if bool_decide (ClientToken Subject ≠ None) && below_impersonation (ImpersonationLevel Subject) then
      Some (false, Out <| AccessStatus := STATUS_BAD_IMPERSONATION_LEVEL |>)
    else if DesiredAccess =? 0 then
      if PreviouslyGrantedAccess =? 0 then Some (false, Out <| AccessStatus := STATUS_ACCESS_DENIED |>)
      else if HasPrivileges then
        Some (true, Out <| GrantedAccess := PreviouslyGrantedAccess |> <| AccessStatus := STATUS_SUCCESS |> <| Privileges := None |>)
      else None
    else
      owner ← (if any DesiredAccess (Z.lor (Z.lor WRITE_DAC READ_CONTROL) MAXIMUM_ALLOWED)
               then SepTokenIsOwner m (EffectiveToken Subject) SD else Some false);
      let PreviouslyGrantedAccess :=
        if (owner : bool) then
          Z.lor PreviouslyGrantedAccess
            (if any DesiredAccess MAXIMUM_ALLOWED then Z.lor WRITE_DAC READ_CONTROL
             else Z.land DesiredAccess (Z.lor WRITE_DAC READ_CONTROL))
        else PreviouslyGrantedAccess in
      let DesiredAccess := if owner then Z.ldiff DesiredAccess (Z.lor WRITE_DAC READ_CONTROL) else DesiredAccess in
      if DesiredAccess =? 0 then
        Some (true, Out <| GrantedAccess := PreviouslyGrantedAccess |> <| AccessStatus := STATUS_SUCCESS |>)
      else
        SepAccessCheck m SD (EffectiveToken Subject) DesiredAccess Mapping AccessMode HasPrivileges Pool Out PreviouslyGrantedAccess.

(** The status, the two masks and the set. *)
Definition SePrivilegePolicyCheck (RemainingDesiredAccess PreviouslyGrantedAccess : Z) (Subject : option SECURITY_SUBJECT_CONTEXT)
    (ExplicitToken : TOKEN) (Set_ : option (list Z)) (PreviousMode : KPROCESSOR_MODE) (Pool : bool) :
    NTSTATUS * (Z * Z * option (list Z)) :=
  let Token := match Subject with Some s => EffectiveToken s | None => ExplicitToken end in
  let SystemSecurity := any RemainingDesiredAccess ACCESS_SYSTEM_SECURITY in
  if SystemSecurity && negb (SepSinglePrivilegeCheck SeSecurityPrivilege Token PreviousMode) then
    (STATUS_PRIVILEGE_NOT_HELD, (RemainingDesiredAccess, PreviouslyGrantedAccess, Set_))
  else
    let Remaining := if SystemSecurity then Z.ldiff RemainingDesiredAccess ACCESS_SYSTEM_SECURITY else RemainingDesiredAccess in
    let Previously := if SystemSecurity then Z.lor PreviouslyGrantedAccess ACCESS_SYSTEM_SECURITY else PreviouslyGrantedAccess in
    let WriteOwner := any Remaining WRITE_OWNER && SepSinglePrivilegeCheck SeTakeOwnershipPrivilege Token PreviousMode in
    let Remaining := if WriteOwner then Z.ldiff Remaining WRITE_OWNER else Remaining in
    let Previously := if WriteOwner then Z.lor Previously WRITE_OWNER else Previously in
    if SystemSecurity || WriteOwner then
      if Pool then
        (STATUS_SUCCESS, (Remaining, Previously,
          Some ((if WriteOwner then [SeTakeOwnershipPrivilege] else []) ++ (if SystemSecurity then [SeSecurityPrivilege] else []))))
      else (STATUS_INSUFFICIENT_RESOURCES, (Remaining, Previously, None))
    else (STATUS_SUCCESS, (Remaining, Previously, Set_)).

(** ** Traversal *)

Fixpoint traverse_loop (n : nat) (m : Mem) (SeWorldSid TraverseAccess Ace : Z) : option bool :=
  match n with
  | O => Some false
  | S n =>
      flags ← AceFlags m Ace;
      answer ←
        (if any flags INHERIT_ONLY_ACE then Some None
         else
           type ← AceType m Ace;
           if type =? ACCESS_ALLOWED_ACE_TYPE then
             mask ← Mask m Ace;
             if any TraverseAccess mask then e ← RtlEqualSid m SeWorldSid (SidStart Ace); Some (if (e : bool) then Some true else None)
             else Some None
           else if type =? ACCESS_DENIED_ACE_TYPE then
             mask ← Mask m Ace;
             if any TraverseAccess mask then e ← RtlEqualSid m SeWorldSid (SidStart Ace); Some (if (e : bool) then Some false else None)
             else Some None
           else Some None);
      match answer with
      | Some b => Some b
      | None => Ace ← NextAce m Ace; traverse_loop n m SeWorldSid TraverseAccess Ace
      end
  end.

Definition SeFastTraverseCheck (m : Mem) (SeWorldSid SD TraverseAccess : Z) (AccessMode : KPROCESSOR_MODE) : option bool :=
  match AccessMode with
  | KernelMode => Some true
  | UserMode =>
      if SD =? 0 then Some false
      else
        Dacl ← SepDaclAddrSecurityDescriptor m SD;
        present ← SepAreControlBitsSet m SD SE_DACL_PRESENT;
        if negb present || (Dacl =? 0) then Some true
        else
          Count ← AceCount m Dacl;
          if Count =? 0 then Some false
          else traverse_loop (Z.to_nat Count) m SeWorldSid TraverseAccess (FirstAce Dacl)
  end.

(** ** Bits of a mask *)


Lemma zero_bits x : x = 0 ↔ ∀ b, 0 ≤ b → Z.testbit x b = false.
Proof.
  split; [intros -> b _; apply Z.testbit_0_l|]. intros H. apply Z.bits_inj'. intros b Hb. by rewrite H, Z.testbit_0_l.
Qed.

Lemma not_any x y : any x y = false ↔ ∀ b, 0 ≤ b → Z.testbit x b = true → Z.testbit y b = false.
Proof.
  unfold any. rewrite negb_false_iff, Z.eqb_eq, zero_bits. split; intros H b Hb.
  - intros Hx. specialize (H b Hb). rewrite Z.land_spec, Hx in H. done.
  - rewrite Z.land_spec. destruct (Z.testbit x b) eqn:Hx; [by apply H|done].
Qed.

(** For a nonzero [x & y] with [0 <= x] there is a common bit. *)
Lemma any_bit x y : 0 ≤ x → any x y = true → ∃ b, 0 ≤ b ∧ Z.testbit x b = true ∧ Z.testbit y b = true.
Proof.
  intros Hx. unfold any. rewrite negb_true_iff, Z.eqb_neq. intros Hne. set (z := Z.land x y) in *.
  assert (Hz : 0 < z) by (assert (0 ≤ z) by (apply Z.land_nonneg; auto); lia).
  exists (Z.log2 z). pose proof (Z.bit_log2 z Hz) as Hb. unfold z in Hb at 1. rewrite Z.land_spec, andb_true_iff in Hb.
  split; [apply Z.log2_nonneg|done].
Qed.

Lemma nonzero_bit x : 0 ≤ x → x ≠ 0 → ∃ b, 0 ≤ b ∧ Z.testbit x b = true.
Proof. intros Hx Hne. exists (Z.log2 x). split; [apply Z.log2_nonneg|apply Z.bit_log2; lia]. Qed.

(** A single bit as a mask. *)
Lemma any_pow2 x n : 0 ≤ n → any x (2 ^ n) = Z.testbit x n.
Proof.
  intros Hn. destruct (Z.testbit x n) eqn:Hx.
  - apply not_false_is_true. intros H. pose proof (proj1 (not_any _ _) H n Hn Hx) as H'. by rewrite Z.pow2_bits_true in H'.
  - apply not_any. intros b Hb Hb'. rewrite Z.pow2_bits_eqb by done. apply Z.eqb_neq. congruence.
Qed.
