(* ===== verification/SecDesc.v ===== *)
(** * Security descriptors and access masks ([RTL/SERTL.C])

    A security descriptor has a revision, control bits, and the addresses of an owner, a
    group, a system and a discretionary list. The setters are for the absolute form. A
    [BOOLEAN] is an integer here, since the routines do not agree on values other than
    [TRUE] and [FALSE]. Then descriptors as records. *)

From stdpp Require Import base list list_tactics numbers option gmap.
From S2P Require Import Prelude AclMem Acl Access AclOk.

Definition SECURITY_DESCRIPTOR_REVISION : Z := 1.
Definition SE_OWNER_DEFAULTED : Z := 0x1.
Definition SE_GROUP_DEFAULTED : Z := 0x2.
Definition SE_DACL_DEFAULTED : Z := 0x8.
Definition SE_SACL_PRESENT : Z := 0x10.
Definition SE_SACL_DEFAULTED : Z := 0x20.

Definition set_control (m : Mem) (SD : Z) (f : Z → Z) : option Mem := c ← Control m SD; store16 m (SD + 2) (f c).

Definition RtlCreateSecurityDescriptor (m : Mem) (SD Rev : Z) : option (Mem * NTSTATUS) :=
  if Rev =? SECURITY_DESCRIPTOR_REVISION then
    m ← store8 m SD SECURITY_DESCRIPTOR_REVISION; m ← store8 m (SD + 1) 0; m ← store16 m (SD + 2) 0;
    m ← store32 m (SD + 4) 0; m ← store32 m (SD + 8) 0; m ← store32 m (SD + 12) 0; m ← store32 m (SD + 16) 0;
    Some (m, STATUS_SUCCESS)
  else Some (m, STATUS_UNKNOWN_REVISION).

(** The checks of the setters, before [body]. *)
Definition absolute (m : Mem) (SD : Z) (body : option Mem) : option (Mem * NTSTATUS) :=
  r ← load8 m SD;
  if negb (r =? SECURITY_DESCRIPTOR_REVISION) then Some (m, STATUS_UNKNOWN_REVISION)
  else
    c ← Control m SD;
    if any c SE_SELF_RELATIVE then Some (m, STATUS_INVALID_SECURITY_DESCR)
    else m ← body; Some (m, STATUS_SUCCESS).

(** A list at an offset, or none. *)
Definition set_list (m : Mem) (SD Field Present Defaulted ListPresent List : Z) (default : bool) : option Mem :=
  if negb (ListPresent =? 0) then
    m ← set_control m SD (λ c, Z.lor c Present);
    m ← store32 m (SD + Field) 0;
    m ← (if negb (List =? 0) then store32 m (SD + Field) List else Some m);
    m ← set_control m SD (λ c, Z.ldiff c Defaulted);
    if default then set_control m SD (λ c, Z.lor c Defaulted) else Some m
  else set_control m SD (λ c, Z.ldiff c Present).

Definition RtlSetDaclSecurityDescriptor (m : Mem) (SD DaclPresent Dacl DaclDefaulted : Z) : option (Mem * NTSTATUS) :=
  absolute m SD (set_list m SD 16 SE_DACL_PRESENT SE_DACL_DEFAULTED DaclPresent Dacl (DaclDefaulted =? 1)).

Definition RtlSetSaclSecurityDescriptor (m : Mem) (SD SaclPresent Sacl SaclDefaulted : Z) : option (Mem * NTSTATUS) :=
  absolute m SD (set_list m SD 12 SE_SACL_PRESENT SE_SACL_DEFAULTED SaclPresent Sacl (negb (SaclDefaulted =? 0))).

Definition set_sid (m : Mem) (SD Field Defaulted Sid_ : Z) (default : bool) : option Mem :=
  m ← store32 m (SD + Field) 0;
  m ← (if negb (Sid_ =? 0) then store32 m (SD + Field) Sid_ else Some m);
  m ← set_control m SD (λ c, Z.ldiff c Defaulted);
  if default then set_control m SD (λ c, Z.lor c Defaulted) else Some m.

Definition RtlSetOwnerSecurityDescriptor (m : Mem) (SD Owner OwnerDefaulted : Z) : option (Mem * NTSTATUS) :=
  absolute m SD (set_sid m SD 4 SE_OWNER_DEFAULTED Owner (OwnerDefaulted =? 1)).

Definition RtlSetGroupSecurityDescriptor (m : Mem) (SD Group GroupDefaulted : Z) : option (Mem * NTSTATUS) :=
  absolute m SD (set_sid m SD 8 SE_GROUP_DEFAULTED Group (negb (GroupDefaulted =? 0))).

(** Whether the list is present, and then where it is and whether it is a default. *)
Definition get_list (m : Mem) (SD Field Present Defaulted : Z) : option (NTSTATUS * option (bool * option (Z * bool))) :=
  r ← load8 m SD;
  if negb (r =? SECURITY_DESCRIPTOR_REVISION) then Some (STATUS_UNKNOWN_REVISION, None)
  else
    p ← SepAreControlBitsSet m SD Present;
    if (p : bool) then
      c ← Control m SD; a ← (if any c Present then component m SD Field else Some 0);
      d ← SepAreControlBitsSet m SD Defaulted; Some (STATUS_SUCCESS, Some (true, Some (a, d)))
    else Some (STATUS_SUCCESS, Some (false, None)).

Definition RtlGetDaclSecurityDescriptor (m : Mem) (SD : Z) := get_list m SD 16 SE_DACL_PRESENT SE_DACL_DEFAULTED.
Definition RtlGetSaclSecurityDescriptor (m : Mem) (SD : Z) := get_list m SD 12 SE_SACL_PRESENT SE_SACL_DEFAULTED.

Definition get_sid (m : Mem) (SD Field Defaulted : Z) : option (NTSTATUS * option (Z * bool)) :=
  r ← load8 m SD;
  if negb (r =? SECURITY_DESCRIPTOR_REVISION) then Some (STATUS_UNKNOWN_REVISION, None)
  else a ← component m SD Field; d ← SepAreControlBitsSet m SD Defaulted; Some (STATUS_SUCCESS, Some (a, d)).

Definition RtlGetOwnerSecurityDescriptor (m : Mem) (SD : Z) := get_sid m SD 4 SE_OWNER_DEFAULTED.
Definition RtlGetGroupSecurityDescriptor (m : Mem) (SD : Z) := get_sid m SD 8 SE_GROUP_DEFAULTED.

(** The revision, and the control bits if it is known. *)
Definition RtlGetControlSecurityDescriptor (m : Mem) (SD : Z) : option (NTSTATUS * Z * option Z) :=
  r ← load8 m SD;
  if negb (r =? SECURITY_DESCRIPTOR_REVISION) then Some (STATUS_UNKNOWN_REVISION, r, None)
  else c ← Control m SD; Some (STATUS_SUCCESS, r, Some c).

Definition RtlValidSecurityDescriptor (m : Mem) (SD : Z) : bool := handled (
  r ← load8 m SD;
  if negb (r =? SECURITY_DESCRIPTOR_REVISION) then Some false
  else
    c ← Control m SD; owner ← load32 m (SD + 4);
    ok ← (if negb (owner =? 0) then a ← component m SD 4; Some (RtlValidSid m a) else Some true);
    if negb ok then Some false
    else
      group ← load32 m (SD + 8);
      ok ← (if negb (group =? 0) then a ← component m SD 8; Some (RtlValidSid m a) else Some true);
      if negb ok then Some false
      else
        dacl ← load32 m (SD + 16);
        ok ← (if any c SE_DACL_PRESENT && negb (dacl =? 0) then a ← component m SD 16; Some (RtlValidAcl m a) else Some true);
        if negb ok then Some false
        else
          sacl ← load32 m (SD + 12);
          if any c SE_SACL_PRESENT && negb (sacl =? 0) then a ← component m SD 12; Some (RtlValidAcl m a) else Some true).

Definition LongAlign (p : Z) : Z := Z.land (p +u 3) 0xfffffffc.

(** The length with all of its parts. *)
Definition RtlLengthSecurityDescriptor (m : Mem) (SD : Z) : option Z :=
  c ← Control m SD;
  let sum := 20 in
  owner ← load32 m (SD + 4);
  sum ← (if negb (owner =? 0) then a ← component m SD 4; n ← SeLengthSid m a; Some (sum +u LongAlign n) else Some sum);
  group ← load32 m (SD + 8);
  sum ← (if negb (group =? 0) then a ← component m SD 8; n ← SeLengthSid m a; Some (sum +u LongAlign n) else Some sum);
  dacl ← load32 m (SD + 16);
  sum ← (if any c SE_DACL_PRESENT && negb (dacl =? 0) then a ← component m SD 16; n ← AclSize m a; Some (sum +u LongAlign n) else Some sum);
  sacl ← load32 m (SD + 12);
  if any c SE_SACL_PRESENT && negb (sacl =? 0) then a ← component m SD 12; n ← AclSize m a; Some (sum +u LongAlign n) else Some sum.

(** ** Access masks *)

Definition GENERIC_READ : Z := 0x80000000.
Definition GENERIC_WRITE : Z := 0x40000000.
Definition GENERIC_EXECUTE : Z := 0x20000000.
Definition GENERIC_ALL : Z := 0x10000000.

Definition RtlAreAllAccessesGranted (GrantedAccess DesiredAccess : Z) : bool := Z.land (Z.lnot GrantedAccess) DesiredAccess =? 0.
Definition RtlAreAnyAccessesGranted (GrantedAccess DesiredAccess : Z) : bool := negb (Z.land GrantedAccess DesiredAccess =? 0).

Definition RtlMapGenericMask (AccessMask : Z) (Mapping : GENERIC_MAPPING) : Z :=
  let AccessMask := if any AccessMask GENERIC_READ then Z.lor AccessMask (GenericRead Mapping) else AccessMask in
  let AccessMask := if any AccessMask GENERIC_WRITE then Z.lor AccessMask (GenericWrite Mapping) else AccessMask in
  let AccessMask := if any AccessMask GENERIC_EXECUTE then Z.lor AccessMask (GenericExecute Mapping) else AccessMask in
  let AccessMask := if any AccessMask GENERIC_ALL then Z.lor AccessMask (GenericAll Mapping) else AccessMask in
  Z.ldiff AccessMask (Z.lor (Z.lor GENERIC_READ GENERIC_WRITE) (Z.lor GENERIC_EXECUTE GENERIC_ALL)).

(** ** Descriptors as records *)

Record descriptor := mkDescriptor { d_control : Z; d_owner : Z; d_group : Z; d_sacl : Z; d_dacl : Z }.
#[export] Instance descriptor_eta : Eta descriptor := λ d, mkDescriptor (d_control d) (d_owner d) (d_group d) (d_sacl d) (d_dacl d).

Definition descriptor_ok (d : descriptor) : Prop :=
  0 ≤ d_control d < 2 ^ 16 ∧ any (d_control d) SE_SELF_RELATIVE = false ∧
  0 ≤ d_owner d < 2 ^ 32 ∧ 0 ≤ d_group d < 2 ^ 32 ∧ 0 ≤ d_sacl d < 2 ^ 32 ∧ 0 ≤ d_dacl d < 2 ^ 32.

Definition holds_descriptor (m : Mem) (SD : Z) (d : descriptor) : Prop :=
  descriptor_ok d ∧
  holds m SD ([1; 0] ++ le16 (d_control d) ++ le32 (d_owner d) ++ le32 (d_group d) ++ le32 (d_sacl d) ++ le32 (d_dacl d)).

(** ** Security descriptors as records

    The setters and getters on the bytes of a descriptor in absolute form. *)

(** ** A field among others *)

Lemma store_mid m a A old B new :
  holds m a (A ++ old ++ B) → length old = length new → byte_list new →
  ∃ m', store_bytes m (a + zlen A) new = Some m' ∧ holds m' a (A ++ new ++ B) ∧ agree_outside a (zlen A + zlen new + zlen B) m m'.
Proof.
  intros H Hlen Hnew. rewrite !holds_app in H. destruct H as (HA & Ho & HB). replace (zlen old) with (zlen new) in HB by (unfold zlen; lia).
  destruct (store_bytes_ok new m _ old Ho Hlen Hnew) as (m' & Hst & Hm' & Hag). exists m'. split; [done|].
  assert (0 ≤ zlen A ∧ 0 ≤ zlen new ∧ 0 ≤ zlen B) as (H1 & H2 & H3) by (split_and!; apply len_nonneg). split.
  - rewrite !holds_app. split_and!; [eapply holds_agree; [exact HA|exact Hag|lia]|done|eapply holds_agree; [exact HB|exact Hag|lia]].
  - eapply agree_wider; [exact Hag|lia|lia].
Qed.

Lemma load_mid16 m a A v B : holds m a (A ++ le16 v ++ B) → 0 ≤ v < 2 ^ 16 → load16 m (a + zlen A) = Some v.
Proof. intros [_ H]%holds_app Hv. by eapply load16_holds. Qed.

Lemma load_mid32 m a A v B : holds m a (A ++ le32 v ++ B) → 0 ≤ v < 2 ^ 32 → load32 m (a + zlen A) = Some v.
Proof. intros [_ H]%holds_app Hv. by eapply load32_holds. Qed.

(** The bytes of a descriptor, and the field at an offset. *)
Definition descriptor_bytes (d : descriptor) : list Z :=
  [1; 0] ++ le16 (d_control d) ++ le32 (d_owner d) ++ le32 (d_group d) ++ le32 (d_sacl d) ++ le32 (d_dacl d).

Definition field (d : descriptor) (Field : Z) : Z :=
  if Field =? 4 then d_owner d else if Field =? 8 then d_group d else if Field =? 12 then d_sacl d else d_dacl d.

Definition set_field (d : descriptor) (Field v : Z) : descriptor :=
  if Field =? 4 then d <| d_owner := v |> else if Field =? 8 then d <| d_group := v |>
  else if Field =? 12 then d <| d_sacl := v |> else d <| d_dacl := v |>.

Definition is_field (Field : Z) : Prop := Field = 4 ∨ Field = 8 ∨ Field = 12 ∨ Field = 16.

Definition before (d : descriptor) (Field : Z) : list Z :=
  [1; 0] ++ le16 (d_control d) ++
  (if Field =? 4 then [] else le32 (d_owner d) ++ (if Field =? 8 then [] else le32 (d_group d) ++ (if Field =? 12 then [] else le32 (d_sacl d)))).
Definition behind (d : descriptor) (Field : Z) : list Z :=
  if Field =? 4 then le32 (d_group d) ++ le32 (d_sacl d) ++ le32 (d_dacl d)
  else if Field =? 8 then le32 (d_sacl d) ++ le32 (d_dacl d) else if Field =? 12 then le32 (d_dacl d) else [].

Lemma descriptor_split d Field v : is_field Field →
  descriptor_bytes (set_field d Field v) = before d Field ++ le32 v ++ behind d Field ∧ zlen (before d Field) = Field ∧
  zlen (before d Field) + 4 + zlen (behind d Field) = 20.
Proof. intros [->|[->|[->| ->]]]; unfold descriptor_bytes, before, behind, set_field; simpl; done. Qed.

Lemma set_field_same d Field : is_field Field → set_field d Field (field d Field) = d.
Proof. intros [->|[->|[->| ->]]]; by destruct d. Qed.

Lemma field_ok d Field : is_field Field → descriptor_ok d → 0 ≤ field d Field < 2 ^ 32.
Proof. intros [->|[->|[->| ->]]] (_ & _ & H1 & H2 & H3 & H4); done. Qed.

Section descriptor.
Context (m : Mem) (SD : Z) (d : descriptor).
Hypothesis HD : holds_descriptor m SD d.

Lemma control_ok : Control m SD = Some (d_control d).
Proof using HD. destruct HD as [(Hc & _) H]. exact (load_mid16 m SD [1; 0] (d_control d) _ H Hc). Qed.

Lemma revision_ok : load8 m SD = Some 1.
Proof using HD. destruct HD as [_ H]. by apply load8_holds in H. Qed.

Lemma load_field Field : is_field Field → load32 m (SD + Field) = Some (field d Field).
Proof using HD.
  intros Hf. destruct HD as [Hok H]. fold (descriptor_bytes d) in H. rewrite <- (set_field_same d Field Hf) in H.
  destruct (descriptor_split d Field (field d Field) Hf) as (Heq & Hlen & _). rewrite Heq in H. apply load_mid32 in H; [|by apply field_ok]. by rewrite Hlen in H.
Qed.

Lemma component_ok Field : is_field Field → component m SD Field = Some (field d Field).
Proof using HD.
  intros Hf. unfold component. rewrite (load_field Field Hf). cbn [mbind option_bind]. destruct (Z.eqb_spec (field d Field) 0) as [->|]; [done|].
  rewrite control_ok. cbn [mbind option_bind]. destruct HD as [(_ & Hrel & _) _]. by rewrite Hrel.
Qed.

Lemma store_field Field v : is_field Field → 0 ≤ v < 2 ^ 32 →
  ∃ m', store32 m (SD + Field) v = Some m' ∧ holds_descriptor m' SD (set_field d Field v) ∧ agree_outside SD 20 m m'.
Proof using HD.
  intros Hf Hv. destruct HD as [Hok H]. fold (descriptor_bytes d) in H. rewrite <- (set_field_same d Field Hf) in H.
  destruct (descriptor_split d Field (field d Field) Hf) as (Heq & Hlen & Hsum). rewrite Heq in H.
  destruct (store_mid m SD (before d Field) _ _ (le32 v) H eq_refl (byte_le32 v)) as (m' & Hst & Hm' & Hag).
  rewrite store32_bytes. exists m'. rewrite Hlen in Hst. split; [done|]. split.
  - split; [|by rewrite <- (proj1 (descriptor_split d Field v Hf)) in Hm']. destruct Hok as (H1 & H2 & H3 & H4 & H5 & H6).
    destruct Hf as [->|[->|[->| ->]]]; unfold descriptor_ok, set_field; simpl; tauto.
  - eapply agree_wider; [exact Hag|lia|]. change (zlen (le32 v)) with 4. lia.
Qed.

Lemma store_control f : 0 ≤ f (d_control d) < 2 ^ 16 → any (f (d_control d)) SE_SELF_RELATIVE = false →
  ∃ m', set_control m SD f = Some m' ∧ holds_descriptor m' SD (d <| d_control := f (d_control d) |>) ∧ agree_outside SD 20 m m'.
Proof using HD.
  intros Hf Hrel. unfold set_control. rewrite control_ok. cbn [mbind option_bind]. destruct HD as [Hok H]. rewrite store16_bytes.
  destruct (store_mid m SD [1; 0] _ _ (le16 (f (d_control d))) H eq_refl (byte_le16 _)) as (m' & Hst & Hm' & Hag). exists m'. split; [done|]. split; [|done].
  split; [|done]. destruct Hok as (_ & _ & Hrest). split_and!; simpl; try done; apply Hf || apply Hrest.
Qed.
End descriptor.

(** ** Control bits *)

Definition control_bits (c : Z) : Prop := 0 ≤ c < 2 ^ 16 ∧ any c SE_SELF_RELATIVE = false.

Lemma any_bit15 c : any c SE_SELF_RELATIVE = Z.testbit c 15.
Proof. by apply (any_pow2 c 15). Qed.

Lemma control_lor c n : control_bits c → 0 ≤ n < 15 → control_bits (Z.lor c (2 ^ n)).
Proof.
  intros [Hc Hrel] Hn. rewrite any_bit15 in Hrel. assert (0 ≤ 2 ^ n) by (apply Z.pow_nonneg; lia). split; [split|].
  - apply Z.lor_nonneg. lia.
  - apply bits_bound; [lia|apply Z.lor_nonneg; lia|]. intros i Hi. rewrite Z.lor_spec, (testbit_high c 16 i), Z.pow2_bits_false by lia. done.
  - rewrite any_bit15, Z.lor_spec, Hrel, Z.pow2_bits_false by lia. done.
Qed.

Lemma control_ldiff c x : control_bits c → control_bits (Z.ldiff c x).
Proof.
  intros [Hc Hrel]. rewrite any_bit15 in Hrel. split; [split|].
  - apply Z.ldiff_nonneg. lia.
  - apply bits_bound; [lia|apply Z.ldiff_nonneg; lia|]. intros i Hi. by rewrite Z.ldiff_spec, (testbit_high c 16 i) by lia.
  - by rewrite any_bit15, Z.ldiff_spec, Hrel.
Qed.

(** ** Setters *)

(** What a setter leaves: the list or [SID] with its control bits. *)
Definition with_default (d : descriptor) (Defaulted : Z) (default : bool) : descriptor :=
  let c := Z.ldiff (d_control d) Defaulted in d <| d_control := if default then Z.lor c Defaulted else c |>.

Definition with_list (d : descriptor) (Field Present Defaulted ListPresent List : Z) (default : bool) : descriptor :=
  if ListPresent =? 0 then d <| d_control := Z.ldiff (d_control d) Present |>
  else with_default (set_field (d <| d_control := Z.lor (d_control d) Present |>) Field List) Defaulted default.

Lemma absolute_ok m SD d (body : option Mem) d' :
  holds_descriptor m SD d → (∃ m', body = Some m' ∧ holds_descriptor m' SD d' ∧ agree_outside SD 20 m m') →
  ∃ m', absolute m SD body = Some (m', STATUS_SUCCESS) ∧ holds_descriptor m' SD d' ∧ agree_outside SD 20 m m'.
Proof.
  intros HD (m' & -> & Hm' & Hag). exists m'. split; [|done]. unfold absolute. rewrite (revision_ok m SD d HD). cbn [mbind option_bind negb Z.eqb Pos.eqb SECURITY_DESCRIPTOR_REVISION].
  rewrite (control_ok m SD d HD). cbn [mbind option_bind]. destruct HD as [(_ & Hrel & _) _]. by rewrite Hrel.
Qed.

Section setters.
Context (Field n : Z) (v : Z) (default : bool).
Hypothesis HField : is_field Field.
Hypothesis Hn : 0 ≤ n < 15.
Hypothesis Hv : 0 ≤ v < 2 ^ 32.

Lemma default_ok m SD d : holds_descriptor m SD d →
  ∃ m', (m ← set_control m SD (λ c, Z.ldiff c (2 ^ n)); if default then set_control m SD (λ c, Z.lor c (2 ^ n)) else Some m) = Some m' ∧
    holds_descriptor m' SD (with_default d (2 ^ n) default) ∧ agree_outside SD 20 m m'.
Proof using Hn.
  intros HD. pose proof HD as [(Hc & Hrel & _) _]. assert (Hb : control_bits (d_control d)) by done.
  destruct (store_control m SD d HD (λ c, Z.ldiff c (2 ^ n))) as (m1 & -> & HD1 & Hag1); [by apply control_ldiff..|]. cbn [mbind option_bind].
  destruct default; [|by exists m1].
  destruct (store_control m1 SD _ HD1 (λ c, Z.lor c (2 ^ n))) as (m2 & -> & HD2 & Hag2); [apply control_lor; [by apply control_ldiff|done]..|].
  exists m2. split_and!; [done|done|by eapply agree_trans].
Qed.

Lemma field_twice_ok m SD d : holds_descriptor m SD d →
  ∃ m', (m ← store32 m (SD + Field) 0; if negb (v =? 0) then store32 m (SD + Field) v else Some m) = Some m' ∧
    holds_descriptor m' SD (set_field d Field v) ∧ agree_outside SD 20 m m'.
Proof using HField Hv.
  intros HD. destruct (store_field m SD d HD Field 0 HField) as (m1 & -> & HD1 & Hag1); [lia|]. cbn [mbind option_bind].
  destruct (Z.eqb_spec v 0) as [->|]; cbn [negb]; [by exists m1|].
  destruct (store_field m1 SD _ HD1 Field v HField Hv) as (m2 & -> & HD2 & Hag2). exists m2. split_and!; [done| |by eapply agree_trans].
  replace (set_field (set_field d Field 0) Field v) with (set_field d Field v) in HD2; [done|]. by destruct HField as [->|[->|[->| ->]]].
Qed.

Lemma set_sid_ok m SD d : holds_descriptor m SD d →
  ∃ m', set_sid m SD Field (2 ^ n) v default = Some m' ∧ holds_descriptor m' SD (with_default (set_field d Field v) (2 ^ n) default) ∧
    agree_outside SD 20 m m'.
Proof using HField Hn Hv.
  intros HD. destruct (field_twice_ok m SD d HD) as (m1 & H1 & HD1 & Hag1). destruct (default_ok m1 SD _ HD1) as (m2 & H2 & HD2 & Hag2).
  exists m2. split; [|split; [done|by eapply agree_trans]]. unfold set_sid. destruct (store32 m (SD + Field) 0) as [m0|]; [|done]. cbn [mbind option_bind] in *.
  rewrite H1. cbn [mbind option_bind]. exact H2.
Qed.

Lemma set_list_ok m SD d k ListPresent : 0 ≤ k < 15 → holds_descriptor m SD d →
  ∃ m', set_list m SD Field (2 ^ k) (2 ^ n) ListPresent v default = Some m' ∧
    holds_descriptor m' SD (with_list d Field (2 ^ k) (2 ^ n) ListPresent v default) ∧ agree_outside SD 20 m m'.
Proof using HField Hn Hv.
  intros Hk HD. pose proof HD as [(Hc & Hrel & _) _]. assert (Hb : control_bits (d_control d)) by done. unfold set_list, with_list.
  destruct (Z.eqb_spec ListPresent 0); cbn [negb].
  - by apply (store_control m SD d HD (λ c, Z.ldiff c (2 ^ k))); apply control_ldiff.
  - destruct (store_control m SD d HD (λ c, Z.lor c (2 ^ k))) as (m0 & -> & HD0 & Hag0); [by apply control_lor..|]. cbn [mbind option_bind].
    destruct (field_twice_ok m0 SD _ HD0) as (m1 & H1 & HD1 & Hag1). destruct (default_ok m1 SD _ HD1) as (m2 & H2 & HD2 & Hag2).
    exists m2. split; [|split; [done|by eapply agree_trans; [|eapply agree_trans]]].
    destruct (store32 m0 (SD + Field) 0) as [m3|]; [|done]. cbn [mbind option_bind] in *. rewrite H1. cbn [mbind option_bind]. exact H2.
Qed.
End setters.
