(* ===== verification/AccessSpec.v ===== *)
(** * Access checks on lists of entries

    What an access control list and a token stand for, the walks over the list, and
    the check against the bits that a token may have. *)

From stdpp Require Import base list list_tactics numbers option gmap.
From S2P Require Import Prelude AclMem Acl Access.

(** Every mapped byte is one. *)
Definition bytes_ok (m : Mem) : Prop := ∀ a b, m !! a = Some b → 0 ≤ b < 2 ^ 8.

Definition sid_bytes (m : Mem) (a : Z) : option (list Z) := c ← load8 m (a + 1); load_bytes m a (Z.to_nat (8 + 4 * c)).

Record entry := mkEntry { e_type : Z; e_flags : Z; e_mask : Z; e_sid : list Z }.

(** An entry that allows or denies. *)
Definition decides (t : Z) : bool := (t =? ACCESS_ALLOWED_ACE_TYPE) || (t =? ACCESS_DENIED_ACE_TYPE).

(** The [n] entries from an address on; the mask and [SID] of other types are left out. *)
Fixpoint entries (n : nat) (m : Mem) (Ace : Z) : option (list entry) :=
  match n with
  | O => Some []
  | S n =>
      t ← AceType m Ace; f ← AceFlags m Ace;
      e ← (if decides t then mask ← Mask m Ace; s ← sid_bytes m (SidStart Ace); Some (mkEntry t f mask s)
           else Some (mkEntry t f 0 []));
      Ace ← NextAce m Ace; es ← entries n m Ace; Some (e :: es)
  end.

(** The entries of a list. *)
Definition acl_entries (m : Mem) (Acl : Z) : option (list entry) :=
  count ← AceCount m Acl; entries (Z.to_nat count) m (FirstAce Acl).

(** The [SID]s of a token with their attributes. *)
Definition group : Type := list Z * Z.

Fixpoint groups (m : Mem) (l : list SID_AND_ATTRIBUTES) : option (list group) :=
  match l with [] => Some [] | g :: l => s ← sid_bytes m (Sid g); L ← groups m l; Some ((s, Attributes g) :: L) end.

(** The first that is equal decides, and the user is always enabled. *)
Fixpoint member (user : bool) (L : list group) (s : list Z) : bool :=
  match L with
  | [] => false
  | (s', a) :: L => if decide (s = s') then user || any a SE_GROUP_ENABLED else member false L s
  end.

(** The entry is for the token. *)
Definition applies (L : list group) (e : entry) : bool :=
  negb (any (e_flags e) INHERIT_ONLY_ACE) && decides (e_type e) && member true L (e_sid e).

(** The first entry for the token that has the bit allows or denies it. *)
Fixpoint verdict (L : list group) (es : list entry) (b : Z) : option bool :=
  match es with
  | [] => None
  | e :: es =>
      if applies L e && Z.testbit (e_mask e) b then Some (e_type e =? ACCESS_ALLOWED_ACE_TYPE) else verdict L es b
  end.

(** ** Tokens *)

Lemma sid_bytes_inv m a s : bytes_ok m → sid_bytes m a = Some s →
  ∃ r c, Revision m a = Some r ∧ SubAuthorityCount m a = Some c ∧ 0 ≤ c < 2 ^ 8 ∧ holds m a s ∧ zlen s = 8 + 4 * c ∧
    s !! 0%nat = Some r ∧ s !! 1%nat = Some c.
Proof.
  intros Hm. unfold sid_bytes, Revision, SubAuthorityCount, load8. destruct (m !! (a + 1)) as [c|] eqn:Hc; [|done]. simpl.
  intros [Hs Hlen]%load_bytes_inv. pose proof (Hm _ _ Hc). unfold zlen. destruct s as [|r [|c' s]]; simpl in Hlen; [lia|lia|].
  pose proof Hs as Hs'. rewrite !holds_cons in Hs'. destruct Hs' as (Hr & Hc' & _). rewrite Hc in Hc'. injection Hc' as <-.
  exists r, c. split_and!; try done; simpl; lia.
Qed.

Lemma sid_loop_ok m a s L : ∀ l i, 0 ≤ i →
  bytes_ok m → sid_bytes m a = Some s → groups m l = Some L →
  sid_loop l i m a (zlen s) = Some (member (i =? 0) L s).
Proof.
  induction L as [|[s' at'] L IH]; intros l i Hi Hm Hs Hl.
  - destruct l as [|g l]; [done|]. simpl in Hl. destruct (sid_bytes m (Sid g)); [|done]. simpl in Hl. by destruct (groups m l).
  - destruct l as [|g l]; [done|]. simpl in Hl. destruct (sid_bytes m (Sid g)) as [s1|] eqn:Hs1; [|done]. simpl in Hl.
    destruct (groups m l) as [L1|] eqn:HL; [|done]. injection Hl as <- <- ->.
    destruct (sid_bytes_inv m a s Hm Hs) as (r & c & Hr & Hc & Hcr & Hh & Hlen & H0 & H1).
    destruct (sid_bytes_inv m _ s1 Hm Hs1) as (r' & c' & Hr' & Hc' & Hcr' & Hh' & Hlen' & H0' & H1'). cbn [sid_loop member].
    rewrite Hr, Hr'. cbn [mbind option_bind]. rewrite Hc'.
    assert (Hnext : ∀ (H : s ≠ s1), sid_loop l (i + 1) m a (zlen s) = Some (if decide (s = s1) then (i =? 0) || any (Attributes g) SE_GROUP_ENABLED else member false L s)).
    { intros Hne. rewrite decide_False by done. rewrite (IH l (i + 1)) by (done || lia). by rewrite (proj2 (Z.eqb_neq (i + 1) 0)) by lia. }
    destruct (Z.eqb_spec r r') as [<-|Hne]; cbn [mbind option_bind].
    2: { apply Hnext. intros ->. congruence. }
    destruct (Z.eqb_spec (zlen s) (8 + 4 * c')) as [Heq|Hne]; cbn [mbind option_bind].
    2: { apply Hnext. intros ->. congruence. }
    assert (Hlens : length s1 = length s) by (unfold zlen in *; lia).
    destruct (compare_holds m a (Sid g) s s1 Hh Hh' Hlens) as (n & -> & Hn). cbn [mbind option_bind].
    destruct (Z.eqb_spec n (zlen s)) as [Hall|Hnot].
    + rewrite decide_True by tauto. done.
    + apply Hnext. tauto.
Qed.

Lemma sid_in_token m Token a s L :
  bytes_ok m → sid_bytes m a = Some s → groups m (UserAndGroups Token) = Some L → SepSidInToken m Token a = Some (member true L s).
Proof.
  intros Hm Hs HL. destruct (sid_bytes_inv m a s Hm Hs) as (r & c & _ & Hc & _ & _ & Hlen & _). unfold SepSidInToken. rewrite Hc. cbn [mbind option_bind].
  rewrite <- Hlen. by apply (sid_loop_ok m a s L).
Qed.

Lemma equal_sid m a a' s s' : bytes_ok m → sid_bytes m a = Some s → sid_bytes m a' = Some s' →
  RtlEqualSid m a a' = Some (bool_decide (s = s')).
Proof.
  intros Hm Hs Hs'. destruct (sid_bytes_inv m a s Hm Hs) as (r & c & Hr & Hc & Hcr & Hh & Hlen & H0 & H1).
  destruct (sid_bytes_inv m a' s' Hm Hs') as (r' & c' & Hr' & Hc' & Hcr' & Hh' & Hlen' & H0' & H1').
  unfold RtlEqualSid, SeLengthSid. rewrite Hr, Hr'. cbn [mbind option_bind]. destruct (Z.eqb_spec r r') as [<-|Hne].
  2: { rewrite bool_decide_eq_false_2; [done|congruence]. }
  rewrite Hc, Hc'. cbn [mbind option_bind]. destruct (Z.eqb_spec c c') as [<-|Hne].
  2: { rewrite bool_decide_eq_false_2; [done|congruence]. }
  rewrite <- Hlen. destruct (compare_holds m a a' s s' Hh Hh' ltac:(unfold zlen in *; lia)) as (n & -> & Hn). cbn [mbind option_bind]. f_equal.
  destruct (Z.eqb_spec n (zlen s)); symmetry; [apply bool_decide_eq_true_2|apply bool_decide_eq_false_2]; tauto.
Qed.

(** ** The walks *)

Section walks.
Context (m : Mem) (Token : TOKEN) (L : list group).
Hypothesis Hm : bytes_ok m.
Hypothesis HL : groups m (UserAndGroups Token) = Some L.

Lemma entries_cons n Ace es :
  entries (S n) m Ace = Some es →
  ∃ t f e Next es', AceType m Ace = Some t ∧ AceFlags m Ace = Some f ∧ NextAce m Ace = Some Next ∧ entries n m Next = Some es' ∧
    es = e :: es' ∧ e_type e = t ∧ e_flags e = f ∧
    (decides t = true → Mask m Ace = Some (e_mask e) ∧ SepSidInToken m Token (SidStart Ace) = Some (member true L (e_sid e)) ∧
      sid_bytes m (SidStart Ace) = Some (e_sid e)).
Proof using Hm HL.
  cbn [entries]. destruct (AceType m Ace) as [t|]; [|done]. destruct (AceFlags m Ace) as [f|]; [|done]. cbn [mbind option_bind].
  destruct (decides t) eqn:Hd; cbn [mbind option_bind].
  - destruct (Mask m Ace) as [mask|]; [|done]. cbn [mbind option_bind]. destruct (sid_bytes m (SidStart Ace)) as [s|] eqn:Hs; [|done]. cbn [mbind option_bind].
    destruct (NextAce m Ace) as [Next|]; [|done]. cbn [mbind option_bind]. destruct (entries n m Next) as [es'|] eqn:He; [|done]. intros [= <-].
    exists t, f, (mkEntry t f mask s), Next, es'. split_and!; try done. intros _. split_and!; [done|by apply sid_in_token|done].
  - destruct (NextAce m Ace) as [Next|]; [|done]. cbn [mbind option_bind]. destruct (entries n m Next) as [es'|] eqn:He; [|done]. intros [= <-].
    exists t, f, (mkEntry t f 0 []), Next, es'. split_and!; try done. congruence.
Qed.

Lemma applies_kinds e :
  applies L e = if any (e_flags e) INHERIT_ONLY_ACE then false
    else if e_type e =? ACCESS_ALLOWED_ACE_TYPE then member true L (e_sid e)
    else if e_type e =? ACCESS_DENIED_ACE_TYPE then member true L (e_sid e) else false.
Proof. unfold applies, decides. destruct (any _ _), (e_type e =? _), (e_type e =? ACCESS_DENIED_ACE_TYPE); done. Qed.

Lemma verdict_cons e es b :
  verdict L (e :: es) b = if applies L e && Z.testbit (e_mask e) b then Some (e_type e =? ACCESS_ALLOWED_ACE_TYPE) else verdict L es b.
Proof. done. Qed.

Lemma maximum_loop_ok n : ∀ Ace es G D,
  entries n m Ace = Some es →
  ∃ G' D', maximum_loop n m Token Ace G D = Some (G', D') ∧
    ∀ b, 0 ≤ b → Z.testbit G' b = Z.testbit G b || (negb (Z.testbit D b) && bool_decide (verdict L es b = Some true)).
Proof using Hm HL.
  induction n as [|n IH]; intros Ace es G D He.
  - injection He as <-. exists G, D. split; [done|]. intros b Hb. simpl. by rewrite andb_false_r, orb_false_r.
  - apply entries_cons in He as (t & f & e & Next & es' & Ht & Hf & HN & He & -> & Het & Hef & Hd).
    assert (Hskip : applies L e = false → ∃ G' D', maximum_loop n m Token Next G D = Some (G', D') ∧ ∀ b, 0 ≤ b →
      Z.testbit G' b = Z.testbit G b || (negb (Z.testbit D b) && bool_decide (verdict L (e :: es') b = Some true))).
    { intros Ha. destruct (IH Next es' G D He) as (G' & D' & Hmax & Hb). exists G', D'. split; [done|]. intros b. rewrite verdict_cons, Ha. apply Hb. }
    cbn [maximum_loop]. rewrite Hf, HN. cbn [mbind option_bind]. pose proof (applies_kinds e) as Ha. rewrite Het, Hef in Ha.
    destruct (any f INHERIT_ONLY_ACE); cbn [mbind option_bind]; [by apply Hskip|]. rewrite Ht. cbn [mbind option_bind].
    destruct (Z.eqb_spec t ACCESS_ALLOWED_ACE_TYPE) as [Hallow|]; [|destruct (Z.eqb_spec t ACCESS_DENIED_ACE_TYPE) as [Hdeny|]; [|by apply Hskip]].
    + destruct (Hd ltac:(by rewrite Hallow)) as (Hmask & Hsid & _). rewrite Hsid. cbn [mbind option_bind]. destruct (member true L (e_sid e)); [|by apply Hskip].
      rewrite Hmask. cbn [mbind option_bind].
      destruct (IH Next es' (Z.lor G (Z.ldiff (e_mask e) D)) D He) as (G' & D' & -> & Hb). exists G', D'. split; [done|].
      intros b Hb0. rewrite (Hb b Hb0), verdict_cons, Ha, Z.lor_spec, Z.ldiff_spec, Het, Hallow. simpl.
      destruct (Z.testbit (e_mask e) b); simpl; [|by rewrite orb_false_r]. destruct (Z.testbit G b), (Z.testbit D b); done.
    + destruct (Hd ltac:(by rewrite Hdeny)) as (Hmask & Hsid & _). rewrite Hsid. cbn [mbind option_bind]. destruct (member true L (e_sid e)); [|by apply Hskip].
      rewrite Hmask. cbn [mbind option_bind].
      destruct (IH Next es' G (Z.lor D (Z.ldiff (e_mask e) G)) He) as (G' & D' & -> & Hb). exists G', D'. split; [done|].
      intros b Hb0. rewrite (Hb b Hb0), verdict_cons, Ha, Z.lor_spec, Z.ldiff_spec, Het, Hdeny. simpl.
      destruct (Z.testbit (e_mask e) b); simpl; [|by rewrite orb_false_r]. destruct (Z.testbit G b), (Z.testbit D b); done.
Qed.

Lemma remaining_loop_ok n : ∀ Ace es R,
  entries n m Ace = Some es → 0 ≤ R →
  ∃ R', remaining_loop n m Token Ace R = Some R' ∧ (R' = 0 ↔ ∀ b, 0 ≤ b → Z.testbit R b = true → verdict L es b = Some true).
Proof using Hm HL.
  induction n as [|n IH]; intros Ace es R He HR.
  - injection He as <-. exists R. split; [done|]. rewrite zero_bits. split.
    + intros H b Hb. by rewrite H.
    + intros H b Hb. destruct (Z.testbit R b) eqn:Hbit; [|done]. discriminate (H b Hb Hbit).
  - apply entries_cons in He as (t & f & e & Next & es' & Ht & Hf & HN & He & -> & Het & Hef & Hd).
    assert (Hskip : applies L e = false → ∃ R', remaining_loop n m Token Next R = Some R' ∧
      (R' = 0 ↔ ∀ b, 0 ≤ b → Z.testbit R b = true → verdict L (e :: es') b = Some true)).
    { intros Ha. destruct (IH Next es' R He HR) as (R' & Hrem & Hb). exists R'. split; [done|]. rewrite Hb.
      split; intros H b; specialize (H b); rewrite verdict_cons, Ha in *; done. }
    cbn [remaining_loop]. destruct (Z.eqb_spec R 0) as [->|HR0].
    { exists 0. split; [done|]. split; [|done]. intros _ b _ Hb. by rewrite Z.testbit_0_l in Hb. }
    rewrite Hf, HN. cbn [mbind option_bind]. pose proof (applies_kinds e) as Ha. rewrite Het, Hef in Ha.
    destruct (any f INHERIT_ONLY_ACE); cbn [mbind option_bind]; [by apply Hskip|]. rewrite Ht. cbn [mbind option_bind].
    destruct (Z.eqb_spec t ACCESS_ALLOWED_ACE_TYPE) as [Hallow|]; [|destruct (Z.eqb_spec t ACCESS_DENIED_ACE_TYPE) as [Hdeny|]; [|by apply Hskip]].
    + destruct (Hd ltac:(by rewrite Hallow)) as (Hmask & Hsid & _). rewrite Hsid. cbn [mbind option_bind]. destruct (member true L (e_sid e)); [|by apply Hskip].
      rewrite Hmask. cbn [mbind option_bind].
      destruct (IH Next es' (Z.ldiff R (e_mask e)) He) as (R' & -> & Hb); [apply Z.ldiff_nonneg; auto|]. exists R'. split; [done|]. rewrite Hb.
      split; intros H b Hb0 Hbit; specialize (H b Hb0); rewrite verdict_cons, Ha, Z.ldiff_spec, Het, Hallow in *; simpl in *.
      * destruct (Z.testbit (e_mask e) b); [done|]. apply H. by rewrite Hbit.
      * apply andb_true_iff in Hbit as [Hbit Hno]. apply negb_true_iff in Hno. rewrite Hno in H. by apply H.
    + destruct (Hd ltac:(by rewrite Hdeny)) as (Hmask & Hsid & _). rewrite Hsid. cbn [mbind option_bind]. destruct (member true L (e_sid e)); [|by apply Hskip].
      rewrite Hmask. cbn [mbind option_bind]. destruct (any R (e_mask e)) eqn:Hany.
      * exists R. split; [done|]. split; [done|]. intros H. destruct (any_bit _ _ HR Hany) as (b & Hb0 & Hbit & Hmb). specialize (H b Hb0 Hbit).
        rewrite verdict_cons, Ha, Hmb, Het, Hdeny in H. discriminate H.
      * destruct (IH Next es' R He HR) as (R' & -> & Hb). exists R'. split; [done|]. rewrite Hb. pose proof (proj1 (not_any _ _) Hany) as Hno.
        split; intros H b Hb0 Hbit; specialize (H b Hb0 Hbit); rewrite verdict_cons, Ha, (Hno b Hb0 Hbit) in *; done.
Qed.

(** The first entry for everybody that has the bit. *)
Fixpoint world_verdict (w : list Z) (es : list entry) (b : Z) : option bool :=
  match es with
  | [] => None
  | e :: es =>
      if negb (any (e_flags e) INHERIT_ONLY_ACE) && decides (e_type e) && Z.testbit (e_mask e) b && bool_decide (w = e_sid e)
      then Some (e_type e =? ACCESS_ALLOWED_ACE_TYPE) else world_verdict w es b
  end.

Lemma traverse_loop_ok W w k n : ∀ Ace es,
  sid_bytes m W = Some w → 0 ≤ k → entries n m Ace = Some es →
  traverse_loop n m W (2 ^ k) Ace = Some (bool_decide (world_verdict w es k = Some true)).
Proof using Hm HL.
  intros Ace es HW Hk. revert Ace es. induction n as [|n IH]; intros Ace es He; [by injection He as <-|].
  apply entries_cons in He as (t & f & e & Next & es' & Ht & Hf & HN & He & -> & Het & Hef & Hd).
  assert (Hany : any (2 ^ k) (e_mask e) = Z.testbit (e_mask e) k) by (unfold any; rewrite Z.land_comm; by apply any_pow2).
  cbn [traverse_loop world_verdict]. rewrite Hf, HN, Het, Hef. cbn [mbind option_bind].
  destruct (any f INHERIT_ONLY_ACE); cbn [mbind option_bind negb andb]; [by apply IH|]. rewrite Ht. cbn [mbind option_bind].
  destruct (Z.eqb_spec t ACCESS_ALLOWED_ACE_TYPE) as [Hallow|Hna]; [|destruct (Z.eqb_spec t ACCESS_DENIED_ACE_TYPE) as [Hdeny|Hnd]].
  - destruct (Hd ltac:(by rewrite Hallow)) as (Hmask & _ & Hs). rewrite Hmask, Hallow. cbn [mbind option_bind decides]. rewrite Hany. cbn.
    destruct (Z.testbit (e_mask e) k); cbn [mbind option_bind andb]; [|by apply IH]. rewrite (equal_sid m W _ w _ Hm HW Hs). cbn [mbind option_bind].
    destruct (bool_decide (w = e_sid e)); [done|by apply IH].
  - destruct (Hd ltac:(by rewrite Hdeny)) as (Hmask & _ & Hs). rewrite Hmask, Hdeny. cbn [mbind option_bind decides]. rewrite Hany. cbn.
    destruct (Z.testbit (e_mask e) k); cbn [mbind option_bind andb]; [|by apply IH]. rewrite (equal_sid m W _ w _ Hm HW Hs). cbn [mbind option_bind].
    destruct (bool_decide (w = e_sid e)); [done|by apply IH].
  - cbn [mbind option_bind]. unfold decides. rewrite (proj2 (Z.eqb_neq _ _) Hna), (proj2 (Z.eqb_neq _ _) Hnd). by apply IH.
Qed.
End walks.

(** ** What an access check promises

    Which bits of a mask a token may have of a protected object, and the check against
    it: requests of bits, and of all that is allowed. *)

(** The object has a list with the entries [es], and the [SID] of its owner. *)
Record protected (m : Mem) (SD : Z) (Token : TOKEN) (L : list group) (es : list entry) (owner : list Z) : Prop := {
  p_bytes : bytes_ok m;
  p_sd : SD ≠ 0;
  p_groups : groups m (UserAndGroups Token) = Some L;
  p_dacl : ∃ Dacl c, Control m SD = Some c ∧ any c SE_DACL_PRESENT = true ∧ component m SD 16 = Some Dacl ∧ Dacl ≠ 0 ∧
    acl_entries m Dacl = Some es;
  p_owner : ∃ a, SepOwnerAddrSecurityDescriptor m SD = Some a ∧ sid_bytes m a = Some owner
}.

(** Bits 17 and 18 are [READ_CONTROL] and [WRITE_DAC], 19 is [WRITE_OWNER], 24 is
    [ACCESS_SYSTEM_SECURITY] and 25 is [MAXIMUM_ALLOWED]. *)
Definition may (L : list group) (es : list entry) (Token : TOKEN) (is_owner : bool) (b : Z) : bool :=
  if b =? 24 then match_privilege Token SeSecurityPrivilege
  else (is_owner && ((b =? 17) || (b =? 18))) || ((b =? 19) && match_privilege Token SeTakeOwnershipPrivilege) ||
    bool_decide (verdict L es b = Some true).

(** What a request of all that is allowed gets, with [D] requested by name and [P]
    granted before. A privilege is only used for a bit that is requested by name. *)
Definition gets (L : list group) (es : list entry) (Token : TOKEN) (is_owner : bool) (D P b : Z) : bool :=
  Z.testbit P b || (is_owner && ((b =? 17) || (b =? 18))) ||
  (Z.testbit D b && ((b =? 24) || ((b =? 19) && match_privilege Token SeTakeOwnershipPrivilege))) ||
  bool_decide (verdict L es b = Some true).

(** The check returns TRUE if [ok], with a mask and success, and otherwise the status. *)
Definition outcome (r : option (bool * OUTPUT)) (ok : Prop) (granted : Z → Prop) (status : NTSTATUS) : Prop :=
  ∃ b Out, r = Some (b, Out) ∧ (b = true ↔ ok) ∧
    (b = true → AccessStatus Out = STATUS_SUCCESS ∧ granted (GrantedAccess Out)) ∧ (b = false → AccessStatus Out = status).

(** ** Outcomes *)

Lemma grant_ok HP Pool Out n sys wo g :
  ∃ Out', grant HP Pool Out n sys wo g = (true, Out') ∧ AccessStatus Out' = STATUS_SUCCESS ∧ GrantedAccess Out' = g.
Proof.
  unfold grant, SepAssemblePrivileges. eexists. split; [done|]. by destruct (0 <? n), HP, Pool.
Qed.

Lemma outcome_grant HP Pool Out n sys wo g (ok : Prop) (granted : Z → Prop) status :
  ok → granted g → outcome (Some (grant HP Pool Out n sys wo g)) ok granted status.
Proof.
  intros Hok Hg. destruct (grant_ok HP Pool Out n sys wo g) as (Out' & -> & Hs & Hg'). exists true, Out'. split_and!; try done. by rewrite Hg'.
Qed.

Lemma outcome_deny Out (ok : Prop) granted : ¬ ok → outcome (Some (deny Out)) ok granted STATUS_ACCESS_DENIED.
Proof. intros Hok. exists false. eexists. split_and!; try done. Qed.

Lemma outcome_iff r ok ok' (granted granted' : Z → Prop) status :
  outcome r ok granted status → (ok ↔ ok') → (∀ g, ok → granted g → granted' g) → outcome r ok' granted' status.
Proof.
  intros (b & Out & -> & Hb & Ht & Hf) Hiff Hg. exists b, Out. split_and!; try done; [tauto|]. intros Hbt. destruct (Ht Hbt). split; [done|]. apply Hg; tauto.
Qed.

(** ** Masks *)

Lemma nonzero_bits x : x ≠ 0 ↔ ∃ b, 0 ≤ b ∧ Z.testbit x b = true.
Proof.
  split.
  - intros Hne. destruct (Z.lt_ge_cases x 0) as [Hneg|Hpos].
    + exists (Z.succ (Z.log2 (Z.pred (- x)))). pose proof (Z.log2_nonneg (Z.pred (- x))). split; [lia|]. apply Z.bits_above_log2_neg; lia.
    + by apply nonzero_bit.
  - intros (b & _ & Hb) ->. by rewrite Z.testbit_0_l in Hb.
Qed.

Lemma any_system x : any x ACCESS_SYSTEM_SECURITY = Z.testbit x 24.
Proof. by apply (any_pow2 x 24). Qed.

Lemma any_owner x : any x WRITE_OWNER = Z.testbit x 19.
Proof. by apply (any_pow2 x 19). Qed.

Lemma any_maximum x : any x MAXIMUM_ALLOWED = Z.testbit x 25.
Proof. by apply (any_pow2 x 25). Qed.

Lemma test_system b : 0 ≤ b → Z.testbit ACCESS_SYSTEM_SECURITY b = (b =? 24).
Proof. intros Hb. change ACCESS_SYSTEM_SECURITY with (2 ^ 24). rewrite Z.pow2_bits_eqb by lia. apply Z.eqb_sym. Qed.

Lemma test_owner b : 0 ≤ b → Z.testbit WRITE_OWNER b = (b =? 19).
Proof. intros Hb. change WRITE_OWNER with (2 ^ 19). rewrite Z.pow2_bits_eqb by lia. apply Z.eqb_sym. Qed.

Lemma test_maximum b : 0 ≤ b → Z.testbit MAXIMUM_ALLOWED b = (b =? 25).
Proof. intros Hb. change MAXIMUM_ALLOWED with (2 ^ 25). rewrite Z.pow2_bits_eqb by lia. apply Z.eqb_sym. Qed.

Lemma test_owner_bits b : 0 ≤ b → Z.testbit (Z.lor WRITE_DAC READ_CONTROL) b = (b =? 17) || (b =? 18).
Proof.
  intros Hb. change (Z.lor WRITE_DAC READ_CONTROL) with (Z.lor (2 ^ 18) (2 ^ 17)). rewrite Z.lor_spec, !Z.pow2_bits_eqb by lia.
  rewrite (Z.eqb_sym b 17), (Z.eqb_sym b 18). apply orb_comm.
Qed.

Lemma single_privilege p Token : SepSinglePrivilegeCheck p Token UserMode = match_privilege Token p.
Proof. unfold SepSinglePrivilegeCheck, SepPrivilegeCheck. simpl. by destruct (match_privilege Token p). Qed.

(** ** The check of the entries *)

Section entries.
Context (m : Mem) (SD : Z) (Token : TOKEN) (L : list group) (es : list entry) (owner : list Z).
Hypothesis HP : protected m SD Token L es owner.
Context (Mapping : GENERIC_MAPPING) (Pool : bool) (Out : OUTPUT) (Dacl : Z).
Hypothesis HD : acl_entries m Dacl = Some es.

Lemma entries_count : ∃ count, AceCount m Dacl = Some count ∧ entries (Z.to_nat count) m (FirstAce Dacl) = Some es ∧ (count = 0 → es = []).
Proof using HD.
  unfold acl_entries in HD. destruct (AceCount m Dacl) as [count|]; [|done]. exists count. split_and!; [done|done|].
  intros ->. simpl in HD. by injection HD.
Qed.

(** No request of all that is allowed. *)
Lemma check_entries_named D R P n sys wo :
  0 ≤ R → R ≠ 0 → Z.testbit R 25 = false → Z.testbit D 25 = false → Z.lor D P ≠ 0 →
  outcome (check_entries m Token D true Pool Out Dacl R P n sys wo)
    (∀ b, 0 ≤ b → Z.testbit R b = true → verdict L es b = Some true) (λ g, g = Z.lor D P) STATUS_ACCESS_DENIED.
Proof using HP HD.
  intros HR HR0 H25 HD25 Hne. destruct entries_count as (count & Hc & He & Hz). unfold check_entries. rewrite Hc. cbn [mbind option_bind].
  destruct (Z.eqb_spec count 0) as [->|Hcount].
  - rewrite (proj2 (Z.eqb_neq R MAXIMUM_ALLOWED)) by (intros ->; discriminate H25). simpl. apply outcome_deny. rewrite Hz by done.
    intros H. destruct (nonzero_bit R HR HR0) as (b & Hb & Hbit). discriminate (H b Hb Hbit).
  - rewrite any_maximum, HD25.
    destruct (remaining_loop_ok m Token L (p_bytes _ _ _ _ _ _ HP) (p_groups _ _ _ _ _ _ HP) _ _ _ R He HR) as (R' & -> & HR'). cbn [mbind option_bind].
    destruct (Z.eqb_spec R' 0) as [HR0'|HR0']; simpl.
    + rewrite (proj2 (Z.eqb_neq _ _) Hne). apply outcome_grant; [tauto|done].
    + apply outcome_deny. tauto.
Qed.

(** A request of all that is allowed. *)
Lemma check_entries_maximum D R P n sys wo :
  Z.testbit R 25 = true → Z.testbit D 25 = true →
  outcome (check_entries m Token D true Pool Out Dacl R P n sys wo)
    ((∀ b, 0 ≤ b → b ≠ 25 → Z.testbit R b = true → verdict L es b = Some true) ∧
     ∃ b, 0 ≤ b ∧ Z.testbit P b || bool_decide (verdict L es b = Some true) = true)
    (λ g, ∀ b, 0 ≤ b → Z.testbit g b = Z.testbit P b || bool_decide (verdict L es b = Some true)) STATUS_ACCESS_DENIED.
Proof using HP HD.
  intros H25 HD25. destruct entries_count as (count & Hc & He & Hz). unfold check_entries. rewrite Hc. cbn [mbind option_bind].
  destruct (Z.eqb_spec count 0) as [->|Hcount].
  - rewrite Hz by done. simpl. destruct (Z.eqb_spec R MAXIMUM_ALLOWED) as [->|HR].
    + destruct (Z.eqb_spec P 0) as [->|HP0]; simpl.
      * apply outcome_deny. intros [_ (b & _ & Hb)]. by rewrite Z.testbit_0_l in Hb.
      * apply outcome_grant; [|intros b _; by rewrite orb_false_r]. split; [intros b Hb Hne; rewrite test_maximum, Z.eqb_eq by done; done|].
        apply nonzero_bits in HP0 as (b & Hb & Hbit). exists b. by rewrite Hbit.
    + simpl. apply outcome_deny. intros [H _]. apply HR. apply Z.bits_inj'. intros b Hb. rewrite test_maximum by done.
      destruct (Z.eqb_spec b 25) as [->|Hne]; [done|]. destruct (Z.testbit R b) eqn:Hbit; [|done]. discriminate (H b Hb Hne Hbit).
  - rewrite any_maximum, HD25.
    destruct (maximum_loop_ok m Token L (p_bytes _ _ _ _ _ _ HP) (p_groups _ _ _ _ _ _ HP) _ _ _ 0 0 He) as (G & D' & -> & HG). cbn [mbind option_bind].
    assert (HG' : ∀ b, 0 ≤ b → Z.testbit G b = bool_decide (verdict L es b = Some true)) by (intros b Hb; by rewrite HG, !Z.testbit_0_l).
    assert (Hbits : ∀ b, 0 ≤ b → Z.testbit (Z.lor G P) b = Z.testbit P b || bool_decide (verdict L es b = Some true)).
    { intros b Hb. rewrite Z.lor_spec, HG' by done. apply orb_comm. }
    destruct (Z.eqb_spec (Z.ldiff R (Z.lor MAXIMUM_ALLOWED G)) 0) as [HR|HR]; simpl.
    + assert (Hall : ∀ b, 0 ≤ b → b ≠ 25 → Z.testbit R b = true → verdict L es b = Some true).
      { intros b Hb Hne Hbit. pose proof (proj1 (zero_bits _) HR b Hb) as H. rewrite Z.ldiff_spec, Hbit, Z.lor_spec, test_maximum, HG' in H by done.
        apply Z.eqb_neq in Hne. rewrite Hne in H. simpl in H. apply negb_false_iff in H. by apply bool_decide_eq_true in H. }
      destruct (Z.eqb_spec (Z.lor G P) 0) as [H0|H0]; simpl.
      * apply outcome_deny. intros [_ (b & Hb & Hbit)]. rewrite <- Hbits, H0, Z.testbit_0_l in Hbit by done. done.
      * apply outcome_grant; [|done]. split; [done|]. apply nonzero_bits in H0 as (b & Hb & Hbit). exists b. by rewrite <- Hbits.
    + apply outcome_deny. intros [H _]. apply HR. apply zero_bits. intros b Hb. rewrite Z.ldiff_spec, Z.lor_spec, test_maximum, HG' by done.
      destruct (Z.eqb_spec b 25) as [->|Hne]; simpl; [apply andb_false_r|]. destruct (Z.testbit R b) eqn:Hbit; [|done].
      by rewrite bool_decide_eq_true_2 by (by apply H).
Qed.
End entries.

(** ** The check of a descriptor *)

Lemma dacl_present c : any c SE_DACL_PRESENT = true → (Z.land c SE_DACL_PRESENT =? SE_DACL_PRESENT) = true.
Proof.
  change SE_DACL_PRESENT with (2 ^ 2). rewrite any_pow2 by done. intros Hpres. apply Z.eqb_eq, Z.bits_inj'. intros b Hb.
  rewrite Z.land_spec, Z.pow2_bits_eqb by done. destruct (Z.eqb_spec 2 b) as [<-|]; [by rewrite Hpres|apply andb_false_r].
Qed.

(** Whether the take-ownership privilege gives the bit. *)
Definition taken (Token : TOKEN) (b : Z) : bool := (b =? 19) && match_privilege Token SeTakeOwnershipPrivilege.

Lemma lor_owner x y : Z.testbit x 19 = true → Z.lor x (Z.lor y WRITE_OWNER) = Z.lor x y.
Proof.
  intros Hx. apply Z.bits_inj'. intros b Hb. rewrite !Z.lor_spec, test_owner by done.
  destruct (Z.eqb_spec b 19) as [->|]; [by rewrite Hx|by rewrite orb_false_r].
Qed.

Section descriptor.
Context (m : Mem) (SD : Z) (Token : TOKEN) (L : list group) (es : list entry) (owner : list Z).
Hypothesis HP : protected m SD Token L es owner.
Context (Mapping : GENERIC_MAPPING) (Pool : bool) (Out : OUTPUT).

(** The list is there, and the privilege is tried. *)
Lemma check_dacl_cases D R P n sys :
  ∃ Dacl, acl_entries m Dacl = Some es ∧
    check_dacl m SD Token D Mapping UserMode true Pool Out R P n sys =
      if Z.testbit R 19 && match_privilege Token SeTakeOwnershipPrivilege then
        if Z.ldiff R WRITE_OWNER =? 0 then Some (grant true Pool Out (n + 1) sys true (Z.lor P WRITE_OWNER))
        else check_entries m Token D true Pool Out Dacl (Z.ldiff R WRITE_OWNER) (Z.lor P WRITE_OWNER) (n + 1) sys true
      else check_entries m Token D true Pool Out Dacl R P n sys false.
Proof using HP.
  destruct (p_dacl _ _ _ _ _ _ HP) as (Dacl & c & Hc & Hpres & Hd & H0 & He). exists Dacl. split; [done|].
  unfold check_dacl, SepDaclAddrSecurityDescriptor, SepAreControlBitsSet. rewrite Hc. cbn [mbind option_bind]. rewrite Hpres, Hd. cbn [mbind option_bind].
  rewrite (dacl_present c Hpres), (proj2 (Z.eqb_neq Dacl 0) H0). cbn [negb orb]. by rewrite any_owner, andb_true_r, single_privilege.
Qed.

Lemma check_dacl_named D R P n sys :
  0 ≤ R → R ≠ 0 → Z.testbit R 25 = false → Z.testbit D 25 = false → Z.lor R P = Z.lor D P →
  outcome (check_dacl m SD Token D Mapping UserMode true Pool Out R P n sys)
    (∀ b, 0 ≤ b → Z.testbit R b = true → taken Token b || bool_decide (verdict L es b = Some true) = true)
    (λ g, g = Z.lor D P) STATUS_ACCESS_DENIED.
Proof using HP.
  intros HR HR0 H25 HD25 Hcov. assert (Hne : Z.lor D P ≠ 0).
  { rewrite <- Hcov. apply nonzero_bits. destruct (nonzero_bit R HR HR0) as (b & Hb & Hbit). exists b. rewrite Z.lor_spec, Hbit. done. }
  destruct (check_dacl_cases D R P n sys) as (Dacl & He & ->). unfold taken.
  destruct (Z.testbit R 19) eqn:H19, (match_privilege Token SeTakeOwnershipPrivilege) eqn:Hpriv; cbn [andb].
  2,3,4: (eapply outcome_iff; [by apply (check_entries_named m SD Token L es owner HP)| |done];
    split; intros H b Hb Hbit; specialize (H b Hb Hbit);
    [by rewrite (bool_decide_eq_true_2 _ H), orb_true_r|]).
  - assert (Hcov' : Z.lor D (Z.lor P WRITE_OWNER) = Z.lor D P).
    { rewrite Z.lor_assoc, <- Hcov, <- Z.lor_assoc. by apply lor_owner. }
    assert (Hall : (∀ b, 0 ≤ b → Z.testbit (Z.ldiff R WRITE_OWNER) b = true → verdict L es b = Some true) ↔
      (∀ b, 0 ≤ b → Z.testbit R b = true → (b =? 19) && true || bool_decide (verdict L es b = Some true) = true)).
    { split; intros H b Hb Hbit; specialize (H b Hb).
      - rewrite Z.ldiff_spec, test_owner, Hbit in H by done. destruct (b =? 19); [done|]. by rewrite bool_decide_eq_true_2 by auto.
      - rewrite Z.ldiff_spec, test_owner in Hbit by done. apply andb_true_iff in Hbit as [Hbit Hno]. apply negb_true_iff in Hno.
        rewrite Hno in H. specialize (H Hbit). by apply bool_decide_eq_true in H. }
    destruct (Z.eqb_spec (Z.ldiff R WRITE_OWNER) 0) as [H0|H0].
    + apply outcome_grant.
      * apply Hall. rewrite H0. intros b _ Hb. by rewrite Z.testbit_0_l in Hb.
      * rewrite <- Hcov'. apply Z.bits_inj'. intros b Hb. pose proof (f_equal (λ x, Z.testbit x b) Hcov) as Hcb. pose proof (proj1 (zero_bits _) H0 b Hb) as H0b.
        rewrite Z.ldiff_spec in H0b. cbn beta in Hcb. rewrite !Z.lor_spec in *. destruct (Z.testbit D b), (Z.testbit P b), (Z.testbit R b), (Z.testbit WRITE_OWNER b); done.
    + eapply outcome_iff; [apply (check_entries_named m SD Token L es owner HP); try done|exact Hall|].
      * apply Z.ldiff_nonneg. by left.
      * by rewrite Z.ldiff_spec, H25.
      * by rewrite Hcov'.
      * intros g _ ->. done.
  - apply orb_true_iff in H as [H|H]; [by rewrite andb_false_r in H|by apply bool_decide_eq_true in H].
  - apply orb_true_iff in H as [H|H]; [|by apply bool_decide_eq_true in H]. apply andb_true_iff in H as [->%Z.eqb_eq _]. congruence.
  - apply orb_true_iff in H as [H|H]; [by rewrite andb_false_r in H|by apply bool_decide_eq_true in H].
Qed.

Lemma check_dacl_maximum D R P n sys :
  Z.testbit R 25 = true → Z.testbit D 25 = true →
  outcome (check_dacl m SD Token D Mapping UserMode true Pool Out R P n sys)
    ((∀ b, 0 ≤ b → b ≠ 25 → Z.testbit R b = true → taken Token b || bool_decide (verdict L es b = Some true) = true) ∧
     ∃ b, 0 ≤ b ∧ Z.testbit P b || (Z.testbit R b && taken Token b) || bool_decide (verdict L es b = Some true) = true)
    (λ g, ∀ b, 0 ≤ b → Z.testbit g b = Z.testbit P b || (Z.testbit R b && taken Token b) || bool_decide (verdict L es b = Some true))
    STATUS_ACCESS_DENIED.
Proof using HP.
  intros H25 HD25. destruct (check_dacl_cases D R P n sys) as (Dacl & He & ->).
  assert (Hno : ∀ b, Z.testbit R 19 && match_privilege Token SeTakeOwnershipPrivilege = false → Z.testbit R b && taken Token b = false).
  { intros b H. unfold taken. destruct (Z.eqb_spec b 19) as [->|]; [done|apply andb_false_r]. }
  destruct (Z.testbit R 19 && match_privilege Token SeTakeOwnershipPrivilege) eqn:Hwo.
  - apply andb_true_iff in Hwo as [H19 Hpriv].
    assert (Hbits : ∀ b, 0 ≤ b → Z.testbit (Z.lor P WRITE_OWNER) b = Z.testbit P b || (Z.testbit R b && taken Token b)).
    { intros b Hb. rewrite Z.lor_spec, test_owner by done. unfold taken. rewrite Hpriv, andb_true_r. destruct (Z.eqb_spec b 19) as [->|]; [by rewrite H19|by rewrite andb_false_r]. }
    assert (H25' : Z.testbit (Z.ldiff R WRITE_OWNER) 25 = true) by (rewrite Z.ldiff_spec, H25; done).
    rewrite (proj2 (Z.eqb_neq _ 0)) by (intros H0; by rewrite H0 in H25').
    eapply outcome_iff; [by apply (check_entries_maximum m SD Token L es owner HP)| |].
    + setoid_rewrite Z.ldiff_spec. split; intros [H1 (b & Hb & H2)]; (split; [|exists b; split; [done|]; first [by rewrite <- Hbits|by rewrite Hbits]]).
      * intros c Hc Hne Hbit. unfold taken. rewrite Hpriv, andb_true_r. specialize (H1 c Hc Hne). rewrite Hbit, test_owner in H1 by done.
        destruct (c =? 19); [done|]. by rewrite bool_decide_eq_true_2 by auto.
      * intros c Hc Hne [Hbit Hw]%andb_true_iff. specialize (H1 c Hc Hne Hbit). unfold taken in H1. rewrite test_owner in Hw by done. apply negb_true_iff in Hw.
        rewrite Hw in H1. by apply bool_decide_eq_true in H1.
    + intros g _ Hg b Hb. rewrite Hg, Hbits by done. done.
  - eapply outcome_iff; [by apply (check_entries_maximum m SD Token L es owner HP)| |].
    + split; intros [H1 (b & Hb & H2)].
      * split; [intros c Hc Hne Hbit; by rewrite (bool_decide_eq_true_2 _ (H1 c Hc Hne Hbit)), orb_true_r|].
        exists b. split; [done|]. by rewrite (Hno b), orb_false_r by done.
      * split; [|exists b; split; [done|]; by rewrite (Hno b), orb_false_r in H2 by done]. intros c Hc Hne Hbit. specialize (H1 c Hc Hne Hbit).
        pose proof (Hno c eq_refl) as Hn. rewrite Hbit in Hn. simpl in Hn. rewrite Hn in H1. by apply bool_decide_eq_true in H1.
    + intros g _ Hg b Hb. by rewrite Hg, (Hno b), orb_false_r by done.
Qed.
End descriptor.
