(* ===== verification/SecExample.v ===== *)
(** * A protected object in memory

    Three [SID]s, an access list that denies Bob what it allows everybody, and a security
    descriptor, made with the routines of the run-time library. *)

From stdpp Require Import base list list_tactics numbers option gmap.
From S2P Require Import Prelude AclMem Acl AclOk Access SecDesc AccessSpec.

(** An identifier with one sub-authority. *)
Definition sid_of (authority rid : Z) : list Z := [1; 1; 0; 0; 0; 0; 0; authority; rid; 0; 0; 0].

Definition world : list Z := sid_of 1 0.
Definition alice : list Z := sid_of 5 10.
Definition bob : list Z := sid_of 5 11.

Definition SeWorldSid : Z := 0x2000.
Definition AliceSid : Z := 0x2010.
Definition BobSid : Z := 0x2020.
Definition ExampleAcl : Z := 0x1000.
Definition ExampleSD : Z := 0x1100.

(** [l] at [a]. *)
Definition put (a : Z) (l : list Z) (m : Mem) : Mem := list_to_map (zip (seqZ a (zlen l)) l) ∪ m.

Definition blank : Mem :=
  put SeWorldSid world (put AliceSid alice (put BobSid bob (put ExampleAcl (replicate 80 0) (put ExampleSD (replicate 20 0) ∅)))).

(** Alice owns the object; Bob is denied [0x20], and everybody is allowed [0x2] and [0x20]. *)
Definition example : Mem := default ∅ (
  '(m, _) ← RtlCreateAcl blank ExampleAcl 80 ACL_REVISION2;
  '(m, _) ← RtlAddAccessDeniedAce m ExampleAcl ACL_REVISION2 0x20 BobSid;
  '(m, _) ← RtlAddAccessAllowedAce m ExampleAcl ACL_REVISION2 0x22 SeWorldSid;
  '(m, _) ← RtlCreateSecurityDescriptor m ExampleSD SECURITY_DESCRIPTOR_REVISION;
  '(m, _) ← RtlSetOwnerSecurityDescriptor m ExampleSD AliceSid 0;
  '(m, _) ← RtlSetDaclSecurityDescriptor m ExampleSD 1 ExampleAcl 0;
  Some m).

Definition alice_token : TOKEN := mkToken [mkSidAttr AliceSid 7; mkSidAttr SeWorldSid 7] [].
Definition bob_token : TOKEN := mkToken [mkSidAttr BobSid 7; mkSidAttr SeWorldSid 7] [mkLuidAttr SeTakeOwnershipPrivilege 2].
Definition subject (Token : TOKEN) : SECURITY_SUBJECT_CONTEXT := mkSubject None SecurityAnonymous Token.

Definition example_entries : list entry :=
  [mkEntry ACCESS_DENIED_ACE_TYPE 0 0x20 bob; mkEntry ACCESS_ALLOWED_ACE_TYPE 0 0x22 world].

Definition example_aces : list ace :=
  [mkAce ACCESS_DENIED_ACE_TYPE 0 (le32 0x20 ++ bob); mkAce ACCESS_ALLOWED_ACE_TYPE 0 (le32 0x22 ++ world)].

Definition mapping : GENERIC_MAPPING := mkMapping 0x20089 0x20116 0x20020 0x1f01ff.
Definition no_output : OUTPUT := mkOutput 0 None STATUS_SUCCESS.

(** ** Checks by computation *)

Definition bytes_okb (m : Mem) : bool := forallb (λ '(_, b), (0 <=? b) && (b <? 2 ^ 8)) (map_to_list m).

Lemma bytes_okb_ok m : bytes_okb m = true → bytes_ok m.
Proof.
  unfold bytes_okb. rewrite forallb_forall. intros H a b Hab. specialize (H (a, b)). rewrite <- list_elem_of_In, elem_of_map_to_list in H.
  specialize (H Hab). simpl in H. lia.
Qed.

Definition holdsb (m : Mem) (a : Z) (l : list Z) : bool := bool_decide (load_bytes m a (length l) = Some l).

Lemma holdsb_ok m a l : holdsb m a l = true → holds m a l.
Proof. unfold holdsb. intros H%bool_decide_eq_true. by apply load_bytes_inv in H as [H _]. Qed.

Lemma example_bytes : bytes_ok example.
Proof. apply bytes_okb_ok. vm_compute. reflexivity. Qed.

Lemma example_acl : holds_acl example ExampleAcl 80 example_aces.
Proof.
  split; [|split; [lia|]].
  - repeat constructor; vm_compute; try done; repeat constructor; done.
  - exists 0, 0, 0, (replicate 32 0). split; [apply holdsb_ok; vm_compute; reflexivity|reflexivity].
Qed.

Lemma example_sids : valid_sid example AliceSid alice ∧ valid_sid example BobSid bob ∧ valid_sid example SeWorldSid world.
Proof.
  split_and!; (split; [vm_compute; reflexivity|split; [apply holdsb_ok; vm_compute; reflexivity|split; [|exists 1; by split]]]);
    repeat constructor; done.
Qed.
