(* ===== verification/AclTheorems.v ===== *)
(** * Theorems on access control lists *)

From stdpp Require Import base list list_tactics numbers option gmap.
From S2P Require Import Prelude AclMem Acl AclOk Access AccessSpec SecExample.

(** ** Editing *)

Inductive acl_call :=
  | AddAces (Start AceList : Z) (new : list ace)
  | DeleteAce (Index : Z)
  | AddAllowed (AccessMask Sid : Z) (s : list Z)
  | AddDenied (AccessMask Sid : Z) (s : list Z)
  | AddAudit (Success Failure : bool) (AccessMask Sid : Z) (s : list Z).

Definition audit_flags (Success Failure : bool) : Z := (if Success then 0x40 else 0) + (if Failure then 0x80 else 0).

(** What is asked of the arguments: they are outside of the ACL. *)
Definition acl_call_ok (m : Mem) (Acl size : Z) (k : acl_call) : Prop :=
  match k with
  | AddAces Start AceList new => Forall ace_ok new ∧ holds m AceList (aces_bytes new) ∧ 0 ≤ Start ∧ zlen (aces_bytes new) < 2 ^ 32 ∧
      (AceList + zlen (aces_bytes new) ≤ Acl ∨ Acl + size ≤ AceList)
  | DeleteAce Index => 0 ≤ Index
  | AddAllowed _ Sid s | AddDenied _ Sid s | AddAudit _ _ _ Sid s =>
      valid_sid m Sid s ∧ (Sid + zlen s ≤ Acl ∨ Acl + size ≤ Sid)
  end.

(** The new entries and the status. *)
Definition edit (size : Z) (es : list ace) (k : acl_call) : list ace * NTSTATUS :=
  let fits n := bool_decide (room size es n) in
  let append e := if fits (ace_size e) then (es ++ [e], STATUS_SUCCESS) else (es, STATUS_ALLOTTED_SPACE_EXCEEDED) in
  match k with
  | AddAces Start _ new =>
      if fits (zlen (aces_bytes new)) then (take (Z.to_nat Start) es ++ new ++ drop (Z.to_nat Start) es, STATUS_SUCCESS)
      else (es, STATUS_BUFFER_TOO_SMALL)
  | DeleteAce Index => if Index <? zlen es then (delete (Z.to_nat Index) es, STATUS_SUCCESS) else (es, STATUS_INVALID_PARAMETER)
  | AddAllowed AccessMask _ s => append (mkAce ACCESS_ALLOWED_ACE_TYPE 0 (le32 AccessMask ++ s))
  | AddDenied AccessMask _ s => append (mkAce ACCESS_DENIED_ACE_TYPE 0 (le32 AccessMask ++ s))
  | AddAudit Success Failure AccessMask _ s => append (mkAce SYSTEM_AUDIT_ACE_TYPE (audit_flags Success Failure) (le32 AccessMask ++ s))
  end.

Definition run_acl (m : Mem) (Acl : Z) (k : acl_call) : option (Mem * NTSTATUS) :=
  match k with
  | AddAces Start AceList new => RtlAddAce m Acl ACL_REVISION2 Start AceList (zlen (aces_bytes new))
  | DeleteAce Index => RtlDeleteAce m Acl Index
  | AddAllowed AccessMask Sid _ => RtlAddAccessAllowedAce m Acl ACL_REVISION2 AccessMask Sid
  | AddDenied AccessMask Sid _ => RtlAddAccessDeniedAce m Acl ACL_REVISION2 AccessMask Sid
  | AddAudit Success Failure AccessMask Sid _ => RtlAddAuditAccessAce m Acl ACL_REVISION2 AccessMask Sid Success Failure
  end.

Lemma decided {m Acl size es} {r : option (Mem * NTSTATUS)} {P : Prop} `{!Decision P} es1 st1 st2 :
  holds_acl m Acl size es →
  (P → ∃ m', r = Some (m', st1) ∧ holds_acl m' Acl size es1 ∧ agree_outside Acl size m m') → (¬ P → r = Some (m, st2)) →
  ∃ m', r = Some (m', snd (if bool_decide P then (es1, st1) else (es, st2))) ∧
    holds_acl m' Acl size (fst (if bool_decide P then (es1, st1) else (es, st2))) ∧ agree_outside Acl size m m'.
Proof.
  intros HA Hyes Hno. destruct (bool_decide_reflect P) as [HP|HP]; [by apply Hyes|]. exists m. split_and!; [by apply Hno|done|apply agree_refl].
Qed.

(** C36: On the bytes of an access list of up to 65535 bytes, adding a string of entries at an index,
    deleting an entry, and adding an entry that allows, denies or audits are the edits of a list of
    entries: with room they give the new list, else a status and the old one. They read mapped memory,
    and memory outside of the ACL stays as it was. *)
Theorem acl_refines_list m Acl size es k :
  holds_acl m Acl size es → 0 ≤ Acl → Acl + size < 2 ^ 32 → acl_call_ok m Acl size k →
  ∃ m', run_acl m Acl k = Some (m', snd (edit size es k)) ∧ holds_acl m' Acl size (fst (edit size es k)) ∧ agree_outside Acl size m m'.
Proof.
  intros HA H0 Hend Hk. destruct k as [Start AceList new|Index|AccessMask Sid s|AccessMask Sid s|Su Fa AccessMask Sid s]; simpl in Hk; unfold run_acl, edit.
  - destruct Hk as (Hnew & Hl & HS & Hlen & Hdis). destruct (add_aces_ok m Acl size es HA H0 Hend Start AceList new Hnew Hl HS Hlen Hdis). by apply decided.
  - destruct (delete_ace_ok m Acl size es HA H0 Hend Index Hk) as [Hyes Hno]. destruct (Z.ltb_spec Index (zlen es)) as [Hlt|Hge].
    + by apply Hyes.
    + exists m. split_and!; [by apply Hno|done|apply agree_refl].
  - destruct Hk as [Hs Hdis]. destruct (add_known_ok m Acl size es HA H0 Hend ACCESS_ALLOWED_ACE_TYPE 0 AccessMask Sid s Hs ltac:(done) ltac:(done) Hdis). by apply decided.
  - destruct Hk as [Hs Hdis]. destruct (add_known_ok m Acl size es HA H0 Hend ACCESS_DENIED_ACE_TYPE 0 AccessMask Sid s Hs ltac:(done) ltac:(done) Hdis). by apply decided.
  - destruct Hk as [Hs Hdis]. unfold RtlAddAuditAccessAce.
    replace (if Fa then Z.lor (if Su then Z.lor 0 SUCCESSFUL_ACCESS_ACE_FLAG else 0) FAILED_ACCESS_ACE_FLAG else if Su then Z.lor 0 SUCCESSFUL_ACCESS_ACE_FLAG else 0)
      with (audit_flags Su Fa) by (by destruct Su, Fa).
    assert (Hf : 0 ≤ audit_flags Su Fa < 2 ^ 8) by (destruct Su, Fa; done).
    destruct (add_known_ok m Acl size es HA H0 Hend SYSTEM_AUDIT_ACE_TYPE (audit_flags Su Fa) AccessMask Sid s Hs ltac:(done) Hf Hdis). by apply decided.
Qed.

(** Alice is allowed to read after the two entries of the example. *)
Lemma acl_refines_list_witness :
  let k := AddAllowed 1 AliceSid alice in
  holds_acl example ExampleAcl 80 example_aces ∧
  ∃ m', run_acl example ExampleAcl k = Some (m', snd (edit 80 example_aces k)) ∧ holds_acl m' ExampleAcl 80 (fst (edit 80 example_aces k)) ∧
    agree_outside ExampleAcl 80 example m'.
Proof.
  split; [apply example_acl|]. apply (acl_refines_list example ExampleAcl 80 example_aces (AddAllowed 1 AliceSid alice)).
  - apply example_acl.
  - vm_compute. discriminate.
  - vm_compute. reflexivity.
  - split; [apply example_sids|]. right. vm_compute. discriminate.
Defined.

(** On the bytes of an access list, RtlValidAcl is TRUE, RtlGetAce gives the address of the entry with
    the index or fails past the last one, and RtlQueryInformationAcl gives the number of entries and the
    bytes in use and free. *)
Theorem acl_queries_correct m Acl size es :
  holds_acl m Acl size es → 0 ≤ Acl → Acl + size < 2 ^ 32 →
  RtlValidAcl m Acl = true ∧
  (∀ i, 0 ≤ i → RtlGetAce m Acl i =
    Some (if i <? zlen es then (STATUS_SUCCESS, Some (Acl + 8 + zlen (aces_bytes (take (Z.to_nat i) es)))) else (STATUS_INVALID_PARAMETER, None))) ∧
  (∀ i e, es !! i = Some e → holds m (Acl + 8 + zlen (aces_bytes (take i es))) (ace_bytes e)) ∧
  RtlQueryInformationAcl m Acl 12 AclSizeInformation =
    Some (STATUS_SUCCESS, Some (SIZE_INFORMATION (zlen es) (8 + zlen (aces_bytes es)) (size - 8 - zlen (aces_bytes es)))).
Proof.
  intros HA H0 Hend. pose proof HA as (Hes & Hsize & _). destruct (acl_parts _ _ _ _ HA) as (b1 & b2 & b3 & rest & HF).
  pose proof (first_free_ok _ _ _ _ _ _ _ _ Hes HF) as Hfree. destruct HF as [Hh Hr Hsz Hc He Hroom Hfew].
  pose proof (len_nonneg rest). pose proof (len_nonneg (aces_bytes es)). split_and!.
  - unfold RtlValidAcl. rewrite Hr. cbn [mbind option_bind negb Z.eqb Pos.eqb ACL_REVISION2]. by rewrite Hfree.
  - intros i Hi. destruct (get_ace_ok m Acl size es HA i Hi) as [Hyes Hno]. destruct (Z.ltb_spec i (zlen es)); auto.
  - intros i e Hi. rewrite <- (take_drop_middle _ _ _ Hi) in He. rewrite aces_bytes_app, aces_bytes_cons, <- !app_assoc, !holds_app in He. apply He.
  - unfold RtlQueryInformationAcl. rewrite Hr. cbn [mbind option_bind negb Z.eqb Pos.eqb ACL_REVISION2 AclSizeInformation AclRevisionInformation].
    rewrite Hfree. cbn [mbind option_bind negb Z.ltb Z.compare Pos.compare Pos.compare_cont]. rewrite Hc, Hsz. cbn [mbind option_bind].
    rewrite (proj2 (Z.eqb_neq _ 0)) by lia. rewrite !u32_small by (rewrite ?u32_small; lia). do 4 f_equal; lia.
Qed.

Lemma acl_queries_correct_witness :
  RtlValidAcl example ExampleAcl = true ∧
  RtlQueryInformationAcl example ExampleAcl 12 AclSizeInformation = Some (STATUS_SUCCESS, Some (SIZE_INFORMATION 2 48 32)).
Proof.
  destruct (acl_queries_correct example ExampleAcl 80 example_aces) as (Hvalid & _ & _ & Hquery).
  - apply example_acl.
  - vm_compute. discriminate.
  - vm_compute. reflexivity.
  - split; [exact Hvalid|exact Hquery].
Defined.

(** ** A malformed list that is taken for valid *)

Lemma store8_domain m a b m' : store8 m a b = Some m' → ∀ x, m' !! x = None ↔ m !! x = None.
Proof.
  unfold store8. destruct (m !! a) as [y|] eqn:Ha; [|done]. intros [= <-] x. destruct (Z.eq_dec x a) as [->|Hne].
  - rewrite lookup_insert_eq, Ha. done.
  - by rewrite lookup_insert_ne by done.
Qed.

Lemma copy_up_fault n x : ∀ m From To, From ≤ x < From + Z.of_nat n → m !! x = None → copy_up n m From To = None.
Proof.
  induction n as [|n IH]; intros m From To Hx Hm; [lia|]. cbn [copy_up]. destruct (load8 m From) as [b|] eqn:Hb; [|done]. cbn [mbind option_bind].
  destruct (store8 m To b) as [m1|] eqn:Hst; [|done]. cbn [mbind option_bind]. apply IH.
  - destruct (Z.eq_dec x From) as [->|]; [unfold load8 in Hb; congruence|lia].
  - by apply (store8_domain _ _ _ _ Hst).
Qed.

(** C40: RtlValidAcl checks where entries begin and not where the last one ends. If the only entry says
    that it is longer than its ACL, RtlValidAcl is TRUE, and RtlDeleteAce of it moves memory from there up
    to the end of the address space: it faults if any address there is not mapped. *)
Theorem delete_ace_overruns m Acl size t f asize x :
  holds m Acl (header size 1 0 0 0 ++ [t; f] ++ le16 asize) →
  12 ≤ size < 2 ^ 16 → size < 8 + asize → asize < 2 ^ 16 → 0 < Acl → Acl + 8 + asize ≤ x < 2 ^ 32 → m !! x = None →
  RtlValidAcl m Acl = true ∧ RtlDeleteAce m Acl 0 = None.
Proof.
  intros H Hsize Hover Hasize H0 Hx Hm. apply holds_app in H as [Hh He]. change (zlen (header size 1 0 0 0)) with 8 in He.
  pose proof (header_count _ _ _ _ _ _ _ Hh ltac:(lia)) as Hc. unfold header in Hh. rewrite !holds_app in Hh.
  change (zlen [_; _]) with 2 in Hh. destruct Hh as (Hr & Hsz & _). apply load8_holds in Hr.
  assert (Hsz' : AclSize m Acl = Some size) by (apply (load16_holds _ _ _ []); [lia|by rewrite app_nil_r]). change (AclRevision m Acl = Some 2) in Hr.
  apply holds_app in He as [_ He]. change (zlen [_; _]) with 2 in He.
  assert (Has : AceSize m (Acl + 8) = Some asize) by (apply (load16_holds _ _ _ []); [lia|by rewrite app_nil_r]).
  assert (Hfree : RtlFirstFreeAce m Acl = Some (true, 0)).
  { unfold RtlFirstFreeAce, FirstAce. rewrite Hc, Hsz'. cbn [mbind option_bind]. change (Z.to_nat 1) with 1%nat. cbn [free_loop].
    rewrite (proj2 (Z.leb_gt _ _)) by lia. unfold NextAce. rewrite Has. cbn [mbind option_bind]. by rewrite (proj2 (Z.leb_gt _ _)) by lia. }
  split.
  - unfold RtlValidAcl. rewrite Hr. cbn [mbind option_bind negb Z.eqb Pos.eqb ACL_REVISION2]. by rewrite Hfree.
  - unfold RtlDeleteAce. rewrite Hr, Hc. cbn [mbind option_bind negb Z.eqb Pos.eqb ACL_REVISION2 Z.leb Z.compare]. rewrite Hfree. cbn [mbind option_bind negb].
    change (Z.to_nat 0) with 0%nat. cbn [position_loop mbind option_bind]. unfold FirstAce. rewrite Has. cbn [mbind option_bind]. unfold RtlpDeleteData.
    rewrite (copy_up_fault _ x); [done| |done].
    assert (Hwrap : 0 -u (Acl + 8) = 2 ^ 32 - (Acl + 8)) by (unfold u32; symmetry; apply (Z.mod_unique _ _ (-1)); lia). rewrite Hwrap. lia.
Qed.

(** A list of 12 bytes whose entry says that it has 100. *)
Definition overrun : Mem := put 0x1000 (header 12 1 0 0 0 ++ [0; 0] ++ le16 100) ∅.

Lemma delete_ace_overruns_witness : RtlValidAcl overrun 0x1000 = true ∧ RtlDeleteAce overrun 0x1000 0 = None.
Proof.
  apply (delete_ace_overruns overrun 0x1000 12 0 0 100 0x2000).
  - apply holdsb_ok. vm_compute. reflexivity.
  - split; vm_compute; [discriminate|reflexivity].
  - vm_compute. reflexivity.
  - vm_compute. reflexivity.
  - vm_compute. reflexivity.
  - split; vm_compute; [discriminate|reflexivity].
  - vm_compute. reflexivity.
Defined.

(** ** Captured lists *)

Definition mapped (m : Mem) (a n : Z) : Prop := ∀ x, a ≤ x < a + n → is_Some (m !! x).

Lemma load16_mapped m a n x : mapped m a n → a ≤ x → x + 2 ≤ a + n → is_Some (load16 m x).
Proof.
  intros H H1 H2. unfold load16, load8. destruct (H x) as [b ->]; [lia|]. destruct (H (x + 1)) as [c ->]; [lia|]. by eexists.
Qed.

Lemma load32_mapped m a n x : mapped m a n → a ≤ x → x + 4 ≤ a + n → is_Some (load32 m x).
Proof.
  intros H H1 H2. unfold load32. destruct (load16_mapped m a n x H) as [b ->]; [lia..|]. destruct (load16_mapped m a n (x + 2) H) as [c ->]; [lia..|]. by eexists.
Qed.

Lemma load_bytes_mapped m k : ∀ x, mapped m x (Z.of_nat k) → is_Some (load_bytes m x k).
Proof.
  induction k as [|k IH]; intros x H; [by eexists|]. cbn [load_bytes]. unfold load8. destruct (H x) as [b ->]; [lia|]. cbn [mbind option_bind].
  destruct (IH (x + 1)) as [l ->]; [intros y Hy; apply H; lia|]. by eexists.
Qed.

Section capture.
Context (m : Mem) (Acl Length : Z).
Hypothesis Hm : bytes_ok m.

Lemma size_range x s : AceSize m x = Some s → 0 ≤ s.
Proof using Hm.
  unfold AceSize, load16, load8. destruct (m !! (x + 2)) as [b|] eqn:Hb; [|done]. destruct (m !! (x + 2 + 1)) as [c|] eqn:Hc; [|done].
  intros [= <-]. apply Hm in Hb, Hc. lia.
Qed.

(** An entry that passes is one. *)
Lemma check_loop_entries n : ∀ Ace,
  mapped m Acl Length → Acl ≤ Ace → check_loop n m (Acl + Length) Ace = Some true → is_Some (entries n m Ace).
Proof using Hm.
  intros Ace Hmap. revert Ace. induction n as [|n IH]; intros Ace Hge; [by eexists|]. cbn [check_loop entries].
  destruct (AceSize m Ace) as [size|] eqn:Hsize; [|done]. cbn [mbind option_bind]. destruct (Z.ltb_spec size 4) as [|H4]; [done|].
  destruct (Z.ltb_spec (Acl + Length) (Ace + size)) as [|Hend]; [done|]. unfold IsKnownAceType.
  destruct (AceType m Ace) as [t|] eqn:Ht; [|done]. cbn [mbind option_bind]. intros Hloop. unfold AceFlags, load8.
  destruct (Hmap (Ace + 1)) as [f ->]; [lia|]. cbn [mbind option_bind].
  set (known := _ || _ || _ || _) in Hloop. unfold NextAce in Hloop |- *. rewrite Hsize in Hloop |- *. cbn [mbind option_bind] in Hloop |- *.
  assert (Hrest : check_loop n m (Acl + Length) (Ace + size) = Some true → is_Some (entries n m (Ace + size))) by (apply IH; lia).
  destruct known eqn:Hk; cbn [mbind option_bind] in Hloop.
  - destruct (Z.ltb_spec size 12) as [|H12]; [done|]. destruct (Z.ltb_spec (Acl + Length) (SidStart Ace + 8)) as [|H8]; [done|]. unfold SidStart in *.
    destruct (RtlLengthSid m (Ace + 8)) as [len|] eqn:Hlen; [|done]. cbn [mbind option_bind] in Hloop.
    destruct (Z.leb_spec (Ace + 8 + len) (Acl + Length)) as [Hle|]; [|done]. destruct (Hrest Hloop) as [es Hes].
    assert (He : is_Some (if decides t then mask ← Mask m Ace; s ← sid_bytes m (Ace + 8); Some (mkEntry t f mask s) else Some (mkEntry t f 0 []))).
    { destruct (decides t); [|by eexists]. destruct (load32_mapped m Acl Length (Ace + 4) Hmap) as [mask Hmask]; [lia..|]. unfold Mask. rewrite Hmask. cbn [mbind option_bind].
      unfold RtlLengthSid, SeLengthSid, SubAuthorityCount in Hlen. unfold sid_bytes. destruct (load8 m (Ace + 8 + 1)) as [c|] eqn:Hc; [|done]. cbn [mbind option_bind] in *.
      injection Hlen as <-. apply Hm in Hc. destruct (load_bytes_mapped m (Z.to_nat (8 + 4 * c)) (Ace + 8)) as [s ->]; [intros x Hx; apply Hmap; lia|]. by eexists. }
    destruct He as [e ->]. cbn [mbind option_bind]. rewrite Hes. by eexists.
  - destruct (Hrest Hloop) as [es Hes]. assert (decides t = false) as ->.
    { unfold known in Hk. unfold decides. destruct (t =? ACCESS_ALLOWED_ACE_TYPE), (t =? ACCESS_DENIED_ACE_TYPE); done. }
    cbn [mbind option_bind]. rewrite Hes. by eexists.
Qed.

Lemma check_loop_total n : ∀ Ace, mapped m Acl (Length + 4) → Acl ≤ Ace ≤ Acl + Length → is_Some (check_loop n m (Acl + Length) Ace).
Proof using Hm.
  intros Ace Hmap. revert Ace. induction n as [|n IH]; intros Ace Hr; [by eexists|]. cbn [check_loop].
  destruct (load16_mapped m Acl _ (Ace + 2) Hmap) as [size Hsize]; [lia..|]. change (AceSize m Ace = Some size) in Hsize. unfold NextAce. rewrite Hsize. cbn [mbind option_bind].
  pose proof (size_range _ _ Hsize). destruct (Z.ltb_spec size 4) as [|H4]; [by eexists|].
  destruct (Z.ltb_spec (Acl + Length) (Ace + size)) as [|Hend]; [by eexists|]. unfold IsKnownAceType, AceType, load8.
  destruct (Hmap Ace) as [t ->]; [lia|]. cbn [mbind option_bind]. destruct (_ || _ || _ || _); cbn [mbind option_bind]; [|apply IH; lia].
  destruct (Z.ltb_spec size 12) as [|H12]; [by eexists|]. destruct (Z.ltb_spec (Acl + Length) (SidStart Ace + 8)) as [|H8]; [by eexists|]. unfold SidStart in *.
  unfold RtlLengthSid, SeLengthSid, SubAuthorityCount, load8. destruct (Hmap (Ace + 8 + 1)) as [c ->]; [lia|]. cbn [mbind option_bind].
  destruct (Z.leb_spec (Ace + 8 + (8 + 4 * c)) (Acl + Length)); [apply IH; lia|by eexists].
Qed.

(** C35: For an ACL of [Length] bytes from a user, SepCheckAcl ends if four more bytes are mapped. If it
    says TRUE, the entries that an access check walks are there: types, flags, masks and the whole of the
    SIDs that it reads are inside of the ACL. *)
Theorem captured_acl_safe :
  8 ≤ Length →
  (mapped m Acl (Length + 4) → is_Some (SepCheckAcl m Acl Length)) ∧
  (mapped m Acl Length → SepCheckAcl m Acl Length = Some true → is_Some (acl_entries m Acl)).
Proof using Hm.
  intros H8. unfold SepCheckAcl. split.
  - intros Hmap. unfold AclRevision, load8. destruct (Hmap Acl) as [r ->]; [lia|]. cbn [mbind option_bind]. destruct (negb _); [by eexists|].
    destruct (load16_mapped m Acl _ (Acl + 2) Hmap) as [size Hsize]; [lia..|]. unfold AclSize. rewrite Hsize. cbn [mbind option_bind]. destruct (negb _); [by eexists|].
    destruct (load16_mapped m Acl _ (Acl + 4) Hmap) as [count Hcount]; [lia..|]. unfold AceCount. rewrite Hcount. cbn [mbind option_bind].
    apply check_loop_total; [done|]. unfold FirstAce. lia.
  - intros Hmap. destruct (AclRevision m Acl); [|done]. cbn [mbind option_bind]. destruct (negb _); [done|].
    destruct (AclSize m Acl); [|done]. cbn [mbind option_bind]. destruct (negb _); [done|]. unfold acl_entries.
    destruct (AceCount m Acl) as [count|]; [|done]. cbn [mbind option_bind]. intros H. apply check_loop_entries; [done|unfold FirstAce; lia|done].
Qed.
End capture.

Lemma example_mapped : mapped example ExampleAcl 80.
Proof.
  intros x Hx. assert (H : ∀ i, 0 ≤ i < 80 → bool_decide (is_Some (example !! (ExampleAcl + i))) = true) by (apply forall_range; vm_compute; reflexivity).
  specialize (H (x - ExampleAcl) ltac:(lia)). apply bool_decide_eq_true in H. by replace (ExampleAcl + (x - ExampleAcl)) with x in H by lia.
Qed.

Lemma captured_acl_safe_witness :
  SepCheckAcl example ExampleAcl 80 = Some true ∧ is_Some (acl_entries example ExampleAcl).
Proof.
  assert (H : SepCheckAcl example ExampleAcl 80 = Some true) by (vm_compute; reflexivity). split; [exact H|].
  apply (captured_acl_safe example ExampleAcl 80).
  - apply example_bytes.
  - vm_compute. discriminate.
  - apply example_mapped.
  - exact H.
Defined.

(** A list of 8 bytes that says it has an entry: SepCheckAcl reads the size of the entry
    behind the list. *)
Lemma captured_acl_overread :
  let m := put 0x1000 (header 8 1 0 0 0) ∅ in mapped m 0x1000 8 ∧ SepCheckAcl m 0x1000 8 = None.
Proof.
  cbv zeta. split; [|vm_compute; reflexivity]. intros x Hx.
  assert (H : ∀ i, 0 ≤ i < 8 → bool_decide (is_Some (put 0x1000 (header 8 1 0 0 0) ∅ !! (0x1000 + i))) = true) by (apply forall_range; vm_compute; reflexivity).
  specialize (H (x - 0x1000) ltac:(lia)). apply bool_decide_eq_true in H. by replace (0x1000 + (x - 0x1000)) with x in H by lia.
Qed.
