(* ===== verification/AccessTheorems.v ===== *)
(** * Theorems on access checks *)

From stdpp Require Import base list list_tactics numbers option gmap.
From Stdlib Require Import Btauto.
From S2P Require Import Prelude AclMem Acl AclOk Access AccessSpec SecExample.

(** ** Checks of a descriptor with a list *)

(** The status of a refusal. *)
Definition refusal (Token : TOKEN) (D : Z) : NTSTATUS :=
  if Z.testbit D 24 && negb (match_privilege Token SeSecurityPrivilege) then STATUS_PRIVILEGE_NOT_HELD else STATUS_ACCESS_DENIED.

Lemma outcome_not_held Out (ok : Prop) granted :
  ¬ ok → outcome (Some (false, Out <| AccessStatus := STATUS_PRIVILEGE_NOT_HELD |>)) ok granted STATUS_PRIVILEGE_NOT_HELD.
Proof. intros Hok. exists false. eexists. split_and!; done. Qed.

Section checks.
Context (m : Mem) (SD : Z) (Token : TOKEN) (L : list group) (es : list entry) (owner : list Z).
Hypothesis HP : protected m SD Token L es owner.
Context (Mapping : GENERIC_MAPPING) (Pool : bool) (Out : OUTPUT).

Lemma may_named b : b ≠ 24 → may L es Token false b = taken Token b || bool_decide (verdict L es b = Some true).
Proof. intros Hb. unfold may, taken. by rewrite (proj2 (Z.eqb_neq _ _) Hb). Qed.

Lemma sep_check_named D P :
  0 ≤ D → D ≠ 0 → Z.testbit D 25 = false →
  outcome (SepAccessCheck m SD Token D Mapping UserMode true Pool Out P)
    (∀ b, 0 ≤ b → Z.testbit D b = true → may L es Token false b = true) (λ g, g = Z.lor D P) (refusal Token D).
Proof using HP.
  intros HD HD0 H25. unfold SepAccessCheck, refusal. rewrite any_system, single_privilege.
  destruct (Z.testbit D 24) eqn:H24; [destruct (match_privilege Token SeSecurityPrivilege) eqn:Hpriv|]; simpl.
  - assert (Hcov : Z.lor (Z.ldiff D ACCESS_SYSTEM_SECURITY) (Z.lor P ACCESS_SYSTEM_SECURITY) = Z.lor D P ∧ Z.lor D (Z.lor P ACCESS_SYSTEM_SECURITY) = Z.lor D P).
    { split; apply Z.bits_inj'; intros b Hb; rewrite !Z.lor_spec, ?Z.ldiff_spec, test_system by done;
        destruct (Z.eqb_spec b 24) as [->|]; rewrite ?H24; btauto. }
    assert (Hmay : ∀ b, 0 ≤ b → Z.testbit D b = true → (b = 24 ∨ Z.testbit (Z.ldiff D ACCESS_SYSTEM_SECURITY) b = true)).
    { intros b Hb Hbit. rewrite Z.ldiff_spec, Hbit, test_system by done. destruct (Z.eqb_spec b 24); auto. }
    destruct (Z.eqb_spec (Z.ldiff D ACCESS_SYSTEM_SECURITY) 0) as [H0|H0].
    + apply outcome_grant.
      * intros b Hb Hbit. destruct (Hmay b Hb Hbit) as [->|Hz]; [done|]. by rewrite H0, Z.testbit_0_l in Hz.
      * destruct Hcov as [Hcov _]. by rewrite H0, Z.lor_0_l in Hcov.
    + eapply outcome_iff; [apply (check_dacl_named m SD Token L es owner HP)| |].
      * apply Z.ldiff_nonneg. by left.
      * done.
      * by rewrite Z.ldiff_spec, H25.
      * done.
      * by rewrite (proj1 Hcov), (proj2 Hcov).
      * split; intros H b Hb Hbit.
        -- destruct (Z.eq_dec b 24) as [->|Hne]; [done|]. rewrite may_named by done. apply H; [done|]. by destruct (Hmay b Hb Hbit).
        -- rewrite Z.ldiff_spec, test_system in Hbit by done. apply andb_true_iff in Hbit as [Hbit Hne%negb_true_iff%Z.eqb_neq].
           rewrite <- may_named by done. by apply H.
      * intros g _ ->. apply Hcov.
  - apply outcome_not_held. intros H. specialize (H 24 ltac:(lia) H24). unfold may in H. simpl in H. congruence.
  - eapply outcome_iff; [by apply (check_dacl_named m SD Token L es owner HP)| |done].
    split; intros H b Hb Hbit; specialize (H b Hb Hbit); (rewrite may_named in * by congruence); done.
Qed.

Lemma gets_named b D P : gets L es Token false D P b =
  Z.testbit P b || (Z.testbit D b && ((b =? 24) || taken Token b)) || bool_decide (verdict L es b = Some true).
Proof. unfold gets, taken. simpl. by rewrite orb_false_r. Qed.

Lemma sep_check_maximum D P :
  Z.testbit D 25 = true →
  outcome (SepAccessCheck m SD Token D Mapping UserMode true Pool Out P)
    ((∀ b, 0 ≤ b → b ≠ 25 → Z.testbit D b = true → may L es Token false b = true) ∧ ∃ b, 0 ≤ b ∧ gets L es Token false D P b = true)
    (λ g, ∀ b, 0 ≤ b → Z.testbit g b = gets L es Token false D P b) (refusal Token D).
Proof using HP.
  intros H25. unfold SepAccessCheck, refusal. rewrite any_system, single_privilege.
  destruct (Z.testbit D 24) eqn:H24; [destruct (match_privilege Token SeSecurityPrivilege) eqn:Hpriv|]; simpl.
  - assert (H25' : Z.testbit (Z.ldiff D ACCESS_SYSTEM_SECURITY) 25 = true) by (by rewrite Z.ldiff_spec, H25).
    rewrite (proj2 (Z.eqb_neq _ 0)) by (intros H0; by rewrite H0 in H25').
    assert (Hgets : ∀ b, 0 ≤ b → Z.testbit (Z.lor P ACCESS_SYSTEM_SECURITY) b || (Z.testbit (Z.ldiff D ACCESS_SYSTEM_SECURITY) b && taken Token b) ||
      bool_decide (verdict L es b = Some true) = gets L es Token false D P b).
    { intros b Hb. rewrite gets_named, Z.lor_spec, Z.ldiff_spec, test_system by done. unfold taken.
      destruct (Z.eqb_spec b 24) as [->|]; [rewrite H24; simpl; by rewrite !orb_true_r|]. simpl. by rewrite orb_false_r, andb_true_r. }
    eapply outcome_iff; [by apply (check_dacl_maximum m SD Token L es owner HP)| |].
    + split; intros [H1 (b & Hb & H2)]; (split; [|exists b; split; [done|]; first [by rewrite <- Hgets|by rewrite Hgets]]); intros c Hc Hne Hbit.
      * destruct (Z.eq_dec c 24) as [->|Hne']; [done|]. rewrite may_named by done. apply H1; [done|done|].
        rewrite Z.ldiff_spec, Hbit, test_system by done. by rewrite (proj2 (Z.eqb_neq _ _) Hne').
      * rewrite Z.ldiff_spec, test_system in Hbit by done. apply andb_true_iff in Hbit as [Hbit Hne'%negb_true_iff%Z.eqb_neq].
        rewrite <- may_named by done. by apply H1.
    + intros g _ Hg b Hb. by rewrite Hg, Hgets.
  - apply outcome_not_held. intros [H _]. specialize (H 24 ltac:(lia) ltac:(lia) H24). unfold may in H. simpl in H. congruence.
  - assert (Hgets : ∀ b, Z.testbit P b || (Z.testbit D b && taken Token b) || bool_decide (verdict L es b = Some true) = gets L es Token false D P b).
    { intros b. rewrite gets_named. destruct (Z.eqb_spec b 24) as [->|]; [by rewrite H24|done]. }
    eapply outcome_iff; [by apply (check_dacl_maximum m SD Token L es owner HP)| |].
    + setoid_rewrite Hgets. split; intros [H1 H2]; (split; [|done]); intros c Hc Hne Hbit; specialize (H1 c Hc Hne Hbit);
        (rewrite may_named in * by congruence); done.
    + intros g _ Hg b Hb. by rewrite Hg, Hgets.
Qed.
End checks.

(** ** Checks for a subject *)

(** The subject may be impersonated at this level. *)
Definition impersonates (Subject : SECURITY_SUBJECT_CONTEXT) : bool :=
  negb (bool_decide (ClientToken Subject ≠ None) && below_impersonation (ImpersonationLevel Subject)).

Section subject.
Context (m : Mem) (SD : Z) (Subject : SECURITY_SUBJECT_CONTEXT) (L : list group) (es : list entry) (owner : list Z).
Hypothesis HP : protected m SD (EffectiveToken Subject) L es owner.
Hypothesis Himp : impersonates Subject = true.
Context (Mapping : GENERIC_MAPPING) (Pool : bool) (Out : OUTPUT).

Abbreviation owner_bits := (Z.lor WRITE_DAC READ_CONTROL).
Abbreviation Token := (EffectiveToken Subject).

Lemma owner_check : SepTokenIsOwner m Token SD = Some (member true L owner).
Proof using HP.
  destruct (p_owner _ _ _ _ _ _ HP) as (a & Ha & Hs). unfold SepTokenIsOwner. rewrite Ha. cbn [mbind option_bind].
  apply sid_in_token; [apply HP|done|apply HP].
Qed.

(** Where the owner's bits go. *)
Lemma access_check_owner D P :
  D ≠ 0 →
  ∃ o : bool, (any D (Z.lor owner_bits MAXIMUM_ALLOWED) = true → o = member true L owner) ∧
    (o = true → member true L owner = true) ∧
    SeAccessCheck m SD Subject D P true Mapping UserMode Pool Out =
      let P' := if o then Z.lor P (if any D MAXIMUM_ALLOWED then owner_bits else Z.land D owner_bits) else P in
      let D' := if o then Z.ldiff D owner_bits else D in
      if D' =? 0 then Some (true, Out <| GrantedAccess := P' |> <| AccessStatus := STATUS_SUCCESS |>)
      else SepAccessCheck m SD Token D' Mapping UserMode true Pool Out P'.
Proof using HP Himp.
  intros HD. unfold SeAccessCheck. cbn [andb]. rewrite (proj2 (Z.eqb_neq SD 0)) by apply HP. unfold impersonates in Himp.
  apply negb_true_iff in Himp. rewrite Himp, (proj2 (Z.eqb_neq D 0)) by done.
  destruct (any D (Z.lor owner_bits MAXIMUM_ALLOWED)); [rewrite owner_check; exists (member true L owner)|exists false]; done.
Qed.

Lemma any_owner_bits D b : 0 ≤ b → Z.testbit D b = true → (b =? 17) || (b =? 18) || (b =? 25) = true → any D (Z.lor owner_bits MAXIMUM_ALLOWED) = true.
Proof.
  intros Hb Hbit Hor. destruct (any _ _) eqn:Ha; [done|]. pose proof (proj1 (not_any _ _) Ha b Hb Hbit) as H.
  rewrite Z.lor_spec, test_owner_bits, test_maximum in H by done. congruence.
Qed.

Lemma may_owner (o : bool) b : (b =? 17) || (b =? 18) = false → may L es Token o b = may L es Token false b.
Proof. intros H. unfold may. rewrite H. by rewrite andb_false_r. Qed.

Lemma may_owned b : (b =? 17) || (b =? 18) = true → may L es Token true b = true.
Proof. intros H. unfold may. destruct (Z.eqb_spec b 24) as [->|]; [done|]. by rewrite H. Qed.

Lemma refusal_owner (o : bool) D : refusal Token (if o then Z.ldiff D owner_bits else D) = refusal Token D.
Proof. unfold refusal. destruct o; [|done]. rewrite Z.ldiff_spec. change (Z.testbit owner_bits 24) with false. by rewrite andb_true_r. Qed.

Lemma access_check_exact' D P :
  0 < D → Z.testbit D 25 = false →
  ∃ ok Out', SeAccessCheck m SD Subject D P true Mapping UserMode Pool Out = Some (ok, Out') ∧
    (ok = true ↔ ∀ b, 0 ≤ b → Z.testbit D b = true → may L es Token (member true L owner) b = true) ∧
    (ok = true → AccessStatus Out' = STATUS_SUCCESS ∧ GrantedAccess Out' = Z.lor D P) ∧
    (ok = false → AccessStatus Out' = refusal Token D).
Proof using HP Himp.
  intros HD H25. change (outcome (SeAccessCheck m SD Subject D P true Mapping UserMode Pool Out)
    (∀ b, 0 ≤ b → Z.testbit D b = true → may L es Token (member true L owner) b = true) (λ g, g = Z.lor D P) (refusal Token D)).
  destruct (access_check_owner D P ltac:(lia)) as (o & Ho & Ho' & ->). cbv zeta. rewrite any_maximum, H25.
  assert (Hsame : ∀ b, 0 ≤ b → Z.testbit D b = true → may L es Token o b = may L es Token (member true L owner) b).
  { intros b Hb Hbit. destruct ((b =? 17) || (b =? 18)) eqn:Hor; [|by rewrite (may_owner o b Hor), (may_owner (member true L owner) b Hor)].
    by rewrite Ho by (eapply any_owner_bits; [exact Hb|exact Hbit|by rewrite Hor]). }
  assert (Hcov : o = true → Z.lor (Z.ldiff D owner_bits) (Z.lor P (Z.land D owner_bits)) = Z.lor D P).
  { intros _. apply Z.bits_inj'. intros b Hb. rewrite !Z.lor_spec, Z.ldiff_spec, Z.land_spec. btauto. }
  destruct (Z.eqb_spec (if o then Z.ldiff D owner_bits else D) 0) as [H0|H0].
  - destruct o; [|lia]. exists true. eexists. split_and!; [done| |intros _; split; [done|]|done].
    + split; [intros _ b Hb Hbit|done]. rewrite <- Hsame by done. apply may_owned. pose proof (proj1 (zero_bits _) H0 b Hb) as Hz.
      rewrite Z.ldiff_spec, Hbit, test_owner_bits in Hz by done. by apply negb_false_iff in Hz.
    + rewrite H0, Z.lor_0_l in Hcov. by apply Hcov.
  - rewrite <- (refusal_owner o D). eapply outcome_iff; [apply (sep_check_named m SD Token L es owner HP); [destruct o; [apply Z.ldiff_nonneg; left|]; lia|done|]| |].
    + destruct o; [by rewrite Z.ldiff_spec, H25|done].
    + split; intros H b Hb Hbit.
      * rewrite <- Hsame by done. destruct ((b =? 17) || (b =? 18)) eqn:Hor.
        -- destruct o; [by apply may_owned|by apply H].
        -- rewrite (may_owner o b Hor). apply H; [done|]. destruct o; [|done]. by rewrite Z.ldiff_spec, Hbit, test_owner_bits, Hor by done.
      * destruct o; [|by rewrite (Hsame b) by done; apply H]. rewrite Z.ldiff_spec, test_owner_bits in Hbit by done.
        apply andb_true_iff in Hbit as [Hbit Hor%negb_true_iff]. rewrite <- (may_owner true b Hor), Hsame by done. by apply H.
    + intros g _ ->. destruct o; [by apply Hcov|done].
Qed.

(** C33: A user-mode request of bits for an object with an access list is granted exactly if each bit is:
    ACCESS_SYSTEM_SECURITY to a token with the security privilege; READ_CONTROL and WRITE_DAC to the
    owner; WRITE_OWNER to a token with the take-ownership privilege; and each but the first by the first
    entry for the token that has the bit, if it allows. The check ends, reads mapped memory only, and
    gives the request and what was granted before, or the status of the refusal. *)
Theorem access_check_exact D P :
  0 < D → Z.testbit D 25 = false →
  ∃ ok Out', SeAccessCheck m SD Subject D P true Mapping UserMode Pool Out = Some (ok, Out') ∧
    (ok = true ↔ ∀ b, 0 ≤ b → Z.testbit D b = true → may L es Token (member true L owner) b = true) ∧
    (ok = true → AccessStatus Out' = STATUS_SUCCESS ∧ GrantedAccess Out' = Z.lor D P) ∧
    (ok = false → AccessStatus Out' = refusal Token D).
Proof using HP Himp. apply access_check_exact'. Qed.

(** C34: A user-mode request of MAXIMUM_ALLOWED with other bits for an object with an access list is
    granted exactly if each of those bits may be granted and something is. It gives exactly: what was
    granted before, READ_CONTROL and WRITE_DAC to the owner, the bits that the first entry for the token
    that has them allows, and ACCESS_SYSTEM_SECURITY and WRITE_OWNER by privilege if they are requested. *)
Theorem maximum_allowed_exact D P :
  0 ≤ D → Z.testbit D 25 = true →
  ∃ ok Out', SeAccessCheck m SD Subject D P true Mapping UserMode Pool Out = Some (ok, Out') ∧
    (ok = true ↔ (∀ b, 0 ≤ b → b ≠ 25 → Z.testbit D b = true → may L es Token (member true L owner) b = true) ∧
      ∃ b, 0 ≤ b ∧ gets L es Token (member true L owner) D P b = true) ∧
    (ok = true → AccessStatus Out' = STATUS_SUCCESS ∧
      ∀ b, 0 ≤ b → Z.testbit (GrantedAccess Out') b = gets L es Token (member true L owner) D P b) ∧
    (ok = false → AccessStatus Out' = refusal Token D).
Proof using HP Himp.
  intros HD H25. change (outcome (SeAccessCheck m SD Subject D P true Mapping UserMode Pool Out)
    ((∀ b, 0 ≤ b → b ≠ 25 → Z.testbit D b = true → may L es Token (member true L owner) b = true) ∧
      ∃ b, 0 ≤ b ∧ gets L es Token (member true L owner) D P b = true)
    (λ g, ∀ b, 0 ≤ b → Z.testbit g b = gets L es Token (member true L owner) D P b) (refusal Token D)).
  assert (HD0 : D ≠ 0) by (intros ->; done). destruct (access_check_owner D P HD0) as (o & Ho & Ho' & ->). cbv zeta. rewrite any_maximum, H25.
  assert (Heq : o = member true L owner) by (apply Ho; by apply (any_owner_bits D 25)). rewrite <- Heq. clear Ho Ho' Heq.
  assert (H25' : Z.testbit (if o then Z.ldiff D owner_bits else D) 25 = true) by (destruct o; [by rewrite Z.ldiff_spec, H25|done]).
  rewrite (proj2 (Z.eqb_neq _ 0)) by (intros H0; by rewrite H0 in H25').
  assert (Hgets : ∀ b, 0 ≤ b → gets L es Token false (if o then Z.ldiff D owner_bits else D) (if o then Z.lor P owner_bits else P) b = gets L es Token o D P b).
  { intros b Hb. destruct o; [|done]. unfold gets. rewrite Z.lor_spec, Z.ldiff_spec, test_owner_bits by done.
    destruct ((b =? 17) || (b =? 18)) eqn:Hor; btauto. }
  rewrite <- (refusal_owner o D). eapply outcome_iff; [by apply (sep_check_maximum m SD Token L es owner HP)| |].
  - split; intros [H1 (b & Hb & H2)]; (split; [|exists b; split; [done|]; first [by rewrite <- Hgets|by rewrite Hgets]]); intros c Hc Hne Hbit.
    + destruct ((c =? 17) || (c =? 18)) eqn:Hor; [destruct o; [by apply may_owned|by apply H1]|]. rewrite (may_owner o c Hor).
      apply H1; [done|done|]. destruct o; [|done]. by rewrite Z.ldiff_spec, Hbit, test_owner_bits, Hor by done.
    + destruct o; [|by apply H1]. rewrite Z.ldiff_spec, test_owner_bits in Hbit by done. apply andb_true_iff in Hbit as [Hbit Hor%negb_true_iff].
      rewrite <- (may_owner true c Hor). by apply H1.
  - intros g _ Hg b Hb. by rewrite Hg, Hgets.
Qed.
End subject.

Lemma example_protected Token L : groups example (UserAndGroups Token) = Some L → protected example ExampleSD Token L example_entries alice.
Proof.
  intros HL. split.
  - apply example_bytes.
  - done.
  - done.
  - exists ExampleAcl, 4. split_and!; vm_compute; done.
  - exists AliceSid. by split; vm_compute.
Qed.

Definition bob_groups : list group := [(bob, 7); (world, 7)].
Definition alice_groups : list group := [(alice, 7); (world, 7)].

(** Bob asks for [0x2], and WRITE_OWNER that he has by privilege. *)
Lemma access_check_exact_witness :
  ∃ ok Out', SeAccessCheck example ExampleSD (subject bob_token) 0x80002 0 true mapping UserMode true no_output = Some (ok, Out') ∧
    ok = true ∧ GrantedAccess Out' = 0x80002 ∧ Privileges Out' = Some [SeTakeOwnershipPrivilege].
Proof.
  destruct (access_check_exact example ExampleSD (subject bob_token) bob_groups example_entries alice) with (D := 0x80002) (P := 0)
    (Mapping := mapping) (Pool := true) (Out := no_output) as (ok & Out' & Hcheck & _).
  - apply example_protected. vm_compute. reflexivity.
  - reflexivity.
  - reflexivity.
  - vm_compute. reflexivity.
  - exists ok, Out'. split; [exact Hcheck|]. vm_compute in Hcheck. injection Hcheck as <- <-. done.
Defined.

(** Alice gets READ_CONTROL and WRITE_DAC as the owner, and [0x22] as one of everybody. *)
Lemma maximum_allowed_exact_witness :
  ∃ ok Out', SeAccessCheck example ExampleSD (subject alice_token) MAXIMUM_ALLOWED 0 true mapping UserMode true no_output = Some (ok, Out') ∧
    ok = true ∧ GrantedAccess Out' = 0x60022.
Proof.
  destruct (maximum_allowed_exact example ExampleSD (subject alice_token) alice_groups example_entries alice) with (D := MAXIMUM_ALLOWED) (P := 0)
    (Mapping := mapping) (Pool := true) (Out := no_output) as (ok & Out' & Hcheck & _).
  - apply example_protected. vm_compute. reflexivity.
  - reflexivity.
  - vm_compute. discriminate.
  - reflexivity.
  - exists ok, Out'. split; [exact Hcheck|]. vm_compute in Hcheck. injection Hcheck as <- <-. done.
Defined.

(** ** The kernel's own checks *)

(** A kernel-mode check without MAXIMUM_ALLOWED always grants what is asked. With MAXIMUM_ALLOWED the
    routine computes a mask and goes on to the checks of user mode: without a security descriptor, or
    for a client token below impersonation level, it refuses. *)
Theorem kernel_maximum_allowed m SD Subject D P HP Mapping Pool Out :
  (Z.testbit D 25 = false → SeAccessCheck m SD Subject D P HP Mapping KernelMode Pool Out =
    Some (true, Out <| GrantedAccess := Z.lor D P |> <| AccessStatus := STATUS_SUCCESS |>)) ∧
  (Z.testbit D 25 = true → SD = 0 → ∃ Out', SeAccessCheck m SD Subject D P HP Mapping KernelMode Pool Out = Some (false, Out') ∧
    AccessStatus Out' = STATUS_ACCESS_DENIED) ∧
  (Z.testbit D 25 = true → SD ≠ 0 → impersonates Subject = false →
    ∃ Out', SeAccessCheck m SD Subject D P HP Mapping KernelMode Pool Out = Some (false, Out') ∧
      AccessStatus Out' = STATUS_BAD_IMPERSONATION_LEVEL).
Proof.
  unfold SeAccessCheck. rewrite any_maximum. split_and!.
  - by intros ->.
  - intros -> ->. cbn [negb andb]. eexists. by split.
  - intros -> HSD Himp. apply negb_false_iff in Himp. cbn [negb andb]. rewrite (proj2 (Z.eqb_neq _ _) HSD), Himp. eexists. by split.
Qed.

Lemma kernel_maximum_allowed_witness :
  ∃ Out', SeAccessCheck ∅ 0 (subject alice_token) (Z.lor MAXIMUM_ALLOWED 1) 0 true mapping KernelMode true no_output = Some (false, Out') ∧
    AccessStatus Out' = STATUS_ACCESS_DENIED.
Proof.
  destruct (kernel_maximum_allowed ∅ 0 (subject alice_token) (Z.lor MAXIMUM_ALLOWED 1) 0 true mapping true no_output) as (_ & H & _).
  apply H; reflexivity.
Defined.

(** ** Traversal *)

Section traverse.
Context (m : Mem) (SD : Z) (Token : TOKEN) (L : list group) (es : list entry) (owner : list Z) (W : Z) (w : list Z).
Hypothesis HP : protected m SD Token L es owner.
Hypothesis HW : sid_bytes m W = Some w.

Lemma fast_traverse_ok k : 0 ≤ k →
  SeFastTraverseCheck m W SD (2 ^ k) UserMode = Some (bool_decide (world_verdict w es k = Some true)).
Proof using HP HW.
  intros Hk. destruct (p_dacl _ _ _ _ _ _ HP) as (Dacl & c & Hc & Hpres & Hd & H0 & He). unfold SeFastTraverseCheck.
  rewrite (proj2 (Z.eqb_neq SD 0)) by apply HP. unfold SepDaclAddrSecurityDescriptor, SepAreControlBitsSet. rewrite Hc. cbn [mbind option_bind].
  rewrite Hpres, Hd. cbn [mbind option_bind]. rewrite (proj2 (Z.eqb_neq Dacl 0) H0), orb_false_r.
  rewrite (dacl_present c Hpres). cbn [negb]. unfold acl_entries in He. destruct (AceCount m Dacl) as [count|]; [|done]. cbn [mbind option_bind] in *.
  destruct (Z.eqb_spec count 0) as [->|]; [by injection He as <-|]. apply (traverse_loop_ok m Token L); [apply HP|apply HP|done|done|done].
Qed.

Lemma world_verdict_sound k : 0 ≤ k →
  world_verdict w es k = Some true → member true L w = true →
  (∀ e, e ∈ es → applies L e = true → Z.testbit (e_mask e) k = true → e_type e = ACCESS_DENIED_ACE_TYPE → e_sid e = w) →
  verdict L es k = Some true.
Proof using.
  intros Hk Hw Hmember Hdeny. clear HP HW. revert Hw Hdeny.
  induction es as [|e es' IH]; [done|]. cbn [world_verdict verdict]. intros Hw Hdeny. unfold applies in *.
  assert (Hrest : ∀ e', e' ∈ es' → negb (any (e_flags e') INHERIT_ONLY_ACE) && decides (e_type e') && member true L (e_sid e') = true →
    Z.testbit (e_mask e') k = true → e_type e' = ACCESS_DENIED_ACE_TYPE → e_sid e' = w) by (intros e' He'; apply Hdeny; by right).
  destruct (any (e_flags e) INHERIT_ONLY_ACE) eqn:Hio; [by apply IH|]. destruct (decides (e_type e)) eqn:Hdec; [|by apply IH].
  destruct (Z.testbit (e_mask e) k) eqn:Hbit; cbn [negb andb] in *; [|rewrite andb_false_r; by apply IH].
  destruct (bool_decide_reflect (w = e_sid e)) as [Heq|Hne]; [rewrite <- Heq, Hmember; done|].
  destruct (member true L (e_sid e)) eqn:Hmem; cbn [andb]; [|by apply IH].
  pose proof Hdec as [Ha|Hd%Z.eqb_eq]%orb_true_iff; [by rewrite Ha|]. exfalso. apply Hne. symmetry.
  apply Hdeny; [by left|by rewrite Hio, Hdec, Hmem|done|done].
Qed.
End traverse.

(** C39: SeFastTraverseCheck for one kind of access decides by the first entry for everybody that has it.
    When it is TRUE, everybody is an enabled group of the token, and no entry denies the access to
    another SID of the token, the full check of that access grants it too. *)
Theorem fast_traverse_sound m SD Subject L es owner W w k P Mapping Pool Out :
  protected m SD (EffectiveToken Subject) L es owner → impersonates Subject = true → sid_bytes m W = Some w →
  0 ≤ k → k ≠ 24 → k ≠ 25 →
  SeFastTraverseCheck m W SD (2 ^ k) UserMode = Some (bool_decide (world_verdict w es k = Some true)) ∧
  (SeFastTraverseCheck m W SD (2 ^ k) UserMode = Some true → member true L w = true →
    (∀ e, e ∈ es → applies L e = true → Z.testbit (e_mask e) k = true → e_type e = ACCESS_DENIED_ACE_TYPE → e_sid e = w) →
    ∃ Out', SeAccessCheck m SD Subject (2 ^ k) P true Mapping UserMode Pool Out = Some (true, Out') ∧ AccessStatus Out' = STATUS_SUCCESS).
Proof.
  intros HP Himp HW Hk H24 H25. pose proof (fast_traverse_ok m SD _ L es owner W w HP HW k Hk) as Hfast. split; [done|]. rewrite Hfast.
  intros [= Hw%bool_decide_eq_true] Hmember Hdeny.
  assert (Hbit : ∀ b, 0 ≤ b → Z.testbit (2 ^ k) b = true → b = k) by (intros b Hb H; rewrite Z.pow2_bits_eqb in H by done; lia).
  destruct (access_check_exact' m SD Subject L es owner HP Himp Mapping Pool Out (2 ^ k) P) as (ok & Out' & Hcheck & Hok & Hs & _).
  - by apply Z.pow_pos_nonneg.
  - by apply Z.pow2_bits_false.
  - assert (ok = true) as ->; [|exists Out'; split; [done|by apply Hs]]. apply Hok. intros b Hb H. rewrite (Hbit b Hb H).
    unfold may. rewrite (proj2 (Z.eqb_neq _ _) H24). rewrite bool_decide_eq_true_2; [apply orb_true_r|].
    by apply (world_verdict_sound L es w k Hk Hw Hmember Hdeny).
Qed.

Lemma fast_traverse_sound_witness :
  SeFastTraverseCheck example SeWorldSid ExampleSD (2 ^ 1) UserMode = Some true ∧
  ∃ Out', SeAccessCheck example ExampleSD (subject bob_token) (2 ^ 1) 0 true mapping UserMode true no_output = Some (true, Out') ∧
    AccessStatus Out' = STATUS_SUCCESS.
Proof.
  destruct (fast_traverse_sound example ExampleSD (subject bob_token) bob_groups example_entries alice SeWorldSid world 1 0 mapping true no_output) as [_ H].
  - apply example_protected. vm_compute. reflexivity.
  - reflexivity.
  - vm_compute. reflexivity.
  - lia.
  - lia.
  - lia.
  - split; [vm_compute; reflexivity|]. apply H; [vm_compute; reflexivity|vm_compute; reflexivity|].
    intros e He _ Hbit. unfold example_entries in He. rewrite !elem_of_cons in He. destruct He as [->|[->|He]]; [discriminate Hbit|discriminate|].
    by apply elem_of_nil in He.
Defined.

(** SeFastTraverseCheck ignores the entries that deny access to anyone but everybody: where Bob is
    denied an access before everybody is allowed it, the fast check says TRUE, upon which callers skip
    the full check, and the full check of the same access for Bob refuses it. *)
Theorem fast_traverse_ignores_denials :
  SeFastTraverseCheck example SeWorldSid ExampleSD 0x20 UserMode = Some true ∧
  ∃ Out', SeAccessCheck example ExampleSD (subject bob_token) 0x20 0 true mapping UserMode true no_output = Some (false, Out') ∧
    AccessStatus Out' = STATUS_ACCESS_DENIED.
Proof. split; [vm_compute; reflexivity|]. eexists. split; [vm_compute; reflexivity|done]. Qed.
