(* ===== verification/SecTheorems.v ===== *)
(** * Theorems on security descriptors and new access lists *)

From stdpp Require Import base list list_tactics numbers option gmap.
From Stdlib Require Import Btauto.
From S2P Require Import Prelude AclMem Acl AclOk Access SecDesc AccessSpec SecExample.

(** ** Descriptors *)

(** What a descriptor says: an owner and a group with whether they are defaults, and two
    lists that may be absent. *)
Record security := mkSecurity { s_owner : Z * bool; s_group : Z * bool; s_sacl : option (Z * bool); s_dacl : option (Z * bool) }.
#[export] Instance security_eta : Eta security := λ s, mkSecurity (s_owner s) (s_group s) (s_sacl s) (s_dacl s).

Inductive sd_call :=
  | SetOwner (Owner : Z) (Defaulted : bool)
  | SetGroup (Group : Z) (Defaulted : bool)
  | SetSacl (Sacl : option (Z * bool))
  | SetDacl (Dacl : option (Z * bool)).

Definition set_security (s : security) (k : sd_call) : security :=
  match k with
  | SetOwner a d => s <| s_owner := (a, d) |>
  | SetGroup a d => s <| s_group := (a, d) |>
  | SetSacl l => s <| s_sacl := l |>
  | SetDacl l => s <| s_dacl := l |>
  end.

Definition sd_call_ok (k : sd_call) : Prop :=
  match k with
  | SetOwner a _ | SetGroup a _ | SetSacl (Some (a, _)) | SetDacl (Some (a, _)) => 0 ≤ a < 2 ^ 32
  | SetSacl None | SetDacl None => True
  end.

Definition run_set (m : Mem) (SD : Z) (k : sd_call) : option (Mem * NTSTATUS) :=
  match k with
  | SetOwner a d => RtlSetOwnerSecurityDescriptor m SD a (Z.b2z d)
  | SetGroup a d => RtlSetGroupSecurityDescriptor m SD a (Z.b2z d)
  | SetSacl None => RtlSetSaclSecurityDescriptor m SD 0 0 0
  | SetSacl (Some (a, d)) => RtlSetSaclSecurityDescriptor m SD 1 a (Z.b2z d)
  | SetDacl None => RtlSetDaclSecurityDescriptor m SD 0 0 0
  | SetDacl (Some (a, d)) => RtlSetDaclSecurityDescriptor m SD 1 a (Z.b2z d)
  end.

(** Each call must succeed. *)
Fixpoint run_sets (m : Mem) (SD : Z) (ks : list sd_call) : option Mem :=
  match ks with
  | [] => Some m
  | k :: ks => '(m, st) ← run_set m SD k; if decide (st = STATUS_SUCCESS) then run_sets m SD ks else None
  end.

(** The record of the bytes. *)
Definition security_of (d : descriptor) : security :=
  let bit n := Z.testbit (d_control d) n in
  mkSecurity (d_owner d, bit 0) (d_group d, bit 1) (if bit 4 then Some (d_sacl d, bit 5) else None) (if bit 2 then Some (d_dacl d, bit 3) else None).

(** A setter that leaves the record [d'] of the descriptor. *)
Lemma set_by m SD d (body : option Mem) s d' :
  holds_descriptor m SD d → (∃ m', body = Some m' ∧ holds_descriptor m' SD d' ∧ agree_outside SD 20 m m') → security_of d' = s →
  ∃ m' d', absolute m SD body = Some (m', STATUS_SUCCESS) ∧ holds_descriptor m' SD d' ∧ security_of d' = s ∧ agree_outside SD 20 m m'.
Proof.
  intros HD Hb Hs. destruct (absolute_ok m SD d body d' HD Hb) as (m' & Ha & Hm' & Hag). by exists m', d'.
Qed.

(** The bits of the new record, one by one. *)
Ltac with_bits := match goal with d : descriptor |- _ => destruct d end;
  unfold security_of, with_list, with_default, set_field; cbn -[Z.lor Z.ldiff Z.testbit Z.pow];
  repeat progress rewrite ?Z.lor_spec, ?Z.ldiff_spec, ?Z.pow2_bits_eqb by lia; cbn -[Z.lor Z.ldiff Z.testbit Z.pow];
  rewrite ?andb_true_r, ?andb_false_r, ?orb_false_r, ?orb_true_r; reflexivity.

Lemma set_ok m SD d k : holds_descriptor m SD d → sd_call_ok k →
  ∃ m' d', run_set m SD k = Some (m', STATUS_SUCCESS) ∧ holds_descriptor m' SD d' ∧
    security_of d' = set_security (security_of d) k ∧ agree_outside SD 20 m m'.
Proof.
  intros HD Hk. destruct k as [a b|a b|[[a b]|]|[[a b]|]]; simpl in Hk; eapply (set_by m SD d _ _ _ HD).
  - apply (set_sid_ok 4 0 a); [by left|lia|done|done].
  - destruct b; with_bits.
  - apply (set_sid_ok 8 1 a); [by right; left|lia|done|done].
  - destruct b; with_bits.
  - apply (set_list_ok 12 5 a _ ltac:(by right; right; left) ltac:(lia) Hk m SD d 4 1); [lia|done].
  - destruct b; with_bits.
  - apply (set_list_ok 12 5 0 _ ltac:(by right; right; left) ltac:(lia) ltac:(lia) m SD d 4 0); [lia|done].
  - with_bits.
  - apply (set_list_ok 16 3 a _ ltac:(by right; right; right) ltac:(lia) Hk m SD d 2 1); [lia|done].
  - destruct b; with_bits.
  - apply (set_list_ok 16 3 0 _ ltac:(by right; right; right) ltac:(lia) ltac:(lia) m SD d 2 0); [lia|done].
  - with_bits.
Qed.

Lemma sets_ok m SD ks : ∀ d, holds_descriptor m SD d → Forall sd_call_ok ks →
  ∃ m' d', run_sets m SD ks = Some m' ∧ holds_descriptor m' SD d' ∧
    security_of d' = foldl set_security (security_of d) ks ∧ agree_outside SD 20 m m'.
Proof.
  revert m. induction ks as [|k ks IH]; intros m d HD Hks.
  - exists m, d. split_and!; [done|done|done|apply agree_refl].
  - apply Forall_cons in Hks as [Hk Hks]. destruct (set_ok m SD d k HD Hk) as (m1 & d1 & H1 & HD1 & Hs1 & Hag1).
    destruct (IH m1 d1 HD1 Hks) as (m2 & d2 & H2 & HD2 & Hs2 & Hag2). exists m2, d2. cbn [run_sets foldl]. rewrite H1. cbn [mbind option_bind].
    rewrite decide_True by done. split_and!; [done|done|by rewrite Hs2, Hs1|by eapply agree_trans].
Qed.

Lemma create_ok m SD old : holds m SD old → zlen old = 20 →
  ∃ m', RtlCreateSecurityDescriptor m SD SECURITY_DESCRIPTOR_REVISION = Some (m', STATUS_SUCCESS) ∧
    holds_descriptor m' SD (mkDescriptor 0 0 0 0 0) ∧ agree_outside SD 20 m m'.
Proof.
  intros Hold Hlen. set (d := mkDescriptor 0 0 0 0 0). assert (Hz : ∀ n, byte_list (replicate n 0)) by (intros n; apply Forall_replicate; lia).
  destruct (store_bytes_ok (descriptor_bytes d) m SD old Hold) as (m' & Hst & Hm' & Hag);
    [unfold zlen in Hlen; change (length (descriptor_bytes d)) with 20%nat; lia|constructor; [lia|apply (Hz 19%nat)]|].
  exists m'. split; [|split; [split; [by split_and!|exact Hm']|exact Hag]].
  change (descriptor_bytes d) with ([1] ++ [0] ++ le16 0 ++ le32 0 ++ le32 0 ++ le32 0 ++ le32 0) in Hst.
  unfold RtlCreateSecurityDescriptor. cbn [Z.eqb Pos.eqb SECURITY_DESCRIPTOR_REVISION]. change SECURITY_DESCRIPTOR_REVISION with 1.
  do 6 next_store Hst. rewrite store32_bytes. by rewrite Hst.
Qed.

(** What the getters and the check of a descriptor say. *)
Definition listed (l : option (Z * bool)) : bool * option (Z * bool) := (bool_decide (is_Some l), l).

Definition valid_parts (m : Mem) (s : security) : bool :=
  let sid a := (a =? 0) || RtlValidSid m a in
  let acl l := match l with Some (a, _) => (a =? 0) || RtlValidAcl m a | None => true end in
  sid (fst (s_owner s)) && sid (fst (s_group s)) && acl (s_dacl s) && acl (s_sacl s).

Record says (m : Mem) (SD : Z) (s : security) : Prop := {
  says_owner : RtlGetOwnerSecurityDescriptor m SD = Some (STATUS_SUCCESS, Some (s_owner s));
  says_group : RtlGetGroupSecurityDescriptor m SD = Some (STATUS_SUCCESS, Some (s_group s));
  says_sacl : RtlGetSaclSecurityDescriptor m SD = Some (STATUS_SUCCESS, Some (listed (s_sacl s)));
  says_dacl : RtlGetDaclSecurityDescriptor m SD = Some (STATUS_SUCCESS, Some (listed (s_dacl s)));
  says_valid : RtlValidSecurityDescriptor m SD = valid_parts m s
}.

Section getters.
Context (m : Mem) (SD : Z) (d : descriptor).
Hypothesis HD : holds_descriptor m SD d.

Lemma bits_set n : 0 ≤ n → SepAreControlBitsSet m SD (2 ^ n) = Some (Z.testbit (d_control d) n).
Proof using HD.
  intros Hn. unfold SepAreControlBitsSet. rewrite (control_ok m SD d HD). cbn [mbind option_bind]. f_equal. rewrite Z.land_comm.
  apply Bool.eq_true_iff_eq. rewrite Z.eqb_eq. split; intros H.
  - apply (f_equal (λ x, Z.testbit x n)) in H. by rewrite Z.land_spec, Z.pow2_bits_true in H.
  - apply Z.bits_inj'. intros b Hb. rewrite Z.land_spec, Z.pow2_bits_eqb by lia. destruct (Z.eqb_spec n b) as [<-|]; [by rewrite H|done].
Qed.

Lemma get_sid_ok Field n : is_field Field → 0 ≤ n →
  get_sid m SD Field (2 ^ n) = Some (STATUS_SUCCESS, Some (field d Field, Z.testbit (d_control d) n)).
Proof using HD.
  intros Hf Hn. unfold get_sid. rewrite (revision_ok m SD d HD). cbn [mbind option_bind negb Z.eqb Pos.eqb SECURITY_DESCRIPTOR_REVISION].
  rewrite (component_ok m SD d HD Field Hf). cbn [mbind option_bind]. by rewrite bits_set.
Qed.

Lemma get_list_ok Field k n : is_field Field → 0 ≤ k → 0 ≤ n →
  get_list m SD Field (2 ^ k) (2 ^ n) =
    Some (STATUS_SUCCESS, Some (listed (if Z.testbit (d_control d) k then Some (field d Field, Z.testbit (d_control d) n) else None))).
Proof using HD.
  intros Hf Hk Hn. unfold get_list. rewrite (revision_ok m SD d HD). cbn [mbind option_bind negb Z.eqb Pos.eqb SECURITY_DESCRIPTOR_REVISION].
  rewrite !bits_set by done. cbn [mbind option_bind]. destruct (Z.testbit (d_control d) k) eqn:Hbit; [|done].
  rewrite (control_ok m SD d HD). cbn [mbind option_bind]. rewrite any_pow2, Hbit by done. by rewrite (component_ok m SD d HD Field Hf).
Qed.

Lemma valid_ok : RtlValidSecurityDescriptor m SD = valid_parts m (security_of d).
Proof using HD.
  unfold RtlValidSecurityDescriptor, valid_parts, security_of. cbn [s_owner s_group s_sacl s_dacl fst].
  rewrite (revision_ok m SD d HD), (control_ok m SD d HD). cbn [mbind option_bind negb Z.eqb Pos.eqb SECURITY_DESCRIPTOR_REVISION].
  rewrite (load_field m SD d HD 4), (component_ok m SD d HD 4), (load_field m SD d HD 8), (component_ok m SD d HD 8) by (unfold is_field; lia).
  rewrite (load_field m SD d HD 12), (component_ok m SD d HD 12), (load_field m SD d HD 16), (component_ok m SD d HD 16) by (unfold is_field; lia).
  change (field d 4) with (d_owner d). change (field d 8) with (d_group d). change (field d 12) with (d_sacl d). change (field d 16) with (d_dacl d).
  change SE_DACL_PRESENT with (2 ^ 2). change SE_SACL_PRESENT with (2 ^ 4). rewrite !any_pow2 by lia. cbn [mbind option_bind].
  destruct (Z.testbit (d_control d) 2), (Z.testbit (d_control d) 4); cbn [andb];
    repeat (match goal with |- context [?x =? 0] => destruct (x =? 0) end; cbn [mbind option_bind negb andb orb handled]);
    repeat (match goal with |- context [RtlValidSid m ?a] => destruct (RtlValidSid m a) end; cbn [mbind option_bind negb andb orb handled]);
    repeat (match goal with |- context [RtlValidAcl m ?a] => destruct (RtlValidAcl m a) end; cbn [mbind option_bind negb andb orb handled]); reflexivity.
Qed.

Lemma descriptor_says : says m SD (security_of d).
Proof using HD.
  split; [apply (get_sid_ok 4 0)|apply (get_sid_ok 8 1)|apply (get_list_ok 12 4 5)|apply (get_list_ok 16 2 3)|apply valid_ok]; unfold is_field; lia.
Qed.
End getters.

(** C38: A descriptor that RtlCreateSecurityDescriptor makes in any 20 mapped bytes, and that any calls then
    set, is a record of an owner, a group and two lists that may be absent: every call succeeds, memory
    outside of the descriptor stays, the getters give what was set last with its default flag, and
    RtlValidSecurityDescriptor checks exactly the parts that are there. *)
Theorem descriptor_refines_record m SD old ks :
  holds m SD old → zlen old = 20 → Forall sd_call_ok ks →
  ∃ m0 m', RtlCreateSecurityDescriptor m SD SECURITY_DESCRIPTOR_REVISION = Some (m0, STATUS_SUCCESS) ∧ run_sets m0 SD ks = Some m' ∧
    says m' SD (foldl set_security (mkSecurity (0, false) (0, false) None None) ks) ∧ agree_outside SD 20 m m'.
Proof.
  intros Hold Hlen Hks. destruct (create_ok m SD old Hold Hlen) as (m0 & H0 & HD0 & Hag0).
  destruct (sets_ok m0 SD ks _ HD0 Hks) as (m' & d & H & HD & Hs & Hag). exists m0, m'. split_and!; [done|done| |by eapply agree_trans].
  change (mkSecurity (0, false) (0, false) None None) with (security_of (mkDescriptor 0 0 0 0 0)). rewrite <- Hs. by apply descriptor_says.
Qed.

(** Alice owns the object, its list is a default, and then it has none. *)
Lemma descriptor_refines_record_witness :
  ∃ m0 m', RtlCreateSecurityDescriptor blank ExampleSD SECURITY_DESCRIPTOR_REVISION = Some (m0, STATUS_SUCCESS) ∧
    run_sets m0 ExampleSD [SetDacl (Some (ExampleAcl, true)); SetOwner AliceSid false; SetDacl None] = Some m' ∧
    says m' ExampleSD (mkSecurity (AliceSid, false) (0, false) None None) ∧ agree_outside ExampleSD 20 blank m'.
Proof.
  apply (descriptor_refines_record blank ExampleSD (replicate 20 0) [SetDacl (Some (ExampleAcl, true)); SetOwner AliceSid false; SetDacl None]).
  - apply holdsb_ok. vm_compute. reflexivity.
  - reflexivity.
  - repeat constructor; vm_compute; done.
Defined.

(** ** New access lists

    A list made with the routines of the run-time library is read back by the walks of
    the access check. *)

(** What is allowed or denied, to whom; [r_bytes] are the bytes of the [SID] at [r_sid]. *)
Record right := mkRight { r_allow : bool; r_mask : Z; r_sid : Z; r_bytes : list Z }.

Definition right_type (r : right) : Z := if r_allow r then ACCESS_ALLOWED_ACE_TYPE else ACCESS_DENIED_ACE_TYPE.
Definition right_ace (r : right) : ace := mkAce (right_type r) 0 (le32 (r_mask r) ++ r_bytes r).
Definition right_entry (r : right) : entry := mkEntry (right_type r) 0 (r_mask r) (r_bytes r).

Definition add_right (m : Mem) (Acl : Z) (r : right) : option (Mem * NTSTATUS) :=
  (if r_allow r then RtlAddAccessAllowedAce else RtlAddAccessDeniedAce) m Acl ACL_REVISION2 (r_mask r) (r_sid r).

(** Each call must succeed. *)
Fixpoint add_rights (m : Mem) (Acl : Z) (rs : list right) : option Mem :=
  match rs with
  | [] => Some m
  | r :: rs => '(m, st) ← add_right m Acl r; if decide (st = STATUS_SUCCESS) then add_rights m Acl rs else None
  end.

(** The bytes that the list needs. *)
Definition acl_length (rs : list right) : Z := 8 + zlen (aces_bytes (right_ace <$> rs)).

(** The [SID] is valid, and not in the [size] bytes of the list. *)
Definition right_ok (m : Mem) (Acl size : Z) (r : right) : Prop :=
  0 ≤ r_mask r < 2 ^ 32 ∧ valid_sid m (r_sid r) (r_bytes r) ∧ (r_sid r + zlen (r_bytes r) ≤ Acl ∨ Acl + size ≤ r_sid r).

(** ** Reading an entry *)

Definition sid_like (s : list Z) : Prop := ∃ c, s !! 1%nat = Some c ∧ zlen s = 8 + 4 * c ∧ 0 ≤ c ≤ 15.

Lemma right_sid m Acl size r : right_ok m Acl size r → sid_like (r_bytes r).
Proof. intros (_ & Hs & _). destruct (valid_sid_count _ _ _ Hs) as (c & _ & Hc & Hlen & Hr). by exists c. Qed.

Lemma right_size r : ace_size (right_ace r) = 8 + zlen (r_bytes r).
Proof. unfold ace_size. cbn [a_body right_ace]. rewrite len_app. change (zlen (le32 _)) with 4. lia. Qed.

(** The fields of an entry in memory. *)
Lemma right_fields m Ace r : 0 ≤ r_mask r < 2 ^ 32 → sid_like (r_bytes r) → holds m Ace (ace_bytes (right_ace r)) →
  AceType m Ace = Some (right_type r) ∧ AceFlags m Ace = Some 0 ∧ Mask m Ace = Some (r_mask r) ∧
  RtlLengthSid m (SidStart Ace) = Some (zlen (r_bytes r)) ∧ sid_bytes m (SidStart Ace) = Some (r_bytes r).
Proof.
  intros Hmask (c & Hc & Hlen & Hr) H. unfold ace_bytes in H. cbn [a_type a_flags a_body right_ace] in H.
  rewrite !holds_app in H. change (zlen (le16 _)) with 2 in H. change (zlen (le32 _)) with 4 in H. change (zlen [_; _]) with 2 in H.
  replace (Ace + 2 + 2) with (Ace + 4) in H by lia. replace (Ace + 4 + 4) with (Ace + 8) in H by lia. destruct H as (H1 & _ & H2 & H3).
  apply holds_cons in H1 as [Ht H1]. apply load8_holds in H1. unfold SidStart, RtlLengthSid, SeLengthSid, SubAuthorityCount, sid_bytes.
  pose proof (H3 _ _ Hc) as Hm. change (Z.of_nat 1) with 1 in Hm. unfold load8 at 1 2. rewrite Hm. cbn [mbind option_bind].
  split_and!; [done|done|apply (load32_holds _ _ _ []); [done|by rewrite app_nil_r]|by rewrite Hlen|].
  replace (Z.to_nat (8 + 4 * c)) with (length (r_bytes r)) by (unfold zlen in Hlen; lia). by apply load_bytes_holds.
Qed.

Definition readable (r : right) : Prop := 0 ≤ r_mask r < 2 ^ 32 ∧ byte_list (r_bytes r) ∧ sid_like (r_bytes r).

Lemma readable_ace r : readable r → ace_ok (right_ace r).
Proof.
  intros (_ & Hb & c & _ & Hlen & Hr). split_and!; cbn [a_type a_flags a_body right_ace]; try lia.
  - unfold right_type. destruct (r_allow r); unfold ACCESS_ALLOWED_ACE_TYPE, ACCESS_DENIED_ACE_TYPE; lia.
  - unfold right_type. destruct (r_allow r); unfold ACCESS_ALLOWED_ACE_TYPE, ACCESS_DENIED_ACE_TYPE; lia.
  - apply byte_list_app. split; [apply byte_le32|done].
  - rewrite right_size. lia.
Qed.

Lemma entries_rights m rs : ∀ Ace l, Forall readable rs → holds m Ace (aces_bytes (right_ace <$> rs) ++ l) →
  entries (length rs) m Ace = Some (right_entry <$> rs).
Proof.
  induction rs as [|r rs IH]; intros Ace l Hrs H; [done|]. apply Forall_cons in Hrs as [Hr Hrs]. rewrite fmap_cons, aces_bytes_cons, <- app_assoc in H.
  destruct (next_ace _ _ _ _ (readable_ace _ Hr) H) as (_ & Hn & Hl). apply holds_app in H as [H _]. destruct Hr as (Hmask & _ & Hsid).
  destruct (right_fields _ _ _ Hmask Hsid H) as (Ht & Hf & HM & _ & HS). cbn [length entries]. rewrite Ht, Hf, HM, HS. cbn [mbind option_bind].
  assert (decides (right_type r) = true) as -> by (unfold right_type; by destruct (r_allow r)). cbn [mbind option_bind].
  rewrite Hn. cbn [mbind option_bind]. by rewrite (IH _ _ Hrs Hl).
Qed.

Lemma check_loop_rights m End rs : ∀ Ace l, Forall readable rs → holds m Ace (aces_bytes (right_ace <$> rs) ++ l) →
  Ace + zlen (aces_bytes (right_ace <$> rs)) ≤ End → check_loop (length rs) m End Ace = Some true.
Proof.
  induction rs as [|r rs IH]; intros Ace l Hrs H Hend; [done|]. apply Forall_cons in Hrs as [Hr Hrs].
  rewrite fmap_cons, aces_bytes_cons, len_app, ace_bytes_size in Hend. rewrite fmap_cons, aces_bytes_cons, <- app_assoc in H.
  destruct (next_ace _ _ _ _ (readable_ace _ Hr) H) as (Hsize & Hn & Hl). apply holds_app in H as [H _]. destruct Hr as (Hmask & _ & Hsid).
  destruct (right_fields _ _ _ Hmask Hsid H) as (Ht & _ & _ & HL & _). destruct Hsid as (c & _ & Hlen & Hr).
  pose proof (right_size r). pose proof (len_nonneg (aces_bytes (right_ace <$> rs))). cbn [length check_loop]. rewrite Hsize. cbn [mbind option_bind].
  rewrite (proj2 (Z.ltb_ge (ace_size (right_ace r)) 4)), (proj2 (Z.ltb_ge End _)) by lia. unfold IsKnownAceType. rewrite Ht. cbn [mbind option_bind].
  assert ((right_type r =? ACCESS_ALLOWED_ACE_TYPE) || (right_type r =? ACCESS_DENIED_ACE_TYPE) || (right_type r =? SYSTEM_AUDIT_ACE_TYPE) ||
    (right_type r =? SYSTEM_ALARM_ACE_TYPE) = true) as -> by (unfold right_type; by destruct (r_allow r)). cbn [mbind option_bind].
  rewrite (proj2 (Z.ltb_ge _ 12)) by lia. unfold SidStart in *. rewrite (proj2 (Z.ltb_ge End _)) by lia. rewrite HL. cbn [mbind option_bind].
  rewrite (proj2 (Z.leb_le _ _)) by lia. rewrite Hn. cbn [mbind option_bind]. apply (IH _ l); [done|done|lia].
Qed.

(** ** Adding entries *)

Lemma valid_sid_outside m m' a n Sid s :
  valid_sid m Sid s → agree_outside a n m m' → Sid + zlen s ≤ a ∨ a + n ≤ Sid → valid_sid m' Sid s.
Proof.
  intros Hs Hag Hdis. destruct (valid_sid_count _ _ _ Hs) as (c & _ & Hc & Hlen & Hr). destruct Hs as (Hv & Hh & Hb & Hex).
  split; [|split; [eapply holds_agree; [exact Hh|exact Hag|done]|split; [done|exact Hex]]]. unfold RtlValidSid, Revision, SubAuthorityCount, load8 in *.
  rewrite !Hag by lia. exact Hv.
Qed.

Lemma right_ok_outside m m' Acl size r : right_ok m Acl size r → agree_outside Acl size m m' → right_ok m' Acl size r.
Proof. intros (H1 & H2 & H3) Hag. split; [done|]. split; [by eapply valid_sid_outside|done]. Qed.

Section rights.
Context (Acl size : Z).
Hypothesis HAcl : 0 ≤ Acl.
Hypothesis Hend : Acl + size < 2 ^ 32.

Lemma add_right_ok m es r : holds_acl m Acl size es → right_ok m Acl size r → room size es (ace_size (right_ace r)) →
  ∃ m', add_right m Acl r = Some (m', STATUS_SUCCESS) ∧ holds_acl m' Acl size (es ++ [right_ace r]) ∧ agree_outside Acl size m m'.
Proof using HAcl Hend.
  intros HA (Hmask & Hs & Hdis) Hroom. unfold add_right, right_ace, right_type in *. destruct (r_allow r).
  - by apply (add_known_ok m Acl size es HA HAcl Hend ACCESS_ALLOWED_ACE_TYPE 0 (r_mask r) (r_sid r) (r_bytes r) Hs).
  - by apply (add_known_ok m Acl size es HA HAcl Hend ACCESS_DENIED_ACE_TYPE 0 (r_mask r) (r_sid r) (r_bytes r) Hs).
Qed.

Lemma add_rights_ok rs : ∀ m es, holds_acl m Acl size es → Forall (right_ok m Acl size) rs →
  8 + zlen (aces_bytes (es ++ (right_ace <$> rs))) ≤ size →
  ∃ m', add_rights m Acl rs = Some m' ∧ holds_acl m' Acl size (es ++ (right_ace <$> rs)) ∧ agree_outside Acl size m m'.
Proof using HAcl Hend.
  induction rs as [|r rs IH]; intros m es HA Hrs Hroom.
  - exists m. rewrite fmap_nil, app_nil_r. split_and!; [done|done|apply agree_refl].
  - apply Forall_cons in Hrs as [Hr Hrs]. rewrite fmap_cons, cons_middle, app_assoc in Hroom |- *.
    pose proof (len_nonneg (aces_bytes (right_ace <$> rs))). rewrite !aces_bytes_app, !len_app in Hroom.
    assert (Hone : zlen (aces_bytes [right_ace r]) = ace_size (right_ace r)) by (rewrite aces_bytes_cons, len_app, ace_bytes_size; change (zlen (aces_bytes [])) with 0; lia).
    destruct (add_right_ok m es r HA Hr) as (m1 & H1 & HA1 & Hag1); [unfold room; lia|].
    destruct (IH m1 _ HA1) as (m2 & H2 & HA2 & Hag2).
    + eapply Forall_impl; [exact Hrs|]. intros r' Hr'. by eapply right_ok_outside.
    + rewrite !aces_bytes_app, !len_app. lia.
    + exists m2. cbn [add_rights]. rewrite H1. cbn [mbind option_bind]. rewrite decide_True by done. split_and!; [done|done|by eapply agree_trans].
Qed.
End rights.

(** C37: If the bytes suffice, RtlCreateAcl and any calls of RtlAddAccessAllowedAce and RtlAddAccessDeniedAce
    after it succeed and write nothing outside of the list; RtlValidAcl and SepCheckAcl then accept the list,
    and the entries that an access check reads from it are those that were added, in their order. *)
Theorem new_acl_roundtrip m Acl size old rs :
  holds m Acl old → zlen old = size → size < 2 ^ 16 → 0 ≤ Acl → Acl + size < 2 ^ 32 →
  Forall (right_ok m Acl size) rs → acl_length rs ≤ size →
  ∃ m0 m', RtlCreateAcl m Acl size ACL_REVISION2 = Some (m0, STATUS_SUCCESS) ∧ add_rights m0 Acl rs = Some m' ∧
    agree_outside Acl size m m' ∧ RtlValidAcl m' Acl = true ∧ SepCheckAcl m' Acl size = Some true ∧
    acl_entries m' Acl = Some (right_entry <$> rs).
Proof.
  intros Hold Hlen Hsize H0 Hend Hrs Hroom. unfold acl_length in Hroom. pose proof (len_nonneg (aces_bytes (right_ace <$> rs))).
  destruct (create_acl_ok m Acl size old Hold Hlen) as (m0 & Hc & HA0 & Hag0); [lia|].
  destruct (add_rights_ok Acl size H0 Hend rs m0 [] HA0) as (m' & Ha & HA & Hag); [|done|].
  { eapply Forall_impl; [exact Hrs|]. intros r Hr. by eapply right_ok_outside. }
  assert (Hread : Forall readable rs).
  { eapply Forall_impl; [exact Hrs|]. intros r Hr. pose proof (right_sid _ _ _ _ Hr). destruct Hr as (Hm & (_ & _ & Hb & _) & _). split; [done|by split]. }
  exists m0, m'. pose proof HA as (Hes & _). destruct (acl_parts _ _ _ _ HA) as (b1 & b2 & b3 & rest & HF).
  pose proof (first_free_ok _ _ _ _ _ _ _ _ Hes HF) as Hfree. destruct HF as [_ Hr Hsz Hcount He Hsum _]. pose proof (len_nonneg rest).
  rewrite app_nil_l in *. assert (Hn : Z.to_nat (zlen (right_ace <$> rs)) = length rs) by (unfold zlen; rewrite length_fmap; lia).
  split_and!; [done|done|by eapply agree_trans| | |].
  - unfold RtlValidAcl. rewrite Hr. cbn [mbind option_bind negb Z.eqb Pos.eqb ACL_REVISION2]. by rewrite Hfree.
  - unfold SepCheckAcl. rewrite Hr, Hsz, Hcount. cbn [mbind option_bind negb Z.eqb Pos.eqb ACL_REVISION2]. rewrite u16_small, Z.eqb_refl by lia. cbn [negb].
    rewrite Hn. apply (check_loop_rights _ _ _ _ rest); [done|done|unfold FirstAce; lia].
  - unfold acl_entries. rewrite Hcount. cbn [mbind option_bind]. rewrite Hn. by apply (entries_rights _ _ _ rest).
Qed.

(** The list of the example. *)
Lemma new_acl_roundtrip_witness :
  let rs := [mkRight false 0x20 BobSid bob; mkRight true 0x22 SeWorldSid world] in
  ∃ m0 m', RtlCreateAcl blank ExampleAcl 80 ACL_REVISION2 = Some (m0, STATUS_SUCCESS) ∧ add_rights m0 ExampleAcl rs = Some m' ∧
    agree_outside ExampleAcl 80 blank m' ∧ RtlValidAcl m' ExampleAcl = true ∧ SepCheckAcl m' ExampleAcl 80 = Some true ∧
    acl_entries m' ExampleAcl = Some (right_entry <$> rs).
Proof.
  apply (new_acl_roundtrip blank ExampleAcl 80 (replicate 80 0)).
  - apply holdsb_ok. vm_compute. reflexivity.
  - reflexivity.
  - reflexivity.
  - vm_compute. discriminate.
  - reflexivity.
  - repeat constructor; simpl; try done; try (apply holdsb_ok; vm_compute; reflexivity); try (exists 1; by split); right; vm_compute; discriminate.
  - vm_compute. discriminate.
Defined.
